(* ===== verification/_CoqProject ===== *)
-Q . S2P
Prelude.v
Machine.v
Spinlock.v
Sleeplock.v
Mem.v
Layout.v
Kalloc.v
Vm.v
VmInv.v
VmWalk.v
VmMap.v
VmUser.v
VmAlloc.v
VmSpec.v
VmCopy.v
VmFree.v
VmTheorems.v
Bio.v
BioInv.v
BioSpec.v
BioRefine.v
Virtio.v
VirtioSpec.v
FsHdr.v
Log.v
LogDisk.v
LogSpec.v
LogCommit.v
LogRun.v
LogOps.v
LogTheorems.v
Printf.v
Uart.v
Console.v
Fs.v
Mkfs.v
FsLogic.v
FsBitmap.v
FsFile.v
FsRead.v
FsWrite.v
FsContent.v
FsInode.v
FsDir.v
FsAtomic.v
Pipe.v
PipeSpec.v
File.v
FsTheorems.v
MkfsSpec.v
MkfsInv.v
MkfsTheorems.v
MkfsRead.v
Proc.v
ProcInv.v
ProcSafe.v
ProcLife.v
Sysarg.v
Sysproc.v
ProcSpec.v
Exec.v
Sysfile.v
Syscall.v
Trap.v
SyscallSafe.v
Asm.v
Boot.v
User.v
Grep.v
Uprogs.v
Grind.v
Umalloc.v
UmallocSpec.v
UmallocTheorems.v
Sh.v
ShParse.v
ShPrint.v
Sched.v
SchedInv.v
SchedTheorems.v
