(* ===== verification/Prelude.v ===== *)
(** * xv6 (OSLab1): a verification development

    The program is the xv6 teaching operating system for RISC-V, with the system calls that
    this repository adds (procname, state, year), its user programs and the program that
    makes its disk image.  The development models it in Rocq, function by function, and
    proves the properties that make it correct.

    ** The program and the files that model it

    Kernel, from the bottom up; [src/kernel/x.c] is written x.c.

    - Machine code.  Asm: trampoline.S, kernelvec.S and swtch.S as lists of instructions, run
      by [exec] on a [hart] (registers, control and status registers, memory, mode).  Boot:
      entry.S, start.c, the accessors of riscv.h, uartinit of uart.c, and main.c as sequences
      of calls that the harts interleave ([hart_step], [booting]).
    - Locks.  Spinlock: spinlock.c, each function cut into its accesses to shared memory, as a
      step relation on harts.  Sleeplock: sleeplock.c.  Machine: the monad [M D A] in which
      all other kernel code is written: data [D], held spin locks, wakeups and console bytes,
      and a result that is a value, a panic, a point where the process sleeps and what it does
      when it is woken up, or a loop that does not end.
    - Memory.  Mem: bytes, little-endian words and string.c.  Layout: riscv.h, memlayout.h and
      param.h.  Kalloc: kalloc.c.  Vm: vm.c on page tables that are bytes of memory; VmInv,
      VmWalk, VmMap, VmUser, VmAlloc, VmSpec, VmCopy, VmFree and VmTheorems: its theory.
    - Disk.  Virtio: virtio_disk.c; VirtioSpec: what a request does, and the instance of the
      class [DiskDriver] that the buffer cache is proved against.  Bio: bio.c; BioInv, BioSpec
      and BioRefine: the cache as an array of blocks.  Log: log.c; LogDisk, LogSpec, LogCommit,
      LogRun, LogOps and LogTheorems: transactions and crashes.
    - File system.  FsHdr: fs.h.  Fs: fs.c.  FsLogic: a logic for code of fs.c on top of the
      log.  FsBitmap, FsFile, FsRead, FsWrite, FsContent: blocks and contents of files.
      FsInode: the inode table as a cache of the inodes on disk.  FsDir: directories and
      paths.  FsAtomic and FsTheorems: the results.  Pipe, PipeSpec: pipe.c.  File: file.c.
    - Image.  Mkfs: src/mkfs/mkfs.c.  MkfsSpec, MkfsInv, MkfsTheorems: the image it makes.
      MkfsRead: the kernel on that image.
    - Processes and system calls.  Proc: proc.c.  Sysarg and Syscall: syscall.c.  Sysproc,
      Sysfile, Exec: sysproc.c, sysfile.c, exec.c.  Trap: trap.c and plic.c.  ProcInv, ProcSafe,
      ProcLife, ProcSpec, SyscallSafe: the process table and what system calls do to it.
      Sched, SchedInv, SchedTheorems: the functions of proc.c that change the state of a
      process, on several harts at once.
    - Console.  Printf, Uart, Console: printf.c, uart.c, console.c.

    User programs, under src/user, are in the monad [U S A] over the system calls, which the
    record [os] of file User collects: User (ulib.c, printf.c), Grep, Uprogs (the small
    programs), Grind, Umalloc with UmallocSpec and UmallocTheorems, and the shell in Sh, ShParse
    and ShPrint.

    C integers are integers of [Z] in the range of their type, with the conversions of this
    file where an operation can leave it.  A pointer to a structure of a table is its index,
    a null pointer [None]; a pointer into memory is an address.  A loop of the source is a
    [Fixpoint] named after its function.

    ** What is proved

    - Crash safety: at any moment of any sequence of transactions, and again during recovery,
      a crash leaves the committed transactions and nothing else ([crash_safety],
      [recovery_idempotent]); a write to a file is such a transaction, with exactly the
      bytes of writei ([write_atomic], [write_read]), and so is a name added to a directory
      ([dirlink_atomic]), which fails only if the directory cannot grow; the reservation of begin_op
      is nevertheless too small for the log that mkfs makes ([log_reservation_overrun]).
    - From the image to the file: mkfs makes a well-formed image ([mkfs_image]), the kernel
      mounts it ([fsinit_mounts]), namex finds what a search of the directory tree finds
      ([namex_spec]), and each file is read back under its name ([mkfs_boot_read]); where the
      size of the root directory is wrong ([mkfs_root_hole]).
    - The buffer cache refines an array of blocks ([bcache_refines]), over a driver that moves
      one block per request, or panics when the device reports an error ([virtio_disk_rw_spec]).
    - Concurrency: mutual exclusion of both kinds of locks ([spin_mutual_exclusion],
      [sleeplock_mutual_exclusion]); a process runs on at most one hart, switches are legal
      and made with interrupts off, and no wakeup is lost ([one_hart_per_process], [switches_never_fail],
      [no_lost_wakeup]); pipes are bounded queues whatever others do ([pipewrite_spec],
      [piperead_spec]); no hart uses the kernel before it is initialised ([boot_order]).
    - The boundary to user space: a trap and the return from it change no register but the
      result ([trap_roundtrip]), traps in the kernel and timer interrupts change none
      ([kernelvec_transparent], [timer_tick], which is also about the control and status
      registers), swtch returns to its caller ([swtch_returns]),
      and every hart boots into supervisor mode ([hart_boots]).
    - Memory: pages are handed out once ([kalloc_never_reuses]), copied and freed without
      leaks ([uvmcopy_spec], [uvmfree_spec]), and bytes survive copyout and copyin
      ([copyout_copyin]).
    - Processes: the table is well formed from procinit on ([procinit_types]) through any
      system call, which leaves the entries of other live processes alone but for waking, killing
      and reparenting them ([syscall_keeps_table]; what the pages of a process hold is not part
      of it); kill of pid 0 and a lookup of a non-negative pid that no entry has do what they
      should not ([kill_zero_kills_next_child], [unknown_pid_panics]).
    - User programs: the matcher of grep and its line filter ([match_decides],
      [grep_prints_matching]), the parser of the shell ([parsecmd_words], [parse_print]), malloc
      (which fails only if sbrk refuses, [malloc_safe]; [malloc_huge_returns_break]), the generator
      of grind ([do_rand_spec]).

    ** Bounds and fuel

    Loops with a bound in the source take it as their fuel: a loop over a table its size, a
    loop over pages the number of pages of the address space, a loop over bytes their number,
    a scan of the bitmap the number of its bits, a path walk the length of the path.  That
    they never run out is part of the theorems, which state that the code returns.  A process
    that sleeps has no bound; [fuel] there is how often it may be woken up for nothing, and
    running out is the result [Diverge] or [UFuel], which the theorems of total correctness
    exclude and the theorems about invariants allow at any moment.  Loops that never end
    (scheduler, the rounds of init, of the shell and of grind) are run for any number of
    rounds.

    ** Hypotheses

    The disk is a device that follows the virtio specification: it serves a request after it is
    notified, and says whether it succeeded ([BlockDevice]); harts see one
    memory, as the fences of the code intend; a page table is a function from addresses to
    addresses in file Asm; the C function called by kernelvec keeps the stack pointer and the
    frame of its caller; the host on which mkfs runs carries out its writes.  Each is a named
    hypothesis, with an instance in the witness of the theorem.

    ** Not modelled

    - usertests.c: drivers that call the kernel with fixed arguments; what they call is
      modelled.
    - ramdisk.c: the Makefile does not compile it, and it uses fields that struct buf no
      longer has.
    - defs.h, types.h, user.h, syscall.h: declarations.  usys.pl: stubs of three instructions.
      initcode.S: the bytes are in proc.c, and in [Proc.initcode].
    - In Proc, which sees one hart, a free spin lock has no state, so initlock does nothing, and
      interrupts are on exactly when no spin lock is held; noff, intena and the interrupt flag
      are in Spinlock and Sched.  In main.c (Boot) a call is its beginning and its end, and a
      barrier is the order of the steps.
    - The translation of C to machine code, the caches of page tables (a translation is taken
      from satp at each access), weak memory, the timing of devices, and what the linker
      decides, which is a hypothesis where it matters.
    - Makefile, linker scripts, grading scripts and the notebook of hw03: no part of the
      running system. *)

From stdpp Require Export prelude gmap list fin_maps strings.
From Stdlib Require Export ZArith Lia.
#[export] Set Default Goal Selector "!".
Open Scope Z_scope.

(** ** Machine integers

    C values are integers of [Z] kept in the range of their type; every
    operation whose C counterpart can leave the range re-normalises its result
    with one of the conversions below.  The unsigned types wrap ([mod 2^w]);
    [s32] and [s64] are the conversions to [int] and [long] that gcc defines (wrap to two's
    complement). *)

Definition u8 (x : Z) : Z := x mod 2 ^ 8.

Definition u16 (x : Z) : Z := x mod 2 ^ 16.

Definition u32 (x : Z) : Z := x mod 2 ^ 32.

Definition u64 (x : Z) : Z := x mod 2 ^ 64.

Definition s32 (x : Z) : Z := (x + 2 ^ 31) mod 2 ^ 32 - 2 ^ 31.

Definition s64 (x : Z) : Z := (x + 2 ^ 63) mod 2 ^ 64 - 2 ^ 63.

(** A [char] is unsigned with gcc on RISC-V; bytes of memory are kept in [0, 256). *)

Definition is_u64 (x : Z) : Prop := 0 <= x < 2 ^ 64.

(** ** Hint database and tactics *)

Create HintDb xv6 discriminated.
#[export] Hint Constants Opaque : xv6.

Ltac zbool :=
  repeat match goal with
  | H : andb _ _ = true |- _ => apply andb_true_iff in H; destruct H
  | H : andb _ _ = false |- _ => apply andb_false_iff in H
  | H : orb _ _ = true |- _ => apply orb_true_iff in H
  | H : orb _ _ = false |- _ => apply orb_false_iff in H; destruct H
  | H : negb _ = true |- _ => apply negb_true_iff in H
  | H : negb _ = false |- _ => apply negb_false_iff in H
  | H : (_ =? _) = true |- _ => apply Z.eqb_eq in H
  | H : (_ =? _) = false |- _ => apply Z.eqb_neq in H
  | H : (_ <? _) = true |- _ => apply Z.ltb_lt in H
  | H : (_ <? _) = false |- _ => apply Z.ltb_ge in H
  | H : (_ <=? _) = true |- _ => apply Z.leb_le in H
  | H : (_ <=? _) = false |- _ => apply Z.leb_gt in H
  end.

(** Decide a boolean integer test of the goal by [lia], in either direction. *)
Ltac ztest b :=
  first [ replace b with true by (symmetry; first
            [apply Z.eqb_eq; lia | apply Z.ltb_lt; lia | apply Z.leb_le; lia])
        | replace b with false by (symmetry; first
            [apply Z.eqb_neq; lia | apply Z.ltb_ge; lia | apply Z.leb_gt; lia]) ].

Ltac ztests :=
  repeat match goal with
  | |- context [?a =? ?b] => progress ztest (a =? b)
  | |- context [?a <? ?b] => progress ztest (a <? b)
  | |- context [?a <=? ?b] => progress ztest (a <=? b)
  end.

(** [lia] after turning divisions and remainders into their equations. *)
Ltac zdm := Z.div_mod_to_equations; lia.

(** ** Integer lemmas *)

Lemma u64_small x : 0 <= x < 2 ^ 64 -> u64 x = x.
Proof. intros. unfold u64. by apply Z.mod_small. Qed.

Lemma u64_range x : 0 <= u64 x < 2 ^ 64.
Proof. unfold u64. apply Z.mod_pos_bound. lia. Qed.

Lemma u32_small x : 0 <= x < 2 ^ 32 -> u32 x = x.
Proof. intros. unfold u32. by apply Z.mod_small. Qed.

Lemma u32_range x : 0 <= u32 x < 2 ^ 32.
Proof. unfold u32. apply Z.mod_pos_bound. lia. Qed.

Lemma u8_small x : 0 <= x < 256 -> u8 x = x.
Proof. intros. unfold u8. apply Z.mod_small. lia. Qed.

Lemma u8_range x : 0 <= u8 x < 256.
Proof. unfold u8. apply Z.mod_pos_bound. lia. Qed.

Lemma s32_small x : - 2 ^ 31 <= x < 2 ^ 31 -> s32 x = x.
Proof. intros. unfold s32. rewrite Z.mod_small; lia. Qed.

Lemma s64_small x : - 2 ^ 63 <= x < 2 ^ 63 -> s64 x = x.
Proof. intros. unfold s64. rewrite Z.mod_small; lia. Qed.

#[export] Hint Resolve u64_range u32_range u8_range : xv6.

(** Masking with [2^k - 1] is the remainder, clearing those bits rounds down. *)
Lemma land_low_mask x k : 0 <= k -> Z.land x (2 ^ k - 1) = x mod 2 ^ k.
Proof. intros. rewrite <-Z.land_ones by done. by rewrite Z.ones_equiv, Z.sub_1_r. Qed.

Lemma testbit_high x w n : 0 <= w <= n -> 0 <= x < 2 ^ w -> Z.testbit x n = false.
Proof.
  intros Hn Hx. rewrite <-(Z.mod_small x (2 ^ w)) by done.
  apply Z.mod_pow2_bits_high. lia.
Qed.

Lemma land_high_mask x k w :
  0 <= k <= w -> 0 <= x < 2 ^ w ->
  Z.land x (2 ^ w - 2 ^ k) = x - x mod 2 ^ k.
Proof.
  intros Hk Hx.
  assert (Hw : 2 ^ w - 2 ^ k = Z.shiftl (Z.ones (w - k)) k).
  { rewrite Z.shiftl_mul_pow2, Z.ones_equiv by lia.
    rewrite <-Z.sub_1_r, Z.mul_sub_distr_r, <-Z.pow_add_r by lia.
    replace (w - k + k) with w by lia. by rewrite Z.mul_1_l. }
  assert (Hm : Z.land x (2 ^ w - 2 ^ k) = Z.ldiff x (Z.ones k)).
  { apply Z.bits_inj'. intros n Hn.
    rewrite Hw, Z.land_spec, Z.ldiff_spec, Z.shiftl_spec by done.
    destruct (decide (n < k)).
    - rewrite (Z.testbit_neg_r _ (n - k)), (Z.ones_spec_low k) by lia.
      by destruct (Z.testbit x n).
    - rewrite (Z.ones_spec_high k) by lia. destruct (decide (n < w)).
      + rewrite Z.ones_spec_low by lia. by destruct (Z.testbit x n).
      + by rewrite (testbit_high x w n) by lia. }
  rewrite Hm, Z.ldiff_ones_r, Z.shiftl_mul_pow2, Z.shiftr_div_pow2 by lia.
  pose proof (Z.div_mod x (2 ^ k)). lia.
Qed.

(** Two operands without common bits: [lor] is addition. *)
Lemma lor_disjoint_add a b k :
  0 <= k -> 0 <= b < 2 ^ k -> a mod 2 ^ k = 0 -> Z.lor a b = a + b.
Proof.
  intros Hk Hb Ha.
  assert (Hl : Z.land a b = 0).
  { apply Z.bits_inj'. intros n Hn. rewrite Z.land_spec, Z.bits_0.
    destruct (decide (n < k)).
    - rewrite <-(Z.mod_pow2_bits_low a k) by lia. by rewrite Ha, Z.bits_0.
    - by rewrite (testbit_high b k n), andb_false_r by lia. }
  rewrite <-Z.lxor_lor by done. symmetry. by apply Z.add_nocarry_lxor.
Qed.

Lemma lor_range a b w :
  0 <= w -> 0 <= a < 2 ^ w -> 0 <= b < 2 ^ w -> 0 <= Z.lor a b < 2 ^ w.
Proof.
  intros Hw Ha Hb. split; [apply Z.lor_nonneg; lia|].
  destruct (decide (Z.lor a b = 0)) as [->|Hne]; [lia|].
  assert (0 <= Z.lor a b) by (apply Z.lor_nonneg; lia).
  apply Z.log2_lt_pow2; [lia|]. rewrite Z.log2_lor by lia.
  apply Z.max_lub_lt.
  - destruct (decide (a = 0)) as [->|]; [|apply Z.log2_lt_pow2; lia].
    destruct (decide (w = 0)) as [->|]; [|rewrite Z.log2_nonpos; lia].
    exfalso. change (2 ^ 0) with 1 in *. assert (b = 0) as -> by lia. done.
  - destruct (decide (b = 0)) as [->|]; [|apply Z.log2_lt_pow2; lia].
    destruct (decide (w = 0)) as [->|]; [|rewrite Z.log2_nonpos; lia].
    exfalso. change (2 ^ 0) with 1 in *. assert (a = 0) as -> by lia. done.
Qed.
