(* ===== verification/Machine.v ===== *)
(** * The kernel monad

    Kernel functions are modelled as computations [M D A] that run on one hart:
    they read and change the data [D] of a component, hold spin locks, issue
    wakeups and console bytes, and end by returning, by calling [panic], by
    blocking in [sleep], or by never returning.  The spin-lock operations used
    here are the client view of kernel/spinlock.c (the locks the running hart
    holds); file Spinlock models the C code behind them and proves that it
    implements this view.  [sleep] and [wakeup] are the client view of
    kernel/proc.c. *)

From S2P Require Import Prelude.

(** The spin locks of the kernel, by the global or the object they live in. *)
Inductive lockid :=
  | LkKmem | LkPid | LkWait | LkProc (i : Z) | LkFtable | LkPipe (pa : Z)
  | LkBcache | LkLog | LkItable | LkSleep (i : Z) | LkCons | LkPr | LkUart
  | LkTicks | LkDisk.

#[export] Instance lockid_eq_dec : EqDecision lockid.
Proof. solve_decision. Defined.

(** Sleep channels: the addresses passed to [sleep] and [wakeup]. *)
Inductive chan :=
  | ChProc (i : Z) | ChPipeR (pa : Z) | ChPipeW (pa : Z) | ChLog | ChSleep (i : Z)
  | ChTicks | ChConsR | ChUart | ChDiskFree | ChBuf (i : Z).

#[export] Instance chan_eq_dec : EqDecision chan.
Proof. solve_decision. Defined.

(** What is global to a hart: the spin locks it holds, and the traces of
    [wakeup] calls and of console bytes, most recent first. *)
Record world := World {
  held : list lockid;
  wakeups : list chan;
  cons_out : list Z }.

Definition set_held (h : list lockid) (w : world) : world :=
  World h (wakeups w) (cons_out w).

Inductive res (D A : Type) :=
  | Ret (w : world) (d : D) (a : A)
  | Panic (msg : string)
  | Block (c : chan) (w : world) (d : D) (k : world -> D -> res D A)
  | Diverge.
Arguments Ret {D A}.
Arguments Panic {D A}.
Arguments Block {D A}.
Arguments Diverge {D A}.

Definition M (D A : Type) : Type := world -> D -> res D A.

Fixpoint bind_res {D A B} (r : res D A) (f : A -> M D B) : res D B :=
  match r with
  | Ret w d a => f a w d
  | Panic msg => Panic msg
  | Block c w d k => Block c w d (fun w' d' => bind_res (k w' d') f)
  | Diverge => Diverge
  end.

#[export] Instance M_ret D : MRet (M D) := fun A a w d => Ret w d a.

#[export] Instance M_bind D : MBind (M D) := fun A B f m w d => bind_res (m w d) f.

Section operations.
Context {D : Type}.

Definition gets {A} (f : D -> A) : M D A := fun w d => Ret w d (f d).

Definition modify (f : D -> D) : M D unit := fun w d => Ret w (f d) tt.

Definition panic {A} (msg : string) : M D A := fun _ _ => Panic msg.

Definition diverge {A} : M D A := fun _ _ => Diverge.

Definition when (b : bool) (m : M D unit) : M D unit := if b then m else mret tt.

(** [acquire]: a second acquisition by the same hart panics; otherwise the
    call returns when the lock is free, with the lock held. *)
Definition acquire (lk : lockid) : M D unit := fun w d =>
  if decide (lk ∈ held w) then Panic "acquire"
  else Ret (set_held (lk :: held w) w) d tt.

Definition release (lk : lockid) : M D unit := fun w d =>
  if decide (lk ∈ held w) then Ret (set_held (filter (.≠ lk) (held w)) w) d tt
  else Panic "release".

(** [sleep chan lk]: [sched] insists that [lk] is the only lock held; the lock
    is free while the process is off the processor, and held again on return. *)
Definition sleep (c : chan) (lk : lockid) : M D unit := fun w d =>
  if decide (lk ∈ held w) then
    if decide (held w = [lk]) then
      Block c (set_held [] w) d (fun w' d' => Ret (set_held [lk] w') d' tt)
    else Panic "sched locks"
  else Panic "release".

Definition wakeup (c : chan) : M D unit := fun w d =>
  Ret (World (held w) (c :: wakeups w) (cons_out w)) d tt.

(** One byte sent to the console. *)
Definition conschar (b : Z) : M D unit := fun w d =>
  Ret (World (held w) (wakeups w) (b :: cons_out w)) d tt.
End operations.

(** ** Lenses: a component's computations inside a larger state *)

Record lens (S T : Type) := Lens { view : S -> T; upd : T -> S -> S }.
Arguments view {S T}.
Arguments upd {S T}.

Fixpoint zoom_res {S T A} (l : lens S T) (s : S) (r : res T A) : res S A :=
  match r with
  | Ret w t a => Ret w (upd l t s) a
  | Panic msg => Panic msg
  | Block c w t k =>
      Block c w (upd l t s) (fun w' s' => zoom_res l s' (k w' (view l s')))
  | Diverge => Diverge
  end.

Definition zoom {S T A} (l : lens S T) (m : M T A) : M S A := fun w s =>
  zoom_res l s (m w (view l s)).

(** ** Running computations *)

(** The data after a run that returns. *)
Definition exec {D A} (m : M D A) (w : world) (d : D) : D :=
  match m w d with Ret _ d' _ => d' | _ => d end.

Section running.
Context {D : Type}.
Implicit Types (w : world) (d : D).

Lemma run_ret {A} (a : A) w d : (mret a : M D A) w d = Ret w d a.
Proof. done. Qed.

Lemma run_bind {A B} (m : M D A) (f : A -> M D B) w d w' d' a :
  m w d = Ret w' d' a -> (m ≫= f) w d = f a w' d'.
Proof. intros H. unfold mbind, M_bind. by rewrite H. Qed.

Lemma run_bind_panic {A B} (m : M D A) (f : A -> M D B) w d msg :
  m w d = Panic msg -> (m ≫= f) w d = Panic msg.
Proof. intros H. unfold mbind, M_bind. by rewrite H. Qed.

Lemma run_bind_inv {A B} (m : M D A) (f : A -> M D B) w d w' d' b :
  (m ≫= f) w d = Ret w' d' b ->
  exists w1 d1 a, m w d = Ret w1 d1 a /\ f a w1 d1 = Ret w' d' b.
Proof.
  unfold mbind, M_bind. destruct (m w d); simpl; intros H; try done. eauto.
Qed.

Lemma run_acquire {B} (f : unit -> M D B) lk w d :
  lk ∉ held w ->
  (acquire lk ≫= f) w d = f tt (set_held (lk :: held w) w) d.
Proof.
  intros H. apply run_bind. unfold acquire. by rewrite decide_False by done.
Qed.

Lemma run_release {B} (f : unit -> M D B) lk w d :
  lk ∈ held w ->
  (release lk ≫= f) w d = f tt (set_held (filter (.≠ lk) (held w)) w) d.
Proof.
  intros H. apply run_bind. unfold release. by rewrite decide_True by done.
Qed.

(** Releasing a lock just acquired gives back the world the caller had. *)
Lemma filter_acquired (lk : lockid) h : lk ∉ h -> filter (.≠ lk) (lk :: h) = h.
Proof.
  intros H. rewrite filter_cons_False by (intros ?; done).
  induction h as [|x h IH]; [done|].
  rewrite not_elem_of_cons in H. destruct H.
  rewrite filter_cons_True by done. by rewrite IH.
Qed.

Lemma release_acquired lk w d :
  lk ∉ held w ->
  release lk (set_held (lk :: held w) w) d = Ret w d tt.
Proof.
  intros H. unfold release. rewrite decide_True by (simpl; left).
  f_equal. unfold set_held; simpl. destruct w; simpl in *.
  by rewrite filter_acquired.
Qed.

Lemma run_release_acquired {B} (f : unit -> M D B) lk w d :
  lk ∉ held w ->
  (release lk ≫= f) (set_held (lk :: held w) w) d = f tt w d.
Proof. intros. by apply run_bind, release_acquired. Qed.
End running.

Lemma zoom_ret {S T A} (l : lens S T) (m : M T A) w s w' t a :
  m w (view l s) = Ret w' t a -> zoom l m w s = Ret w' (upd l t s) a.
Proof. intros H. unfold zoom. by rewrite H. Qed.

Lemma zoom_panic {S T A} (l : lens S T) (m : M T A) w s msg :
  m w (view l s) = Panic msg -> zoom l m w s = Panic msg.
Proof. intros H. unfold zoom. by rewrite H. Qed.

(** [run_step H] performs the first computation of a bind with the equation
    [H]; [run_simpl] performs the primitive ones. *)
Ltac run_step H := erewrite run_bind; [|eapply H].

Lemma run_gets {D A B} (g : D -> A) (f : A -> M D B) w d :
  (gets g ≫= f) w d = f (g d) w d.
Proof. done. Qed.

Lemma run_modify {D B} (g : D -> D) (f : unit -> M D B) w d :
  (modify g ≫= f) w d = f tt w (g d).
Proof. done. Qed.

Lemma run_bind_ret {D A B} (a : A) (f : A -> M D B) w d :
  (mret a ≫= f) w d = f a w d.
Proof. done. Qed.

Lemma run_wakeup {D B} c (f : unit -> M D B) w d :
  (wakeup c ≫= f) w d =
  f tt (World (held w) (c :: wakeups w) (cons_out w)) d.
Proof. done. Qed.

Create Rewrite HintDb run.
#[export] Hint Rewrite @run_gets @run_modify @run_bind_ret @run_ret @run_wakeup : run.

Ltac run_simpl := repeat progress (autorewrite with run; simpl).
