(* ===== verification/Spinlock.v ===== *)
(** * kernel/spinlock.c: spin locks

    [acquire] and [release] run on several harts at once.  Their bodies are cut
    into the accesses to shared memory they make; a step of the system lets one
    hart make its next access.  [held] records, for each hart, the locks between
    its successful test-and-set and its lock release. *)

From stdpp Require Import functions.
From S2P Require Import Prelude Machine.

(** [struct spinlock]; [lk_cpu] is the index of the [struct cpu] it points to. *)
Record spinlock := Spinlock { locked : Z; lk_name : string; lk_cpu : option nat }.

Definition initlock (name : string) : spinlock := Spinlock 0 name None.

(** [struct cpu], without the running process; [sie] is the interrupt-enable bit
    of the hart's [sstatus]. *)
Record cpu := Cpu { noff : Z; intena : bool; sie : bool }.

Definition push_off (c : cpu) : cpu :=
  let old := sie c in
  Cpu (noff c + 1) (if noff c =? 0 then old else intena c) false.

Definition pop_off (c : cpu) : string + cpu :=
  if sie c then inl "pop_off - interruptible"%string
  else if noff c <? 1 then inl "pop_off"%string
  else
    let n := noff c - 1 in
    inr (Cpu n (intena c) ((n =? 0) && intena c)).

Definition holding (lk : spinlock) (h : nat) : bool :=
  negb (locked lk =? 0) && bool_decide (lk_cpu lk = Some h).

(** Where a hart is: outside the lock functions, in [acquire] after [push_off]
    ([Acq1]), after reading [locked] in [holding] ([Acq2]), spinning, or before
    it stores [lk->cpu] ([Got]); in [release] after reading [locked] ([Rel1]),
    before clearing [lk->cpu] ([Rel2]), before the lock release ([Rel3]) or
    before [pop_off] ([Rel4]). *)
Inductive pc :=
  | Run
  | Acq1 (lk : lockid) | Acq2 (lk : lockid) | Spin (lk : lockid) | Got (lk : lockid)
  | Rel1 (lk : lockid) | Rel2 (lk : lockid) | Rel3 (lk : lockid) | Rel4
  | Panicked (msg : string).

Record hart := Hart { h_cpu : cpu; h_pc : pc; h_held : list lockid }.

Record mstate := MState { locks : lockid -> spinlock; harts : nat -> hart }.

(** What a hart outside the lock functions does next: call one of them, switch
    interrupts, or restore [intena] as [sched] does. *)
Inductive call := CAcquire (lk : lockid) | CRelease (lk : lockid) | CIntr (b : bool) | CIntena (b : bool).

Section step.
Variable h : nat.

Definition set_hart (s : mstate) (x : hart) : mstate := MState (locks s) (<[h := x]> (harts s)).

Definition set_lock (s : mstate) (lk : lockid) (l : spinlock) : mstate :=
  MState (<[lk := l]> (locks s)) (harts s).

Definition goto (s : mstate) (p : pc) : mstate :=
  let x := harts s h in set_hart s (Hart (h_cpu x) p (h_held x)).

(** The next access of hart [h]; interrupts are enabled only outside all
    [push_off] sections. *)
Definition next (c : call) (s : mstate) : mstate :=
  let x := harts s h in
  match h_pc x with
  | Run =>
      match c with
      | CAcquire lk => set_hart s (Hart (push_off (h_cpu x)) (Acq1 lk) (h_held x))
      | CRelease lk =>
          if locked (locks s lk) =? 0 then goto s (Panicked "release") else goto s (Rel1 lk)
      | CIntr b =>
          if noff (h_cpu x) =? 0
          then set_hart s (Hart (Cpu 0 (intena (h_cpu x)) b) Run (h_held x))
          else s
      | CIntena b => set_hart s (Hart (Cpu (noff (h_cpu x)) b (sie (h_cpu x))) Run (h_held x))
      end
  | Acq1 lk => if locked (locks s lk) =? 0 then goto s (Spin lk) else goto s (Acq2 lk)
  | Acq2 lk =>
      if bool_decide (lk_cpu (locks s lk) = Some h) then goto s (Panicked "acquire")
      else goto s (Spin lk)
  | Spin lk =>
      let l := locks s lk in
      let s := set_lock s lk (Spinlock 1 (lk_name l) (lk_cpu l)) in
      if locked l =? 0 then set_hart s (Hart (h_cpu x) (Got lk) (lk :: h_held x)) else s
  | Got lk =>
      let l := locks s lk in
      goto (set_lock s lk (Spinlock (locked l) (lk_name l) (Some h))) Run
  | Rel1 lk =>
      if bool_decide (lk_cpu (locks s lk) = Some h) then goto s (Rel2 lk)
      else goto s (Panicked "release")
  | Rel2 lk =>
      let l := locks s lk in
      goto (set_lock s lk (Spinlock (locked l) (lk_name l) None)) (Rel3 lk)
  | Rel3 lk =>
      let l := locks s lk in
      set_hart (set_lock s lk (Spinlock 0 (lk_name l) (lk_cpu l)))
        (Hart (h_cpu x) Rel4 (filter (.≠ lk) (h_held x)))
  | Rel4 =>
      match pop_off (h_cpu x) with
      | inl msg => goto s (Panicked msg)
      | inr c => set_hart s (Hart c Run (h_held x))
      end
  | Panicked _ => s
  end.
End step.

Inductive reachable (names : lockid -> string) : mstate -> Prop :=
  | reach_init b :
      reachable names
        (MState (fun lk => initlock (names lk)) (fun h => Hart (Cpu 0 false (b h)) Run []))
  | reach_step h c s : reachable names s -> reachable names (next h c s).

(** ** Invariant *)

(** How many [push_off] the lock functions have done beyond the held locks. *)
Definition extra (p : pc) : Z :=
  match p with Acq1 _ | Acq2 _ | Spin _ | Rel4 => 1 | _ => 0 end.

(** [lk->cpu] does not name the holder: just before it is set, and after it is
    cleared. *)
Definition between (p : pc) (lk : lockid) : Prop := p = Got lk \/ p = Rel3 lk.

(** What the program point says about the lock in question. *)
Definition pc_ok (p : pc) (hd : list lockid) : Prop :=
  match p with
  | Spin lk => lk ∉ hd
  | Got lk | Rel2 lk | Rel3 lk => lk ∈ hd
  | _ => True
  end.

Record minv (s : mstate) : Prop := {
  mi_locked lk : locked (locks s lk) <> 0 <-> exists h, lk ∈ h_held (harts s h);
  mi_excl lk h h' : lk ∈ h_held (harts s h) -> lk ∈ h_held (harts s h') -> h = h';
  mi_cpu lk h : lk_cpu (locks s lk) = Some h <->
    lk ∈ h_held (harts s h) /\ ~ between (h_pc (harts s h)) lk;
  mi_nodup h : NoDup (h_held (harts s h));
  mi_pc h : pc_ok (h_pc (harts s h)) (h_held (harts s h));
  mi_noff h : noff (h_cpu (harts s h)) =
    Z.of_nat (length (h_held (harts s h))) + extra (h_pc (harts s h)) \/
    exists msg, h_pc (harts s h) = Panicked msg;
  mi_sie h : 0 < noff (h_cpu (harts s h)) -> sie (h_cpu (harts s h)) = false }.

(** A step of hart [h] that changes at most the lock [lk]. *)
Lemma minv_upd s s' h lk l x :
  minv s ->
  (forall lk', locks s' lk' = if decide (lk' = lk) then l else locks s lk') ->
  (forall h', harts s' h' = if decide (h' = h) then x else harts s h') ->
  (forall lk', lk' <> lk -> lk' ∈ h_held x <-> lk' ∈ h_held (harts s h)) ->
  (forall lk', lk' <> lk -> lk' ∈ h_held x ->
     between (h_pc x) lk' <-> between (h_pc (harts s h)) lk') ->
  (locked l <> 0 <-> lk ∈ h_held x \/ exists h', h' <> h /\ lk ∈ h_held (harts s h')) ->
  (lk ∈ h_held x -> forall h', h' <> h -> lk ∉ h_held (harts s h')) ->
  (lk_cpu l = Some h <-> lk ∈ h_held x /\ ~ between (h_pc x) lk) ->
  (forall h', h' <> h -> lk_cpu l = Some h' <-> lk_cpu (locks s lk) = Some h') ->
  NoDup (h_held x) -> pc_ok (h_pc x) (h_held x) ->
  (noff (h_cpu x) = Z.of_nat (length (h_held x)) + extra (h_pc x) \/
   exists msg, h_pc x = Panicked msg) ->
  (0 < noff (h_cpu x) -> sie (h_cpu x) = false) ->
  minv s'.
Proof.
  intros [I1 I2 I3 I4 I5 I6 I7] El Eh Hh Hb Hlk Hex Hc Hc' Hnd Hpc Hno Hsi.
  split; intros.
  - rewrite El. setoid_rewrite Eh. case_decide as E1.
    + rewrite Hlk, E1. split.
      * intros [?|(h' & Hne & ?)]; [exists h; by rewrite decide_True|exists h'; by rewrite decide_False].
      * intros [h' Hin]. case_decide; [by left|right; by exists h'].
    + rewrite I1. split; intros [h' Hin].
      * exists h'. case_decide as E2; [|done]. subst. by apply Hh.
      * exists h'. case_decide as E2; [|done]. subst. by apply Hh.
  - rewrite Eh in H, H0.
    destruct (decide (h0 = h)) as [->|N1], (decide (h' = h)) as [->|N2]; [done| | |by eapply I2].
    + destruct (decide (lk0 = lk)) as [->|Hne]; [by edestruct Hex|].
      apply Hh in H; [|done]. by eapply I2.
    + destruct (decide (lk0 = lk)) as [->|Hne]; [by edestruct Hex|].
      apply Hh in H0; [|done]. by eapply I2.
  - rewrite El, Eh. repeat case_decide; subst; [done| | |apply I3].
    + rewrite Hc' by done. apply I3.
    + rewrite I3, Hh by done. split; intros [Hi Hn]; (split; [done|]); intros Hbb; apply Hn; apply Hb; try done; by apply Hh.
  - rewrite Eh. by case_decide.
  - rewrite Eh. by case_decide.
  - rewrite Eh. case_decide; [done|apply I6].
  - rewrite Eh in *. case_decide; auto.
Qed.

Lemma set_hart_at h s x h' : harts (set_hart h s x) h' = if decide (h' = h) then x else harts s h'.
Proof.
  simpl. case_decide as E; [subst; apply fn_lookup_insert|]. by apply fn_lookup_insert_ne.
Qed.

Lemma set_lock_at s lk l lk' : locks (set_lock s lk l) lk' = if decide (lk' = lk) then l else locks s lk'.
Proof.
  simpl. case_decide as E; [subst; apply fn_lookup_insert|]. by apply fn_lookup_insert_ne.
Qed.

(** A step that changes no lock and holds the same ones. *)
Lemma minv_hart s h x :
  minv s -> h_held x = h_held (harts s h) ->
  (forall lk, lk ∈ h_held x -> between (h_pc x) lk <-> between (h_pc (harts s h)) lk) ->
  pc_ok (h_pc x) (h_held x) ->
  (noff (h_cpu x) = Z.of_nat (length (h_held x)) + extra (h_pc x) \/
   exists msg, h_pc x = Panicked msg) ->
  (0 < noff (h_cpu x) -> sie (h_cpu x) = false) ->
  minv (set_hart h s x).
Proof.
  intros I Hh Hb Hpc Hno Hsi. apply (minv_upd s _ h LkKmem (locks s LkKmem) x I); try done.
  - intros lk'. simpl. by case_decide; subst.
  - apply set_hart_at.
  - intros lk' _. by rewrite Hh.
  - intros lk' _. apply Hb.
  - rewrite (mi_locked _ I), Hh. split.
    + intros [h' Hin]. destruct (decide (h' = h)) as [->|]; [by left|right; by exists h'].
    + intros [?|(h' & _ & ?)]; by eexists.
  - rewrite Hh. intros Hin h' Hne Hin'. by apply Hne, (mi_excl _ I LkKmem).
  - rewrite (mi_cpu _ I), <-Hh. split; intros [Hin Hn]; (split; [done|]); intros Hbb;
      apply Hn; by apply (Hb _ Hin).
  - rewrite Hh. apply I.
Qed.

(** The same for a jump, where neither point is between setting [locked] and
    setting [lk->cpu]. *)
Definition settled (p : pc) : Prop := forall lk, ~ between p lk.

Lemma minv_goto s h p :
  minv s -> settled p -> settled (h_pc (harts s h)) -> pc_ok p (h_held (harts s h)) ->
  extra p = extra (h_pc (harts s h)) \/ (exists msg, p = Panicked msg) ->
  ~ (exists msg, h_pc (harts s h) = Panicked msg) ->
  minv (goto h s p).
Proof.
  intros I Hp Hold Hok He Hnp. apply minv_hart; simpl; try done.
  - intros lk _. split; intros H; exfalso; [by apply (Hp lk)|by apply (Hold lk)].
  - destruct He as [->|?]; [|by right]. by destruct (mi_noff _ I h) as [?|?]; [left|].
  - apply I.
Qed.

#[local] Ltac no_between := intros [|]; discriminate.

(** The side conditions of [minv_goto]. *)
#[local] Ltac jump :=
  simpl; try first [done | by (intros ?; no_between) | by left | by (right; eauto)
                   | by (intros [? ?]; discriminate)].

(** [noff] outside a panic. *)
Lemma minv_noff s h : minv s -> (forall msg, h_pc (harts s h) <> Panicked msg) ->
  noff (h_cpu (harts s h)) = Z.of_nat (length (h_held (harts s h))) + extra (h_pc (harts s h)).
Proof. intros I Hnp. destruct (mi_noff _ I h) as [?|[msg ?]]; [done|]. by destruct (Hnp msg). Qed.

Lemma not_held s h lk : minv s -> locked (locks s lk) = 0 -> lk ∉ h_held (harts s h).
Proof. intros I H0 Hin. by apply (mi_locked _ I lk); [exists h|]. Qed.

Lemma next_run h c s : minv s -> h_pc (harts s h) = Run -> minv (next h c s).
Proof.
  intros I Ep. unfold next. rewrite Ep.
  pose proof (minv_noff s h I ltac:(by rewrite Ep)) as Hn. rewrite Ep in Hn. simpl in Hn.
  pose proof (mi_sie _ I h) as Hs. destruct c as [lk|lk|b|b].
  - apply minv_hart; simpl; rewrite ?Ep; try done; [|left; lia].
    intros lk' _. split; no_between.
  - case_match; apply minv_goto; rewrite ?Ep; jump.
  - case_match; [|done]. zbool. apply minv_hart; simpl; rewrite ?Ep; try done.
    left. simpl. lia.
  - apply minv_hart; simpl; rewrite ?Ep; try done. left. simpl. lia.
Qed.

Lemma next_jump h c s :
  minv s ->
  match h_pc (harts s h) with Acq1 _ | Acq2 _ | Rel1 _ | Rel4 | Panicked _ => True | _ => False end ->
  minv (next h c s).
Proof.
  intros I. unfold next. destruct (h_pc (harts s h)) as [|lk|lk|lk|lk|lk|lk|lk| |msg] eqn:Ep;
    try done; intros _.
  - case_match eqn:E; apply minv_goto; rewrite ?Ep; jump. zbool. by apply not_held.
  - case_bool_decide as E; apply minv_goto; rewrite ?Ep; jump.
    intros Hin. apply E, (mi_cpu _ I). split; [done|]. rewrite Ep. no_between.
  - case_bool_decide as E; apply minv_goto; rewrite ?Ep; jump.
    by apply (mi_cpu _ I) in E as [? _].
  - pose proof (minv_noff s h I ltac:(by rewrite Ep)) as Hn. rewrite Ep in Hn. simpl in Hn.
    pose proof (mi_sie _ I h ltac:(lia)) as Hs. unfold pop_off. rewrite Hs.
    rewrite (proj2 (Z.ltb_ge _ _)) by lia. apply minv_hart; simpl; rewrite ?Ep; try done.
    + intros lk _. split; no_between.
    + left. lia.
    + intros Hpos. by rewrite (proj2 (Z.eqb_neq _ _)) by lia.
Qed.

Lemma goto_at h s p h' :
  harts (goto h s p) h' =
  if decide (h' = h) then Hart (h_cpu (harts s h)) p (h_held (harts s h)) else harts s h'.
Proof. apply set_hart_at. Qed.

(** The holder of [lk] holds it alone. *)
Lemma held_alone s h lk : minv s -> lk ∈ h_held (harts s h) ->
  forall h', h' <> h -> lk ∉ h_held (harts s h').
Proof. intros I Hin h' Hne Hin'. by apply Hne, (mi_excl _ I lk). Qed.

Lemma next_spin h c s lk : minv s -> h_pc (harts s h) = Spin lk -> minv (next h c s).
Proof.
  intros I Ep. unfold next. rewrite Ep. cbv zeta.
  pose proof (minv_noff s h I ltac:(by rewrite Ep)) as Hn. rewrite Ep in Hn. simpl in Hn.
  destruct (locked (locks s lk) =? 0) eqn:E; zbool.
  - pose proof (fun h' => not_held s h' lk I E) as Hno.
    eapply (minv_upd s _ h lk); [done|apply set_lock_at|intros ?; rewrite set_hart_at; reflexivity|..]; simpl.
    + set_solver.
    + intros lk' Hne _. rewrite Ep. split; [intros [Hg|Hg]; simplify_eq|no_between].
    + split; [left; left|done].
    + intros _ h' _. apply Hno.
    + rewrite (mi_cpu _ I). split; [|intros [_ Hb]; exfalso; apply Hb; by left].
      intros [Hin _]. by apply Hno in Hin.
    + done.
    + apply NoDup_cons. split; [apply Hno|apply I].
    + left.
    + left. lia.
    + intros _. apply (mi_sie _ I). lia.
  - eapply (minv_upd s _ h lk _ (harts s h)); [done|apply set_lock_at| | | | | |..]; simpl; try done.
    + intros h'. by case_decide; subst.
    + split; [|done]. intros _. destruct (proj1 (mi_locked _ I lk) E) as [h' Hin].
      destruct (decide (h' = h)) as [->|]; [by left|right; by exists h'].
    + by apply held_alone.
    + apply I.
    + apply I.
    + apply I.
    + left. rewrite Ep. simpl. lia.
    + apply I.
Qed.

Lemma next_got h c s lk : minv s -> h_pc (harts s h) = Got lk -> minv (next h c s).
Proof.
  intros I Ep. unfold next. rewrite Ep. cbv zeta.
  pose proof (minv_noff s h I ltac:(by rewrite Ep)) as Hn. rewrite Ep in Hn. simpl in Hn.
  pose proof (mi_pc _ I h) as Hin. rewrite Ep in Hin. simpl in Hin.
  eapply (minv_upd s _ h lk); [done|apply set_lock_at|intros ?; rewrite goto_at; reflexivity|..]; simpl; try done.
  - intros lk' Hne _. rewrite Ep. split; [no_between|intros [Hg|Hg]; simplify_eq].
  - rewrite (mi_locked _ I). split; [by left|by exists h].
  - by apply held_alone.
  - split; [|done]. intros _. split; [done|no_between].
  - intros h' Hne. split; [congruence|]. intros [Hin' _]%(mi_cpu _ I).
    by apply (held_alone s h lk I Hin h') in Hin'.
  - apply I.
  - left. lia.
  - apply I.
Qed.

Lemma next_rel2 h c s lk : minv s -> h_pc (harts s h) = Rel2 lk -> minv (next h c s).
Proof.
  intros I Ep. unfold next. rewrite Ep. cbv zeta.
  pose proof (minv_noff s h I ltac:(by rewrite Ep)) as Hn. rewrite Ep in Hn. simpl in Hn.
  pose proof (mi_pc _ I h) as Hin. rewrite Ep in Hin. simpl in Hin.
  eapply (minv_upd s _ h lk); [done|apply set_lock_at|intros ?; rewrite goto_at; reflexivity|..]; simpl; try done.
  - intros lk' Hne _. rewrite Ep. split; [intros [Hg|Hg]; simplify_eq|no_between].
  - rewrite (mi_locked _ I). split; [by left|by exists h].
  - by apply held_alone.
  - split; [done|]. intros [_ Hb]. exfalso. apply Hb. by right.
  - intros h' Hne. split; [done|]. intros [Hin' _]%(mi_cpu _ I).
    by apply (held_alone s h lk I Hin h') in Hin'.
  - apply I.
  - left. lia.
  - apply I.
Qed.

Lemma length_filter_remove (lk : lockid) l : NoDup l -> lk ∈ l -> length l = S (length (filter (.≠ lk) l)).
Proof.
  intros Hn Hin. apply elem_of_Permutation in Hin as [l' Hl]. rewrite Hl in Hn.
  apply NoDup_cons in Hn as [Hlk _]. rewrite Hl. by rewrite filter_acquired.
Qed.

Lemma next_rel3 h c s lk : minv s -> h_pc (harts s h) = Rel3 lk -> minv (next h c s).
Proof.
  intros I Ep. unfold next. rewrite Ep. cbv zeta.
  pose proof (minv_noff s h I ltac:(by rewrite Ep)) as Hn. rewrite Ep in Hn. simpl in Hn.
  pose proof (mi_pc _ I h) as Hin. rewrite Ep in Hin. simpl in Hin.
  pose proof (held_alone s h lk I Hin) as Halone.
  assert (Hnf : lk ∉ filter (.≠ lk) (h_held (harts s h))).
  { rewrite list_elem_of_filter. by intros [? _]. }
  eapply (minv_upd s _ h lk); [done|apply set_lock_at|intros ?; rewrite set_hart_at; reflexivity|..]; simpl; try done.
  - intros lk' Hne. rewrite list_elem_of_filter. tauto.
  - intros lk' Hne _. rewrite Ep. split; [no_between|intros [Hg|Hg]; simplify_eq].
  - split; [done|]. intros [?|(h' & Hne & H)]; [done|]. by apply Halone in H.
  - rewrite (mi_cpu _ I), Ep. split; [intros [_ Hb]; exfalso; apply Hb; by right|by intros [? _]].
  - apply NoDup_filter, I.
  - left. rewrite (length_filter_remove lk) in Hn by (done || apply I). lia.
  - apply I.
Qed.

Lemma next_inv h c s : minv s -> minv (next h c s).
Proof.
  intros I. destruct (h_pc (harts s h)) eqn:Ep.
  1: by apply next_run.
  3: by eapply next_spin.
  3: by eapply next_got.
  4: by eapply next_rel2.
  4: by eapply next_rel3.
  all: by apply next_jump; [|rewrite Ep].
Qed.

Lemma reachable_inv names s : reachable names s -> minv s.
Proof.
  induction 1 as [b|h c s _ IH]; [|by apply next_inv]. split; simpl; try done.
  - intros lk. split; [done|]. by intros [h ?%not_elem_of_nil].
  - by intros lk h h' ?%not_elem_of_nil.
  - intros lk h. split; [done|]. by intros [?%not_elem_of_nil _].
  - intros h. constructor.
  - by left.
Qed.

(** A step of [h] leaves the other harts alone. *)
Lemma next_other h c s h' : h' <> h -> harts (next h c s) h' = harts s h'.
Proof.
  intros Hne. unfold next.
  repeat case_match; rewrite ?goto_at, ?set_hart_at, ?decide_False by done; done.
Qed.

(** The state of the hart that makes the step. *)
#[local] Ltac at_h := rewrite ?goto_at, ?set_hart_at, ?decide_True by done; simpl.

(** ** Properties *)

(** C16: In every interleaving, at most one hart is between the successful
    test-and-set and the release of a lock, interrupts are off on that hart, and
    [holding] answers exactly that question for a hart outside the lock
    functions. *)
Theorem spin_mutual_exclusion names s lk h h' :
  reachable names s ->
  (lk ∈ h_held (harts s h) -> lk ∈ h_held (harts s h') -> h = h') /\
  (lk ∈ h_held (harts s h) -> (forall msg, h_pc (harts s h) <> Panicked msg) ->
     sie (h_cpu (harts s h)) = false) /\
  (h_pc (harts s h) = Run -> holding (locks s lk) h = bool_decide (lk ∈ h_held (harts s h))).
Proof.
  intros I%reachable_inv. split_and!.
  - apply (mi_excl _ I).
  - intros Hin Hp. apply (mi_sie _ I). rewrite (minv_noff s h I Hp).
    destruct (h_held (harts s h)); [by apply not_elem_of_nil in Hin|].
    simpl length. destruct (h_pc _); simpl; lia.
  - intros Ep. unfold holding. case_bool_decide as Hc; [|case_bool_decide as Hin].
    + pose proof (proj1 (mi_cpu _ I lk h) Hc) as [Hin _]. rewrite bool_decide_true by done.
      rewrite (proj2 (Z.eqb_neq _ _)); [done|]. apply (mi_locked _ I). by exists h.
    + exfalso. apply Hc, (mi_cpu _ I). split; [done|]. rewrite Ep. no_between.
    + by rewrite andb_false_r.
Qed.

(** The view of the rest of the kernel: the locks a hart holds. *)
Definition hart_view (s : mstate) (h : nat) : world := World (h_held (harts s h)) [] [].

(** Every access a hart makes in [acquire] and [release] either leaves the
    locks held by all harts alone, or is one of the atomic operations of the
    client view: the test-and-set that succeeds is [acquire] of a lock no hart
    holds, the lock release is [release], and the panics are theirs; the
    consistency checks of [pop_off] never fire. *)
Theorem spin_refines_view names s h c (d : unit) :
  reachable names s -> (forall msg, h_pc (harts s h) <> Panicked msg) ->
  let s' := next h c s in
  (forall h', h' <> h -> harts s' h' = harts s h') /\
  ((hart_view s' h = hart_view s h /\ forall msg, h_pc (harts s' h) <> Panicked msg) \/
   (exists lk, (forall h', lk ∉ h_held (harts s h')) /\
      acquire lk (hart_view s h) d = Ret (hart_view s' h) d tt) \/
   (exists lk, release lk (hart_view s h) d = Ret (hart_view s' h) d tt) \/
   (exists lk, h_pc (harts s' h) = Panicked "acquire" /\
      acquire lk (hart_view s h) d = Panic "acquire") \/
   (exists lk, h_pc (harts s' h) = Panicked "release" /\
      release lk (hart_view s h) d = Panic "release")).
Proof.
  intros I%reachable_inv Hnp s'. split; [by apply next_other|]. unfold s', hart_view, next.
  destruct (h_pc (harts s h)) as [|lk|lk|lk|lk|lk|lk|lk| |msg] eqn:Ep.
  - destruct c as [lk|lk|b|b].
    + left. by at_h.
    + case_match eqn:E; [|left; by at_h]. zbool. do 4 right. exists lk. at_h. split; [done|].
      unfold release. by rewrite decide_False by (by apply not_held).
    + left. case_match; [by at_h|]. by rewrite Ep.
    + left. by at_h.
  - left. case_match; by at_h.
  - case_bool_decide as E; [|left; by at_h]. do 3 right. left. exists lk. at_h. split; [done|].
    unfold acquire. rewrite decide_True; [done|]. by apply (mi_cpu _ I) in E as [? _].
  - case_match eqn:E; zbool.
    + right. left. exists lk. split; [intros h'; by apply not_held|]. at_h.
      unfold acquire. by rewrite decide_False by (by apply not_held).
    + left. simpl. by rewrite Ep.
  - left. by at_h.
  - case_bool_decide as E; [left; by at_h|]. do 4 right. exists lk. at_h. split; [done|].
    unfold release. rewrite decide_False; [done|]. intros Hin. apply E, (mi_cpu _ I).
    split; [done|]. rewrite Ep. no_between.
  - left. by at_h.
  - right. right. left. exists lk. at_h. unfold release.
    pose proof (mi_pc _ I h) as Hin. rewrite Ep in Hin. by rewrite decide_True.
  - pose proof (minv_noff s h I ltac:(by rewrite Ep)) as Hn. rewrite Ep in Hn. simpl in Hn.
    unfold pop_off. rewrite (mi_sie _ I h), (proj2 (Z.ltb_ge _ _)) by lia. left. by at_h.
  - by destruct (Hnp msg).
Qed.

(** ** An execution: hart 0 acquires [kmem.lock] while hart 1 spins on it *)

Definition boot_harts : mstate :=
  MState (fun _ => initlock "kmem") (fun _ => Hart (Cpu 0 false true) Run []).

Definition steps (l : list (nat * call)) (s : mstate) : mstate :=
  fold_left (fun s hc => next hc.1 hc.2 s) l s.

Definition spinning : mstate :=
  steps [(0%nat, CAcquire LkKmem); (1%nat, CAcquire LkKmem); (0%nat, CIntr true);
         (1%nat, CIntr true)] boot_harts.

Definition acquired : mstate :=
  steps [(0%nat, CIntr true); (1%nat, CIntr true); (0%nat, CIntr true)] spinning.

Lemma steps_reachable names l s : reachable names s -> reachable names (steps l s).
Proof.
  revert s. induction l as [|hc l IH]; intros s Hs; [done|]. apply IH. by constructor.
Qed.

Lemma boot_reachable : reachable (fun _ => "kmem"%string) boot_harts.
Proof. exact (reach_init (fun _ => "kmem"%string) (fun _ => true)). Qed.

Lemma spin_mutual_exclusion_witness :
  holding (locks acquired LkKmem) 0 = true /\ holding (locks acquired LkKmem) 1 = false /\
  sie (h_cpu (harts acquired 0%nat)) = false.
Proof.
  pose proof (steps_reachable _ _ _ (steps_reachable _ _ _ boot_reachable)
    : reachable _ acquired) as H.
  pose proof (spin_mutual_exclusion _ acquired LkKmem 0 1 H) as (_ & H0 & Hh).
  split; [rewrite (Hh ltac:(vm_compute; reflexivity)); vm_compute; reflexivity|].
  split; [vm_compute; reflexivity|]. apply H0; [vm_compute; left|]. intros msg. vm_compute. discriminate.
Defined.

Lemma spin_refines_view_witness :
  exists lk, (forall h', lk ∉ h_held (harts spinning h')) /\
    acquire lk (hart_view spinning 0) tt = Ret (hart_view (next 0 (CIntr true) spinning) 0) tt tt.
Proof.
  pose proof (steps_reachable _ _ _ boot_reachable : reachable _ spinning) as H.
  destruct (spin_refines_view _ spinning 0 (CIntr true) tt H) as (_ & Hc).
  { intros msg. vm_compute. discriminate. }
  destruct Hc as [[Hv _]|[Ha|[[lk Hr]|[(lk & Hp & _)|(lk & Hp & _)]]]].
  - exfalso. vm_compute in Hv. discriminate Hv.
  - exact Ha.
  - exfalso. unfold release in Hr. rewrite decide_False in Hr; [discriminate Hr|].
    vm_compute. intros Hin. inversion Hin.
  - exfalso. vm_compute in Hp. discriminate Hp.
  - exfalso. vm_compute in Hp. discriminate Hp.
Defined.
