(* ===== verification/Sleeplock.v ===== *)
(** * kernel/sleeplock.c: sleep locks

    A sleep lock is a word and the pid of its holder, protected by a spin lock;
    a process that finds it taken sleeps on its address. *)

From stdpp Require Import functions.
From S2P Require Import Prelude Machine.

(** [struct sleeplock], without its spin lock. *)
Record sleeplock := Sleeplock { sl_locked : Z; sl_name : string; sl_pid : Z }.

Definition initsleeplock (name : string) : sleeplock := Sleeplock 0 name 0.

Definition set_owner (locked pid : Z) (s : sleeplock) : sleeplock :=
  Sleeplock locked (sl_name s) pid.

Section sleeplock.
(** The lock's address, which is also its sleep channel. *)
Variable id : Z.

(** [while (lk->locked) sleep(lk, &lk->lk)]; [fuel] bounds the wakeups in which
    another process got the lock first. *)
Fixpoint acquiresleep_wait (fuel : nat) : M sleeplock unit :=
  locked ← gets sl_locked;
  if negb (locked =? 0) then
    match fuel with
    | O => diverge
    | S fuel => sleep (ChSleep id) (LkSleep id);; acquiresleep_wait fuel
    end
  else mret tt.

(** The rest of [acquiresleep], with the spin lock held. *)
Definition acquiresleep_locked (fuel : nat) (pid : Z) : M sleeplock unit :=
  acquiresleep_wait fuel;;
  modify (set_owner 1 pid);;
  release (LkSleep id).

(** [pid] is [myproc()->pid]. *)
Definition acquiresleep (fuel : nat) (pid : Z) : M sleeplock unit :=
  acquire (LkSleep id);;
  acquiresleep_locked fuel pid.

Definition releasesleep : M sleeplock unit :=
  acquire (LkSleep id);;
  modify (set_owner 0 0);;
  wakeup (ChSleep id);;
  release (LkSleep id).

Definition holdingsleep (pid : Z) : M sleeplock bool :=
  acquire (LkSleep id);;
  s ← gets (fun s => s);
  let r := negb (sl_locked s =? 0) && (sl_pid s =? pid) in
  release (LkSleep id);;
  mret r.

(** ** Processes sharing a sleep lock

    A process is outside the lock, asleep with the rest of its [acquiresleep]
    still to run, or holds it.  Between two sleeps a process runs under the spin
    lock, so these are the steps other processes can observe. *)
Inductive pstate :=
  | Outside
  | Asleep (k : world -> sleeplock -> res sleeplock unit)
  | Holds.

Definition is_holder (st : pstate) : bool := match st with Holds => true | _ => false end.

Definition free_world (w : world) : Prop := held w = [].

(** Where a process is after running until it returns or sleeps. *)
Inductive runs_to (r : res sleeplock unit) : sleeplock -> pstate -> Prop :=
  | runs_ret w s : r = Ret w s tt -> runs_to r s Holds
  | runs_sleep c w s k : r = Block c w s k -> runs_to r s (Asleep k).

Inductive sl_step : sleeplock * (Z -> pstate) -> sleeplock * (Z -> pstate) -> Prop :=
  | step_acquire s ps p w fuel s' st :
      ps p = Outside -> free_world w -> runs_to (acquiresleep fuel p w s) s' st ->
      sl_step (s, ps) (s', <[p := st]> ps)
  | step_awake s ps p w k s' st :
      ps p = Asleep k -> free_world w -> runs_to (k w s) s' st ->
      sl_step (s, ps) (s', <[p := st]> ps)
  | step_release s ps p w w' s' :
      ps p = Holds -> free_world w -> releasesleep w s = Ret w' s' tt ->
      sl_step (s, ps) (s', <[p := Outside]> ps).

(** ** Invariant *)

(** The continuations of sleeping processes. *)
Definition resumption (p : Z) (k : world -> sleeplock -> res sleeplock unit) : Prop :=
  exists fuel, forall w s, k w s = acquiresleep_locked fuel p (set_held [LkSleep id] w) s.

Record sl_inv (s : sleeplock) (ps : Z -> pstate) : Prop := {
  sli_free : sl_locked s = 0 -> forall p, ps p <> Holds;
  sli_held : sl_locked s <> 0 -> forall p, ps p = Holds <-> p = sl_pid s;
  sli_asleep p k : ps p = Asleep k -> resumption p k }.

(** Running under the spin lock: get the free lock, or go to sleep. *)
Lemma acquiresleep_locked_run fuel p w s :
  held w = [LkSleep id] ->
  (sl_locked s = 0 /\ acquiresleep_locked fuel p w s =
     Ret (set_held [] w) (set_owner 1 p s) tt) \/
  (sl_locked s <> 0 /\
   (acquiresleep_locked fuel p w s = Diverge \/
    exists k, acquiresleep_locked fuel p w s = Block (ChSleep id) (set_held [] w) s k /\
      resumption p k)).
Proof.
  intros Hw. unfold acquiresleep_locked. destruct (sl_locked s =? 0) eqn:E; zbool.
  - left. split; [done|]. destruct fuel; simpl.
    all: rewrite (run_bind _ _ w s w s tt) by (rewrite run_gets, E; done).
    all: rewrite run_modify; unfold release; rewrite Hw, decide_True by left;
         by rewrite filter_acquired by apply not_elem_of_nil.
  - right. split; [done|]. destruct fuel as [|fuel]; simpl.
    + left. unfold mbind, M_bind, gets. simpl. by rewrite (proj2 (Z.eqb_neq _ _)).
    + right. eexists. unfold mbind, M_bind, gets. simpl.
      rewrite (proj2 (Z.eqb_neq _ _)) by done. simpl. unfold sleep. rewrite Hw, decide_True, decide_True by (done || left). simpl.
      split; [done|]. exists fuel. done.
Qed.

Lemma acquiresleep_run fuel p w s :
  free_world w ->
  acquiresleep fuel p w s = acquiresleep_locked fuel p (set_held [LkSleep id] w) s.
Proof.
  intros Hw. unfold acquiresleep, free_world in *. rewrite run_acquire; rewrite Hw; [done|].
  apply not_elem_of_nil.
Qed.

Lemma releasesleep_eq w s :
  free_world w ->
  releasesleep w s = Ret (World [] (ChSleep id :: wakeups w) (cons_out w)) (set_owner 0 0 s) tt.
Proof.
  unfold free_world. intros Hw. unfold releasesleep.
  rewrite run_acquire by (rewrite Hw; apply not_elem_of_nil). run_simpl.
  unfold release. simpl. rewrite decide_True by left.
  by rewrite Hw, filter_acquired by apply not_elem_of_nil.
Qed.

Lemma releasesleep_run w s w' s' :
  free_world w -> releasesleep w s = Ret w' s' tt -> s' = set_owner 0 0 s.
Proof. intros Hw. rewrite releasesleep_eq by done. by intros [= _ <-]. Qed.

Lemma holdingsleep_eq pid w s :
  free_world w ->
  holdingsleep pid w s = Ret w s (negb (sl_locked s =? 0) && (sl_pid s =? pid)).
Proof.
  unfold free_world. intros Hw. unfold holdingsleep.
  rewrite run_acquire by (rewrite Hw; apply not_elem_of_nil). run_simpl.
  by rewrite run_release_acquired by (rewrite Hw; apply not_elem_of_nil).
Qed.

(** A free lock is taken at once. *)
Lemma acquiresleep_free fuel p w s :
  free_world w -> sl_locked s = 0 -> acquiresleep fuel p w s = Ret w (set_owner 1 p s) tt.
Proof.
  intros Hw E. rewrite acquiresleep_run by done.
  destruct (acquiresleep_locked_run fuel p (set_held [LkSleep id] w) s eq_refl) as [[_ ->]|[? _]];
    [|done]. destruct w as [h wk co]. unfold free_world in Hw. simpl in Hw. by subst.
Qed.

(** The outcome of a segment of [acquiresleep] keeps the invariant. *)
Lemma segment_inv fuel p w s ps s' st :
  sl_inv s ps -> ps p <> Holds -> held w = [LkSleep id] ->
  runs_to (acquiresleep_locked fuel p w s) s' st -> sl_inv s' (<[p := st]> ps).
Proof.
  intros I Hp Hw Hr.
  destruct (acquiresleep_locked_run fuel p w s Hw) as [[E Hrun]|[E [Hrun|(k & Hrun & Hk)]]];
    rewrite Hrun in Hr; inversion Hr; simplify_eq.
  - split; simpl; [done| |].
    + intros _ q. destruct (decide (q = p)) as [->|Hne]; [by rewrite fn_lookup_insert|].
      rewrite fn_lookup_insert_ne by done. split; [|done]. intros H.
      by destruct (sli_free _ _ I E q).
    + intros q k'. destruct (decide (q = p)) as [->|Hne]; [by rewrite fn_lookup_insert|].
      rewrite fn_lookup_insert_ne by done. apply I.
  - split.
    + intros E'. congruence.
    + intros _ q. destruct (decide (q = p)) as [->|Hne].
      * rewrite fn_lookup_insert. split; [done|]. intros ->.
        exfalso. by apply Hp, (sli_held _ _ I E).
      * rewrite fn_lookup_insert_ne by done. by apply I.
    + intros q k'. destruct (decide (q = p)) as [->|Hne].
      * rewrite fn_lookup_insert. by intros [= <-].
      * rewrite fn_lookup_insert_ne by done. apply I.
Qed.

Lemma sl_step_inv x y : sl_step x y -> sl_inv x.1 x.2 -> sl_inv y.1 y.2.
Proof.
  intros Hs I. destruct Hs as [s ps p w fuel s' st Hp Hw Hr|s ps p w k s' st Hp Hw Hr|
                               s ps p w w' s' Hp Hw Hr]; simpl in *.
  - rewrite acquiresleep_run in Hr by done.
    eapply (segment_inv _ p (set_held [LkSleep id] w) s); [done|by rewrite Hp|done|exact Hr].
  - destruct (sli_asleep _ _ I p k Hp) as [fuel Hk]. rewrite Hk in Hr.
    eapply (segment_inv _ p (set_held [LkSleep id] w) s); [done|by rewrite Hp|done|exact Hr].
  - apply releasesleep_run in Hr as ->; [|done]. split; simpl.
    + intros _ q. destruct (decide (q = p)) as [->|Hne]; [by rewrite fn_lookup_insert|].
      rewrite fn_lookup_insert_ne by done. intros Hq. apply Hne.
      destruct (decide (sl_locked s = 0)) as [E|E]; [by destruct (sli_free _ _ I E q)|].
      apply (sli_held _ _ I E) in Hp, Hq. congruence.
    + done.
    + intros q k. destruct (decide (q = p)) as [->|Hne]; [by rewrite fn_lookup_insert|].
      rewrite fn_lookup_insert_ne by done. apply I.
Qed.

(** C22: Over any interleaving of processes that call [acquiresleep], sleep, wake
    up and call [releasesleep], at most one process holds the sleep lock; it is
    the one whose pid the lock records, and [holdingsleep] says so. *)
Theorem sleeplock_mutual_exclusion name s ps p q w :
  rtc sl_step (initsleeplock name, fun _ => Outside) (s, ps) -> ps p = Holds -> free_world w ->
  (ps q = Holds -> q = p) /\ sl_pid s = p /\
  exists w', holdingsleep q w s = Ret w' s (is_holder (ps q)).
Proof.
  intros Hsteps Hp Hw.
  assert (I : sl_inv s ps).
  { assert (Hgen : forall x y, rtc sl_step x y -> sl_inv x.1 x.2 -> sl_inv y.1 y.2).
    { induction 1 as [|x y z Hxy _ IH]; [done|]. intros Hx. by eapply IH, sl_step_inv. }
    by apply (Hgen _ _ Hsteps); split. }
  destruct (decide (sl_locked s = 0)) as [E|E]; [by destruct (sli_free _ _ I E p)|].
  pose proof (sli_held _ _ I E) as Hh. apply Hh in Hp as Hpid.
  split; [intros Hq%Hh; congruence|]. split; [done|].
  exists w. rewrite holdingsleep_eq by done. f_equal.
  rewrite (proj2 (Z.eqb_neq _ _)) by done. simpl.
  destruct (decide (q = sl_pid s)) as [Hq|Hq].
  - rewrite (proj2 (Hh q)) by done. rewrite Hq. apply Z.eqb_refl.
  - rewrite (proj2 (Z.eqb_neq _ _)) by done. destruct (ps q) eqn:Eq; [done..|].
    by apply Hh in Eq.
Qed.
End sleeplock.

(** A process gets the lock, and a second one goes to sleep. *)
Lemma sleeplock_mutual_exclusion_witness :
  exists s ps w', ps 1 = Holds /\ ps 2 <> Outside /\
    holdingsleep 7 2 (World [] [] []) s = Ret w' s false.
Proof.
  set (w := World [] [] []). set (s0 := initsleeplock "inode").
  assert (Hw : free_world w) by reflexivity.
  assert (H1 : sl_step 7 (s0, fun _ => Outside) (Sleeplock 1 "inode" 1, <[1 := Holds]> (fun _ => Outside))).
  { apply (step_acquire 7 _ _ 1 w 0 _ _ eq_refl Hw). apply (runs_ret _ w). reflexivity. }
  destruct (acquiresleep_locked_run 7 1 2 (set_held [LkSleep 7] w) (Sleeplock 1 "inode" 1) eq_refl)
    as [[H _]|[_ [H|(k & Hk & _)]]]; [discriminate H|discriminate H|].
  assert (H2 : sl_step 7 (Sleeplock 1 "inode" 1, <[1 := Holds]> (fun _ => Outside))
                 (Sleeplock 1 "inode" 1, <[2 := Asleep k]> (<[1 := Holds]> (fun _ => Outside)))).
  { apply (step_acquire 7 _ _ 2 w 1 _ _ eq_refl Hw). eapply runs_sleep.
    rewrite acquiresleep_run by exact Hw. exact Hk. }
  destruct (sleeplock_mutual_exclusion 7 "inode" _ _ 1 2 w (rtc_l _ _ _ _ H1 (rtc_once _ _ H2))
              eq_refl Hw) as (_ & _ & w' & Hh).
  exists (Sleeplock 1 "inode" 1), (<[2 := Asleep k]> (<[1 := Holds]> (fun _ => Outside))), w'.
  split; [reflexivity|]. split; [discriminate|exact Hh].
Defined.
