(* ===== verification/Mem.v ===== *)
(** * Byte memory and kernel/string.c

    Memory is a finite map from addresses to bytes; a byte that was never
    written reads as 0.  Multi-byte accesses are little-endian, as on RISC-V.
    The routines of kernel/string.c are loops over these bytes, with the
    pointer arithmetic of the source. *)

From S2P Require Import Prelude.

Abbreviation mem := (gmap Z Z).

Definition ld8 (m : mem) (a : Z) : Z := default 0 (m !! a).

Definition st8 (m : mem) (a v : Z) : mem := <[a := u8 v]> m.

Fixpoint ld_le (n : nat) (m : mem) (a : Z) : Z :=
  match n with
  | O => 0
  | S n => ld8 m a + 256 * ld_le n m (a + 1)
  end.

Fixpoint st_le (n : nat) (m : mem) (a v : Z) : mem :=
  match n with
  | O => m
  | S n => st_le n (st8 m a v) (a + 1) (v / 256)
  end.

Definition ld64 (m : mem) (a : Z) : Z := ld_le 8 m a.

Definition st64 (m : mem) (a v : Z) : mem := st_le 8 m a v.

Definition ld32 (m : mem) (a : Z) : Z := ld_le 4 m a.

Definition st32 (m : mem) (a v : Z) : mem := st_le 4 m a v.

(** ** kernel/string.c *)

(** [for(i = 0; i < n; i++) cdst[i] = c] *)
Fixpoint memset_loop (m : mem) (cdst c i : Z) (n : nat) : mem :=
  match n with
  | O => m
  | S n => memset_loop (st8 m (cdst + i) c) cdst c (i + 1) n
  end.

Definition memset (m : mem) (dst c n : Z) : mem := memset_loop m dst c 0 (Z.to_nat n).

Fixpoint memcmp_loop (m : mem) (s1 s2 : Z) (n : nat) : Z :=
  match n with
  | O => 0
  | S n =>
      if negb (ld8 m s1 =? ld8 m s2) then ld8 m s1 - ld8 m s2
      else memcmp_loop m (s1 + 1) (s2 + 1) n
  end.

Definition memcmp (m : mem) (v1 v2 n : Z) : Z := memcmp_loop m v1 v2 (Z.to_nat n).

(** The downward copy: [n] bytes below [d] and [s], highest first. *)
Fixpoint memmove_down (m : mem) (d s : Z) (n : nat) : mem :=
  match n with
  | O => m
  | S n => memmove_down (st8 m (d - 1) (ld8 m (s - 1))) (d - 1) (s - 1) n
  end.

(** The upward copy. *)
Fixpoint memmove_up (m : mem) (d s : Z) (n : nat) : mem :=
  match n with
  | O => m
  | S n => memmove_up (st8 m d (ld8 m s)) (d + 1) (s + 1) n
  end.

Definition memmove (m : mem) (dst src n : Z) : mem :=
  if n =? 0 then m
  else
    let s := src in
    let d := dst in
    if (s <? d) && (d <? s + n) then memmove_down m (d + n) (s + n) (Z.to_nat n)
    else memmove_up m d s (Z.to_nat n).

Definition memcpy (m : mem) (dst src n : Z) : mem := memmove m dst src n.

(** [memmove] between two different objects. *)
Fixpoint blkmove (dm : mem) (d : Z) (sm : mem) (s : Z) (n : nat) : mem :=
  match n with
  | O => dm
  | S n => blkmove (st8 dm d (ld8 sm s)) (d + 1) sm (s + 1) n
  end.

Fixpoint strncmp_loop (m : mem) (p q : Z) (n : nat) : Z :=
  match n with
  | O => 0
  | S n =>
      if negb (ld8 m p =? 0) && (ld8 m p =? ld8 m q)
      then strncmp_loop m (p + 1) (q + 1) n
      else ld8 m p - ld8 m q
  end.

Definition strncmp (m : mem) (p q n : Z) : Z := strncmp_loop m p q (Z.to_nat n).

(** The padding loop of [strncpy]. *)
Fixpoint strncpy_pad (m : mem) (s : Z) (n : nat) : mem :=
  match n with
  | O => m
  | S n => strncpy_pad (st8 m s 0) (s + 1) n
  end.

(** Copy up to and including a NUL, then pad. *)
Fixpoint strncpy_loop (m : mem) (s t : Z) (n : nat) : mem :=
  match n with
  | O => m
  | S n =>
      let c := ld8 m t in
      let m := st8 m s c in
      if negb (c =? 0) then strncpy_loop m (s + 1) (t + 1) n
      else strncpy_pad m (s + 1) n
  end.

Definition strncpy (m : mem) (s t n : Z) : mem := strncpy_loop m s t (Z.to_nat n).

(** Copy up to and including a NUL, then store a final NUL; [n] counts the
    copies still allowed. *)
Fixpoint safestrcpy_loop (m : mem) (s t : Z) (n : nat) : mem :=
  match n with
  | O => st8 m s 0
  | S n =>
      let c := ld8 m t in
      let m := st8 m s c in
      if negb (c =? 0) then safestrcpy_loop m (s + 1) (t + 1) n
      else st8 m (s + 1) 0
  end.

Definition safestrcpy (m : mem) (s t n : Z) : mem :=
  if n <=? 0 then m else safestrcpy_loop m s t (Z.to_nat (n - 1)).

(** [for(n = 0; s[n]; n++) ;] with [fuel] bytes inspected at most. *)
Fixpoint strlen_loop (m : mem) (s n : Z) (fuel : nat) : option Z :=
  match fuel with
  | O => None
  | S fuel => if ld8 m (s + n) =? 0 then Some n else strlen_loop m s (n + 1) fuel
  end.

Definition strlen (m : mem) (s : Z) (fuel : nat) : option Z := strlen_loop m s 0 fuel.

(** Every byte of memory is in range; all stores keep it so. *)
Definition mem_ok (m : mem) : Prop := forall a, 0 <= ld8 m a < 256.

(** Two memories agree on [n] bytes from [a]. *)
Definition same_bytes (m m' : mem) (a n : Z) : Prop :=
  forall b, a <= b < a + n -> ld8 m' b = ld8 m b.

(** The [n] bytes at [a], as a list. *)
Definition bytes_at (m : mem) (a : Z) (n : nat) : list Z :=
  map (fun i => ld8 m (a + Z.of_nat i)) (seq 0 n).

(** A NUL-terminated C string at [a]. *)
Fixpoint cstr (m : mem) (a : Z) (l : list Z) : Prop :=
  match l with
  | [] => ld8 m a = 0
  | c :: l => ld8 m a = c /\ c <> 0 /\ cstr m (a + 1) l
  end.

(** ** Bytes *)

Lemma ld8_st8_eq m a v : ld8 (st8 m a v) a = u8 v.
Proof. unfold ld8, st8. by rewrite lookup_insert_eq. Qed.

Lemma ld8_st8_ne m a b v : a ≠ b -> ld8 (st8 m a v) b = ld8 m b.
Proof. intros. unfold ld8, st8. by rewrite lookup_insert_ne. Qed.

Lemma mem_ok_empty : mem_ok ∅.
Proof. intros a. unfold ld8. rewrite lookup_empty. simpl. lia. Qed.

Lemma mem_ok_st8 m a v : mem_ok m -> mem_ok (st8 m a v).
Proof.
  intros H b. destruct (decide (a = b)) as [<-|].
  - rewrite ld8_st8_eq. apply u8_range.
  - by rewrite ld8_st8_ne.
Qed.

Lemma mem_ok_st_le n m a v : mem_ok m -> mem_ok (st_le n m a v).
Proof. revert m a v. induction n; simpl; auto using mem_ok_st8. Qed.

Lemma mem_ok_memset m dst c n : mem_ok m -> mem_ok (memset m dst c n).
Proof.
  unfold memset. generalize 0 (Z.to_nat n). intros i k. revert m i.
  induction k; simpl; auto using mem_ok_st8.
Qed.

Lemma mem_ok_memmove m dst src n : mem_ok m -> mem_ok (memmove m dst src n).
Proof.
  intros H. unfold memmove. repeat case_match; auto.
  - generalize (dst + n) (src + n). revert H. generalize (Z.to_nat n) m.
    induction n0; simpl; auto using mem_ok_st8.
  - revert H. generalize (Z.to_nat n) m dst src.
    induction n0; simpl; auto using mem_ok_st8.
Qed.

(** [mem_ok] of a chain of stores; syntactic, so that no store is unfolded. *)
Ltac mem_ok :=
  repeat lazymatch goal with
  | |- mem_ok ∅ => exact mem_ok_empty
  | |- mem_ok (st8 _ _ _) => apply mem_ok_st8
  | |- mem_ok (st_le _ _ _ _) => apply mem_ok_st_le
  | |- mem_ok (st64 _ _ _) => apply mem_ok_st_le
  | |- mem_ok (st32 _ _ _) => apply mem_ok_st_le
  | |- mem_ok (memset _ _ _ _) => apply mem_ok_memset
  | |- mem_ok (memmove _ _ _ _) => apply mem_ok_memmove
  | |- mem_ok ?m => match goal with H : mem_ok m |- _ => exact H end
  end.

(** ** Little-endian words *)

Lemma ld_le_ext n m m' a :
  same_bytes m m' a (Z.of_nat n) -> ld_le n m' a = ld_le n m a.
Proof.
  revert a. induction n as [|n IH]; intros a H; simpl; [done|].
  rewrite (H a) by lia. rewrite IH; [done|].
  intros b Hb. apply H. lia.
Qed.

Lemma ld8_st_le_out n m a v b :
  b < a \/ a + Z.of_nat n <= b -> ld8 (st_le n m a v) b = ld8 m b.
Proof.
  revert m a v. induction n as [|n IH]; intros m a v H; simpl; [done|].
  rewrite IH by lia. by rewrite ld8_st8_ne by lia.
Qed.

Lemma ld_le_st_le_same n m a v :
  0 <= v < 256 ^ Z.of_nat n -> ld_le n (st_le n m a v) a = v.
Proof.
  revert m a v. induction n as [|n IH]; intros m a v H; [simpl in *; lia|].
  rewrite Nat2Z.inj_succ, Z.pow_succ_r in H by lia. simpl.
  rewrite ld8_st_le_out by lia. rewrite ld8_st8_eq.
  rewrite IH by (split; [apply Z.div_pos; lia|apply Z.div_lt_upper_bound; lia]).
  unfold u8. change (2 ^ 8) with 256. pose proof (Z.div_mod v 256). lia.
Qed.

Lemma ld_le_st_le_other k n m a b v :
  b + Z.of_nat k <= a \/ a + Z.of_nat n <= b ->
  ld_le k (st_le n m a v) b = ld_le k m b.
Proof. intros H. apply ld_le_ext. intros c Hc. apply ld8_st_le_out. lia. Qed.

Lemma ld_le_range n m a : mem_ok m -> 0 <= ld_le n m a < 256 ^ Z.of_nat n.
Proof.
  intros Hm. revert a. induction n as [|n IH]; intros a; [simpl; lia|].
  rewrite Nat2Z.inj_succ, Z.pow_succ_r by lia. simpl.
  specialize (IH (a + 1)). specialize (Hm a). lia.
Qed.

Lemma ld64_st64_same m a v : 0 <= v < 2 ^ 64 -> ld64 (st64 m a v) a = v.
Proof. intros. apply ld_le_st_le_same. done. Qed.

Lemma ld64_st64_other m a b v :
  b + 8 <= a \/ a + 8 <= b -> ld64 (st64 m a v) b = ld64 m b.
Proof. intros. apply ld_le_st_le_other. lia. Qed.

Lemma ld64_range m a : mem_ok m -> 0 <= ld64 m a < 2 ^ 64.
Proof. intros. by apply (ld_le_range 8). Qed.

Lemma ld32_range m a : mem_ok m -> 0 <= ld32 m a < 2 ^ 32.
Proof. apply (ld_le_range 4). Qed.

Lemma ld8_st32_out m a v b : b < a \/ a + 4 <= b -> ld8 (st32 m a v) b = ld8 m b.
Proof. intros. apply ld8_st_le_out. lia. Qed.

Lemma ld32_st8_out m a v b : a < b \/ b + 4 <= a -> ld32 (st8 m a v) b = ld32 m b.
Proof. intros H. apply ld_le_ext. intros c Hc. apply ld8_st8_ne. lia. Qed.

Lemma ld32_st32_same m a v : 0 <= v < 2 ^ 32 -> ld32 (st32 m a v) a = v.
Proof. intros H. apply ld_le_st_le_same. exact H. Qed.

Lemma ld32_st32_other m a b v : b + 4 <= a \/ a + 4 <= b -> ld32 (st32 m a v) b = ld32 m b.
Proof. intros H. apply ld_le_st_le_other. exact H. Qed.

Lemma ld8_st64_out m a v b : b < a \/ a + 8 <= b -> ld8 (st64 m a v) b = ld8 m b.
Proof. intros. apply ld8_st_le_out. lia. Qed.

Lemma ld64_ext m m' a : same_bytes m m' a 8 -> ld64 m' a = ld64 m a.
Proof. apply (ld_le_ext 8). Qed.

Lemma mem_ok_st64 m a v : mem_ok m -> mem_ok (st64 m a v).
Proof. apply mem_ok_st_le. Qed.

#[export] Hint Resolve ld64_range : xv6.

(** ** The loops of string.c, as functions of the bytes *)

Lemma ld8_memset_loop m dst c i k b :
  ld8 (memset_loop m dst c i k) b =
  if decide (dst + i <= b < dst + i + Z.of_nat k) then u8 c else ld8 m b.
Proof.
  revert m i. induction k as [|k IH]; intros m i; simpl.
  - by rewrite decide_False by lia.
  - rewrite IH. destruct (decide (b = dst + i)) as [->|].
    + rewrite (decide_True (P := _ <= _ < dst + i + _)) by lia.
      rewrite decide_False by lia. apply ld8_st8_eq.
    + rewrite ld8_st8_ne by done. repeat case_decide; done || lia.
Qed.

Lemma ld8_memset m dst c n b :
  ld8 (memset m dst c n) b = if decide (dst <= b < dst + n) then u8 c else ld8 m b.
Proof.
  unfold memset. rewrite ld8_memset_loop. repeat case_decide; done || lia.
Qed.

Lemma ld64_memset_0 m dst n a :
  dst <= a -> a + 8 <= dst + n -> ld64 (memset m dst 0 n) a = 0.
Proof.
  intros. unfold ld64. simpl. rewrite !ld8_memset, !decide_True by lia. done.
Qed.

Lemma ld64_memset_out m dst c n a :
  a + 8 <= dst \/ dst + n <= a -> ld64 (memset m dst c n) a = ld64 m a.
Proof.
  intros. apply ld64_ext. intros b Hb. rewrite ld8_memset.
  by rewrite decide_False by lia.
Qed.

Lemma ld8_memmove_up m d s k b :
  mem_ok m -> ~ (s < d < s + Z.of_nat k) ->
  ld8 (memmove_up m d s k) b =
  if decide (d <= b < d + Z.of_nat k) then ld8 m (s + (b - d)) else ld8 m b.
Proof.
  revert m d s. induction k as [|k IH]; intros m d s Hm Hov; simpl.
  - by rewrite decide_False by lia.
  - rewrite IH by (mem_ok || lia).
    destruct (decide (b = d)) as [->|].
    + rewrite decide_False by lia. rewrite decide_True by lia.
      rewrite ld8_st8_eq, u8_small by apply Hm. f_equal. lia.
    + case_decide.
      * rewrite (decide_True (P := d <= _ < _)) by lia.
        rewrite ld8_st8_ne by lia. f_equal. lia.
      * rewrite decide_False by lia. by rewrite ld8_st8_ne by lia.
Qed.

Lemma ld8_memmove_down m d s k b :
  mem_ok m -> ~ (d < s < d + Z.of_nat k) ->
  ld8 (memmove_down m d s k) b =
  if decide (d - Z.of_nat k <= b < d) then ld8 m (s + (b - d)) else ld8 m b.
Proof.
  revert m d s. induction k as [|k IH]; intros m d s Hm Hov; simpl.
  - by rewrite decide_False by lia.
  - rewrite IH by (mem_ok || lia).
    destruct (decide (b = d - 1)) as [->|].
    + rewrite decide_False by lia. rewrite decide_True by lia.
      rewrite ld8_st8_eq, u8_small by apply Hm. f_equal. lia.
    + case_decide.
      * rewrite (decide_True (P := _ <= _ < d)) by lia.
        rewrite ld8_st8_ne by lia. f_equal. lia.
      * rewrite decide_False by lia. by rewrite ld8_st8_ne by lia.
Qed.

Lemma ld8_memmove m dst src n b :
  mem_ok m -> 0 <= n ->
  ld8 (memmove m dst src n) b =
  if decide (dst <= b < dst + n) then ld8 m (src + (b - dst)) else ld8 m b.
Proof.
  intros Hm Hn. unfold memmove.
  destruct (n =? 0) eqn:E; zbool; [by rewrite decide_False by lia|].
  destruct ((src <? dst) && (dst <? src + n)) eqn:E2; zbool.
  - rewrite ld8_memmove_down by (done || lia).
    repeat case_decide; (lia || f_equal; lia).
  - rewrite ld8_memmove_up by (done || (destruct E2; zbool; lia)).
    repeat case_decide; (lia || f_equal; lia).
Qed.

(** [memmove] copies [n] bytes even when the two regions overlap, in either
    direction, and changes no other byte. *)
Theorem memmove_spec m dst src n b :
  mem_ok m -> 0 <= n ->
  ld8 (memmove m dst src n) b =
  if decide (dst <= b < dst + n) then ld8 m (src + (b - dst)) else ld8 m b.
Proof. apply ld8_memmove. Qed.

Lemma ld8_blkmove dm d sm s n i :
  mem_ok sm ->
  ld8 (blkmove dm d sm s n) i =
  if decide (d <= i < d + Z.of_nat n) then ld8 sm (s + (i - d)) else ld8 dm i.
Proof.
  intros Hok. revert dm d s. induction n as [|n IH]; intros dm d s; cbn [blkmove].
  - by rewrite decide_False by lia.
  - rewrite IH. destruct (decide (i = d)) as [->|Hne].
    + rewrite decide_False, decide_True, ld8_st8_eq, u8_small by (apply Hok || lia). f_equal. lia.
    + rewrite ld8_st8_ne by done. repeat case_decide; try lia. f_equal. lia.
Qed.

Lemma bytes_at_S m a n : bytes_at m a (S n) = ld8 m a :: bytes_at m (a + 1) n.
Proof.
  unfold bytes_at. rewrite <-cons_seq. simpl. rewrite Z.add_0_r. f_equal.
  rewrite <-seq_shift, map_map. apply map_ext. intros i. f_equal. lia.
Qed.

(** ** C strings *)

Lemma cstr_ext m m' a l :
  same_bytes m m' a (Z.of_nat (length l) + 1) -> cstr m a l -> cstr m' a l.
Proof.
  revert a. induction l as [|c l IH]; intros a Hs; simpl in *.
  - intros <-. apply Hs. lia.
  - intros (<- & Hc & Hl). split; [apply Hs; lia|]. split; [done|].
    apply IH; [|done]. intros b Hb. apply Hs. lia.
Qed.

Lemma cstr_lookup m a l i c :
  cstr m a l -> l !! i = Some c -> ld8 m (a + Z.of_nat i) = c /\ c <> 0.
Proof.
  revert a i. induction l as [|c' l IH]; intros a i Hl Hi; [done|].
  destruct Hl as (H1 & H2 & H3). destruct i as [|i]; simpl in Hi.
  - simplify_eq. by rewrite Z.add_0_r.
  - destruct (IH _ _ H3 Hi) as [<- ?]. split; [f_equal; lia|done].
Qed.

Lemma strlen_loop_cstr m s n l fuel :
  cstr m (s + n) l -> (length l < fuel)%nat ->
  strlen_loop m s n fuel = Some (n + Z.of_nat (length l)).
Proof.
  revert n fuel. induction l as [|c l IH]; intros n fuel Hl Hf;
    (destruct fuel as [|fuel]; simpl in *; [lia|]).
  - rewrite Hl. simpl. f_equal. lia.
  - destruct Hl as (Hc & Hne & Hl). rewrite (proj2 (Z.eqb_neq _ _)) by congruence.
    rewrite IH by (done || lia || (by rewrite Z.add_assoc)). f_equal. lia.
Qed.

Lemma strlen_cstr m s l fuel :
  cstr m s l -> (length l < fuel)%nat -> strlen m s fuel = Some (Z.of_nat (length l)).
Proof. intros. unfold strlen. rewrite (strlen_loop_cstr _ _ _ l); rewrite ?Z.add_0_r; auto. Qed.

Lemma strncmp_loop_cstr m p q l1 l2 n :
  cstr m p l1 -> cstr m q l2 ->
  strncmp_loop m p q n = 0 <-> take n l1 = take n l2.
Proof.
  revert p q l1 l2. induction n as [|n IH]; intros p q l1 l2 H1 H2; simpl; [done|].
  destruct l1 as [|c1 l1], l2 as [|c2 l2]; simpl in *.
  - rewrite H1, H2. done.
  - destruct H2 as (E & ? & ?). rewrite H1. simpl. split; [lia|done].
  - destruct H1 as (E & ? & ?). rewrite H2, (proj2 (Z.eqb_neq _ 0)) by congruence.
    simpl. split; [lia|done].
  - destruct H1 as (E1 & N1 & S1), H2 as (E2 & N2 & S2). rewrite E1, E2.
    rewrite (proj2 (Z.eqb_neq c1 0)) by done. simpl.
    destruct (Z.eqb_spec c1 c2) as [->|].
    + rewrite (IH _ _ l1 l2) by done. split; [by intros ->|congruence].
    + split; [lia|congruence].
Qed.

(** [strncmp] returns 0 exactly when the two strings agree on their first
    [n] characters (or as many as they have). *)
Theorem strncmp_zero_iff m p q l1 l2 n :
  cstr m p l1 -> cstr m q l2 ->
  strncmp m p q n = 0 <-> take (Z.to_nat n) l1 = take (Z.to_nat n) l2.
Proof. apply strncmp_loop_cstr. Qed.

Lemma ld8_safestrcpy_out m s t n b :
  b < s \/ s + Z.of_nat n < b -> ld8 (safestrcpy_loop m s t n) b = ld8 m b.
Proof.
  revert m s t. induction n as [|n IH]; intros m s t H; simpl.
  - by rewrite ld8_st8_ne by lia.
  - case_match.
    + rewrite IH by lia. by rewrite ld8_st8_ne by lia.
    + by rewrite !ld8_st8_ne by lia.
Qed.

Lemma cstr_safestrcpy_loop m s t l n :
  mem_ok m -> cstr m t l ->
  s + Z.of_nat n < t \/ t + Z.of_nat (length l) < s ->
  cstr (safestrcpy_loop m s t n) s (take n l).
Proof.
  revert m s t l. induction n as [|n IH]; intros m s t l Hm Hl Hd; simpl.
  { apply ld8_st8_eq. }
  destruct l as [|c l]; simpl in *.
  - rewrite Hl. simpl. rewrite ld8_st8_ne, ld8_st8_eq by lia. done.
  - destruct Hl as (Hc & Hne & Hl).
    rewrite (proj2 (Z.eqb_neq _ 0)) by congruence. simpl. split_and!; [|done|].
    + rewrite ld8_safestrcpy_out by lia. rewrite ld8_st8_eq, u8_small; [done|].
      apply Hm.
    + apply IH; [mem_ok| |lia].
      eapply cstr_ext; [|done]. intros b Hb. by rewrite ld8_st8_ne by lia.
Qed.

(** [safestrcpy s t n] always leaves a NUL-terminated string of at most
    [n - 1] characters of [t] at [s], and touches no byte outside the [n] bytes
    of the destination. *)
Theorem safestrcpy_spec m s t l n :
  mem_ok m -> 0 < n -> cstr m t l ->
  s + n <= t \/ t + Z.of_nat (length l) < s ->
  cstr (safestrcpy m s t n) s (take (Z.to_nat (n - 1)) l) /\
  forall b, b < s \/ s + n <= b -> ld8 (safestrcpy m s t n) b = ld8 m b.
Proof.
  intros Hm Hn Hl Hd. unfold safestrcpy. rewrite (proj2 (Z.leb_gt _ _)) by done.
  split.
  - apply cstr_safestrcpy_loop; [done..|lia].
  - intros b Hb. apply ld8_safestrcpy_out. lia.
Qed.

(** ** Witnesses *)

Ltac cstr_eval := vm_compute; repeat split; (reflexivity || discriminate).

Definition hello_mem : mem := list_to_map [(100, 104); (101, 105); (200, 104); (201, 111)].

Lemma mem_ok_map_forall m : map_Forall (fun _ v => 0 <= v < 256) m -> mem_ok m.
Proof.
  intros H a. unfold ld8.
  destruct (m !! a) eqn:E; simpl; [by apply (H a)|lia].
Qed.

Lemma hello_mem_ok : mem_ok hello_mem.
Proof. apply mem_ok_map_forall. by apply (bool_decide_unpack _). Defined.

Lemma memmove_spec_witness :
  ld8 (memmove hello_mem 101 100 2) 102 = 105.
Proof.
  rewrite (memmove_spec hello_mem 101 100 2 102 hello_mem_ok ltac:(lia)).
  reflexivity.
Defined.

Lemma strncmp_zero_iff_witness :
  strncmp hello_mem 100 200 1 = 0 /\ strncmp hello_mem 100 200 2 <> 0.
Proof.
  split.
  - apply (strncmp_zero_iff hello_mem 100 200 [104; 105] [104; 111] 1);
      [cstr_eval..|done].
  - intros H. apply (strncmp_zero_iff hello_mem 100 200 [104; 105] [104; 111] 2) in H;
      [done|cstr_eval..].
Defined.

Lemma safestrcpy_spec_witness :
  cstr (safestrcpy hello_mem 300 100 2) 300 [104].
Proof.
  apply (safestrcpy_spec hello_mem 300 100 [104; 105] 2 hello_mem_ok);
    [lia|cstr_eval|right; simpl; lia].
Defined.
