(* ===== verification/Layout.v ===== *)
(** * Address-space constants and page-table entry formats

    The macros of kernel/riscv.h, kernel/memlayout.h and kernel/param.h that
    the memory subsystem uses, with the arithmetic facts about them: rounding to
    pages, the split of a virtual address into three 9-bit indices, and the
    packing of a physical address and flags into a page-table entry. *)

From S2P Require Import Prelude.

Definition PGSIZE : Z := 4096.
Definition PGSHIFT : Z := 12.

Definition PGROUNDUP (sz : Z) : Z :=
  Z.land (u64 (sz + PGSIZE - 1)) (u64 (Z.lnot (PGSIZE - 1))).

Definition PGROUNDDOWN (a : Z) : Z := Z.land a (u64 (Z.lnot (PGSIZE - 1))).

Definition PTE_V : Z := Z.shiftl 1 0.
Definition PTE_R : Z := Z.shiftl 1 1.
Definition PTE_W : Z := Z.shiftl 1 2.
Definition PTE_X : Z := Z.shiftl 1 3.
Definition PTE_U : Z := Z.shiftl 1 4.

Definition PA2PTE (pa : Z) : Z := u64 (Z.shiftl (Z.shiftr pa 12) 10).

Definition PTE2PA (pte : Z) : Z := u64 (Z.shiftl (Z.shiftr pte 10) 12).

Definition PTE_FLAGS (pte : Z) : Z := Z.land pte 1023.

Definition PXMASK : Z := 511.

Definition PXSHIFT (level : Z) : Z := PGSHIFT + 9 * level.

Definition PX (level va : Z) : Z := Z.land (Z.shiftr va (PXSHIFT level)) PXMASK.

Definition SATP_SV39 : Z := Z.shiftl 8 60.

Definition MAKE_SATP (pagetable : Z) : Z := Z.lor SATP_SV39 (Z.shiftr pagetable 12).

Definition MAXVA : Z := Z.shiftl 1 (9 + 9 + 9 + 12 - 1).

(** kernel/memlayout.h *)

Definition UART0 : Z := 268435456.        (* 0x10000000 *)
Definition UART0_IRQ : Z := 10.
Definition VIRTIO0 : Z := 268439552.      (* 0x10001000 *)
Definition VIRTIO0_IRQ : Z := 1.
Definition PLIC : Z := 201326592.         (* 0x0c000000 *)
Definition KERNBASE : Z := 2147483648.    (* 0x80000000 *)
Definition PHYSTOP : Z := KERNBASE + 128 * 1024 * 1024.
Definition TRAMPOLINE : Z := MAXVA - PGSIZE.
Definition KSTACK (p : Z) : Z := TRAMPOLINE - (p + 1) * 2 * PGSIZE.
Definition TRAPFRAME : Z := TRAMPOLINE - PGSIZE.

(** kernel/param.h *)

Definition NPROC : Z := 64.
Definition NCPU : Z := 8.
Definition NOFILE : Z := 16.
Definition NFILE : Z := 100.
Definition NINODE : Z := 50.
Definition NDEV : Z := 10.
Definition ROOTDEV : Z := 1.
Definition MAXARG : Z := 32.
Definition MAXOPBLOCKS : Z := 10.
Definition LOGSIZE : Z := MAXOPBLOCKS * 3.
Definition NBUF : Z := MAXOPBLOCKS * 3.
Definition FSSIZE : Z := 2000.
Definition MAXPATH : Z := 128.

(** Page-aligned addresses. *)
Definition aligned (a : Z) : Prop := a mod PGSIZE = 0.

(** ** Rounding *)

Lemma MAXVA_val : MAXVA = 274877906944.
Proof. done. Qed.

Lemma page_mask : u64 (Z.lnot (PGSIZE - 1)) = 2 ^ 64 - 2 ^ 12.
Proof. done. Qed.

Lemma pgrounddown_alt a : 0 <= a < 2 ^ 64 -> PGROUNDDOWN a = a - a mod PGSIZE.
Proof. intros. unfold PGROUNDDOWN. rewrite page_mask. apply land_high_mask; lia. Qed.

Lemma pgroundup_alt sz :
  0 <= sz <= 2 ^ 64 - PGSIZE ->
  PGROUNDUP sz = (sz + PGSIZE - 1) - (sz + PGSIZE - 1) mod PGSIZE.
Proof.
  unfold PGSIZE. intros. unfold PGROUNDUP. rewrite page_mask.
  rewrite u64_small by (unfold PGSIZE; lia).
  apply land_high_mask; unfold PGSIZE; lia.
Qed.

Lemma pgrounddown_aligned a : aligned a -> 0 <= a < 2 ^ 64 -> PGROUNDDOWN a = a.
Proof. unfold aligned. intros Ha ?. rewrite pgrounddown_alt by done. lia. Qed.

Lemma pgrounddown_spec a :
  0 <= a < 2 ^ 64 ->
  aligned (PGROUNDDOWN a) /\ PGROUNDDOWN a <= a < PGROUNDDOWN a + PGSIZE.
Proof.
  intros. unfold aligned. rewrite !pgrounddown_alt by done. unfold PGSIZE. zdm.
Qed.

Lemma pgroundup_spec a :
  0 <= a <= 2 ^ 64 - PGSIZE ->
  aligned (PGROUNDUP a) /\ PGROUNDUP a - PGSIZE < a <= PGROUNDUP a.
Proof.
  intros. unfold aligned. rewrite !pgroundup_alt by done. unfold PGSIZE. zdm.
Qed.

Lemma pgroundup_aligned a : aligned a -> 0 <= a <= 2 ^ 64 - PGSIZE -> PGROUNDUP a = a.
Proof. unfold aligned. intros. rewrite pgroundup_alt by done. unfold PGSIZE in *. zdm. Qed.

Lemma pgroundup_mono a b : 0 <= a <= b -> b <= 2 ^ 64 - PGSIZE -> PGROUNDUP a <= PGROUNDUP b.
Proof. intros. rewrite !pgroundup_alt by lia. unfold PGSIZE in *. zdm. Qed.

Lemma aligned_add a b : aligned a -> aligned b -> aligned (a + b).
Proof. unfold aligned, PGSIZE. intros. zdm. Qed.

Lemma aligned_sub a b : aligned a -> aligned b -> aligned (a - b).
Proof. unfold aligned, PGSIZE. intros. zdm. Qed.

Lemma aligned_page k : aligned (k * PGSIZE).
Proof. unfold aligned. apply Z.mod_mul. done. Qed.

(** Distinct aligned addresses are a page apart. *)
Lemma aligned_apart a b : aligned a -> aligned b -> a <> b -> a + PGSIZE <= b \/ b + PGSIZE <= a.
Proof. unfold aligned, PGSIZE. intros. zdm. Qed.

(** ** Indices of a virtual address *)

Lemma PX_alt l va : 0 <= l -> PX l va = va / 2 ^ (12 + 9 * l) mod 512.
Proof.
  intros. unfold PX, PXSHIFT, PGSHIFT, PXMASK.
  change 511 with (2 ^ 9 - 1). rewrite land_low_mask by lia.
  by rewrite Z.shiftr_div_pow2 by lia.
Qed.

Lemma PX_range l va : 0 <= l -> 0 <= PX l va < 512.
Proof. intros. rewrite PX_alt by done. apply Z.mod_pos_bound. lia. Qed.

(** A page address below [MAXVA] is determined by its three indices. *)
Lemma PX_inj va va' :
  aligned va -> aligned va' -> 0 <= va < MAXVA -> 0 <= va' < MAXVA ->
  PX 2 va = PX 2 va' -> PX 1 va = PX 1 va' -> PX 0 va = PX 0 va' -> va = va'.
Proof.
  rewrite MAXVA_val. unfold aligned, PGSIZE. rewrite !PX_alt by lia. simpl.
  change (Z.pow_pos 2 30) with (2 ^ 30). change (Z.pow_pos 2 21) with (2 ^ 21).
  change (Z.pow_pos 2 12) with (2 ^ 12).
  intros. zdm.
Qed.

(** ** Page-table entries *)

Lemma PTE_FLAGS_alt pte : PTE_FLAGS pte = pte mod 1024.
Proof. unfold PTE_FLAGS. change 1023 with (2 ^ 10 - 1). by rewrite land_low_mask. Qed.

Lemma PA2PTE_alt pa : aligned pa -> 0 <= pa < 2 ^ 56 -> PA2PTE pa = pa / 4.
Proof.
  unfold aligned, PGSIZE. intros. unfold PA2PTE.
  rewrite Z.shiftl_mul_pow2, Z.shiftr_div_pow2, u64_small by (try lia; zdm). zdm.
Qed.

Lemma PTE2PA_alt pte : 0 <= pte < 2 ^ 54 -> PTE2PA pte = pte / 1024 * 4096.
Proof.
  intros. unfold PTE2PA.
  rewrite Z.shiftl_mul_pow2, Z.shiftr_div_pow2, u64_small by (try lia; zdm). done.
Qed.

(** [PA2PTE(pa) | flags] packs the address and the flags without overlap. *)
Lemma pte_pack pa flags :
  aligned pa -> 0 <= pa < 2 ^ 56 -> 0 <= flags < 1024 ->
  Z.lor (PA2PTE pa) flags = pa / 4 + flags.
Proof.
  intros Ha Hp Hf. rewrite PA2PTE_alt by done.
  apply lor_disjoint_add with (k := 10); [lia..|].
  unfold aligned, PGSIZE in Ha. zdm.
Qed.

Lemma PTE2PA_pack pa flags :
  aligned pa -> 0 <= pa < 2 ^ 56 -> 0 <= flags < 1024 ->
  PTE2PA (Z.lor (PA2PTE pa) flags) = pa.
Proof.
  intros Ha Hp Hf. rewrite pte_pack by done. unfold aligned, PGSIZE in Ha.
  rewrite PTE2PA_alt by zdm. zdm.
Qed.

Lemma PTE_FLAGS_pack pa flags :
  aligned pa -> 0 <= pa < 2 ^ 56 -> 0 <= flags < 1024 ->
  PTE_FLAGS (Z.lor (PA2PTE pa) flags) = flags.
Proof.
  intros Ha Hp Hf. rewrite pte_pack, PTE_FLAGS_alt by done.
  unfold aligned, PGSIZE in Ha. zdm.
Qed.
