(* ===== verification/Kalloc.v ===== *)
(** * kernel/kalloc.c: the physical page allocator

    The free list is threaded through the free pages themselves: the first
    eight bytes of a free page hold the address of the next one ([struct run]).
    [kend] is the linker symbol [end], the first address after the kernel. *)

From S2P Require Import Prelude Machine Mem Layout.

(** Physical memory and [kmem.freelist] (0 is the null pointer). *)
Record kmem := Kmem { km_mem : mem; freelist : Z }.

Definition set_mem (m : mem) (k : kmem) : kmem := Kmem m (freelist k).

Definition set_freelist (r : Z) (k : kmem) : kmem := Kmem (km_mem k) r.

(** Stores to memory by the running code. *)
Definition on_mem (f : mem -> mem) : M kmem unit :=
  modify (fun k => set_mem (f (km_mem k)) k).

Definition kalloc : M kmem Z :=
  acquire LkKmem;;
  r ← gets freelist;
  when (negb (r =? 0))
    (modify (fun k => set_freelist (ld64 (km_mem k) r) k));;
  release LkKmem;;
  when (negb (r =? 0)) (on_mem (fun m => memset m r 5 PGSIZE));;
  mret r.

Section kalloc.
Variable kend : Z.

Definition kfree (pa : Z) : M kmem unit :=
  if negb (pa mod PGSIZE =? 0) || (pa <? kend) || (PHYSTOP <=? pa) then
    panic "kfree"
  else
    on_mem (fun m => memset m pa 1 PGSIZE);;
    let r := pa in
    acquire LkKmem;;
    modify (fun k => set_mem (st64 (km_mem k) r (freelist k)) k);;
    modify (set_freelist r);;
    release LkKmem.

(** [for(; p + PGSIZE <= pa_end; p += PGSIZE) kfree(p)] *)
Fixpoint freerange_loop (p pa_end : Z) (fuel : nat) : M kmem unit :=
  if p + PGSIZE <=? pa_end then
    match fuel with
    | O => diverge
    | S fuel => kfree p;; freerange_loop (p + PGSIZE) pa_end fuel
    end
  else mret tt.

(** The loop runs once per page of the range. *)
Definition freerange (pa_start pa_end : Z) : M kmem unit :=
  let p := PGROUNDUP pa_start in
  freerange_loop p pa_end (Z.to_nat ((pa_end - p) / PGSIZE)).

(** [initlock] leaves [kmem.lock] free: it is not among the held locks. *)
Definition kinit : M kmem unit := freerange kend PHYSTOP.

(** ** Representation: the list of free pages *)

(** A page the allocator manages. *)
Definition page_ok (p : Z) : Prop := aligned p /\ kend <= p < PHYSTOP.

(** [h] heads a chain of the pages [l] through memory. *)
Fixpoint free_chain (m : mem) (h : Z) (l : list Z) : Prop :=
  match l with
  | [] => h = 0
  | p :: l => h = p /\ page_ok p /\ free_chain m (ld64 m p) l
  end.

Definition kmem_inv (k : kmem) (l : list Z) : Prop :=
  free_chain (km_mem k) (freelist k) l /\ NoDup l /\ mem_ok (km_mem k).

(** The pages from [p] up, [n] of them, in the order [freerange] frees them. *)
Fixpoint pages_from (p : Z) (n : nat) : list Z :=
  match n with
  | O => []
  | S n => p :: pages_from (p + PGSIZE) n
  end.

(** Memory outside page [p] is unchanged. *)
Definition only_page (p : Z) (m m' : mem) : Prop :=
  forall b, b < p \/ p + PGSIZE <= b -> ld8 m' b = ld8 m b.

(** ** A system of allocator calls

    Clients call [kalloc], and [kfree] on a page they were given. *)
Inductive alloc_step : kmem * gset Z -> kmem * gset Z -> Prop :=
  | step_kalloc w k k' used p :
      LkKmem ∉ held w -> kalloc w k = Ret w k' p -> p <> 0 ->
      alloc_step (k, used) (k', {[p]} ∪ used)
  | step_kalloc_fail w k k' used :
      LkKmem ∉ held w -> kalloc w k = Ret w k' 0 ->
      alloc_step (k, used) (k', used)
  | step_kfree w k k' used p :
      LkKmem ∉ held w -> p ∈ used -> kfree p w k = Ret w k' tt ->
      alloc_step (k, used) (k', used ∖ {[p]})
  | step_client k m used :
      (** the owner of allocated pages writes to them *)
      mem_ok m ->
      (forall b, (forall p, p ∈ used -> b < p \/ p + PGSIZE <= b) ->
        ld8 m b = ld8 (km_mem k) b) ->
      alloc_step (k, used) (set_mem m k, used).

(** ** Properties *)

Hypothesis Hend : KERNBASE <= kend <= PHYSTOP.

Lemma page_ok_range p : page_ok p -> 0 < p < 2 ^ 32 /\ p + PGSIZE <= PHYSTOP.
Proof.
  unfold page_ok, aligned, PHYSTOP, KERNBASE, PGSIZE in *. intros [H1 H2].
  split; [lia|zdm].
Qed.

Lemma free_chain_ext m m' h l :
  (forall p, p ∈ l -> ld64 m' p = ld64 m p) -> free_chain m h l -> free_chain m' h l.
Proof.
  revert h. induction l as [|p l IH]; intros h Heq; simpl; [done|].
  intros (-> & Hp & Hl). split_and!; [done..|].
  rewrite Heq by left. apply IH; [|done]. intros q Hq. apply Heq. by right.
Qed.

Lemma free_chain_pages m h l p : free_chain m h l -> p ∈ l -> page_ok p.
Proof.
  revert h. induction l as [|q l IH]; intros h; simpl.
  - intros _ []%elem_of_nil.
  - intros (-> & Hq & Hl) [->|Hp]%elem_of_cons; [done|]. by eapply IH.
Qed.

Lemma kmem_inv_page k l p : kmem_inv k l -> p ∈ l -> page_ok p.
Proof. intros (? & _ & _). by eapply free_chain_pages. Qed.

(** A memory change outside the free pages keeps the free list. *)
Lemma kmem_inv_set_mem k l m :
  kmem_inv k l -> mem_ok m ->
  (forall p, p ∈ l -> same_bytes (km_mem k) m p 8) ->
  kmem_inv (set_mem m k) l.
Proof.
  intros (Hc & Hn & Hm) Hm' Hsame. split_and!; [|done..].
  simpl. eapply free_chain_ext; [|done]. intros p Hp. by apply ld64_ext, Hsame.
Qed.

Lemma pages_apart l p q :
  Forall page_ok l -> page_ok p -> p ∉ l -> q ∈ l -> q + PGSIZE <= p \/ p + PGSIZE <= q.
Proof.
  intros Hl [Hp _] Hnp Hq. apply aligned_apart; [|done|].
  - rewrite Forall_forall in Hl. by apply Hl.
  - by intros ->.
Qed.

Lemma kmem_inv_Forall k l : kmem_inv k l -> Forall page_ok l.
Proof. intros H. apply Forall_forall. intros. by eapply kmem_inv_page. Qed.

(** The equations of [kalloc] on an empty and on a non-empty free list. *)
Lemma kalloc_nil w k :
  LkKmem ∉ held w -> kmem_inv k [] -> kalloc w k = Ret w k 0.
Proof.
  intros Hw (Hc & _). simpl in Hc. unfold kalloc.
  rewrite run_acquire by done. run_simpl. rewrite Hc. simpl. run_simpl.
  rewrite run_release_acquired by done. done.
Qed.

Lemma kalloc_cons w k p l :
  LkKmem ∉ held w -> kmem_inv k (p :: l) ->
  kalloc w k = Ret w (Kmem (memset (km_mem k) p 5 PGSIZE) (ld64 (km_mem k) p)) p.
Proof.
  intros Hw ((Hf & Hp & Hl) & _). unfold kalloc.
  rewrite run_acquire by done. run_simpl. rewrite Hf.
  apply page_ok_range in Hp.
  ztests. simpl. run_simpl. rewrite run_release_acquired by done. run_simpl. done.
Qed.

Lemma kmem_inv_pop k p l :
  kmem_inv k (p :: l) ->
  kmem_inv (Kmem (memset (km_mem k) p 5 PGSIZE) (ld64 (km_mem k) p)) l.
Proof.
  intros Hk. pose proof (kmem_inv_Forall _ _ Hk) as Hall.
  inversion_clear Hall as [|? ? Hp Hl].
  destruct Hk as ((Hf & _ & Hc) & Hn & Hm). apply NoDup_cons in Hn as [Hpl Hn].
  split_and!; simpl; [|exact Hn|apply mem_ok_memset, Hm].
  eapply free_chain_ext; [|done]. intros q Hq. apply ld64_memset_out.
  pose proof (pages_apart l p q Hl Hp Hpl Hq). unfold PGSIZE in *. lia.
Qed.

Lemma kfree_eq w k p :
  LkKmem ∉ held w -> page_ok p ->
  kfree p w k =
  Ret w (Kmem (st64 (memset (km_mem k) p 1 PGSIZE) p (freelist k)) p) tt.
Proof.
  intros Hw [Ha Hr]. unfold kfree. unfold aligned in Ha. ztests. simpl.
  unfold on_mem. run_simpl. rewrite run_acquire by done. run_simpl.
  rewrite release_acquired by done. done.
Qed.

Lemma kmem_inv_push k p l :
  page_ok p -> p ∉ l -> kmem_inv k l ->
  kmem_inv (Kmem (st64 (memset (km_mem k) p 1 PGSIZE) p (freelist k)) p) (p :: l).
Proof.
  intros Hp Hpl Hk. pose proof (kmem_inv_Forall _ _ Hk) as Hall.
  destruct Hk as (Hc & Hn & Hm).
  assert (Hfl : 0 <= freelist k < 2 ^ 64).
  { destruct l as [|q l]; simpl in Hc.
    - rewrite Hc. lia.
    - destruct Hc as (-> & Hq & _). apply page_ok_range in Hq. lia. }
  split_and!; simpl.
  - split_and!; [done..|]. rewrite ld64_st64_same by done.
    eapply free_chain_ext; [|done]. intros q Hq.
    pose proof (pages_apart l p q Hall Hp Hpl Hq). unfold PGSIZE in *.
    rewrite ld64_st64_other, ld64_memset_out by lia. done.
  - by apply NoDup_cons.
  - mem_ok.
Qed.

(** The list of free pages is a stack: [kalloc] returns 0 and changes
    nothing when the list is empty; otherwise it pops the first page, fills it
    with 5 and leaves every byte outside that page as it was. *)
Theorem kalloc_spec w k l :
  LkKmem ∉ held w -> kmem_inv k l ->
  match l with
  | [] => kalloc w k = Ret w k 0
  | p :: l' => exists k',
      kalloc w k = Ret w k' p /\ p <> 0 /\ kmem_inv k' l' /\
      only_page p (km_mem k) (km_mem k') /\
      forall b, p <= b < p + PGSIZE -> ld8 (km_mem k') b = 5
  end.
Proof.
  intros Hw Hk. destruct l as [|p l]; [by apply kalloc_nil|].
  eexists. split; [by eapply kalloc_cons|]. split_and!.
  - pose proof (kmem_inv_page _ _ p Hk ltac:(left)) as Hp.
    apply page_ok_range in Hp. lia.
  - by apply kmem_inv_pop.
  - intros b Hb. simpl. rewrite ld8_memset. by rewrite decide_False by lia.
  - intros b Hb. simpl. rewrite ld8_memset. by rewrite decide_True by lia.
Qed.

(** [kfree] of a page that is not free pushes it on the list and changes
    only that page; [kfree] of an address that is not a page of the allocator
    panics. *)
Theorem kfree_spec w k l pa :
  LkKmem ∉ held w -> kmem_inv k l -> pa ∉ l ->
  (page_ok pa /\ exists k',
     kfree pa w k = Ret w k' tt /\ kmem_inv k' (pa :: l) /\
     only_page pa (km_mem k) (km_mem k')) \/
  (~ page_ok pa /\ kfree pa w k = Panic "kfree").
Proof.
  intros Hw Hk Hpa.
  destruct (decide (pa mod PGSIZE = 0 /\ kend <= pa < PHYSTOP)) as [Hp|Hp].
  - left. split; [done|]. eexists. split; [by apply kfree_eq|]. split.
    + by apply kmem_inv_push.
    + intros b Hb. simpl. rewrite ld8_st64_out, ld8_memset by (unfold PGSIZE in *; lia).
      by rewrite decide_False by lia.
  - right. split; [done|]. unfold kfree.
    destruct (negb (pa mod PGSIZE =? 0) || (pa <? kend) || (PHYSTOP <=? pa)) eqn:E;
      [done|zbool; lia].
Qed.

Lemma freerange_loop_spec w k l p pa_end n :
  LkKmem ∉ held w -> kmem_inv k l -> aligned p -> kend <= p -> pa_end <= PHYSTOP ->
  (forall q, q ∈ l -> q < p) -> n = Z.to_nat ((pa_end - p) / PGSIZE) ->
  exists k', freerange_loop p pa_end n w k = Ret w k' tt /\
             kmem_inv k' (rev (pages_from p n) ++ l).
Proof.
  intros Hw. revert k l p. induction n as [|n IH]; intros k l p Hk Ha Hp Hpe Hl Hn; simpl.
  - rewrite (proj2 (Z.leb_gt _ _)) by (unfold PGSIZE in *; zdm). eauto.
  - assert (Hle : p + PGSIZE <= pa_end) by (unfold PGSIZE in *; zdm).
    rewrite (proj2 (Z.leb_le _ _)) by done.
    assert (Hpok : page_ok p) by (split; [done|unfold PGSIZE in *; lia]).
    assert (Hpl : p ∉ l) by (intros H; apply Hl in H; lia).
    run_step (kfree_eq w k p Hw Hpok).
    destruct (IH _ (p :: l) (p + PGSIZE) (kmem_inv_push k p l Hpok Hpl Hk))
      as (k' & -> & Hk').
    + apply aligned_add; done.
    + unfold PGSIZE; lia.
    + done.
    + intros q [->|Hq]%elem_of_cons; [unfold PGSIZE; lia|].
      specialize (Hl q Hq). unfold PGSIZE. lia.
    + unfold PGSIZE in *. zdm.
    + exists k'. split; [done|]. simpl. by rewrite <-app_assoc.
Qed.

(** The pages between [end] and [PHYSTOP]. *)
Definition boot_pages : list Z :=
  pages_from (PGROUNDUP kend) (Z.to_nat ((PHYSTOP - PGROUNDUP kend) / PGSIZE)).

Lemma kinit_inv w m :
  LkKmem ∉ held w -> mem_ok m ->
  exists k', kinit w (Kmem m 0) = Ret w k' tt /\ kmem_inv k' (rev boot_pages).
Proof.
  intros Hw Hm. unfold kinit, freerange.
  assert (Hr : 0 <= kend <= 2 ^ 64 - PGSIZE)
    by (unfold PHYSTOP, KERNBASE, PGSIZE in *; lia).
  destruct (pgroundup_spec kend Hr) as [Ha Hu].
  edestruct (freerange_loop_spec w (Kmem m 0) [] (PGROUNDUP kend) PHYSTOP)
    as (k' & -> & Hk').
  - done.
  - split_and!; [done|apply NoDup_nil_2|done].
  - done.
  - lia.
  - lia.
  - intros q []%elem_of_nil.
  - done.
  - exists k'. rewrite app_nil_r in Hk'. done.
Qed.

(** [kinit] terminates and builds the free list of exactly the whole pages
    between [end] and [PHYSTOP]. *)
Theorem kinit_spec w m :
  LkKmem ∉ held w -> mem_ok m ->
  exists k', kinit w (Kmem m 0) = Ret w k' tt /\ kmem_inv k' (rev boot_pages).
Proof. apply kinit_inv. Qed.

(** The pages of [l0] are split between the free list and the clients. *)
Definition split_pages (l0 l : list Z) (used : gset Z) : Prop :=
  list_to_set l ## used /\ list_to_set l ∪ used = (list_to_set l0 : gset Z).

Lemma alloc_step_inv l0 k used k' used' :
  Forall page_ok l0 -> alloc_step (k, used) (k', used') ->
  (exists l, kmem_inv k l /\ split_pages l0 l used) ->
  exists l, kmem_inv k' l /\ split_pages l0 l used'.
Proof.
  intros Hl0 Hstep (l & Hk & Hd & Hu).
  assert (Hok : forall p, p ∈ l0 -> page_ok p) by (by apply Forall_forall).
  inversion Hstep as [w ? ? ? p Hw Ha Hne|w ? ? ? Hw Ha|w ? ? ? p Hw Hp Ha|? m ? Hm Hsame];
    subst; clear Hstep.
  - destruct l as [|q l].
    { rewrite (kalloc_nil w k Hw Hk) in Ha. congruence. }
    rewrite (kalloc_cons w k q l Hw Hk) in Ha. simplify_eq.
    exists l. split; [by apply kmem_inv_pop|].
    destruct Hk as (_ & Hn & _). apply NoDup_cons in Hn as [Hpl _].
    split; [set_solver|]. rewrite <-Hu. set_solver.
  - destruct l as [|q l].
    { rewrite (kalloc_nil w k Hw Hk) in Ha. simplify_eq. by exists []. }
    rewrite (kalloc_cons w k q l Hw Hk) in Ha. simplify_eq.
    pose proof (kmem_inv_page _ _ 0 Hk ltac:(left)) as Hp.
    apply page_ok_range in Hp. lia.
  - assert (Hpok : page_ok p) by (apply Hok; set_solver).
    rewrite (kfree_eq w k p Hw Hpok) in Ha. simplify_eq.
    exists (p :: l). split; [apply kmem_inv_push; [done|set_solver|done]|].
    split; [set_solver|]. rewrite <-Hu.
    apply set_eq. intros x. destruct (decide (x = p)); set_solver.
  - exists l. split; [|done]. apply kmem_inv_set_mem; [done..|].
    intros q Hq b Hb. apply Hsame. intros p Hp.
    assert (Hne : p <> q) by set_solver.
    assert (Hpa : aligned p) by (apply Hok; set_solver).
    assert (Hqa : aligned q) by (eapply kmem_inv_page; done).
    pose proof (aligned_apart p q Hpa Hqa Hne). unfold PGSIZE in *. lia.
Qed.

(** C15: Over any sequence of [kalloc], [kfree] and client stores from a state
    whose free list is [l0], no page is ever both free and in use, no page is
    lost, and the next [kalloc] returns a page nobody uses, or 0 only when all
    of [l0] is in use. *)
Theorem kalloc_never_reuses k0 l0 k used w :
  kmem_inv k0 l0 -> rtc alloc_step (k0, ∅) (k, used) -> LkKmem ∉ held w ->
  exists k' p, kalloc w k = Ret w k' p /\
    ((p = 0 /\ used = list_to_set l0) \/
     (p <> 0 /\ p ∈ l0 /\ p ∉ used)).
Proof.
  intros Hk0 Hsteps Hw.
  assert (Hinv : exists l, kmem_inv k l /\ split_pages l0 l used).
  { remember (k0, ∅) as s0. remember (k, used) as s.
    assert (Hgen : forall s s', rtc alloc_step s s' ->
              (exists l, kmem_inv s.1 l /\ split_pages l0 l s.2) ->
              exists l, kmem_inv s'.1 l /\ split_pages l0 l s'.2).
    { induction 1 as [|[a1 a2] [b1 b2] c Hs _ IH]; [done|]. intros Ha. apply IH.
      eapply alloc_step_inv; [by eapply kmem_inv_Forall|done..]. }
    apply Hgen in Hsteps; subst; [done|]. exists l0. split; [done|]. split; set_solver. }
  destruct Hinv as (l & Hk & Hd & Hu). destruct l as [|p l].
  - exists k, 0. split; [by apply kalloc_nil|]. left. set_solver.
  - eexists _, p. split; [by eapply kalloc_cons|]. right.
    pose proof (kmem_inv_page _ _ p Hk ltac:(left)) as Hp. apply page_ok_range in Hp.
    split_and!; [lia|set_solver|set_solver].
Qed.
End kalloc.

(** ** Witnesses: a machine whose last three pages are free *)

Definition w0 : world := World [] [] [].

Definition kend3 : Z := PHYSTOP - 3 * PGSIZE.

Definition boot3 : kmem :=
  exec (kinit kend3) w0 (Kmem ∅ 0).

Definition pages3 : list Z := rev (boot_pages kend3).

Lemma kend3_ok : KERNBASE <= kend3 <= PHYSTOP.
Proof. unfold kend3, PHYSTOP, KERNBASE, PGSIZE. lia. Defined.

Lemma no_locks_held : LkKmem ∉ held w0.
Proof. apply not_elem_of_nil. Defined.

Lemma kinit_spec_witness :
  exists k', kinit kend3 w0 (Kmem ∅ 0) = Ret w0 k' tt /\ kmem_inv kend3 k' pages3.
Proof.
  apply (kinit_spec kend3 kend3_ok w0 ∅ no_locks_held mem_ok_empty).
Defined.

Lemma boot3_inv : kmem_inv kend3 boot3 pages3.
Proof.
  unfold boot3, exec. destruct (kinit_inv kend3 kend3_ok w0 ∅ no_locks_held mem_ok_empty)
    as (k' & -> & Hk'). done.
Qed.

Lemma kalloc_spec_witness :
  exists k', kalloc w0 boot3 = Ret w0 k' (PHYSTOP - PGSIZE) /\
             kmem_inv kend3 k' [PHYSTOP - 2 * PGSIZE; PHYSTOP - 3 * PGSIZE].
Proof.
  destruct (kalloc_spec kend3 kend3_ok w0 boot3 pages3 no_locks_held boot3_inv)
    as (k' & H & _ & Hk & _).
  exists k'. split; [exact H|exact Hk].
Defined.

Lemma kfree_spec_witness :
  kfree kend3 (PHYSTOP + 1) w0 boot3 = Panic "kfree".
Proof.
  destruct (kfree_spec kend3 kend3_ok w0 boot3 pages3 (PHYSTOP + 1) no_locks_held
              boot3_inv) as [[H _]|[_ H]]; [|exfalso|exact H].
  - apply (bool_decide_unpack _). vm_compute. exact I.
  - destruct H as [H _]. discriminate H.
Defined.

Lemma kalloc_never_reuses_witness :
  exists k' p, kalloc w0 boot3 = Ret w0 k' p /\
    ((p = 0 /\ (∅ : gset Z) = list_to_set pages3) \/
     (p <> 0 /\ p ∈ pages3 /\ p ∉ (∅ : gset Z))).
Proof.
  apply (kalloc_never_reuses kend3 kend3_ok boot3 pages3 boot3 ∅ w0 boot3_inv);
    [reflexivity|apply no_locks_held].
Defined.
