(* ===== verification/Vm.v ===== *)
(** * kernel/vm.c: page tables and user memory

    Page tables live in physical memory, as 512 little-endian 64-bit entries
    per page; an entry pointer is the address of its first byte, 0 for null.
    Data that C code copies from or to a kernel buffer is the list of the bytes
    of that buffer. *)

From S2P Require Import Prelude Machine Mem Layout Kalloc.

Definition ldpte (pte : Z) : M kmem Z := gets (fun k => ld64 (km_mem k) pte).

Definition stpte (pte v : Z) : M kmem unit := on_mem (fun m => st64 m pte v).

(** [v & bit], as a condition. *)
Definition has (v bit : Z) : bool := negb (Z.land v bit =? 0).

(** [for(int level = 2; level > 0; level--)] from [level] on. *)
Fixpoint walk_loop (level : nat) (pagetable va : Z) (alloc : bool) : M kmem Z :=
  match level with
  | O => mret (pagetable + 8 * PX 0 va)
  | S level' =>
      let pte := pagetable + 8 * PX (Z.of_nat level) va in
      v ← ldpte pte;
      if has v PTE_V then walk_loop level' (PTE2PA v) va alloc
      else if negb alloc then mret 0
      else
        pagetable ← kalloc;
        if pagetable =? 0 then mret 0
        else
          on_mem (fun m => memset m pagetable 0 PGSIZE);;
          stpte pte (Z.lor (PA2PTE pagetable) PTE_V);;
          walk_loop level' pagetable va alloc
  end.

Definition walk (pagetable va : Z) (alloc : bool) : M kmem Z :=
  if MAXVA <=? va then panic "walk" else walk_loop 2 pagetable va alloc.

Definition walkaddr (pagetable va : Z) : M kmem Z :=
  if MAXVA <=? va then mret 0
  else
    pte ← walk pagetable va false;
    if pte =? 0 then mret 0
    else
      v ← ldpte pte;
      if negb (has v PTE_V) then mret 0
      else if negb (has v PTE_U) then mret 0
      else mret (PTE2PA v).

(** The [for(;;)] of [mappages]. *)
Fixpoint mappages_loop (pagetable a last pa perm : Z) (fuel : nat) : M kmem Z :=
  match fuel with
  | O => diverge
  | S fuel =>
      pte ← walk pagetable a true;
      if pte =? 0 then mret (-1)
      else
        v ← ldpte pte;
        if has v PTE_V then panic "mappages: remap"
        else
          stpte pte (Z.lor (Z.lor (PA2PTE pa) perm) PTE_V);;
          if a =? last then mret 0
          else mappages_loop pagetable (u64 (a + PGSIZE)) last (u64 (pa + PGSIZE)) perm fuel
  end.

(** The loop ends at [last], or, when [last] lies below [a], in the panic of
    [walk] at [MAXVA]. *)
Definition mappages (pagetable va size pa perm : Z) : M kmem Z :=
  if size =? 0 then panic "mappages: size"
  else
    let a := PGROUNDDOWN va in
    let last := PGROUNDDOWN (u64 (va + size - 1)) in
    let top := if a <=? last then last else MAXVA in
    mappages_loop pagetable a last pa perm (S (Z.to_nat ((top - a) / PGSIZE))).

Definition kvmmap (kpgtbl va pa sz perm : Z) : M kmem unit :=
  r ← mappages kpgtbl va sz pa perm;
  if negb (r =? 0) then panic "kvmmap" else mret tt.

(** [proc_mapstacks] of kernel/proc.c: a page for each process's kernel stack. *)
Fixpoint proc_mapstacks_loop (kpgtbl p : Z) (n : nat) : M kmem unit :=
  match n with
  | O => mret tt
  | S n =>
      pa ← kalloc;
      if pa =? 0 then panic "kalloc"
      else
        kvmmap kpgtbl (KSTACK p) pa PGSIZE (Z.lor PTE_R PTE_W);;
        proc_mapstacks_loop kpgtbl (p + 1) n
  end.

Definition proc_mapstacks (kpgtbl : Z) : M kmem unit :=
  proc_mapstacks_loop kpgtbl 0 (Z.to_nat NPROC).

(** [etext] and [trampoline] are addresses the linker assigns. *)
Definition kvmmake (etext trampoline : Z) : M kmem Z :=
  kpgtbl ← kalloc;
  on_mem (fun m => memset m kpgtbl 0 PGSIZE);;
  kvmmap kpgtbl UART0 UART0 PGSIZE (Z.lor PTE_R PTE_W);;
  kvmmap kpgtbl VIRTIO0 VIRTIO0 PGSIZE (Z.lor PTE_R PTE_W);;
  kvmmap kpgtbl PLIC PLIC 4194304 (Z.lor PTE_R PTE_W);;
  kvmmap kpgtbl KERNBASE KERNBASE (u64 (etext - KERNBASE)) (Z.lor PTE_R PTE_X);;
  kvmmap kpgtbl etext etext (u64 (PHYSTOP - etext)) (Z.lor PTE_R PTE_W);;
  kvmmap kpgtbl TRAMPOLINE trampoline PGSIZE (Z.lor PTE_R PTE_X);;
  proc_mapstacks kpgtbl;;
  mret kpgtbl.

(** The allocator with the kernel's page table and the hart's [satp]. *)
Record vmglobals := VmGlobals { vg_kmem : kmem; kernel_pagetable : Z; satp : Z }.

Definition vmg_kmem : lens vmglobals kmem :=
  Lens _ _ vg_kmem (fun k g => VmGlobals k (kernel_pagetable g) (satp g)).

Definition kvminit (etext trampoline : Z) : M vmglobals unit :=
  p ← zoom vmg_kmem (kvmmake etext trampoline);
  modify (fun g => VmGlobals (vg_kmem g) p (satp g)).

(** The fences order this hart's accesses and have no effect on the state. *)
Definition kvminithart : M vmglobals unit :=
  modify (fun g => VmGlobals (vg_kmem g) (kernel_pagetable g) (MAKE_SATP (kernel_pagetable g))).

Section vm.
Variable kend : Z.

Abbreviation kfree := (kfree kend).

Fixpoint uvmunmap_loop (pagetable a lim : Z) (do_free : bool) (fuel : nat) : M kmem unit :=
  if a <? lim then
    match fuel with
    | O => diverge
    | S fuel =>
        pte ← walk pagetable a false;
        if pte =? 0 then panic "uvmunmap: walk"
        else
          v ← ldpte pte;
          if negb (has v PTE_V) then panic "uvmunmap: not mapped"
          else if PTE_FLAGS v =? PTE_V then panic "uvmunmap: not a leaf"
          else
            when do_free (kfree (PTE2PA v));;
            stpte pte 0;;
            uvmunmap_loop pagetable (u64 (a + PGSIZE)) lim do_free fuel
    end
  else mret tt.

Definition uvmunmap (pagetable va npages : Z) (do_free : bool) : M kmem unit :=
  if negb (va mod PGSIZE =? 0) then panic "uvmunmap: not aligned"
  else
    let lim := u64 (va + u64 (npages * PGSIZE)) in
    uvmunmap_loop pagetable va lim do_free (Z.to_nat ((lim - va + PGSIZE - 1) / PGSIZE)).

Definition uvmcreate : M kmem Z :=
  pagetable ← kalloc;
  if pagetable =? 0 then mret 0
  else on_mem (fun m => memset m pagetable 0 PGSIZE);; mret pagetable.

(** [src] is the kernel address of the program text, [sz] its length. *)
Definition uvmfirst (pagetable src sz : Z) : M kmem unit :=
  if PGSIZE <=? sz then panic "uvmfirst: more than a page"
  else
    pg ← kalloc;
    on_mem (fun m => memset m pg 0 PGSIZE);;
    mappages pagetable 0 PGSIZE pg (Z.lor (Z.lor (Z.lor PTE_W PTE_R) PTE_X) PTE_U);;
    on_mem (fun m => memmove m pg src sz).

Definition uvmdealloc (pagetable oldsz newsz : Z) : M kmem Z :=
  if oldsz <=? newsz then mret oldsz
  else
    when (PGROUNDUP newsz <? PGROUNDUP oldsz)
      (let npages := s32 ((PGROUNDUP oldsz - PGROUNDUP newsz) / PGSIZE) in
       uvmunmap pagetable (PGROUNDUP newsz) (u64 npages) true);;
    mret newsz.

Fixpoint uvmalloc_loop (pagetable a oldsz newsz xperm : Z) (fuel : nat) : M kmem Z :=
  if a <? newsz then
    match fuel with
    | O => diverge
    | S fuel =>
        pg ← kalloc;
        if pg =? 0 then uvmdealloc pagetable a oldsz;; mret 0
        else
          on_mem (fun m => memset m pg 0 PGSIZE);;
          r ← mappages pagetable a PGSIZE pg (Z.lor (Z.lor PTE_R PTE_U) xperm);
          if negb (r =? 0) then
            kfree pg;; uvmdealloc pagetable a oldsz;; mret 0
          else uvmalloc_loop pagetable (u64 (a + PGSIZE)) oldsz newsz xperm fuel
    end
  else mret newsz.

Definition uvmalloc (pagetable oldsz newsz xperm : Z) : M kmem Z :=
  if newsz <? oldsz then mret oldsz
  else
    let oldsz := PGROUNDUP oldsz in
    uvmalloc_loop pagetable oldsz oldsz newsz xperm
      (Z.to_nat ((newsz - oldsz + PGSIZE - 1) / PGSIZE)).

(** The loop of [freewalk] over the entries [i], [i+1], ...; [free_child] is
    the recursive call. *)
Fixpoint freewalk_loop (free_child : Z -> M kmem unit) (pagetable i : Z) (n : nat)
    : M kmem unit :=
  match n with
  | O => mret tt
  | S n =>
      pte ← ldpte (pagetable + 8 * i);
      (if has pte PTE_V && negb (has pte (Z.lor (Z.lor PTE_R PTE_W) PTE_X)) then
         free_child (PTE2PA pte);; stpte (pagetable + 8 * i) 0
       else if has pte PTE_V then panic "freewalk: leaf"
       else mret tt);;
      freewalk_loop free_child pagetable (i + 1) n
  end.

(** [depth] bounds the recursion; a page table has three levels. *)
Fixpoint freewalk_rec (depth : nat) (pagetable : Z) : M kmem unit :=
  match depth with
  | O => diverge
  | S depth =>
      freewalk_loop (freewalk_rec depth) pagetable 0 512;;
      kfree pagetable
  end.

Definition freewalk (pagetable : Z) : M kmem unit := freewalk_rec 3 pagetable.

Definition uvmfree (pagetable sz : Z) : M kmem unit :=
  when (0 <? sz) (uvmunmap pagetable 0 (PGROUNDUP sz / PGSIZE) true);;
  freewalk pagetable.

Fixpoint uvmcopy_loop (old new i sz : Z) (fuel : nat) : M kmem Z :=
  if i <? sz then
    match fuel with
    | O => diverge
    | S fuel =>
        pte ← walk old i false;
        if pte =? 0 then panic "uvmcopy: pte should exist"
        else
          v ← ldpte pte;
          if negb (has v PTE_V) then panic "uvmcopy: page not present"
          else
            let pa := PTE2PA v in
            let flags := PTE_FLAGS v in
            pg ← kalloc;
            if pg =? 0 then uvmunmap new 0 (i / PGSIZE) true;; mret (-1)
            else
              on_mem (fun m => memmove m pg pa PGSIZE);;
              r ← mappages new i PGSIZE pg flags;
              if negb (r =? 0) then
                kfree pg;; uvmunmap new 0 (i / PGSIZE) true;; mret (-1)
              else uvmcopy_loop old new (u64 (i + PGSIZE)) sz fuel
    end
  else mret 0.

Definition uvmcopy (old new sz : Z) : M kmem Z :=
  uvmcopy_loop old new 0 sz (Z.to_nat ((sz + PGSIZE - 1) / PGSIZE)).
End vm.

Definition uvmclear (pagetable va : Z) : M kmem unit :=
  pte ← walk pagetable va false;
  if pte =? 0 then panic "uvmclear"
  else v ← ldpte pte; stpte pte (Z.land v (u64 (Z.lnot PTE_U))).

(** ** Copies between kernel buffers and user memory *)

(** Store the bytes [bs] at [a] and up. *)
Fixpoint store_bytes (m : mem) (a : Z) (bs : list Z) : mem :=
  match bs with
  | [] => m
  | b :: bs => store_bytes (st8 m a b) (a + 1) bs
  end.

Definition load_bytes (m : mem) (a n : Z) : list Z := bytes_at m a (Z.to_nat n).

(** [src] holds the [len] bytes still to copy. *)
Fixpoint copyout_loop (pagetable dstva : Z) (src : list Z) (fuel : nat) : M kmem Z :=
  let len := Z.of_nat (length src) in
  if 0 <? len then
    match fuel with
    | O => diverge
    | S fuel =>
        let va0 := PGROUNDDOWN dstva in
        pa0 ← walkaddr pagetable va0;
        if pa0 =? 0 then mret (-1)
        else
          let n := PGSIZE - (dstva - va0) in
          let n := if len <? n then len else n in
          on_mem (fun m => store_bytes m (pa0 + (dstva - va0)) (take (Z.to_nat n) src));;
          copyout_loop pagetable (u64 (va0 + PGSIZE)) (drop (Z.to_nat n) src) fuel
    end
  else mret 0.

Definition copyout (pagetable dstva : Z) (src : list Z) : M kmem Z :=
  copyout_loop pagetable dstva src (length src).

(** Returns the status and the bytes written to the destination. *)
Fixpoint copyin_loop (pagetable srcva len : Z) (dst : list Z) (fuel : nat)
    : M kmem (Z * list Z) :=
  if 0 <? len then
    match fuel with
    | O => diverge
    | S fuel =>
        let va0 := PGROUNDDOWN srcva in
        pa0 ← walkaddr pagetable va0;
        if pa0 =? 0 then mret (-1, dst)
        else
          let n := PGSIZE - (srcva - va0) in
          let n := if len <? n then len else n in
          bs ← gets (fun k => load_bytes (km_mem k) (pa0 + (srcva - va0)) n);
          copyin_loop pagetable (u64 (va0 + PGSIZE)) (len - n) (dst ++ bs) fuel
    end
  else mret (0, dst).

Definition copyin (pagetable srcva len : Z) : M kmem (Z * list Z) :=
  copyin_loop pagetable srcva len [] (Z.to_nat len).

(** The inner loop of [copyinstr] over the [n] bytes at [p]: the bytes copied,
    and whether a NUL was found. *)
Fixpoint copyinstr_page (m : mem) (p : Z) (n : nat) (dst : list Z) : bool * list Z :=
  match n with
  | O => (false, dst)
  | S n =>
      if ld8 m p =? 0 then (true, dst ++ [0])
      else copyinstr_page m (p + 1) n (dst ++ [ld8 m p])
  end.

(** [max] counts the bytes that may still be copied. *)
Fixpoint copyinstr_loop (pagetable srcva max : Z) (dst : list Z) (fuel : nat)
    : M kmem (Z * list Z) :=
  if 0 <? max then
    match fuel with
    | O => diverge
    | S fuel =>
        let va0 := PGROUNDDOWN srcva in
        pa0 ← walkaddr pagetable va0;
        if pa0 =? 0 then mret (-1, dst)
        else
          let n := PGSIZE - (srcva - va0) in
          let n := if max <? n then max else n in
          '(got_null, dst) ← gets (fun k =>
            copyinstr_page (km_mem k) (pa0 + (srcva - va0)) (Z.to_nat n) dst);
          if (got_null : bool) then mret (0, dst)
          else copyinstr_loop pagetable (u64 (va0 + PGSIZE)) (max - n) dst fuel
    end
  else mret (-1, dst).

Definition copyinstr (pagetable srcva max : Z) : M kmem (Z * list Z) :=
  copyinstr_loop pagetable srcva max [] (Z.to_nat max).
