(* ===== verification/VmInv.v ===== *)
(** * Page-table invariant and the correctness of [walk]

    A page table is described by the map [T] from index paths to the physical
    pages that hold its tables: [T !! []] is the root, [T !! [i]] the level-1
    table under entry [i] of the root, [T !! [i; j]] the level-0 table under
    entry [j] of that.  [leafpte] is the abstract view the rest of the kernel
    relies on: the leaf entry of each virtual page, 0 where there is no table. *)

From S2P Require Import Prelude Machine Mem Layout Kalloc Vm.

(** Index path of the level-0 table of [va]. *)
Definition vpath (va : Z) : list Z := [PX 2 va; PX 1 va].

Abbreviation ptree := (gmap (list Z) Z).

(** The physical address of the leaf entry of [va], 0 when there is none. *)
Definition leafslot (T : ptree) (va : Z) : Z :=
  match T !! vpath va with Some a => a + 8 * PX 0 va | None => 0 end.

Definition leafpte (m : mem) (T : ptree) (va : Z) : Z :=
  match T !! vpath va with Some a => ld64 m (a + 8 * PX 0 va) | None => 0 end.

(** The pages of [T]. *)
Definition in_tree (T : ptree) (a : Z) : Prop := exists p, T !! p = Some a.

(** Memory is unchanged on the page [a]. *)
Definition same_page (m m' : mem) (a : Z) : Prop := same_bytes m m' a PGSIZE.

(** Entries of a table that can be used: [walk] only accepts addresses below
    [MAXVA], which leaves the upper half of the root unused. *)
Definition idx_bound (p : list Z) : Z := match p with [] => 256 | _ => 512 end.

Section inv.
Variable kend : Z.

Record pt_inv (m : mem) (root : Z) (T : ptree) : Prop := {
  pt_root : T !! [] = Some root;
  pt_len p a : T !! p = Some a -> (length p <= 2)%nat;
  pt_prefix p i a : T !! (p ++ [i]) = Some a -> is_Some (T !! p);
  pt_idx p i a : T !! (p ++ [i]) = Some a -> 0 <= i < idx_bound p;
  pt_pages p a : T !! p = Some a -> page_ok kend a;
  pt_inj p q a : T !! p = Some a -> T !! q = Some a -> p = q;
  pt_ent p a i : T !! p = Some a -> (length p < 2)%nat -> 0 <= i < 512 ->
    match T !! (p ++ [i]) with
    | Some b => ld64 m (a + 8 * i) = Z.lor (PA2PTE b) PTE_V
    | None => Z.land (ld64 m (a + 8 * i)) PTE_V = 0
    end }.

(** The allocator and one page table: the free list [l] and the tables [T] use
    different pages. *)
Record vm_inv (k : kmem) (l : list Z) (root : Z) (T : ptree) : Prop := {
  vi_kmem : kmem_inv kend k l;
  vi_pt : pt_inv (km_mem k) root T;
  vi_disj a : in_tree T a -> a ∉ l }.

(** What an operation that may add tables does to the rest of memory: the old
    tables stay, the new ones come from the free list, and every page outside
    the new tree keeps its contents. *)
Record vm_ext (k : kmem) (l : list Z) (T : ptree)
    (k' : kmem) (l' : list Z) (T' : ptree) : Prop := {
  vg_sub : T ⊆ T';
  vg_new a : in_tree T' a -> in_tree T a \/ a ∈ l;
  vg_list : exists used, l = used ++ l' /\ Forall (in_tree T') used;
  vg_frame a : aligned a -> ~ in_tree T' a -> same_page (km_mem k) (km_mem k') a }.

(** The same, leaving the mapping itself unchanged. *)
Definition vm_grow (k : kmem) (l : list Z) (T : ptree)
    (k' : kmem) (l' : list Z) (T' : ptree) : Prop :=
  vm_ext k l T k' l' T' /\
  forall va, leafpte (km_mem k') T' va = leafpte (km_mem k) T va.

Hypothesis Hend : KERNBASE <= kend <= PHYSTOP.

Lemma has_V_pack b : page_ok kend b -> has (Z.lor (PA2PTE b) PTE_V) PTE_V = true.
Proof.
  intros [Ha Hb]. unfold has. apply negb_true_iff, Z.eqb_neq.
  rewrite Z.land_lor_distr_l, Z.land_diag. intros H%Z.lor_eq_0_iff. by destruct H.
Qed.

Lemma PTE2PA_table b : page_ok kend b -> PTE2PA (Z.lor (PA2PTE b) PTE_V) = b.
Proof.
  intros Hb. pose proof (page_ok_range kend Hend b Hb). destruct Hb.
  apply PTE2PA_pack; [done|lia|done].
Qed.

(** An entry of a page of the tree lies inside that page. *)
Lemma slot_in_page a i : 0 <= i < 512 -> a <= a + 8 * i /\ a + 8 * i + 8 <= a + PGSIZE.
Proof. unfold PGSIZE. lia. Qed.

Lemma in_tree_intro T p a : T !! p = Some a -> in_tree T a.
Proof. by exists p. Qed.

Lemma pt_inv_frame m m' root T :
  pt_inv m root T -> (forall a, in_tree T a -> same_page m m' a) -> pt_inv m' root T.
Proof.
  intros [H1 H2 H3 H3' H4 H5 H6] Hsame. split; [done..|].
  intros p a i Hp Hl Hi. specialize (H6 p a i Hp Hl Hi).
  assert (Heq : ld64 m' (a + 8 * i) = ld64 m (a + 8 * i)).
  { apply ld64_ext. intros b Hb. apply (Hsame a); [by exists p|].
    pose proof (slot_in_page a i Hi). lia. }
  by rewrite Heq.
Qed.

Lemma leafpte_frame m m' T va :
  (forall a, in_tree T a -> same_page m m' a) -> leafpte m' T va = leafpte m T va.
Proof.
  intros Hsame. unfold leafpte. destruct (T !! vpath va) as [a|] eqn:E; [|done].
  apply ld64_ext. intros b Hb. apply (Hsame a); [by eapply in_tree_intro|].
  pose proof (slot_in_page a (PX 0 va) (PX_range 0 va ltac:(lia))). lia.
Qed.

Lemma pt_pages_apart m root T p q a b :
  pt_inv m root T -> T !! p = Some a -> T !! q = Some b -> p <> q ->
  a + PGSIZE <= b \/ b + PGSIZE <= a.
Proof.
  intros Hpt Hp Hq Hne. apply aligned_apart.
  - by apply (pt_pages _ _ _ Hpt p).
  - by apply (pt_pages _ _ _ Hpt q).
  - intros ->. by apply Hne, (pt_inj _ _ _ Hpt p q b).
Qed.

(** Writing an entry of a table leaves the other tables alone. *)
Lemma same_page_st64 m m0 root T p q a b i v :
  pt_inv m0 root T -> T !! p = Some a -> T !! q = Some b -> p <> q -> 0 <= i < 512 ->
  same_page m (st64 m (a + 8 * i) v) b.
Proof.
  intros Hpt Hp Hq Hne Hi c Hc. apply ld8_st64_out.
  pose proof (slot_in_page a i Hi). pose proof (pt_pages_apart _ _ _ _ _ _ _ Hpt Hp Hq Hne).
  lia.
Qed.

(** Adding a zeroed page [n] as the table under entry [i] of the table [p]. *)
Section extend.
Context (k : kmem) (n : Z) (l : list Z) (root : Z) (T : ptree) (p : list Z) (a i : Z).
Context (Hinv : vm_inv k (n :: l) root T) (Hp : T !! p = Some a).
Context (Hlen : (length p < 2)%nat) (Hidx : 0 <= i < idx_bound p) (Hnone : T !! (p ++ [i]) = None).

Let Hi : 0 <= i < 512.
Proof. unfold idx_bound in Hidx. destruct p; lia. Qed.

Let m1 : mem := memset (memset (km_mem k) n 5 PGSIZE) n 0 PGSIZE.
Let m2 : mem := st64 m1 (a + 8 * i) (Z.lor (PA2PTE n) PTE_V).
Let T' : ptree := <[p ++ [i] := n]> T.

Lemma ext_page : page_ok kend n.
Proof. apply (kmem_inv_page kend k (n :: l)); [apply Hinv|left]. Qed.

Lemma ext_fresh : ~ in_tree T n.
Proof. intros H. apply (vi_disj _ _ _ _ Hinv n H). left. Qed.

Lemma ext_apart b : in_tree T b -> n + PGSIZE <= b \/ b + PGSIZE <= n.
Proof.
  intros Hb. apply aligned_apart.
  - apply ext_page.
  - destruct Hb as [q Hq]. by apply (pt_pages _ _ _ (vi_pt _ _ _ _ Hinv) q).
  - intros Heq. apply ext_fresh. by rewrite Heq.
Qed.

Lemma ext_same1 b : b < n \/ n + PGSIZE <= b -> ld8 m1 b = ld8 (km_mem k) b.
Proof. intros Hb. unfold m1. by rewrite !ld8_memset, !decide_False by lia. Qed.

(** The old tables other than [p] keep their entries, and the new one is zero. *)
Lemma ext_old q b j :
  T !! q = Some b -> q <> p -> 0 <= j < 512 -> ld64 m2 (b + 8 * j) = ld64 (km_mem k) (b + 8 * j).
Proof.
  intros Hq Hne Hj. apply ld64_ext. intros c Hc.
  pose proof (slot_in_page b j Hj). pose proof (ext_apart b ltac:(by exists q)).
  unfold m2. rewrite (same_page_st64 m1 _ root T p q a b i _ (vi_pt _ _ _ _ Hinv) Hp Hq)
    by (done || lia).
  apply ext_same1. lia.
Qed.

Lemma ext_new j : 0 <= j < 512 -> ld64 m2 (n + 8 * j) = 0.
Proof.
  intros Hj. pose proof (slot_in_page n j Hj). pose proof (slot_in_page a i Hi).
  pose proof (ext_apart a ltac:(by exists p)).
  unfold m2. rewrite ld64_st64_other by lia. unfold m1. by apply ld64_memset_0; lia.
Qed.

Lemma ext_parent j :
  0 <= j < 512 ->
  ld64 m2 (a + 8 * j) =
  if decide (j = i) then Z.lor (PA2PTE n) PTE_V else ld64 (km_mem k) (a + 8 * j).
Proof.
  intros Hj. pose proof ext_page as Hn. pose proof (page_ok_range kend Hend n Hn).
  destruct Hn as [Hna _]. unfold m2. case_decide as Hji.
  - subst j. apply ld64_st64_same. rewrite pte_pack by (done || lia).
    change PTE_V with 1. zdm.
  - rewrite ld64_st64_other by lia. apply ld64_ext. intros c Hc.
    pose proof (slot_in_page a j Hj). pose proof (ext_apart a ltac:(by exists p)).
    apply ext_same1. lia.
Qed.

Lemma ext_fresh_path q : T !! q <> Some n.
Proof. intros H. by apply ext_fresh; exists q. Qed.

Lemma ext_pt_inv : pt_inv m2 root T'.
Proof.
  destruct (vi_pt _ _ _ _ Hinv) as [H1 H2 H3 H3' H4 H5 H6]. unfold T'. split.
  - rewrite lookup_insert_ne; [done|]. intros H. by destruct p.
  - intros q b [[<- <-]|[? ?]]%lookup_insert_Some; [|by eauto].
    rewrite length_app. simpl. lia.
  - intros q j b [[Heq <-]|[_ Hq]]%lookup_insert_Some.
    + apply app_inj_tail in Heq as [<- <-]. rewrite lookup_insert_ne; [by eauto|].
      intros Heq. apply (f_equal length) in Heq. rewrite length_app in Heq. simpl in Heq. lia.
    + apply H3 in Hq as [c Hc]. destruct (decide (p ++ [i] = q)) as [<-|].
      * by rewrite lookup_insert_eq.
      * rewrite lookup_insert_ne by done. by eauto.
  - intros q j b [[Heq <-]|[_ Hq]]%lookup_insert_Some; [|by eauto].
    apply app_inj_tail in Heq as [<- <-]. exact Hidx.
  - intros q b [[<- <-]|[? ?]]%lookup_insert_Some; [apply ext_page|by eauto].
  - intros q r b Hq Hr. apply lookup_insert_Some in Hq, Hr.
    destruct Hq as [[<- Hb]|[_ Hq]], Hr as [[<- Hr]|[_ Hr]]; [done| | |by eapply H5].
    + rewrite <-Hb in Hr. by exfalso; eapply ext_fresh_path.
    + rewrite <-Hr in Hq. by exfalso; eapply ext_fresh_path.
  - intros q b j Hq Hl Hj. apply lookup_insert_Some in Hq as [[<- <-]|[Hne Hq]].
    + rewrite lookup_insert_ne.
      2: { intros H. apply (f_equal length) in H. rewrite !length_app in H. simpl in H. lia. }
      destruct (T !! ((p ++ [i]) ++ [j])) eqn:E.
      { apply H3 in E as [c Hc]. congruence. }
      by rewrite ext_new.
    + specialize (H6 q b j Hq Hl Hj). destruct (decide (q = p)) as [->|Hqp].
      * assert (b = a) as -> by congruence. rewrite ext_parent by done.
        case_decide as Hji.
        -- subst. by rewrite lookup_insert_eq.
        -- rewrite lookup_insert_ne; [done|]. intros H%app_inj_tail. by destruct H.
      * rewrite (ext_old q) by done. rewrite lookup_insert_ne; [done|].
        intros H%app_inj_tail. by destruct H.
Qed.

Lemma ext_leaf va : leafpte m2 T' va = leafpte (km_mem k) T va.
Proof.
  unfold leafpte, T'. pose proof (PX_range 0 va ltac:(lia)).
  destruct (decide (p ++ [i] = vpath va)) as [Heq|Hne].
  - rewrite Heq, lookup_insert_eq, <-Heq, Hnone. by apply ext_new.
  - rewrite lookup_insert_ne by done. destruct (T !! vpath va) as [b|] eqn:E; [|done].
    apply (ext_old (vpath va)); [done| |done]. intros Heq. rewrite <-Heq in Hlen.
    simpl in Hlen. lia.
Qed.

Definition ext_kmem : kmem := Kmem m2 (ld64 (km_mem k) n).

Lemma ext_vm_inv : vm_inv ext_kmem l root T'.
Proof.
  pose proof (vi_kmem _ _ _ _ Hinv) as Hk. split.
  - apply (kmem_inv_set_mem kend (Kmem (memset (km_mem k) n 5 PGSIZE) (ld64 (km_mem k) n))).
    + by apply kmem_inv_pop.
    + unfold m2, m1. destruct Hk as (_ & _ & Hm). mem_ok.
    + intros q Hq b Hb. simpl.
      assert (Hqok : page_ok kend q) by (apply (kmem_inv_page kend k (n :: l)); [done|by right]).
      assert (Hqn : q <> n).
      { intros Heq. destruct Hk as (_ & Hnd & _). apply NoDup_cons in Hnd as [Hnd _].
        by rewrite <-Heq in Hnd. }
      assert (Hqa : q <> a).
      { intros Heq. eapply (vi_disj _ _ _ _ Hinv a); [by exists p|right; by rewrite <-Heq]. }
      pose proof (pt_pages _ _ _ (vi_pt _ _ _ _ Hinv) p a Hp) as [Haa _].
      pose proof ext_page as [Hna _]. destruct Hqok as [Hqal _].
      pose proof (aligned_apart q a Hqal Haa Hqa). pose proof (aligned_apart q n Hqal Hna Hqn).
      pose proof (slot_in_page a i Hi). unfold PGSIZE in *.
      unfold m2, m1. rewrite ld8_st64_out by lia.
      rewrite !ld8_memset. unfold PGSIZE. by rewrite !decide_False by lia.
  - apply ext_pt_inv.
  - intros b [q [[_ <-]|[_ Hq]]%lookup_insert_Some].
    + destruct Hk as (_ & Hnd & _). by apply NoDup_cons in Hnd as [? _].
    + intros Hb. eapply (vi_disj _ _ _ _ Hinv b); [by exists q|by right].
Qed.

Lemma ext_grow : vm_grow k (n :: l) T ext_kmem l T'.
Proof.
  split; [split|apply ext_leaf].
  - by apply insert_subseteq.
  - intros b [q [[_ <-]|[_ Hq]]%lookup_insert_Some]; [right; left|left; by exists q].
  - exists [n]. split; [done|]. apply Forall_singleton. exists (p ++ [i]).
    apply lookup_insert_eq.
  - intros b Hb Hnot c Hc. simpl.
    assert (Hbn : b <> n).
    { intros Heq. apply Hnot. exists (p ++ [i]). rewrite Heq. apply lookup_insert_eq. }
    assert (Hba : b <> a).
    { intros Heq. apply Hnot. exists p. unfold T'. rewrite Heq, lookup_insert_ne; [done|].
      intros H. rewrite H in Hnone. congruence. }
    pose proof (pt_pages _ _ _ (vi_pt _ _ _ _ Hinv) p a Hp) as [Haa _].
    pose proof ext_page as [Hna _].
    pose proof (aligned_apart b a Hb Haa Hba). pose proof (aligned_apart b n Hb Hna Hbn).
    pose proof (slot_in_page a i Hi). unfold m2. rewrite ld8_st64_out by lia.
    apply ext_same1. lia.
Qed.
End extend.
End inv.
