(* ===== verification/VmWalk.v ===== *)
(** * [walk], [walkaddr] and [mappages] against the page-table invariant *)

From S2P Require Import Prelude Machine Mem Layout Kalloc Vm VmInv.

Lemma vm_ext_refl k l T : vm_ext k l T k l T.
Proof. split; [done|by left|by exists []|done]. Qed.

Lemma vm_grow_refl k l T : vm_grow k l T k l T.
Proof. split; [apply vm_ext_refl|done]. Qed.

Lemma in_tree_sub T T' a : T ⊆ T' -> in_tree T a -> in_tree T' a.
Proof. intros Hs [p Hp]. exists p. by eapply lookup_weaken. Qed.

Lemma vm_ext_trans k0 l0 T0 k1 l1 T1 k2 l2 T2 :
  vm_ext k0 l0 T0 k1 l1 T1 -> vm_ext k1 l1 T1 k2 l2 T2 -> vm_ext k0 l0 T0 k2 l2 T2.
Proof.
  intros [S1 N1 (u1 & -> & U1) F1] [S2 N2 (u2 & -> & U2) F2]. split.
  - by etrans.
  - intros a [Ha|Ha]%N2; [|right; set_solver]. apply N1 in Ha as [?|?]; [by left|by right].
  - exists (u1 ++ u2). split; [by rewrite app_assoc|]. apply Forall_app. split; [|done].
    eapply Forall_impl; [done|]. intros a. by apply in_tree_sub.
  - intros a Ha Hn b Hb. rewrite (F2 a Ha Hn b Hb). apply (F1 a Ha); [|done].
    intros ?. by eapply Hn, in_tree_sub.
Qed.

Lemma vm_grow_trans k0 l0 T0 k1 l1 T1 k2 l2 T2 :
  vm_grow k0 l0 T0 k1 l1 T1 -> vm_grow k1 l1 T1 k2 l2 T2 -> vm_grow k0 l0 T0 k2 l2 T2.
Proof.
  intros [E1 L1] [E2 L2]. split; [by eapply vm_ext_trans|]. intros va. by rewrite L2.
Qed.

Section walk.
Variable kend : Z.
Hypothesis Hend : KERNBASE <= kend <= PHYSTOP.

Lemma pt_prefix_closed m root T p q a :
  pt_inv kend m root T -> T !! (p ++ q) = Some a -> is_Some (T !! p).
Proof.
  intros Hpt. revert a. induction q as [|i q IH] using rev_ind; intros a Hq.
  - rewrite app_nil_r in Hq. by eexists.
  - rewrite app_assoc in Hq. apply (pt_prefix _ _ _ _ Hpt) in Hq as [b Hb]. by eapply IH.
Qed.

(** The step of the path at each level. *)
Lemma vpath_step (level : nat) va :
  (level < 2)%nat ->
  take (2 - level) (vpath va) =
  take (2 - S level) (vpath va) ++ [PX (Z.of_nat (S level)) va].
Proof. intros. destruct level as [|[|level]]; [done..|lia]. Qed.

Lemma walk_table m root T p a i :
  pt_inv kend m root T -> T !! p = Some a -> (length p < 2)%nat -> 0 <= i < 512 ->
  match T !! (p ++ [i]) with
  | Some b => has (ld64 m (a + 8 * i)) PTE_V = true /\ PTE2PA (ld64 m (a + 8 * i)) = b
  | None => has (ld64 m (a + 8 * i)) PTE_V = false
  end.
Proof.
  intros Hpt Hp Hl Hi. pose proof (pt_ent _ _ _ _ Hpt p a i Hp Hl Hi) as He.
  destruct (T !! (p ++ [i])) as [b|] eqn:E.
  - pose proof (pt_pages _ _ _ _ Hpt _ _ E) as Hb. rewrite He.
    split; [by eapply has_V_pack|by eapply PTE2PA_table].
  - unfold has. by rewrite He.
Qed.

Lemma take_vpath_length n va : length (take n (vpath va)) = (n `min` 2)%nat.
Proof. by rewrite length_take. Qed.

Lemma vpath_none m root T p q va :
  pt_inv kend m root T -> T !! p = None -> vpath va = p ++ q -> T !! vpath va = None.
Proof.
  intros Hpt Hp Hq. destruct (T !! vpath va) as [a|] eqn:E; [|done].
  rewrite Hq in E. apply (pt_prefix_closed _ _ _ _ _ _ Hpt) in E as [? ?]. congruence.
Qed.

Lemma walk_loop_lookup w k root T va level a :
  pt_inv kend (km_mem k) root T -> (level <= 2)%nat ->
  T !! take (2 - level) (vpath va) = Some a ->
  walk_loop level a va false w k = Ret w k (leafslot T va).
Proof.
  intros Hpt. revert a. induction level as [|level IH]; intros a Hl Ha; simpl.
  { unfold leafslot. change (take (2 - 0) (vpath va)) with (vpath va) in Ha. by rewrite Ha. }
  pose proof (walk_table _ _ _ _ _ (PX (Z.of_nat (S level)) va) Hpt Ha) as Ht.
  rewrite <-vpath_step in Ht by lia.
  pose proof (PX_range (Z.of_nat (S level)) va ltac:(lia)) as Hr.
  specialize (Ht ltac:(rewrite take_vpath_length; lia) Hr).
  unfold ldpte. run_simpl.
  destruct (T !! take (2 - level) (vpath va)) as [b|] eqn:E.
  - destruct Ht as [-> ->]. apply IH; [lia|done].
  - rewrite Ht. simpl. unfold leafslot.
    by rewrite (vpath_none _ _ _ _ (drop (2 - level) (vpath va)) _ Hpt E)
      by (by rewrite take_drop).
Qed.

(** Without allocation, [walk] computes the address of the leaf entry and
    changes nothing. *)
Lemma walk_lookup w k root T va :
  pt_inv kend (km_mem k) root T -> va < MAXVA ->
  walk root va false w k = Ret w k (leafslot T va).
Proof.
  intros Hpt Hva. unfold walk. rewrite (proj2 (Z.leb_gt _ _)) by done.
  apply (walk_loop_lookup w k root); [done..|]. apply (pt_root _ _ _ _ Hpt).
Qed.

Lemma PX_bound va level : 0 <= va < MAXVA -> (level < 2)%nat ->
  0 <= PX (Z.of_nat (S level)) va < idx_bound (take (2 - S level) (vpath va)).
Proof.
  intros Hva Hl. pose proof (PX_range (Z.of_nat (S level)) va ltac:(lia)).
  destruct level as [|[|level]]; [done| |lia]. simpl in *. split; [lia|].
  rewrite PX_alt by lia. rewrite MAXVA_val in Hva. simpl.
  change (Z.pow_pos 2 30) with (2 ^ 30). zdm.
Qed.

(** The result of a [walk] that may allocate, from [level] on: it takes at most
    [level] pages, and fails only when there are fewer than that. *)
Definition walk_post (k : kmem) (l : list Z) (root : Z) (T : ptree) (va : Z)
    (level : nat) (k' : kmem) (r : Z) : Prop :=
  exists l' T', vm_inv kend k' l' root T' /\ vm_grow k l T k' l' T' /\
    ((r = leafslot T' va /\ is_Some (T' !! vpath va) /\ (length l <= length l' + level)%nat) \/
     (r = 0 /\ l' = [] /\ T' !! vpath va = None /\ (length l < level)%nat)).

Lemma walk_loop_alloc w k l root T va level a :
  LkKmem ∉ held w -> vm_inv kend k l root T -> (level <= 2)%nat -> 0 <= va < MAXVA ->
  T !! take (2 - level) (vpath va) = Some a ->
  exists k' r, walk_loop level a va true w k = Ret w k' r /\
    walk_post k l root T va level k' r.
Proof.
  intros Hw. revert k l T a. induction level as [|level IH]; intros k l T a Hinv Hl Hva Ha; simpl.
  { exists k, (a + 8 * PX 0 va). split; [done|]. exists l, T. split; [done|].
    split; [apply vm_grow_refl|]. left. unfold leafslot.
    change (take (2 - 0) (vpath va)) with (vpath va) in Ha. rewrite Ha. split_and!; [done..|lia]. }
  pose proof (vi_pt _ _ _ _ _ Hinv) as Hpt.
  pose proof (PX_range (Z.of_nat (S level)) va ltac:(lia)) as Hr.
  assert (Hlen : (length (take (2 - S level) (vpath va)) < 2)%nat)
    by (rewrite take_vpath_length; lia).
  pose proof (walk_table _ _ _ _ _ _ Hpt Ha Hlen Hr) as Ht.
  rewrite <-vpath_step in Ht by lia. unfold ldpte. run_simpl.
  destruct (T !! take (2 - level) (vpath va)) as [b|] eqn:E.
  { destruct Ht as [-> ->].
    destruct (IH k l T b Hinv ltac:(lia) Hva E) as (k' & r & Hrun & l' & T' & Hi' & Hg' & Hres).
    exists k', r. split; [done|]. exists l', T'. split_and!; [done..|].
    destruct Hres as [(? & ? & ?)|(? & ? & ? & ?)]; [left|right]; split_and!; done || lia. }
  rewrite Ht. simpl. destruct l as [|n l].
  - run_step (kalloc_nil kend w k Hw (vi_kmem _ _ _ _ _ Hinv)). simpl.
    exists k, 0. split; [done|]. exists [], T. split; [done|]. split; [apply vm_grow_refl|].
    right. split_and!; [done..| |simpl; lia].
    apply (vpath_none _ _ _ _ (drop (2 - level) (vpath va)) _ Hpt E). by rewrite take_drop.
  - run_step (kalloc_cons kend Hend w k n l Hw (vi_kmem _ _ _ _ _ Hinv)).
    pose proof (page_ok_range kend Hend n (ext_page kend k n l root T Hinv)).
    rewrite (proj2 (Z.eqb_neq _ _)) by lia. unfold on_mem, stpte, on_mem. run_simpl.
    rewrite vpath_step in E by lia. pose proof (PX_bound va level Hva ltac:(lia)) as Hb.
    pose proof (ext_vm_inv kend Hend k n l root T _ a _ Hinv Ha Hlen Hb E) as Hinv'.
    pose proof (ext_grow kend k n l root T _ a _ Hinv Ha Hlen Hb E) as Hg.
    rewrite <-vpath_step in Hinv', Hg by lia.
    destruct (IH _ l _ n Hinv' ltac:(lia) Hva (lookup_insert_eq _ _ _))
      as (k' & r & Hrun & l' & T' & Hi' & Hg' & Hres).
    exists k', r. split; [exact Hrun|]. exists l', T'. split; [done|].
    split; [by eapply vm_grow_trans|]. simpl.
    destruct Hres as [(? & ? & ?)|(? & ? & ? & ?)]; [left|right]; split_and!; done || lia.
Qed.

Lemma walk_alloc w k l root T va :
  LkKmem ∉ held w -> vm_inv kend k l root T -> 0 <= va < MAXVA ->
  exists k' r, walk root va true w k = Ret w k' r /\ walk_post k l root T va 2 k' r.
Proof.
  intros Hw Hinv Hva. unfold walk. rewrite (proj2 (Z.leb_gt _ _)) by lia.
  apply walk_loop_alloc; [done..|]. apply (pt_root _ _ _ _ (vi_pt _ _ _ _ _ Hinv)).
Qed.

Lemma leafslot_nonzero m root T va :
  pt_inv kend m root T -> is_Some (T !! vpath va) -> leafslot T va <> 0.
Proof.
  intros Hpt [a Ha]. unfold leafslot. rewrite Ha.
  pose proof (page_ok_range kend Hend a (pt_pages _ _ _ _ Hpt _ _ Ha)).
  pose proof (PX_range 0 va ltac:(lia)). lia.
Qed.

(** ** Writing a leaf entry *)

Section write_leaf.
Context (k : kmem) (l : list Z) (root : Z) (T : ptree) (va v : Z).
Context (Hinv : vm_inv kend k l root T) (Hsome : is_Some (T !! vpath va)).

Let k' : kmem := set_mem (st64 (km_mem k) (leafslot T va) v) k.

Lemma write_leaf_other_page q b :
  T !! q = Some b -> q <> vpath va -> same_page (km_mem k) (km_mem k') b.
Proof.
  intros Hq Hne. destruct Hsome as [a Ha]. simpl. unfold leafslot. rewrite Ha.
  eapply same_page_st64; [apply (vi_pt _ _ _ _ _ Hinv)|done..| |].
  - by apply not_eq_sym.
  - by apply PX_range.
Qed.

Lemma write_leaf_frame b : aligned b -> ~ in_tree T b -> same_page (km_mem k) (km_mem k') b.
Proof.
  intros Hb Hn c Hc. destruct Hsome as [a Ha]. simpl. unfold leafslot. rewrite Ha.
  pose proof (pt_pages _ _ _ _ (vi_pt _ _ _ _ _ Hinv) _ _ Ha) as [Haa _].
  assert (Hne : b <> a) by (intros ->; by apply Hn; exists (vpath va)).
  pose proof (aligned_apart b a Hb Haa Hne).
  pose proof (slot_in_page a (PX 0 va) (PX_range 0 va ltac:(lia))).
  apply ld8_st64_out. lia.
Qed.

Lemma write_leaf_inv : vm_inv kend k' l root T.
Proof.
  pose proof (vi_pt _ _ _ _ _ Hinv) as Hpt. pose proof (vi_kmem _ _ _ _ _ Hinv) as Hk.
  split; [| |by apply Hinv].
  - apply kmem_inv_set_mem; [done|destruct Hk as (_ & _ & Hm); mem_ok|].
    intros q Hq b Hb. apply (write_leaf_frame q).
    + by eapply kmem_inv_page.
    + intros Hin. by apply (vi_disj _ _ _ _ _ Hinv q Hin).
    + unfold PGSIZE. lia.
  - destruct Hpt as [H1 H2 H3 H3' H4 H5 H6]. split; [done..|].
    intros q b i Hq Hl Hi. specialize (H6 q b i Hq Hl Hi).
    assert (Heq : ld64 (km_mem k') (b + 8 * i) = ld64 (km_mem k) (b + 8 * i)).
    { apply ld64_ext. intros c Hc. apply (write_leaf_other_page q b Hq).
      - intros ->. simpl in Hl. lia.
      - pose proof (slot_in_page b i Hi). lia. }
    by rewrite Heq.
Qed.

(** Only the entry of [va] changes. *)
Lemma write_leaf_leaf va' :
  0 <= v < 2 ^ 64 -> aligned va -> 0 <= va < MAXVA -> aligned va' -> 0 <= va' < MAXVA ->
  leafpte (km_mem k') T va' =
  if decide (va' = va) then v else leafpte (km_mem k) T va'.
Proof.
  intros Hv Ha Hr Ha' Hr'. destruct Hsome as [a Hs]. unfold leafpte.
  case_decide as Hd.
  - subst va'. rewrite Hs. simpl. unfold leafslot. rewrite Hs. by apply ld64_st64_same.
  - destruct (T !! vpath va') as [b|] eqn:E; [|done].
    destruct (decide (vpath va' = vpath va)) as [Heq|Hne].
    + assert (b = a) as -> by congruence. simpl. unfold leafslot. rewrite Hs.
      apply ld64_st64_other. unfold vpath in Heq. simplify_eq.
      assert (PX 0 va' <> PX 0 va); [|lia].
      intros ?. by apply Hd, PX_inj.
    + apply ld64_ext. intros c Hc. apply (write_leaf_other_page _ b E Hne).
      pose proof (slot_in_page b (PX 0 va') (PX_range 0 va' ltac:(lia))). lia.
Qed.

Lemma write_leaf_ext : vm_ext k l T k' l T.
Proof. split; [done|by left|by exists []|apply write_leaf_frame]. Qed.
End write_leaf.
End walk.
