(* ===== verification/VmMap.v ===== *)
(** * [mappages], [kvmmap] and [uvmunmap] as updates of the leaf entries *)

From S2P Require Import Prelude Machine Mem Layout Kalloc Vm VmInv VmWalk.

(** The entry that maps [va] when a range starting at [a0] is mapped to
    physical addresses starting at [pa]. *)
Definition map_entry (pa perm a0 va : Z) : Z :=
  Z.lor (Z.lor (PA2PTE (u64 (pa + (va - a0)))) perm) PTE_V.

Section map.
Variable kend : Z.
Hypothesis Hend : KERNBASE <= kend <= PHYSTOP.

(** The mapping [k', T'] is [k, T] with the pages of [lo, hi) replaced by [f]. *)
Definition leaf_update (k : kmem) (T : ptree) (k' : kmem) (T' : ptree)
    (lo hi : Z) (f : Z -> Z) : Prop :=
  forall va, aligned va -> 0 <= va < MAXVA ->
    leafpte (km_mem k') T' va =
    if decide (lo <= va < hi) then f va else leafpte (km_mem k) T va.

(** Outcome of [mappages] on the pages [a], ..., [last]: success maps them all;
    when a table page cannot be allocated, the pages below some [b] are mapped
    and the free list is empty.  Two free pages per mapped page are enough. *)
Definition mappages_post (k : kmem) (l : list Z) (root : Z) (T : ptree)
    (a last pa perm : Z) (k' : kmem) (r : Z) : Prop :=
  exists l' T' b, vm_inv kend k' l' root T' /\ vm_ext k l T k' l' T' /\
    leaf_update k T k' T' a b (map_entry pa perm a) /\
    ((r = 0 /\ b = last + PGSIZE /\
      Z.of_nat (length l) * PGSIZE <=
      Z.of_nat (length l') * PGSIZE + 2 * (last + PGSIZE - a)) \/
     (r = -1 /\ l' = [] /\ a <= b <= last /\
      Z.of_nat (length l) * PGSIZE < 2 * (last + PGSIZE - a))).

Lemma map_entry_range pa perm a0 va :
  0 <= perm < 1024 -> 0 <= map_entry pa perm a0 va < 2 ^ 64.
Proof.
  intros. unfold map_entry. repeat apply lor_range; try lia; try done.
  unfold PA2PTE. apply u64_range.
Qed.

Lemma map_entry_step pa perm a0 va :
  map_entry (u64 (pa + PGSIZE)) perm (a0 + PGSIZE) va = map_entry pa perm a0 va.
Proof.
  unfold map_entry. do 3 f_equal. unfold u64. rewrite Zplus_mod_idemp_l. f_equal. lia.
Qed.

(** One iteration: either the table page cannot be allocated, or the entry of
    [a] exists, is not valid, and can be set to [v]. *)
Lemma map_one w k l root T a v :
  LkKmem ∉ held w -> vm_inv kend k l root T -> aligned a -> 0 <= a < MAXVA ->
  has (leafpte (km_mem k) T a) PTE_V = false -> 0 <= v < 2 ^ 64 ->
  exists k1 l1 T1 r, walk root a true w k = Ret w k1 r /\
    ((r = 0 /\ l1 = [] /\ (length l < 2)%nat /\
      vm_inv kend k1 [] root T1 /\ vm_grow k l T k1 [] T1) \/
     (r <> 0 /\ (length l <= length l1 + 2)%nat /\ has (ld64 (km_mem k1) r) PTE_V = false /\
      let k2 := set_mem (st64 (km_mem k1) r v) k1 in
      vm_inv kend k2 l1 root T1 /\ vm_ext k l T k2 l1 T1 /\
      leaf_update k T k2 T1 a (a + PGSIZE) (fun _ => v))).
Proof.
  intros Hw Hinv Ha Hr Hfree Hv.
  destruct (walk_alloc kend Hend w k l root T a Hw Hinv ltac:(lia))
    as (k1 & r & Hrun & l1 & T1 & Hinv1 & [Hext1 Hleaf1] & Hres).
  exists k1, l1, T1, r. split; [done|].
  destruct Hres as [(-> & Hsome & Hlen)|(-> & -> & Hnone & Hlen)]; [right|by left].
  split; [by apply (leafslot_nonzero kend Hend _ _ _ _ (vi_pt _ _ _ _ _ Hinv1))|].
  split; [done|]. split.
  { rewrite <-Hleaf1 in Hfree. unfold leafslot, leafpte in *. destruct Hsome as [x Hx]. by rewrite Hx in *. }
  split; [by apply write_leaf_inv|].
  split; [exact (vm_ext_trans _ _ _ _ _ _ _ _ _ Hext1 (write_leaf_ext kend k1 l1 root T1 a v Hinv1 Hsome))|].
  intros va Hva Hvr. rewrite (write_leaf_leaf kend k1 l1 root) by done.
  rewrite Hleaf1. destruct (decide (va = a)) as [->|Hne].
  - by rewrite decide_True by (unfold PGSIZE; lia).
  - pose proof (aligned_apart va a Hva Ha Hne). by rewrite decide_False by lia.
Qed.

(** Mapping [a] and then the pages above it. *)
Lemma leaf_update_trans k0 T0 k1 T1 k2 T2 a b f :
  aligned a -> a + PGSIZE <= b ->
  leaf_update k0 T0 k1 T1 a (a + PGSIZE) (fun _ => f a) ->
  leaf_update k1 T1 k2 T2 (a + PGSIZE) b f ->
  leaf_update k0 T0 k2 T2 a b f.
Proof.
  intros Ha Hb H1 H2 va Hva Hr. rewrite H2, H1 by done.
  destruct (decide (va = a)) as [->|Hne].
  - rewrite decide_False, !decide_True by (unfold PGSIZE in *; lia). done.
  - pose proof (aligned_apart va a Hva Ha Hne). unfold PGSIZE in *. repeat case_decide; done || lia.
Qed.

Lemma mappages_loop_spec w k l root T a pa perm n fuel :
  LkKmem ∉ held w -> vm_inv kend k l root T -> aligned a -> 0 <= a ->
  a + Z.of_nat n * PGSIZE < MAXVA -> 0 <= perm < 1024 ->
  (forall va, aligned va -> a <= va <= a + Z.of_nat n * PGSIZE ->
     has (leafpte (km_mem k) T va) PTE_V = false) ->
  (n < fuel)%nat -> 0 <= pa < 2 ^ 64 ->
  exists k' r,
    mappages_loop root a (a + Z.of_nat n * PGSIZE) pa perm fuel w k = Ret w k' r /\
    mappages_post k l root T a (a + Z.of_nat n * PGSIZE) pa perm k' r.
Proof.
  intros Hw. revert k l T a pa fuel.
  induction n as [|n IH]; intros k l T a pa fuel Hinv Ha H0 Hmax Hperm Hfree Hfuel Hpa;
    (destruct fuel as [|fuel]; [lia|]); cbn [mappages_loop].
  all: assert (Hamax : a < MAXVA) by (unfold PGSIZE in *; lia).
  all: set (v := Z.lor (Z.lor (PA2PTE pa) perm) PTE_V).
  all: assert (Hve : v = map_entry pa perm a a)
         by (unfold v, map_entry; by rewrite Z.sub_diag, Z.add_0_r, (u64_small pa) by done).
  all: destruct (map_one w k l root T a v) as (k1 & l1 & T1 & r & Hrun & Hres);
         [done..|by apply Hfree; [|unfold PGSIZE; lia]|rewrite Hve; by apply map_entry_range|].
  all: run_step Hrun; destruct Hres as [(-> & -> & Hlen & Hinv1 & Hext1 & Hleaf1)|
                              (Hnz & Hlen & Hnv & Hinv2 & Hext2 & Hleaf2)].
  1, 3: exists k1, (-1); split; [done|]; exists [], T1, a; split_and!; [done..| |];
        [intros va ? ?; rewrite decide_False by lia; apply Hleaf1
        |right; split_and!; [done..|unfold PGSIZE in *; lia|unfold PGSIZE in *; lia|unfold PGSIZE in *; lia]].
  all: rewrite (proj2 (Z.eqb_neq _ _)) by done; unfold ldpte, stpte, on_mem;
       rewrite run_gets, Hnv, run_modify; fold v.
  all: set (k2 := set_mem (st64 (km_mem k1) r v) k1) in *; rewrite Hve in Hleaf2.
  - rewrite (proj2 (Z.eqb_eq _ _)) by lia. exists k2, 0. split; [done|].
    exists l1, T1, (a + PGSIZE). split_and!; [done..| |left; split_and!; [done|lia|unfold PGSIZE; lia]].
    intros va Hva Hr. rewrite Hleaf2 by done. destruct (decide (va = a)) as [->|Hne]; [done|].
    pose proof (aligned_apart va a Hva Ha Hne). by rewrite !decide_False by lia.
  - rewrite (proj2 (Z.eqb_neq _ _)) by (unfold PGSIZE; lia).
    rewrite (u64_small (a + PGSIZE)) by (rewrite MAXVA_val in *; unfold PGSIZE in *; lia).
    destruct (IH k2 l1 T1 (a + PGSIZE) (u64 (pa + PGSIZE)) fuel)
      as (k3 & r3 & Hrun3 & l3 & T3 & b & Hinv3 & Hext3 & Hleaf3 & Hcase);
      [done|by apply aligned_add|unfold PGSIZE in *; lia..|done| |lia|apply u64_range|].
    { intros va Hva Hr. rewrite Hleaf2 by (unfold PGSIZE in *; done || lia).
      rewrite decide_False by (unfold PGSIZE in *; lia).
      apply Hfree; [done|]. unfold PGSIZE in *; lia. }
    exists k3, r3.
    replace (a + PGSIZE + Z.of_nat n * PGSIZE) with (a + Z.of_nat (S n) * PGSIZE)
      in Hrun3, Hcase by (unfold PGSIZE; lia).
    split; [exact Hrun3|]. exists l3, T3, b.
    split_and!; [done|by eapply vm_ext_trans| |].
    + eapply leaf_update_trans; [done|unfold PGSIZE in *; lia|exact Hleaf2|].
      intros va Hva Hr. rewrite Hleaf3 by done. by rewrite map_entry_step.
    + destruct Hcase as [(-> & -> & Hl)|(-> & -> & Hb & Hl)]; [left|right];
        split_and!; unfold PGSIZE in *; done || lia.
Qed.

(** [mappages] on any range of unmapped pages below [MAXVA]. *)
Lemma mappages_run w k l root T va size pa perm :
  LkKmem ∉ held w -> vm_inv kend k l root T ->
  0 <= va -> 0 < size -> va + size <= MAXVA -> 0 <= pa < 2 ^ 64 -> 0 <= perm < 1024 ->
  (forall a, aligned a -> PGROUNDDOWN va <= a <= PGROUNDDOWN (va + size - 1) ->
     has (leafpte (km_mem k) T a) PTE_V = false) ->
  exists k' r, mappages root va size pa perm w k = Ret w k' r /\
    mappages_post k l root T (PGROUNDDOWN va) (PGROUNDDOWN (va + size - 1)) pa perm k' r.
Proof.
  intros Hw Hinv H0 Hs Hmax Hpa Hperm Hfree. rewrite MAXVA_val in Hmax. unfold mappages.
  rewrite (proj2 (Z.eqb_neq _ _)) by lia. cbv zeta.
  rewrite (u64_small (va + size - 1)) by lia.
  destruct (pgrounddown_spec va) as [Ha Har]; [lia|].
  destruct (pgrounddown_spec (va + size - 1)) as [Hl Hlr]; [lia|].
  rewrite !pgrounddown_alt in * by lia.
  assert (Hle : va - va mod PGSIZE <= va + size - 1 - (va + size - 1) mod PGSIZE)
    by (unfold aligned, PGSIZE in *; zdm).
  assert (Ha0 : 0 <= va - va mod PGSIZE) by (unfold PGSIZE; zdm).
  assert (Hlm : va + size - 1 - (va + size - 1) mod PGSIZE < MAXVA)
    by (rewrite MAXVA_val; unfold PGSIZE in *; zdm).
  revert Ha Hl Hle Ha0 Hlm Hfree.
  generalize (va - va mod PGSIZE), (va + size - 1 - (va + size - 1) mod PGSIZE).
  intros a last Ha Hl Hle Ha0 Hlm Hfree. rewrite (proj2 (Z.leb_le _ _)) by done.
  assert (exists n, last = a + Z.of_nat n * PGSIZE) as [n ->].
  { exists (Z.to_nat ((last - a) / PGSIZE)).
    unfold aligned, PGSIZE in *. rewrite Z2Nat.id; zdm. }
  apply mappages_loop_spec; [done..| |done].
  unfold PGSIZE. rewrite Z.add_simpl_l, Z.div_mul by lia. lia.
Qed.

(** One aligned page: the only partial outcome is to map nothing. *)
Lemma mappages_page w k l root T va pa perm :
  LkKmem ∉ held w -> vm_inv kend k l root T -> aligned va -> 0 <= va < MAXVA ->
  0 <= pa < 2 ^ 64 -> 0 <= perm < 1024 -> has (leafpte (km_mem k) T va) PTE_V = false ->
  exists k' r l' T', mappages root va PGSIZE pa perm w k = Ret w k' r /\
    vm_inv kend k' l' root T' /\ vm_ext k l T k' l' T' /\
    ((r = 0 /\ (length l <= length l' + 2)%nat /\
      leaf_update k T k' T' va (va + PGSIZE)
        (fun _ => Z.lor (Z.lor (PA2PTE pa) perm) PTE_V)) \/
     (r = -1 /\ l' = [] /\ (length l < 2)%nat /\ leaf_update k T k' T' va va (fun _ => 0))).
Proof.
  intros Hw Hinv Ha Hr Hpa Hperm Hfree. rewrite MAXVA_val in Hr.
  assert (Hm : va + PGSIZE <= MAXVA).
  { rewrite MAXVA_val. unfold aligned, PGSIZE in *. zdm. }
  assert (Hlast : PGROUNDDOWN (va + PGSIZE - 1) = va).
  { rewrite pgrounddown_alt by (unfold PGSIZE; lia). unfold aligned, PGSIZE in *. zdm. }
  assert (Hd : PGROUNDDOWN va = va) by (apply pgrounddown_aligned; [done|lia]).
  destruct (mappages_run w k l root T va PGSIZE pa perm)
    as (k' & r & Hrun & l' & T' & b & Hinv' & Hext & Hleaf & Hcase);
    [done..|lia|done|lia|done|done| |].
  { rewrite Hd, Hlast. intros a _ Hab. by replace a with va by lia. }
  rewrite Hd, Hlast in *. exists k', r, l', T'. split_and!; [done..|].
  destruct Hcase as [(-> & -> & Hl)|(-> & -> & Hb & Hl)].
  - left. split; [done|]. split; [unfold PGSIZE in *; lia|]. intros va' Hva' Hr'. rewrite Hleaf by done.
    case_decide; [|done]. unfold map_entry.
    assert (va' = va) as ->. { unfold aligned, PGSIZE in *. zdm. }
    by rewrite Z.sub_diag, Z.add_0_r, u64_small by done.
  - right. split_and!; [done..|unfold PGSIZE in *; lia|]. intros va' Hva' Hr'. rewrite Hleaf by done.
    by rewrite !decide_False by lia.
Qed.

(** Mapping a page that is already mapped panics. *)
Lemma mappages_remap w k l root T va pa perm :
  LkKmem ∉ held w -> vm_inv kend k l root T -> aligned va -> 0 <= va < MAXVA ->
  has (leafpte (km_mem k) T va) PTE_V = true ->
  mappages root va PGSIZE pa perm w k = Panic "mappages: remap".
Proof.
  intros Hw Hinv Ha Hr Hmap. unfold mappages.
  rewrite (proj2 (Z.eqb_neq PGSIZE 0)) by (unfold PGSIZE; lia). cbv zeta.
  rewrite MAXVA_val in Hr. rewrite pgrounddown_aligned by (done || lia).
  cbn [mappages_loop].
  destruct (walk_alloc kend Hend w k l root T va Hw Hinv ltac:(rewrite MAXVA_val; lia))
    as (k1 & r & Hrun & l1 & T1 & Hinv1 & [Hext1 Hleaf1] & Hres).
  run_step Hrun. rewrite <-Hleaf1 in Hmap.
  destruct Hres as [(-> & Hsome & _)|(-> & -> & Hnone & _)].
  - rewrite (proj2 (Z.eqb_neq _ _))
      by (by eapply (leafslot_nonzero kend Hend), Hsome; apply (vi_pt _ _ _ _ _ Hinv1)).
    unfold ldpte. rewrite run_gets. unfold leafslot, leafpte in *.
    destruct Hsome as [x Hx]. rewrite Hx in *. by rewrite Hmap.
  - unfold leafpte in Hmap. rewrite Hnone in Hmap. done.
Qed.
End map.
