(* ===== verification/VmUser.v ===== *)
(** * User memory: [uvmunmap], [uvmdealloc] and [uvmalloc]

    A user page is a leaf entry that owns the physical page it maps: the page
    is neither free, nor a table, nor mapped by another leaf. *)

From S2P Require Import Prelude Machine Mem Layout Kalloc Vm VmInv VmWalk VmMap.

Definition leaf_pa (k : kmem) (T : ptree) (va : Z) : Z :=
  PTE2PA (leafpte (km_mem k) T va).

(** The pages of [lo, hi) are mapped, as leaves. *)
Record mapped_range (k : kmem) (T : ptree) (lo hi : Z) : Prop := {
  mr_valid va : aligned va -> lo <= va < hi -> has (leafpte (km_mem k) T va) PTE_V = true;
  mr_leaf va : aligned va -> lo <= va < hi -> PTE_FLAGS (leafpte (km_mem k) T va) <> PTE_V }.

(** The physical pages behind [n] virtual pages from [a], in order. *)
Fixpoint pas_from (k : kmem) (T : ptree) (a : Z) (n : nat) : list Z :=
  match n with
  | O => []
  | S n => leaf_pa k T a :: pas_from k T (a + PGSIZE) n
  end.

(** The pages [uvmunmap] gives back, most recent first. *)
Definition freed (do_free : bool) (ps l : list Z) : list Z :=
  if do_free then rev_append ps l else l.

Lemma in_rev_elem_of {A} (l : list A) (x : A) : x ∈ l <-> x ∈ rev l.
Proof. by rewrite !list_elem_of_In, <-in_rev. Qed.

Section user.
Variable kend : Z.
Hypothesis Hend : KERNBASE <= kend <= PHYSTOP.

(** They own the pages they map. *)
Record own_range (k : kmem) (l : list Z) (T : ptree) (lo hi : Z) : Prop := {
  or_page va : aligned va -> lo <= va < hi -> page_ok kend (leaf_pa k T va);
  or_used va : aligned va -> lo <= va < hi -> leaf_pa k T va ∉ l;
  or_tree va : aligned va -> lo <= va < hi -> ~ in_tree T (leaf_pa k T va);
  or_inj va va' : aligned va -> lo <= va < hi -> aligned va' -> lo <= va' < hi ->
    leaf_pa k T va = leaf_pa k T va' -> va = va' }.

(** ** Freeing a page beside a page table *)

Lemma kfree_vm w k l root T p :
  LkKmem ∉ held w -> vm_inv kend k l root T -> page_ok kend p -> p ∉ l -> ~ in_tree T p ->
  exists k', kfree kend p w k = Ret w k' tt /\ vm_inv kend k' (p :: l) root T /\
    only_page p (km_mem k) (km_mem k').
Proof.
  intros Hw Hinv Hp Hl Ht. eexists. split; [by apply kfree_eq|].
  set (k' := Kmem _ _).
  assert (Honly : only_page p (km_mem k) (km_mem k')).
  { intros b Hb. simpl. unfold PGSIZE in *. rewrite ld8_st64_out by lia.
    rewrite ld8_memset, decide_False by lia. done. }
  split; [|done]. split.
  - exact (kmem_inv_push kend Hend k p l Hp Hl (vi_kmem _ _ _ _ _ Hinv)).
  - eapply pt_inv_frame; [apply (vi_pt _ _ _ _ _ Hinv)|].
    intros a Ha b Hb. apply Honly. destruct Hp as [Hpa _].
    pose proof Ha as [q Hq]. pose proof (pt_pages _ _ _ _ (vi_pt _ _ _ _ _ Hinv) q a Hq) as [Haa _].
    pose proof (aligned_apart a p Haa Hpa ltac:(intros ->; done)). lia.
  - intros a Ha [->|Hin]%elem_of_cons; [done|]. by apply (vi_disj _ _ _ _ _ Hinv a).
Qed.

Lemma only_page_same p q m m' :
  aligned p -> aligned q -> p <> q -> only_page p m m' -> same_page m m' q.
Proof.
  intros Hp Hq Hne Ho b Hb. apply Ho. pose proof (aligned_apart q p Hq Hp ltac:(done)). lia.
Qed.

Lemma only_page_leaf m0 root p T m m' va :
  pt_inv kend m0 root T -> aligned p -> ~ in_tree T p -> only_page p m m' ->
  leafpte m' T va = leafpte m T va.
Proof.
  intros Hpt Hp Ht Ho. apply leafpte_frame. intros a Ha.
  pose proof Ha as [q Hq]. pose proof (pt_pages _ _ _ _ Hpt q a Hq) as [Haa _].
  apply (only_page_same p); [done|done| |done]. intros ->. done.
Qed.

(** ** [uvmunmap] *)

Lemma valid_table m T va : has (leafpte m T va) PTE_V = true -> is_Some (T !! vpath va).
Proof. unfold leafpte. by destruct (T !! vpath va). Qed.

Lemma ldpte_leaf k T va : is_Some (T !! vpath va) ->
  ld64 (km_mem k) (leafslot T va) = leafpte (km_mem k) T va.
Proof. intros [a Ha]. unfold leafslot, leafpte. by rewrite Ha. Qed.

(** One iteration. *)
Lemma unmap_one w k l root T a do_free :
  LkKmem ∉ held w -> vm_inv kend k l root T -> aligned a -> 0 <= a < MAXVA ->
  has (leafpte (km_mem k) T a) PTE_V = true ->
  (do_free = true -> page_ok kend (leaf_pa k T a) /\ leaf_pa k T a ∉ l /\
     ~ in_tree T (leaf_pa k T a)) ->
  exists k1, when do_free (kfree kend (leaf_pa k T a)) w k = Ret w k1 tt /\
    let k2 := set_mem (st64 (km_mem k1) (leafslot T a) 0) k1 in
    vm_inv kend k2 (freed do_free [leaf_pa k T a] l) root T /\
    leaf_update k T k2 T a (a + PGSIZE) (fun _ => 0) /\
    (forall q, aligned q -> ~ in_tree T q -> (do_free = true -> q <> leaf_pa k T a) ->
       same_page (km_mem k) (km_mem k2) q).
Proof.
  intros Hw Hinv Ha Hr Hv Hown. pose proof (vi_pt _ _ _ _ _ Hinv) as Hpt.
  pose proof (valid_table _ _ _ Hv) as Hsome.
  assert (exists k1, when do_free (kfree kend (leaf_pa k T a)) w k = Ret w k1 tt /\
    vm_inv kend k1 (freed do_free [leaf_pa k T a] l) root T /\
    (forall va, leafpte (km_mem k1) T va = leafpte (km_mem k) T va) /\
    (forall q, aligned q -> (do_free = true -> q <> leaf_pa k T a) ->
       same_page (km_mem k) (km_mem k1) q)) as (k1 & Hrun & Hinv1 & Hleaf & Hsame).
  { destruct do_free; simpl.
    - destruct Hown as (Hp & Hl & Ht); [done|].
      destruct (kfree_vm w k l root T _ Hw Hinv Hp Hl Ht) as (k1 & Hrun & Hinv1 & Ho).
      destruct Hp as [Hpa _]. exists k1. split_and!; [done..| |].
      + intros va. by eapply only_page_leaf.
      + intros q Hq Hne. apply (only_page_same (leaf_pa k T a)); [done..| |done].
        intros Heq. by apply Hne.
    - exists k. by split_and!. }
  exists k1. split; [done|]. split; [by apply write_leaf_inv|]. split.
  - intros va Hva Hvr. rewrite (write_leaf_leaf kend k1 _ root) by (done || lia).
    rewrite Hleaf. destruct (decide (va = a)) as [->|Hne].
    + by rewrite decide_True by (unfold PGSIZE; lia).
    + pose proof (aligned_apart va a Hva Ha Hne). by rewrite decide_False by lia.
  - intros q Hq Hqt Hne b Hb. rewrite <-(Hsame q Hq Hne b Hb).
    by apply (write_leaf_frame kend k1 _ root T a 0 Hinv1 Hsome q Hq Hqt).
Qed.

(** Ranges are kept by changes that leave their entries alone. *)
Lemma mapped_range_ext k T k' T' lo hi lo' hi' :
  mapped_range k T lo hi -> lo <= lo' -> hi' <= hi ->
  (forall va, aligned va -> lo' <= va < hi' ->
     leafpte (km_mem k') T' va = leafpte (km_mem k) T va) ->
  mapped_range k' T' lo' hi'.
Proof.
  intros [Hv Hl] H1 H2 Heq. split; intros va Ha Hr; rewrite Heq by done; [apply Hv|apply Hl];
    done || lia.
Qed.

Lemma own_range_ext k l T k' l' T' lo hi lo' hi' :
  own_range k l T lo hi -> lo <= lo' -> hi' <= hi ->
  (forall va, aligned va -> lo' <= va < hi' ->
     leafpte (km_mem k') T' va = leafpte (km_mem k) T va /\
     leaf_pa k T va ∉ l' /\ ~ in_tree T' (leaf_pa k T va)) ->
  own_range k' l' T' lo' hi'.
Proof.
  intros [Hp Hu Ht Hi] H1 H2 Heq.
  assert (Hpa : forall va, aligned va -> lo' <= va < hi' -> leaf_pa k' T' va = leaf_pa k T va).
  { intros va Ha Hr. unfold leaf_pa. by rewrite (proj1 (Heq va Ha Hr)). }
  split.
  - intros va Ha Hr. rewrite Hpa by done. apply Hp; [done|lia].
  - intros va Ha Hr. rewrite Hpa by done. by apply Heq.
  - intros va Ha Hr. rewrite Hpa by done. by apply Heq.
  - intros va va' Ha Hr Ha' Hr'. rewrite !Hpa by done. apply Hi; done || lia.
Qed.

Lemma pas_from_ext k T k' T' a n :
  aligned a ->
  (forall va, aligned va -> a <= va < a + Z.of_nat n * PGSIZE ->
     leafpte (km_mem k') T' va = leafpte (km_mem k) T va) ->
  pas_from k' T' a n = pas_from k T a n.
Proof.
  revert a. induction n as [|n IH]; intros a Ha Heq; [done|]. simpl. f_equal.
  - unfold leaf_pa. rewrite Heq; [done..|unfold PGSIZE; lia].
  - apply IH; [by apply aligned_add|]. intros va Hva Hr. apply Heq; [done|unfold PGSIZE in *; lia].
Qed.

Definition unmap_post (k : kmem) (l : list Z) (root : Z) (T : ptree) (a : Z) (n : nat)
    (do_free : bool) (k' : kmem) : Prop :=
  vm_inv kend k' (freed do_free (pas_from k T a n) l) root T /\
  leaf_update k T k' T a (a + Z.of_nat n * PGSIZE) (fun _ => 0) /\
  (forall q, aligned q -> ~ in_tree T q -> (do_free = true -> q ∉ pas_from k T a n) ->
     same_page (km_mem k) (km_mem k') q).

Lemma uvmunmap_loop_spec w k l root T a n fuel do_free :
  LkKmem ∉ held w -> vm_inv kend k l root T -> aligned a -> 0 <= a ->
  a + Z.of_nat n * PGSIZE <= MAXVA -> mapped_range k T a (a + Z.of_nat n * PGSIZE) ->
  (do_free = true -> own_range k l T a (a + Z.of_nat n * PGSIZE)) -> (n <= fuel)%nat ->
  exists k', uvmunmap_loop kend root a (a + Z.of_nat n * PGSIZE) do_free fuel w k = Ret w k' tt /\
    unmap_post k l root T a n do_free k'.
Proof.
  intros Hw. revert k l a fuel.
  induction n as [|n IH]; intros k l a fuel Hinv Ha H0 Hmax Hmap Hown Hfuel.
  { exists k. replace (a + _) with a by lia. split.
    - destruct fuel; simpl; by rewrite Z.ltb_irrefl.
    - unfold unmap_post, freed. simpl. split; [by destruct do_free|]. split; [|done].
      intros va Hva Hr. by rewrite decide_False by lia. }
  destruct fuel as [|fuel]; [lia|]. cbn [uvmunmap_loop].
  rewrite (proj2 (Z.ltb_lt _ _)) by (unfold PGSIZE; lia).
  assert (Hra : a <= a < a + Z.of_nat (S n) * PGSIZE) by (unfold PGSIZE; lia).
  assert (Hrm : 0 <= a < MAXVA) by (unfold PGSIZE in *; lia).
  pose proof (mr_valid _ _ _ _ Hmap a Ha Hra) as Hv.
  pose proof (valid_table _ _ _ Hv) as Hsome. pose proof (vi_pt _ _ _ _ _ Hinv) as Hpt.
  run_step (walk_lookup kend Hend w k root T a Hpt ltac:(lia)).
  rewrite (proj2 (Z.eqb_neq _ _)) by (by eapply (leafslot_nonzero kend Hend)).
  unfold ldpte. rewrite run_gets, ldpte_leaf, Hv by done.
  rewrite (proj2 (Z.eqb_neq _ _)) by (by apply (mr_leaf _ _ _ _ Hmap)).
  destruct (unmap_one w k l root T a do_free Hw Hinv Ha Hrm Hv)
    as (k1 & Hrun & Hinv2 & Hleaf & Hsame).
  { intros Hd. destruct (Hown Hd) as [Hp Hu Ht _]. split_and!; [by apply Hp|by apply Hu|by apply Ht]. }
  cbv beta iota delta [negb]. fold (leaf_pa k T a). run_step Hrun. unfold stpte, on_mem. rewrite run_modify.
  set (k2 := set_mem _ _) in *.
  assert (Heq : forall va, aligned va -> a + PGSIZE <= va < a + Z.of_nat (S n) * PGSIZE ->
            leafpte (km_mem k2) T va = leafpte (km_mem k) T va).
  { intros va Hva Hr. rewrite Hleaf by (unfold PGSIZE in *; done || lia).
    by rewrite decide_False by lia. }
  replace (a + Z.of_nat (S n) * PGSIZE) with (a + PGSIZE + Z.of_nat n * PGSIZE) in *
    by (unfold PGSIZE; lia).
  rewrite (u64_small (a + PGSIZE)) by (rewrite MAXVA_val in *; unfold PGSIZE in *; lia).
  destruct (IH k2 (freed do_free [leaf_pa k T a] l) (a + PGSIZE) fuel)
    as (k' & Hrun' & Hinv' & Hleaf' & Hsame');
    [done|by apply aligned_add|unfold PGSIZE in *; lia|done| | |lia|].
  { eapply mapped_range_ext; [done|unfold PGSIZE; lia|done|done]. }
  { intros ->. specialize (Hown eq_refl). eapply own_range_ext; [done|unfold PGSIZE; lia|done|].
    intros va Hva Hr. split; [by apply Heq|]. split.
    - intros [Heqa|Hin]%elem_of_cons.
      + apply (or_inj _ _ _ _ _ Hown) in Heqa; unfold PGSIZE in *; done || lia.
      + apply (or_used _ _ _ _ _ Hown va); unfold PGSIZE in *; done || lia.
    - apply (or_tree _ _ _ _ _ Hown va); unfold PGSIZE in *; done || lia. }
  exists k'. split; [exact Hrun'|].
  rewrite (pas_from_ext k T) in Hinv', Hsame' by (done || by apply aligned_add).
  split_and!.
  - by destruct do_free.
  - replace (a + Z.of_nat (S n) * PGSIZE) with (a + PGSIZE + Z.of_nat n * PGSIZE)
      by (unfold PGSIZE; lia).
    eapply leaf_update_trans; [done|unfold PGSIZE; lia|exact Hleaf|exact Hleaf'].
  - intros q Hq Hqt Hqn b Hb. rewrite (Hsame' q) by set_solver. apply (Hsame q); set_solver.
Qed.

Lemma uvmunmap_run w k l root T a npages do_free :
  LkKmem ∉ held w -> vm_inv kend k l root T -> aligned a -> 0 <= a -> 0 <= npages ->
  a + npages * PGSIZE <= MAXVA -> mapped_range k T a (a + npages * PGSIZE) ->
  (do_free = true -> own_range k l T a (a + npages * PGSIZE)) ->
  exists k', uvmunmap kend root a npages do_free w k = Ret w k' tt /\
    unmap_post k l root T a (Z.to_nat npages) do_free k'.
Proof.
  intros Hw Hinv Ha H0 Hn Hmax Hmap Hown. unfold uvmunmap.
  unfold aligned in Ha. rewrite Ha. simpl Z.eqb. cbv beta iota delta [negb] zeta.
  rewrite (u64_small (npages * PGSIZE)), u64_small
    by (rewrite MAXVA_val in *; unfold PGSIZE in *; lia).
  assert (Hz : npages = Z.of_nat (Z.to_nat npages)) by lia.
  rewrite Hz in Hmap, Hown, Hmax |- *. rewrite Nat2Z.id.
  apply uvmunmap_loop_spec; [done..|].
  replace (_ - a + PGSIZE - 1) with (Z.of_nat (Z.to_nat npages) * PGSIZE + (PGSIZE - 1)) by lia.
  unfold PGSIZE. rewrite Z.div_add_l by lia. change ((4096 - 1) / 4096) with 0. lia.
Qed.

(** ** The user part of an address space

    The pages below [hi] are mapped, and own what they map. *)
Record user_inv (k : kmem) (l : list Z) (root : Z) (T : ptree) (hi : Z) : Prop := {
  ui_vm : vm_inv kend k l root T;
  ui_map : mapped_range k T 0 hi;
  ui_own : own_range k l T 0 hi }.

(** Every page the allocator, the tables or the mappings of [lo, hi) account
    for. *)
Definition accounted (k : kmem) (l : list Z) (T : ptree) (lo hi : Z) (p : Z) : Prop :=
  p ∈ l \/ in_tree T p \/ exists va, aligned va /\ lo <= va < hi /\ leaf_pa k T va = p.

Lemma elem_of_pas_from k T a n p :
  aligned a ->
  p ∈ pas_from k T a n <->
  exists va, aligned va /\ a <= va < a + Z.of_nat n * PGSIZE /\ leaf_pa k T va = p.
Proof.
  revert a. induction n as [|n IH]; intros a Ha; simpl pas_from.
  { split; [by intros ?%not_elem_of_nil|]. intros (va & _ & H & _). lia. }
  rewrite elem_of_cons, IH by by apply aligned_add. split.
  - intros [->|(va & Hva & Hr & <-)].
    + exists a. split_and!; [done|unfold PGSIZE; lia|unfold PGSIZE; lia|done].
    + exists va. split_and!; [done|unfold PGSIZE in *; lia|unfold PGSIZE in *; lia|done].
  - intros (va & Hva & Hr & <-). destruct (decide (va = a)) as [->|Hne]; [by left|right].
    pose proof (aligned_apart va a Hva Ha Hne). exists va.
    split_and!; [done|lia|unfold PGSIZE in *; lia|done].
Qed.

(** Unmapping and freeing the top of an address space. *)
Lemma user_inv_shrink k l root T hi a n k' :
  user_inv k l root T hi -> aligned a -> 0 <= a -> hi = a + Z.of_nat n * PGSIZE -> hi <= MAXVA ->
  unmap_post k l root T a n true k' ->
  user_inv k' (rev_append (pas_from k T a n) l) root T a /\
  (forall p, accounted k l T a hi p <->
     accounted k' (rev_append (pas_from k T a n) l) T a a p).
Proof.
  intros [Hinv Hmap Hown] Ha H0 -> Hmax (Hinv' & Hleaf & Hsame).
  assert (Heq : forall va, aligned va -> 0 <= va < a ->
            leafpte (km_mem k') T va = leafpte (km_mem k) T va).
  { intros va Hva Hr. rewrite Hleaf by (unfold PGSIZE in *; done || lia).
    by rewrite decide_False by lia. }
  split.
  - split; [done| |].
    + eapply mapped_range_ext; [done|lia|unfold PGSIZE; lia|done].
    + eapply own_range_ext; [done|lia|unfold PGSIZE; lia|]. intros va Hva Hr.
      split; [by apply Heq|]. split.
      * rewrite rev_append_rev, elem_of_app, <-in_rev_elem_of, elem_of_pas_from by done.
        intros [(va' & Hva' & Hr' & Heqa)|Hin].
        -- apply (or_inj _ _ _ _ _ Hown) in Heqa; done || lia.
        -- apply (or_used _ _ _ _ _ Hown va); unfold PGSIZE in *; done || lia.
      * apply (or_tree _ _ _ _ _ Hown va); unfold PGSIZE in *; done || lia.
  - intros p. unfold accounted.
    rewrite rev_append_rev, elem_of_app, <-in_rev_elem_of, elem_of_pas_from by done.
    split; [naive_solver|]. intros [[?|?]|[?|(va & _ & Hr & _)]]; [naive_solver..|lia].
Qed.
End user.
