(* ===== verification/VmAlloc.v ===== *)
(** * Growing, shrinking and copying user memory

    [uvmdealloc], [uvmalloc] and [uvmcopy] on address spaces whose user pages
    own what they map. *)

From S2P Require Import Prelude Machine Mem Layout Kalloc Vm VmInv VmWalk VmMap VmUser.

Section alloc.
Variable kend : Z.
Hypothesis Hend : KERNBASE <= kend <= PHYSTOP.

(** The number of pages from [lo] to [hi]. *)
Definition npages (lo hi : Z) : nat := Z.to_nat ((hi - lo) / PGSIZE).

Lemma npages_range lo hi :
  aligned lo -> aligned hi -> lo <= hi -> hi = lo + Z.of_nat (npages lo hi) * PGSIZE.
Proof. unfold npages, aligned, PGSIZE. intros. rewrite Z2Nat.id; zdm. Qed.

Lemma uvmdealloc_run w k l root T oldsz newsz :
  LkKmem ∉ held w -> user_inv kend k l root T (PGROUNDUP oldsz) ->
  0 <= newsz < oldsz -> oldsz <= MAXVA ->
  exists k' l', uvmdealloc kend root oldsz newsz w k = Ret w k' newsz /\
    l' = rev_append (pas_from k T (PGROUNDUP newsz)
                       (npages (PGROUNDUP newsz) (PGROUNDUP oldsz))) l /\
    unmap_post kend k l root T (PGROUNDUP newsz)
      (npages (PGROUNDUP newsz) (PGROUNDUP oldsz)) true k' /\
    user_inv kend k' l' root T (PGROUNDUP newsz) /\
    (forall p, accounted k l T (PGROUNDUP newsz) (PGROUNDUP oldsz) p <->
               accounted k' l' T (PGROUNDUP newsz) (PGROUNDUP newsz) p).
Proof.
  intros Hw Hu Hn Ho. rewrite MAXVA_val in Ho.
  destruct (pgroundup_spec newsz) as [Ha Hr]; [unfold PGSIZE; lia|].
  destruct (pgroundup_spec oldsz) as [Hoa Hor]; [unfold PGSIZE; lia|].
  assert (Hle : PGROUNDUP newsz <= PGROUNDUP oldsz) by (apply pgroundup_mono; unfold PGSIZE; lia).
  assert (Hom : PGROUNDUP oldsz <= MAXVA).
  { rewrite MAXVA_val. unfold aligned, PGSIZE in *. zdm. }
  pose proof (npages_range _ _ Ha Hoa Hle) as Hnp.
  set (lo := PGROUNDUP newsz) in *. set (hi := PGROUNDUP oldsz) in *.
  assert (exists k', when (lo <? hi)
            (uvmunmap kend root lo (u64 (s32 ((hi - lo) / PGSIZE))) true) w k = Ret w k' tt /\
          unmap_post kend k l root T lo (npages lo hi) true k') as (k' & Hrun & Hpost).
  { destruct (decide (lo < hi)) as [Hlt|Hge].
    - rewrite (proj2 (Z.ltb_lt _ _)) by done. simpl when.
      assert (Hd : 0 <= (hi - lo) / PGSIZE < 2 ^ 31).
      { rewrite MAXVA_val in Hom. unfold PGSIZE in *. zdm. }
      rewrite s32_small, u64_small by lia. unfold npages.
      apply (uvmunmap_run kend Hend); [done|apply Hu|done|lia|lia|..].
      + unfold npages in Hnp. lia.
      + eapply mapped_range_ext; [apply Hu|lia|unfold npages in Hnp; lia|done].
      + intros _. destruct Hu as [_ _ Hown].
        eapply own_range_ext; [done|lia|unfold npages in Hnp; lia|].
        intros va Hva Hvr. split; [done|]. unfold npages in Hnp.
        split; [apply (or_used _ _ _ _ _ _ Hown)|apply (or_tree _ _ _ _ _ _ Hown)]; done || lia.
    - rewrite (proj2 (Z.ltb_ge _ _)) by lia. exists k. split; [done|].
      assert (lo = hi) as Heq by lia. rewrite Heq in *. unfold npages. rewrite Z.sub_diag.
      split; [apply Hu|]. split; [|done].
      intros va _ _. change (0 / PGSIZE) with 0. by rewrite decide_False by lia. }
  exists k', (rev_append (pas_from k T lo (npages lo hi)) l).
  split.
  { unfold uvmdealloc. rewrite (proj2 (Z.leb_gt _ _)) by lia. fold lo hi. by run_step Hrun. }
  split; [done|]. split; [done|].
  apply (user_inv_shrink kend Hend k l root T hi lo (npages lo hi)); done || lia.
Qed.

(** ** A fresh page *)

(** A page taken from the free list and filled. *)
Lemma fill_vm k l root T p m :
  vm_inv kend k l root T -> page_ok kend p -> p ∉ l -> ~ in_tree T p -> mem_ok m ->
  only_page p (km_mem k) m -> vm_inv kend (set_mem m k) l root T.
Proof.
  intros Hinv [Hp _] Hl Ht Hm Ho. pose proof (vi_pt _ _ _ _ _ Hinv) as Hpt. split.
  - apply kmem_inv_set_mem; [apply Hinv|done|]. intros q Hq b Hb.
    apply (only_page_same p q); [done| | |done|unfold PGSIZE; lia].
    + eapply kmem_inv_page; [apply Hinv|done].
    + intros ->. done.
  - eapply pt_inv_frame; [done|]. intros a [q Hq].
    apply (only_page_same p); [done|by eapply pt_pages| |done].
    intros ->. apply Ht. by exists q.
  - apply Hinv.
Qed.

Lemma kalloc_vm w k p l root T :
  LkKmem ∉ held w -> vm_inv kend k (p :: l) root T ->
  exists k1, kalloc w k = Ret w k1 p /\ vm_inv kend k1 l root T /\
    page_ok kend p /\ p ∉ l /\ ~ in_tree T p /\ only_page p (km_mem k) (km_mem k1).
Proof.
  intros Hw Hinv. pose proof (vi_kmem _ _ _ _ _ Hinv) as Hk.
  eexists. split; [by apply (kalloc_cons kend Hend w k p l)|].
  assert (Hp : page_ok kend p) by (eapply kmem_inv_page; [done|left]).
  assert (Ht : ~ in_tree T p) by (intros H; apply (vi_disj _ _ _ _ _ Hinv p H); left).
  assert (Ho : only_page p (km_mem k) (memset (km_mem k) p 5 PGSIZE)).
  { intros b Hb. rewrite ld8_memset, decide_False; [done|unfold PGSIZE in *; lia]. }
  split_and!; [|done| |done|done].
  - split; [by apply kmem_inv_pop| |].
    + eapply pt_inv_frame; [apply Hinv|]. intros a [q Hq].
      apply (only_page_same p); [apply Hp|eapply pt_pages; [apply Hinv|done]| |done].
      intros ->. apply Ht. by exists q.
    + intros a Ha Hin. apply (vi_disj _ _ _ _ _ Hinv a Ha). by right.
  - destruct Hk as (_ & Hn & _). by apply NoDup_cons in Hn as [? _].
Qed.

(** A user address space keeps its pages when a free page changes. *)
Lemma user_inv_only_page k l l' root T hi p k' :
  user_inv kend k l root T hi -> vm_inv kend k' l' root T -> l' ⊆ l -> page_ok kend p ->
  ~ in_tree T p -> only_page p (km_mem k) (km_mem k') -> user_inv kend k' l' root T hi.
Proof.
  intros [Hinv Hmap Hown] Hinv' Hl [Hp _] Ht Ho.
  assert (Heq : forall va, leafpte (km_mem k') T va = leafpte (km_mem k) T va).
  { intros va. eapply only_page_leaf; [apply Hinv|done..]. }
  split; [done| |].
  - eapply mapped_range_ext; [done|lia|lia|done].
  - eapply own_range_ext; [done|lia|lia|]. intros va Hva Hr. split; [done|]. split.
    + intros Hin%Hl. by apply (or_used _ _ _ _ _ _ Hown va).
    + by apply (or_tree _ _ _ _ _ _ Hown).
Qed.

(** A table-growing change that leaves the entries below [hi] alone. *)
Lemma user_inv_ext k l root T k' l' T' hi :
  user_inv kend k l root T hi -> vm_inv kend k' l' root T' -> vm_ext k l T k' l' T' ->
  (forall va, aligned va -> 0 <= va < hi ->
     leafpte (km_mem k') T' va = leafpte (km_mem k) T va) ->
  user_inv kend k' l' root T' hi.
Proof.
  intros [Hinv Hmap Hown] Hinv' [Hsub Hnew (used & -> & Hused) Hframe] Heq.
  split; [done| |].
  - by eapply mapped_range_ext.
  - eapply own_range_ext; [done..|]. intros va Hva Hr. split; [by apply Heq|].
    pose proof (or_used _ _ _ _ _ _ Hown va Hva Hr) as Hu. split.
    + set_solver.
    + intros [H|H]%Hnew; [by apply (or_tree _ _ _ _ _ _ Hown va)|done].
Qed.

(** Mapping an owned page [p] at [a]. *)
Section push.
Context (k : kmem) (l : list Z) (root : Z) (T : ptree) (a p v : Z).
Context (k' : kmem) (l' : list Z) (T' : ptree).
Context (Hu : user_inv kend k l root T a) (Ha : aligned a) (H0 : 0 <= a) (Hm : a + PGSIZE <= MAXVA).
Context (Hinv' : vm_inv kend k' l' root T') (Hext : vm_ext k l T k' l' T').
Context (Hleaf : leaf_update k T k' T' a (a + PGSIZE) (fun _ => v)).
Context (Hv : PTE2PA v = p) (Hp : page_ok kend p) (Hpl : p ∉ l) (Hpt : ~ in_tree T p).

Lemma push_below va : aligned va -> 0 <= va < a ->
  leafpte (km_mem k') T' va = leafpte (km_mem k) T va.
Proof.
  intros Hva Hr. rewrite Hleaf by (unfold PGSIZE in *; done || lia).
  by rewrite decide_False by lia.
Qed.

Lemma push_top : leafpte (km_mem k') T' a = v.
Proof.
  rewrite Hleaf by (unfold PGSIZE in *; done || lia).
  by rewrite decide_True by (unfold PGSIZE; lia).
Qed.

Lemma push_split va : aligned va -> va < a + PGSIZE -> va < a \/ va = a.
Proof.
  intros Hva Hr. destruct (decide (va = a)) as [->|Hne]; [by right|left].
  pose proof (aligned_apart va a Hva Ha Hne). unfold PGSIZE in *. lia.
Qed.

Lemma push_fresh : p ∉ l' /\ ~ in_tree T' p.
Proof.
  destruct Hext as [_ Hnew (used & Hl & _) _]. split; [rewrite Hl, elem_of_app in Hpl; tauto|].
  by intros [?|?]%Hnew.
Qed.

Lemma push_user_inv :
  has v PTE_V = true -> PTE_FLAGS v <> PTE_V ->
  (forall va, aligned va -> 0 <= va < a -> leaf_pa k T va <> p) ->
  user_inv kend k' l' root T' (a + PGSIZE).
Proof.
  intros Hvv Hvf Hdiff.
  destruct (user_inv_ext k l root T k' l' T' a Hu Hinv' Hext push_below) as [_ Hmap Hown].
  assert (Hpa : leaf_pa k' T' a = p) by (unfold leaf_pa; by rewrite push_top).
  assert (Hpb : forall va, aligned va -> 0 <= va < a -> leaf_pa k' T' va <> p).
  { intros va Hva Hr. unfold leaf_pa. rewrite push_below by done. by apply Hdiff. }
  pose proof push_fresh as [Hf1 Hf2]. split; [done| |]; split.
  1, 2: intros va Hva Hr; destruct (push_split va Hva ltac:(lia)) as [Hlt|Heq];
        [apply Hmap; done || lia|rewrite Heq, push_top; done].
  1, 2, 3: intros va Hva Hr; destruct (push_split va Hva ltac:(lia)) as [Hlt|Heq];
        [apply Hown; done || lia|rewrite Heq, Hpa; done].
  intros va va' Hva Hr Hva' Hr' Heq.
  destruct (push_split va Hva ltac:(lia)) as [Hlt| ->],
           (push_split va' Hva' ltac:(lia)) as [Hlt'| ->]; [|..|done].
  - apply (or_inj _ _ _ _ _ _ Hown); done || lia.
  - rewrite Hpa in Heq. by apply Hpb in Heq; [|done|lia].
  - rewrite Hpa in Heq. symmetry in Heq. by apply Hpb in Heq; [|done|lia].
Qed.

Lemma push_acct old q : 0 <= old <= a ->
  accounted k (p :: l) T old a q <-> accounted k' l' T' old (a + PGSIZE) q.
Proof.
  intros Hold. destruct Hext as [Hsub Hnew (used & Hl & Hused) _]. unfold accounted. split.
  - intros [[->|Hin]%elem_of_cons|[Ht|(va & Hva & Hr & Hpa)]].
    + right; right. exists a. split_and!; [done|lia|unfold PGSIZE; lia|].
      unfold leaf_pa. by rewrite push_top.
    + rewrite Hl in Hin. apply elem_of_app in Hin as [Hin|Hin]; [|by left].
      right; left. by eapply Forall_forall in Hused.
    + right; left. by eapply in_tree_sub.
    + right; right. exists va. split_and!; [done|lia|unfold PGSIZE; lia|].
      unfold leaf_pa in *. by rewrite push_below by (done || lia).
  - intros [Hin|[Ht|(va & Hva & Hr & Hpa)]].
    + left. rewrite Hl. right. apply elem_of_app. by right.
    + apply Hnew in Ht as [?|?]; [by right; left|left; by right].
    + destruct (push_split va Hva ltac:(lia)) as [Hlt| ->].
      * right; right. exists va. split_and!; [done|lia|lia|].
        unfold leaf_pa in *. by rewrite <-push_below by (done || lia).
      * left. unfold leaf_pa in Hpa. rewrite push_top, Hv in Hpa. rewrite Hpa. left.
Qed.
End push.

(** ** Growing an address space page by page

    [uvmalloc] and [uvmcopy] both extend an address space, started in the state
    [k0], [l0], [T0], from [old] upwards, giving the page at [va] the
    permissions [flags va] and the contents [byte va]. *)
Definition leaf_eqv (v v' : Z) : Prop :=
  v = v' \/ (has v PTE_V = false /\ has v' PTE_V = false).

Section grow.
Context (k0 : kmem) (l0 : list Z) (T0 : ptree) (root old top : Z).
Context (flags : Z -> Z) (byte : Z -> Z -> Z).
Context (Hflags : forall va, 0 <= flags va < 1024).
Context (Hleafy : forall va, aligned va -> old <= va < top -> Z.lor (flags va) PTE_V <> PTE_V).
Context (Hold : aligned old) (Hold0 : 0 <= old) (Htop : top <= MAXVA).
Context (Hfree0 : forall va, aligned va -> old <= va < top ->
           has (leafpte (km_mem k0) T0 va) PTE_V = false).

Record grow_inv (a : Z) (k : kmem) (l : list Z) (T : ptree) : Prop := {
  gi_user : user_inv kend k l root T a;
  gi_sub : T0 ⊆ T;
  gi_frame q : aligned q -> ~ in_tree T q -> q ∉ l0 -> same_page (km_mem k0) (km_mem k) q;
  gi_leaf va : aligned va -> 0 <= va < MAXVA -> ~ (old <= va < a) ->
    leaf_eqv (leafpte (km_mem k0) T0 va) (leafpte (km_mem k) T va);
  gi_ent va : aligned va -> old <= va < a ->
    leafpte (km_mem k) T va = Z.lor (Z.lor (PA2PTE (leaf_pa k T va)) (flags va)) PTE_V;
  gi_byte va i : aligned va -> old <= va < a -> 0 <= i < PGSIZE ->
    ld8 (km_mem k) (leaf_pa k T va + i) = byte va i;
  gi_acct p : accounted k0 l0 T0 old old p <-> accounted k l T old a p }.

Lemma acct_empty k l T q : accounted k l T old old q -> q ∈ l \/ in_tree T q.
Proof. intros [?|[?|(va & _ & H & _)]]; [by left|by right|lia]. Qed.

Lemma gi_new a k l T q : grow_inv a k l T -> in_tree T q -> in_tree T0 q \/ q ∈ l0.
Proof.
  intros G H. apply or_comm, (acct_empty k0), (gi_acct _ _ _ _ G). by right; left.
Qed.

Lemma gi_free a k l T q : grow_inv a k l T -> q ∈ l -> q ∈ l0.
Proof.
  intros G H. destruct (acct_empty k0 l0 T0 q) as [?|Ht]; [by apply (gi_acct _ _ _ _ G); left|done|].
  exfalso. apply (vi_disj _ _ _ _ _ (ui_vm _ _ _ _ _ _ (gi_user _ _ _ _ G)) q); [|done].
  eapply in_tree_sub; [|done]. apply (gi_sub _ _ _ _ G).
Qed.

Lemma gi_fresh a k l T va :
  grow_inv a k l T -> aligned va -> old <= va < a -> leaf_pa k T va ∈ l0.
Proof.
  intros G Ha Hr. destruct (acct_empty k0 l0 T0 (leaf_pa k T va)) as [?|Ht]; [|done|].
  - apply (gi_acct _ _ _ _ G). right; right. by exists va.
  - exfalso. apply (or_tree _ _ _ _ _ _ (ui_own _ _ _ _ _ _ (gi_user _ _ _ _ G)) va); [done|lia|].
    eapply in_tree_sub; [|done]. apply (gi_sub _ _ _ _ G).
Qed.

Lemma grow_start hi :
  hi = old -> user_inv kend k0 l0 root T0 hi -> grow_inv hi k0 l0 T0.
Proof.
  intros Heq Hu. split; try done.
  - by left.
  - intros; lia.
  - intros; lia.
  - by rewrite Heq.
Qed.

(** The entry of a fresh page. *)
Definition entry (p a : Z) : Z := Z.lor (Z.lor (PA2PTE p) (flags a)) PTE_V.

Lemma entry_facts p a : page_ok kend p -> aligned a -> old <= a < top ->
  PTE2PA (entry p a) = p /\ has (entry p a) PTE_V = true /\ PTE_FLAGS (entry p a) <> PTE_V /\
  0 <= entry p a < 2 ^ 64.
Proof.
  intros Hp Ha Hr. pose proof (page_ok_range kend Hend p Hp). destruct Hp as [Hp _].
  unfold entry. rewrite <-Z.lor_assoc.
  assert (Hf : 0 <= Z.lor (flags a) PTE_V < 1024).
  { apply (lor_range _ _ 10); [lia|apply Hflags|]. change PTE_V with 1. lia. }
  rewrite PTE2PA_pack, PTE_FLAGS_pack by (done || lia). split_and!; [done| |by apply Hleafy|..].
  - unfold has. apply negb_true_iff, Z.eqb_neq. intros H0.
    rewrite !Z.land_lor_distr_l, Z.land_diag in H0. apply Z.lor_eq_0_iff in H0 as [_ H0].
    by apply Z.lor_eq_0_iff in H0 as [_ H0].
  - rewrite pte_pack by (done || lia). zdm.
  - rewrite pte_pack by (done || lia). zdm.
Qed.

(** The allocated and filled page [p], before it is mapped. *)
Section fresh.
Context (a : Z) (k : kmem) (l : list Z) (T : ptree) (p : Z) (k1 : kmem).
Context (G : grow_inv a k (p :: l) T) (Ha : aligned a) (Hr : old <= a) (Ht : a + PGSIZE <= top).
Context (Hinv1 : vm_inv kend k1 l root T) (Honly : only_page p (km_mem k) (km_mem k1)).

Lemma fresh_facts : page_ok kend p /\ p ∉ l /\ ~ in_tree T p /\ p ∈ l0.
Proof.
  pose proof (ui_vm _ _ _ _ _ _ (gi_user _ _ _ _ G)) as Hinv.
  pose proof (vi_kmem _ _ _ _ _ Hinv) as Hk. split_and!.
  - eapply kmem_inv_page; [done|left].
  - destruct Hk as (_ & Hn & _). by apply NoDup_cons in Hn as [? _].
  - intros H. apply (vi_disj _ _ _ _ _ Hinv p H). left.
  - eapply gi_free; [done|left].
Qed.

Lemma fresh_user : user_inv kend k1 l root T a.
Proof.
  destruct fresh_facts as (Hp & _ & Hpt & _).
  eapply user_inv_only_page; [apply (gi_user _ _ _ _ G)|done| |done|done|done]. by right.
Qed.

Lemma fresh_leaf va : leafpte (km_mem k1) T va = leafpte (km_mem k) T va.
Proof.
  destruct fresh_facts as ([Hp _] & _ & Hpt & _).
  eapply only_page_leaf; [apply (vi_pt _ _ _ _ _ Hinv1)|done..].
Qed.

Lemma fresh_other va : aligned va -> 0 <= va < a -> leaf_pa k T va <> p.
Proof.
  intros Hva Hvr Heq. apply (or_used _ _ _ _ _ _ (ui_own _ _ _ _ _ _ (gi_user _ _ _ _ G)) va);
    [done|lia|]. rewrite Heq. left.
Qed.

Lemma fresh_frame T' k' q :
  T ⊆ T' -> aligned q -> ~ in_tree T' q -> q ∉ l0 ->
  same_page (km_mem k1) (km_mem k') q -> same_page (km_mem k0) (km_mem k') q.
Proof.
  intros Hsub Hq Hqt Hql Hs b Hb. destruct fresh_facts as ([Hp _] & _ & _ & Hp0).
  rewrite (Hs b Hb), Honly.
  - apply (gi_frame _ _ _ _ G q Hq); [|done|done]. intros H. by eapply Hqt, in_tree_sub.
  - pose proof (aligned_apart q p Hq Hp ltac:(intros ->; done)). lia.
Qed.

(** The contents of a page mapped earlier. *)
Lemma fresh_byte k' T' va i :
  (forall q, in_tree T' q -> in_tree T q \/ q ∈ l) ->
  (forall q, aligned q -> ~ in_tree T' q -> q <> p -> same_page (km_mem k1) (km_mem k') q) ->
  aligned va -> old <= va < a -> 0 <= i < PGSIZE ->
  ld8 (km_mem k') (leaf_pa k T va + i) = byte va i.
Proof.
  intros Hnew Hs Hva Hvr Hi. rewrite <-(gi_byte _ _ _ _ G va i Hva Hvr Hi).
  destruct (gi_user _ _ _ _ G) as [_ _ Hown]. destruct fresh_facts as ([Hp _] & _).
  pose proof (or_used _ _ _ _ _ _ Hown va Hva ltac:(lia)) as Hnu.
  pose proof (or_page _ _ _ _ _ _ Hown va Hva ltac:(lia)) as [Hpa _].
  rewrite not_elem_of_cons in Hnu. destruct Hnu as [Hne Hnl].
  rewrite (Hs (leaf_pa k T va)); [|done| |done|lia].
  - apply Honly. pose proof (aligned_apart _ p Hpa Hp Hne). lia.
  - intros [H|H]%Hnew; [|done]. by apply (or_tree _ _ _ _ _ _ Hown va); [|lia|].
Qed.

(** It is mapped. *)
Lemma grow_push k' l' T' :
  (forall i, 0 <= i < PGSIZE -> ld8 (km_mem k1) (p + i) = byte a i) ->
  vm_inv kend k' l' root T' -> vm_ext k1 l T k' l' T' ->
  leaf_update k1 T k' T' a (a + PGSIZE) (fun _ => entry p a) ->
  grow_inv (a + PGSIZE) k' l' T'.
Proof.
  intros Hfill Hinv' Hext Hleaf.
  assert (H0 : 0 <= a) by lia. assert (Hm : a + PGSIZE <= MAXVA) by lia.
  assert (Har : old <= a < top) by (unfold PGSIZE in *; lia).
  destruct fresh_facts as (Hp & Hpl & Hpt & Hp0).
  destruct (entry_facts p a Hp Ha Har) as (He1 & He2 & He3 & _).
  pose proof (push_below k1 T a _ k' T' Hm Hleaf) as Hbelow.
  pose proof (push_top k1 T a _ k' T' Ha H0 Hm Hleaf) as Htop'.
  assert (Hbpa : forall va, aligned va -> 0 <= va < a -> leaf_pa k' T' va = leaf_pa k T va).
  { intros va Hva Hvr. unfold leaf_pa. by rewrite Hbelow, fresh_leaf. }
  assert (Hsub : T ⊆ T') by apply Hext.
  split.
  - eapply (push_user_inv k1 l root T a p); try done; [apply fresh_user|].
    intros va Hva Hvr. unfold leaf_pa. rewrite fresh_leaf. by apply fresh_other.
  - etrans; [apply (gi_sub _ _ _ _ G)|done].
  - intros q Hq Hqt Hql. eapply fresh_frame; [done..|]. by apply (vg_frame _ _ _ _ _ _ Hext).
  - intros va Hva Hvr Hno. rewrite Hleaf by done. rewrite decide_False by lia.
    rewrite fresh_leaf. apply (gi_leaf _ _ _ _ G); [done|done|unfold PGSIZE in *; lia].
  - intros va Hva Hvr. destruct (push_split a Ha va Hva ltac:(lia)) as [Hlt| ->].
    + rewrite Hbpa, Hbelow, fresh_leaf by (done || lia). apply (gi_ent _ _ _ _ G); done || lia.
    + unfold leaf_pa. by rewrite Htop', He1.
  - intros va i Hva Hvr Hi. destruct (push_split a Ha va Hva ltac:(lia)) as [Hlt| ->].
    + rewrite Hbpa by (done || lia). apply (fresh_byte k' T'); [apply Hext| |done|lia|done].
      intros q Hq Hqt _. by apply (vg_frame _ _ _ _ _ _ Hext).
    + unfold leaf_pa. rewrite Htop', He1, <-Hfill by done.
      apply (vg_frame _ _ _ _ _ _ Hext p); [apply Hp| |lia].
      by apply (push_fresh k1 l T p k' l' T').
  - intros q. rewrite (gi_acct _ _ _ _ G q).
    rewrite <-(push_acct k1 l T a p _ k' l' T' Ha H0 Hm Hext Hleaf He1 old q) by lia.
    unfold accounted, leaf_pa. by setoid_rewrite fresh_leaf.
Qed.

(** It cannot be mapped, and is freed again. *)
Lemma grow_fail w k3 T3 :
  LkKmem ∉ held w -> vm_inv kend k3 [] root T3 -> vm_ext k1 l T k3 [] T3 ->
  (forall va, aligned va -> 0 <= va < MAXVA ->
     leafpte (km_mem k3) T3 va = leafpte (km_mem k1) T va) ->
  exists k4, kfree kend p w k3 = Ret w k4 tt /\ grow_inv a k4 [p] T3.
Proof.
  intros Hw Hinv3 Hext Hleaf. destruct fresh_facts as (Hp & Hpl & Hpt & Hp0).
  destruct (push_fresh k1 l T p k3 [] T3 Hext Hpl Hpt) as [_ Hpt3].
  destruct (kfree_vm kend Hend w k3 [] root T3 p Hw Hinv3 Hp ltac:(apply not_elem_of_nil) Hpt3)
    as (k4 & Hrun & Hinv4 & Ho4).
  exists k4. split; [done|].
  assert (Heq : forall va, aligned va -> 0 <= va < MAXVA ->
            leafpte (km_mem k4) T3 va = leafpte (km_mem k) T va).
  { intros va Hva Hvr. rewrite <-fresh_leaf, <-Hleaf by done.
    eapply only_page_leaf; [apply Hinv3|apply Hp|done|done]. }
  assert (Heqp : forall va, aligned va -> 0 <= va < a -> leaf_pa k4 T3 va = leaf_pa k T va).
  { intros va Hva Hvr. unfold leaf_pa. by rewrite Heq by (unfold PGSIZE in *; done || lia). }
  assert (Hs : forall q, aligned q -> ~ in_tree T3 q -> q <> p -> same_page (km_mem k1) (km_mem k4) q).
  { intros q Hq Hqt Hqp b Hb. destruct Hp as [Hp _].
    rewrite (only_page_same p q _ _ Hp Hq ltac:(done) Ho4 b Hb).
    by apply (vg_frame _ _ _ _ _ _ Hext q). }
  destruct Hext as [Hsub Hnew (used & Hl & Hused) _]. rewrite app_nil_r in Hl. subst used.
  split.
  - destruct (gi_user _ _ _ _ G) as [_ Hmap Hown]. split; [done| |].
    + eapply mapped_range_ext; [done..|]. intros va Hva Hvr. apply Heq; [done|unfold PGSIZE in *; lia].
    + eapply own_range_ext; [done..|]. intros va Hva Hvr.
      split; [apply Heq; [done|unfold PGSIZE in *; lia]|]. split.
      * intros Hin%list_elem_of_singleton. by apply (fresh_other va Hva Hvr).
      * intros [H|H]%Hnew; [by apply (or_tree _ _ _ _ _ _ Hown va)|].
        apply (or_used _ _ _ _ _ _ Hown va Hva Hvr). by right.
  - etrans; [apply (gi_sub _ _ _ _ G)|done].
  - intros q Hq Hqt Hql. eapply fresh_frame; [done..|]. apply Hs; [done|done|]. intros ->. done.
  - intros va Hva Hvr Hno. rewrite Heq by done. by apply (gi_leaf _ _ _ _ G).
  - intros va Hva Hvr. rewrite Heqp, Heq by (unfold PGSIZE in *; done || lia).
    by apply (gi_ent _ _ _ _ G).
  - intros va i Hva Hvr Hi. rewrite Heqp by (done || lia). by apply (fresh_byte k4 T3).
  - intros q. rewrite (gi_acct _ _ _ _ G q). unfold accounted.
    assert (Hq : q ∈ p :: l \/ in_tree T q <-> q ∈ [p] \/ in_tree T3 q).
    { rewrite elem_of_cons, list_elem_of_singleton. split.
      - intros [[?|?]|?]; [by left|right; by eapply Forall_forall in Hused|right; by eapply in_tree_sub].
      - intros [?|[?|?]%Hnew]; tauto. }
    assert (Hv : (exists va, aligned va /\ old <= va < a /\ leaf_pa k T va = q) <->
                 (exists va, aligned va /\ old <= va < a /\ leaf_pa k4 T3 va = q)).
    { split; intros (va & Hva & Hvr & <-); exists va; (split; [done|split; [done|]]);
        rewrite Heqp; done || lia. }
    rewrite Hv. tauto.
Qed.
End fresh.

(** The pages mapped so far are unmapped and freed. *)
Lemma grow_shrink a k l T k' :
  grow_inv a k l T -> aligned a -> old <= a <= top ->
  unmap_post kend k l root T old (npages old a) true k' ->
  grow_inv old k' (rev_append (pas_from k T old (npages old a)) l) T.
Proof.
  intros G Ha Hr Hpost. pose proof (npages_range old a Hold Ha ltac:(lia)) as Hn.
  destruct (user_inv_shrink kend Hend k l root T a old (npages old a) k') as [Hu Hacct];
    [apply (gi_user _ _ _ _ G)|done..|lia|lia|done|].
  destruct Hpost as (_ & Hleaf & Hs). rewrite <-Hn in Hleaf. split.
  - done.
  - apply (gi_sub _ _ _ _ G).
  - intros q Hq Hqt Hql b Hb. rewrite (Hs q Hq Hqt); [by apply (gi_frame _ _ _ _ G q)| |done].
    intros _. rewrite elem_of_pas_from, <-Hn by done. intros (va & Hva & Hvr & Heq).
    apply Hql. rewrite <-Heq. by apply (gi_fresh a k l T).
  - intros va Hva Hvr _. rewrite Hleaf by done. case_decide as Hd.
    + right. split; [apply Hfree0; done || lia|done].
    + by apply (gi_leaf _ _ _ _ G).
  - intros; lia.
  - intros; lia.
  - intros q. by rewrite (gi_acct _ _ _ _ G q).
Qed.

(** The next page is not mapped yet. *)
Lemma grow_next a k l T :
  grow_inv a k l T -> aligned a -> old <= a < top ->
  has (leafpte (km_mem k) T a) PTE_V = false.
Proof.
  intros G Ha Hr. pose proof (Hfree0 a Ha Hr) as Hf.
  destruct (gi_leaf _ _ _ _ G a Ha ltac:(lia) ltac:(lia)) as [<-|[_ ?]]; done.
Qed.

(** One round of the loops: [kalloc], filling the page, and [mappages]. *)
Lemma grow_round w a k p l T fill :
  LkKmem ∉ held w -> grow_inv a k (p :: l) T -> aligned a -> old <= a -> a + PGSIZE <= top ->
  (forall m, mem_ok m -> mem_ok (fill m) /\ only_page p m (fill m)) ->
  (forall m i, mem_ok m -> only_page p (km_mem k) m -> 0 <= i < PGSIZE -> ld8 (fill m) (p + i) = byte a i) ->
  exists k1, kalloc w k = Ret w k1 p /\ p <> 0 /\
  exists k3 r l3 T3,
    mappages root a PGSIZE p (flags a) w (set_mem (fill (km_mem k1)) k1) = Ret w k3 r /\
    ((r = 0 /\ grow_inv (a + PGSIZE) k3 l3 T3 /\ (length (p :: l) <= length l3 + 3)%nat) \/
     (r = -1 /\ (length (p :: l) < 3)%nat /\
      exists k4, kfree kend p w k3 = Ret w k4 tt /\ grow_inv a k4 [p] T3)).
Proof.
  intros Hw G Ha Hr Ht Hfill Hbyte.
  destruct (kalloc_vm w k p l root T Hw (ui_vm _ _ _ _ _ _ (gi_user _ _ _ _ G)))
    as (k1 & Hrun & Hinv1 & Hp & Hpl & Hpt & Ho1).
  exists k1. split; [done|].
  pose proof (page_ok_range kend Hend p Hp). split; [lia|].
  destruct (Hfill (km_mem k1)) as [Hmf Hof]; [apply Hinv1|].
  set (k2 := set_mem (fill (km_mem k1)) k1).
  assert (Hinv2 : vm_inv kend k2 l root T) by by apply (fill_vm k1 l root T p).
  assert (Ho2 : only_page p (km_mem k) (km_mem k2)).
  { intros b Hb. simpl. rewrite Hof by done. by apply Ho1. }
  assert (Har : old <= a < top) by (unfold PGSIZE in *; lia).
  destruct (mappages_page kend Hend w k2 l root T a p (flags a) Hw Hinv2 Ha)
    as (k3 & r & l3 & T3 & Hmap & Hinv3 & Hext & Hcase); [lia|lia|done| |].
  { rewrite (fresh_leaf a k l T p k2 G Hinv2 Ho2). by apply (grow_next a k (p :: l)). }
  exists k3, r, l3, T3. split; [done|]. destruct Hcase as [(-> & Hlen & Hleaf)|(-> & -> & Hlen & Hleaf)].
  - left. split; [done|]. split; [|simpl; lia].
    apply (grow_push a k l T p k2 G Ha Hr Ht Hinv2 Ho2); try done.
    intros i Hi. apply Hbyte; [apply Hinv1|done..].
  - right. split; [done|]. split; [simpl; lia|].
    apply (grow_fail a k l T p k2 G Ht Hinv2 Ho2); try done.
    intros va Hva Hvr. rewrite Hleaf by done. by rewrite decide_False by lia.
Qed.

(** The undo of [uvmalloc]. *)
Lemma grow_undo w a k l T :
  LkKmem ∉ held w -> grow_inv a k l T -> aligned a -> old <= a <= top ->
  exists k' l', uvmdealloc kend root a old w k = Ret w k' old /\ grow_inv old k' l' T.
Proof.
  intros Hw G Ha Hr. destruct (decide (a = old)) as [Heq|Hne].
  { exists k, l. rewrite Heq in *. split; [|done]. unfold uvmdealloc. by rewrite Z.leb_refl. }
  assert (HPa : PGROUNDUP a = a)
    by (apply pgroundup_aligned; [done|rewrite MAXVA_val in Htop; unfold PGSIZE; lia]).
  assert (HPo : PGROUNDUP old = old)
    by (apply pgroundup_aligned; [done|rewrite MAXVA_val in Htop; unfold PGSIZE; lia]).
  destruct (uvmdealloc_run w k l root T a old Hw) as (k' & l' & Hrun & Hl' & Hpost & _ & _).
  - rewrite HPa. apply (gi_user _ _ _ _ G).
  - lia.
  - lia.
  - rewrite HPa, HPo in *. exists k', l'. split; [done|]. rewrite Hl'. by apply grow_shrink.
Qed.
End grow.
End alloc.
