(* ===== verification/VmSpec.v ===== *)
(** * Correctness of [uvmalloc] and [uvmcopy] *)

From S2P Require Import Prelude Machine Mem Layout Kalloc Vm VmInv VmWalk VmMap VmUser VmAlloc.

Section spec.
Variable kend : Z.
Hypothesis Hend : KERNBASE <= kend <= PHYSTOP.

Definition user_perm (xperm : Z) : Z := Z.lor (Z.lor PTE_R PTE_U) xperm.

(** Zero-filling the page [p]. *)
Lemma zero_fill p m :
  (mem_ok m -> mem_ok (memset m p 0 PGSIZE)) /\ only_page p m (memset m p 0 PGSIZE) /\
  forall i, 0 <= i < PGSIZE -> ld8 (memset m p 0 PGSIZE) (p + i) = 0.
Proof.
  split_and!; [intros; mem_ok| |].
  - intros b Hb. rewrite ld8_memset, decide_False; [done|unfold PGSIZE in *; lia].
  - intros i Hi. rewrite ld8_memset, decide_True; [done|unfold PGSIZE in *; lia].
Qed.

Section uvmalloc.
Context (k0 : kmem) (l0 : list Z) (T0 : ptree) (root old newsz xperm : Z).
Let top : Z := PGROUNDUP newsz.
Let flags : Z -> Z := fun _ => user_perm xperm.
Let byte : Z -> Z -> Z := fun _ _ => 0.
Context (Hx : 0 <= xperm < 1024) (Hold : aligned old) (Hold0 : 0 <= old) (Hnew : newsz <= MAXVA).
Context (Hfree0 : forall va, aligned va -> old <= va < top ->
           has (leafpte (km_mem k0) T0 va) PTE_V = false).

Let G := grow_inv kend k0 l0 T0 root old flags byte.

Lemma user_perm_range va : 0 <= flags va < 1024.
Proof.
  apply (lor_range _ _ 10); [lia| |lia]. by vm_compute.
Qed.

Lemma user_perm_leafy va : Z.lor (flags va) PTE_V <> PTE_V.
Proof.
  intros H. apply (f_equal (fun z => Z.testbit z 1)) in H. unfold flags, user_perm in H.
  rewrite !Z.lor_spec in H. by vm_compute in H.
Qed.

Lemma uvmalloc_loop_spec w a n k l T fuel :
  LkKmem ∉ held w -> 0 <= newsz -> G a k l T -> aligned a -> old <= a ->
  a + Z.of_nat n * PGSIZE = top -> (n <= fuel)%nat ->
  exists k' l' T' r, uvmalloc_loop kend root a old newsz xperm fuel w k = Ret w k' r /\
    ((r = newsz /\ G top k' l' T' /\ (length l <= length l' + 3 * n)%nat) \/
     (r = 0 /\ G old k' l' T' /\ (length l < 3 * n)%nat)).
Proof.
  intros Hw Hn0. destruct (pgroundup_spec newsz) as [Hta Htr];
    [rewrite MAXVA_val in Hnew; unfold PGSIZE; lia|]. fold top in Hta, Htr.
  assert (Htop : top <= MAXVA) by (rewrite MAXVA_val in *; unfold aligned, PGSIZE in *; zdm).
  revert a k l T fuel. induction n as [|n IH]; intros a k l T fuel Gk Ha Hoa Han Hf.
  { exists k, l, T, newsz. replace a with top in * by lia. split; [|left; split_and!; [done..|lia]].
    destruct fuel; simpl; by rewrite (proj2 (Z.ltb_ge _ _)) by lia. }
  destruct fuel as [|fuel]; [lia|]. cbn [uvmalloc_loop].
  rewrite (proj2 (Z.ltb_lt _ _)) by (unfold PGSIZE in *; lia).
  assert (Hat : a + PGSIZE <= top) by (unfold PGSIZE in *; lia).
  assert (Hundo : forall k l T, G a k l T -> exists k' l',
            uvmdealloc kend root a old w k = Ret w k' old /\ G old k' l' T).
  { intros k1 l1 T1 G1. eapply grow_undo; [done..|unfold PGSIZE in *; lia]. }
  destruct l as [|p l].
  - assert (Hk : kmem_inv kend k []) by apply Gk.
    run_step (kalloc_nil kend w k Hw Hk). rewrite Z.eqb_refl.
    destruct (Hundo _ _ _ Gk) as (k' & l' & Hrun & G'). run_step Hrun.
    exists k', l', T, 0. split; [done|right]. split_and!; [done..|simpl; lia].
  - destruct (grow_round kend Hend k0 l0 T0 root old top flags byte user_perm_range
                (fun va _ _ => user_perm_leafy va) Hold0 Htop Hfree0 w a k p l T
                (fun m => memset m p 0 PGSIZE) Hw Gk Ha Hoa Hat)
      as (k1 & Hkalloc & Hp0 & k3 & r & l3 & T3 & Hmap & Hcase).
    { intros m Hm. split; [by apply zero_fill|apply zero_fill]. }
    { intros m i _ _ Hi. by apply zero_fill. }
    run_step Hkalloc. rewrite (proj2 (Z.eqb_neq _ _)) by done. unfold on_mem.
    rewrite run_modify. run_step Hmap.
    destruct Hcase as [(-> & G3 & Hlen)|(-> & Hlen & k4 & Hkfree & G4)].
    + rewrite Z.eqb_refl. cbv beta iota delta [negb].
      rewrite (u64_small (a + PGSIZE)) by (rewrite MAXVA_val in *; unfold PGSIZE in *; lia).
      destruct (IH (a + PGSIZE) k3 l3 T3 fuel G3) as (k' & l' & T' & r & Hrun & Hc);
        [by apply aligned_add|unfold PGSIZE in *; lia..|].
      exists k', l', T', r. split; [done|].
      destruct Hc as [(-> & G' & Hl)|(-> & G' & Hl)]; [left|right];
        (split_and!; [done..|]); simpl in *; lia.
    + change (negb (-1 =? 0)) with true. cbv match. run_step Hkfree.
      destruct (Hundo _ _ _ G4) as (k' & l' & Hrun & G'). run_step Hrun.
      exists k', l', T3, 0. split; [done|right]. split_and!; [done..|simpl in *; lia].
Qed.
End uvmalloc.

(** ** [uvmcopy] *)

(** The copy of the page [pa] into the page [p]. *)
Lemma copy_fill p pa m :
  mem_ok m -> mem_ok (memmove m p pa PGSIZE) /\ only_page p m (memmove m p pa PGSIZE) /\
  forall i, 0 <= i < PGSIZE -> ld8 (memmove m p pa PGSIZE) (p + i) = ld8 m (pa + i).
Proof.
  intros Hm. split_and!; [mem_ok| |].
  - intros b Hb. rewrite ld8_memmove, decide_False; [done|unfold PGSIZE in *; lia|done|done].
  - intros i Hi. rewrite ld8_memmove, decide_True; [f_equal; lia|unfold PGSIZE in *; lia|done|done].
Qed.

Section uvmcopy.
Context (k0 : kmem) (l0 : list Z) (To Tn : ptree) (old new sz : Z).
Let top : Z := PGROUNDUP sz.
Let flags (va : Z) : Z := PTE_FLAGS (leafpte (km_mem k0) To va).
Let byte (va i : Z) : Z := ld8 (km_mem k0) (leaf_pa k0 To va + i).
Context (Hsz : 0 <= sz <= MAXVA).
Context (Hpar : user_inv kend k0 l0 old To top).
Context (Hdisj : forall a, in_tree To a -> ~ in_tree Tn a).
Context (Hpages : forall va, aligned va -> 0 <= va < top -> ~ in_tree Tn (leaf_pa k0 To va)).
Context (Hfree0 : forall va, aligned va -> 0 <= va < top ->
           has (leafpte (km_mem k0) Tn va) PTE_V = false).

Let G := grow_inv kend k0 l0 Tn new 0 flags byte.

Lemma copy_flags va : 0 <= flags va < 1024.
Proof. unfold flags. rewrite PTE_FLAGS_alt. apply Z.mod_pos_bound. lia. Qed.

Lemma has_flags v : has v PTE_V = true -> Z.lor (PTE_FLAGS v) PTE_V = PTE_FLAGS v.
Proof.
  unfold has, PTE_FLAGS. intros H%negb_true_iff%Z.eqb_neq. apply Z.bits_inj'. intros n Hn.
  rewrite Z.lor_spec, Z.land_spec. destruct (decide (n = 0)) as [->|Hn0].
  - destruct (Z.testbit v 0) eqn:E; [done|]. exfalso. apply H. change PTE_V with (Z.ones 1).
    rewrite Z.land_ones by lia. change (2 ^ 1) with 2. rewrite Z.bit0_odd in E. by rewrite Zmod_odd, E.
  - change PTE_V with (2 ^ 0). rewrite Z.pow2_bits_false by done. by rewrite orb_false_r.
Qed.

Lemma copy_leafy va : aligned va -> 0 <= va < top -> Z.lor (flags va) PTE_V <> PTE_V.
Proof.
  intros Ha Hr. unfold flags. destruct Hpar as [_ [Hv Hl] _].
  rewrite has_flags by by apply Hv. by apply Hl.
Qed.

(** While the child grows, the parent's tables and pages stay as they were. *)
Section parent.
Context (a : Z) (k : kmem) (l : list Z) (T : ptree) (Gk : G a k l T).

Lemma parent_page q : aligned q -> q ∉ l0 -> ~ in_tree Tn q -> same_page (km_mem k0) (km_mem k) q.
Proof.
  intros Hq Hl Ht. apply (gi_frame _ _ _ _ _ _ _ _ _ _ _ _ Gk q Hq); [|done].
  intros H. by eapply gi_new in H as [?|?].
Qed.

Lemma parent_table q : in_tree To q -> same_page (km_mem k0) (km_mem k) q.
Proof.
  intros Hq. pose proof (ui_vm _ _ _ _ _ _ Hpar) as Hinv. apply parent_page.
  - destruct Hq as [path Hq]. by eapply pt_pages; [apply Hinv|].
  - by apply Hinv.
  - by apply Hdisj.
Qed.

Lemma parent_pt : pt_inv kend (km_mem k) old To.
Proof. eapply pt_inv_frame; [apply Hpar|]. apply parent_table. Qed.

Lemma parent_leaf va : leafpte (km_mem k) To va = leafpte (km_mem k0) To va.
Proof. apply leafpte_frame, parent_table. Qed.

Lemma parent_byte va i : aligned va -> 0 <= va < top -> 0 <= i < PGSIZE ->
  ld8 (km_mem k) (leaf_pa k0 To va + i) = byte va i.
Proof.
  intros Hva Hr Hi. destruct Hpar as [_ _ Hown]. unfold byte.
  apply (parent_page (leaf_pa k0 To va)); [by eapply or_page|by apply Hown|by apply Hpages|lia].
Qed.

(** The parent still owns its pages. *)
Lemma parent_inv : user_inv kend k l old To top.
Proof.
  destruct Hpar as [Hinv Hmap Hown]. split.
  - split; [apply Gk|apply parent_pt|].
    intros q Hq Hl. apply (vi_disj _ _ _ _ _ Hinv q Hq). by eapply gi_free.
  - eapply mapped_range_ext; [done..|]. intros. apply parent_leaf.
  - eapply own_range_ext; [done..|]. intros va Hva Hr. split; [apply parent_leaf|]. split.
    + intros Hl. apply (or_used _ _ _ _ _ _ Hown va Hva Hr). by eapply gi_free.
    + by apply (or_tree _ _ _ _ _ _ Hown).
Qed.

Lemma parent_copy p m va i :
  p ∈ l -> only_page p (km_mem k) m -> aligned va -> 0 <= va < top -> 0 <= i < PGSIZE ->
  ld8 m (leaf_pa k0 To va + i) = byte va i.
Proof.
  intros Hp Ho Hva Hr Hi. rewrite <-parent_byte by done. apply Ho.
  destruct Hpar as [_ _ Hown]. pose proof (or_page _ _ _ _ _ _ Hown va Hva Hr) as [Hpa _].
  assert (Hpo : page_ok kend p) by (eapply kmem_inv_page; [apply Gk|done]). destruct Hpo as [Hpo _].
  assert (Hne : leaf_pa k0 To va <> p).
  { intros Heq. apply (or_used _ _ _ _ _ _ Hown va Hva Hr). rewrite Heq. by eapply gi_free. }
  pose proof (aligned_apart _ p Hpa Hpo Hne). lia.
Qed.
End parent.

Lemma copy_undo w a k l T :
  LkKmem ∉ held w -> G a k l T -> aligned a -> 0 <= a <= top -> top <= MAXVA ->
  exists k' l', uvmunmap kend new 0 (a / PGSIZE) true w k = Ret w k' tt /\ G 0 k' l' T.
Proof.
  intros Hw Gk Ha Hr Htop.
  assert (Hn : 0 + a / PGSIZE * PGSIZE = a) by (unfold aligned, PGSIZE in *; zdm).
  destruct (gi_user _ _ _ _ _ _ _ _ _ _ _ _ Gk) as [Hinv Hmap Hown].
  assert (Hal0 : aligned 0) by done.
  destruct (uvmunmap_run kend Hend w k l new T 0 (a / PGSIZE) true) as (k' & Hrun & Hpost);
    [done|done|done|done|unfold PGSIZE; zdm|lia|by rewrite Hn|by rewrite Hn|].
  exists k', (rev_append (pas_from k T 0 (npages 0 a)) l). split; [done|].
  eapply (grow_shrink kend Hend k0 l0 Tn new 0 top); try done.
  unfold npages. by rewrite Z.sub_0_r.
Qed.

Lemma uvmcopy_loop_spec w a n k l T fuel :
  LkKmem ∉ held w -> G a k l T -> aligned a -> 0 <= a ->
  a + Z.of_nat n * PGSIZE = top -> (n <= fuel)%nat ->
  exists k' l' T' r, uvmcopy_loop kend old new a sz fuel w k = Ret w k' r /\
    ((r = 0 /\ G top k' l' T' /\ (length l <= length l' + 3 * n)%nat) \/
     (r = -1 /\ G 0 k' l' T' /\ (length l < 3 * n)%nat)).
Proof.
  intros Hw. destruct (pgroundup_spec sz) as [Hta Htr];
    [rewrite MAXVA_val in Hsz; unfold PGSIZE; lia|]. fold top in Hta, Htr.
  assert (Htop : top <= MAXVA) by (rewrite MAXVA_val in *; unfold aligned, PGSIZE in *; zdm).
  revert a k l T fuel. induction n as [|n IH]; intros a k l T fuel Gk Ha H0 Han Hf.
  { exists k, l, T, 0. replace a with top in * by lia. split; [|left; split_and!; [done..|lia]].
    destruct fuel; simpl; by rewrite (proj2 (Z.ltb_ge _ _)) by lia. }
  destruct fuel as [|fuel]; [lia|]. cbn [uvmcopy_loop].
  rewrite (proj2 (Z.ltb_lt _ _)) by (unfold PGSIZE in *; lia).
  assert (Hat : a + PGSIZE <= top) by (unfold PGSIZE in *; lia).
  assert (Hra : 0 <= a < top) by (unfold PGSIZE in *; lia).
  pose proof (mr_valid _ _ _ _ (ui_map _ _ _ _ _ _ Hpar) a Ha Hra) as Hv.
  run_step (walk_lookup kend Hend w k old To a (parent_pt a k l T Gk) ltac:(lia)).
  pose proof (valid_table _ _ _ Hv) as Hsome.
  rewrite (proj2 (Z.eqb_neq _ _))
    by (by eapply (leafslot_nonzero kend Hend), Hsome; eapply parent_pt).
  unfold ldpte. rewrite run_gets, ldpte_leaf, (parent_leaf a k l T Gk), Hv by done.
  change (negb true) with false. cbv beta iota zeta. fold (flags a) (leaf_pa k0 To a).
  destruct l as [|p l].
  - assert (Hk : kmem_inv kend k []) by apply Gk.
    run_step (kalloc_nil kend w k Hw Hk). rewrite Z.eqb_refl.
    destruct (copy_undo w a k [] T Hw Gk Ha ltac:(lia) Htop) as (k' & l' & Hrun & G').
    run_step Hrun. exists k', l', T, (-1). split; [done|right]. split_and!; [done..|simpl; lia].
  - destruct (grow_round kend Hend k0 l0 Tn new 0 top flags byte copy_flags
                copy_leafy ltac:(done) Htop Hfree0 w a k p l T
                (fun m => memmove m p (leaf_pa k0 To a) PGSIZE) Hw Gk Ha H0 Hat)
      as (k1 & Hkalloc & Hp0 & k3 & r & l3 & T3 & Hmap & Hcase).
    { intros m Hm. split; by apply copy_fill. }
    { intros m i Hm Hom Hi. destruct (copy_fill p (leaf_pa k0 To a) m Hm) as (_ & _ & ->); [|done].
      eapply (parent_copy a k (p :: l) T Gk p); [left|done..]. }
    run_step Hkalloc. rewrite (proj2 (Z.eqb_neq _ _)) by done. unfold on_mem.
    rewrite run_modify. run_step Hmap.
    destruct Hcase as [(-> & G3 & Hlen)|(-> & Hlen & k4 & Hkfree & G4)].
    + rewrite Z.eqb_refl. cbv beta iota delta [negb].
      rewrite (u64_small (a + PGSIZE)) by (rewrite MAXVA_val in *; unfold PGSIZE in *; lia).
      destruct (IH (a + PGSIZE) k3 l3 T3 fuel G3) as (k' & l' & T' & r & Hrun & Hc);
        [by apply aligned_add|unfold PGSIZE in *; lia..|].
      exists k', l', T', r. split; [done|].
      destruct Hc as [(-> & G' & Hl)|(-> & G' & Hl)]; [left|right];
        (split_and!; [done..|]); simpl in *; lia.
    + change (negb (-1 =? 0)) with true. cbv match. run_step Hkfree.
      destruct (copy_undo w a k4 [p] T3 Hw G4 Ha ltac:(lia) Htop) as (k' & l' & Hrun & G').
      run_step Hrun.
      exists k', l', T3, (-1). split; [done|right]. split_and!; [done..|simpl in *; lia].
Qed.
End uvmcopy.

(** ** The functions *)

Lemma uvmalloc_run w k l root T oldsz newsz xperm :
  LkKmem ∉ held w -> user_inv kend k l root T (PGROUNDUP oldsz) ->
  0 <= oldsz <= newsz -> newsz <= MAXVA -> 0 <= xperm < 1024 ->
  (forall va, aligned va -> PGROUNDUP oldsz <= va < PGROUNDUP newsz ->
     has (leafpte (km_mem k) T va) PTE_V = false) ->
  exists k' l' T' r, uvmalloc kend root oldsz newsz xperm w k = Ret w k' r /\
    let post := grow_inv kend k l T root (PGROUNDUP oldsz) (fun _ => user_perm xperm) (fun _ _ => 0) in
    let n := npages (PGROUNDUP oldsz) (PGROUNDUP newsz) in
    ((r = newsz /\ post (PGROUNDUP newsz) k' l' T' /\ (length l <= length l' + 3 * n)%nat) \/
     (r = 0 /\ post (PGROUNDUP oldsz) k' l' T' /\ (length l < 3 * n)%nat)).
Proof.
  intros Hw Hu Ho Hn Hx Hfree. pose proof Hn as Hn'. rewrite MAXVA_val in Hn'.
  destruct (pgroundup_spec oldsz) as [Ha Hr]; [unfold PGSIZE; lia|].
  destruct (pgroundup_spec newsz) as [Hna Hnr]; [unfold PGSIZE; lia|].
  assert (Hle : PGROUNDUP oldsz <= PGROUNDUP newsz) by (apply pgroundup_mono; unfold PGSIZE; lia).
  pose proof (npages_range _ _ Ha Hna Hle) as Hnp.
  unfold uvmalloc. rewrite (proj2 (Z.ltb_ge _ _)) by lia. cbv zeta.
  eapply (uvmalloc_loop_spec k l T root (PGROUNDUP oldsz) newsz xperm); try done; [lia|lia|by apply grow_start|].
  unfold npages. unfold aligned, PGSIZE in *. apply Z2Nat.inj_le; zdm.
Qed.

Lemma uvmcopy_run w k l old To new Tn sz :
  LkKmem ∉ held w -> user_inv kend k l old To (PGROUNDUP sz) -> vm_inv kend k l new Tn ->
  0 <= sz <= MAXVA ->
  (forall a, in_tree To a -> ~ in_tree Tn a) ->
  (forall va, aligned va -> 0 <= va < PGROUNDUP sz -> ~ in_tree Tn (leaf_pa k To va)) ->
  (forall va, aligned va -> 0 <= va < PGROUNDUP sz ->
     has (leafpte (km_mem k) Tn va) PTE_V = false) ->
  exists k' l' T' r, uvmcopy kend old new sz w k = Ret w k' r /\
    let post := grow_inv kend k l Tn new 0 (fun va => PTE_FLAGS (leafpte (km_mem k) To va))
                  (fun va i => ld8 (km_mem k) (leaf_pa k To va + i)) in
    let n := npages 0 (PGROUNDUP sz) in
    user_inv kend k' l' old To (PGROUNDUP sz) /\
    (forall va, leafpte (km_mem k') To va = leafpte (km_mem k) To va) /\
    (forall va i, aligned va -> 0 <= va < PGROUNDUP sz -> 0 <= i < PGSIZE ->
       ld8 (km_mem k') (leaf_pa k To va + i) = ld8 (km_mem k) (leaf_pa k To va + i)) /\
    ((r = 0 /\ post (PGROUNDUP sz) k' l' T' /\ (length l <= length l' + 3 * n)%nat) \/
     (r = -1 /\ post 0 k' l' T' /\ (length l < 3 * n)%nat)).
Proof.
  intros Hw Hu Hv Hsz Hd Hp Hfree. pose proof Hsz as Hsz'. rewrite MAXVA_val in Hsz'.
  destruct (pgroundup_spec sz) as [Ha Hr]; [unfold PGSIZE; lia|].
  assert (Ha0 : aligned 0) by done.
  pose proof (npages_range 0 _ Ha0 Ha ltac:(lia)) as Hnp.
  destruct (uvmcopy_loop_spec k l To Tn old new sz Hsz Hu Hd Hp Hfree w 0
              (npages 0 (PGROUNDUP sz)) k l Tn (Z.to_nat ((sz + PGSIZE - 1) / PGSIZE)))
    as (k' & l' & T' & r & Hrun & Hres); [done| |done|done|lia| |].
  - apply grow_start; [done|]. split; [done|..]; split; intros; lia.
  - unfold npages. unfold aligned, PGSIZE in *. apply Z2Nat.inj_le; zdm.
  - exists k', l', T', r. split; [done|].
    assert (exists hi, grow_inv kend k l Tn new 0 (fun va => PTE_FLAGS (leafpte (km_mem k) To va))
              (fun va i => ld8 (km_mem k) (leaf_pa k To va + i)) hi k' l' T') as [hi G'].
    { destruct Hres as [(_ & G' & _)|(_ & G' & _)]; by eexists. }
    split; [by eapply (parent_inv k l To Tn)|]. split; [by eapply (parent_leaf k l To Tn)|].
    split; [by eapply (parent_byte k l To Tn)|]. done.
Qed.

(** An empty address space. *)
Lemma uvmcreate_run w k p l :
  LkKmem ∉ held w -> kmem_inv kend k (p :: l) ->
  exists k', uvmcreate w k = Ret w k' p /\ user_inv kend k' l p {[ [] := p ]} 0 /\
    only_page p (km_mem k) (km_mem k').
Proof.
  intros Hw Hk. unfold uvmcreate. run_step (kalloc_cons kend Hend w k p l Hw Hk).
  assert (Hp : page_ok kend p) by (eapply kmem_inv_page; [done|left]).
  pose proof (page_ok_range kend Hend p Hp). rewrite (proj2 (Z.eqb_neq _ _)) by lia.
  unfold on_mem. rewrite run_modify. eexists. split; [done|].
  pose proof (kmem_inv_pop kend k p l Hk) as Hk1.
  assert (Hpl : p ∉ l) by (destruct Hk as (_ & Hn & _); by apply NoDup_cons in Hn as [? _]).
  set (k' := set_mem _ _). split.
  - split; [|by split; intros; lia..]. split.
    + apply kmem_inv_set_mem; [done|destruct Hk1 as (_ & _ & Hm); by apply mem_ok_memset|].
      intros q Hq b Hb. simpl km_mem. rewrite (ld8_memset (memset _ _ _ _)), decide_False; [done|].
      assert (Hq' : page_ok kend q) by (by eapply kmem_inv_page).
      pose proof (aligned_apart q p (proj1 Hq') (proj1 Hp) ltac:(intros ->; done)).
      unfold PGSIZE in *. lia.
    + split.
      * by rewrite lookup_singleton_eq.
      * intros q a [<- _]%lookup_singleton_Some. simpl. lia.
      * intros q i a [Heq _]%lookup_singleton_Some. by destruct q.
      * intros q i a [Heq _]%lookup_singleton_Some. by destruct q.
      * by intros q a [<- <-]%lookup_singleton_Some.
      * intros q r a [<- <-]%lookup_singleton_Some [<- _]%lookup_singleton_Some. done.
      * intros q a i [<- <-]%lookup_singleton_Some _ Hi. simpl.
        rewrite lookup_singleton_ne by done. simpl km_mem.
        rewrite ld64_memset_0 by (unfold PGSIZE; lia). done.
    + intros a [q [_ <-]%lookup_singleton_Some]. done.
  - intros b Hb. simpl km_mem. rewrite !ld8_memset, !decide_False by (unfold PGSIZE in *; lia). done.
Qed.
End spec.
