(* ===== verification/VmCopy.v ===== *)
(** * Copying between the kernel and user memory

    [walkaddr], [copyin], [copyout] and [copyinstr] against the user's view of
    an address space: [uget m T va] is the byte a user access to [va] finds. *)

From S2P Require Import Prelude Machine Mem Layout Kalloc Vm VmInv VmWalk VmMap VmUser VmAlloc.

(** Physical page of the user page [va], 0 when a user access would fault. *)
Definition upa (m : mem) (T : ptree) (va : Z) : Z :=
  let v := leafpte m T va in
  if (va <? MAXVA) && has v PTE_V && has v PTE_U then PTE2PA v else 0.

Definition uget (m : mem) (T : ptree) (va : Z) : option Z :=
  let pa := upa m T (PGROUNDDOWN va) in
  if pa =? 0 then None else Some (ld8 m (pa + (va - PGROUNDDOWN va))).

(** The user pages are pages of their own. *)
Record upages_ok (kend : Z) (m : mem) (l : list Z) (T : ptree) : Prop := {
  up_page va : aligned va -> 0 <= va < MAXVA -> upa m T va <> 0 -> page_ok kend (upa m T va);
  up_free va : aligned va -> 0 <= va < MAXVA -> upa m T va <> 0 -> upa m T va ∉ l;
  up_tree va : aligned va -> 0 <= va < MAXVA -> upa m T va <> 0 -> ~ in_tree T (upa m T va);
  up_inj va va' : aligned va -> 0 <= va < MAXVA -> aligned va' -> 0 <= va' < MAXVA ->
    upa m T va <> 0 -> upa m T va = upa m T va' -> va = va' }.

(** The bytes at [va], ..., [va + n - 1]. *)
Fixpoint ugets (m : mem) (T : ptree) (va : Z) (n : nat) : option (list Z) :=
  match n with
  | O => Some []
  | S n => b ← uget m T va; bs ← ugets m T (va + 1) n; Some (b :: bs)
  end.

(** The string at [va], with its NUL, if it ends within [n] bytes. *)
Fixpoint ustr (m : mem) (T : ptree) (va : Z) (n : nat) : option (list Z) :=
  match n with
  | O => None
  | S n =>
      b ← uget m T va;
      if b =? 0 then Some [0] else bs ← ustr m T (va + 1) n; Some (b :: bs)
  end.

(** What a copy of [bs] to [va] does: the user finds [bs] there and everything
    else as before, and only the physical bytes behind those addresses change. *)
Record ucopied (m m' : mem) (T : ptree) (va : Z) (bs : list Z) : Prop := {
  uc_upa va' : upa m' T va' = upa m T va';
  uc_mapped va' : va <= va' < va + Z.of_nat (length bs) ->
    va' < MAXVA /\ upa m T (PGROUNDDOWN va') <> 0;
  uc_get va' : 0 <= va' < MAXVA ->
    uget m' T va' =
    if decide (va <= va' < va + Z.of_nat (length bs)) then bs !! Z.to_nat (va' - va)
    else uget m T va';
  uc_frame b : ld8 m' b <> ld8 m b ->
    exists va', va <= va' < va + Z.of_nat (length bs) /\
      b = upa m T (PGROUNDDOWN va') + (va' - PGROUNDDOWN va') }.

Section copy.
Variable kend : Z.
Hypothesis Hend : KERNBASE <= kend <= PHYSTOP.

Lemma walkaddr_run w k root T va :
  pt_inv kend (km_mem k) root T -> walkaddr root va w k = Ret w k (upa (km_mem k) T va).
Proof.
  intros Hpt. unfold walkaddr, upa. destruct (decide (va < MAXVA)) as [Hlt|Hge].
  - rewrite (proj2 (Z.leb_gt _ _)), (proj2 (Z.ltb_lt _ _)) by done.
    run_step (walk_lookup kend Hend w k root T va Hpt Hlt). simpl andb.
    destruct (T !! vpath va) as [a|] eqn:E.
    + rewrite (proj2 (Z.eqb_neq _ _)) by (eapply (leafslot_nonzero kend Hend); [done|by eexists]).
      unfold ldpte. rewrite run_gets, ldpte_leaf by by eexists.
      by destruct (has _ PTE_V), (has _ PTE_U).
    + unfold leafslot, leafpte. by rewrite E.
  - by rewrite (proj2 (Z.leb_le _ _)), (proj2 (Z.ltb_ge _ _)) by lia.
Qed.

Lemma upa_small m T va : upa m T va <> 0 -> va < MAXVA.
Proof. unfold upa. destruct (va <? MAXVA) eqn:E; [by zbool|done]. Qed.

Lemma pgrounddown_page va j :
  0 <= va -> 0 <= j -> va + j < PGROUNDDOWN va + PGSIZE -> va + j < 2 ^ 64 ->
  PGROUNDDOWN (va + j) = PGROUNDDOWN va.
Proof. intros. rewrite !pgrounddown_alt in * by lia. unfold PGSIZE in *. zdm. Qed.

Lemma ugets_app m T va n n' :
  ugets m T va (n + n') =
  bs ← ugets m T va n; bs' ← ugets m T (va + Z.of_nat n) n'; Some (bs ++ bs').
Proof.
  revert va. induction n as [|n IH]; intros va; simpl.
  - rewrite Z.add_0_r. by destruct (ugets m T va n').
  - destruct (uget m T va) as [b|]; simpl; [|done]. rewrite IH.
    replace (va + Z.of_nat (S n)) with (va + 1 + Z.of_nat n) by lia.
    destruct (ugets m T (va + 1) n); simpl; [|done]. by destruct (ugets m T _ n').
Qed.

(** Inside one page the bytes are those of the physical page. *)
Lemma ugets_page m T va n :
  0 <= va -> va + Z.of_nat n <= PGROUNDDOWN va + PGSIZE ->
  upa m T (PGROUNDDOWN va) <> 0 ->
  ugets m T va n =
  Some (bytes_at m (upa m T (PGROUNDDOWN va) + (va - PGROUNDDOWN va)) n).
Proof.
  intros H0 Hn Hpa. pose proof (upa_small _ _ _ Hpa) as Hs. rewrite MAXVA_val in Hs.
  assert (Hg : forall j, 0 <= j < Z.of_nat n ->
            uget m T (va + j) = Some (ld8 m (upa m T (PGROUNDDOWN va) + (va - PGROUNDDOWN va) + j))).
  { intros j Hj. unfold uget. rewrite pgrounddown_page by (unfold PGSIZE in *; lia).
    rewrite (proj2 (Z.eqb_neq _ _)) by done. do 2 f_equal. lia. }
  clear Hn. revert Hg. generalize (upa m T (PGROUNDDOWN va) + (va - PGROUNDDOWN va)). intros a.
  clear. revert va a. induction n as [|n IH]; intros va a Hg; simpl; [done|].
  pose proof (Hg 0 ltac:(lia)) as Hg0. rewrite !Z.add_0_r in Hg0. rewrite Hg0. simpl.
  rewrite bytes_at_S, (IH (va + 1) (a + 1)); [done|]. intros j Hj.
  replace (va + 1 + j) with (va + (1 + j)) by lia. rewrite Hg by lia. do 2 f_equal. lia.
Qed.

(** The size of the next chunk. *)
Lemma chunk va len : 0 <= va < 2 ^ 64 -> 0 < len ->
  let n := PGSIZE - (va - PGROUNDDOWN va) in
  let n := if len <? n then len else n in
  0 < n <= len /\ va + n <= PGROUNDDOWN va + PGSIZE /\
  (n = len \/ va + n = PGROUNDDOWN va + PGSIZE).
Proof.
  intros Hva Hlen. destruct (pgrounddown_spec va Hva) as [_ Hr]. cbv zeta.
  destruct (len <? _) eqn:E; zbool; lia.
Qed.

(** [ugets] chunk by chunk. *)
Lemma ugets_split m T va len n :
  0 < n <= len ->
  ugets m T va (Z.to_nat len) =
  bs ← ugets m T va (Z.to_nat n); bs' ← ugets m T (va + n) (Z.to_nat (len - n)); Some (bs ++ bs').
Proof.
  intros Hn. replace (Z.to_nat len) with (Z.to_nat n + Z.to_nat (len - n))%nat by lia.
  by rewrite ugets_app, Z2Nat.id by lia.
Qed.

Lemma ugets_fault m T va len : 0 < len -> upa m T (PGROUNDDOWN va) = 0 ->
  ugets m T va (Z.to_nat len) = None.
Proof.
  intros Hlen Hpa. destruct (Z.to_nat len) as [|n] eqn:E; [lia|]. simpl.
  unfold uget. by rewrite Hpa.
Qed.

Lemma copyin_loop_spec w k root T va len dst fuel :
  pt_inv kend (km_mem k) root T -> 0 <= va < 2 ^ 64 -> len <= Z.of_nat fuel ->
  exists r bs, copyin_loop root va len dst fuel w k = Ret w k (r, dst ++ bs) /\
    match ugets (km_mem k) T va (Z.to_nat len) with
    | Some bs' => r = 0 /\ bs = bs'
    | None => r = -1
    end.
Proof.
  intros Hpt. revert va len dst. induction fuel as [|fuel IH]; intros va len dst Hva Hf;
    cbn [copyin_loop]; (destruct (0 <? len) eqn:E; zbool;
      [|exists 0, []; rewrite app_nil_r; split; [done|]; by rewrite Z2Nat.nonpos by lia]); [lia|].
  run_step (walkaddr_run w k root T (PGROUNDDOWN va) Hpt). cbv beta.
  destruct (upa (km_mem k) T (PGROUNDDOWN va) =? 0) eqn:Epa; zbool.
  { exists (-1), []. rewrite app_nil_r, ugets_fault by done. done. }
  pose proof (upa_small _ _ _ Epa) as Hs. rewrite MAXVA_val in Hs.
  pose proof (chunk va len Hva E) as Hch. cbv zeta in *.
  set (n := if len <? _ then len else _) in *. destruct Hch as (Hn & Hnp & Hlast).
  rewrite run_gets, (u64_small (PGROUNDDOWN va + PGSIZE))
    by (pose proof (pgrounddown_spec va Hva); unfold PGSIZE in *; lia).
  rewrite (ugets_split _ _ va len n), (ugets_page _ _ va) by (done || lia). simpl mbind.
  unfold load_bytes. set (bs0 := bytes_at _ _ _).
  destruct Hlast as [Hlast|Hlast].
  - rewrite Hlast, Z.sub_diag. exists 0, bs0. split.
    + destruct fuel; simpl; done.
    + simpl. by rewrite app_nil_r.
  - rewrite <-Hlast. destruct (IH (va + n) (len - n) (dst ++ bs0)) as (r & bs & Hrun & Hres);
      [clearbody n; unfold PGSIZE in *; lia..|].
    rewrite Hrun. exists r, (bs0 ++ bs). rewrite app_assoc. split; [done|].
    destruct (ugets (km_mem k) T (va + n) _) as [bs'|]; simpl; [|done].
    destruct Hres as [-> ->]. done.
Qed.

(** ** [copyout] *)

Lemma mem_ok_store_bytes m a bs : mem_ok m -> mem_ok (store_bytes m a bs).
Proof. revert m a. induction bs as [|b bs IH]; intros m a Hm; simpl; [done|]. apply IH. mem_ok. Qed.

Lemma ld8_store_bytes m a bs b :
  Forall (fun c => 0 <= c < 256) bs ->
  ld8 (store_bytes m a bs) b =
  if decide (a <= b < a + Z.of_nat (length bs)) then default 0 (bs !! Z.to_nat (b - a))
  else ld8 m b.
Proof.
  revert m a. induction bs as [|c bs IH]; intros m a Hbs; simpl length; simpl store_bytes.
  { by rewrite decide_False by (simpl; lia). }
  inversion_clear Hbs as [|? ? Hc Hbs']. rewrite IH by done.
  destruct (decide (b = a)) as [->|Hne].
  - rewrite decide_False, decide_True by lia. rewrite Z.sub_diag. simpl.
    by rewrite ld8_st8_eq, u8_small by done.
  - repeat case_decide; try lia; [|by rewrite ld8_st8_ne by done].
    replace (Z.to_nat (b - a)) with (S (Z.to_nat (b - (a + 1)))) by lia. done.
Qed.

(** One chunk. *)
Section chunk.
Context (k : kmem) (l : list Z) (root : Z) (T : ptree) (va : Z) (bs : list Z).
Context (Hinv : vm_inv kend k l root T) (Hup : upages_ok kend (km_mem k) l T).
Context (Hbs : Forall (fun c => 0 <= c < 256) bs) (Hva : 0 <= va < 2 ^ 64).
Context (Hin : va + Z.of_nat (length bs) <= PGROUNDDOWN va + PGSIZE).
Context (Hpa : upa (km_mem k) T (PGROUNDDOWN va) <> 0).

Let p : Z := upa (km_mem k) T (PGROUNDDOWN va).
Let m' : mem := store_bytes (km_mem k) (p + (va - PGROUNDDOWN va)) bs.

Lemma chunk_page : aligned (PGROUNDDOWN va) /\ 0 <= PGROUNDDOWN va < MAXVA.
Proof.
  destruct (pgrounddown_spec va Hva) as [Ha Hr]. split; [done|].
  pose proof (upa_small _ _ _ Hpa). split; [|done].
  rewrite pgrounddown_alt by done. unfold PGSIZE. zdm.
Qed.

Lemma chunk_only : only_page p (km_mem k) m'.
Proof.
  intros b Hb. destruct (pgrounddown_spec va Hva) as [_ Hr].
  unfold m'. rewrite ld8_store_bytes, decide_False by (done || lia). done.
Qed.

Lemma chunk_vm : vm_inv kend (set_mem m' k) l root T.
Proof.
  destruct chunk_page as [Ha Hr]. apply (fill_vm kend k l root T p); [done| | | | |].
  - by apply (up_page _ _ _ _ Hup).
  - by apply (up_free _ _ _ _ Hup).
  - by apply (up_tree _ _ _ _ Hup).
  - apply mem_ok_store_bytes, Hinv.
  - apply chunk_only.
Qed.

Lemma chunk_upa va' : upa m' T va' = upa (km_mem k) T va'.
Proof.
  destruct chunk_page as [Ha Hr].
  assert (Heq : leafpte m' T va' = leafpte (km_mem k) T va').
  { eapply (only_page_leaf kend); [apply Hinv| | |apply chunk_only].
    - by apply (up_page _ _ _ _ Hup).
    - by apply (up_tree _ _ _ _ Hup). }
  unfold upa. by rewrite Heq.
Qed.

(** Bytes of the same page, and of other pages. *)
Lemma chunk_same va' : 0 <= va' < MAXVA -> PGROUNDDOWN va' = PGROUNDDOWN va ->
  uget m' T va' =
  if decide (va <= va' < va + Z.of_nat (length bs)) then bs !! Z.to_nat (va' - va)
  else uget (km_mem k) T va'.
Proof.
  intros Hr Heq. unfold uget. rewrite chunk_upa, Heq, (proj2 (Z.eqb_neq _ _)) by done.
  unfold m' at 1. rewrite ld8_store_bytes by done. fold p.
  destruct (decide (va <= va' < va + Z.of_nat (length bs))) as [Hd|Hd].
  - rewrite decide_True by lia.
    destruct (lookup_lt_is_Some_2 bs (Z.to_nat (va' - va))) as [c Hc]; [lia|].
    replace (p + (va' - PGROUNDDOWN va) - (p + (va - PGROUNDDOWN va))) with (va' - va) by lia.
    by rewrite Hc.
  - by rewrite decide_False by lia.
Qed.

Lemma chunk_other va' : 0 <= va' < MAXVA -> PGROUNDDOWN va' <> PGROUNDDOWN va ->
  uget m' T va' = uget (km_mem k) T va'.
Proof.
  intros Hr Hne. destruct chunk_page as [Ha Hra].
  assert (Hr' : 0 <= va' < 2 ^ 64) by (rewrite MAXVA_val in Hr; lia).
  destruct (pgrounddown_spec va' Hr') as [Ha' Hra'].
  assert (H0' : 0 <= PGROUNDDOWN va') by (rewrite pgrounddown_alt by done; unfold PGSIZE; zdm).
  unfold uget. rewrite chunk_upa. destruct (_ =? 0) eqn:E; [done|]. zbool. f_equal.
  apply chunk_only.
  pose proof (up_page _ _ _ _ Hup _ Ha' ltac:(lia) E) as [Hp' _].
  pose proof (up_page _ _ _ _ Hup _ Ha Hra Hpa) as [Hp _].
  assert (Hpp : upa (km_mem k) T (PGROUNDDOWN va') <> p).
  { intros Heq. apply Hne. eapply (up_inj _ _ _ _ Hup); done || lia. }
  pose proof (aligned_apart _ p Hp' Hp Hpp). lia.
Qed.

Lemma chunk_copied : ucopied (km_mem k) m' T va bs.
Proof.
  pose proof (upa_small _ _ _ Hpa) as Hs. rewrite MAXVA_val in Hs.
  assert (Hpg : forall j, 0 <= j < Z.of_nat (length bs) -> PGROUNDDOWN (va + j) = PGROUNDDOWN va).
  { intros j Hj. apply pgrounddown_page; unfold PGSIZE in *; lia. }
  split; [apply chunk_upa| | |].
  - intros va' Hd. replace va' with (va + (va' - va)) by lia. rewrite Hpg by lia. split; [|done].
    destruct chunk_page as [Ha _]. rewrite MAXVA_val. unfold aligned, PGSIZE in *. zdm.
  - intros va' Hr. destruct (decide (PGROUNDDOWN va' = PGROUNDDOWN va)) as [Heq|Hne].
    + by apply chunk_same.
    + rewrite chunk_other by done. rewrite decide_False; [done|]. intros Hd. apply Hne.
      replace va' with (va + (va' - va)) by lia. apply Hpg. lia.
  - intros b Hb. unfold m' in Hb. rewrite ld8_store_bytes in Hb by done.
    case_decide as Hd; [|done]. exists (va + (b - (p + (va - PGROUNDDOWN va)))).
    rewrite Hpg by lia. split; [lia|]. fold p. lia.
Qed.
End chunk.

Lemma ucopied_trans m m1 m2 T va bs1 bs2 :
  ucopied m m1 T va bs1 -> ucopied m1 m2 T (va + Z.of_nat (length bs1)) bs2 ->
  ucopied m m2 T va (bs1 ++ bs2).
Proof.
  intros [U1 M1 G1 F1] [U2 M2 G2 F2]. split.
  - intros va'. by rewrite U2.
  - intros va'. rewrite length_app. intros Hr.
    destruct (decide (va' < va + Z.of_nat (length bs1))) as [Hlt|Hge]; [apply M1; lia|].
    rewrite <-U1. apply M2. lia.
  - intros va' Hr. rewrite G2, G1 by done. rewrite length_app.
    repeat case_decide; try lia; [| |done].
    + rewrite lookup_app_r by lia. f_equal. lia.
    + by rewrite lookup_app_l by lia.
  - intros b Hb. rewrite length_app. destruct (decide (ld8 m1 b = ld8 m b)) as [Heq|Hne].
    + destruct (F2 b) as (va' & Hr & ->); [congruence|]. exists va'. rewrite U1.
      split; [lia|done].
    + destruct (F1 b Hne) as (va' & Hr & ->). exists va'. split; [lia|done].
Qed.

Lemma ucopied_refl m T va : ucopied m m T va [].
Proof.
  split; [done| | |done]; intros va' Hr; [simpl in Hr; lia|].
  by rewrite decide_False by (simpl; lia).
Qed.

Lemma ucopied_upages m m' l T va bs :
  ucopied m m' T va bs -> upages_ok kend m l T -> upages_ok kend m' l T.
Proof.
  intros [U _ _ _] [H1 H2 H3 H4].
  split; intros va'; rewrite !U; [apply H1|apply H2|apply H3|].
  intros va''. rewrite !U. apply H4.
Qed.

Lemma uget_None m T va : uget m T va = None <-> upa m T (PGROUNDDOWN va) = 0.
Proof. unfold uget. destruct (_ =? 0) eqn:E; zbool; [done|]. by split. Qed.

Lemma copyout_loop_spec w k l root T va src fuel :
  vm_inv kend k l root T -> upages_ok kend (km_mem k) l T -> 0 <= va < 2 ^ 64 ->
  Forall (fun c => 0 <= c < 256) src -> (length src <= fuel)%nat ->
  exists k' r j, copyout_loop root va src fuel w k = Ret w k' r /\ vm_inv kend k' l root T /\
    upages_ok kend (km_mem k') l T /\ ucopied (km_mem k) (km_mem k') T va (take j src) /\
    ((r = 0 /\ j = length src) \/
     (r = -1 /\ (j < length src)%nat /\ uget (km_mem k) T (va + Z.of_nat j) = None)).
Proof.
  revert k va src. induction fuel as [|fuel IH]; intros k va src Hinv Hup Hva Hsrc Hf;
    cbn [copyout_loop]; (destruct (0 <? Z.of_nat (length src)) eqn:E; zbool;
      [|exists k, 0, 0%nat; split_and!; [done..|apply ucopied_refl|left; lia]]); [lia|].
  run_step (walkaddr_run w k root T (PGROUNDDOWN va) (vi_pt _ _ _ _ _ Hinv)). cbv beta.
  destruct (upa (km_mem k) T (PGROUNDDOWN va) =? 0) eqn:Epa; zbool.
  { exists k, (-1), 0%nat. split_and!; [done..|apply ucopied_refl|]. right.
    split_and!; [done|lia|]. rewrite Z.add_0_r. by apply uget_None. }
  pose proof (upa_small _ _ _ Epa) as Hs. rewrite MAXVA_val in Hs.
  pose proof (chunk va _ Hva E) as Hch. cbv zeta in *.
  set (n := if _ <? _ then _ else _) in *. clearbody n. destruct Hch as (Hn & Hnp & Hlast).
  unfold on_mem. rewrite run_modify, (u64_small (PGROUNDDOWN va + PGSIZE))
    by (pose proof (pgrounddown_spec va Hva); unfold PGSIZE in *; lia).
  set (bs := take (Z.to_nat n) src).
  assert (Hlen : Z.of_nat (length bs) = n) by (unfold bs; rewrite length_take; lia).
  assert (Hbs : Forall (fun c => 0 <= c < 256) bs) by by apply Forall_take.
  rewrite <-Hlen in Hnp.
  pose proof (chunk_vm k l root T va bs Hinv Hup Hbs Hva Hnp Epa) as Hinv1.
  pose proof (chunk_copied k l root T va bs Hinv Hup Hbs Hva Hnp Epa) as Hc1.
  set (k1 := set_mem _ k) in *. change (store_bytes _ _ bs) with (km_mem k1) in Hc1.
  assert (Hsplit : src = bs ++ drop (Z.to_nat n) src) by (unfold bs; by rewrite take_drop).
  destruct Hlast as [Hlast|Hlast].
  - exists k1, 0, (length src). rewrite drop_ge by lia. split_and!.
    + by destruct fuel.
    + done.
    + by eapply ucopied_upages.
    + rewrite firstn_all. unfold bs in Hc1. by rewrite take_ge in Hc1 by lia.
    + by left.
  - rewrite <-Hlast. destruct (IH k1 (va + n) (drop (Z.to_nat n) src) Hinv1)
      as (k' & r & j & Hrun & Hinv' & Hup' & Hc' & Hres);
      [by eapply ucopied_upages|unfold PGSIZE in *; lia|by apply Forall_drop|rewrite length_drop; lia|].
    exists k', r, (length bs + j)%nat. split_and!; [done..| |].
    + rewrite Hsplit at 1. rewrite take_app_add. eapply ucopied_trans; [done|]. by rewrite Hlen.
    + rewrite length_drop in Hres. destruct Hres as [[-> ->]|(-> & Hj & Hu)]; [left; lia|right].
      split_and!; [done|lia|]. apply uget_None. apply uget_None in Hu.
      rewrite (uc_upa _ _ _ _ _ Hc1) in Hu. rewrite <-Hu. do 2 f_equal. lia.
Qed.

(** ** [copyinstr] *)

Lemma copyinstr_page_acc m p n dst :
  copyinstr_page m p n dst =
  ((copyinstr_page m p n []).1, dst ++ (copyinstr_page m p n []).2).
Proof.
  revert p dst. induction n as [|n IH]; intros p dst; simpl; [by rewrite app_nil_r|].
  destruct (ld8 m p =? 0); [done|]. rewrite IH, (IH _ [ld8 m p]). simpl. by rewrite <-app_assoc.
Qed.

(** [ustr] over the part of the string in one page. *)
Lemma ustr_page m T va n n' :
  0 <= va -> va + Z.of_nat n <= PGROUNDDOWN va + PGSIZE ->
  upa m T (PGROUNDDOWN va) <> 0 ->
  ustr m T va (n + n') =
  match copyinstr_page m (upa m T (PGROUNDDOWN va) + (va - PGROUNDDOWN va)) n [] with
  | (true, s) => Some s
  | (false, s) => bs ← ustr m T (va + Z.of_nat n) n'; Some (s ++ bs)
  end.
Proof.
  intros H0 Hn Hpa. pose proof (upa_small _ _ _ Hpa) as Hs. rewrite MAXVA_val in Hs.
  assert (Hg : forall j, 0 <= j < Z.of_nat n ->
            uget m T (va + j) = Some (ld8 m (upa m T (PGROUNDDOWN va) + (va - PGROUNDDOWN va) + j))).
  { intros j Hj. unfold uget. rewrite pgrounddown_page by (unfold PGSIZE in *; lia).
    rewrite (proj2 (Z.eqb_neq _ _)) by done. do 2 f_equal. lia. }
  clear Hn. revert Hg. generalize (upa m T (PGROUNDDOWN va) + (va - PGROUNDDOWN va)). intros a.
  clear. revert va a. induction n as [|n IH]; intros va a Hg.
  { simpl. rewrite Z.add_0_r. by destruct (ustr m T va n'). }
  pose proof (Hg 0 ltac:(lia)) as Hg0. rewrite !Z.add_0_r in Hg0. simpl. rewrite Hg0. simpl.
  destruct (ld8 m a =? 0); [done|].
  rewrite (copyinstr_page_acc _ _ n [ld8 m a]), (IH (va + 1) (a + 1)).
  - destruct (copyinstr_page m (a + 1) n []) as [[] s]; simpl; [done|].
    replace (va + 1 + Z.of_nat n) with (va + Z.of_nat (S n)) by lia.
    by destruct (ustr m T _ n').
  - intros j Hj. replace (va + 1 + j) with (va + (1 + j)) by lia. rewrite Hg by lia.
    do 2 f_equal. lia.
Qed.

Lemma copyinstr_loop_spec w k root T va mx dst fuel :
  pt_inv kend (km_mem k) root T -> 0 <= va < 2 ^ 64 -> mx <= Z.of_nat fuel ->
  exists r bs, copyinstr_loop root va mx dst fuel w k = Ret w k (r, dst ++ bs) /\
    match ustr (km_mem k) T va (Z.to_nat mx) with
    | Some s => r = 0 /\ bs = s
    | None => r = -1
    end.
Proof.
  intros Hpt. revert va mx dst. induction fuel as [|fuel IH]; intros va mx dst Hva Hf;
    cbn [copyinstr_loop]; (destruct (0 <? mx) eqn:E; zbool;
      [|exists (-1), []; rewrite app_nil_r; split; [done|]; by rewrite Z2Nat.nonpos by lia]); [lia|].
  run_step (walkaddr_run w k root T (PGROUNDDOWN va) Hpt). cbv beta.
  destruct (upa (km_mem k) T (PGROUNDDOWN va) =? 0) eqn:Epa; zbool.
  { exists (-1), []. rewrite app_nil_r. split; [done|].
    destruct (Z.to_nat mx) as [|n] eqn:En; [lia|]. simpl. unfold uget. by rewrite Epa. }
  pose proof (upa_small _ _ _ Epa) as Hs. rewrite MAXVA_val in Hs.
  pose proof (chunk va mx Hva E) as Hch. cbv zeta in *.
  set (n := if mx <? _ then mx else _) in *. clearbody n. destruct Hch as (Hn & Hnp & Hlast).
  rewrite run_gets, (u64_small (PGROUNDDOWN va + PGSIZE))
    by (pose proof (pgrounddown_spec va Hva); unfold PGSIZE in *; lia).
  replace (Z.to_nat mx) with (Z.to_nat n + Z.to_nat (mx - n))%nat by lia.
  rewrite (ustr_page _ _ va) by (done || lia). rewrite copyinstr_page_acc.
  destruct (copyinstr_page _ _ _ []) as [[] s]; simpl; [by exists 0, s|].
  rewrite Z2Nat.id by lia. destruct Hlast as [Hlast|Hlast].
  - rewrite Hlast, Z.sub_diag. exists (-1), s. by destruct fuel.
  - rewrite <-Hlast. destruct (IH (va + n) (mx - n) (dst ++ s)) as (r & bs & Hrun & Hres);
      [unfold PGSIZE in *; lia..|].
    rewrite Hrun. exists r, (s ++ bs). rewrite app_assoc. split; [done|].
    destruct (ustr (km_mem k) T (va + n) _) as [bs'|]; simpl; [|done].
    destruct Hres as [-> ->]. done.
Qed.

(** What was copied out is what the user finds there. *)
Lemma ucopied_ugets m m' T va bs :
  0 <= va -> ucopied m m' T va bs -> ugets m' T va (length bs) = Some bs.
Proof.
  intros H0 [_ M G _].
  assert (Hg : forall i b, bs !! i = Some b -> uget m' T (va + Z.of_nat i) = Some b).
  { intros i b Hb. pose proof (lookup_lt_Some _ _ _ Hb).
    destruct (M (va + Z.of_nat i)) as [Hlt _]; [lia|].
    rewrite G, decide_True by lia. rewrite <-Hb. f_equal. lia. }
  clear -Hg. revert va Hg. induction bs as [|b bs IH]; intros va Hg; [done|]. simpl.
  pose proof (Hg 0%nat b eq_refl) as Hg0. rewrite Z.add_0_r in Hg0. rewrite Hg0. simpl.
  rewrite IH; [done|]. intros i c Hc. rewrite <-(Hg (S i) c Hc). f_equal. lia.
Qed.

(** ** Properties *)

(** [copyin] reads exactly the user's bytes, page by page, and fails exactly
    when one of them is not readable; it changes nothing. *)
Theorem copyin_spec w k l root T srcva len :
  vm_inv kend k l root T -> 0 <= srcva < 2 ^ 64 -> 0 <= len ->
  exists r bs, copyin root srcva len w k = Ret w k (r, bs) /\
    match ugets (km_mem k) T srcva (Z.to_nat len) with
    | Some bs' => r = 0 /\ bs = bs'
    | None => r = -1
    end.
Proof.
  intros Hinv Hva Hlen.
  destruct (copyin_loop_spec w k root T srcva len [] (Z.to_nat len) (vi_pt _ _ _ _ _ Hinv) Hva)
    as (r & bs & Hrun & Hres); [lia|]. by exists r, bs.
Qed.

(** [copyout] makes the user find the bytes of [src] at [dstva], leaves every
    other user byte and every byte outside those addresses alone, keeps the free
    list and the page table, and returns 0; or it stops at the first page that is
    not mapped for the user, and returns -1. *)
Theorem copyout_spec w k l root T dstva src :
  vm_inv kend k l root T -> upages_ok kend (km_mem k) l T -> 0 <= dstva < 2 ^ 64 ->
  Forall (fun c => 0 <= c < 256) src ->
  exists k' r j, copyout root dstva src w k = Ret w k' r /\ vm_inv kend k' l root T /\
    upages_ok kend (km_mem k') l T /\ ucopied (km_mem k) (km_mem k') T dstva (take j src) /\
    ((r = 0 /\ j = length src) \/
     (r = -1 /\ (j < length src)%nat /\ uget (km_mem k) T (dstva + Z.of_nat j) = None)).
Proof. intros Hinv Hup Hva Hsrc. by apply copyout_loop_spec. Qed.

(** C29: A successful [copyout] followed by [copyin] of the same range gives back
    the bytes copied out. *)
Theorem copyout_copyin w k l root T va src k' :
  vm_inv kend k l root T -> upages_ok kend (km_mem k) l T -> 0 <= va < 2 ^ 64 ->
  Forall (fun c => 0 <= c < 256) src -> copyout root va src w k = Ret w k' 0 ->
  copyin root va (Z.of_nat (length src)) w k' = Ret w k' (0, src).
Proof.
  intros Hinv Hup Hva Hsrc Hout.
  destruct (copyout_loop_spec w k l root T va src (length src) Hinv Hup Hva Hsrc ltac:(done))
    as (k1 & r & j & Hrun & Hinv1 & _ & Hc & Hres).
  unfold copyout in Hout. rewrite Hrun in Hout. injection Hout as -> ->.
  destruct Hres as [[_ ->]|[? _]]; [|done]. rewrite firstn_all in Hc.
  destruct (copyin_loop_spec w k' root T va (Z.of_nat (length src)) [] (length src)
              (vi_pt _ _ _ _ _ Hinv1) Hva ltac:(done)) as (r & bs & Hin & Hb).
  rewrite Nat2Z.id, (ucopied_ugets (km_mem k)) in Hb by (done || lia). destruct Hb as [-> ->].
  unfold copyin. by rewrite Nat2Z.id.
Qed.

(** [copyinstr] copies the user's string with its NUL when it ends within
    [max] readable bytes, and otherwise returns -1. *)
Theorem copyinstr_spec w k l root T srcva max :
  vm_inv kend k l root T -> 0 <= srcva < 2 ^ 64 -> 0 <= max ->
  exists r bs, copyinstr root srcva max w k = Ret w k (r, bs) /\
    match ustr (km_mem k) T srcva (Z.to_nat max) with
    | Some s => r = 0 /\ bs = s
    | None => r = -1
    end.
Proof.
  intros Hinv Hva Hmax.
  destruct (copyinstr_loop_spec w k root T srcva max [] (Z.to_nat max) (vi_pt _ _ _ _ _ Hinv) Hva)
    as (r & bs & Hrun & Hres); [lia|]. by exists r, bs.
Qed.
End copy.
