(* ===== verification/VmFree.v ===== *)
(** * Freeing a page table: [freewalk] and [uvmfree] *)

From S2P Require Import Prelude Machine Mem Layout Kalloc Vm VmInv VmWalk VmMap VmUser VmAlloc.

(** The address whose indices are [i], [j] and [n]. *)
Definition path_va (i j n : Z) : Z := i * 2 ^ 30 + j * 2 ^ 21 + n * 2 ^ 12.

Lemma path_va_spec i j n :
  0 <= i < 256 -> 0 <= j < 512 -> 0 <= n < 512 ->
  aligned (path_va i j n) /\ 0 <= path_va i j n < MAXVA /\
  vpath (path_va i j n) = [i; j] /\ PX 0 (path_va i j n) = n.
Proof.
  intros Hi Hj Hn. rewrite MAXVA_val. unfold aligned, vpath, path_va, PGSIZE.
  rewrite !PX_alt by lia. simpl.
  change (Z.pow_pos 2 30) with (2 ^ 30). change (Z.pow_pos 2 21) with (2 ^ 21).
  change (Z.pow_pos 2 12) with (2 ^ 12).
  split_and!; [zdm..| |zdm]. f_equal; [zdm|]. f_equal. zdm.
Qed.

Section free.
Variable kend : Z.
Hypothesis Hend : KERNBASE <= kend <= PHYSTOP.

Lemma table_entry b : page_ok kend b ->
  has (Z.lor (PA2PTE b) PTE_V) (Z.lor (Z.lor PTE_R PTE_W) PTE_X) = false.
Proof.
  intros Hb. pose proof (page_ok_range kend Hend b Hb). destruct Hb as [Hb _].
  unfold has. apply negb_false_iff, Z.eqb_eq.
  rewrite pte_pack by (done || (change PTE_V with 1; lia)). change PTE_V with 1.
  change (Z.lor (Z.lor PTE_R PTE_W) PTE_X) with 14.
  assert (Heq : b / 4 + 1 = Z.lor (b / 4096 * 2 ^ 10) 1).
  { symmetry. rewrite (lor_disjoint_add _ _ 10).
    - unfold aligned, PGSIZE in Hb. zdm.
    - lia.
    - lia.
    - by rewrite Z.mod_mul. }
  rewrite Heq. apply Z.bits_inj'. intros n Hn. rewrite Z.land_spec, Z.lor_spec, Z.bits_0.
  destruct (decide (n < 10)) as [Hlt|Hge].
  - rewrite Z.mul_pow2_bits_low by lia. simpl.
    assert (n = 0 \/ n = 1 \/ n = 2 \/ n = 3 \/ 4 <= n) as [->|[->|[->|[->|H4]]]] by lia;
      [done..|]. rewrite (Z.bits_above_log2 14) by (simpl; lia). by rewrite andb_false_r.
  - rewrite (Z.bits_above_log2 14) by (simpl; lia). by rewrite andb_false_r.
Qed.

Section tree.
Context (m0 : mem) (root : Z) (T : ptree) (Hpt : pt_inv kend m0 root T).

(** The tables at and under the path [p] have the entries the tree says, and no
    other valid ones. *)
Definition subtree_ok (m : mem) (p : list Z) : Prop :=
  forall q a i, T !! (p ++ q) = Some a -> 0 <= i < 512 ->
    match T !! (p ++ q ++ [i]) with
    | Some b => ld64 m (a + 8 * i) = Z.lor (PA2PTE b) PTE_V
    | None => has (ld64 m (a + 8 * i)) PTE_V = false
    end.

Definition in_subtree (p : list Z) (b : Z) : Prop := exists q, T !! (p ++ q) = Some b.

Lemma subtree_ok_frame m m' p :
  subtree_ok m p -> (forall b, in_subtree p b -> same_page m m' b) -> subtree_ok m' p.
Proof.
  intros Hs Hsame q a i Ha Hi. specialize (Hs q a i Ha Hi).
  assert (Heq : ld64 m' (a + 8 * i) = ld64 m (a + 8 * i)).
  { apply ld64_ext. intros b Hb. apply (Hsame a); [by exists q|].
    pose proof (slot_in_page a i Hi). lia. }
  by rewrite Heq.
Qed.

Lemma subtree_child m p i : subtree_ok m p -> subtree_ok m (p ++ [i]).
Proof.
  intros Hs q a j Ha Hj. rewrite <-app_assoc in Ha. specialize (Hs _ a j Ha Hj).
  by rewrite <-!app_assoc in *.
Qed.

Lemma subtree_apart p i j b : in_subtree (p ++ [i]) b -> in_subtree (p ++ [j]) b -> i = j.
Proof.
  intros [q Hq] [q' Hq']. rewrite <-app_assoc in Hq, Hq'.
  pose proof (pt_inj _ _ _ _ Hpt _ _ _ Hq Hq') as Heq. apply app_inv_head in Heq. by simplify_eq/=.
Qed.

Lemma subtree_parent p a i : T !! p = Some a -> ~ in_subtree (p ++ [i]) a.
Proof.
  intros Hp [q Hq]. rewrite <-app_assoc in Hq.
  pose proof (pt_inj _ _ _ _ Hpt _ _ _ Hp Hq) as Heq. apply (f_equal length) in Heq.
  rewrite !length_app in Heq. simpl in Heq. lia.
Qed.

Lemma subtree_page p b : in_subtree p b -> page_ok kend b.
Proof. intros [q Hq]. by eapply pt_pages. Qed.

(** The outcome of freeing the subtrees [P] selects: exactly their pages are
    added to the free list, and other pages keep their contents. *)
Definition freed_post (k : kmem) (l : list Z) (P : Z -> Prop) (keep : Z -> Prop) (k' : kmem)
    (ps : list Z) : Prop :=
  kmem_inv kend k' (ps ++ l) /\ (forall b, b ∈ ps <-> P b) /\
  (forall b, aligned b -> b ∉ ps -> keep b -> same_page (km_mem k) (km_mem k') b).

(** Clearing entry [i] of the table [a] keeps the free list and other pages. *)
Lemma clear_entry k l a i :
  kmem_inv kend k l -> aligned a -> a ∉ l -> 0 <= i < 512 ->
  let k' := set_mem (st64 (km_mem k) (a + 8 * i) 0) k in
  kmem_inv kend k' l /\
  (forall b, aligned b -> b <> a -> same_page (km_mem k) (km_mem k') b) /\
  (forall j, 0 <= j < 512 -> j <> i -> ld64 (km_mem k') (a + 8 * j) = ld64 (km_mem k) (a + 8 * j)).
Proof.
  intros Hk Ha Hl Hi. pose proof (slot_in_page a i Hi).
  assert (Hs : forall b, aligned b -> b <> a ->
            same_page (km_mem k) (st64 (km_mem k) (a + 8 * i) 0) b).
  { intros b Hb Hne c Hc. apply ld8_st64_out. pose proof (aligned_apart b a Hb Ha Hne). lia. }
  split_and!.
  - apply kmem_inv_set_mem; [done|destruct Hk as (_ & _ & ?); mem_ok|].
    intros q Hq b Hb. apply (Hs q); [by eapply kmem_inv_page|by intros ->|unfold PGSIZE; lia].
  - exact Hs.
  - intros j Hj Hne. apply ld64_st64_other. lia.
Qed.

(** The entry [i] of a table, with the subtree under it freed. *)
Definition child_spec (free_child : Z -> M kmem unit) (w : world) (p : list Z) : Prop :=
  forall i b k l, T !! (p ++ [i]) = Some b -> kmem_inv kend k l ->
    (forall c, in_subtree (p ++ [i]) c -> c ∉ l) -> subtree_ok (km_mem k) (p ++ [i]) ->
    exists k' ps, free_child b w k = Ret w k' tt /\
      freed_post k l (in_subtree (p ++ [i])) (fun _ => True) k' ps.

(** What the loop still has to free from entry [i] on. *)
Definition from_entry (p : list Z) (i : Z) (b : Z) : Prop :=
  exists j, i <= j < 512 /\ in_subtree (p ++ [j]) b.

Lemma from_entry_S p i b : 0 <= i < 512 ->
  from_entry p i b <-> in_subtree (p ++ [i]) b \/ from_entry p (i + 1) b.
Proof.
  intros Hi. split.
  - intros (j & Hj & Hb). destruct (decide (j = i)) as [->|Hne]; [by left|right].
    exists j. split; [lia|done].
  - intros [Hb|(j & Hj & Hb)]; [exists i; split; [lia|done]|]. exists j. split; [lia|done].
Qed.

Lemma from_entry_none p i b : T !! (p ++ [i]) = None -> ~ in_subtree (p ++ [i]) b.
Proof. intros Hn [q Hq]. by eapply (pt_prefix_closed kend) in Hq as [? ?]; [|done]; congruence. Qed.

(** The entries from [i] on of the table [a] at [p]. *)
Definition entries_ok (m : mem) (p : list Z) (a i : Z) : Prop :=
  forall j, i <= j < 512 ->
    subtree_ok m (p ++ [j]) /\
    match T !! (p ++ [j]) with
    | Some b => ld64 m (a + 8 * j) = Z.lor (PA2PTE b) PTE_V
    | None => has (ld64 m (a + 8 * j)) PTE_V = false
    end.

Lemma entries_ok_step m m' p a i :
  entries_ok m p a i ->
  (forall j c, i < j < 512 -> in_subtree (p ++ [j]) c -> same_page m m' c) ->
  (forall j, i < j < 512 -> ld64 m' (a + 8 * j) = ld64 m (a + 8 * j)) ->
  entries_ok m' p a (i + 1).
Proof.
  intros Hent Hs He j Hj. destruct (Hent j ltac:(lia)) as [Hsub Hej]. split.
  - eapply subtree_ok_frame; [done|]. intros c Hc. apply (Hs j); [lia|done].
  - rewrite He by lia. done.
Qed.

Lemma freewalk_loop_spec free_child w p a i n k l :
  child_spec free_child w p -> T !! p = Some a -> 0 <= i -> i + Z.of_nat n = 512 ->
  kmem_inv kend k l -> a ∉ l -> (forall b, from_entry p i b -> b ∉ l) ->
  entries_ok (km_mem k) p a i ->
  exists k' ps, freewalk_loop free_child a i n w k = Ret w k' tt /\
    freed_post k l (from_entry p i) (fun b => b <> a) k' ps.
Proof.
  intros Hchild Hp. revert i k l.
  induction n as [|n IH]; intros i k l Hi Hn Hk Hal Hfl Hent.
  { exists k, []. split; [done|]. split; [done|]. split; [|done].
    intros b. split; [by intros ?%not_elem_of_nil|]. intros (j & Hj & _). lia. }
  destruct (Hent i ltac:(lia)) as [Hsub He]. cbn [freewalk_loop].
  unfold ldpte at 1. rewrite run_gets.
  destruct (T !! (p ++ [i])) as [b|] eqn:Eb.
  - pose proof (pt_pages _ _ _ _ Hpt _ _ Eb) as Hbok. pose proof (pt_pages _ _ _ _ Hpt _ _ Hp) as [Ha _].
    rewrite He, (has_V_pack kend), table_entry, (PTE2PA_table kend Hend) by done. simpl andb. cbv iota.
    destruct (Hchild i b k l Eb Hk) as (k1 & ps1 & Hrun1 & Hk1 & Hps1 & Hs1); [|done|].
    { intros c Hc. apply Hfl. apply from_entry_S; [lia|]. by left. }
    assert (Ha1 : a ∉ ps1 ++ l).
    { rewrite elem_of_app, Hps1. intros [H|H]; [exact (subtree_parent p a i Hp H)|done]. }
    destruct (clear_entry k1 (ps1 ++ l) a i Hk1 Ha Ha1 ltac:(lia)) as (Hk2 & Hs2 & He2).
    erewrite run_bind; [|run_step Hrun1; reflexivity]. set (k2 := set_mem _ k1) in *.
    assert (Hs12 : forall c, aligned c -> c ∉ ps1 -> c <> a -> same_page (km_mem k) (km_mem k2) c).
    { intros c Hc Hc1 Hca d Hd. rewrite (Hs2 c) by done. by apply (Hs1 c). }
    destruct (IH (i + 1) k2 (ps1 ++ l)) as (k' & ps & Hrun & Hk' & Hps & Hs'); [lia|lia|done|done| | |].
    + intros c Hc. rewrite elem_of_app, Hps1. intros [H|H].
      * destruct Hc as (j & Hj & Hc). pose proof (subtree_apart p i j c H Hc). lia.
      * apply (Hfl c); [|done]. apply from_entry_S; [lia|by right].
    + eapply entries_ok_step; [done| |].
      * intros j c Hj Hc. apply Hs12; [by apply (subtree_page _ c Hc)| |].
        -- rewrite Hps1. intros H. pose proof (subtree_apart p i j c H Hc). lia.
        -- intros ->. exact (subtree_parent p a j Hp Hc).
      * intros j Hj. rewrite He2 by lia. apply ld64_ext. intros c Hc. apply (Hs1 a); [done| |done|].
        -- intros H. apply Ha1. apply elem_of_app. by left.
        -- pose proof (slot_in_page a j ltac:(lia)). lia.
    + exists k', (ps ++ ps1). split; [done|]. split; [by rewrite <-app_assoc|]. split.
      * intros c. rewrite elem_of_app, Hps, Hps1, (from_entry_S p i c) by lia. tauto.
      * intros c Hc Hcn Hca d Hd. rewrite elem_of_app in Hcn. rewrite (Hs' c) by tauto.
        apply (Hs12 c); tauto.
  - rewrite He. simpl andb. cbv iota. rewrite run_bind_ret.
    destruct (IH (i + 1) k l) as (k' & ps & Hrun & Hk' & Hps & Hs'); [lia|lia|done|done| | |].
    + intros c Hc. apply Hfl, from_entry_S; [lia|by right].
    + intros j Hj. apply Hent. lia.
    + exists k', ps. split; [done|]. split; [done|]. split; [|done].
      intros c. rewrite Hps, (from_entry_S p i) by lia.
      pose proof (from_entry_none p i c Eb). tauto.
Qed.

Lemma freewalk_rec_spec w depth p a k l :
  LkKmem ∉ held w -> T !! p = Some a -> (length p + depth = 3)%nat -> kmem_inv kend k l ->
  (forall b, in_subtree p b -> b ∉ l) -> subtree_ok (km_mem k) p ->
  exists k' ps, freewalk_rec kend depth a w k = Ret w k' tt /\
    freed_post k l (in_subtree p) (fun _ => True) k' ps.
Proof.
  intros Hw. revert p a k l. induction depth as [|depth IH]; intros p a k l Hp Hlen Hk Hfl Hs.
  { pose proof (pt_len _ _ _ _ Hpt _ _ Hp). lia. }
  cbn [freewalk_rec]. pose proof (pt_pages _ _ _ _ Hpt _ _ Hp) as Hpa.
  assert (Ha0 : in_subtree p a) by (exists []; by rewrite app_nil_r).
  destruct (freewalk_loop_spec (freewalk_rec kend depth) w p a 0 512 k l)
    as (k1 & ps & Hrun & Hk1 & Hps & Hs1); [|done|done|done|done|by apply Hfl| | |].
  - intros i b k1 l1 Hb Hk1 Hfl1 Hs1. apply IH; [done| |done..]. rewrite length_app. simpl. lia.
  - intros b (j & _ & [q Hq]). apply Hfl. exists ([j] ++ q). by rewrite app_assoc.
  - intros j Hj. split; [by apply subtree_child|]. specialize (Hs [] a j).
    rewrite app_nil_r in Hs. simpl in Hs. apply Hs; [done|lia].
  - assert (Hal : a ∉ ps ++ l).
    { rewrite elem_of_app, Hps. intros [(j & _ & H)|H]; [exact (subtree_parent p a j Hp H)|by apply (Hfl a)]. }
    run_step Hrun. rewrite (kfree_eq kend w k1 a Hw Hpa). eexists _, (a :: ps). split; [done|].
    split; [by apply (kmem_inv_push kend Hend)|]. split.
    + intros b. rewrite elem_of_cons, Hps. split.
      * intros [->|(j & _ & [q Hq])]; [done|]. exists ([j] ++ q). by rewrite app_assoc.
      * intros [[|j q] Hq]; [rewrite app_nil_r in Hq; left; congruence|right].
        change (j :: q) with ([j] ++ q) in Hq. rewrite app_assoc in Hq.
        exists j. split; [|by exists q].
        destruct (pt_prefix_closed kend _ _ _ _ _ _ Hpt Hq) as [c Hc].
        pose proof (pt_idx _ _ _ _ Hpt _ _ _ Hc). unfold idx_bound in *. destruct p; lia.
    + intros b Hb Hbn _ c Hc. rewrite not_elem_of_cons in Hbn. destruct Hbn as [Hba Hbn].
      rewrite <-(Hs1 b Hb Hbn Hba c Hc). destruct Hpa as [Hpa _].
      pose proof (aligned_apart b a Hb Hpa Hba). simpl. unfold PGSIZE in *.
      rewrite ld8_st64_out, ld8_memset, decide_False by lia. done.
Qed.
End tree.

Lemma subtree_ok_root m root T :
  pt_inv kend m root T ->
  (forall va, aligned va -> 0 <= va < MAXVA -> has (leafpte m T va) PTE_V = false) ->
  subtree_ok T m [].
Proof.
  intros Hpt Hclear q a i Ha Hi. simpl in *.
  pose proof (pt_len _ _ _ _ Hpt _ _ Ha) as Hlen.
  destruct (decide (length q < 2)%nat) as [Hlt|Hge].
  { pose proof (pt_ent _ _ _ _ Hpt q a i Ha Hlt Hi) as He.
    destruct (T !! (q ++ [i])); [done|]. unfold has. by rewrite He. }
  destruct q as [|x [|y [|? ?]]]; simpl in Hge, Hlen; [lia..| |lia].
  destruct (T !! ([x; y] ++ [i])) as [b|] eqn:E.
  { apply (pt_len _ _ _ _ Hpt) in E. simpl in E. lia. }
  pose proof (pt_idx _ _ _ _ Hpt [x] y a Ha) as Hy. simpl in Hy.
  destruct (pt_prefix _ _ _ _ Hpt [x] y a Ha) as [c Hc].
  pose proof (pt_idx _ _ _ _ Hpt [] x c Hc) as Hx. simpl in Hx.
  destruct (path_va_spec x y i Hx Hy Hi) as (Hva & Hr & Hp & Hn).
  specialize (Hclear _ Hva Hr). unfold leafpte in Hclear. by rewrite Hp, Ha, Hn in Hclear.
Qed.

(** C25: [uvmfree] on an address space whose pages above [sz] are unmapped returns
    every page of it to the free list: afterwards the free pages are exactly
    those that were free, held a table, or were mapped. *)
Theorem uvmfree_spec w k l root T sz :
  LkKmem ∉ held w -> user_inv kend k l root T (PGROUNDUP sz) -> 0 <= sz <= MAXVA ->
  (forall va, aligned va -> PGROUNDUP sz <= va < MAXVA ->
     has (leafpte (km_mem k) T va) PTE_V = false) ->
  exists k' l', uvmfree kend root sz w k = Ret w k' tt /\ kmem_inv kend k' l' /\
    (forall b, b ∈ l' <-> accounted k l T 0 (PGROUNDUP sz) b).
Proof.
  intros Hw Hu Hsz Habove. rewrite MAXVA_val in Hsz.
  destruct (pgroundup_spec sz) as [Ha Hr]; [unfold PGSIZE; lia|].
  set (top := PGROUNDUP sz) in *.
  assert (Htm : top <= MAXVA) by (rewrite MAXVA_val; unfold aligned, PGSIZE in *; zdm).
  assert (Hn : 0 + top / PGSIZE * PGSIZE = top) by (unfold aligned, PGSIZE in *; zdm).
  assert (Hpost : exists k1, when (0 <? sz) (uvmunmap kend root 0 (top / PGSIZE) true) w k
            = Ret w k1 tt /\ unmap_post kend k l root T 0 (Z.to_nat (top / PGSIZE)) true k1).
  { destruct (0 <? sz) eqn:E; zbool.
    - apply (uvmunmap_run kend Hend); [done|apply Hu|done|done|unfold PGSIZE in *; zdm|lia|..];
        rewrite Hn; [|intros _]; apply Hu.
    - assert (Ht0 : top = 0) by (unfold aligned, PGSIZE in *; zdm). rewrite Ht0.
      exists k. split; [done|]. split; [apply Hu|]. split; [|done].
      intros va Hva Hvr. change (0 / PGSIZE) with 0. by rewrite decide_False by lia. }
  destruct Hpost as (k1 & Hrun & Hpost).
  destruct (user_inv_shrink kend Hend k l root T top 0 (Z.to_nat (top / PGSIZE)) k1)
    as [Hu1 Hacct]; [done|done|done| |done|done|].
  { rewrite Z2Nat.id by (unfold PGSIZE; zdm). lia. }
  destruct Hpost as (_ & Hleaf & _). set (l1 := rev_append _ l) in *.
  pose proof (ui_vm _ _ _ _ _ _ Hu1) as Hinv1.
  destruct (freewalk_rec_spec (km_mem k1) root T (vi_pt _ _ _ _ _ Hinv1) w 3 [] root k1 l1)
    as (k' & ps & Hrun' & Hk' & Hps & _); [done|apply Hinv1|done|apply Hinv1| | |].
  - intros b Hb. apply Hinv1. exact Hb.
  - apply (subtree_ok_root _ root); [apply Hinv1|]. intros va Hva Hvr.
    rewrite Hleaf by done. case_decide as Hd; [done|]. apply Habove; [done|].
    rewrite Z2Nat.id in Hd by (unfold PGSIZE; zdm). lia.
  - exists k', (ps ++ l1). split; [unfold uvmfree; run_step Hrun; exact Hrun'|]. split; [done|].
    intros b. rewrite Hacct, elem_of_app, Hps. unfold accounted. split.
    + intros [?|?]; [by right; left|by left].
    + intros [?|[?|(va & _ & Hvr & _)]]; [by right|by left|lia].
Qed.
End free.
