(* ===== verification/VmTheorems.v ===== *)
(** * Properties of kernel/vm.c

    The theorems about page tables and user memory, with instances on a machine
    whose last sixteen pages are free. *)

From S2P Require Import Prelude Machine Mem Layout Kalloc Vm VmInv VmWalk VmMap VmUser VmAlloc VmSpec VmCopy VmFree.

Section theorems.
Variable kend : Z.
Hypothesis Hend : KERNBASE <= kend <= PHYSTOP.

(** [walk] panics above [MAXVA]; without [alloc] it returns the address of
    the leaf entry, or 0 when a table is missing, and changes nothing; with
    [alloc] it adds the missing tables, without changing the mapping or any page
    outside the tree, and returns 0 only when fewer than two pages were free. *)
Theorem walk_spec w k l root T va :
  LkKmem ∉ held w -> vm_inv kend k l root T ->
  (MAXVA <= va -> forall alloc, walk root va alloc w k = Panic "walk") /\
  (va < MAXVA -> walk root va false w k = Ret w k (leafslot T va)) /\
  (0 <= va < MAXVA ->
     exists k' r, walk root va true w k = Ret w k' r /\ walk_post kend k l root T va 2 k' r).
Proof.
  intros Hw Hinv. split_and!.
  - intros Hva alloc. unfold walk. by rewrite (proj2 (Z.leb_le _ _)) by done.
  - intros Hva. apply (walk_lookup kend Hend); [apply Hinv|done].
  - intros Hva. by apply walk_alloc.
Qed.

(** [mappages] on unmapped pages below [MAXVA] maps exactly the pages from
    [va] to [va + size - 1] to consecutive physical pages with the given
    permissions and returns 0, or returns -1 with a prefix of them mapped when a
    table page cannot be allocated; no other mapping changes. *)
Theorem mappages_spec w k l root T va size pa perm :
  LkKmem ∉ held w -> vm_inv kend k l root T ->
  0 <= va -> 0 < size -> va + size <= MAXVA -> 0 <= pa < 2 ^ 64 -> 0 <= perm < 1024 ->
  (forall a, aligned a -> PGROUNDDOWN va <= a <= PGROUNDDOWN (va + size - 1) ->
     has (leafpte (km_mem k) T a) PTE_V = false) ->
  exists k' r, mappages root va size pa perm w k = Ret w k' r /\
    mappages_post kend k l root T (PGROUNDDOWN va) (PGROUNDDOWN (va + size - 1)) pa perm k' r.
Proof. by apply mappages_run. Qed.

(** [uvmalloc] either grows the address space to [newsz] with zeroed pages of
    the given permissions and returns [newsz], or, having run out of memory,
    returns 0 with the address space as it was.  Either way no page is lost:
    the free pages, the tables and the new mappings account for the same pages
    as before.  Three free pages per new page are enough to succeed. *)
Theorem uvmalloc_spec w k l root T oldsz newsz xperm :
  LkKmem ∉ held w -> user_inv kend k l root T (PGROUNDUP oldsz) ->
  0 <= oldsz <= newsz -> newsz <= MAXVA -> 0 <= xperm < 1024 ->
  (forall va, aligned va -> PGROUNDUP oldsz <= va < PGROUNDUP newsz ->
     has (leafpte (km_mem k) T va) PTE_V = false) ->
  exists k' l' T' r, uvmalloc kend root oldsz newsz xperm w k = Ret w k' r /\
    let post := grow_inv kend k l T root (PGROUNDUP oldsz) (fun _ => user_perm xperm) (fun _ _ => 0) in
    let n := npages (PGROUNDUP oldsz) (PGROUNDUP newsz) in
    ((r = newsz /\ post (PGROUNDUP newsz) k' l' T' /\ (length l <= length l' + 3 * n)%nat) \/
     (r = 0 /\ post (PGROUNDUP oldsz) k' l' T' /\ (length l < 3 * n)%nat)).
Proof. by apply uvmalloc_run. Qed.

(** [uvmdealloc] unmaps exactly the pages between the two sizes, puts them on
    the free list, and keeps everything below the new size. *)
Theorem uvmdealloc_spec w k l root T oldsz newsz :
  LkKmem ∉ held w -> user_inv kend k l root T (PGROUNDUP oldsz) ->
  0 <= newsz < oldsz -> oldsz <= MAXVA ->
  exists k' l', uvmdealloc kend root oldsz newsz w k = Ret w k' newsz /\
    l' = rev_append (pas_from k T (PGROUNDUP newsz)
                       (npages (PGROUNDUP newsz) (PGROUNDUP oldsz))) l /\
    unmap_post kend k l root T (PGROUNDUP newsz)
      (npages (PGROUNDUP newsz) (PGROUNDUP oldsz)) true k' /\
    user_inv kend k' l' root T (PGROUNDUP newsz) /\
    (forall p, accounted k l T (PGROUNDUP newsz) (PGROUNDUP oldsz) p <->
               accounted k' l' T (PGROUNDUP newsz) (PGROUNDUP newsz) p).
Proof. by apply uvmdealloc_run. Qed.

(** C24: [uvmcopy] gives the child, page by page, the permissions and the bytes of
    the parent in freshly allocated pages, or, having run out of memory, returns
    -1 with the child empty again and every page accounted for; the parent's
    mappings and contents never change. *)
Theorem uvmcopy_spec w k l old To new Tn sz :
  LkKmem ∉ held w -> user_inv kend k l old To (PGROUNDUP sz) -> vm_inv kend k l new Tn ->
  0 <= sz <= MAXVA ->
  (forall a, in_tree To a -> ~ in_tree Tn a) ->
  (forall va, aligned va -> 0 <= va < PGROUNDUP sz -> ~ in_tree Tn (leaf_pa k To va)) ->
  (forall va, aligned va -> 0 <= va < PGROUNDUP sz ->
     has (leafpte (km_mem k) Tn va) PTE_V = false) ->
  exists k' l' T' r, uvmcopy kend old new sz w k = Ret w k' r /\
    let post := grow_inv kend k l Tn new 0 (fun va => PTE_FLAGS (leafpte (km_mem k) To va))
                  (fun va i => ld8 (km_mem k) (leaf_pa k To va + i)) in
    let n := npages 0 (PGROUNDUP sz) in
    user_inv kend k' l' old To (PGROUNDUP sz) /\
    (forall va, leafpte (km_mem k') To va = leafpte (km_mem k) To va) /\
    (forall va i, aligned va -> 0 <= va < PGROUNDUP sz -> 0 <= i < PGSIZE ->
       ld8 (km_mem k') (leaf_pa k To va + i) = ld8 (km_mem k) (leaf_pa k To va + i)) /\
    ((r = 0 /\ post (PGROUNDUP sz) k' l' T' /\ (length l <= length l' + 3 * n)%nat) \/
     (r = -1 /\ post 0 k' l' T' /\ (length l < 3 * n)%nat)).
Proof. by apply uvmcopy_run. Qed.
End theorems.

(** ** A machine with sixteen free pages *)

Definition kend16 : Z := PHYSTOP - 16 * PGSIZE.

Lemma kend16_ok : KERNBASE <= kend16 <= PHYSTOP.
Proof. unfold kend16, PHYSTOP, KERNBASE, PGSIZE. lia. Defined.

Definition boot16 : kmem :=
  exec (kinit kend16) w0 (Kmem ∅ 0).

Lemma boot16_inv : kmem_inv kend16 boot16 (rev (boot_pages kend16)).
Proof.
  unfold boot16, exec. destruct (kinit_inv kend16 kend16_ok w0 ∅ no_locks_held mem_ok_empty)
    as (k' & -> & Hk'). done.
Qed.

Definition root16 : Z := PHYSTOP - PGSIZE.

(** An empty address space on it. *)
Definition as0 : kmem :=
  exec uvmcreate w0 boot16.

Definition free15 : list Z := Eval vm_compute in tail (rev (boot_pages kend16)).

Definition tree0 : ptree := {[ [] := root16 ]}.

Lemma as0_inv : user_inv kend16 as0 free15 root16 tree0 0.
Proof.
  destruct (uvmcreate_run kend16 kend16_ok w0 boot16 root16 free15 no_locks_held boot16_inv)
    as (k & Hrun & Hu & _).
  unfold as0, exec. by rewrite Hrun.
Qed.

Lemma as0_clear k va : leafpte (km_mem k) tree0 va = 0.
Proof.
  unfold leafpte, tree0, vpath.
  rewrite lookup_singleton_ne; [reflexivity|discriminate].
Qed.

(** The same with one writable page. *)
Definition as1 : kmem :=
  exec (uvmalloc kend16 root16 0 PGSIZE PTE_W) w0 as0.

Definition one_page (k : kmem) (l : list Z) (T : ptree) : Prop :=
  user_inv kend16 k l root16 T PGSIZE /\
  (forall va, aligned va -> PGSIZE <= va < MAXVA -> has (leafpte (km_mem k) T va) PTE_V = false) /\
  leafpte (km_mem k) T 0 =
    Z.lor (Z.lor (PA2PTE (leaf_pa k T 0)) (user_perm PTE_W)) PTE_V /\
  (9 <= length l)%nat.

Lemma as1_inv : exists l T, one_page as1 l T /\ (10 <= length l)%nat.
Proof.
  destruct (uvmalloc_run kend16 kend16_ok w0 as0 free15 root16 tree0 0 PGSIZE PTE_W)
    as (k & l & T & r & Hrun & Hres); [apply no_locks_held|exact as0_inv|done|done|done| |].
  { intros. by rewrite as0_clear. }
  unfold as1, exec. rewrite Hrun. exists l, T. cbv zeta in Hres.
  change (PGROUNDUP 0) with 0 in Hres. change (PGROUNDUP PGSIZE) with PGSIZE in Hres.
  change (npages 0 PGSIZE) with 1%nat in Hres. change (length free15) with 15%nat in Hres.
  destruct Hres as [(-> & G & Hlen)|(_ & _ & Hlen)]; [|lia].
  split; [|lia]. split; [apply (gi_user _ _ _ _ _ _ _ _ _ _ _ _ G)|]. split_and!; [| |lia].
  - intros va Hva Hr. destruct (gi_leaf _ _ _ _ _ _ _ _ _ _ _ _ G va Hva) as [<-|[_ ?]];
      [unfold PGSIZE in *; lia|lia|by rewrite as0_clear|done].
  - assert (Ha : aligned 0) by reflexivity. assert (Hr : 0 <= 0 < PGSIZE) by (unfold PGSIZE; lia).
    exact (gi_ent _ _ _ _ _ _ _ _ _ _ _ _ G 0 Ha Hr).
Qed.

(** A second, empty address space beside it. *)
Definition as2 : kmem := exec uvmcreate w0 as1.

Lemma as2_inv : exists l T p, one_page as2 l T /\ vm_inv kend16 as2 l p {[ [] := p ]} /\
  ~ in_tree T p /\ leaf_pa as2 T 0 <> p.
Proof.
  destruct as1_inv as (l & T & (Hu & Hab & Hent & _) & Hlen).
  destruct l as [|p l]; [simpl in Hlen; lia|].
  assert (Hp : page_ok kend16 p) by (eapply kmem_inv_page; [apply Hu|left]).
  assert (Hpt : ~ in_tree T p).
  { intros H. apply (vi_disj _ _ _ _ _ (ui_vm _ _ _ _ _ _ Hu) p H). left. }
  destruct (uvmcreate_run kend16 kend16_ok w0 as1 p l no_locks_held) as (k & Hrun & Hnew & Ho);
    [apply Hu|].
  assert (Heq : as2 = k) by (unfold as2, exec; by rewrite Hrun). rewrite Heq.
  assert (Hleaf : forall va, leafpte (km_mem k) T va = leafpte (km_mem as1) T va).
  { intros va. eapply (only_page_leaf kend16); [apply Hu|apply Hp|done|done]. }
  assert (Hpa : leaf_pa k T 0 = leaf_pa as1 T 0) by (unfold leaf_pa; by rewrite Hleaf).
  assert (Hinv : vm_inv kend16 k l root16 T).
  { split; [apply Hnew| |].
    - eapply pt_inv_frame; [apply Hu|]. intros a [q Hq].
      apply (only_page_same p); [apply Hp|eapply pt_pages; [apply Hu|done]| |done].
      intros ->. apply Hpt. by exists q.
    - intros a Ha Hin. apply (vi_disj _ _ _ _ _ (ui_vm _ _ _ _ _ _ Hu) a Ha). by right. }
  exists l, T, p. split_and!; [split_and!| | |].
  - eapply user_inv_only_page; [exact Hu|done| |done..]. by right.
  - intros va Hva Hr. rewrite Hleaf. by apply Hab.
  - by rewrite Hpa, Hleaf.
  - simpl in Hlen. lia.
  - apply Hnew.
  - done.
  - rewrite Hpa. intros Heqp. assert (Ha0 : aligned 0) by reflexivity.
    apply (or_used _ _ _ _ _ _ (ui_own _ _ _ _ _ _ Hu) 0 Ha0); [unfold PGSIZE; lia|].
    rewrite Heqp. left.
Qed.

Lemma one_page_upages k l T : one_page k l T -> upages_ok kend16 (km_mem k) l T.
Proof.
  intros (Hu & Hab & _).
  assert (Hlow : forall va, aligned va -> 0 <= va < MAXVA -> upa (km_mem k) T va <> 0 ->
            va < PGSIZE /\ upa (km_mem k) T va = leaf_pa k T va).
  { intros va Hva Hr Hn. unfold upa in *. destruct (decide (va < PGSIZE)) as [Hlt|Hge].
    - split; [done|]. by destruct ((_ <? _) && _ && _).
    - rewrite Hab, andb_false_r in Hn by (done || lia). done. }
  destruct Hu as [_ _ Hown]. split.
  1, 2, 3: intros va Hva Hr Hn; destruct (Hlow va Hva Hr Hn) as [Hlt ->]; apply Hown; done || lia.
  intros va va' Hva Hr Hva' Hr' Hn Heq. pose proof Hn as Hn'. rewrite Heq in Hn'.
  destruct (Hlow va Hva Hr Hn), (Hlow va' Hva' Hr' Hn').
  apply (or_inj _ _ _ _ _ _ Hown); done || lia || congruence.
Qed.

Lemma has_lor_r x y b : has y b = true -> has (Z.lor x y) b = true.
Proof.
  unfold has. rewrite !negb_true_iff, !Z.eqb_neq, Z.land_lor_distr_l. intros H1 H2.
  by apply Z.lor_eq_0_iff in H2 as [_ H2].
Qed.

Lemma one_page_upa k l T : one_page k l T -> upa (km_mem k) T 0 <> 0.
Proof.
  intros (Hu & _ & Hent & _). assert (Ha0 : aligned 0) by reflexivity.
  assert (Hr : 0 <= 0 < PGSIZE) by (unfold PGSIZE; lia).
  pose proof (or_page _ _ _ _ _ _ (ui_own _ _ _ _ _ _ Hu) 0 Ha0 Hr) as Hp.
  apply (page_ok_range kend16 kend16_ok) in Hp. unfold upa.
  rewrite (mr_valid _ _ _ _ (ui_map _ _ _ _ _ _ Hu) 0 Ha0 Hr).
  assert (HU : has (leafpte (km_mem k) T 0) PTE_U = true).
  { rewrite Hent, <-Z.lor_assoc. by apply has_lor_r. }
  rewrite HU. simpl. unfold leaf_pa in Hp. lia.
Qed.

(** Copying three bytes to the page succeeds. *)
Lemma one_page_copyout k l T : one_page k l T ->
  exists k', copyout root16 0 [104; 105; 0] w0 k = Ret w0 k' 0.
Proof.
  intros H. pose proof (one_page_upa k l T H) as Hpa. pose proof (one_page_upages k l T H) as Hup.
  destruct H as (Hu & _).
  destruct (copyout_loop_spec kend16 kend16_ok w0 k l root16 T 0 [104; 105; 0] 3)
    as (k' & r & j & Hrun & _ & _ & _ & Hres);
    [apply Hu|done|done|repeat constructor; done|done|].
  exists k'. destruct Hres as [[-> _]|(_ & Hj & Hn)]; [done|exfalso].
  apply uget_None in Hn. simpl in Hj.
  rewrite (pgrounddown_page 0 (Z.of_nat j)) in Hn; [done|lia|lia| |lia].
  change (PGROUNDDOWN 0) with 0. unfold PGSIZE. lia.
Qed.

#[local] Opaque boot16 as0 as1 as2.

(** ** Instances of the theorems *)

Lemma walk_spec_witness :
  exists k' r, walk root16 0 true w0 as0 = Ret w0 k' r /\
    walk_post kend16 as0 free15 root16 tree0 0 2 k' r.
Proof.
  refine (proj2 (proj2 (walk_spec kend16 kend16_ok w0 as0 free15 root16 tree0 0 no_locks_held
            (ui_vm _ _ _ _ _ _ as0_inv))) _).
  rewrite MAXVA_val. lia.
Defined.

Lemma mappages_spec_witness :
  exists k' r, mappages root16 5000 8192 KERNBASE PTE_R w0 as0 = Ret w0 k' r /\
    mappages_post kend16 as0 free15 root16 tree0 4096 12288 KERNBASE PTE_R k' r.
Proof.
  apply (mappages_spec kend16 kend16_ok w0 as0 free15 root16 tree0 5000 8192 KERNBASE PTE_R
           no_locks_held (ui_vm _ _ _ _ _ _ as0_inv));
    [lia|lia|rewrite MAXVA_val; lia|unfold KERNBASE; lia|done|].
  intros a _ _. rewrite as0_clear. reflexivity.
Defined.

Lemma uvmalloc_spec_witness :
  exists k' l' T' r, uvmalloc kend16 root16 0 10000 PTE_W w0 as0 = Ret w0 k' r /\
    ((r = 10000 /\ grow_inv kend16 as0 free15 tree0 root16 0 (fun _ => user_perm PTE_W)
                     (fun _ _ => 0) 12288 k' l' T' /\ (15 <= length l' + 9)%nat) \/
     (r = 0 /\ grow_inv kend16 as0 free15 tree0 root16 0 (fun _ => user_perm PTE_W)
                 (fun _ _ => 0) 0 k' l' T' /\ (15 < 9)%nat)).
Proof.
  apply (uvmalloc_spec kend16 kend16_ok w0 as0 free15 root16 tree0 0 10000 PTE_W
           no_locks_held as0_inv); [lia|rewrite MAXVA_val; lia|done|].
  intros va _ _. rewrite as0_clear. reflexivity.
Defined.

Lemma uvmdealloc_spec_witness :
  exists l T k' l', one_page as1 l T /\
    uvmdealloc kend16 root16 PGSIZE 0 w0 as1 = Ret w0 k' 0 /\
    user_inv kend16 k' l' root16 T 0 /\ l' = leaf_pa as1 T 0 :: l.
Proof.
  destruct as1_inv as (l & T & H & _). pose proof H as (Hu & _). exists l, T.
  destruct (uvmdealloc_spec kend16 kend16_ok w0 as1 l root16 T PGSIZE 0 no_locks_held Hu)
    as (k' & l' & Hrun & Hl & _ & Hu' & _); [unfold PGSIZE; lia|rewrite MAXVA_val; unfold PGSIZE; lia|].
  exists k', l'. split; [exact H|]. split; [exact Hrun|]. split; [exact Hu'|exact Hl].
Defined.

Lemma uvmcopy_spec_witness :
  exists l To new k' r, one_page as2 l To /\
    uvmcopy kend16 root16 new PGSIZE w0 as2 = Ret w0 k' r /\ r = 0.
Proof.
  destruct as2_inv as (l & To & p & H & Hnew & Hpt & Hpa). pose proof H as (Hu & _ & _ & Hlen).
  exists l, To, p.
  destruct (uvmcopy_spec kend16 kend16_ok w0 as2 l root16 To p {[ [] := p ]} PGSIZE no_locks_held
              Hu Hnew) as (k' & l' & T' & r & Hrun & _ & _ & _ & Hres).
  - rewrite MAXVA_val. unfold PGSIZE. lia.
  - intros a Ha [q [_ Hq]%lookup_singleton_Some]. rewrite <-Hq in Ha. exact (Hpt Ha).
  - intros va Hva Hr [q [_ Hq]%lookup_singleton_Some]. apply Hpa.
    change (PGROUNDUP PGSIZE) with PGSIZE in Hr.
    assert (Hv0 : va = 0) by (unfold aligned, PGSIZE in *; zdm). rewrite Hv0 in Hq.
    symmetry. exact Hq.
  - intros va _ _. unfold leafpte. rewrite lookup_singleton_ne by discriminate. reflexivity.
  - exists k', r. split; [exact H|]. split; [exact Hrun|].
    destruct Hres as [(-> & _)|(_ & _ & Hl)]; [reflexivity|].
    change (npages 0 (PGROUNDUP PGSIZE)) with 1%nat in Hl. lia.
Defined.

Lemma copyin_spec_witness :
  exists r bs, copyin root16 0 5 w0 as0 = Ret w0 as0 (r, bs) /\ r = -1.
Proof.
  destruct (copyin_spec kend16 kend16_ok w0 as0 free15 root16 tree0 0 5 (ui_vm _ _ _ _ _ _ as0_inv))
    as (r & bs & Hrun & Hres); [lia|lia|].
  exists r, bs. split; [exact Hrun|]. exact Hres.
Defined.

Lemma copyout_spec_witness :
  exists l T k' r j, one_page as1 l T /\
    copyout root16 0 [104; 105; 0] w0 as1 = Ret w0 k' r /\
    ucopied (km_mem as1) (km_mem k') T 0 (take j [104; 105; 0]).
Proof.
  destruct as1_inv as (l & T & H & _). exists l, T.
  destruct (copyout_spec kend16 kend16_ok w0 as1 l root16 T 0 [104; 105; 0]
              (ui_vm _ _ _ _ _ _ (proj1 H)) (one_page_upages as1 l T H))
    as (k' & r & j & Hrun & _ & _ & Hc & _); [lia|repeat constructor; done|].
  exists k', r, j. split; [exact H|]. split; [exact Hrun|exact Hc].
Defined.

Lemma copyout_copyin_witness :
  exists k', copyout root16 0 [104; 105; 0] w0 as1 = Ret w0 k' 0 /\
    copyin root16 0 3 w0 k' = Ret w0 k' (0, [104; 105; 0]).
Proof.
  destruct as1_inv as (l & T & H & _). destruct (one_page_copyout as1 l T H) as (k' & Hout).
  exists k'. split; [exact Hout|].
  apply (copyout_copyin kend16 kend16_ok w0 as1 l root16 T 0 [104; 105; 0] k'
           (ui_vm _ _ _ _ _ _ (proj1 H)) (one_page_upages as1 l T H));
    [lia|repeat constructor; done|exact Hout].
Defined.

Lemma copyinstr_spec_witness :
  exists r bs, copyinstr root16 0 5 w0 as0 = Ret w0 as0 (r, bs) /\ r = -1.
Proof.
  destruct (copyinstr_spec kend16 kend16_ok w0 as0 free15 root16 tree0 0 5
              (ui_vm _ _ _ _ _ _ as0_inv)) as (r & bs & Hrun & Hres); [lia|lia|].
  exists r, bs. split; [exact Hrun|]. exact Hres.
Defined.

Lemma uvmfree_spec_witness :
  exists l T k' l', one_page as1 l T /\ uvmfree kend16 root16 PGSIZE w0 as1 = Ret w0 k' tt /\
    kmem_inv kend16 k' l' /\ (forall b, b ∈ l' <-> accounted as1 l T 0 PGSIZE b).
Proof.
  destruct as1_inv as (l & T & H & _). exists l, T. pose proof H as (Hu & Hab & _).
  destruct (uvmfree_spec kend16 kend16_ok w0 as1 l root16 T PGSIZE no_locks_held Hu)
    as (k' & l' & Hrun & Hk & Hb); [rewrite MAXVA_val; unfold PGSIZE; lia|exact Hab|].
  exists k', l'. split; [exact H|]. split; [exact Hrun|]. split; [exact Hk|exact Hb].
Defined.
