(* ===== verification/Bio.v ===== *)
(** * kernel/bio.c: the buffer cache

    Buffers are numbered; number [HEAD] is [bcache.head].  The list of buffers in
    order of use is threaded through them, as in the code.  The disk is the list
    of writes it has received, most recent first. *)

From S2P Require Import Prelude Machine Sleeplock Mem Layout.

Definition BSIZE : Z := 1024.

(** [struct buf]. *)
Record buf := Buf {
  b_valid : bool; b_disk : bool; b_dev : Z; b_blockno : Z; b_lock : sleeplock;
  b_refcnt : Z; b_prev : Z; b_next : Z; b_data : mem }.

Definition buf0 : buf := Buf false false 0 0 (Sleeplock 0 "" 0) 0 0 0 ∅.

Definition set_valid v b := Buf v (b_disk b) (b_dev b) (b_blockno b) (b_lock b) (b_refcnt b) (b_prev b) (b_next b) (b_data b).
Definition set_block d n b := Buf (b_valid b) (b_disk b) d n (b_lock b) (b_refcnt b) (b_prev b) (b_next b) (b_data b).
Definition set_block_lock l b := Buf (b_valid b) (b_disk b) (b_dev b) (b_blockno b) l (b_refcnt b) (b_prev b) (b_next b) (b_data b).
Definition set_refcnt r b := Buf (b_valid b) (b_disk b) (b_dev b) (b_blockno b) (b_lock b) r (b_prev b) (b_next b) (b_data b).
Definition set_prev p b := Buf (b_valid b) (b_disk b) (b_dev b) (b_blockno b) (b_lock b) (b_refcnt b) p (b_next b) (b_data b).
Definition set_next p b := Buf (b_valid b) (b_disk b) (b_dev b) (b_blockno b) (b_lock b) (b_refcnt b) (b_prev b) p (b_data b).
Definition set_data d b := Buf (b_valid b) (b_disk b) (b_dev b) (b_blockno b) (b_lock b) (b_refcnt b) (b_prev b) (b_next b) d.

(** A block of zeros: what a blank disk holds. *)
Definition zero_block : mem := memset ∅ 0 0 BSIZE.

Abbreviation history := (list (Z * mem)).

Record bcache := Bcache { bufs : gmap Z buf; hist : history }.

Definition HEAD : Z := NBUF.

(** [bcache] before [binit]: all zero. *)
Definition bcache0 (h : history) : bcache :=
  Bcache (list_to_map (map (fun i => (i, buf0)) (seqZ 0 (NBUF + 1)))) h.

Definition buf_at (s : bcache) (b : Z) : buf := default buf0 (bufs s !! b).

Definition upd_buf (b : Z) (f : buf -> buf) (s : bcache) : bcache :=
  Bcache (alter f b (bufs s)) (hist s).

Definition getb {A} (f : buf -> A) (b : Z) : M bcache A := gets (fun s => f (buf_at s b)).

Definition setb (b : Z) (f : buf -> buf) : M bcache unit := modify (upd_buf b f).

(** The block [n] of the disk. *)
Fixpoint disk_read (h : history) (n : Z) : mem :=
  match h with
  | [] => zero_block
  | (n', d) :: h => if n' =? n then d else disk_read h n
  end.

(** What a disk driver promises: the effect of [virtio_disk_rw(b, write)] when it
    returns, called without spin locks held. *)
Definition disk_load (b : Z) (s : bcache) : bcache :=
  upd_buf b (set_data (disk_read (hist s) (b_blockno (buf_at s b)))) s.

Definition disk_store (b : Z) (s : bcache) : bcache :=
  Bcache (bufs s) ((b_blockno (buf_at s b), b_data (buf_at s b)) :: hist s).

(** The buffer is not in transfer, and its block has a sector number of 32 bits. *)
Definition transferable (b : Z) (s : bcache) : Prop :=
  is_Some (bufs s !! b) /\ b_disk (buf_at s b) = false /\ 0 <= b_blockno (buf_at s b) < 2 ^ 31.

Class DiskDriver (rw : Z -> bool -> M bcache unit) : Prop := {
  rw_read b w s : held w = [] -> transferable b s -> rw b false w s = Ret w (disk_load b s) tt;
  rw_write b w s : held w = [] -> transferable b s -> rw b true w s = Ret w (disk_store b s) tt }.

Section bio.
Variable virtio_disk_rw : Z -> bool -> M bcache unit.
(** The running process, and how many failed wakeups a wait for a buffer may
    have. *)
Variables (pid : Z) (fuel : nat).

Definition buf_lock (b : Z) : lens bcache sleeplock :=
  Lens _ _ (fun s => b_lock (buf_at s b)) (fun l => upd_buf b (set_block_lock l)).

Definition binit_buf (b : Z) : M bcache unit :=
  n ← getb b_next HEAD;
  setb b (set_next n);;
  setb b (set_prev HEAD);;
  setb b (set_block_lock (initsleeplock "buffer"));;
  n ← getb b_next HEAD;
  setb n (set_prev b);;
  setb HEAD (set_next b).

Fixpoint binit_loop (b : Z) (n : nat) : M bcache unit :=
  match n with
  | O => mret tt
  | S n => binit_buf b;; binit_loop (b + 1) n
  end.

Definition binit : M bcache unit :=
  setb HEAD (set_prev HEAD);;
  setb HEAD (set_next HEAD);;
  binit_loop 0 (Z.to_nat NBUF).

(** Both loops of [bget]: follow the list from [b] to the first buffer that
    passes the test; the list has [NBUF] elements. *)
Fixpoint scan (step : buf -> Z) (test : buf -> bool) (b : Z) (n : nat) : M bcache (option Z) :=
  if b =? HEAD then mret None
  else
    match n with
    | O => diverge
    | S n =>
        t ← getb test b;
        if (t : bool) then mret (Some b)
        else nb ← getb step b; scan step test nb n
    end.

Definition bget (dev blockno : Z) : M bcache Z :=
  acquire LkBcache;;
  b ← getb b_next HEAD;
  r ← scan b_next (fun x => (b_dev x =? dev) && (b_blockno x =? blockno)) b (Z.to_nat NBUF);
  match r with
  | Some b =>
      setb b (fun x => set_refcnt (u32 (b_refcnt x + 1)) x);;
      release LkBcache;;
      zoom (buf_lock b) (acquiresleep b fuel pid);;
      mret b
  | None =>
      b ← getb b_prev HEAD;
      r ← scan b_prev (fun x => b_refcnt x =? 0) b (Z.to_nat NBUF);
      match r with
      | Some b =>
          setb b (set_block dev blockno);;
          setb b (set_valid false);;
          setb b (set_refcnt 1);;
          release LkBcache;;
          zoom (buf_lock b) (acquiresleep b fuel pid);;
          mret b
      | None => panic "bget: no buffers"
      end
  end.

Definition bread (dev blockno : Z) : M bcache Z :=
  b ← bget dev blockno;
  v ← getb b_valid b;
  when (negb v) (virtio_disk_rw b false;; setb b (set_valid true));;
  mret b.

Definition bwrite (b : Z) : M bcache unit :=
  h ← zoom (buf_lock b) (holdingsleep b pid);
  if negb h then panic "bwrite" else virtio_disk_rw b true.

(** Take [b] out of the list and put it behind the head. *)
Definition relink (b : Z) : M bcache unit :=
  n ← getb b_next b;
  p ← getb b_prev b;
  setb n (set_prev p);;
  n ← getb b_next b;
  p ← getb b_prev b;
  setb p (set_next n);;
  n ← getb b_next HEAD;
  setb b (set_next n);;
  setb b (set_prev HEAD);;
  n ← getb b_next HEAD;
  setb n (set_prev b);;
  setb HEAD (set_next b).

Definition brelse (b : Z) : M bcache unit :=
  h ← zoom (buf_lock b) (holdingsleep b pid);
  if negb h then panic "brelse"
  else
    zoom (buf_lock b) (releasesleep b);;
    acquire LkBcache;;
    setb b (fun x => set_refcnt (u32 (b_refcnt x - 1)) x);;
    r ← getb b_refcnt b;
    when (r =? 0) (relink b);;
    release LkBcache.

Definition bpin (b : Z) : M bcache unit :=
  acquire LkBcache;;
  setb b (fun x => set_refcnt (u32 (b_refcnt x + 1)) x);;
  release LkBcache.

Definition bunpin (b : Z) : M bcache unit :=
  acquire LkBcache;;
  setb b (fun x => set_refcnt (u32 (b_refcnt x - 1)) x);;
  release LkBcache.
End bio.
