(* ===== verification/BioInv.v ===== *)
(** * The buffer cache as a map from blocks to contents

    [bio_inv] is the invariant of the cache.  [bview] is the contents a reader of
    a block gets, from the cache or from the disk. *)

From stdpp Require Import functions.
From S2P Require Import Prelude Machine Sleeplock Mem Layout Bio.

(** ** Pointer chains *)

(** Following [f] from [p] visits [l] and arrives at [q]. *)
Fixpoint seg (f : Z -> Z) (p : Z) (l : list Z) (q : Z) : Prop :=
  match l with
  | [] => f p = q
  | b :: l => f p = b /\ seg f b l q
  end.

Lemma seg_ext f g p l q :
  (forall x, x = p \/ x ∈ l -> f x = g x) -> seg f p l q -> seg g p l q.
Proof.
  revert p. induction l as [|b l IH]; intros p Heq; simpl.
  - intros <-. symmetry. apply Heq. by left.
  - intros [<- Hs]. split; [symmetry; apply Heq; by left|].
    apply IH; [|done]. intros x Hx. apply Heq. right. set_solver.
Qed.

Lemma seg_app f p l1 b l2 q : seg f p (l1 ++ b :: l2) q <-> seg f p l1 b /\ seg f b l2 q.
Proof.
  revert p. induction l1 as [|y l1 IH]; intros p; simpl; [done|]. rewrite IH. tauto.
Qed.

Lemma last_cons_default {A} (l : list A) a d : List.last (a :: l) d = List.last l a.
Proof. revert a. induction l as [|b l IH]; intros a; [done|]. simpl in *. by destruct l. Qed.

Lemma seg_last f p l q : seg f p l q -> f (List.last l p) = q.
Proof.
  revert p. induction l as [|b l IH]; intros p; [done|]. intros [_ Hs].
  rewrite last_cons_default. by apply IH.
Qed.

Lemma last_in {A} (l : list A) (d : A) : List.last l d = d \/ List.last l d ∈ l.
Proof.
  revert d. induction l as [|a l IH]; intros d; [by left|]. rewrite last_cons_default.
  destruct (IH a) as [->|?]; right; [left|by right].
Qed.

Lemma seg_remove f p l1 b l2 q :
  NoDup (p :: l1 ++ b :: l2) -> seg f p (l1 ++ b :: l2) q ->
  seg (<[List.last l1 p := f b]> f) p (l1 ++ l2) q.
Proof.
  revert p. induction l1 as [|y l1 IH]; intros p Hnd Hs.
  - simpl in *. destruct Hs as [_ Hs]. apply NoDup_cons in Hnd as [Hp Hnd].
    destruct l2 as [|c l2]; simpl in *; [by rewrite fn_lookup_insert|].
    destruct Hs as [Hbc Hs]. rewrite fn_lookup_insert. split; [done|].
    eapply seg_ext; [|exact Hs]. intros x Hx. rewrite fn_lookup_insert_ne; [done|]. set_solver.
  - rewrite last_cons_default. simpl in Hs |- *. destruct Hs as [Hy Hs].
    apply NoDup_cons in Hnd as [Hp Hnd]. split; [|by apply IH].
    rewrite fn_lookup_insert_ne; [done|]. intros Heq.
    destruct (last_in l1 y) as [Hl|Hl]; rewrite ?Hl, Heq in *; set_solver.
Qed.

Lemma seg_push f p l q b :
  b <> p -> b ∉ l -> p ∉ l -> seg f p l q -> seg (<[p := b]> (<[b := f p]> f)) p (b :: l) q.
Proof.
  intros Hbp Hbl Hpl Hs. simpl. rewrite fn_lookup_insert. split; [done|].
  destruct l as [|c l]; simpl in *.
  - by rewrite fn_lookup_insert_ne, fn_lookup_insert by done.
  - destruct Hs as [Hc Hs]. rewrite fn_lookup_insert_ne, fn_lookup_insert by done.
    split; [done|]. eapply seg_ext; [|exact Hs]. intros x Hx.
    rewrite !fn_lookup_insert_ne; [done|set_solver|set_solver].
Qed.

Lemma seg_snoc f p l q b :
  b <> p -> b ∉ l -> NoDup (p :: l) -> seg f p l q ->
  seg (<[List.last l p := b]> (<[b := q]> f)) p (l ++ [b]) q.
Proof.
  intros Hbp Hbl. revert p Hbp. induction l as [|y l IH]; intros p Hbp Hnd Hs.
  - simpl. rewrite fn_lookup_insert. split; [done|].
    by rewrite fn_lookup_insert_ne, fn_lookup_insert.
  - rewrite last_cons_default. simpl in Hs |- *. destruct Hs as [Hy Hs].
    apply NoDup_cons in Hnd as [Hp Hnd].
    split; [|apply IH; [set_solver|set_solver|done|done]].
    rewrite !fn_lookup_insert_ne; [done|done|]. intros Heq.
    destruct (last_in l y) as [Hl|Hl]; rewrite ?Hl, Heq in *; set_solver.
Qed.

(** ** The list of buffers *)

Definition nextf (s : bcache) (i : Z) : Z := b_next (buf_at s i).

Definition prevf (s : bcache) (i : Z) : Z := b_prev (buf_at s i).

Definition has_bufs (s : bcache) : Prop := forall i, 0 <= i <= NBUF -> is_Some (bufs s !! i).

Record linked (s : bcache) (lru : list Z) : Prop := {
  li_perm : lru ≡ₚ seqZ 0 NBUF;
  li_next : seg (nextf s) HEAD lru HEAD;
  li_prev : seg (prevf s) HEAD (reverse lru) HEAD }.

Lemma buf_at_upd b f s i :
  is_Some (bufs s !! b) ->
  buf_at (upd_buf b f s) i = if decide (i = b) then f (buf_at s i) else buf_at s i.
Proof.
  intros [x Hx]. unfold buf_at, upd_buf. simpl. case_decide as E.
  - subst. by rewrite lookup_alter_eq, Hx.
  - by rewrite lookup_alter_ne by done.
Qed.

Lemma has_bufs_upd b f s : has_bufs s -> has_bufs (upd_buf b f s).
Proof. intros H i Hi. unfold upd_buf. simpl. rewrite lookup_alter_is_Some. by apply H. Qed.

Lemma lru_range s lru b : linked s lru -> b ∈ lru -> 0 <= b < NBUF.
Proof. intros [Hp _ _] Hb. rewrite Hp in Hb. by apply elem_of_seqZ in Hb. Qed.

Lemma lru_in s lru b : linked s lru -> 0 <= b < NBUF -> b ∈ lru.
Proof. intros [Hp _ _] Hb. rewrite Hp. by apply elem_of_seqZ. Qed.

Lemma lru_nodup s lru : linked s lru -> NoDup (HEAD :: lru).
Proof.
  intros H. apply NoDup_cons. split.
  - intros Hin%(lru_range _ _ _ H). unfold HEAD in Hin. lia.
  - rewrite (li_perm _ _ H). apply NoDup_seqZ.
Qed.

Lemma seg_hd f p l q : seg f p l q -> f p = List.hd q l.
Proof. destruct l; [done|]. by intros [? _]. Qed.

Lemma hd_reverse {A} (l : list A) d : List.hd d (reverse l) = List.last l d.
Proof.
  induction l as [|a l IH] using rev_ind; [done|]. rewrite reverse_app. simpl.
  by rewrite last_last.
Qed.

Lemma last_reverse {A} (l : list A) d : List.last (reverse l) d = List.hd d l.
Proof. by rewrite <-hd_reverse, reverse_involutive. Qed.

Lemma nextf_set_next s x y i : is_Some (bufs s !! x) ->
  nextf (upd_buf x (set_next y) s) i = <[x := y]> (nextf s) i.
Proof.
  intros H. unfold nextf. rewrite buf_at_upd by done. case_decide as E.
  - subst. by rewrite fn_lookup_insert.
  - by rewrite fn_lookup_insert_ne by done.
Qed.

Lemma prevf_set_prev s x y i : is_Some (bufs s !! x) ->
  prevf (upd_buf x (set_prev y) s) i = <[x := y]> (prevf s) i.
Proof.
  intros H. unfold prevf. rewrite buf_at_upd by done. case_decide as E.
  - subst. by rewrite fn_lookup_insert.
  - by rewrite fn_lookup_insert_ne by done.
Qed.

Lemma nextf_set_prev s x y i : is_Some (bufs s !! x) ->
  nextf (upd_buf x (set_prev y) s) i = nextf s i.
Proof. intros H. unfold nextf. rewrite buf_at_upd by done. by case_decide. Qed.

Lemma prevf_set_next s x y i : is_Some (bufs s !! x) ->
  prevf (upd_buf x (set_next y) s) i = prevf s i.
Proof. intros H. unfold prevf. rewrite buf_at_upd by done. by case_decide. Qed.

(** Everything but the list pointers. *)
Definition payload (x : buf) : buf := set_prev 0 (set_next 0 x).

Lemma payload_set_next s x y i : payload (buf_at (upd_buf x (set_next y) s) i) = payload (buf_at s i).
Proof.
  unfold buf_at, upd_buf. simpl. destruct (decide (i = x)) as [->|Hne].
  - rewrite lookup_alter_eq. by destruct (bufs s !! x).
  - by rewrite lookup_alter_ne by done.
Qed.

Lemma payload_set_prev s x y i : payload (buf_at (upd_buf x (set_prev y) s) i) = payload (buf_at s i).
Proof.
  unfold buf_at, upd_buf. simpl. destruct (decide (i = x)) as [->|Hne].
  - rewrite lookup_alter_eq. by destruct (bufs s !! x).
  - by rewrite lookup_alter_ne by done.
Qed.

(** The neighbours of [b] in the list. *)
Lemma linked_split s l1 b l2 :
  linked s (l1 ++ b :: l2) ->
  nextf s b = List.hd HEAD l2 /\ prevf s b = List.last l1 HEAD /\
  0 <= nextf s b <= NBUF /\ 0 <= prevf s b <= NBUF /\ nextf s b <> b /\ prevf s b <> b /\ 0 <= b < NBUF.
Proof.
  intros H. pose proof (lru_nodup _ _ H) as Hnd. pose proof (fun x => lru_range s _ x H) as Hr.
  assert (Hn : nextf s b = List.hd HEAD l2).
  { destruct H as [_ Hn _]. rewrite seg_app in Hn. by apply seg_hd, Hn. }
  assert (Hp : prevf s b = List.last l1 HEAD).
  { destruct H as [_ _ Hp]. rewrite reverse_app, reverse_cons, <-app_assoc in Hp. simpl in Hp.
    rewrite seg_app in Hp. rewrite <-hd_reverse. by apply seg_hd, Hp. }
  assert (Hb : 0 <= b < NBUF) by (apply Hr; set_solver).
  apply NoDup_cons in Hnd as [_ Hnd]. apply NoDup_app in Hnd as (_ & Hd & Hnd).
  apply NoDup_cons in Hnd as [Hb2 _].
  assert (Hn' : nextf s b = HEAD \/ nextf s b ∈ l2)
    by (rewrite Hn; destruct l2; [by left|right; left]).
  assert (Hp' : prevf s b = HEAD \/ prevf s b ∈ l1) by (rewrite Hp; apply last_in).
  assert (HH : HEAD = NBUF) by done. split_and!; try done.
  - destruct Hn' as [->|Hin]; [lia|]. pose proof (Hr (nextf s b) ltac:(set_solver)). lia.
  - destruct Hn' as [->|Hin]; [lia|]. pose proof (Hr (nextf s b) ltac:(set_solver)). lia.
  - destruct Hp' as [->|Hin]; [lia|]. pose proof (Hr (prevf s b) ltac:(set_solver)). lia.
  - destruct Hp' as [->|Hin]; [lia|]. pose proof (Hr (prevf s b) ltac:(set_solver)). lia.
  - destruct Hn' as [->|Hin]; [lia|]. by intros Heq; rewrite Heq in Hin.
  - destruct Hp' as [->|Hin]; [lia|]. intros Heq. rewrite Heq in Hin. apply (Hd b Hin). left.
  - lia.
  - lia.
Qed.

Definition relinked (s : bcache) (b : Z) : bcache :=
  let n := nextf s b in
  let p := prevf s b in
  let s := upd_buf p (set_next n) (upd_buf n (set_prev p) s) in
  let h := nextf s HEAD in
  upd_buf HEAD (set_next b) (upd_buf h (set_prev b)
    (upd_buf b (set_prev HEAD) (upd_buf b (set_next h) s))).

Lemma relinked_payload s b i : payload (buf_at (relinked s b) i) = payload (buf_at s i).
Proof. unfold relinked. by repeat (rewrite payload_set_next || rewrite payload_set_prev). Qed.

Section relink.
Context (s : bcache) (l1 : list Z) (b : Z) (l2 : list Z).
Context (Hhas : has_bufs s) (Hlink : linked s (l1 ++ b :: l2)).

Let n : Z := nextf s b.
Let p : Z := prevf s b.
Let s2 : bcache := upd_buf p (set_next n) (upd_buf n (set_prev p) s).
Let h : Z := nextf s2 HEAD.

Lemma relink_next2 i : nextf s2 i = <[p := n]> (nextf s) i.
Proof.
  destruct (linked_split _ _ _ _ Hlink) as (_ & _ & Hn & Hp & _).
  unfold s2. rewrite nextf_set_next by (apply has_bufs_upd; [done|apply Hp]).
  destruct (decide (i = p)) as [->|Hne]; [by rewrite !fn_lookup_insert|].
  rewrite !fn_lookup_insert_ne by done. apply nextf_set_prev, Hhas, Hn.
Qed.

Lemma relink_prev2 i : prevf s2 i = <[n := p]> (prevf s) i.
Proof.
  destruct (linked_split _ _ _ _ Hlink) as (_ & _ & Hn & Hp & _).
  unfold s2. rewrite prevf_set_next by (apply has_bufs_upd; [done|apply Hp]).
  apply prevf_set_prev, Hhas, Hn.
Qed.

Lemma relink_mid :
  seg (nextf s2) HEAD (l1 ++ l2) HEAD /\ seg (prevf s2) HEAD (reverse (l1 ++ l2)) HEAD /\
  h = List.hd HEAD (l1 ++ l2) /\ 0 <= h <= NBUF /\ h <> b.
Proof.
  destruct (linked_split _ _ _ _ Hlink) as (En & Ep & _). fold n p in En, Ep.
  pose proof (lru_nodup _ _ Hlink) as Hnd.
  assert (H1 : seg (nextf s2) HEAD (l1 ++ l2) HEAD).
  { eapply seg_ext; [intros x _; symmetry; apply relink_next2|]. rewrite Ep.
    apply seg_remove; [done|apply Hlink]. }
  assert (H2 : seg (prevf s2) HEAD (reverse (l1 ++ l2)) HEAD).
  { eapply seg_ext; [intros x _; symmetry; apply relink_prev2|]. rewrite reverse_app, En, <-last_reverse.
    pose proof (li_prev _ _ Hlink) as Hs.
    rewrite reverse_app, reverse_cons, <-app_assoc in Hs. apply seg_remove; [|done].
    assert (HP : HEAD :: reverse l2 ++ b :: reverse l1 ≡ₚ HEAD :: l1 ++ b :: l2).
    { constructor. rewrite <-(reverse_Permutation (l1 ++ b :: l2)).
      by rewrite reverse_app, reverse_cons, <-app_assoc. }
    by rewrite HP. }
  assert (Hh : h = List.hd HEAD (l1 ++ l2)) by by apply seg_hd.
  assert (Hcase : h = HEAD \/ h ∈ l1 ++ l2).
  { rewrite Hh. destruct (l1 ++ l2); [by left|right; left]. }
  split_and!; [done..| | |].
  1, 2: destruct Hcase as [->|Hin]; [done|];
        pose proof (lru_range s _ h Hlink ltac:(set_solver)); lia.
  destruct Hcase as [->|Hin].
  - apply NoDup_cons in Hnd as [Hnd _]. set_solver.
  - intros ->. apply NoDup_cons in Hnd as [_ Hnd]. rewrite <-Permutation_middle in Hnd.
    by apply NoDup_cons in Hnd as [Hnd _].
Qed.

Lemma relink_linked : linked (relinked s b) (b :: l1 ++ l2) /\ has_bufs (relinked s b).
Proof.
  destruct relink_mid as (H1 & H2 & Hh & Hhr & Hhb).
  pose proof (lru_nodup _ _ Hlink) as Hnd.
  destruct (linked_split _ _ _ _ Hlink) as (_ & _ & _ & _ & _ & _ & Hb).
  assert (Hnd' : NoDup (HEAD :: b :: l1 ++ l2)).
  { by rewrite Permutation_middle. }
  apply NoDup_cons in Hnd' as [HH Hnd']. apply NoDup_cons in Hnd' as [Hbl Hnd'].
  assert (Hhas2 : has_bufs s2) by by repeat apply has_bufs_upd.
  assert (Hbs : is_Some (bufs s2 !! b)) by (apply Hhas2; lia).
  set (s3 := upd_buf b (set_next h) s2). set (s4 := upd_buf b (set_prev HEAD) s3).
  set (s5 := upd_buf h (set_prev b) s4).
  assert (Hhas5 : has_bufs s5) by by repeat apply has_bufs_upd.
  change (relinked s b) with (upd_buf HEAD (set_next b) s5).
  split; [|by apply has_bufs_upd]. split.
  - rewrite Permutation_middle. apply Hlink.
  - eapply seg_ext; [|apply (seg_push (nextf s2) HEAD (l1 ++ l2) HEAD b); [set_solver..|done]].
    intros x _. rewrite nextf_set_next by (apply Hhas5; unfold HEAD; done).
    destruct (decide (x = HEAD)) as [->|Hx]; [by rewrite !fn_lookup_insert|].
    rewrite !(fn_lookup_insert_ne _ HEAD) by done. unfold s5, s4.
    rewrite nextf_set_prev, nextf_set_prev by (repeat apply has_bufs_upd; done || lia).
    unfold s3. by rewrite nextf_set_next.
  - rewrite reverse_cons.
    eapply seg_ext; [|apply (seg_snoc (prevf s2) HEAD (reverse (l1 ++ l2)) HEAD b)].
    + intros x _. rewrite prevf_set_next by (apply Hhas5; unfold HEAD; done).
      rewrite last_reverse, <-Hh. unfold s5.
      rewrite prevf_set_prev by (repeat apply has_bufs_upd; done).
      destruct (decide (x = h)) as [->|Hx]; [by rewrite !fn_lookup_insert|].
      rewrite !(fn_lookup_insert_ne _ h) by done. unfold s4.
      rewrite prevf_set_prev by (repeat apply has_bufs_upd; done || lia).
      destruct (decide (x = b)) as [->|Hxb]; [by rewrite !fn_lookup_insert|].
      rewrite !(fn_lookup_insert_ne _ b) by done. symmetry. by apply prevf_set_next.
    + set_solver.
    + by rewrite elem_of_reverse.
    + rewrite reverse_Permutation. apply NoDup_cons. split; [set_solver|done].
    + done.
Qed.

Lemma relink_run w : relink b w s = Ret w (relinked s b) tt.
Proof.
  destruct (linked_split _ _ _ _ Hlink) as (_ & _ & Hn & Hp & Hnb & Hpb & Hb).
  destruct relink_mid as (_ & _ & _ & Hhr & Hhb).
  assert (Hhas2 : has_bufs s2) by by repeat apply has_bufs_upd.
  unfold relink, getb, setb. autorewrite with run.
  change (b_next (buf_at s b)) with n. change (b_prev (buf_at s b)) with p.
  set (s1 := upd_buf n (set_prev p) s).
  assert (En : b_next (buf_at s1 b) = n) by (by apply nextf_set_prev, Hhas).
  assert (Ep : b_prev (buf_at s1 b) = p).
  { change (prevf s1 b = p). unfold s1. rewrite prevf_set_prev by by apply Hhas.
    by rewrite fn_lookup_insert_ne. }
  rewrite En, Ep. change (upd_buf p (set_next n) s1) with s2.
  change (b_next (buf_at s2 HEAD)) with h.
  assert (Eh : b_next (buf_at (upd_buf b (set_prev HEAD) (upd_buf b (set_next h) s2)) HEAD) = h).
  { change (nextf (upd_buf b (set_prev HEAD) (upd_buf b (set_next h) s2)) HEAD = h).
    rewrite nextf_set_prev, nextf_set_next by (repeat apply has_bufs_upd; done || lia).
    rewrite fn_lookup_insert_ne; [done|]. unfold HEAD. lia. }
  by rewrite Eh.
Qed.
End relink.
