(* ===== verification/BioSpec.v ===== *)
(** * Specification of the buffer cache

    [abuf] is what clients of the cache rely on: the contents of every block, the
    writes the disk has received, and for each block in use the buffer that
    holds it, its reference count and whether it is locked.  The operations of
    kernel/bio.c implement operations on [abuf]. *)

From S2P Require Import Prelude Machine Sleeplock Mem Layout Bio BioInv.

(** ** Finding a block *)

Definition is_block (s : bcache) (n i : Z) : Prop :=
  0 <= i < NBUF /\ b_dev (buf_at s i) = ROOTDEV /\ b_blockno (buf_at s i) = n.

#[export] Instance is_block_dec s n i : Decision (is_block s n i).
Proof. unfold is_block. apply _. Defined.

Definition find_buf (s : bcache) (n : Z) : option Z :=
  head (filter (is_block s n) (seqZ 0 NBUF)).

(** The contents of block [n]: the cached copy, or the disk's. *)
Definition bview (s : bcache) (n : Z) : mem :=
  match find_buf s n with
  | Some i => if b_valid (buf_at s i) then b_data (buf_at s i) else disk_read (hist s) n
  | None => disk_read (hist s) n
  end.

(** The buffer of block [n], its reference count, and whether it is locked. *)
Definition bentry (s : bcache) (n : Z) : option (Z * Z * bool) :=
  i ← find_buf s n;
  let x := buf_at s i in
  if b_refcnt x =? 0 then None
  else Some (i, b_refcnt x, negb (sl_locked (b_lock x) =? 0)).

(** ** Invariant *)

(** What holds of one buffer. *)
Record buf_ok (pid : Z) (h : history) (x : buf) : Prop := {
  bo_dev : b_dev x = 0 \/ b_dev x = ROOTDEV;
  bo_ref : 0 <= b_refcnt x < 2 ^ 32;
  bo_used : b_refcnt x <> 0 -> b_dev x = ROOTDEV /\ b_valid x = true;
  bo_clean : b_refcnt x = 0 -> b_dev x = ROOTDEV -> b_valid x = true ->
    b_data x = disk_read h (b_blockno x);
  bo_lock : sl_locked (b_lock x) <> 0 -> b_refcnt x <> 0 /\ sl_pid (b_lock x) = pid;
  bo_disk : b_disk x = false }.

Record bio_inv (pid : Z) (s : bcache) : Prop := {
  bi_has : has_bufs s;
  bi_link : exists lru, linked s lru;
  bi_ok i : 0 <= i < NBUF -> buf_ok pid (hist s) (buf_at s i);
  bi_uniq n i j : is_block s n i -> is_block s n j -> i = j }.

Record abuf := Abuf {
  a_view : Z -> mem; a_hist : history; a_refs : gmap Z (Z * Z * bool) }.

(** [s] is a cache in the abstract state [a]. *)
Record rep (pid : Z) (s : bcache) (a : abuf) : Prop := {
  re_inv : bio_inv pid s;
  re_hist : a_hist a = hist s;
  re_view n : a_view a n = bview s n;
  re_refs n : a_refs a !! n = bentry s n }.

Section facts.
Context (pid : Z) (s : bcache) (I : bio_inv pid s).

Lemma find_buf_Some n i : find_buf s n = Some i <-> is_block s n i.
Proof.
  unfold find_buf. split.
  - intros H%head_Some_elem_of. by apply list_elem_of_filter in H as [H _].
  - intros H. destruct (head (filter (is_block s n) (seqZ 0 NBUF))) as [j|] eqn:E.
    + apply head_Some_elem_of, list_elem_of_filter in E as [Hj _]. f_equal. by eapply bi_uniq.
    + apply head_None in E. exfalso. apply (not_elem_of_nil i). rewrite <-E.
      apply list_elem_of_filter. split; [done|]. apply elem_of_seqZ. destruct H. lia.
Qed.

Lemma find_buf_None n : find_buf s n = None <-> forall i, ~ is_block s n i.
Proof.
  split.
  - intros E i Hi%find_buf_Some. congruence.
  - intros H. destruct (find_buf s n) as [i|] eqn:E; [|done].
    apply find_buf_Some in E. by destruct (H i).
Qed.
End facts.

(** Caches that agree up to the list pointers. *)
Lemma is_block_ext s s' n i :
  payload (buf_at s' i) = payload (buf_at s i) -> is_block s' n i <-> is_block s n i.
Proof.
  intros H. unfold is_block.
  assert (b_dev (buf_at s' i) = b_dev (buf_at s i)) as -> by exact (f_equal b_dev H).
  by assert (b_blockno (buf_at s' i) = b_blockno (buf_at s i)) as -> by exact (f_equal b_blockno H).
Qed.

(** ** Changing one buffer *)

Section change.
Context (pid : Z) (s s' : bcache) (b n : Z) (x : buf).
Context (I : bio_inv pid s) (Hhas : has_bufs s') (Hlink : exists lru, linked s' lru).
Context (Hbr : 0 <= b < NBUF).
(** [b] already is block [n], or is taken over for it. *)
Context (Hb : is_block s n b \/ ((forall i, ~ is_block s n i) /\ b_refcnt (buf_at s b) = 0)).
Context (Hother : forall i, 0 <= i < NBUF -> i <> b -> payload (buf_at s' i) = payload (buf_at s i)).
Context (Hnew : payload (buf_at s' b) = payload x).
Context (Hdev : b_dev x = ROOTDEV) (Hno : b_blockno x = n).
Context (Hhist : forall n', n' <> n -> disk_read (hist s') n' = disk_read (hist s) n').
Context (Hok : buf_ok pid (hist s') x).

Lemma change_block i : is_block s' n i <-> i = b.
Proof.
  split.
  - intros Hi. destruct (decide (i = b)) as [|Hne]; [done|].
    pose proof (proj1 Hi) as Hr. apply (is_block_ext s s' n i) in Hi; [|by apply Hother].
    destruct Hb as [Hb'|[Hb' _]]; [by eapply bi_uniq|by destruct (Hb' i)].
  - intros ->. split; [done|].
    pose proof (f_equal b_dev Hnew) as H1. pose proof (f_equal b_blockno Hnew) as H2. simpl in H1, H2.
    split; congruence.
Qed.

Lemma change_other n' i : n' <> n -> is_block s' n' i <-> is_block s n' i /\ i <> b.
Proof.
  intros Hn. destruct (decide (i = b)) as [->|Hne].
  - split; [|by intros [_ ?]]. intros (_ & _ & H).
    pose proof (f_equal b_blockno Hnew) as H2. simpl in H2. congruence.
  - split.
    + intros Hi. split; [|done]. pose proof (proj1 Hi). by apply (is_block_ext s s'); [apply Hother|].
    + intros [Hi _]. pose proof (proj1 Hi). by apply (is_block_ext s s'); [apply Hother|].
Qed.

Lemma buf_ok_payload h y y' : payload y = payload y' -> buf_ok pid h y' -> buf_ok pid h y.
Proof.
  intros Hp. destruct y, y'. unfold payload, set_prev, set_next in Hp. simpl in Hp.
  injection Hp as -> -> -> -> -> -> ->. intros [? ? ? ? ? ?]. by split.
Qed.

Lemma change_inv : bio_inv pid s'.
Proof.
  split; [done|done| |].
  - intros i Hi. destruct (decide (i = b)) as [->|Hne]; [by eapply buf_ok_payload|].
    eapply buf_ok_payload; [by apply Hother|].
    pose proof (bi_ok _ _ I i Hi) as [H1 H2 H3 H4 H5 H6]. split; [done..| |done|done].
    intros Hr Hd Hv. rewrite Hhist; [by apply H4|].
    intros Hn. destruct Hb as [Hb'|[Hb' _]].
    + apply Hne, (bi_uniq _ _ I n); [by split|done].
    + by apply (Hb' i); split.
  - intros n' i j Hi Hj. destruct (decide (n' = n)) as [->|Hne].
    + apply change_block in Hi, Hj. congruence.
    + apply change_other in Hi as [Hi _], Hj as [Hj _]; [|done..]. by eapply bi_uniq.
Qed.

Lemma change_find : find_buf s' n = Some b.
Proof. apply (find_buf_Some pid s' change_inv), change_block. done. Qed.

(** The buffer of another block, unless it was the one taken over. *)
Lemma change_find_other n' : n' <> n ->
  (find_buf s' n' = find_buf s n' /\ find_buf s n' <> Some b) \/
  (find_buf s n' = Some b /\ find_buf s' n' = None /\ b_refcnt (buf_at s b) = 0).
Proof.
  intros Hn. destruct (find_buf s n') as [i|] eqn:E.
  - apply (find_buf_Some pid s I) in E. destruct (decide (i = b)) as [->|Hne].
    + right. split; [done|]. split.
      * apply (find_buf_None pid s' change_inv). intros j [Hj Hjb]%change_other; [|done].
        apply Hjb. by eapply bi_uniq.
      * destruct Hb as [(_ & _ & Hb')|[_ ?]]; [|done]. destruct E as (_ & _ & E). congruence.
    + left. split; [|congruence]. apply (find_buf_Some pid s' change_inv), change_other; done.
  - left. split; [|done]. pose proof (proj1 (find_buf_None pid s I n') E) as E'.
    apply (find_buf_None pid s' change_inv).
    intros i [Hi _]%change_other; [|done]. by apply (E' i).
Qed.

Lemma change_view_other n' : n' <> n -> bview s' n' = bview s n'.
Proof.
  intros Hn. unfold bview. destruct (change_find_other n' Hn) as [[-> Hnb]|(E & -> & Hr)].
  - destruct (find_buf s n') as [i|] eqn:E; [|by apply Hhist].
    apply (find_buf_Some pid s I) in E as (Hi & _).
    pose proof (Hother i Hi ltac:(congruence)) as Hp. rewrite Hhist by done.
    pose proof (f_equal b_valid Hp) as H1. pose proof (f_equal b_data Hp) as H2. simpl in H1, H2.
    by rewrite H1, H2.
  - rewrite E, Hhist by done. destruct (b_valid (buf_at s b)) eqn:Ev; [|done].
    apply (find_buf_Some pid s I) in E as (Hi & Hd & <-). symmetry. by apply (bi_ok _ _ I b Hi).
Qed.

Lemma change_entry_other n' : n' <> n -> bentry s' n' = bentry s n'.
Proof.
  intros Hn. unfold bentry. destruct (change_find_other n' Hn) as [[-> Hnb]|(-> & -> & Hr)]; simpl.
  - destruct (find_buf s n') as [i|] eqn:E; simpl; [|done].
    apply (find_buf_Some pid s I) in E as (Hi & _).
    pose proof (Hother i Hi ltac:(congruence)) as Hp.
    pose proof (f_equal b_refcnt Hp) as H1. pose proof (f_equal b_lock Hp) as H2. simpl in H1, H2.
    by rewrite H1, H2.
  - by rewrite Hr.
Qed.

Lemma change_view : bview s' n = if b_valid x then b_data x else disk_read (hist s') n.
Proof.
  unfold bview. rewrite change_find.
  pose proof (f_equal b_valid Hnew) as H1. pose proof (f_equal b_data Hnew) as H2. simpl in H1, H2.
  by rewrite H1, H2.
Qed.

Lemma change_entry :
  bentry s' n = if b_refcnt x =? 0 then None
                else Some (b, b_refcnt x, negb (sl_locked (b_lock x) =? 0)).
Proof.
  unfold bentry. rewrite change_find. simpl.
  pose proof (f_equal b_refcnt Hnew) as H1. pose proof (f_equal b_lock Hnew) as H2. simpl in H1, H2.
  by rewrite H1, H2.
Qed.
End change.

(** ** The operations *)

Lemma linked_upd b f s lru :
  (forall x, b_next (f x) = b_next x) -> (forall x, b_prev (f x) = b_prev x) ->
  linked s lru -> linked (upd_buf b f s) lru.
Proof.
  intros Hn Hp [H1 H2 H3].
  assert (Hat : forall i, nextf (upd_buf b f s) i = nextf s i /\ prevf (upd_buf b f s) i = prevf s i).
  { intros i. unfold nextf, prevf, buf_at, upd_buf. simpl. destruct (decide (i = b)) as [->|Hne].
    - rewrite lookup_alter_eq. destruct (bufs s !! b); simpl; [by rewrite Hn, Hp|done].
    - by rewrite lookup_alter_ne. }
  split; [done|..]; (eapply seg_ext; [|done]); intros x _; symmetry; apply Hat.
Qed.

Section ops.
Context (rw : Z -> bool -> M bcache unit) `{!DiskDriver rw} (pid : Z) (fuel : nat).

Lemma rep_change s s' b n x a a' :
  rep pid s a -> has_bufs s' -> (exists lru, linked s' lru) -> 0 <= b < NBUF ->
  (is_block s n b \/ ((forall i, ~ is_block s n i) /\ b_refcnt (buf_at s b) = 0)) ->
  (forall i, 0 <= i < NBUF -> i <> b -> payload (buf_at s' i) = payload (buf_at s i)) ->
  payload (buf_at s' b) = payload x -> b_dev x = ROOTDEV -> b_blockno x = n ->
  (forall n', n' <> n -> disk_read (hist s') n' = disk_read (hist s) n') ->
  buf_ok pid (hist s') x ->
  (forall n', n' <> n -> a_view a' n' = a_view a n') ->
  a_view a' n = (if b_valid x then b_data x else disk_read (hist s') n) ->
  a_hist a' = hist s' ->
  (forall n', n' <> n -> a_refs a' !! n' = a_refs a !! n') ->
  a_refs a' !! n = (if b_refcnt x =? 0 then None
                    else Some (b, b_refcnt x, negb (sl_locked (b_lock x) =? 0))) ->
  rep pid s' a'.
Proof.
  intros [I Hh Hv Hr] Hhas Hlink Hbr Hb Ho Hx Hd Hn Hhist Hok V1 V2 V3 R1 R2. split.
  - by eapply (change_inv pid s s' b n x).
  - done.
  - intros n'. destruct (decide (n' = n)) as [->|Hne].
    + rewrite V2. symmetry. by eapply (change_view pid s s' b n x).
    + rewrite V1, Hv by done. symmetry. by eapply (change_view_other pid s s' b n x).
  - intros n'. destruct (decide (n' = n)) as [->|Hne].
    + rewrite R2. symmetry. by eapply (change_entry pid s s' b n x).
    + rewrite R1, Hr by done. symmetry. by eapply (change_entry_other pid s s' b n x).
Qed.

(** What the abstract state says about a buffer in use. *)
Lemma rep_entry s a n b r lk :
  rep pid s a -> a_refs a !! n = Some (b, r, lk) ->
  is_block s n b /\ b_refcnt (buf_at s b) = r /\ r <> 0 /\
  lk = negb (sl_locked (b_lock (buf_at s b)) =? 0) /\ b_valid (buf_at s b) = true /\
  b_data (buf_at s b) = a_view a n /\ is_Some (bufs s !! b).
Proof.
  intros [I Hh Hv Hr] He. rewrite Hr in He. unfold bentry in He.
  destruct (find_buf s n) as [i|] eqn:E; simpl in He; [|done].
  destruct (b_refcnt (buf_at s i) =? 0) eqn:Er; [done|]. zbool. simplify_eq.
  pose proof (proj1 (find_buf_Some pid s I n b) E) as Hb. pose proof Hb as (Hbr & _).
  pose proof (bo_used _ _ _ (bi_ok _ _ I b Hbr) Er) as [_ Hval].
  split_and!; try done.
  - rewrite Hv. unfold bview. by rewrite E, Hval.
  - apply (bi_has _ _ I). lia.
Qed.

(** A change of a buffer in use that keeps its block and its list position. *)
Lemma rep_update s a a' n b r lk f h' :
  rep pid s a -> a_refs a !! n = Some (b, r, lk) ->
  (forall x, b_next (f x) = b_next x) -> (forall x, b_prev (f x) = b_prev x) ->
  (forall x, b_dev (f x) = b_dev x) -> (forall x, b_blockno (f x) = b_blockno x) ->
  (forall n', n' <> n -> disk_read h' n' = disk_read (hist s) n') ->
  buf_ok pid h' (f (buf_at s b)) ->
  (forall n', n' <> n -> a_view a' n' = a_view a n') ->
  a_view a' n = (if b_valid (f (buf_at s b)) then b_data (f (buf_at s b)) else disk_read h' n) ->
  a_hist a' = h' ->
  (forall n', n' <> n -> a_refs a' !! n' = a_refs a !! n') ->
  a_refs a' !! n = (if b_refcnt (f (buf_at s b)) =? 0 then None
     else Some (b, b_refcnt (f (buf_at s b)), negb (sl_locked (b_lock (f (buf_at s b))) =? 0))) ->
  rep pid (Bcache (bufs (upd_buf b f s)) h') a'.
Proof.
  intros R He Fn Fp Fd Fb Hhist Hok V1 V2 V3 R1 R2.
  destruct (rep_entry _ _ _ _ _ _ R He) as (Hb & _ & _ & _ & _ & _ & Hsome).
  pose proof (re_inv _ _ _ R) as I. destruct (bi_link _ _ I) as [lru Hl].
  pose proof Hb as (Hbr & Hbd & Hbn).
  assert (Hat : forall i, buf_at (Bcache (bufs (upd_buf b f s)) h') i =
                    if decide (i = b) then f (buf_at s i) else buf_at s i).
  { intros i. by apply (buf_at_upd b f s i). }
  eapply (rep_change s _ b n (f (buf_at s b)) a); try done.
  - apply (has_bufs_upd b f s), (bi_has _ _ I).
  - exists lru. destruct (linked_upd b f s lru Fn Fp Hl) as [H1 H2 H3]. by split.
  - by left.
  - intros i _ Hne. by rewrite Hat, decide_False.
  - by rewrite Hat, decide_True.
  - by rewrite Fd.
  - by rewrite Fb.
Qed.

(** The abstract operations. *)
Definition a_set_refs (n : Z) (e : Z * Z * bool) (a : abuf) : abuf :=
  Abuf (a_view a) (a_hist a) (<[n := e]> (a_refs a)).

Definition a_drop (n : Z) (a : abuf) : abuf :=
  Abuf (a_view a) (a_hist a) (delete n (a_refs a)).

Definition a_set_data (n : Z) (d : mem) (a : abuf) : abuf :=
  Abuf (fun n' => if n' =? n then d else a_view a n') (a_hist a) (a_refs a).

Definition a_disk_write (n : Z) (a : abuf) : abuf :=
  Abuf (a_view a) ((n, a_view a n) :: a_hist a) (a_refs a).

(** Changing only reference count and lock. *)
Lemma rep_set_refs s a n b r lk f r' lk' :
  rep pid s a -> a_refs a !! n = Some (b, r, lk) ->
  (forall x, f x = set_block_lock (b_lock (f x)) (set_refcnt (b_refcnt (f x)) x)) ->
  b_refcnt (f (buf_at s b)) = r' -> 0 < r' < 2 ^ 32 ->
  negb (sl_locked (b_lock (f (buf_at s b))) =? 0) = lk' ->
  (lk' = true -> sl_pid (b_lock (f (buf_at s b))) = pid) ->
  rep pid (upd_buf b f s) (a_set_refs n (b, r', lk') a).
Proof.
  intros R He Hf Hr' Hr'b Hlk Hpid.
  destruct (rep_entry _ _ _ _ _ _ R He) as (Hb & Hr & Hrn & _ & Hval & Hd & _).
  pose proof (re_inv _ _ _ R) as I. pose proof Hb as (Hbr & Hbd & Hbn).
  pose proof (bi_ok _ _ I b Hbr) as [O1 O2 O3 O4 O5 O6].
  eapply (rep_update s a _ n b r lk f (hist s)); try done.
  1, 2, 3, 4: intros x; by rewrite Hf.
  - split; rewrite ?Hr'.
    + by rewrite Hf.
    + lia.
    + intros _. by rewrite Hf.
    + lia.
    + intros Hl. split; [lia|]. apply Hpid. rewrite <-Hlk. by apply negb_true_iff, Z.eqb_neq.
    + by rewrite Hf.
  - rewrite Hf. simpl. by rewrite Hval.
  - apply (re_hist _ _ _ R).
  - intros n' Hne. simpl. by rewrite lookup_insert_ne.
  - simpl. rewrite lookup_insert_eq, Hr', Hlk. by rewrite (proj2 (Z.eqb_neq _ _)) by lia.
Qed.

Lemma world_eta w : held w = [] -> set_held [] w = w.
Proof. intros H. destruct w. simpl in H. by subst. Qed.

Lemma bpin_rep w s a n b r lk :
  LkBcache ∉ held w -> rep pid s a -> a_refs a !! n = Some (b, r, lk) -> 0 <= r -> r + 1 < 2 ^ 32 ->
  exists s', bpin b w s = Ret w s' tt /\ rep pid s' (a_set_refs n (b, r + 1, lk) a).
Proof.
  intros Hw R He H0 Hr. destruct (rep_entry _ _ _ _ _ _ R He) as (Hb & Hrr & Hrn & Hlk & _).
  pose proof (bi_ok _ _ (re_inv _ _ _ R) b (proj1 Hb)) as [_ _ _ _ O5 _].
  eexists. split.
  - unfold bpin. rewrite run_acquire by done.
    unfold setb. rewrite run_modify. by apply release_acquired.
  - eapply rep_set_refs; try done.
    + simpl. rewrite Hrr. apply u32_small. lia.
    + lia.
    + intros ->. simpl. apply O5. symmetry in Hlk. by apply negb_true_iff, Z.eqb_neq in Hlk.
Qed.

Lemma bunpin_rep w s a n b r lk :
  held w = [] -> rep pid s a -> a_refs a !! n = Some (b, r, lk) -> 1 < r < 2 ^ 32 ->
  exists s', bunpin b w s = Ret w s' tt /\ rep pid s' (a_set_refs n (b, r - 1, lk) a).
Proof.
  intros Hw R He Hr. destruct (rep_entry _ _ _ _ _ _ R He) as (Hb & Hrr & Hrn & Hlk & _).
  pose proof (bi_ok _ _ (re_inv _ _ _ R) b (proj1 Hb)) as [_ _ _ _ O5 _].
  eexists. split.
  - unfold bunpin. rewrite run_acquire by (rewrite Hw; apply not_elem_of_nil).
    unfold setb. rewrite run_modify. apply release_acquired. rewrite Hw. apply not_elem_of_nil.
  - eapply rep_set_refs; try done.
    + simpl. rewrite Hrr. apply u32_small. lia.
    + lia.
    + intros ->. simpl. apply O5. symmetry in Hlk. by apply negb_true_iff, Z.eqb_neq in Hlk.
Qed.

(** The holder of a buffer stores to its data. *)
Lemma set_data_rep s a n b r lk d :
  rep pid s a -> a_refs a !! n = Some (b, r, lk) ->
  rep pid (upd_buf b (set_data d) s) (a_set_data n d a).
Proof.
  intros R He. destruct (rep_entry _ _ _ _ _ _ R He) as (Hb & Hr & Hrn & Hlk & Hval & Hd & _).
  pose proof (bi_ok _ _ (re_inv _ _ _ R) b (proj1 Hb)) as [O1 O2 O3 O4 O5 O6].
  eapply (rep_update s a _ n b r lk (set_data d) (hist s)); try done.
  - split; simpl; try done. rewrite Hr. done.
  - intros n' Hne. simpl. by rewrite (proj2 (Z.eqb_neq _ _)).
  - simpl. by rewrite Z.eqb_refl, Hval.
  - apply (re_hist _ _ _ R).
  - simpl. rewrite Hr, He, (proj2 (Z.eqb_neq _ _)) by done. by rewrite Hlk.
Qed.

Lemma upd_buf_id b f s : f (buf_at s b) = buf_at s b -> is_Some (bufs s !! b) -> upd_buf b f s = s.
Proof.
  intros Hf [x Hx]. unfold upd_buf. destruct s as [m h]. simpl in *. f_equal.
  apply alter_id. intros y Hy. unfold buf_at in Hf. simpl in Hf. by rewrite Hy in Hf.
Qed.

(** The lock test of [bwrite] and [brelse]. *)
Lemma holding_buf w s b :
  held w = [] -> is_Some (bufs s !! b) ->
  zoom (buf_lock b) (holdingsleep b pid) w s =
  Ret w s (negb (sl_locked (b_lock (buf_at s b)) =? 0) && (sl_pid (b_lock (buf_at s b)) =? pid)).
Proof.
  intros Hw Hs. erewrite zoom_ret; [|by apply holdingsleep_eq]. simpl.
  rewrite upd_buf_id; [done|by destruct (buf_at s b)|done].
Qed.

Lemma locked_buf s a n b r :
  rep pid s a -> a_refs a !! n = Some (b, r, true) ->
  negb (sl_locked (b_lock (buf_at s b)) =? 0) && (sl_pid (b_lock (buf_at s b)) =? pid) = true.
Proof.
  intros R He. destruct (rep_entry _ _ _ _ _ _ R He) as (Hb & _ & _ & Hlk & _).
  pose proof (bi_ok _ _ (re_inv _ _ _ R) b (proj1 Hb)) as [_ _ _ _ O5 _].
  rewrite <-Hlk. simpl. symmetry in Hlk. apply negb_true_iff, Z.eqb_neq in Hlk.
  apply Z.eqb_eq. by apply O5.
Qed.

Lemma bwrite_rep w s a n b r :
  held w = [] -> rep pid s a -> a_refs a !! n = Some (b, r, true) -> 0 <= n < 2 ^ 31 ->
  exists s', bwrite rw pid b w s = Ret w s' tt /\ rep pid s' (a_disk_write n a).
Proof.
  intros Hw R He Hn. destruct (rep_entry _ _ _ _ _ _ R He) as (Hb & Hr & Hrn & Hlk & Hval & Hd & Hs).
  pose proof (bi_ok _ _ (re_inv _ _ _ R) b (proj1 Hb)) as [O1 O2 O3 O4 O5 O6].
  exists (disk_store b s). split.
  - unfold bwrite. run_step (holding_buf w s b Hw Hs). rewrite (locked_buf s a n b r R He). simpl.
    apply rw_write; [done|]. destruct Hb as (_ & _ & Hbn). repeat split; rewrite ?Hbn; try done; lia.
  - destruct Hb as (Hbr & Hbd & Hbn). unfold disk_store. rewrite Hbn, Hd.
    rewrite <-(upd_buf_id b (fun x => x) s eq_refl Hs) at 1.
    eapply (rep_update s a _ n b r true (fun x => x)); try done.
    + intros n' Hne. simpl. by rewrite (proj2 (Z.eqb_neq _ _)).
    + split; try done. rewrite Hr. done.
    + simpl. by rewrite Hval.
    + simpl. by rewrite (re_hist _ _ _ R).
    + simpl. by rewrite He, Hr, (proj2 (Z.eqb_neq _ _)), Hlk.
Qed.

(** Only the list pointers change. *)
Lemma rep_payload s s' a :
  rep pid s a -> has_bufs s' -> (exists lru, linked s' lru) ->
  (forall i, payload (buf_at s' i) = payload (buf_at s i)) -> hist s' = hist s -> rep pid s' a.
Proof.
  intros [I Hh Hv Hr] Hhas Hlink Hp Hhist.
  assert (Hf : forall n, find_buf s' n = find_buf s n).
  { intros n. unfold find_buf. f_equal. apply list_filter_iff. intros i. by apply is_block_ext. }
  assert (Hfield : forall i, b_valid (buf_at s' i) = b_valid (buf_at s i) /\
            b_data (buf_at s' i) = b_data (buf_at s i) /\
            b_refcnt (buf_at s' i) = b_refcnt (buf_at s i) /\
            b_lock (buf_at s' i) = b_lock (buf_at s i)).
  { intros i. specialize (Hp i). split_and!;
      [exact (f_equal b_valid Hp)|exact (f_equal b_data Hp)|exact (f_equal b_refcnt Hp)|
       exact (f_equal b_lock Hp)]. }
  split.
  - split; [done|done| |].
    + intros i Hi. rewrite Hhist. eapply buf_ok_payload; [apply Hp|by apply (bi_ok _ _ I)].
    + intros n i j. rewrite !(is_block_ext s s') by done. apply (bi_uniq _ _ I).
  - by rewrite Hhist.
  - intros n. rewrite Hv. unfold bview. rewrite Hf, Hhist. destruct (find_buf s n) as [i|]; [|done].
    by destruct (Hfield i) as (-> & -> & _).
  - intros n. rewrite Hr. unfold bentry. rewrite Hf. destruct (find_buf s n) as [i|]; simpl; [|done].
    by destruct (Hfield i) as (_ & _ & -> & ->).
Qed.

(** The last reference is dropped: the buffer must hold what is on the disk. *)
Lemma rep_drop s a n b f :
  rep pid s a -> a_refs a !! n = Some (b, 1, false) -> a_view a n = disk_read (a_hist a) n ->
  (forall x, f x = set_refcnt (b_refcnt (f x)) x) -> b_refcnt (f (buf_at s b)) = 0 ->
  rep pid (upd_buf b f s) (a_drop n a).
Proof.
  intros R He Hc Hf Hr'.
  destruct (rep_entry _ _ _ _ _ _ R He) as (Hb & Hr & Hrn & Hlk & Hval & Hd & _).
  pose proof (re_inv _ _ _ R) as I. pose proof Hb as (Hbr & Hbd & Hbn).
  pose proof (bi_ok _ _ I b Hbr) as [O1 O2 O3 O4 O5 O6].
  eapply (rep_update s a _ n b 1 false f (hist s)); try done.
  1, 2, 3, 4: intros x; by rewrite Hf.
  - split; rewrite ?Hr'; try done.
    + by rewrite Hf.
    + intros _ _ _. rewrite Hf. simpl. by rewrite Hd, Hc, Hbn, (re_hist _ _ _ R).
    + intros Hl. exfalso. rewrite Hf in Hl. simpl in Hl. apply Z.eqb_neq in Hl.
      by rewrite Hl in Hlk.
    + by rewrite Hf.
  - rewrite Hf. simpl. by rewrite Hval.
  - apply (re_hist _ _ _ R).
  - intros n' Hne. simpl. by rewrite lookup_delete_ne.
  - simpl. by rewrite lookup_delete_eq, Hr'.
Qed.

Lemma rep_relinked w s a b : rep pid s a -> 0 <= b < NBUF ->
  exists s', relink b w s = Ret w s' tt /\ rep pid s' a.
Proof.
  intros R Hb. destruct (bi_link _ _ (re_inv _ _ _ R)) as [lru Hl].
  pose proof (lru_in _ _ _ Hl Hb) as Hin. apply list_elem_of_split in Hin as (l1 & l2 & ->).
  pose proof (bi_has _ _ (re_inv _ _ _ R)) as Hhas.
  exists (relinked s b). split; [by eapply relink_run|].
  destruct (relink_linked s l1 b l2 Hhas Hl) as [Hl' Hhas'].
  eapply rep_payload; [done|done|by eexists|apply relinked_payload|done].
Qed.

Definition a_release (n b r : Z) (a : abuf) : abuf :=
  if r =? 1 then a_drop n a else a_set_refs n (b, r - 1, false) a.

Lemma brelse_rep w s a n b r :
  held w = [] -> rep pid s a -> a_refs a !! n = Some (b, r, true) ->
  (r = 1 -> a_view a n = disk_read (a_hist a) n) ->
  exists w' s', brelse pid b w s = Ret w' s' tt /\ held w' = [] /\ rep pid s' (a_release n b r a).
Proof.
  intros Hw R He Hc. destruct (rep_entry _ _ _ _ _ _ R He) as (Hb & Hr & Hrn & Hlk & _ & _ & Hs).
  pose proof (bo_ref _ _ _ (bi_ok _ _ (re_inv _ _ _ R) b (proj1 Hb))) as Hrb.
  pose proof (proj1 Hb) as Hbr.
  unfold brelse. run_step (holding_buf w s b Hw Hs). rewrite (locked_buf s a n b r R He).
  cbv beta iota delta [negb].
  erewrite run_bind; [|apply zoom_ret, releasesleep_eq; exact Hw]. simpl upd.
  set (w1 := World [] _ _). set (l1 := set_owner 0 0 _). set (s1 := upd_buf b (set_block_lock l1) s).
  assert (R1 : rep pid s1 (a_set_refs n (b, r, false) a)).
  { eapply rep_set_refs; try done. lia. }
  assert (He1 : a_refs (a_set_refs n (b, r, false) a) !! n = Some (b, r, false))
    by apply lookup_insert_eq.
  rewrite run_acquire by apply not_elem_of_nil. unfold setb, getb. rewrite run_modify, run_gets.
  set (f := fun x => set_refcnt (u32 (b_refcnt x - 1)) x).
  destruct (rep_entry _ _ _ _ _ _ R1 He1) as (_ & Hr1 & _ & Hlk1 & _ & _ & Hs1).
  assert (Hrf : b_refcnt (f (buf_at s1 b)) = r - 1) by (simpl; rewrite Hr1; apply u32_small; lia).
  rewrite buf_at_upd, decide_True, Hrf by done. unfold a_release.
  destruct (decide (r = 1)) as [->|Hr2].
  - assert (R2 : rep pid (upd_buf b f s1) (a_drop n (a_set_refs n (b, 1, false) a))).
    { eapply rep_drop; [exact R1|done| |done|done]. simpl. by apply Hc. }
    destruct (rep_relinked (set_held (LkBcache :: held w1) w1) _ _ b R2 Hbr)
      as (s' & Hrun & R'). simpl when. run_step Hrun. exists w1, s'. split; [|split; [done|]].
    + apply release_acquired. apply not_elem_of_nil.
    + unfold a_drop, a_set_refs in *. simpl in *. by rewrite delete_insert_eq in R'.
  - rewrite !(proj2 (Z.eqb_neq _ _)) by lia. simpl when. rewrite run_bind_ret.
    exists w1, (upd_buf b f s1). split; [|split; [done|]].
    + apply release_acquired. apply not_elem_of_nil.
    + assert (R2 : rep pid (upd_buf b f s1) (a_set_refs n (b, r - 1, false) (a_set_refs n (b, r, false) a))).
      { eapply rep_set_refs; try done. lia. }
      unfold a_set_refs in *. simpl in *. by rewrite insert_insert_eq in R2.
Qed.

(** ** [bread] *)

Lemma scan_run step test w s p l n :
  seg (fun i => step (buf_at s i)) p l HEAD -> HEAD ∉ l -> (length l <= n)%nat ->
  scan step test (step (buf_at s p)) n w s =
  Ret w s (head (filter (fun i => test (buf_at s i) = true) l)).
Proof.
  revert p n. induction l as [|b l IH]; intros p n Hs Hh Hn; simpl in Hs.
  { rewrite Hs. by destruct n. }
  destruct Hs as [-> Hs]. rewrite not_elem_of_cons in Hh. destruct Hh as [Hb Hh].
  destruct n as [|n]; [simpl in Hn; lia|]. simpl scan.
  rewrite (proj2 (Z.eqb_neq _ _)) by done. unfold getb. rewrite run_gets.
  destruct (test (buf_at s b)) eqn:E.
  - by rewrite filter_cons_True.
  - rewrite run_gets, IH by (done || simpl in Hn; lia). rewrite filter_cons_False; [done|congruence].
Qed.

Lemma head_filter_Some {A} (P : A -> Prop) `{!forall x, Decision (P x)} l x :
  head (filter P l) = Some x -> P x /\ x ∈ l.
Proof. intros E%head_Some_elem_of. by apply list_elem_of_filter in E. Qed.

Lemma head_filter_None {A} (P : A -> Prop) `{!forall x, Decision (P x)} l x :
  head (filter P l) = None -> x ∈ l -> ~ P x.
Proof.
  intros E%head_None Hx HP. apply (not_elem_of_nil x). rewrite <-E. by apply list_elem_of_filter.
Qed.

(** A block in the cache is found, whatever the order of the list. *)
Lemma scan_hit w s n lru :
  bio_inv pid s -> linked s lru ->
  scan b_next (fun x => (b_dev x =? ROOTDEV) && (b_blockno x =? n)) (b_next (buf_at s HEAD))
    (Z.to_nat NBUF) w s = Ret w s (find_buf s n).
Proof.
  intros I Hl. rewrite (scan_run b_next _ w s HEAD lru).
  - f_equal. destruct (head _) as [i|] eqn:E.
    + apply head_filter_Some in E as [Hi Hin]. zbool. symmetry. apply (find_buf_Some pid s I).
      split; [by eapply lru_range|tauto].
    + symmetry. apply (find_buf_None pid s I). intros i (Hi & Hd & Hb).
      eapply head_filter_None in E; [|by eapply lru_in]. apply E. by rewrite Hd, Hb, !Z.eqb_refl.
  - apply Hl.
  - pose proof (lru_nodup _ _ Hl) as Hn. by apply NoDup_cons in Hn as [? _].
  - by rewrite (li_perm _ _ Hl).
Qed.

(** With fewer than [NBUF] blocks in use, some buffer is unused. *)
Lemma unused_buffer s a :
  rep pid s a -> Z.of_nat (size (a_refs a)) < NBUF ->
  exists i, 0 <= i < NBUF /\ b_refcnt (buf_at s i) = 0.
Proof.
  intros R Hsz. pose proof (re_inv _ _ _ R) as I.
  destruct (decide (Forall (fun i => b_refcnt (buf_at s i) <> 0) (seqZ 0 NBUF))) as [Hall|Hno].
  - exfalso. rewrite Forall_forall in Hall.
    set (ns := map (fun i => b_blockno (buf_at s i)) (seqZ 0 NBUF)).
    assert (Hblk : forall i, i ∈ seqZ 0 NBUF -> is_block s (b_blockno (buf_at s i)) i).
    { intros i Hi. pose proof (Hall i Hi) as Hr. apply elem_of_seqZ in Hi. split; [lia|]. split; [|done].
      by apply (bo_used _ _ _ (bi_ok _ _ I i ltac:(lia))). }
    assert (Hsub : (list_to_set ns : gset Z) ⊆ dom (a_refs a)).
    { intros m Hm. apply elem_of_list_to_set, list_elem_of_fmap in Hm as (i & -> & Hi).
      apply elem_of_dom. rewrite (re_refs _ _ _ R). unfold bentry.
      rewrite (proj2 (find_buf_Some pid s I _ i) (Hblk i Hi)). simpl.
      rewrite (proj2 (Z.eqb_neq _ _)) by by apply Hall. by eexists. }
    apply subseteq_size in Hsub. rewrite size_list_to_set in Hsub.
    + rewrite size_dom in Hsub. unfold ns in Hsub. rewrite length_map, length_seqZ in Hsub. lia.
    + apply NoDup_fmap_2_strong; [|apply NoDup_seqZ]. intros i j Hi Hj Heq.
      eapply (bi_uniq _ _ I); [by apply Hblk|]. rewrite Heq. by apply Hblk.
  - apply not_Forall_Exists in Hno; [|apply _]. apply Exists_exists in Hno as (i & Hi & Hr).
    exists i. apply elem_of_seqZ in Hi. split; [lia|]. by apply dec_stable in Hr.
Qed.

Lemma upd_upd b f g s : upd_buf b f (upd_buf b g s) = upd_buf b (fun x => f (g x)) s.
Proof. unfold upd_buf. simpl. f_equal. by rewrite alter_alter_eq. Qed.

(** The end of [bread]: the buffer [b], locked for block [n], is read if it is
    not valid. *)
Lemma bread_tail w s a n b g r :
  held w = [] -> rep pid s a -> 0 <= b < NBUF ->
  (is_block s n b \/ ((forall i, ~ is_block s n i) /\ b_refcnt (buf_at s b) = 0)) ->
  (forall x, b_next (g x) = b_next x) -> (forall x, b_prev (g x) = b_prev x) ->
  let x := g (buf_at s b) in
  b_dev x = ROOTDEV -> b_blockno x = n -> 0 <= n < 2 ^ 31 -> b_disk x = false -> b_refcnt x = r -> 0 < r < 2 ^ 32 ->
  sl_locked (b_lock x) = 1 -> sl_pid (b_lock x) = pid ->
  (if b_valid x then b_data x else disk_read (hist s) n) = a_view a n ->
  exists s', (v ← getb b_valid b;
              when (negb v) (rw b false;; setb b (set_valid true));;
              mret b) w (upd_buf b g s) = Ret w s' b /\
    rep pid s' (a_set_refs n (b, r, true) a).
Proof.
  intros Hw R Hbr Hb Gn Gp x Hd Hn Hnr Hdk Hr Hrb Hl Hp Hv. pose proof (re_inv _ _ _ R) as I.
  pose proof (bi_has _ _ I) as Hhas. destruct (bi_link _ _ I) as [lru Hlink].
  assert (Hs : is_Some (bufs s !! b)) by (apply Hhas; lia).
  assert (Hat : buf_at (upd_buf b g s) b = x) by (by rewrite buf_at_upd, decide_True).
  set (y := set_data (a_view a n) (set_valid true x)).
  assert (Hfin : forall f, (forall z, b_next (f z) = b_next z) -> (forall z, b_prev (f z) = b_prev z) ->
            f x = y -> rep pid (upd_buf b f (upd_buf b g s)) (a_set_refs n (b, r, true) a)).
  { intros f Fn Fp Hf. rewrite upd_upd.
    assert (Hat' : forall i, buf_at (upd_buf b (fun x => f (g x)) s) i =
                     if decide (i = b) then f (g (buf_at s i)) else buf_at s i).
    { intros i. by apply buf_at_upd. }
    eapply (rep_change s _ b n y a); simpl; try done.
    - by apply has_bufs_upd.
    - exists lru. apply linked_upd; [|..|done]; intros z; by rewrite ?Fn, ?Fp.
    - intros i _ Hne. by rewrite Hat', decide_False.
    - rewrite Hat', decide_True by done. fold x. by rewrite Hf.
    - split; simpl; try done; [by right|lia|lia|]. intros _. split; [lia|done].
    - apply (re_hist _ _ _ R).
    - intros n' Hne. by rewrite lookup_insert_ne.
    - rewrite lookup_insert_eq, Hr, Hl. by rewrite (proj2 (Z.eqb_neq _ _)) by lia. }
  unfold getb at 1. rewrite run_gets, Hat. destruct (b_valid x) eqn:Ev; simpl.
  - rewrite run_bind_ret. eexists. split; [done|].
    rewrite <-(upd_buf_id b (fun z => z) (upd_buf b g s) eq_refl).
    + apply Hfin; try done. unfold y. rewrite <-Hv. destruct x; simpl in *. by subst.
    + apply has_bufs_upd; [done|lia].
  - erewrite run_bind; [|erewrite run_bind; [reflexivity|apply (rw_read (rw := rw) b w (upd_buf b g s) Hw)]].
    2: { repeat split; rewrite ?Hat, ?Hn; try done; try lia. apply has_bufs_upd; [done|lia]. }
    eexists. split; [done|]. unfold disk_load. rewrite Hat, Hn, upd_upd.
    apply Hfin; try done. unfold y. simpl. by rewrite <-Hv.
Qed.

(** The pre-state of [bread] of block [n]: it is not locked, there is room for a
    reference, and if it is not in use a buffer is free for it. *)
Definition can_bread (a : abuf) (n : Z) : Prop :=
  match a_refs a !! n with
  | Some (_, r, lk) => lk = false /\ r + 1 < 2 ^ 32
  | None => Z.of_nat (size (a_refs a)) < NBUF
  end.

(** How it is entered in the table. *)
Definition bread_entry (a : abuf) (n b : Z) : Z * Z * bool :=
  match a_refs a !! n with
  | Some (b', r, _) => (b', r + 1, true)
  | None => (b, 1, true)
  end.

(** Locking a buffer whose lock is free. *)
Lemma lock_buf w s b : held w = [] -> sl_locked (b_lock (buf_at s b)) = 0 ->
  zoom (buf_lock b) (acquiresleep b fuel pid) w s =
  Ret w (upd_buf b (set_block_lock (set_owner 1 pid (b_lock (buf_at s b)))) s) tt.
Proof. intros Hw Hl. erewrite zoom_ret; [done|]. by apply acquiresleep_free. Qed.

(** The entry of a cached block, used or not. *)
Lemma cached_entry s a n b :
  rep pid s a -> can_bread a n -> find_buf s n = Some b ->
  is_block s n b /\ bread_entry a n b = (b, b_refcnt (buf_at s b) + 1, true) /\
  0 <= b_refcnt (buf_at s b) /\ b_refcnt (buf_at s b) + 1 < 2 ^ 32 /\
  sl_locked (b_lock (buf_at s b)) = 0.
Proof.
  intros R Hc E. pose proof (re_inv _ _ _ R) as I. pose proof (proj1 (find_buf_Some pid s I n b) E) as Hb.
  pose proof (bi_ok _ _ I b (proj1 Hb)) as [_ O2 _ _ O5 _].
  unfold bread_entry, can_bread in *. rewrite (re_refs _ _ _ R) in *. unfold bentry in *.
  rewrite E in *. simpl in *. destruct (b_refcnt (buf_at s b) =? 0) eqn:Er; zbool.
  - rewrite Er. split_and!; try done. destruct (decide (sl_locked (b_lock (buf_at s b)) = 0)) as [|Hn]; [done|].
    by apply O5 in Hn as [? _].
  - destruct Hc as [Hlk Hr]. split_and!; try done; [lia|]. by apply negb_false_iff, Z.eqb_eq in Hlk.
Qed.

Lemma bread_hit w s a n b :
  held w = [] -> rep pid s a -> 0 <= n < 2 ^ 31 -> can_bread a n -> find_buf s n = Some b ->
  exists s', bread rw pid fuel ROOTDEV n w s = Ret w s' b /\
    rep pid s' (a_set_refs n (bread_entry a n b) a).
Proof.
  intros Hw R Hnr Hc E. destruct (cached_entry s a n b R Hc E) as (Hb & -> & Hr0 & Hr1 & Hl).
  pose proof (re_inv _ _ _ R) as I. destruct (bi_link _ _ I) as [lru Hlink].
  assert (Hs : is_Some (bufs s !! b)) by (apply (bi_has _ _ I); destruct Hb; lia).
  set (f := fun x => set_refcnt (u32 (b_refcnt x + 1)) x). set (s1 := upd_buf b f s).
  assert (Hat : buf_at s1 b = f (buf_at s b)) by (unfold s1; by rewrite buf_at_upd, decide_True).
  unfold bread. erewrite run_bind; cycle 1.
  { unfold bget. rewrite run_acquire by (rewrite Hw; apply not_elem_of_nil).
    unfold getb. rewrite run_gets. run_step (scan_hit (set_held (LkBcache :: held w) w) s n lru I Hlink).
    rewrite E. unfold setb. rewrite run_modify. fold f s1.
    rewrite run_release_acquired by (rewrite Hw; apply not_elem_of_nil).
    run_step (lock_buf w s1 b Hw ltac:(rewrite Hat; exact Hl)). reflexivity. }
  unfold s1. rewrite upd_upd. fold s1. rewrite Hat.
  eapply (bread_tail w s a n b); simpl; try done.
  - apply Hb.
  - by left.
  - apply Hb.
  - apply Hb.
  - apply (bi_ok _ _ I), Hb.
  - apply u32_small. lia.
  - lia.
  - rewrite (re_view _ _ _ R). unfold bview. by rewrite E.
Qed.

Lemma bread_miss w s a n :
  held w = [] -> rep pid s a -> 0 <= n < 2 ^ 31 -> can_bread a n -> find_buf s n = None ->
  exists s' b, bread rw pid fuel ROOTDEV n w s = Ret w s' b /\
    rep pid s' (a_set_refs n (b, 1, true) a).
Proof.
  intros Hw R Hnr Hc E. pose proof (re_inv _ _ _ R) as I. destruct (bi_link _ _ I) as [lru Hlink].
  unfold can_bread in Hc. rewrite (re_refs _ _ _ R) in Hc. unfold bentry in Hc. rewrite E in Hc.
  simpl in Hc. destruct (unused_buffer s a R Hc) as (i & Hi & Hri).
  assert (Hscan : exists b, head (filter (fun i => (b_refcnt (buf_at s i) =? 0) = true) (reverse lru)) = Some b).
  { destruct (head _) as [b|] eqn:Eh; [by exists b|]. exfalso.
    eapply (head_filter_None _ _ i) in Eh; [|apply elem_of_reverse; by eapply lru_in].
    apply Eh. by rewrite Hri. }
  destruct Hscan as [b Hscan]. pose proof Hscan as Hb. apply head_filter_Some in Hb as [Hb0 Hbin].
  zbool. rewrite elem_of_reverse in Hbin. pose proof (lru_range _ _ _ Hlink Hbin) as Hbr.
  assert (Hs : is_Some (bufs s !! b)) by (apply (bi_has _ _ I); lia).
  assert (Hl : sl_locked (b_lock (buf_at s b)) = 0).
  { destruct (decide (sl_locked (b_lock (buf_at s b)) = 0)) as [|Hn]; [done|].
    by apply (bo_lock _ _ _ (bi_ok _ _ I b Hbr)) in Hn as [? _]. }
  set (f := fun x => set_refcnt 1 (set_valid false (set_block ROOTDEV n x))). set (s1 := upd_buf b f s).
  assert (Hat : buf_at s1 b = f (buf_at s b)) by (unfold s1; by rewrite buf_at_upd, decide_True).
  unfold bread. erewrite run_bind; cycle 1.
  { unfold bget. rewrite run_acquire by (rewrite Hw; apply not_elem_of_nil).
    unfold getb. rewrite run_gets. run_step (scan_hit (set_held (LkBcache :: held w) w) s n lru I Hlink).
    rewrite E, run_gets.
    erewrite run_bind; [|apply (scan_run b_prev (fun x => b_refcnt x =? 0) _ s HEAD (reverse lru))].
    2: apply Hlink.
    2: { rewrite elem_of_reverse. pose proof (lru_nodup _ _ Hlink) as Hn. by apply NoDup_cons in Hn as [? _]. }
    2: { rewrite reverse_Permutation, (li_perm _ _ Hlink). done. }
    rewrite Hscan. unfold setb. rewrite !run_modify, !upd_upd. fold f s1.
    rewrite run_release_acquired by (rewrite Hw; apply not_elem_of_nil).
    run_step (lock_buf w s1 b Hw ltac:(rewrite Hat; exact Hl)). reflexivity. }
  unfold s1. rewrite upd_upd. fold s1. rewrite Hat.
  destruct (bread_tail w s a n b
    (fun x => set_block_lock (set_owner 1 pid (b_lock (f (buf_at s b)))) (f x)) 1)
    as (s' & Hrun & R'); simpl; try done.
  - right. split; [|done]. by apply (find_buf_None pid s I).
  - by apply (bi_ok _ _ I).
  - rewrite (re_view _ _ _ R). unfold bview. by rewrite E.
  - exists s', b. done.
Qed.

(** [bread] returns the buffer of the block, locked. *)
Lemma bread_rep w s a n :
  held w = [] -> rep pid s a -> 0 <= n < 2 ^ 31 -> can_bread a n ->
  exists s' b r, bread rw pid fuel ROOTDEV n w s = Ret w s' b /\
    bread_entry a n b = (b, r, true) /\ rep pid s' (a_set_refs n (b, r, true) a).
Proof.
  intros Hw R Hnr Hc. destruct (find_buf s n) as [b|] eqn:E.
  - destruct (bread_hit w s a n b Hw R Hnr Hc E) as (s' & Hrun & R').
    destruct (cached_entry s a n b R Hc E) as (_ & He & _). rewrite He in R'. by eauto 6.
  - destruct (bread_miss w s a n Hw R Hnr Hc E) as (s' & b & Hrun & R'). exists s', b, 1.
    split; [done|]. split; [|done]. unfold bread_entry. rewrite (re_refs _ _ _ R). unfold bentry.
    by rewrite E.
Qed.
End ops.

(** ** Boot *)

(** The buffers after [binit]. *)
Definition booted_bufs : gmap Z buf := bufs (exec binit (World [] [] []) (bcache0 [])).

Lemma binit_run w h : binit w (bcache0 h) = Ret w (Bcache booted_bufs h) tt.
Proof. vm_compute. reflexivity. Qed.

Definition idle (x : buf) : Prop :=
  b_dev x = 0 /\ b_refcnt x = 0 /\ b_valid x = false /\ sl_locked (b_lock x) = 0 /\ b_disk x = false.

Lemma booted_idle h i : 0 <= i < NBUF -> idle (buf_at (Bcache booted_bufs h) i).
Proof.
  intros Hi. assert (H : Forall (fun i => idle (buf_at (Bcache booted_bufs h) i)) (seqZ 0 NBUF)).
  { vm_compute. repeat constructor. }
  rewrite Forall_forall in H. apply H, elem_of_seqZ. lia.
Qed.

Lemma booted_has h : has_bufs (Bcache booted_bufs h).
Proof.
  intros i Hi. assert (H : Forall (fun i => is_Some (booted_bufs !! i)) (seqZ 0 (NBUF + 1))).
  { vm_compute. repeat (constructor; [by eexists|]). constructor. }
  rewrite Forall_forall in H. apply H, elem_of_seqZ. lia.
Qed.

Lemma booted_linked h : linked (Bcache booted_bufs h) (reverse (seqZ 0 NBUF)).
Proof.
  split; [by rewrite reverse_Permutation|vm_compute; tauto|vm_compute; tauto].
Qed.

#[global] Opaque booted_bufs.

Lemma idle_ok pid h x : idle x -> buf_ok pid h x.
Proof.
  intros (Hd & Hr & Hv & Hl & Hk).
  split; rewrite ?Hd, ?Hr, ?Hv, ?Hl, ?Hk; [by left|lia|done|done|done|done].
Qed.

(** The cache after boot: nothing cached, every block as on the disk. *)
Lemma binit_rep pid w h :
  exists s, binit w (bcache0 h) = Ret w s tt /\ rep pid s (Abuf (disk_read h) h ∅).
Proof.
  eexists. split; [apply binit_run|]. set (s := Bcache booted_bufs h).
  assert (Hno : forall n i, ~ is_block s n i).
  { intros n i (Hi & Hd & _). destruct (booted_idle h i Hi) as (Hd' & _). unfold s in Hd.
    rewrite Hd' in Hd. discriminate Hd. }
  assert (I : bio_inv pid s).
  { split; [apply booted_has|eexists; apply booted_linked| |].
    - intros i Hi. exact (idle_ok _ _ _ (booted_idle h i Hi)).
    - intros n i j Hi. destruct (Hno n i Hi). }
  split; [exact I|reflexivity| |]; intros n; unfold bview, bentry; by rewrite (proj2 (find_buf_None pid s I n) (Hno n)).
Qed.
