(* ===== verification/BioRefine.v ===== *)
(** * The buffer cache refines an array of blocks

    Clients of kernel/bio.c read and write an array of disk blocks; which buffer
    holds which block, and when the disk is read, is invisible to them.  The
    specification is executable: it has the blocks, the writes the disk has
    received, and the references the clients hold. *)

From S2P Require Import Prelude Machine Sleeplock Mem Layout Bio BioInv BioSpec.

(** What a client does with a block. *)
Inductive bop :=
  | Bread (n : Z)              (* bread, and look at the data *)
  | Bstore (n : Z) (d : mem)   (* change the data of a buffer held *)
  | Bwrite (n : Z) | Brelse (n : Z) | Bpin (n : Z) | Bunpin (n : Z).

(** ** Specification *)

(** References and lock of each block in use. *)
Record spec := Spec { sp_view : Z -> mem; sp_hist : history; sp_refs : gmap Z (Z * bool) }.

Definition sp_set (n : Z) (e : option (Z * bool)) (a : spec) : spec :=
  Spec (sp_view a) (sp_hist a) (partial_alter (fun _ => e) n (sp_refs a)).

(** [None]: the client breaks the rules of the cache.  A reader must not hold the
    block already; a buffer that is let go must have been written. *)
Definition spec_op (o : bop) (a : spec) : option (spec * list mem) :=
  match o with
  | Bread n =>
      if negb ((0 <=? n) && (n <? 2 ^ 31)) then None else
      match sp_refs a !! n with
      | Some (r, lk) =>
          if negb lk && (r + 1 <? 2 ^ 32) then Some (sp_set n (Some (r + 1, true)) a, [sp_view a n])
          else None
      | None =>
          if Z.of_nat (size (sp_refs a)) <? NBUF then Some (sp_set n (Some (1, true)) a, [sp_view a n])
          else None
      end
  | Bstore n d =>
      match sp_refs a !! n with
      | Some (_, true) =>
          Some (Spec (fun n' => if n' =? n then d else sp_view a n') (sp_hist a) (sp_refs a), [])
      | _ => None
      end
  | Bwrite n =>
      if negb ((0 <=? n) && (n <? 2 ^ 31)) then None else
      match sp_refs a !! n with
      | Some (_, true) => Some (Spec (sp_view a) ((n, sp_view a n) :: sp_hist a) (sp_refs a), [])
      | _ => None
      end
  | Brelse n =>
      match sp_refs a !! n with
      | Some (r, true) =>
          if r =? 1 then
            if decide (sp_view a n = disk_read (sp_hist a) n) then Some (sp_set n None a, []) else None
          else Some (sp_set n (Some (r - 1, false)) a, [])
      | _ => None
      end
  | Bpin n =>
      match sp_refs a !! n with
      | Some (r, lk) => if r + 1 <? 2 ^ 32 then Some (sp_set n (Some (r + 1, lk)) a, []) else None
      | None => None
      end
  | Bunpin n =>
      match sp_refs a !! n with
      | Some (r, lk) => if 1 <? r then Some (sp_set n (Some (r - 1, lk)) a, []) else None
      | None => None
      end
  end.

Fixpoint spec_ops (os : list bop) (a : spec) : option (spec * list mem) :=
  match os with
  | [] => Some (a, [])
  | o :: os =>
      '(a, out1) ← spec_op o a;
      '(a, out2) ← spec_ops os a;
      Some (a, out1 ++ out2)
  end.

(** ** The same operations with the code

    A client keeps the buffer pointers it got from [bread]. *)

Section client.
Variable rw : Z -> bool -> M bcache unit.
Variables (pid : Z) (fuel : nat).

Definition ptr (t : gmap Z Z) (n : Z) : Z := default 0 (t !! n).

Definition run_op (o : bop) (t : gmap Z Z) : M bcache (gmap Z Z * list mem) :=
  match o with
  | Bread n =>
      b ← bread rw pid fuel ROOTDEV n;
      d ← getb b_data b;
      mret (<[n := b]> t, [d])
  | Bstore n d => setb (ptr t n) (set_data d);; mret (t, [])
  | Bwrite n => bwrite rw pid (ptr t n);; mret (t, [])
  | Brelse n => brelse pid (ptr t n);; mret (t, [])
  | Bpin n => bpin (ptr t n);; mret (t, [])
  | Bunpin n => bunpin (ptr t n);; mret (t, [])
  end.

Fixpoint run_ops (os : list bop) (t : gmap Z Z) : M bcache (gmap Z Z * list mem) :=
  match os with
  | [] => mret (t, [])
  | o :: os =>
      r1 ← run_op o t;
      r2 ← run_ops os r1.1;
      mret (r2.1, r1.2 ++ r2.2)
  end.

(** ** Simulation *)

(** [abuf] without the buffer numbers is the specification's state. *)
Record sim (s : bcache) (t : gmap Z Z) (p : spec) (a : abuf) : Prop := {
  si_rep : rep pid s a;
  si_view n : a_view a n = sp_view p n;
  si_hist : a_hist a = sp_hist p;
  si_refs n : sp_refs p !! n = (fun e => (e.1.2, e.2)) <$> a_refs a !! n;
  si_ptr n e : a_refs a !! n = Some e -> t !! n = Some e.1.1 }.

Lemma sim_entry s t p a n r lk :
  sim s t p a -> sp_refs p !! n = Some (r, lk) ->
  a_refs a !! n = Some (ptr t n, r, lk) /\ t !! n = Some (ptr t n) /\ 0 < r < 2 ^ 32.
Proof.
  intros S H. rewrite (si_refs _ _ _ _ S) in H.
  destruct (a_refs a !! n) as [[[b r'] lk']|] eqn:E; simplify_eq/=.
  pose proof (si_ptr _ _ _ _ S n _ E) as Ht. simpl in Ht. unfold ptr. rewrite Ht. simpl.
  destruct (rep_entry _ _ _ _ _ _ _ (si_rep _ _ _ _ S) E) as (Hb & Hr & Hr0 & _).
  pose proof (bo_ref _ _ _ (bi_ok _ _ (re_inv _ _ _ (si_rep _ _ _ _ S)) b (proj1 Hb))).
  split_and!; [done|done|lia|lia].
Qed.

Lemma sim_size s t p a : sim s t p a -> size (a_refs a) = size (sp_refs p).
Proof.
  intros S. assert (H : sp_refs p = (fun e => (e.1.2, e.2)) <$> a_refs a).
  { apply map_eq. intros n. rewrite lookup_fmap. apply (si_refs _ _ _ _ S). }
  rewrite H. symmetry. apply map_size_fmap.
Qed.

(** The reference table changes for one block. *)
Lemma sim_set s s' t p a n b r lk :
  sim s t p a -> rep pid s' (a_set_refs n (b, r, lk) a) ->
  sim s' (<[n := b]> t) (sp_set n (Some (r, lk)) p) (a_set_refs n (b, r, lk) a).
Proof.
  intros S R. split; [done|apply S|apply S| |].
  - intros m. simpl. destruct (decide (m = n)) as [->|Hne].
    + by rewrite lookup_partial_alter_eq, lookup_insert_eq.
    + rewrite lookup_partial_alter_ne, lookup_insert_ne by done. apply S.
  - intros m e. simpl. destruct (decide (m = n)) as [->|Hne].
    + rewrite !lookup_insert_eq. by intros [= <-].
    + rewrite !lookup_insert_ne by done. apply S.
Qed.

Lemma sim_keep s s' t p a n r lk :
  sim s t p a -> t !! n = Some (ptr t n) -> rep pid s' (a_set_refs n (ptr t n, r, lk) a) ->
  sim s' t (sp_set n (Some (r, lk)) p) (a_set_refs n (ptr t n, r, lk) a).
Proof. intros S Ht R. pose proof (sim_set _ _ _ _ _ _ _ _ _ S R) as S'. by rewrite insert_id in S'. Qed.

Lemma sim_drop s s' t p a n :
  sim s t p a -> rep pid s' (a_drop n a) -> sim s' t (sp_set n None p) (a_drop n a).
Proof.
  intros S R. split; [done|apply S|apply S| |].
  - intros m. simpl. destruct (decide (m = n)) as [->|Hne].
    + by rewrite lookup_partial_alter_eq, lookup_delete_eq.
    + rewrite lookup_partial_alter_ne, lookup_delete_ne by done. apply S.
  - intros m e. simpl. destruct (decide (m = n)) as [->|Hne]; [by rewrite lookup_delete_eq|].
    rewrite lookup_delete_ne by done. apply S.
Qed.

Context `{!DiskDriver rw}.

Lemma sim_bread w s t p a n r :
  held w = [] -> sim s t p a -> 0 <= n < 2 ^ 31 -> can_bread a n ->
  (forall b, bread_entry a n b = (b, r, true) \/ exists b', bread_entry a n b = (b', r, true)) ->
  exists s' t' a', run_op (Bread n) t w s = Ret w s' (t', [sp_view p n]) /\
    sim s' t' (sp_set n (Some (r, true)) p) a'.
Proof.
  intros Hw S Hn Hc Hr. destruct (bread_rep rw pid fuel w s a n Hw (si_rep _ _ _ _ S) Hn Hc)
    as (s' & b & r' & Hrun & He & R).
  assert (r' = r) as -> by (destruct (Hr b) as [H|[b' H]]; congruence).
  eexists s', _, _. split; [|by eapply sim_set].
  simpl. run_step Hrun. unfold getb. rewrite run_gets, run_ret.
  destruct (rep_entry pid s' _ n b r true R) as (_ & _ & _ & _ & _ & -> & _); [apply lookup_insert_eq|].
  simpl. by rewrite (si_view _ _ _ _ S).
Qed.

(** One operation. *)
Lemma sim_op w s t p a o p' out :
  held w = [] -> sim s t p a -> spec_op o p = Some (p', out) ->
  exists w' s' t' a', run_op o t w s = Ret w' s' (t', out) /\ held w' = [] /\ sim s' t' p' a'.
Proof.
  intros Hw S Ho. pose proof (si_rep _ _ _ _ S) as R. destruct o as [n|n d|n|n|n|n]; simpl spec_op in Ho;
    try (destruct (negb _) eqn:Hn in Ho; [done|]; apply negb_false_iff in Hn; zbool);
    destruct (sp_refs p !! n) as [[r lk]|] eqn:E; try done;
    try (destruct (sim_entry _ _ _ _ _ _ _ S E) as (He & Ht & Hr)).
  - case_match eqn:Hg; [|done]. zbool. simplify_eq.
    destruct (sim_bread w s t p a n (r + 1) Hw S ltac:(lia)) as (s' & t' & a' & Hrun & S').
    + unfold can_bread. by rewrite He.
    + intros b. right. exists (ptr t n). unfold bread_entry. by rewrite He.
    + by exists w, s', t', a'.
  - case_match eqn:Hg; [|done]. zbool. simplify_eq.
    assert (He : a_refs a !! n = None).
    { rewrite (si_refs _ _ _ _ S) in E. by destruct (a_refs a !! n). }
    destruct (sim_bread w s t p a n 1 Hw S ltac:(lia)) as (s' & t' & a' & Hrun & S').
    + unfold can_bread. rewrite He. by rewrite (sim_size _ _ _ _ S).
    + intros b. left. unfold bread_entry. by rewrite He.
    + by exists w, s', t', a'.
  - destruct lk; [|done]. simplify_eq. exists w, (upd_buf (ptr t n) (set_data d) s), t, (a_set_data n d a).
    split; [done|]. split; [done|].
    pose proof (set_data_rep pid s a n (ptr t n) r true d R He) as R'. split; [done| |apply S..].
    intros m. simpl. by rewrite (si_view _ _ _ _ S).
  - destruct lk; [|done]. simplify_eq.
    destruct (bwrite_rep rw pid w s a n _ r Hw R He ltac:(lia)) as (s' & Hrun & R').
    exists w, s', t, (a_disk_write n a). split; [simpl; by run_step Hrun|]. split; [done|].
    split; [done|apply S| |apply S..]. simpl. by rewrite (si_view _ _ _ _ S), (si_hist _ _ _ _ S).
  - destruct lk; [|done].
    destruct (brelse_rep pid w s a n (ptr t n) r Hw R He) as (w' & s' & Hrun & Hw' & R').
    { intros ->. simpl in Ho. case_decide as Hd; [|done].
      by rewrite (si_view _ _ _ _ S), (si_hist _ _ _ _ S). }
    unfold a_release in R'. destruct (r =? 1) eqn:Er.
    + case_decide; simplify_eq. exists w', s', t, (a_drop n a).
      split; [simpl; by run_step Hrun|]. split; [done|by eapply sim_drop].
    + simplify_eq. exists w', s', t, (a_set_refs n (ptr t n, r - 1, false) a).
      split; [simpl; by run_step Hrun|]. split; [done|].
      by eapply sim_keep.
  - case_match eqn:Hg; [|done]. zbool. simplify_eq.
    destruct (bpin_rep pid w s a n (ptr t n) r lk) as (s' & Hrun & R'); [by rewrite Hw; apply not_elem_of_nil|done|done|lia|done|].
    exists w, s', t, (a_set_refs n (ptr t n, r + 1, lk) a). split; [simpl; by run_step Hrun|].
    split; [done|]. by eapply sim_keep.
  - case_match eqn:Hg; [|done]. zbool. simplify_eq.
    destruct (bunpin_rep pid w s a n (ptr t n) r lk Hw R He) as (s' & Hrun & R'); [lia|].
    exists w, s', t, (a_set_refs n (ptr t n, r - 1, lk) a). split; [simpl; by run_step Hrun|].
    split; [done|]. by eapply sim_keep.
Qed.

Lemma sim_ops os w s t p a p' out :
  held w = [] -> sim s t p a -> spec_ops os p = Some (p', out) ->
  exists w' s' t' a', run_ops os t w s = Ret w' s' (t', out) /\ held w' = [] /\ sim s' t' p' a'.
Proof.
  revert w s t p a p' out. induction os as [|o os IH]; intros w s t p a p' out Hw S Ho; simpl in Ho.
  { simplify_eq. by exists w, s, t, a. }
  destruct (spec_op o p) as [[p1 out1]|] eqn:E1; simpl in Ho; [|done].
  destruct (spec_ops os p1) as [[p2 out2]|] eqn:E2; simpl in Ho; [|done]. simplify_eq.
  destruct (sim_op w s t p a o p1 out1 Hw S E1) as (w1 & s1 & t1 & a1 & Hrun1 & Hw1 & S1).
  destruct (IH w1 s1 t1 p1 a1 p' out2 Hw1 S1 E2) as (w2 & s2 & t2 & a2 & Hrun2 & Hw2 & S2).
  exists w2, s2, t2, a2. split; [|done]. simpl. run_step Hrun1. simpl. run_step Hrun2. done.
Qed.

(** C8: From boot, any sequence of [bread], [bwrite], [brelse], [bpin], [bunpin]
    and changes of buffer data that follows the rules of the cache runs without
    panic or deadlock, gives every reader the latest contents of its block, and
    sends to the disk exactly the writes of the specification, whatever buffers
    the cache chooses and recycles. *)
Theorem bcache_refines os h w p' out :
  held w = [] -> spec_ops os (Spec (disk_read h) h ∅) = Some (p', out) ->
  exists w' s' t', (binit;; run_ops os ∅) w (bcache0 h) = Ret w' s' (t', out) /\
    held w' = [] /\ hist s' = sp_hist p' /\ bio_inv pid s'.
Proof.
  intros Hw Ho. destruct (binit_rep pid w h) as (s & Hrun & R).
  destruct (sim_ops os w s ∅ (Spec (disk_read h) h ∅) (Abuf (disk_read h) h ∅) p' out Hw)
    as (w' & s' & t' & a' & Hrun' & Hw' & S').
  - split; [done|done|done| |]; intros n; simpl; by rewrite ?lookup_empty.
  - done.
  - exists w', s', t'. split; [run_step Hrun; exact Hrun'|]. split; [done|].
    split; [by rewrite <-(si_hist _ _ _ _ S'), (re_hist _ _ _ (si_rep _ _ _ _ S'))|apply S'].
Qed.
End client.

(** ** A disk driver

    The simplest one: it moves the block when it is called. *)
Definition plain_rw (b : Z) (write : bool) : M bcache unit :=
  modify (if write then disk_store b else disk_load b).

#[export] Instance plain_driver : DiskDriver plain_rw.
Proof. by split. Qed.

(** Two blocks are read, one is changed and written, and read again. *)
Definition demo_ops : list bop :=
  [Bread 5; Bread 6; Bstore 5 {[0 := 7]}; Bwrite 5; Brelse 5; Brelse 6; Bread 5; Bpin 5].

Definition demo_out : list mem := [zero_block; zero_block; {[0 := 7]}].

Lemma bcache_refines_witness :
  exists w' s' t', (binit;; run_ops plain_rw 3 0 demo_ops ∅) (World [] [] []) (bcache0 []) =
    Ret w' s' (t', demo_out) /\ hist s' = [(5, {[0 := 7]})].
Proof.
  destruct (bcache_refines plain_rw 3 0 demo_ops [] (World [] [] [])
    (Spec (fun n => if n =? 5 then {[0 := 7]} else zero_block) [(5, {[0 := 7]})] {[5 := (2, true)]})
    demo_out eq_refl) as (w' & s' & t' & H & _ & Hh & _).
  - reflexivity.
  - exists w', s', t'. exact (conj H Hh).
Defined.
