(* ===== verification/Virtio.v ===== *)
(** * kernel/virtio_disk.c: the disk driver

    Driver and device share descriptors, the avail ring, the used ring and the
    registers that notify the device and acknowledge its interrupts.  The
    device is a function on the shared state; [BlockDevice] of file VirtioSpec
    states what the virtio specification says of a request in the format the
    driver uses.
    Pointers in descriptors are the objects they point to. *)

From S2P Require Import Prelude Machine Sleeplock Mem Layout Kalloc Bio.

Definition NUM : Z := 8.
Definition VRING_DESC_F_NEXT : Z := 1.
Definition VRING_DESC_F_WRITE : Z := 2.
Definition VIRTIO_BLK_T_IN : Z := 0.
Definition VIRTIO_BLK_T_OUT : Z := 1.

(** [&disk.ops[i]], the data of buffer [b], [&disk.info[i].status]. *)
Inductive dma := DmaNull | DmaOps (i : Z) | DmaData (b : Z) | DmaStatus (i : Z).

Record virtq_desc := VirtqDesc { vd_addr : dma; vd_len : Z; vd_flags : Z; vd_next : Z }.

Record virtio_blk_req := BlkReq { rq_type : Z; rq_reserved : Z; rq_sector : Z }.

(** [struct disk] with the rings it points to; [info_b] and [info_status] are the
    fields of [info].  Two registers of the device: [q_notify] are the values written
    to QUEUE_NOTIFY that the device has not yet acted on, and [i_status] is
    INTERRUPT_STATUS; the device interrupts as long as it is not 0. *)
Record vdisk := Vdisk {
  v_desc : gmap Z virtq_desc; avail_ring : gmap Z Z; avail_idx : Z;
  used_ring : gmap Z Z; used_ring_idx : Z; v_free : gmap Z bool; used_idx : Z;
  info_b : gmap Z (option Z); info_status : gmap Z Z; v_ops : gmap Z virtio_blk_req;
  q_notify : list Z; i_status : Z }.

Definition vset_desc x v := Vdisk x (avail_ring v) (avail_idx v) (used_ring v) (used_ring_idx v) (v_free v) (used_idx v) (info_b v) (info_status v) (v_ops v) (q_notify v) (i_status v).
Definition vset_avail r i v := Vdisk (v_desc v) r i (used_ring v) (used_ring_idx v) (v_free v) (used_idx v) (info_b v) (info_status v) (v_ops v) (q_notify v) (i_status v).
Definition vset_used r i v := Vdisk (v_desc v) (avail_ring v) (avail_idx v) r i (v_free v) (used_idx v) (info_b v) (info_status v) (v_ops v) (q_notify v) (i_status v).
Definition vset_free x v := Vdisk (v_desc v) (avail_ring v) (avail_idx v) (used_ring v) (used_ring_idx v) x (used_idx v) (info_b v) (info_status v) (v_ops v) (q_notify v) (i_status v).
Definition vset_used_idx x v := Vdisk (v_desc v) (avail_ring v) (avail_idx v) (used_ring v) (used_ring_idx v) (v_free v) x (info_b v) (info_status v) (v_ops v) (q_notify v) (i_status v).
Definition vset_info_b x v := Vdisk (v_desc v) (avail_ring v) (avail_idx v) (used_ring v) (used_ring_idx v) (v_free v) (used_idx v) x (info_status v) (v_ops v) (q_notify v) (i_status v).
Definition vset_status x v := Vdisk (v_desc v) (avail_ring v) (avail_idx v) (used_ring v) (used_ring_idx v) (v_free v) (used_idx v) (info_b v) x (v_ops v) (q_notify v) (i_status v).
Definition vset_ops x v := Vdisk (v_desc v) (avail_ring v) (avail_idx v) (used_ring v) (used_ring_idx v) (v_free v) (used_idx v) (info_b v) (info_status v) x (q_notify v) (i_status v).
Definition vset_notify x v := Vdisk (v_desc v) (avail_ring v) (avail_idx v) (used_ring v) (used_ring_idx v) (v_free v) (used_idx v) (info_b v) (info_status v) (v_ops v) x (i_status v).
Definition vset_istatus x v := Vdisk (v_desc v) (avail_ring v) (avail_idx v) (used_ring v) (used_ring_idx v) (v_free v) (used_idx v) (info_b v) (info_status v) (v_ops v) (q_notify v) x.

(** Zeroed memory: nothing written yet. *)
Definition vdesc0 : virtq_desc := VirtqDesc DmaNull 0 0 0.
Definition desc_at (v : vdisk) (i : Z) : virtq_desc := default vdesc0 (v_desc v !! i).
Definition is_free (v : vdisk) (i : Z) : bool := default false (v_free v !! i).

(** The driver's state and the buffers it moves. *)
Record vdst := Vdst { vs_bc : bcache; vs_disk : vdisk }.

Definition bc_in : lens vdst bcache := Lens _ _ vs_bc (fun b s => Vdst b (vs_disk s)).

Definition vget {A} (f : vdisk -> A) : M vdst A := gets (fun s => f (vs_disk s)).
Definition vmod (f : vdisk -> vdisk) : M vdst unit := modify (fun s => Vdst (vs_bc s) (f (vs_disk s))).

Definition set_bdisk d b := Buf (b_valid b) d (b_dev b) (b_blockno b) (b_lock b) (b_refcnt b) (b_prev b) (b_next b) (b_data b).

Fixpoint alloc_desc_loop (i : Z) (k : nat) : M vdst Z :=
  match k with
  | O => mret (-1)
  | S k =>
      f ← vget (fun v => is_free v i);
      if (f : bool) then vmod (fun v => vset_free (<[i := false]> (v_free v)) v);; mret i
      else alloc_desc_loop (i + 1) k
  end.

Definition alloc_desc : M vdst Z := alloc_desc_loop 0 (Z.to_nat NUM).

Definition free_desc (i : Z) : M vdst unit :=
  if NUM <=? i then panic "free_desc 1"
  else
    f ← vget (fun v => is_free v i);
    if (f : bool) then panic "free_desc 2"
    else
      vmod (fun v => vset_desc (<[i := vdesc0]> (v_desc v)) v);;
      vmod (fun v => vset_free (<[i := true]> (v_free v)) v);;
      wakeup ChDiskFree.

(** A chain is no longer than the table. *)
Fixpoint free_chain_loop (i : Z) (k : nat) : M vdst unit :=
  d ← vget (fun v => desc_at v i);
  free_desc i;;
  if negb (Z.land (vd_flags d) VRING_DESC_F_NEXT =? 0) then
    match k with O => diverge | S k => free_chain_loop (vd_next d) k end
  else mret tt.

Definition free_chain (i : Z) : M vdst unit := free_chain_loop i (Z.to_nat NUM).

(** Undo the allocations. *)
Fixpoint free_descs (idx : list Z) : M vdst unit :=
  match idx with
  | [] => mret tt
  | i :: idx => free_desc i;; free_descs idx
  end.

(** [k] more descriptors, after those in [idx]. *)
Fixpoint alloc_descs (idx : list Z) (k : nat) : M vdst (option (list Z)) :=
  match k with
  | O => mret (Some idx)
  | S k =>
      i ← alloc_desc;
      if i <? 0 then free_descs idx;; mret None else alloc_descs (idx ++ [i]) k
  end.

Definition alloc3_desc : M vdst (option (list Z)) := alloc_descs [] 3.

Fixpoint alloc3_wait (k : nat) : M vdst (list Z) :=
  r ← alloc3_desc;
  match r with
  | Some idx => mret idx
  | None => match k with O => diverge | S k => sleep ChDiskFree LkDisk;; alloc3_wait k end
  end.

(** Format the three descriptors and offer the chain to the device. *)
Definition format_req (b sector : Z) (write : bool) (i0 i1 i2 : Z) (v : vdisk) : vdisk :=
  let v := vset_ops (<[i0 := BlkReq (if write then VIRTIO_BLK_T_OUT else VIRTIO_BLK_T_IN) 0 sector]> (v_ops v)) v in
  let v := vset_desc (<[i0 := VirtqDesc (DmaOps i0) 16 VRING_DESC_F_NEXT i1]> (v_desc v)) v in
  let flags := Z.lor (if write then 0 else VRING_DESC_F_WRITE) VRING_DESC_F_NEXT in
  let v := vset_desc (<[i1 := VirtqDesc (DmaData b) BSIZE flags i2]> (v_desc v)) v in
  let v := vset_status (<[i0 := 255]> (info_status v)) v in
  vset_desc (<[i2 := VirtqDesc (DmaStatus i0) 1 VRING_DESC_F_WRITE 0]> (v_desc v)) v.

Definition offer (i0 : Z) (v : vdisk) : vdisk :=
  vset_avail (<[avail_idx v mod NUM := i0]> (avail_ring v)) (u16 (avail_idx v + 1)) v.

(** [*R(VIRTIO_MMIO_QUEUE_NOTIFY) = q] *)
Definition notify (q : Z) (v : vdisk) : vdisk := vset_notify (q :: q_notify v) v.

(** [*R(VIRTIO_MMIO_INTERRUPT_ACK) = x]: the device clears these bits of INTERRUPT_STATUS. *)
Definition ack (x : Z) (v : vdisk) : vdisk := vset_istatus (Z.land (i_status v) (Z.lnot x)) v.

(** [while(b->disk == 1)] *)
Fixpoint wait_done (b : Z) (k : nat) : M vdst unit :=
  d ← zoom bc_in (getb b_disk b);
  if (d : bool) then
    match k with O => diverge | S k => sleep (ChBuf b) LkDisk;; wait_done b k end
  else mret tt.

Section driver.
Variable fuel : nat.

Definition virtio_disk_rw (b : Z) (write : bool) : M vdst unit :=
  blockno ← zoom bc_in (getb b_blockno b);
  let sector := u32 (blockno * (BSIZE / 512)) in
  acquire LkDisk;;
  idx ← alloc3_wait fuel;
  let i0 := nth 0 idx 0 in
  vmod (format_req b sector write i0 (nth 1 idx 0) (nth 2 idx 0));;
  zoom bc_in (setb b (set_bdisk true));;
  vmod (fun v => vset_info_b (<[i0 := Some b]> (info_b v)) v);;
  vmod (offer i0);;
  vmod (notify 0);;
  wait_done b fuel;;
  vmod (fun v => vset_info_b (<[i0 := None]> (info_b v)) v);;
  free_chain i0;;
  release LkDisk.

(** The completed requests; a null [b] is a page fault.  The device can be at most
    [2^16 - 1] entries ahead. *)
Fixpoint virtio_disk_intr_loop (k : nat) : M vdst unit :=
  v ← vget (fun v => v);
  if negb (used_idx v =? used_ring_idx v) then
    match k with
    | O => diverge
    | S k =>
        let id := default 0 (used_ring v !! (used_idx v mod NUM)) in
        if negb (default 0 (info_status v !! id) =? 0) then panic "virtio_disk_intr status"
        else
          match default None (info_b v !! id) with
          | None => panic "kerneltrap"
          | Some b =>
              zoom bc_in (setb b (set_bdisk false));;
              wakeup (ChBuf b);;
              vmod (fun v => vset_used_idx (u16 (used_idx v + 1)) v);;
              virtio_disk_intr_loop k
          end
    end
  else mret tt.

Definition virtio_disk_intr : M vdst unit :=
  acquire LkDisk;;
  st ← vget i_status;
  vmod (ack (Z.land st 3));;
  virtio_disk_intr_loop (Z.to_nat (2 ^ 16));;
  release LkDisk.
End driver.
(** ** Initialisation

    [mmio ws r] is what register [r] reads as after the register writes [ws],
    most recent first. *)

Definition MMIO_MAGIC_VALUE : Z := 0.
Definition MMIO_VERSION : Z := 4.
Definition MMIO_DEVICE_ID : Z := 8.
Definition MMIO_VENDOR_ID : Z := 12.
Definition MMIO_DEVICE_FEATURES : Z := 16.
Definition MMIO_DRIVER_FEATURES : Z := 32.
Definition MMIO_QUEUE_SEL : Z := 48.
Definition MMIO_QUEUE_NUM_MAX : Z := 52.
Definition MMIO_QUEUE_NUM : Z := 56.
Definition MMIO_QUEUE_READY : Z := 68.
Definition MMIO_STATUS : Z := 112.
Definition MMIO_QUEUE_DESC : Z := 128.
Definition MMIO_DRIVER_DESC : Z := 144.
Definition MMIO_DEVICE_DESC : Z := 160.

Record vinit := Vinit { vi_mem : kmem; vi_regs : list (Z * Z); vi_free : gmap Z bool; vi_pages : list Z }.

Definition vi_kmem : lens vinit kmem :=
  Lens _ _ vi_mem (fun k s => Vinit k (vi_regs s) (vi_free s) (vi_pages s)).

(** [features &= ~(1 << bit)] *)
Definition without (features : Z) (bits : list Z) : Z :=
  fold_left (fun f b => Z.land f (Z.lnot (Z.shiftl 1 b))) bits features.

Section init.
Variable mmio : list (Z * Z) -> Z -> Z.

Definition rd (r : Z) : M vinit Z := gets (fun s => mmio (vi_regs s) r).
Definition wr (r v : Z) : M vinit unit :=
  modify (fun s => Vinit (vi_mem s) ((r, u32 v) :: vi_regs s) (vi_free s) (vi_pages s)).

(** A 64-bit register pair. *)
Definition wr64 (r v : Z) : M vinit unit := wr r v;; wr (r + 4) (Z.shiftr v 32).

Definition virtio_disk_init : M vinit unit :=
  magic ← rd MMIO_MAGIC_VALUE;
  version ← rd MMIO_VERSION;
  id ← rd MMIO_DEVICE_ID;
  vendor ← rd MMIO_VENDOR_ID;
  if negb (magic =? 1953655158) || negb (version =? 2) || negb (id =? 2) || negb (vendor =? 1431127377)
  then panic "could not find virtio disk"
  else
    wr MMIO_STATUS 0;;
    wr MMIO_STATUS 1;;
    wr MMIO_STATUS (Z.lor 1 2);;
    features ← rd MMIO_DEVICE_FEATURES;
    wr MMIO_DRIVER_FEATURES (without features [5; 7; 11; 12; 27; 29; 28]);;
    wr MMIO_STATUS (Z.lor (Z.lor 1 2) 8);;
    status ← rd MMIO_STATUS;
    if Z.land status 8 =? 0 then panic "virtio disk FEATURES_OK unset"
    else
      wr MMIO_QUEUE_SEL 0;;
      ready ← rd MMIO_QUEUE_READY;
      if negb (ready =? 0) then panic "virtio disk should not be ready"
      else
        max ← rd MMIO_QUEUE_NUM_MAX;
        if max =? 0 then panic "virtio disk has no queue 0"
        else if max <? NUM then panic "virtio disk max queue too short"
        else
          desc ← zoom vi_kmem kalloc;
          avail ← zoom vi_kmem kalloc;
          used ← zoom vi_kmem kalloc;
          modify (fun s => Vinit (vi_mem s) (vi_regs s) (vi_free s) [desc; avail; used]);;
          if (desc =? 0) || (avail =? 0) || (used =? 0) then panic "virtio disk kalloc"
          else
            zoom vi_kmem (on_mem (fun m => memset m desc 0 PGSIZE));;
            zoom vi_kmem (on_mem (fun m => memset m avail 0 PGSIZE));;
            zoom vi_kmem (on_mem (fun m => memset m used 0 PGSIZE));;
            wr MMIO_QUEUE_NUM NUM;;
            wr64 MMIO_QUEUE_DESC desc;;
            wr64 MMIO_DRIVER_DESC avail;;
            wr64 MMIO_DEVICE_DESC used;;
            wr MMIO_QUEUE_READY 1;;
            modify (fun s => Vinit (vi_mem s) (vi_regs s)
                       (list_to_map (map (fun i => (i, true)) (seqZ 0 NUM))) (vi_pages s));;
            wr MMIO_STATUS (Z.lor status 4).
End init.
