(* ===== verification/VirtioSpec.v ===== *)
(** * The disk driver moves one block per request

    A request runs against a device that follows the virtio specification: the
    driver offers a chain of descriptors and sleeps, the device serves the chain
    and raises an interrupt, whose handler wakes the driver up. *)

From S2P Require Import Prelude Machine Sleeplock Mem Layout Kalloc Bio BioInv BioSpec Virtio.

(** ** The device *)

(** The descriptors [h], [i1], [i2] are a request for [sector] and the data of
    buffer [b]. *)
Record request (v : vdisk) (h i1 i2 b sector : Z) (write : bool) : Prop := {
  rq_head : desc_at v h = VirtqDesc (DmaOps h) 16 VRING_DESC_F_NEXT i1;
  rq_data : desc_at v i1 =
    VirtqDesc (DmaData b) BSIZE (Z.lor (if write then 0 else VRING_DESC_F_WRITE) VRING_DESC_F_NEXT) i2;
  rq_stat : desc_at v i2 = VirtqDesc (DmaStatus h) 1 VRING_DESC_F_WRITE 0;
  rq_ops : v_ops v !! h = Some (BlkReq (if write then VIRTIO_BLK_T_OUT else VIRTIO_BLK_T_IN) 0 sector) }.

(** The transfer between the buffer and the two sectors of a block. *)
Definition transfer (b sector : Z) (write : bool) (s : bcache) : bcache :=
  if write then Bcache (bufs s) ((sector / 2, b_data (buf_at s b)) :: hist s)
  else upd_buf b (set_data (disk_read (hist s) (sector / 2))) s.

(** The device writes its status, 0 for success, adds the chain to the used ring and
    raises the used-buffer interrupt; it has acted on its notifications. *)
Definition complete (h st : Z) (v : vdisk) : vdisk :=
  let v := vset_status (<[h := st]> (info_status v)) v in
  let v := vset_used (<[used_ring_idx v mod NUM := h]> (used_ring v)) (u16 (used_ring_idx v + 1)) v in
  vset_notify [] (vset_istatus (Z.lor (i_status v) 1) v).

(** A device that has served all requests but the last one serves that one when it is
    notified of queue 0.  The status [st] it reports is its choice; with success it has
    done the transfer, with an error the contents of the buffer and of the disk are
    unknown.  Nothing is said of a device that is not notified. *)
Class BlockDevice (device : Z -> vdst -> vdst) : Prop :=
  device_serves st s h i1 i2 b sector write :
    let v := vs_disk s in
    0 ∈ q_notify v ->
    avail_idx v = u16 (used_ring_idx v + 1) ->
    avail_ring v !! (used_ring_idx v mod NUM) = Some h ->
    request v h i1 i2 b sector write ->
    vs_disk (device st s) = complete h st v /\
    (st = 0 -> vs_bc (device st s) = transfer b sector write (vs_bc s)).

Section serve.
Context (device : Z -> vdst -> vdst) `{!BlockDevice device}.

(** While the driver sleeps the device works; if it interrupts, the handler runs.  The
    device reports the statuses [sts], one for each time the driver sleeps. *)
Fixpoint serve {A} (sts : list Z) (r : res vdst A) : res vdst A :=
  match r with
  | Block c w s resume =>
      match sts with
      | [] => Diverge
      | st :: sts =>
          let s := device st s in
          if i_status (vs_disk s) =? 0 then Diverge
          else
            match virtio_disk_intr w s with
            | Ret w' s' _ => serve sts (resume w' s')
            | Panic msg => Panic msg
            | _ => Diverge
            end
      end
  | r => r
  end.

(** Nothing is in flight, and no interrupt is pending. *)
Record vidle (v : vdisk) : Prop := {
  vi_all_free i : 0 <= i < NUM -> is_free v i = true;
  vi_avail : avail_idx v = used_ring_idx v;
  vi_used : used_idx v = used_ring_idx v;
  vi_range : 0 <= used_ring_idx v < 2 ^ 16;
  vi_notify : q_notify v = [];
  vi_status : i_status v = 0 }.

Lemma u16_succ_ne u : 0 <= u < 2 ^ 16 -> u <> u16 (u + 1).
Proof.
  intros Hu. unfold u16. destruct (decide (u = 2 ^ 16 - 1)) as [->|]; [by vm_compute|]. rewrite Z.mod_small; lia.
Qed.

(** ** Descriptors *)

Lemma is_free_set i x v j : is_free (vset_free (<[i := x]> (v_free v)) v) j = if decide (i = j) then x else is_free v j.
Proof. unfold is_free. simpl. rewrite lookup_insert. by case_decide. Qed.

Definition take_desc (i : Z) (v : vdisk) : vdisk := vset_free (<[i := false]> (v_free v)) v.
Definition give_desc (i : Z) (v : vdisk) : vdisk :=
  let v := vset_desc (<[i := vdesc0]> (v_desc v)) v in vset_free (<[i := true]> (v_free v)) v.

(** The first free descriptor is taken. *)
Lemma alloc_desc_run w s v i :
  (forall j, 0 <= j < i -> is_free v j = false) -> is_free v i = true -> 0 <= i < NUM ->
  alloc_desc w (Vdst s v) = Ret w (Vdst s (take_desc i v)) i.
Proof.
  intros Hlt Hi Hr. unfold alloc_desc.
  assert (H : forall k j, 0 <= j <= i -> i < j + Z.of_nat k ->
    alloc_desc_loop j k w (Vdst s v) = Ret w (Vdst s (take_desc i v)) i).
  { induction k as [|k IH]; intros j Hj Hk; [lia|]. simpl. unfold vget. rewrite run_gets. simpl.
    destruct (decide (j = i)) as [->|Hne]; [by rewrite Hi|]. rewrite Hlt by lia. apply IH; lia. }
  apply H; [lia|]. unfold NUM in *. lia.
Qed.

Lemma free_desc_run w s v i :
  is_free v i = false -> i < NUM ->
  free_desc i w (Vdst s v) =
  Ret (World (held w) (ChDiskFree :: wakeups w) (cons_out w)) (Vdst s (give_desc i v)) tt.
Proof.
  intros Hf Hi. unfold free_desc. rewrite (proj2 (Z.leb_gt _ _)) by done.
  unfold vget. rewrite run_gets. simpl. by rewrite Hf.
Qed.

(** Three of all descriptors. *)
Lemma alloc3_run w s v : vidle v ->
  alloc3_desc w (Vdst s v) = Ret w (Vdst s (take_desc 2 (take_desc 1 (take_desc 0 v)))) (Some [0; 1; 2]).
Proof.
  intros I. unfold alloc3_desc. simpl.
  run_step (alloc_desc_run w s v 0); [|lia|by apply I|done]. simpl.
  run_step (alloc_desc_run w s (take_desc 0 v) 1); [| | |done]; cycle 1.
  { intros j Hj. unfold take_desc. rewrite is_free_set. by rewrite decide_True by lia. }
  { unfold take_desc. rewrite is_free_set. simpl. by apply I. }
  simpl. run_step (alloc_desc_run w s (take_desc 1 (take_desc 0 v)) 2); [done| | |done].
  { intros j Hj. unfold take_desc. rewrite !is_free_set. repeat case_decide; try done. lia. }
  { unfold take_desc. rewrite !is_free_set. simpl. by apply I. }
Qed.

(** ** One request *)

(** The descriptors a request at 0, 1, 2 has been written to. *)
Definition formatted (b sector : Z) (write : bool) (v : vdisk) : vdisk :=
  notify 0 (offer 0 (vset_info_b (<[0 := Some b]> (info_b v)) (format_req b sector write 0 1 2 v))).

Lemma formatted_request b sector write v : request (formatted b sector write v) 0 1 2 b sector write.
Proof. split; unfold desc_at; simpl; by simplify_map_eq. Qed.

(** What the device leaves for the handler, once the interrupt is acknowledged. *)
Definition answered (st : Z) (v : vdisk) : vdisk := vset_istatus 0 (complete 0 st v).

Lemma request_answered i st v h i1 i2 b sector write :
  request v h i1 i2 b sector write -> request (vset_used_idx i (answered st v)) h i1 i2 b sector write.
Proof. intros []. by split. Qed.

(** The handler after the device has completed the request at 0. *)
Lemma intr_loop_run w s v b k :
  let u := used_ring_idx v in
  0 <= u < 2 ^ 16 -> used_idx v = u -> info_b v !! 0 = Some (Some b) ->
  virtio_disk_intr_loop (S k) w (Vdst s (answered 0 v)) =
  Ret (World (held w) (ChBuf b :: wakeups w) (cons_out w))
    (Vdst (upd_buf b (set_bdisk false) s) (vset_used_idx (u16 (u + 1)) (answered 0 v))) tt.
Proof.
  intros u Hu Hi Hb. assert (Hne : u <> u16 (u + 1)) by (by apply u16_succ_ne).
  simpl. unfold vget at 1. rewrite run_gets. simpl. fold u. rewrite Hi, (proj2 (Z.eqb_neq _ _)) by done. simpl.
  rewrite lookup_insert_eq. simpl. rewrite lookup_insert_eq. simpl. rewrite Hb. simpl.
  erewrite run_bind by (by eapply zoom_ret). rewrite run_wakeup. unfold vmod. rewrite run_modify. simpl.
  fold u. rewrite Hi. destruct k; simpl; unfold vget; rewrite run_gets; simpl; fold u; by rewrite Z.eqb_refl.
Qed.

(** A status other than success is a panic. *)
Lemma intr_loop_error w s v st k :
  let u := used_ring_idx v in
  0 <= u < 2 ^ 16 -> used_idx v = u -> st <> 0 ->
  virtio_disk_intr_loop (S k) w (Vdst s (answered st v)) = Panic "virtio_disk_intr status".
Proof.
  intros u Hu Hi Hst. assert (Hne : u <> u16 (u + 1)) by (by apply u16_succ_ne).
  simpl. unfold vget at 1. rewrite run_gets. simpl. fold u. rewrite Hi, (proj2 (Z.eqb_neq _ _)) by done. simpl.
  rewrite lookup_insert_eq. simpl. rewrite lookup_insert_eq. simpl. by rewrite (proj2 (Z.eqb_neq st 0)).
Qed.

Definition woken (cs : list chan) (w : world) : world := World (held w) (cs ++ wakeups w) (cons_out w).

Lemma free_chain_run w s v b sector write :
  request v 0 1 2 b sector write -> is_free v 0 = false -> is_free v 1 = false -> is_free v 2 = false ->
  free_chain 0 w (Vdst s v) =
  Ret (woken [ChDiskFree; ChDiskFree; ChDiskFree] w) (Vdst s (give_desc 2 (give_desc 1 (give_desc 0 v)))) tt.
Proof.
  intros R H0 H1 H2. destruct R. unfold free_chain. change (Z.to_nat NUM) with 8%nat.
  assert (Hd : forall i j v, i <> j -> desc_at (give_desc i v) j = desc_at v j).
  { intros i j v' Hij. unfold desc_at, give_desc. simpl. by rewrite lookup_insert_ne. }
  assert (Hf : forall i j v, i <> j -> is_free (give_desc i v) j = is_free v j).
  { intros i j v' Hij. unfold is_free, give_desc. simpl. by rewrite lookup_insert_ne. }
  cbn [free_chain_loop]. unfold vget. rewrite run_gets. cbn [vs_disk]. rewrite rq_head0. cbn [vd_flags vd_next].
  run_step (free_desc_run w s v 0 H0); [|done]. simpl (negb _). cbv iota.
  rewrite run_gets. cbn [vs_disk]. rewrite Hd, rq_data0 by done. cbn [vd_flags vd_next].
  erewrite run_bind by (by apply free_desc_run; [rewrite Hf by done|]).
  replace (negb _) with true by (by destruct write). cbv iota.
  rewrite run_gets. cbn [vs_disk]. rewrite !Hd, rq_stat0 by done. cbn [vd_flags vd_next].
  erewrite run_bind by (by apply free_desc_run; [rewrite !Hf by done|]). done.
Qed.

(** The whole transfer, between the two changes of [b->disk]. *)
Lemma transfer_effect s b write :
  transferable b s ->
  upd_buf b (set_bdisk false)
    (transfer b (u32 (b_blockno (buf_at s b) * (BSIZE / 512))) write (upd_buf b (set_bdisk true) s)) =
  (if write then disk_store b s else disk_load b s).
Proof.
  intros ([x Hx] & Hd & Hn). assert (Hb : buf_at s b = x) by (unfold buf_at; by rewrite Hx).
  rewrite Hb in *. change (BSIZE / 512) with 2. rewrite u32_small by lia.
  assert (Hdiv : b_blockno x * 2 / 2 = b_blockno x) by (by rewrite Z.div_mul).
  destruct write; unfold transfer, disk_store, disk_load, upd_buf, buf_at; simpl;
    rewrite ?lookup_alter_eq, ?Hx; simpl; rewrite ?Hdiv; f_equal; apply map_eq; intros i;
    (destruct (decide (i = b)) as [->|Hne]; [|by rewrite !lookup_alter_ne]);
    rewrite !lookup_alter_eq, Hx; simpl; f_equal; destruct x; simpl in *; by subst.
Qed.

Lemma run_bind_block {D A B} (m : M D A) (f : A -> M D B) w d c w' d' k :
  m w d = Block c w' d' k -> (m ≫= f) w d = Block c w' d' (fun w d => bind_res (k w d) f).
Proof. intros H. unfold mbind, M_bind. by rewrite H. Qed.

(** What the driver has done when it first sleeps. *)
Lemma rw_blocks w s v b write fuel :
  held w = [] -> vidle v -> is_Some (bufs s !! b) ->
  let sector := u32 (b_blockno (buf_at s b) * (BSIZE / 512)) in
  let v1 := formatted b sector write (take_desc 2 (take_desc 1 (take_desc 0 v))) in
  virtio_disk_rw (S fuel) b write w (Vdst s v) =
  Block (ChBuf b) w (Vdst (upd_buf b (set_bdisk true) s) v1)
    (fun w' s' =>
      ((wait_done b fuel;;
        vmod (fun v => vset_info_b (<[0 := None]> (info_b v)) v);;
        free_chain 0;;
        release LkDisk) : M vdst unit) (set_held [LkDisk] w') s').
Proof.
  intros Hw I Hs sector v1. unfold virtio_disk_rw.
  erewrite run_bind by (by eapply zoom_ret). fold sector.
  rewrite run_acquire by (rewrite Hw; apply not_elem_of_nil). set (w1 := set_held _ w).
  erewrite run_bind; cycle 1.
  { simpl. run_step (alloc3_run w1 s v I). done. }
  simpl. unfold vmod. rewrite run_modify. simpl.
  erewrite run_bind by (by eapply zoom_ret). simpl. rewrite !run_modify. simpl.
  fold v1. set (s1 := Vdst _ _).
  assert (Hd : zoom bc_in (getb b_disk b) w1 s1 = Ret w1 s1 true).
  { unfold zoom, getb. simpl. rewrite buf_at_upd by done. by rewrite decide_True. }
  assert (Hsl : @sleep vdst (ChBuf b) LkDisk w1 s1 =
    Block (ChBuf b) w s1 (fun w' s' => Ret (set_held [LkDisk] w') s' tt)).
  { unfold sleep, w1. simpl. rewrite Hw, decide_True by done.
    f_equal. destruct w; simpl in *. by subst. }
  erewrite run_bind_block; [|run_step Hd; by apply run_bind_block, Hsl]. done.
Qed.

(** The handler acknowledges the interrupt and looks at the used ring. *)
Lemma intr_run w s v st :
  held w = [] -> i_status v = 0 ->
  virtio_disk_intr w (Vdst s (complete 0 st v)) =
  bind_res (virtio_disk_intr_loop (Z.to_nat (2 ^ 16)) (set_held [LkDisk] w) (Vdst s (answered st v))) (fun _ => release LkDisk).
Proof.
  intros Hw Hi. unfold virtio_disk_intr. rewrite run_acquire by (rewrite Hw; apply not_elem_of_nil). rewrite Hw.
  unfold vget, vmod. rewrite run_gets. cbn [vs_disk]. rewrite run_modify. cbn [vs_bc vs_disk].
  assert (E : ack (Z.land (i_status (complete 0 st v)) 3) (complete 0 st v) = answered st v).
  { unfold ack, answered, complete. cbn. by rewrite Hi. }
  by rewrite E.
Qed.

Lemma intr_success w s v b :
  let u := used_ring_idx v in
  held w = [] -> i_status v = 0 -> 0 <= u < 2 ^ 16 -> used_idx v = u -> info_b v !! 0 = Some (Some b) ->
  virtio_disk_intr w (Vdst s (complete 0 0 v)) =
  Ret (woken [ChBuf b] w)
    (Vdst (upd_buf b (set_bdisk false) s) (vset_used_idx (u16 (u + 1)) (answered 0 v))) tt.
Proof.
  intros u Hw Hs Hu Hi Hb. rewrite intr_run by done.
  replace (Z.to_nat (2 ^ 16)) with (S (Z.to_nat (2 ^ 16 - 1))) by lia.
  rewrite (intr_loop_run (set_held [LkDisk] w) s v b (Z.to_nat (2 ^ 16 - 1)) Hu Hi Hb). unfold bind_res, release. simpl.
  f_equal. unfold set_held, woken. simpl. by rewrite Hw.
Qed.

Lemma intr_error w s v st :
  let u := used_ring_idx v in
  held w = [] -> i_status v = 0 -> 0 <= u < 2 ^ 16 -> used_idx v = u -> st <> 0 ->
  virtio_disk_intr w (Vdst s (complete 0 st v)) = Panic "virtio_disk_intr status".
Proof.
  intros u Hw Hs Hu Hi Hst. rewrite intr_run by done.
  replace (Z.to_nat (2 ^ 16)) with (S (Z.to_nat (2 ^ 16 - 1))) by lia.
  by rewrite (intr_loop_error (set_held [LkDisk] w) s v st (Z.to_nat (2 ^ 16 - 1)) Hu Hi Hst).
Qed.

(** What the driver does when it is woken up after the interrupt. *)
Lemma rw_resumes w s v b sector write fuel :
  held w = [LkDisk] -> b_disk (buf_at s b) = false -> request v 0 1 2 b sector write ->
  is_free v 0 = false -> is_free v 1 = false -> is_free v 2 = false ->
  ((wait_done b fuel;;
    vmod (fun v => vset_info_b (<[0 := None]> (info_b v)) v);;
    free_chain 0;;
    release LkDisk) : M vdst unit) w (Vdst s v) =
  Ret (set_held [] (woken [ChDiskFree; ChDiskFree; ChDiskFree] w))
    (Vdst s (give_desc 2 (give_desc 1 (give_desc 0 (vset_info_b (<[0 := None]> (info_b v)) v))))) tt.
Proof.
  intros Hw Hb R H0 H1 H2. destruct R.
  assert (Hwait : wait_done b fuel w (Vdst s v) = Ret w (Vdst s v) tt).
  { destruct fuel; simpl; (erewrite run_bind by (by eapply zoom_ret)); simpl; by rewrite Hb. }
  run_step Hwait. unfold vmod. rewrite run_modify. simpl.
  erewrite run_bind; [|by eapply (free_chain_run _ _ _ b sector write)].
  unfold release. simpl. by rewrite Hw.
Qed.

(** The request up to the answer of the device. *)
Lemma rw_answered w s v b write fuel st :
  held w = [] -> vidle v -> is_Some (bufs s !! b) ->
  let sector := u32 (b_blockno (buf_at s b) * (BSIZE / 512)) in
  let v1 := formatted b sector write (take_desc 2 (take_desc 1 (take_desc 0 v))) in
  exists s1, (st = 0 -> s1 = transfer b sector write (upd_buf b (set_bdisk true) s)) /\
    serve [st] (virtio_disk_rw (S fuel) b write w (Vdst s v)) =
    match virtio_disk_intr w (Vdst s1 (complete 0 st v1)) with
    | Ret w' s' _ =>
        serve [] (((wait_done b fuel;;
          vmod (fun v => vset_info_b (<[0 := None]> (info_b v)) v);;
          free_chain 0;;
          release LkDisk) : M vdst unit) (set_held [LkDisk] w') s')
    | Panic msg => Panic msg
    | _ => Diverge
    end.
Proof.
  intros Hw I Hs sector v1. pose proof (rw_blocks w s v b write fuel Hw I Hs) as Hrun. cbv zeta in Hrun. rewrite Hrun. clear Hrun.
  destruct I as [If Ia Iu Ir In Is]. fold sector. fold v1. cbn [serve]. set (s0 := Vdst _ v1).
  destruct (device_serves st s0 0 1 2 b sector write) as [Hd Ht].
  { unfold s0, v1. simpl. left. }
  { simpl. by rewrite Ia. }
  { simpl. by rewrite Ia, lookup_insert_eq. }
  { apply formatted_request. }
  destruct (device st s0) as [s1 v2]. cbn [vs_disk vs_bc] in *. subst v2. exists s1. split; [exact Ht|].
  assert (Hne : i_status (complete 0 st v1) =? 0 = false) by (unfold complete, v1, formatted; simpl; by rewrite Is).
  cbv zeta. change (vs_disk s0) with v1. by rewrite Hne.
Qed.

(** The request as a whole. *)
Lemma rw_serves w s v b write fuel :
  held w = [] -> vidle v -> transferable b s ->
  exists v', serve [0] (virtio_disk_rw (S fuel) b write w (Vdst s v)) =
    Ret (woken [ChDiskFree; ChDiskFree; ChDiskFree; ChBuf b] w)
      (Vdst (if write then disk_store b s else disk_load b s) v') tt /\ vidle v'.
Proof.
  intros Hw I T. destruct (T) as (Hs & Hdk & Hn).
  destruct (rw_answered w s v b write fuel 0 Hw I Hs) as (s1 & Hs1 & ->). specialize (Hs1 eq_refl). subst s1.
  set (sector := u32 _). set (v1 := formatted _ _ _ _). destruct I as [If Ia Iu Ir In Is].
  rewrite (intr_success w _ v1 b Hw Is Ir Iu) by (simpl; by rewrite lookup_insert_eq).
  unfold sector. rewrite transfer_effect by done.
  erewrite (rw_resumes _ _ _ b sector write); cycle 1.
  { done. }
  { destruct write; unfold disk_store, disk_load; [done|]. rewrite buf_at_upd by done. by rewrite decide_True. }
  { apply request_answered. exact (formatted_request b sector write (take_desc 2 (take_desc 1 (take_desc 0 v)))). }
  1, 2, 3: unfold is_free; simpl; by simplify_map_eq.
  cbn [serve]. eexists. split; [f_equal; unfold set_held, woken; simpl; by rewrite Hw|]. split; simpl; try done.
  - intros i Hi. unfold is_free. simpl. rewrite !lookup_insert. repeat case_decide; try done. by apply If.
  - by rewrite Ia.
  - apply Z.mod_pos_bound. lia.
Qed.

Lemma rw_fails w s v b write fuel st :
  held w = [] -> vidle v -> transferable b s -> st <> 0 ->
  serve [st] (virtio_disk_rw (S fuel) b write w (Vdst s v)) = Panic "virtio_disk_intr status".
Proof.
  intros Hw I (Hs & _) Hst. destruct (rw_answered w s v b write fuel st Hw I Hs) as (s1 & _ & ->).
  destruct I as [If Ia Iu Ir In Is]. set (v1 := formatted _ _ _ _). by rewrite (intr_error w s1 v1 st Hw Is Ir Iu Hst).
Qed.

(** The driver as the buffer cache calls it, from the idle state [v], with a disk that
    reports no error; the wakeups it causes are on channels of its own. *)
Definition driver (v : vdisk) (b : Z) (write : bool) : M bcache unit := fun w s =>
  match serve [0] (virtio_disk_rw 1 b write w (Vdst s v)) with
  | Ret _ s' _ => Ret w (vs_bc s') tt
  | Panic msg => Panic msg
  | _ => Diverge
  end.

#[export] Instance virtio_driver v : vidle v -> DiskDriver (driver v).
Proof.
  intros I. split; intros b w s Hw T; unfold driver.
  - by destruct (rw_serves w s v b false 0 Hw I T) as (v' & -> & _).
  - by destruct (rw_serves w s v b true 0 Hw I T) as (v' & -> & _).
Qed.

(** C12: A request of [virtio_disk_rw] to an idle driver, whose device follows the
    virtio specification.  The driver notifies the device, which serves the chain
    and interrupts, and the handler acknowledges the interrupt.  If the device
    reports success the request returns without panic or lost wakeup, having moved
    exactly the block of the buffer in the direction asked for; all descriptors
    are free again, both rings are at the same place, no notification or interrupt
    is pending, and so the driver keeps the promise that the buffer cache relies
    on for the next request as well.  If the device reports an error the handler
    panics. *)
Theorem virtio_disk_rw_spec w s v b write fuel st :
  held w = [] -> vidle v -> transferable b s ->
  let r := serve [st] (virtio_disk_rw (S fuel) b write w (Vdst s v)) in
  if st =? 0 then
    exists v', r = Ret (woken [ChDiskFree; ChDiskFree; ChDiskFree; ChBuf b] w)
      (Vdst (if write then disk_store b s else disk_load b s) v') tt /\ vidle v' /\ DiskDriver (driver v')
  else r = Panic "virtio_disk_intr status".
Proof.
  intros Hw I T. cbv zeta. destruct (Z.eqb_spec st 0) as [->|Hst]; [|by apply rw_fails].
  destruct (rw_serves w s v b write fuel Hw I T) as (v' & Hrun & I').
  exists v'. split; [exact Hrun|]. split; [exact I'|by apply virtio_driver].
Qed.
End serve.

(** ** A device that follows the specification *)

Definition serve_one (st : Z) (s : vdst) : vdst :=
  let v := vs_disk s in
  let h := default 0 (avail_ring v !! (used_ring_idx v mod NUM)) in
  if decide (0 ∈ q_notify v) then
    match desc_at v (vd_next (desc_at v h)), v_ops v !! h with
    | VirtqDesc (DmaData b) _ _ _, Some rq =>
        Vdst (if st =? 0 then transfer b (rq_sector rq) (rq_type rq =? VIRTIO_BLK_T_OUT) (vs_bc s) else vs_bc s) (complete h st v)
    | _, _ => s
    end
  else s.

#[export] Instance serve_one_device : BlockDevice serve_one.
Proof.
  intros st s h i1 i2 b sector write v Hn Ha Hr [Hh Hd Hs Ho]. unfold serve_one. fold v.
  rewrite decide_True by exact Hn. rewrite Hr. simpl. rewrite Hh. simpl. rewrite Hd, Ho. simpl.
  split; [reflexivity|]. intros ->. by destruct write.
Qed.

(** The driver after [virtio_disk_init]. *)
Definition vdisk0 : vdisk :=
  Vdisk ∅ ∅ 0 ∅ 0 (list_to_map (map (fun i => (i, true)) (seqZ 0 NUM))) 0 ∅ ∅ ∅ [] 0.

Lemma vdisk0_idle : vidle vdisk0.
Proof.
  split; [|done|done|by vm_compute|done|done]. intros i Hi.
  assert (H : Forall (fun i => is_free vdisk0 i = true) (seqZ 0 NUM)) by (vm_compute; repeat constructor).
  rewrite Forall_forall in H. apply H, elem_of_seqZ. lia.
Qed.

(** A write of block 7 from buffer 2. *)
Definition demo_buf : buf := Buf true false ROOTDEV 7 (Sleeplock 1 "buffer" 3) 1 0 0 {[0 := 9]}.

Lemma virtio_disk_rw_spec_witness :
  (exists v', serve serve_one [0] (virtio_disk_rw 1 2 true (World [] [] []) (Vdst (Bcache {[2 := demo_buf]} []) vdisk0)) =
    Ret (World [] [ChDiskFree; ChDiskFree; ChDiskFree; ChBuf 2] [])
      (Vdst (Bcache {[2 := demo_buf]} [(7, {[0 := 9]})]) v') tt /\ vidle v') /\
  serve serve_one [1] (virtio_disk_rw 1 2 true (World [] [] []) (Vdst (Bcache {[2 := demo_buf]} []) vdisk0)) =
    Panic "virtio_disk_intr status".
Proof.
  assert (T : transferable 2 (Bcache {[2 := demo_buf]} [])) by (split; [by eexists|]; vm_compute; split; [done|split; [discriminate|done]]).
  pose proof (fun st => virtio_disk_rw_spec serve_one (World [] [] []) (Bcache {[2 := demo_buf]} []) vdisk0 2 true 0 st eq_refl vdisk0_idle T) as H.
  split; [|exact (H 1)]. destruct (H 0) as (v' & Hrun & I & _). exists v'. split; [|exact I]. rewrite Hrun. reflexivity.
Defined.
