(* ===== verification/FsHdr.v ===== *)
(** * kernel/fs.h: the format of the disk *)

From S2P Require Import Prelude Mem Layout Bio.

Definition ROOTINO : Z := 1.

Record superblock := Superblock {
  sb_magic : Z; sb_size : Z; sb_nblocks : Z; sb_ninodes : Z;
  sb_nlog : Z; sb_logstart : Z; sb_inodestart : Z; sb_bmapstart : Z }.

Definition FSMAGIC : Z := 270544960.      (* 0x10203040 *)
Definition NDIRECT : Z := 12.
Definition NINDIRECT : Z := BSIZE / 4.
Definition MAXFILE : Z := NDIRECT + NINDIRECT.

(** [sizeof(struct dinode)]: four shorts, a size and [NDIRECT + 1] addresses. *)
Definition DINODE_SIZE : Z := 2 * 4 + 4 + 4 * (NDIRECT + 1).
Definition IPB : Z := BSIZE / DINODE_SIZE.
Definition IBLOCK (i : Z) (sb : superblock) : Z := u32 (i / IPB + sb_inodestart sb).
Definition BPB : Z := BSIZE * 8.
Definition BBLOCK (b : Z) (sb : superblock) : Z := u32 (b / BPB + sb_bmapstart sb).
Definition DIRSIZ : Z := 14.

(** [sizeof(struct dirent)]. *)
Definition DIRENT_SIZE : Z := 2 + DIRSIZ.

(** ** Blocks *)

(** The contents of a whole block. *)
Record is_blk (d : mem) : Prop := {
  blk_ok : mem_ok d;
  blk_dom i : is_Some (d !! i) <-> 0 <= i < BSIZE }.

Lemma blk_eq d d' : is_blk d -> is_blk d' -> (forall i, 0 <= i < BSIZE -> ld8 d i = ld8 d' i) -> d = d'.
Proof.
  intros [_ H] [_ H'] Heq. apply map_eq. intros i. unfold ld8 in Heq.
  destruct (decide (0 <= i < BSIZE)) as [Hi|Hi].
  - pose proof (proj2 (H i) Hi) as [x Hx]. pose proof (proj2 (H' i) Hi) as [y Hy].
    specialize (Heq i Hi). rewrite Hx, Hy in *. simpl in Heq. congruence.
  - rewrite <-H in Hi. apply eq_None_not_Some in Hi. rewrite Hi. symmetry. apply eq_None_not_Some.
    rewrite H', <-H. by apply eq_None_not_Some.
Qed.

Lemma is_blk_st8 d a v : is_blk d -> 0 <= a < BSIZE -> is_blk (st8 d a v).
Proof.
  intros [Hok Hdom] Ha. split; [by apply mem_ok_st8|]. intros i. unfold st8.
  destruct (decide (i = a)) as [->|Hne].
  - rewrite lookup_insert_eq. split; [done|by eexists].
  - by rewrite lookup_insert_ne by done.
Qed.

Lemma is_blk_st_le n d a v : is_blk d -> 0 <= a -> a + Z.of_nat n <= BSIZE -> is_blk (st_le n d a v).
Proof.
  revert d a v. induction n as [|n IH]; intros d a v Hd Ha Hn; [done|]. simpl.
  apply IH; [apply is_blk_st8; [done|lia]|lia|lia].
Qed.

Lemma is_blk_blkmove d a sm s n :
  is_blk d -> 0 <= a -> a + Z.of_nat n <= BSIZE -> is_blk (blkmove d a sm s n).
Proof.
  revert d a s. induction n as [|n IH]; intros d a s Hd Ha Hn; [done|]. simpl.
  apply IH; [apply is_blk_st8; [done|lia]|lia|lia].
Qed.

Lemma BSIZE_nat : Z.of_nat (Z.to_nat BSIZE) = BSIZE.
Proof. done. Qed.

(** Copying a whole block. *)
Lemma blkmove_block d d' : is_blk d -> is_blk d' -> blkmove d 0 d' 0 (Z.to_nat BSIZE) = d'.
Proof.
  intros Hd Hd'. apply blk_eq; [apply is_blk_blkmove; [done|lia|by rewrite BSIZE_nat]|done|].
  intros i Hi. rewrite ld8_blkmove, BSIZE_nat, decide_True by (done || apply (blk_ok _ Hd')). f_equal. lia.
Qed.

Lemma is_blk_zero : is_blk zero_block.
Proof.
  assert (Hgen : forall k m i, 0 <= i -> mem_ok m -> (forall j, is_Some (m !! j) <-> 0 <= j < i) ->
            let m' := memset_loop m 0 0 i k in
            mem_ok m' /\ forall j, is_Some (m' !! j) <-> 0 <= j < i + Z.of_nat k).
  { induction k as [|k IH]; intros m i Hi Hok Hdom; simpl.
    - split; [done|]. intros j. rewrite Hdom. lia.
    - destruct (IH (st8 m (0 + i) 0) (i + 1)) as [H1 H2]; [lia|by apply mem_ok_st8| |].
      + intros j. unfold st8. destruct (decide (j = 0 + i)) as [->|Hne].
        * rewrite lookup_insert_eq. split; [lia|by eexists].
        * rewrite lookup_insert_ne by done. rewrite Hdom. lia.
      + split; [done|]. intros j. rewrite H2. lia. }
  destruct (Hgen (Z.to_nat BSIZE) ∅ 0) as [H1 H2]; [lia|apply mem_ok_empty| |split; [done|]].
  - intros j. rewrite lookup_empty. split; [by intros [? ?]|lia].
  - intros j. etrans; [exact (H2 j)|]. rewrite Z2Nat.id by done. done.
Qed.
