(* ===== verification/Log.v ===== *)
(** * kernel/log.c: the write-ahead log

    The log lives in the blocks [start .. start + size) of the disk: a header
    with block numbers, then the blocks.  All disk traffic goes through the
    buffer cache. *)

From S2P Require Import Prelude Machine Sleeplock Mem Layout Bio FsHdr.

(** [struct log] (its [lh] inlined) and the buffer cache it uses. *)
Record logst := Logst {
  lg_start : Z; lg_size : Z; lg_outstanding : Z; lg_committing : bool; lg_dev : Z;
  lh_n : Z; lh_block : gmap Z Z; lg_bc : bcache }.

(** [log] before [initlog]: all zero. *)
Definition log0 (bc : bcache) : logst := Logst 0 0 0 false 0 0 ∅ bc.

Definition set_place st sz dev l := Logst st sz (lg_outstanding l) (lg_committing l) dev (lh_n l) (lh_block l) (lg_bc l).
Definition set_outstanding o l := Logst (lg_start l) (lg_size l) o (lg_committing l) (lg_dev l) (lh_n l) (lh_block l) (lg_bc l).
Definition set_committing c l := Logst (lg_start l) (lg_size l) (lg_outstanding l) c (lg_dev l) (lh_n l) (lh_block l) (lg_bc l).
Definition set_n n l := Logst (lg_start l) (lg_size l) (lg_outstanding l) (lg_committing l) (lg_dev l) n (lh_block l) (lg_bc l).
Definition set_lblock i v l := Logst (lg_start l) (lg_size l) (lg_outstanding l) (lg_committing l) (lg_dev l) (lh_n l) (<[i := v]> (lh_block l)) (lg_bc l).
Definition set_bc bc l := Logst (lg_start l) (lg_size l) (lg_outstanding l) (lg_committing l) (lg_dev l) (lh_n l) (lh_block l) bc.

(** [log.lh.block[i]], an [int]. *)
Definition lblock (l : logst) (i : Z) : Z := default 0 (lh_block l !! i).

(** [sizeof(struct logheader)], and the fields of a header in a block. *)
Definition LOGHEADER_SIZE : Z := 4 + 4 * LOGSIZE.

Definition hdr_n (d : mem) : Z := s32 (ld32 d 0).

Definition hdr_block (d : mem) (i : Z) : Z := s32 (ld32 d (4 + 4 * i)).

Definition bc_of : lens logst bcache := Lens _ _ lg_bc set_bc.

Section log.
Variable virtio_disk_rw : Z -> bool -> M bcache unit.
(** The running process; [fuel] bounds the wakeups after which it has to sleep
    again. *)
Variables (pid : Z) (fuel : nat).

(** The buffer cache, called from here. *)
Definition lbread (n : Z) : M logst Z :=
  dev ← gets lg_dev; zoom bc_of (bread virtio_disk_rw pid fuel dev (u32 n)).
Definition lbwrite (b : Z) : M logst unit := zoom bc_of (bwrite virtio_disk_rw pid b).
Definition lbrelse (b : Z) : M logst unit := zoom bc_of (brelse pid b).
Definition ldata (b : Z) : M logst mem := zoom bc_of (getb b_data b).
Definition set_ldata (b : Z) (d : mem) : M logst unit := zoom bc_of (setb b (set_data d)).

(** [memmove(to->data, from->data, BSIZE)]. *)
Definition copy_buf (to from : Z) : M logst unit :=
  s ← ldata from;
  d ← ldata to;
  set_ldata to (blkmove d 0 s 0 (Z.to_nat BSIZE)).

Fixpoint install_loop (recovering : bool) (tail : Z) (k : nat) : M logst unit :=
  match k with
  | O => mret tt
  | S k =>
      start ← gets lg_start;
      lbuf ← lbread (start + tail + 1);
      blk ← gets (fun l => lblock l tail);
      dbuf ← lbread blk;
      copy_buf dbuf lbuf;;
      lbwrite dbuf;;
      when (negb recovering) (zoom bc_of (bunpin dbuf));;
      lbrelse lbuf;;
      lbrelse dbuf;;
      install_loop recovering (tail + 1) k
  end.

Definition install_trans (recovering : bool) : M logst unit :=
  n ← gets lh_n;
  install_loop recovering 0 (Z.to_nat n).

Fixpoint read_head_loop (d : mem) (i : Z) (k : nat) : M logst unit :=
  match k with
  | O => mret tt
  | S k => modify (set_lblock i (hdr_block d i));; read_head_loop d (i + 1) k
  end.

Definition read_head : M logst unit :=
  start ← gets lg_start;
  buf ← lbread start;
  d ← ldata buf;
  modify (set_n (hdr_n d));;
  read_head_loop d 0 (Z.to_nat (hdr_n d));;
  lbrelse buf.

(** [hb->block[i] = log.lh.block[i]] for the first [k]. *)
Fixpoint put_blocks (l : logst) (d : mem) (i : Z) (k : nat) : mem :=
  match k with
  | O => d
  | S k => put_blocks l (st32 d (4 + 4 * i) (lblock l i)) (i + 1) k
  end.

Definition write_head : M logst unit :=
  start ← gets lg_start;
  buf ← lbread start;
  d ← ldata buf;
  d' ← gets (fun l => put_blocks l (st32 d 0 (lh_n l)) 0 (Z.to_nat (lh_n l)));
  set_ldata buf d';;
  lbwrite buf;;
  lbrelse buf.

Definition recover_from_log : M logst unit :=
  read_head;;
  install_trans true;;
  modify (set_n 0);;
  write_head.

Definition initlog (dev : Z) (sb : superblock) : M logst unit :=
  if BSIZE <=? LOGHEADER_SIZE then panic "initlog: too big logheader"
  else
    modify (set_place (s32 (sb_logstart sb)) (s32 (sb_nlog sb)) dev);;
    recover_from_log.

Fixpoint begin_op_loop (k : nat) : M logst unit :=
  l ← gets (fun l => l);
  if lg_committing l then
    match k with O => diverge | S k => sleep ChLog LkLog;; begin_op_loop k end
  else if LOGSIZE <? lh_n l + (lg_outstanding l + 1) * MAXOPBLOCKS then
    match k with O => diverge | S k => sleep ChLog LkLog;; begin_op_loop k end
  else
    modify (set_outstanding (lg_outstanding l + 1));;
    release LkLog.

Definition begin_op : M logst unit :=
  acquire LkLog;;
  begin_op_loop fuel.

Fixpoint write_log_loop (tail : Z) (k : nat) : M logst unit :=
  match k with
  | O => mret tt
  | S k =>
      start ← gets lg_start;
      to ← lbread (start + tail + 1);
      blk ← gets (fun l => lblock l tail);
      from ← lbread blk;
      copy_buf to from;;
      lbwrite to;;
      lbrelse from;;
      lbrelse to;;
      write_log_loop (tail + 1) k
  end.

Definition write_log : M logst unit :=
  n ← gets lh_n;
  write_log_loop 0 (Z.to_nat n).

Definition commit : M logst unit :=
  n ← gets lh_n;
  if 0 <? n then
    write_log;;
    write_head;;
    install_trans false;;
    modify (set_n 0);;
    write_head
  else mret tt.

Definition end_op : M logst unit :=
  acquire LkLog;;
  modify (fun l => set_outstanding (lg_outstanding l - 1) l);;
  l ← gets (fun l => l);
  if lg_committing l then panic "log.committing"
  else
    let do_commit := lg_outstanding l =? 0 in
    (if do_commit then modify (set_committing true) else wakeup ChLog);;
    release LkLog;;
    if do_commit then
      commit;;
      acquire LkLog;;
      modify (set_committing false);;
      wakeup ChLog;;
      release LkLog
    else mret tt.

(** The first [i] with [log.lh.block[i] == blockno], or [n]. *)
Fixpoint absorb (l : logst) (blockno i : Z) (k : nat) : Z :=
  match k with
  | O => i
  | S k => if u32 (lblock l i) =? blockno then i else absorb l blockno (i + 1) k
  end.

Definition log_write (b : Z) : M logst unit :=
  acquire LkLog;;
  l ← gets (fun l => l);
  if (LOGSIZE <=? lh_n l) || (lg_size l - 1 <=? lh_n l) then panic "too big a transaction"
  else if lg_outstanding l <? 1 then panic "log_write outside of trans"
  else
    blockno ← zoom bc_of (getb b_blockno b);
    let i := absorb l blockno 0 (Z.to_nat (lh_n l)) in
    modify (set_lblock i (s32 blockno));;
    (if i =? lh_n l then
       zoom bc_of (bpin b);;
       modify (fun l => set_n (lh_n l + 1) l)
     else mret tt);;
    release LkLog.
End log.
