(* ===== verification/LogDisk.v ===== *)
(** * The log on disk

    What a history of disk writes means to the file system: [recovered] is the
    contents of the home blocks as the next boot will see them. *)

From S2P Require Import Prelude Machine Sleeplock Mem Layout Bio FsHdr Log.

(** The block numbers of a header. *)
Definition hdr_list (d : mem) : list Z := map (hdr_block d) (seqZ 0 (hdr_n d)).

Definition disk_ok (h : history) : Prop := Forall (fun x => is_blk x.2) h.

Lemma disk_ok_read h n : disk_ok h -> is_blk (disk_read h n).
Proof.
  induction 1 as [|[n' d] h Hd _ IH]; simpl; [apply is_blk_zero|]. by destruct (n' =? n).
Qed.

Section place.
Context (start size : Z).

(** Where the log keeps the [i]th block. *)
Definition slot (i : Z) : Z := start + i + 1.

(** Blocks that are not the log's. *)
Definition home (n : Z) : Prop := 0 <= n < 2 ^ 31 /\ ~ (start <= n < start + size).

#[export] Instance home_dec n : Decision (home n).
Proof. unfold home. apply _. Defined.

Record hdr_ok (l : list Z) : Prop := {
  ho_nodup : NoDup l;
  ho_max : Z.of_nat (length l) <= LOGSIZE;
  ho_fits : Z.of_nat (length l) < size;
  ho_home n : n ∈ l -> home n }.

Definition position (n : Z) (l : list Z) : option Z :=
  (fun x => Z.of_nat x.1) <$> list_find (n =.) l.

(** The contents of block [n] after recovery. *)
Definition recovered (h : history) (n : Z) : mem :=
  match position n (hdr_list (disk_read h start)) with
  | Some i => disk_read h (slot i)
  | None => disk_read h n
  end.

Lemma position_Some n l i : position n l = Some i -> 0 <= i < Z.of_nat (length l) /\ n ∈ l.
Proof.
  unfold position. destruct (list_find (n =.) l) as [[k x]|] eqn:E; [|done].
  apply list_find_Some in E as (Hk & <- & _). simpl. intros [= <-].
  apply lookup_lt_Some in Hk as Hlt. split; [lia|]. by eapply list_elem_of_lookup_2.
Qed.

Lemma position_cons n b l :
  position n (b :: l) = if decide (n = b) then Some 0 else (fun k => k + 1) <$> position n l.
Proof.
  unfold position. simpl. case_decide; [done|]. destruct (list_find (n =.) l) as [[k x]|]; simpl; [|done].
  f_equal. lia.
Qed.

Lemma position_None n l : position n l = None <-> n ∉ l.
Proof.
  unfold position. rewrite fmap_None, list_find_None, Forall_forall. split.
  - intros H Hin. by apply (H n).
  - intros H x Hx <-. done.
Qed.

Lemma position_lookup l i n : NoDup l -> l !! i = Some n -> position n l = Some (Z.of_nat i).
Proof.
  intros Hnd Hl. unfold position. destruct (list_find (n =.) l) as [[k x]|] eqn:E; simpl.
  - apply list_find_Some in E as (Hk & <- & _). by rewrite (NoDup_lookup l i k n) by done.
  - apply list_find_None in E. rewrite Forall_forall in E. destruct (E n); [|done].
    by eapply list_elem_of_lookup_2.
Qed.

(** ** Writes of a commit *)

(** [write_log]: the blocks [l], as in [view], go to slots [i ..]. *)
Fixpoint log_writes (view : Z -> mem) (i : Z) (l : list Z) (h : history) : history :=
  match l with
  | [] => h
  | n :: l => log_writes view (i + 1) l ((slot i, view n) :: h)
  end.

(** [install_trans]: slots [i ..] go to the blocks [l]. *)
Fixpoint install_writes (i : Z) (l : list Z) (h : history) : history :=
  match l with
  | [] => h
  | n :: l => install_writes (i + 1) l ((n, disk_read h (slot i)) :: h)
  end.

(** Every state of the disk from [h] on, up to now, satisfies [P]. *)
Inductive grows (P : history -> Prop) (h : history) : history -> Prop :=
  | grows_refl : P h -> grows P h h
  | grows_write h' x : grows P h h' -> P (x :: h') -> grows P h (x :: h').

Lemma grows_trans P h h1 h2 : grows P h h1 -> grows P h1 h2 -> grows P h h2.
Proof. intros H1. induction 1; [done|by constructor]. Qed.

Lemma grows_impl (P Q : history -> Prop) h h' : (forall x, P x -> Q x) -> grows P h h' -> grows Q h h'.
Proof. intros Hi. induction 1; constructor; auto. Qed.

Lemma grows_suffix P h h' : grows P h h' -> h `suffix_of` h'.
Proof. induction 1; [done|by apply suffix_cons_r]. Qed.

(** The crash points. *)
Lemma grows_between P h h1 h' : grows P h h' -> h `suffix_of` h1 -> h1 `suffix_of` h' -> P h1.
Proof.
  intros G. revert h1. induction G as [HP|h' x G IH HP]; intros h1 H1 H2.
  - assert (h1 = h) as -> by (by apply (anti_symm suffix)). done.
  - destruct H2 as [[|y k] E]; simplify_eq/=; [done|]. apply IH; [done|by eexists].
Qed.

Lemma disk_read_ne h n n' d : n' <> n -> disk_read ((n', d) :: h) n = disk_read h n.
Proof. intros H. simpl. by rewrite (proj2 (Z.eqb_neq _ _)). Qed.

Lemma disk_read_eq h n d : disk_read ((n, d) :: h) n = d.
Proof. simpl. by rewrite Z.eqb_refl. Qed.

Lemma slot_not_home i : 0 <= i < size - 1 -> ~ home (slot i).
Proof. unfold home, slot. lia. Qed.

Lemma start_not_home : 0 < size -> ~ home start.
Proof. unfold home. lia. Qed.

(** Writing the log changes no home block and not the header. *)
Lemma log_writes_other P view l : forall i h n,
  (forall k, 0 <= k < Z.of_nat (length l) -> slot (i + k) <> n) ->
  disk_read (log_writes view i l h) n = disk_read h n /\
  ((forall h' k b, P h' -> 0 <= k < Z.of_nat (length l) -> P ((slot (i + k), view b) :: h')) ->
   P h -> grows P h (log_writes view i l h)).
Proof.
  induction l as [|b l IH]; intros i h n Hn; simpl in *.
  { split; [done|]. intros _ HP. by constructor. }
  destruct (IH (i + 1) ((slot i, view b) :: h) n) as [H1 H2].
  { intros k Hk. replace (i + 1 + k) with (i + (k + 1)) by lia. apply Hn. lia. }
  split.
  - rewrite H1. apply disk_read_ne. rewrite <-(Z.add_0_r i). apply Hn. lia.
  - intros HP Hh. eapply grows_trans; [|apply H2].
    + constructor; [by constructor|]. rewrite <-(Z.add_0_r i). apply HP; [done|lia].
    + intros h' k b' Hh' Hk. replace (i + 1 + k) with (i + (k + 1)) by lia. apply HP; [done|lia].
    + rewrite <-(Z.add_0_r i). apply HP; [done|lia].
Qed.

(** The blocks are in their slots. *)
Lemma log_writes_slot view l : forall i h k n,
  l !! k = Some n -> disk_read (log_writes view i l h) (slot (i + Z.of_nat k)) = view n.
Proof.
  induction l as [|b l IH]; intros i h k n Hk; [done|]. simpl. destruct k as [|k]; simpl in Hk.
  - simplify_eq. rewrite Z.add_0_r. destruct (log_writes_other (fun _ => True) view l (i + 1)
      ((slot i, view n) :: h) (slot i)) as [-> _]; [unfold slot; lia|]. apply disk_read_eq.
  - replace (i + Z.of_nat (S k)) with (i + 1 + Z.of_nat k) by lia. by apply IH.
Qed.

Lemma disk_ok_log_writes view l : forall i h,
  (forall n, is_blk (view n)) -> disk_ok h -> disk_ok (log_writes view i l h).
Proof.
  induction l as [|b l IH]; intros i h Hv Hh; simpl; [done|]. apply IH; [done|].
  constructor; [apply Hv|done].
Qed.

Lemma disk_ok_install l : forall i h, disk_ok h -> disk_ok (install_writes i l h).
Proof.
  induction l as [|b l IH]; intros i h Hh; simpl; [done|]. apply IH.
  constructor; [by apply disk_ok_read|done].
Qed.

(** ** Installing *)

(** Installing a block of the header does not change what recovery sees. *)
Lemma recovered_home h b d n :
  0 < size -> hdr_ok (hdr_list (disk_read h start)) -> b ∈ hdr_list (disk_read h start) ->
  recovered ((b, d) :: h) n = recovered h n /\
  disk_read ((b, d) :: h) start = disk_read h start.
Proof.
  intros Hs Hok Hb. pose proof (ho_home _ Hok b Hb) as Hh.
  assert (Hst : disk_read ((b, d) :: h) start = disk_read h start).
  { apply disk_read_ne. intros ->. by apply start_not_home in Hh. }
  split; [|done]. unfold recovered. rewrite Hst.
  destruct (position n (hdr_list (disk_read h start))) as [i|] eqn:E.
  - apply position_Some in E as [Hi _]. apply disk_read_ne. intros ->.
    apply slot_not_home in Hh; [done|]. pose proof (ho_fits _ Hok). lia.
  - apply position_None in E. apply disk_read_ne. by intros ->.
Qed.

Lemma install_grows l : forall i h v,
  0 < size -> hdr_ok (hdr_list (disk_read h start)) ->
  (forall b, b ∈ l -> b ∈ hdr_list (disk_read h start)) ->
  (forall n, recovered h n = v n) ->
  let P h' := disk_read h' start = disk_read h start /\ forall n, recovered h' n = v n in
  grows P h (install_writes i l h).
Proof.
  induction l as [|b l IH]; intros i h v Hs Hok Hl Hv P; simpl; [by constructor|].
  assert (Hb : b ∈ hdr_list (disk_read h start)) by (apply Hl; left).
  destruct (recovered_home h b (disk_read h (slot i)) b Hs Hok Hb) as [_ Hst].
  assert (Hv' : forall n, recovered ((b, disk_read h (slot i)) :: h) n = v n).
  { intros n. rewrite <-Hv. by apply recovered_home. }
  eapply grows_trans; [apply grows_write; [by apply grows_refl|by split]|].
  unfold P. rewrite <-Hst. apply IH; [done|by rewrite Hst| |done].
  intros b' Hb'. rewrite Hst. apply Hl. by right.
Qed.

(** Afterwards every block of the header is in place. *)
Lemma install_read l : forall i h n,
  0 < size -> 0 <= i -> i + Z.of_nat (length l) < size -> NoDup l -> (forall b, b ∈ l -> home b) ->
  disk_read (install_writes i l h) n =
  match position n l with Some k => disk_read h (slot (i + k)) | None => disk_read h n end.
Proof.
  induction l as [|b l IH]; intros i h n Hs Hi Hlen Hnd Hh; simpl; [done|].
  simpl in Hlen. apply NoDup_cons in Hnd as [Hb Hnd].
  rewrite IH by (done || lia || (intros; apply Hh; by right)). rewrite position_cons.
  destruct (decide (n = b)) as [->|Hne].
  - rewrite (proj2 (position_None b l)) by done. by rewrite disk_read_eq, Z.add_0_r.
  - destruct (position n l) as [k|] eqn:E; cbn [fmap option_fmap option_map]; [|by apply disk_read_ne].
    apply position_Some in E as [Hk _]. replace (i + (k + 1)) with (i + 1 + k) by lia.
    apply disk_read_ne. intros ->. apply (slot_not_home (i + 1 + k)); [lia|]. apply Hh. left.
Qed.

(** ** Commit and recovery, as seen by the next boot *)

(** The disk can be recovered, and recovery gives [v] or [v']. *)
Definition crash_ok (v v' : Z -> mem) (h : history) : Prop :=
  hdr_ok (hdr_list (disk_read h start)) /\
  ((forall n, home n -> recovered h n = v n) \/ (forall n, home n -> recovered h n = v' n)).

Lemma hdr_ok_nil : 0 < size -> hdr_ok [].
Proof.
  intros Hs. split; [constructor|done|done|]. intros n Hn. by apply not_elem_of_nil in Hn.
Qed.

Lemma recovered_clean h n : hdr_list (disk_read h start) = [] -> recovered h n = disk_read h n.
Proof. intros H. unfold recovered. by rewrite H. Qed.

Lemma grows_disk_ok P h h' : grows P h h' -> disk_ok h' -> grows (fun x => P x /\ disk_ok x) h h'.
Proof.
  induction 1 as [HP|h' x G IH HP]; intros Hok; [by constructor|].
  constructor; [|done]. apply IH. by apply Forall_cons in Hok as [_ ?].
Qed.

(** Installing the header's blocks and clearing the header. *)
Lemma recover_grows h hd ns (v : Z -> mem) :
  0 < size -> hdr_ok ns -> hdr_list (disk_read h start) = ns -> hdr_list hd = [] ->
  (forall n, home n -> recovered h n = v n) ->
  let h' := (start, hd) :: install_writes 0 ns h in
  grows (crash_ok v v) h h' /\ hdr_list (disk_read h' start) = [] /\
  forall n, home n -> disk_read h' n = v n.
Proof.
  intros Hs Hok Hns Hhd Hv h'.
  assert (Hfin : forall n, home n -> disk_read h' n = v n).
  { intros n Hn. unfold h'. rewrite disk_read_ne by (intros <-; by apply start_not_home in Hn).
    rewrite install_read; [|done|done|apply Hok|apply Hok|apply Hok].
    rewrite <-Hv by done. unfold recovered. by rewrite Hns. }
  assert (Hst : hdr_list (disk_read h' start) = []) by (unfold h'; by rewrite disk_read_eq).
  split; [|done]. apply grows_write.
  - eapply grows_impl; [|apply (install_grows ns 0 h (recovered h)); [done|by rewrite Hns|by rewrite Hns|done]].
    intros x [Hx Hr]. split; [by rewrite Hx, Hns|]. left. intros n Hn. by rewrite Hr, Hv.
  - fold h'. split; [rewrite Hst; by apply hdr_ok_nil|]. left. intros n Hn. by rewrite recovered_clean, Hfin.
Qed.

(** All the writes of a commit. *)
Lemma commit_grows h ns (v : Z -> mem) hd hd0 :
  0 < size -> hdr_ok ns -> hdr_list (disk_read h start) = [] -> hdr_list hd = ns -> hdr_list hd0 = [] ->
  (forall n, home n -> n ∉ ns -> v n = disk_read h n) ->
  let h1 := log_writes v 0 ns h in
  let h4 := (start, hd0) :: install_writes 0 ns ((start, hd) :: h1) in
  grows (crash_ok (disk_read h) v) h h4 /\ hdr_list (disk_read h4 start) = [] /\
  forall n, home n -> disk_read h4 n = v n.
Proof.
  intros Hs Hok Hh Hhd Hhd0 Hv h1 h4. pose proof (ho_fits _ Hok) as Hfits.
  assert (Hslot : forall k, 0 <= k < Z.of_nat (length ns) -> slot (0 + k) <> start) by (unfold slot; lia).
  assert (Hhome : forall n, home n -> forall k, 0 <= k < Z.of_nat (length ns) -> slot (0 + k) <> n).
  { intros n Hn k Hk <-. apply slot_not_home in Hn; [done|lia]. }
  set (P := fun x => disk_read x start = disk_read h start /\
              forall n, home n -> disk_read x n = disk_read h n).
  assert (G1 : grows P h h1).
  { destruct (log_writes_other P v ns 0 h start Hslot) as [_ G]. apply G; [|by split].
    intros h' k b [H1 H2] Hk. split.
    - rewrite disk_read_ne by (by apply Hslot). done.
    - intros n Hn. rewrite disk_read_ne by (by apply Hhome). by apply H2. }
  assert (Hrec : forall n, home n -> recovered ((start, hd) :: h1) n = v n).
  { intros n Hn. unfold recovered. rewrite disk_read_eq, Hhd.
    destruct (position n ns) as [k|] eqn:E.
    - pose proof (position_Some _ _ _ E) as [Hk Hin].
      rewrite disk_read_ne by (unfold slot; lia).
      apply list_elem_of_lookup in Hin as [j Hj]. rewrite (position_lookup _ _ _ (ho_nodup _ Hok) Hj) in E.
      injection E as <-. by apply (log_writes_slot v ns 0).
    - rewrite disk_read_ne by (intros <-; by apply start_not_home in Hn).
      apply position_None in E. rewrite Hv by done.
      by apply (log_writes_other (fun _ => True)), Hhome. }
  destruct (recover_grows ((start, hd) :: h1) hd0 ns v) as (G2 & Hst & Hfin);
    [done|done|by rewrite disk_read_eq|done|done|].
  split; [|done]. apply (grows_trans _ _ ((start, hd) :: h1)).
  - apply grows_write.
    + eapply grows_impl; [|exact G1]. intros x [H1 H2]. split; [rewrite H1, Hh; by apply hdr_ok_nil|].
      left. intros n Hn. rewrite recovered_clean by congruence. by apply H2.
    + split; [rewrite disk_read_eq, Hhd; done|]. by right.
  - eapply grows_impl; [|exact G2]. intros x [H1 [H2|H2]]; split; auto.
Qed.
End place.
