(* ===== verification/LogSpec.v ===== *)
(** * Running the log on the buffer cache

    A total-correctness logic for computations on the log: [wp m Q l a] says
    that [m], run in log state [l] with a buffer cache in abstract state [a],
    returns and establishes [Q].  [l] stands for a log state up to its
    buffer cache, which [a] describes. *)

From S2P Require Import Prelude Machine Sleeplock Mem Layout Bio BioInv BioSpec FsHdr Log LogDisk.

(** ** Headers *)

(** [log.lh.block], as far as it is used. *)
Definition blocks (l : logst) : list Z := map (lblock l) (seqZ 0 (lh_n l)).

Lemma put_blocks_below l k : forall d i a,
  a + 4 <= 4 + 4 * i -> ld32 (put_blocks l d i k) a = ld32 d a.
Proof.
  induction k as [|k IH]; intros d i a Ha; simpl; [done|].
  rewrite IH by lia. apply ld32_st32_other. lia.
Qed.

Lemma put_blocks_at l k : forall d i j,
  i <= j < i + Z.of_nat k -> 0 <= lblock l j < 2 ^ 31 ->
  ld32 (put_blocks l d i k) (4 + 4 * j) = lblock l j.
Proof.
  induction k as [|k IH]; intros d i j Hj Hr; [lia|]. cbn [put_blocks].
  destruct (decide (j = i)) as [->|Hne]; [|by apply IH; [lia|]].
  rewrite put_blocks_below by lia. apply ld32_st32_same. lia.
Qed.

Lemma is_blk_put_blocks l k : forall d i,
  is_blk d -> 0 <= i -> i + Z.of_nat k <= LOGSIZE -> is_blk (put_blocks l d i k).
Proof.
  induction k as [|k IH]; intros d i Hd Hi Hk; simpl; [done|]. apply IH; [|lia|lia].
  apply is_blk_st_le; [done|lia|]. unfold BSIZE, LOGSIZE, MAXOPBLOCKS in *. simpl. lia.
Qed.

Lemma put_blocks_bc s l k : forall d i, put_blocks (set_bc s l) d i k = put_blocks l d i k.
Proof. induction k as [|k IH]; intros d i; [done|]. apply IH. Qed.

(** What [write_head] puts in the block. *)
Definition head_data (l : logst) (d : mem) : mem :=
  put_blocks l (st32 d 0 (lh_n l)) 0 (Z.to_nat (lh_n l)).

Lemma head_data_blk l d : is_blk d -> 0 <= lh_n l <= LOGSIZE -> is_blk (head_data l d).
Proof.
  intros Hd Hn. apply is_blk_put_blocks; [|lia|lia]. by apply is_blk_st_le.
Qed.

Lemma head_data_list l d :
  0 <= lh_n l <= LOGSIZE -> (forall i, 0 <= i < lh_n l -> 0 <= lblock l i < 2 ^ 31) ->
  hdr_list (head_data l d) = blocks l.
Proof.
  intros Hn Hb. unfold hdr_list, blocks.
  assert (E : hdr_n (head_data l d) = lh_n l).
  { unfold hdr_n, head_data. rewrite put_blocks_below by lia.
    unfold LOGSIZE, MAXOPBLOCKS in Hn. rewrite ld32_st32_same by lia. apply s32_small. lia. }
  rewrite E. apply map_ext_in. intros i Hi%list_elem_of_In%elem_of_seqZ.
  unfold hdr_block, head_data. specialize (Hb i ltac:(lia)).
  rewrite put_blocks_at by lia. apply s32_small. lia.
Qed.

Lemma blocks_length l : length (blocks l) = Z.to_nat (lh_n l).
Proof. unfold blocks. by rewrite length_map, length_seqZ. Qed.

Lemma blocks_lookup l i : 0 <= i < lh_n l -> blocks l !! Z.to_nat i = Some (lblock l i).
Proof.
  intros Hi. unfold blocks. etrans; [apply (list_lookup_fmap (lblock l))|].
  rewrite lookup_seqZ_lt by lia. simpl. f_equal. f_equal. lia.
Qed.

(** ** The logic *)

Section logic.
Context (rw : Z -> bool -> M bcache unit) `{!DiskDriver rw} (pid : Z) (fuel : nat).

Definition wp {A} (m : M logst A) (Q : A -> logst -> abuf -> Prop) (l : logst) (a : abuf) : Prop :=
  forall w s, held w = [] -> rep pid s a ->
  exists w' s' l' a' v, m w (set_bc s l) = Ret w' (set_bc s' l') v /\
    held w' = [] /\ rep pid s' a' /\ Q v l' a'.

Lemma wp_ret {A} (v : A) Q l a : Q v l a -> wp (mret v) Q l a.
Proof. intros H w s Hw R. by exists w, s, l, a, v. Qed.

Lemma wp_bind {A B} (m : M logst A) (f : A -> M logst B) Q l a :
  wp m (fun v l' a' => wp (f v) Q l' a') l a -> wp (m ≫= f) Q l a.
Proof.
  intros H w s Hw R. destruct (H w s Hw R) as (w1 & s1 & l1 & a1 & v & Hrun & Hw1 & R1 & H1).
  run_step Hrun. by apply H1.
Qed.

Lemma wp_mono {A} (m : M logst A) (Q Q' : A -> logst -> abuf -> Prop) l a :
  wp m Q l a -> (forall v l' a', Q v l' a' -> Q' v l' a') -> wp m Q' l a.
Proof.
  intros H HQ w s Hw R. destruct (H w s Hw R) as (w1 & s1 & l1 & a1 & v & Hrun & Hw1 & R1 & H1).
  exists w1, s1, l1, a1, v. auto.
Qed.

Lemma wp_gets {A} (g : logst -> A) Q l a :
  (forall s, g (set_bc s l) = g l) -> Q (g l) l a -> wp (gets g) Q l a.
Proof. intros Hg H w s Hw R. exists w, s, l, a, (g l). unfold gets. by rewrite Hg. Qed.

Lemma wp_modify (f : logst -> logst) Q l a :
  (forall s, f (set_bc s l) = set_bc s (f l)) -> Q tt (f l) a -> wp (modify f) Q l a.
Proof. intros Hf H w s Hw R. exists w, s, (f l), a, tt. unfold modify. by rewrite Hf. Qed.

(** Operations of the buffer cache. *)
Lemma wp_zoom {A} (m : M bcache A) (Q : A -> logst -> abuf -> Prop) l a :
  (forall w s, held w = [] -> rep pid s a ->
    exists w' s' a' v, m w s = Ret w' s' v /\ held w' = [] /\ rep pid s' a' /\ Q v l a') ->
  wp (zoom bc_of m) Q l a.
Proof.
  intros H w s Hw R. destruct (H w s Hw R) as (w' & s' & a' & v & Hrun & Hw' & R' & HQ).
  exists w', s', l, a', v. split; [|done]. by erewrite zoom_ret by (simpl; exact Hrun).
Qed.

Lemma wp_lbread n (Q : Z -> logst -> abuf -> Prop) l a :
  lg_dev l = ROOTDEV -> 0 <= n < 2 ^ 31 -> can_bread a n ->
  (forall b r, bread_entry a n b = (b, r, true) -> Q b l (a_set_refs n (b, r, true) a)) ->
  wp (lbread rw pid fuel n) Q l a.
Proof.
  intros Hd Hn Hc HQ. apply wp_bind, wp_gets; [done|]. rewrite Hd, u32_small by lia.
  apply wp_zoom. intros w s Hw R.
  destruct (bread_rep rw pid fuel w s a n Hw R Hn Hc) as (s' & b & r & Hrun & He & R'). by eauto 10.
Qed.

Lemma wp_ldata n b r lk (Q : mem -> logst -> abuf -> Prop) l a :
  a_refs a !! n = Some (b, r, lk) -> Q (a_view a n) l a -> wp (ldata b) Q l a.
Proof.
  intros He HQ. apply wp_zoom. intros w s Hw R. exists w, s, a, (a_view a n).
  split_and!; try done. unfold getb, gets. f_equal. by eapply (rep_entry pid s a n).
Qed.

Lemma wp_set_ldata n b r lk d (Q : unit -> logst -> abuf -> Prop) l a :
  a_refs a !! n = Some (b, r, lk) -> Q tt l (a_set_data n d a) -> wp (set_ldata b d) Q l a.
Proof.
  intros He HQ. apply wp_zoom. intros w s Hw R.
  exists w, (upd_buf b (set_data d) s), (a_set_data n d a), tt.
  split_and!; try done. by eapply set_data_rep.
Qed.

Lemma wp_lbwrite n b r (Q : unit -> logst -> abuf -> Prop) l a :
  a_refs a !! n = Some (b, r, true) -> 0 <= n < 2 ^ 31 -> Q tt l (a_disk_write n a) -> wp (lbwrite rw pid b) Q l a.
Proof.
  intros He Hn HQ. apply wp_zoom. intros w s Hw R.
  destruct (bwrite_rep rw pid w s a n b r Hw R He Hn) as (s' & Hrun & R'). by eauto 10.
Qed.

Lemma wp_bunpin n b r lk (Q : unit -> logst -> abuf -> Prop) l a :
  a_refs a !! n = Some (b, r, lk) -> 1 < r < 2 ^ 32 ->
  Q tt l (a_set_refs n (b, r - 1, lk) a) -> wp (zoom bc_of (bunpin b)) Q l a.
Proof.
  intros He Hr HQ. apply wp_zoom. intros w s Hw R.
  destruct (bunpin_rep pid w s a n b r lk Hw R He Hr) as (s' & Hrun & R'). by eauto 10.
Qed.

Lemma wp_lbrelse n b r (Q : unit -> logst -> abuf -> Prop) l a :
  a_refs a !! n = Some (b, r, true) -> (r = 1 -> a_view a n = disk_read (a_hist a) n) ->
  Q tt l (a_release n b r a) -> wp (lbrelse pid b) Q l a.
Proof.
  intros He Hc HQ. apply wp_zoom. intros w s Hw R.
  destruct (brelse_rep pid w s a n b r Hw R He Hc) as (w' & s' & Hrun & Hw' & R'). by eauto 10.
Qed.

(** Copying a block between two buffers. *)
Lemma wp_copy_buf n n' b b' r r' lk lk' (Q : unit -> logst -> abuf -> Prop) l a :
  a_refs a !! n = Some (b, r, lk) -> a_refs a !! n' = Some (b', r', lk') ->
  is_blk (a_view a n) -> is_blk (a_view a n') ->
  Q tt l (a_set_data n (a_view a n') a) -> wp (copy_buf b b') Q l a.
Proof.
  intros He He' Hn Hn' HQ. apply wp_bind. eapply wp_ldata; [done|].
  apply wp_bind. eapply wp_ldata; [done|]. eapply wp_set_ldata; [done|].
  by rewrite blkmove_block.
Qed.
End logic.
