(* ===== verification/LogCommit.v ===== *)
(** * Commit and recovery

    The disk writes of [write_head], [write_log] and [install_trans], and what
    they do to the cache. *)

From S2P Require Import Prelude Machine Sleeplock Mem Layout Bio BioInv BioSpec FsHdr Log LogDisk LogSpec.

(** The cache between operations: the blocks of the transaction, [pins], are
    pinned; every other block is unused and as on the disk. *)
Record ainv (pins : list Z) (a : abuf) : Prop := {
  ai_blk n : is_blk (a_view a n);
  ai_disk : disk_ok (a_hist a);
  ai_pin n : n ∈ pins -> exists b, a_refs a !! n = Some (b, 1, false);
  ai_free n : n ∉ pins -> a_refs a !! n = None;
  ai_clean n : n ∉ pins -> a_view a n = disk_read (a_hist a) n }.

(** Write-through. *)
Definition a_put (n : Z) (d : mem) (a : abuf) : abuf :=
  Abuf (fun n' => if n' =? n then d else a_view a n') ((n, d) :: a_hist a) (a_refs a).

Definition a_unpin (n : Z) (a : abuf) : abuf := Abuf (a_view a) (a_hist a) (delete n (a_refs a)).

Lemma ainv_size pins a : ainv pins a -> NoDup pins -> size (a_refs a) = length pins.
Proof.
  intros I Hnd. rewrite <-size_dom. rewrite <-(size_list_to_set (C := gset Z) pins) by done.
  f_equal. apply set_eq. intros n. rewrite elem_of_list_to_set, elem_of_dom. split.
  - intros [e He]. destruct (decide (n ∈ pins)) as [|Hn]; [done|].
    by rewrite (ai_free _ _ I n Hn) in He.
  - intros Hn. destruct (ai_pin _ _ I n Hn) as [b Hb]. by eexists.
Qed.

Lemma ainv_put pins a n d : ainv pins a -> is_blk d -> ainv pins (a_put n d a).
Proof.
  intros I Hd. split; simpl.
  - intros n'. destruct (n' =? n); [done|apply I].
  - constructor; [done|apply I].
  - apply I.
  - apply I.
  - intros n' Hn'. destruct (n' =? n) eqn:E; zbool.
    + subst. by rewrite Z.eqb_refl.
    + rewrite (proj2 (Z.eqb_neq n n')) by done. by apply I.
Qed.

Lemma ainv_unpin pins n a :
  ainv (n :: pins) a -> n ∉ pins -> a_view a n = disk_read (a_hist a) n -> ainv pins (a_unpin n a).
Proof.
  intros I Hn Hc. split; simpl; try apply I.
  - intros n' Hn'. rewrite lookup_delete_ne by (intros ->; done). apply (ai_pin _ _ I). by right.
  - intros n' Hn'. destruct (decide (n' = n)) as [->|Hne]; [apply lookup_delete_eq|].
    rewrite lookup_delete_ne by done. apply (ai_free _ _ I). by rewrite not_elem_of_cons.
  - intros n' Hn'. destruct (decide (n' = n)) as [->|Hne]; [done|].
    apply (ai_clean _ _ I). by rewrite not_elem_of_cons.
Qed.

Section commit.
Context (rw : Z -> bool -> M bcache unit) `{!DiskDriver rw} (pid : Z) (fuel : nat).
Context (start size : Z).

Notation wp := (wp pid).

(** A log in memory that matches the place of the log on disk. *)
Record placed (l : logst) : Prop := {
  pl_start : lg_start l = start;
  pl_size : lg_size l = size;
  pl_dev : lg_dev l = ROOTDEV;
  pl_pos : 0 <= start;
  pl_one : 0 < size;
  pl_end : start + size < 2 ^ 31 }.

(** A block nobody uses is read, changed, written and released. *)
Lemma put_free n d b (a : abuf) :
  a_refs a !! n = None ->
  a_release n b 1 (a_disk_write n (a_set_data n d (a_set_refs n (b, 1, true) a))) = a_put n d a.
Proof.
  intros Hn. unfold a_release, a_drop, a_disk_write, a_set_data, a_set_refs, a_put. simpl.
  rewrite Z.eqb_refl. f_equal. apply map_eq. intros n'.
  destruct (decide (n' = n)) as [->|Hne]; [by rewrite lookup_delete_eq|].
  by rewrite lookup_delete_ne, lookup_insert_ne.
Qed.

Lemma can_bread_free pins n a :
  ainv pins a -> NoDup pins -> n ∉ pins -> Z.of_nat (length pins) < NBUF -> can_bread a n.
Proof.
  intros I Hnd Hn Hl. unfold can_bread. rewrite (ai_free _ _ I n Hn).
  by rewrite (ainv_size _ _ I Hnd).
Qed.

Lemma wp_write_head pins l a (Q : unit -> logst -> abuf -> Prop) :
  placed l -> ainv pins a -> NoDup pins -> start ∉ pins -> Z.of_nat (length pins) < NBUF ->
  Q tt l (a_put start (head_data l (a_view a start)) a) ->
  wp (write_head rw pid fuel) Q l a.
Proof.
  intros P I Hnd Hs Hl HQ. pose proof (ai_free _ _ I start Hs) as Hfree. destruct P.
  apply wp_bind, wp_gets; [done|]. apply wp_bind. rewrite pl_start0.
  apply (wp_lbread rw); [done|lia|by eapply can_bread_free|].
  intros b r He. unfold bread_entry in He. rewrite Hfree in He. injection He as <-.
  assert (E : forall v h, a_refs (Abuf v h (<[start := (b, 1, true)]> (a_refs a))) !! start = Some (b, 1, true))
    by (intros; apply lookup_insert_eq).
  apply wp_bind. eapply wp_ldata; [apply E|]. apply wp_bind, wp_gets; [intros s; apply put_blocks_bc|].
  apply wp_bind. eapply wp_set_ldata; [apply E|]. apply wp_bind. eapply (wp_lbwrite rw); [apply E|lia|].
  eapply wp_lbrelse; [apply E| |].
  - intros _. simpl. by rewrite Z.eqb_refl.
  - by rewrite put_free.
Qed.

(** ** [write_log] *)

(** Looking up in a chain of table updates. *)
Ltac refs_lookup := simpl; repeat (rewrite lookup_insert_eq || rewrite lookup_insert_ne by done); try done.

(** Another block, pinned, is held meanwhile. *)
Lemma put_pinned lb hb b1 b2 d (a : abuf) :
  lb <> hb -> a_refs a !! lb = None -> a_refs a !! hb = Some (b2, 1, false) ->
  a_release lb b1 1 (a_release hb b2 2 (a_disk_write lb (a_set_data lb d
    (a_set_refs hb (b2, 2, true) (a_set_refs lb (b1, 1, true) a))))) = a_put lb d a.
Proof.
  intros Hne Hl Hh. unfold a_release, a_drop, a_disk_write, a_set_data, a_set_refs, a_put. simpl.
  rewrite Z.eqb_refl. f_equal. apply map_eq. intros n.
  destruct (decide (n = lb)) as [->|H1]; [by rewrite lookup_delete_eq|].
  rewrite lookup_delete_ne by done. destruct (decide (n = hb)) as [->|H2].
  - by rewrite lookup_insert_eq.
  - by rewrite !lookup_insert_ne.
Qed.

(** Reading a pinned block while another one is held. *)
Lemma can_bread_pinned lb hb b1 (a : abuf) pins :
  ainv pins a -> hb ∈ pins -> lb <> hb ->
  exists b2, a_refs a !! hb = Some (b2, 1, false) /\
    can_bread (a_set_refs lb (b1, 1, true) a) hb /\
    forall b, bread_entry (a_set_refs lb (b1, 1, true) a) hb b = (b2, 2, true).
Proof.
  intros I Hin Hne. destruct (ai_pin _ _ I hb Hin) as [b2 Hb2]. exists b2.
  unfold can_bread, bread_entry. simpl. rewrite lookup_insert_ne, Hb2 by done. done.
Qed.

Lemma wp_write_log_step pins l a tail (Q : unit -> logst -> abuf -> Prop) m :
  placed l -> ainv pins a -> NoDup pins -> Z.of_nat (length pins) < NBUF ->
  (forall n, n ∈ pins -> home start size n) -> 0 <= tail < size - 1 -> lblock l tail ∈ pins ->
  wp m Q l (a_put (slot start tail) (a_view a (lblock l tail)) a) ->
  wp (start ← gets lg_start;
      to ← lbread rw pid fuel (start + tail + 1);
      blk ← gets (fun l => lblock l tail);
      from ← lbread rw pid fuel blk;
      copy_buf to from;; lbwrite rw pid to;; lbrelse pid from;; lbrelse pid to;; m) Q l a.
Proof.
  intros P I Hnd Hl Hhome Ht Hin HQ. destruct P. set (hb := lblock l tail) in *.
  pose proof (Hhome hb Hin) as Hh. pose proof (slot_not_home start size tail Ht) as Hsl.
  set (lb := slot start tail) in *.
  assert (Hlb : lb ∉ pins) by (intros H; by apply Hsl, Hhome).
  assert (Hne : lb <> hb) by (by intros ->).
  pose proof (ai_free _ _ I lb Hlb) as Hfree.
  apply wp_bind, wp_gets; [done|]. apply wp_bind. rewrite pl_start0. fold (slot start tail) lb.
  apply (wp_lbread rw); [done|unfold lb, slot; lia|by eapply can_bread_free|].
  intros b1 r1 He1. unfold bread_entry in He1. rewrite Hfree in He1. injection He1 as <-.
  destruct (can_bread_pinned lb hb b1 a pins I Hin Hne) as (b2 & Hb2 & Hc & He2).
  apply wp_bind, wp_gets; [done|]. fold hb. apply wp_bind.
  apply (wp_lbread rw); [done|apply Hh|done|]. intros b' r2 E. rewrite He2 in E. injection E as <- <-.
  apply wp_bind. eapply (wp_copy_buf _ lb hb); [refs_lookup|refs_lookup|apply I|apply I|].
  apply wp_bind. eapply (wp_lbwrite rw _ lb); [refs_lookup|unfold lb, slot; lia|].
  apply wp_bind. eapply (wp_lbrelse _ hb); [refs_lookup|done|].
  apply wp_bind. eapply (wp_lbrelse _ lb); [refs_lookup|simpl; by rewrite Z.eqb_refl|].
  by rewrite put_pinned.
Qed.

(** The cache after [write_log] has copied [ns] to the slots from [i] on. *)
Fixpoint a_log (i : Z) (ns : list Z) (a : abuf) : abuf :=
  match ns with
  | [] => a
  | n :: ns => a_log (i + 1) ns (a_put (slot start i) (a_view a n) a)
  end.

Lemma wp_write_log_loop pins l (Q : unit -> logst -> abuf -> Prop) k : forall a tail,
  placed l -> ainv pins a -> NoDup pins -> Z.of_nat (length pins) < NBUF ->
  (forall n, n ∈ pins -> home start size n) ->
  (forall i, tail <= i < tail + Z.of_nat k -> lblock l i ∈ pins) ->
  0 <= tail -> tail + Z.of_nat k <= size - 1 ->
  Q tt l (a_log tail (map (lblock l) (seqZ tail (Z.of_nat k))) a) ->
  wp (write_log_loop rw pid fuel tail k) Q l a.
Proof.
  induction k as [|k IH]; intros a tail P I Hnd Hl Hhome Hin Ht Hk HQ; [by apply wp_ret|].
  cbn [write_log_loop]. eapply wp_write_log_step; try done; [lia|apply Hin; lia|].
  apply IH; try done; [by apply ainv_put, I|intros; apply Hin; lia|lia|lia|].
  rewrite seqZ_cons in HQ by lia. replace (Z.pred (Z.of_nat (S k))) with (Z.of_nat k) in HQ by lia. done.
Qed.

(** ** [install_trans] *)

(** A slot is copied home; nothing stays in use. *)
Lemma install_refs lb hb b1 b2 r d (a : abuf) :
  lb <> hb -> a_refs a !! lb = None ->
  a_release hb b2 1 (a_release lb b1 1 (a_set_refs hb (b2, 1, true) (a_disk_write hb (a_set_data hb d
    (a_set_refs hb (b2, r, true) (a_set_refs lb (b1, 1, true) a)))))) = a_unpin hb (a_put hb d a).
Proof.
  intros Hne Hl. unfold a_release, a_drop, a_disk_write, a_set_data, a_set_refs, a_put, a_unpin. simpl.
  rewrite Z.eqb_refl. f_equal. apply map_eq. intros n.
  destruct (decide (n = hb)) as [->|H1]; [by rewrite !lookup_delete_eq|].
  rewrite !(lookup_delete_ne _ hb) by done. destruct (decide (n = lb)) as [->|H2].
  - by rewrite lookup_delete_eq.
  - by rewrite lookup_delete_ne, !lookup_insert_ne.
Qed.

Lemma set_refs_id n e (a : abuf) : a_refs a !! n = Some e -> a_set_refs n e a = a.
Proof. intros H. unfold a_set_refs. rewrite insert_id by done. by destruct a. Qed.

(** What the reader of the home block finds. *)
Lemma can_bread_home (recovering : bool) pins lb hb b1 (a : abuf) :
  ainv pins a -> (if recovering then pins = [] else hb ∈ pins) -> lb <> hb ->
  can_bread (a_set_refs lb (b1, 1, true) a) hb /\
  forall b, exists b2, bread_entry (a_set_refs lb (b1, 1, true) a) hb b =
    (b2, if recovering then 1 else 2, true).
Proof.
  intros I Hp Hne. destruct recovering.
  - subst. unfold can_bread, bread_entry. simpl.
    rewrite lookup_insert_ne, (ai_free _ _ I hb) by (done || apply not_elem_of_nil). split; [|by eexists].
    assert (a_refs a = ∅) as ->.
    { apply map_eq. intros n. rewrite lookup_empty. apply (ai_free _ _ I), not_elem_of_nil. }
    by rewrite insert_empty, map_size_singleton.
  - destruct (can_bread_pinned lb hb b1 a pins I Hp Hne) as (b2 & _ & Hc & He). eauto.
Qed.

Lemma wp_install_step (recovering : bool) pins l a tail (Q : unit -> logst -> abuf -> Prop) m :
  placed l -> ainv pins a -> NoDup pins -> Z.of_nat (length pins) < NBUF ->
  (forall n, n ∈ pins -> home start size n) -> 0 <= tail < size - 1 -> home start size (lblock l tail) ->
  (if recovering then pins = [] else lblock l tail ∈ pins) ->
  wp m Q l (a_unpin (lblock l tail) (a_put (lblock l tail) (a_view a (slot start tail)) a)) ->
  wp (start ← gets lg_start;
      lbuf ← lbread rw pid fuel (start + tail + 1);
      blk ← gets (fun l => lblock l tail);
      dbuf ← lbread rw pid fuel blk;
      copy_buf dbuf lbuf;; lbwrite rw pid dbuf;;
      when (negb recovering) (zoom bc_of (bunpin dbuf));;
      lbrelse pid lbuf;; lbrelse pid dbuf;; m) Q l a.
Proof.
  intros P I Hnd Hl Hhome Ht Hh Hp HQ. destruct P. set (hb := lblock l tail) in *.
  pose proof (slot_not_home start size tail Ht) as Hsl. set (lb := slot start tail) in *.
  assert (Hlb : lb ∉ pins) by (intros H; by apply Hsl, Hhome).
  assert (Hne : lb <> hb) by (by intros ->).
  pose proof (ai_free _ _ I lb Hlb) as Hfree.
  apply wp_bind, wp_gets; [done|]. apply wp_bind. rewrite pl_start0. fold (slot start tail) lb.
  apply (wp_lbread rw); [done|unfold lb, slot; lia|by eapply can_bread_free|].
  intros b1 r1 He1. unfold bread_entry in He1. rewrite Hfree in He1. injection He1 as <-.
  destruct (can_bread_home recovering pins lb hb b1 a I Hp Hne) as (Hc & He2).
  apply wp_bind, wp_gets; [done|]. fold hb. apply wp_bind.
  apply (wp_lbread rw); [done|apply Hh|done|]. intros b2 r2 E. destruct (He2 b2) as [b2' E'].
  rewrite E' in E. injection E as -> Hr2. clear E' He2.
  apply wp_bind. eapply (wp_copy_buf _ hb lb); [refs_lookup|refs_lookup|apply I|apply I|].
  apply wp_bind. eapply (wp_lbwrite rw _ hb); [refs_lookup|apply Hh|].
  assert (HQ' : wp m Q l (a_release hb b2 1 (a_release lb b1 1 (a_set_refs hb (b2, 1, true)
    (a_disk_write hb (a_set_data hb (a_view a lb) (a_set_refs hb (b2, r2, true)
       (a_set_refs lb (b1, 1, true) a))))))))
    by (rewrite install_refs; done).
  apply wp_bind. set (aw := a_disk_write _ _) in *.
  assert (Hu : wp (when (negb recovering) (zoom bc_of (bunpin b2)))
            (fun _ l' a' => l' = l /\ a' = a_set_refs hb (b2, 1, true) aw) l aw).
  { destruct recovering; simpl; subst r2.
    - apply wp_ret. split; [done|]. symmetry. apply set_refs_id. refs_lookup.
    - eapply (wp_bunpin _ hb); [refs_lookup|lia|done]. }
  eapply wp_mono; [exact Hu|]. intros _ l' a' [-> ->].
  apply wp_bind. eapply (wp_lbrelse _ lb); [refs_lookup| |].
  { intros _. simpl. rewrite (proj2 (Z.eqb_neq lb hb)), (proj2 (Z.eqb_neq hb lb)) by done.
    by apply (ai_clean _ _ I). }
  apply wp_bind. eapply (wp_lbrelse _ hb); [|intros _; simpl; by rewrite Z.eqb_refl|exact HQ'].
  simpl. rewrite lookup_delete_ne by done. refs_lookup.
Qed.

(** The cache after [install_trans] has copied the slots from [i] on to [ns]. *)
Fixpoint a_install (i : Z) (ns : list Z) (a : abuf) : abuf :=
  match ns with
  | [] => a
  | n :: ns => a_install (i + 1) ns (a_unpin n (a_put n (a_view a (slot start i)) a))
  end.

Lemma ainv_unpin_nil n a : ainv [] a -> ainv [] (a_unpin n a).
Proof.
  intros I. assert (E : a_unpin n a = a); [|by rewrite E].
  unfold a_unpin. rewrite delete_id by (apply (ai_free _ _ I), not_elem_of_nil). by destruct a.
Qed.

(** The pins that are left after one block. *)
Lemma ainv_install (recovering : bool) pins n ns a d :
  ainv pins a -> is_blk d -> NoDup (n :: ns) -> pins = (if recovering then [] else n :: ns) ->
  ainv (if recovering then [] else ns) (a_unpin n (a_put n d a)).
Proof.
  intros I Hd Hnd ->. apply NoDup_cons in Hnd as [Hn _]. destruct recovering.
  - by apply ainv_unpin_nil, ainv_put.
  - apply ainv_unpin; [by apply ainv_put|done|]. simpl. by rewrite !Z.eqb_refl.
Qed.

Lemma a_install_spec (recovering : bool) ns : forall pins i a,
  ainv pins a -> NoDup ns -> pins = (if recovering then [] else ns) ->
  (forall n, n ∈ ns -> home start size n) -> 0 <= i -> i + Z.of_nat (length ns) <= size - 1 ->
  ainv [] (a_install i ns a) /\ a_hist (a_install i ns a) = install_writes start i ns (a_hist a).
Proof.
  induction ns as [|n ns IH]; intros pins i a I Hnd Hp Hh Hi Hlen; simpl.
  { split; [|done]. by destruct recovering; subst. }
  simpl in Hlen. pose proof (slot_not_home start size i ltac:(lia)) as Hsl.
  assert (Hclean : a_view a (slot start i) = disk_read (a_hist a) (slot start i)).
  { apply (ai_clean _ _ I). subst. destruct recovering; [apply not_elem_of_nil|]. intros H. by apply Hsl, Hh. }
  pose proof (ainv_install recovering pins n ns a (a_view a (slot start i)) I (ai_blk _ _ I _) Hnd Hp) as I'.
  apply NoDup_cons in Hnd as [Hn Hnd].
  destruct (IH _ (i + 1) _ I' Hnd eq_refl) as [H1 H2]; [intros; apply Hh; by right|lia|lia|].
  split; [done|]. rewrite H2. simpl. by rewrite Hclean.
Qed.

Lemma wp_install_loop (recovering : bool) l (Q : unit -> logst -> abuf -> Prop) k : forall pins a tail,
  let ns := map (lblock l) (seqZ tail (Z.of_nat k)) in
  placed l -> ainv pins a -> NoDup ns -> Z.of_nat (length pins) < NBUF ->
  pins = (if recovering then [] else ns) -> (forall n, n ∈ ns -> home start size n) ->
  0 <= tail -> tail + Z.of_nat k <= size - 1 ->
  Q tt l (a_install tail ns a) -> wp (install_loop rw pid fuel recovering tail k) Q l a.
Proof.
  induction k as [|k IH]; intros pins a tail ns P I Hnd Hl Hp Hh Ht Hk HQ; [by apply wp_ret|].
  assert (E : ns = lblock l tail :: map (lblock l) (seqZ (tail + 1) (Z.of_nat k))).
  { unfold ns. rewrite seqZ_cons by lia. simpl. do 3 f_equal. lia. }
  clearbody ns. subst ns. cbn [install_loop].
  eapply (wp_install_step recovering pins); try done.
  - subst. destruct recovering; [constructor|done].
  - intros n Hn. apply Hh. subst. destruct recovering; [by apply not_elem_of_nil in Hn|done].
  - lia.
  - apply Hh. left.
  - subst. destruct recovering; [done|left].
  - eapply (IH (if recovering then [] else _)); try done.
    + eapply ainv_install; [exact I|apply I|exact Hnd|exact Hp].
    + by apply NoDup_cons in Hnd as [_ ?].
    + subst. destruct recovering; simpl in *; [done|lia].
    + intros n Hn. apply Hh. by right.
    + lia.
    + lia.
Qed.

Lemma seqZ_to_nat m n : seqZ m (Z.of_nat (Z.to_nat n)) = seqZ m n.
Proof. unfold seqZ. by rewrite Nat2Z.id. Qed.

(** ** [write_log] as a change of the disk *)

Lemma log_writes_ext view view' ns : forall i h,
  (forall n, n ∈ ns -> view n = view' n) -> log_writes start view i ns h = log_writes start view' i ns h.
Proof.
  induction ns as [|n ns IH]; intros i h Heq; simpl; [done|].
  rewrite Heq by left. apply IH. intros m Hm. apply Heq. by right.
Qed.

Lemma a_log_spec pins ns : forall i a,
  ainv pins a -> (forall n, n ∈ ns -> home start size n) -> 0 <= i ->
  i + Z.of_nat (length ns) <= size - 1 ->
  ainv pins (a_log i ns a) /\
  a_hist (a_log i ns a) = log_writes start (a_view a) i ns (a_hist a) /\
  (forall n, home start size n -> a_view (a_log i ns a) n = a_view a n) /\
  a_refs (a_log i ns a) = a_refs a.
Proof.
  induction ns as [|n ns IH]; intros i a I Hh Hi Hlen; simpl; [done|]. simpl in Hlen.
  pose proof (slot_not_home start size i ltac:(lia)) as Hsl.
  destruct (IH (i + 1) (a_put (slot start i) (a_view a n) a)) as (I' & H1 & H2 & H3);
    [apply ainv_put; [done|apply I]|intros; apply Hh; by right|lia|lia|].
  assert (Hv : forall m, home start size m -> a_view (a_put (slot start i) (a_view a n) a) m = a_view a m).
  { intros m Hm. simpl. rewrite (proj2 (Z.eqb_neq _ _)); [done|]. by intros ->. }
  split; [done|]. split; [|split; [|done]].
  - rewrite H1. simpl. apply log_writes_ext. intros m Hm. apply Hv, Hh. by right.
  - intros m Hm. by rewrite H2, Hv.
Qed.
End commit.
