(* ===== verification/LogRun.v ===== *)
(** * [commit] and [recover_from_log] as transitions of the disk *)

From S2P Require Import Prelude Machine Sleeplock Mem Layout Bio BioInv BioSpec FsHdr Log LogDisk LogSpec LogCommit.

(** The in-memory log after [read_head_loop]. *)
Fixpoint get_blocks (d : mem) (i : Z) (k : nat) (l : logst) : logst :=
  match k with
  | O => l
  | S k => get_blocks d (i + 1) k (set_lblock i (hdr_block d i) l)
  end.

Lemma get_blocks_spec d k : forall i l,
  let l' := get_blocks d i k l in
  lg_start l' = lg_start l /\ lg_size l' = lg_size l /\ lg_dev l' = lg_dev l /\ lh_n l' = lh_n l /\
  lg_outstanding l' = lg_outstanding l /\ lg_committing l' = lg_committing l /\
  forall j, lblock l' j = if decide (i <= j < i + Z.of_nat k) then hdr_block d j else lblock l j.
Proof.
  induction k as [|k IH]; intros i l; cbn [get_blocks].
  { split_and!; try done. intros j. by rewrite decide_False by lia. }
  destruct (IH (i + 1) (set_lblock i (hdr_block d i) l)) as (-> & -> & -> & -> & -> & -> & H).
  split_and!; try done. intros j. rewrite H. unfold lblock, set_lblock. cbn [lh_block].
  destruct (decide (j = i)) as [->|Hne].
  - rewrite decide_False, decide_True by lia. by rewrite lookup_insert_eq.
  - rewrite lookup_insert_ne by done. repeat case_decide; (done || lia).
Qed.

Section run.
Context (rw : Z -> bool -> M bcache unit) `{!DiskDriver rw} (pid : Z) (fuel : nat).
Context (start size : Z).

Notation wp := (wp pid).
Notation placed := (placed start size).
Notation home := (home start size).
Notation hdr_ok := (hdr_ok start size).
Notation crash_ok := (crash_ok start size).

Lemma placed_n n l : placed l -> placed (set_n n l).
Proof. by intros []; split. Qed.

Lemma start_free ns : hdr_ok ns -> 0 < size -> start ∉ ns.
Proof. intros Hok Hs Hin. by apply (ho_home _ _ _ Hok), start_not_home in Hin. Qed.

Lemma hdr_ok_n l : hdr_ok (blocks l) -> 0 <= lh_n l -> lh_n l <= LOGSIZE /\ lh_n l <= size - 1.
Proof.
  intros [_ H1 H2 _] Hn. rewrite blocks_length in *. lia.
Qed.

Lemma head_list_of l d : hdr_ok (blocks l) -> 0 <= lh_n l -> hdr_list (head_data l d) = blocks l.
Proof.
  intros Hok Hn. pose proof (hdr_ok_n l Hok Hn). apply head_data_list; [lia|].
  intros i Hi. apply (ho_home _ _ _ Hok), (list_elem_of_lookup_2 _ (Z.to_nat i)). by apply blocks_lookup.
Qed.

Lemma wp_write_log l a (Q : unit -> logst -> abuf -> Prop) :
  placed l -> 0 <= lh_n l -> hdr_ok (blocks l) -> ainv (blocks l) a ->
  Z.of_nat (length (blocks l)) < NBUF ->
  Q tt l (a_log start 0 (blocks l) a) -> wp (write_log rw pid fuel) Q l a.
Proof.
  intros P Hn Hok I Hl HQ. pose proof (hdr_ok_n l Hok Hn). apply wp_bind, wp_gets; [done|].
  eapply (wp_write_log_loop rw pid fuel start size (blocks l)); try done.
  - apply Hok.
  - apply Hok.
  - intros i Hi. apply (list_elem_of_lookup_2 _ (Z.to_nat i)), blocks_lookup. lia.
  - lia.
  - by rewrite seqZ_to_nat.
Qed.

Lemma wp_install (recovering : bool) pins l a (Q : unit -> logst -> abuf -> Prop) :
  placed l -> hdr_ok (blocks l) -> ainv pins a -> Z.of_nat (length pins) < NBUF ->
  pins = (if recovering then [] else blocks l) ->
  Q tt l (a_install start 0 (blocks l) a) -> wp (install_trans rw pid fuel recovering) Q l a.
Proof.
  intros P Hok I Hl Hp HQ. apply wp_bind, wp_gets; [done|].
  pose proof (ho_fits _ _ _ Hok) as Hf. rewrite blocks_length in Hf.
  eapply (wp_install_loop rw pid fuel start size recovering l _ _ pins); rewrite ?seqZ_to_nat; try done.
  - apply Hok.
  - apply Hok.
  - lia.
Qed.

(** Clearing the header. *)
Lemma wp_clear l a (Q : unit -> logst -> abuf -> Prop) :
  placed l -> ainv [] a ->
  (forall hd, is_blk hd -> hdr_list hd = [] -> Q tt (set_n 0 l) (a_put start hd a)) ->
  wp (modify (set_n 0);; write_head rw pid fuel) Q l a.
Proof.
  intros P I HQ. apply wp_bind, wp_modify; [done|].
  eapply (wp_write_head rw pid fuel start size []); [by apply placed_n|done|constructor|apply not_elem_of_nil|done|].
  apply HQ; [apply head_data_blk; [apply I|done]|].
  rewrite head_data_list; [done|done|simpl; lia].
Qed.

(** What a commit achieves, crash or no crash. *)
Record committed (l : logst) (a : abuf) (l' : logst) (a' : abuf) : Prop := {
  cm_log : l' = set_n 0 l;
  cm_inv : ainv [] a';
  cm_crash : grows (fun h => crash_ok (disk_read (a_hist a)) (a_view a) h /\ disk_ok h)
               (a_hist a) (a_hist a');
  cm_hdr : hdr_list (disk_read (a_hist a') start) = [];
  cm_view n : home n -> a_view a' n = a_view a n }.

Lemma wp_commit l a :
  placed l -> 0 <= lh_n l -> hdr_ok (blocks l) -> ainv (blocks l) a ->
  Z.of_nat (length (blocks l)) < NBUF -> hdr_list (disk_read (a_hist a) start) = [] ->
  wp (commit rw pid fuel) (fun _ l' a' => committed l a l' a') l a.
Proof.
  intros P Hn Hok I Hl Hhdr. apply wp_bind, wp_gets; [done|]. pose proof (pl_one _ _ _ P) as Hs.
  destruct (0 <? lh_n l) eqn:E; zbool.
  2: { assert (Hz : lh_n l = 0) by lia. assert (Hb : blocks l = []) by (unfold blocks; by rewrite Hz).
       rewrite Hb in *. apply wp_ret. split; try done.
       - destruct l. simpl in *. by subst.
       - constructor. split; [|apply I]. split; [rewrite Hhdr; by apply hdr_ok_nil|].
         left. intros n _. by apply recovered_clean. }
  pose proof (hdr_ok_n l Hok Hn) as [Hn1 Hn2].
  assert (Hlen : 0 + Z.of_nat (length (blocks l)) <= size - 1) by (rewrite blocks_length; lia).
  apply wp_bind, wp_write_log; try done.
  destruct (a_log_spec start size (blocks l) (blocks l) 0 a I (ho_home _ _ _ Hok)) as (I1 & Hh1 & Hv1 & _);
    [done|done|].
  set (a1 := a_log start 0 (blocks l) a) in *.
  apply wp_bind. eapply (wp_write_head rw pid fuel start size (blocks l)); try done; [apply Hok|by apply start_free|].
  set (hd := head_data l (a_view a1 start)).
  assert (I2 : ainv (blocks l) (a_put start hd a1)) by (apply ainv_put; [done|]; apply head_data_blk; [apply I1|done]).
  apply wp_bind, (wp_install false (blocks l)); try done.
  destruct (a_install_spec start size false (blocks l) (blocks l) 0 _ I2 (ho_nodup _ _ _ Hok) eq_refl
              (ho_home _ _ _ Hok)) as [I3 Hh3]; [done|done|].
  apply wp_clear; [done|done|]. intros hd0 Hb0 Hl0.
  destruct (commit_grows start size (a_hist a) (blocks l) (a_view a) hd hd0) as (G & Hst & Hfin); try done.
  { by apply head_list_of. }
  { intros n _ Hnin. by apply (ai_clean _ _ I). }
  assert (I4 : ainv [] (a_put start hd0 (a_install start 0 (blocks l) (a_put start hd a1)))) by (by apply ainv_put).
  assert (Hh4 : a_hist (a_put start hd0 (a_install start 0 (blocks l) (a_put start hd a1))) =
    (start, hd0) :: install_writes start 0 (blocks l) ((start, hd) :: log_writes start (a_view a) 0 (blocks l) (a_hist a)))
    by (simpl; by rewrite Hh3; simpl; rewrite Hh1).
  split; [done|done| | |].
  - rewrite Hh4. apply grows_disk_ok; [exact G|]. rewrite <-Hh4. apply I4.
  - by rewrite Hh4.
  - intros n Hh. rewrite (ai_clean _ _ I4 n) by apply not_elem_of_nil. rewrite Hh4. by apply Hfin.
Qed.

(** ** Recovery *)

Lemma wp_read_head_loop d (Q : unit -> logst -> abuf -> Prop) k : forall i l a,
  Q tt (get_blocks d i k l) a -> wp (read_head_loop d i k) Q l a.
Proof.
  induction k as [|k IH]; intros i l a HQ; [by apply wp_ret|].
  apply wp_bind, wp_modify; [done|]. by apply IH.
Qed.

(** The log in memory once the header [d] has been read. *)
Record head_read (d : mem) (l l' : logst) : Prop := {
  hr_placed : placed l -> placed l';
  hr_n : lh_n l' = hdr_n d;
  hr_blocks : blocks l' = hdr_list d;
  hr_out : lg_outstanding l' = lg_outstanding l;
  hr_com : lg_committing l' = lg_committing l }.

Lemma get_blocks_read d l : head_read d l (get_blocks d 0 (Z.to_nat (hdr_n d)) (set_n (hdr_n d) l)).
Proof.
  destruct (get_blocks_spec d (Z.to_nat (hdr_n d)) 0 (set_n (hdr_n d) l))
    as (H1 & H2 & H3 & H4 & H5 & H6 & H7).
  split; [|done| |done|done].
  - intros [Q1 Q2 Q3 Q4 Q5 Q6]. split; [by rewrite H1|by rewrite H2|by rewrite H3|done..].
  - unfold blocks, hdr_list. rewrite H4. apply map_ext_in. intros i Hi%list_elem_of_In%elem_of_seqZ.
    rewrite H7. by rewrite decide_True by (simpl in Hi; lia).
Qed.

Lemma wp_read_head l a (Q : unit -> logst -> abuf -> Prop) :
  placed l -> ainv [] a ->
  (forall l', head_read (disk_read (a_hist a) start) l l' -> Q tt l' a) ->
  wp (read_head rw pid fuel) Q l a.
Proof.
  intros P I HQ. pose proof (ai_free _ _ I start (not_elem_of_nil _)) as Hfree. destruct P.
  apply wp_bind, wp_gets; [done|]. apply wp_bind. rewrite pl_start.
  apply (wp_lbread rw); [done|lia|by eapply (can_bread_free []); [exact I|constructor|apply not_elem_of_nil|]|].
  intros b r He. unfold bread_entry in He. rewrite Hfree in He. injection He as <-.
  assert (E : a_refs (a_set_refs start (b, 1, true) a) !! start = Some (b, 1, true)) by apply lookup_insert_eq.
  apply wp_bind. eapply wp_ldata; [apply E|]. apply wp_bind, wp_modify; [done|].
  apply wp_bind, wp_read_head_loop. simpl a_view. rewrite (ai_clean _ _ I start) by apply not_elem_of_nil.
  eapply wp_lbrelse; [exact E|intros _; apply (ai_clean _ _ I), not_elem_of_nil|].
  assert (Ea : a_release start b 1 (a_set_refs start (b, 1, true) a) = a).
  { unfold a_release, a_drop, a_set_refs. simpl. rewrite delete_insert_id by done. by destruct a. }
  rewrite Ea. apply HQ, get_blocks_read.
Qed.

Record recovery (l : logst) (a : abuf) (l' : logst) (a' : abuf) : Prop := {
  rc_placed : placed l';
  rc_n : lh_n l' = 0;
  rc_out : lg_outstanding l' = lg_outstanding l;
  rc_com : lg_committing l' = lg_committing l;
  rc_inv : ainv [] a';
  rc_crash : grows (fun h => crash_ok (recovered start (a_hist a)) (recovered start (a_hist a)) h /\ disk_ok h)
               (a_hist a) (a_hist a');
  rc_hdr : hdr_list (disk_read (a_hist a') start) = [];
  rc_view n : home n -> a_view a' n = recovered start (a_hist a) n }.

Lemma wp_recover l a :
  placed l -> ainv [] a -> hdr_ok (hdr_list (disk_read (a_hist a) start)) ->
  wp (recover_from_log rw pid fuel) (fun _ l' a' => recovery l a l' a') l a.
Proof.
  intros P I Hok. pose proof (pl_one _ _ _ P) as Hs. apply wp_bind, wp_read_head; [done|done|].
  intros l1 [P1 Hn1 Hb1 Ho1 Hc1]. specialize (P1 P). rewrite <-Hb1 in Hok.
  apply wp_bind, (wp_install true []); try done.
  pose proof (ho_fits _ _ _ Hok).
  destruct (a_install_spec start size true (blocks l1) [] 0 a I (ho_nodup _ _ _ Hok) eq_refl
              (ho_home _ _ _ Hok)) as [I2 Hh2]; [done|lia|].
  apply wp_clear; [done|done|]. intros hd Hb Hl.
  destruct (recover_grows start size (a_hist a) hd (blocks l1) (recovered start (a_hist a)))
    as (G & Hst & Hfin); try done.
  assert (I3 : ainv [] (a_put start hd (a_install start 0 (blocks l1) a))) by (by apply ainv_put).
  assert (Hh3 : a_hist (a_put start hd (a_install start 0 (blocks l1) a)) =
    (start, hd) :: install_writes start 0 (blocks l1) (a_hist a)) by (simpl; by rewrite Hh2).
  split; [by apply placed_n|done|done|done|done| | |].
  - rewrite Hh3. apply grows_disk_ok; [exact G|]. rewrite <-Hh3. apply I3.
  - by rewrite Hh3.
  - intros n Hh. rewrite (ai_clean _ _ I3 n) by apply not_elem_of_nil. rewrite Hh3. by apply Hfin.
Qed.

(** [initlog] on a cache fresh from [binit]. *)
Lemma wp_initlog sb a l0 :
  sb_logstart sb = start -> sb_nlog sb = size -> 0 <= start -> 0 < size -> start + size < 2 ^ 31 ->
  ainv [] a -> hdr_ok (hdr_list (disk_read (a_hist a) start)) ->
  wp (initlog rw pid fuel ROOTDEV sb)
    (fun _ l' a' => recovery l0 a l' a') l0 a.
Proof.
  intros E1 E2 H1 H2 H3 I Hok. unfold initlog.
  change (BSIZE <=? LOGHEADER_SIZE) with false. cbv iota.
  apply wp_bind, wp_modify; [done|]. rewrite E1, E2, !s32_small by lia.
  eapply wp_mono; [apply wp_recover; [by split|done|done]|]. intros _ l' a' []. by split.
Qed.
End run.
