(* ===== verification/LogOps.v ===== *)
(** * [begin_op], [log_write] and [end_op]

    The operations file-system calls use, in the logic of file LogSpec with the
    spin locks made explicit. *)

From S2P Require Import Prelude Machine Sleeplock Mem Layout Bio BioInv BioSpec FsHdr Log LogDisk LogSpec LogCommit LogRun.

Section ops.
Context (rw : Z -> bool -> M bcache unit) `{!DiskDriver rw} (pid : Z) (fuel : nat).

Notation wp := (wp pid).

(** [wp] for a computation entered with the spin locks [h] and left with [h']. *)
Definition wph {A} (h h' : list lockid) (m : M logst A) (Q : A -> logst -> abuf -> Prop)
    (l : logst) (a : abuf) : Prop :=
  forall w s, held w = h -> rep pid s a ->
  exists w' s' l' a' v, m w (set_bc s l) = Ret w' (set_bc s' l') v /\
    held w' = h' /\ rep pid s' a' /\ Q v l' a'.

Lemma wph_wp {A} (m : M logst A) Q l a : wph [] [] m Q l a -> wp m Q l a.
Proof. done. Qed.

Lemma wp_wph {A} (m : M logst A) Q l a : wp m Q l a -> wph [] [] m Q l a.
Proof. done. Qed.

Lemma wph_bind {A B} h h1 h2 (m : M logst A) (f : A -> M logst B) Q l a :
  wph h h1 m (fun v l' a' => wph h1 h2 (f v) Q l' a') l a -> wph h h2 (m ≫= f) Q l a.
Proof.
  intros H w s Hw R. destruct (H w s Hw R) as (w1 & s1 & l1 & a1 & v & Hrun & Hw1 & R1 & H1).
  run_step Hrun. by apply H1.
Qed.

Lemma wph_ret {A} h (v : A) Q l a : Q v l a -> wph h h (mret v) Q l a.
Proof. intros H w s Hw R. by exists w, s, l, a, v. Qed.

Lemma wph_gets {A} h (g : logst -> A) Q l a : (forall s, Q (g (set_bc s l)) l a) -> wph h h (gets g) Q l a.
Proof. intros H w s Hw R. exists w, s, l, a, (g (set_bc s l)). done. Qed.

Lemma wph_modify h (f : logst -> logst) Q l a :
  (forall s, f (set_bc s l) = set_bc s (f l)) -> Q tt (f l) a -> wph h h (modify f) Q l a.
Proof. intros Hf H w s Hw R. exists w, s, (f l), a, tt. unfold modify. by rewrite Hf. Qed.

Lemma wph_acquire h lk Q l a : lk ∉ h -> Q tt l a -> wph h (lk :: h) (acquire lk) Q l a.
Proof.
  intros Hlk HQ w s Hw R. eexists _, s, l, a, tt. unfold acquire. rewrite decide_False by (by rewrite Hw).
  split; [done|]. simpl. by rewrite Hw.
Qed.

Lemma wph_release h lk Q l a : lk ∉ h -> Q tt l a -> wph (lk :: h) h (release lk) Q l a.
Proof.
  intros Hlk HQ w s Hw R. eexists _, s, l, a, tt. unfold release. rewrite decide_True by (rewrite Hw; left).
  split; [done|]. simpl. by rewrite Hw, filter_acquired.
Qed.

Lemma wph_wakeup h c Q l a : Q tt l a -> wph h h (wakeup c) Q l a.
Proof. intros HQ w s Hw R. by eexists _, s, l, a, tt. Qed.

(** ** [begin_op] *)

Lemma wp_begin_op l a (Q : unit -> logst -> abuf -> Prop) :
  lg_committing l = false -> lh_n l + (lg_outstanding l + 1) * MAXOPBLOCKS <= LOGSIZE ->
  Q tt (set_outstanding (lg_outstanding l + 1) l) a -> wp (begin_op fuel) Q l a.
Proof.
  intros Hc Hn HQ. apply wph_wp. eapply wph_bind, wph_acquire; [apply not_elem_of_nil|].
  assert (Hloop : forall k, wph [LkLog] [] (begin_op_loop k) Q l a); [|apply Hloop].
  intros k. assert (E : begin_op_loop k = (l ← gets (fun l => l);
      if lg_committing l then
        match k with O => diverge | S k => sleep ChLog LkLog;; begin_op_loop k end
      else if LOGSIZE <? lh_n l + (lg_outstanding l + 1) * MAXOPBLOCKS then
        match k with O => diverge | S k => sleep ChLog LkLog;; begin_op_loop k end
      else
        modify (set_outstanding (lg_outstanding l + 1));; release LkLog)) by (by destruct k).
  rewrite E. eapply wph_bind, wph_gets. intros s. simpl. rewrite Hc, (proj2 (Z.ltb_ge _ _)) by done.
  eapply wph_bind, wph_modify; [done|]. apply wph_release; [apply not_elem_of_nil|done].
Qed.

(** ** [log_write] *)

Lemma absorb_spec l n k : forall i,
  (forall j, i <= j < i + Z.of_nat k -> 0 <= lblock l j < 2 ^ 32) ->
  let r := absorb l n i k in
  i <= r <= i + Z.of_nat k /\ (r < i + Z.of_nat k -> lblock l r = n) /\
  forall j, i <= j < r -> lblock l j <> n.
Proof.
  induction k as [|k IH]; intros i Hr; cbn [absorb]; [split_and!; lia|].
  rewrite u32_small by (apply Hr; lia). destruct (lblock l i =? n) eqn:E; zbool.
  - split_and!; [lia|lia|done|lia].
  - destruct (IH (i + 1)) as (H1 & H2 & H3); [intros; apply Hr; lia|]. split_and!; [lia|lia|intros; apply H2; lia|].
    intros j Hj. destruct (decide (j = i)) as [->|]; [done|]. apply H3. lia.
Qed.

(** The log after [log_write] of block [n]. *)
Definition logged (n : Z) (l l' : logst) : Prop :=
  lg_start l' = lg_start l /\ lg_size l' = lg_size l /\ lg_dev l' = lg_dev l /\
  lg_outstanding l' = lg_outstanding l /\ lg_committing l' = lg_committing l /\
  lh_n l' = Z.of_nat (length (blocks l')) /\
  blocks l' = (if decide (n ∈ blocks l) then blocks l else blocks l ++ [n]).

Lemma lblock_set i v l j : lblock (set_lblock i v l) j = if decide (j = i) then v else lblock l j.
Proof.
  unfold lblock. simpl. case_decide; subst; [by rewrite lookup_insert_eq|by rewrite lookup_insert_ne].
Qed.

Lemma logged_absorb n l i : 0 <= i < lh_n l -> lblock l i = n -> logged n l (set_lblock i n l).
Proof.
  intros Hi Hn. assert (Hb : blocks (set_lblock i n l) = blocks l).
  { unfold blocks. apply map_ext_in. intros j _. rewrite lblock_set. case_decide; by subst. }
  unfold logged. rewrite Hb, decide_True.
  - split_and!; try done. simpl. rewrite blocks_length. lia.
  - apply (list_elem_of_lookup_2 _ (Z.to_nat i)). rewrite <-Hn. by apply blocks_lookup.
Qed.

Lemma blocks_in l n : n ∈ blocks l -> exists i, 0 <= i < lh_n l /\ lblock l i = n.
Proof.
  unfold blocks. intros (i & -> & Hi)%list_elem_of_fmap. apply elem_of_seqZ in Hi. exists i. split; [lia|done].
Qed.

Lemma logged_append n l : 0 <= lh_n l -> n ∉ blocks l ->
  logged n l (set_n (lh_n l + 1) (set_lblock (lh_n l) n l)).
Proof.
  intros Hn Hnin. assert (Hb : blocks (set_n (lh_n l + 1) (set_lblock (lh_n l) n l)) = blocks l ++ [n]).
  { unfold blocks. simpl lh_n. rewrite seqZ_app by lia. rewrite map_app. f_equal.
    - apply map_ext_in. intros j Hj%list_elem_of_In%elem_of_seqZ.
      change (lblock (set_lblock (lh_n l) n l) j = lblock l j). rewrite lblock_set, decide_False by lia. done.
    - replace (seqZ (0 + lh_n l) 1) with [lh_n l] by (unfold seqZ; simpl; f_equal; lia). simpl. f_equal.
      change (lblock (set_lblock (lh_n l) n l) (lh_n l) = n). by rewrite lblock_set, decide_True. }
  unfold logged. rewrite Hb, decide_False by done. split_and!; try done.
  rewrite length_app, blocks_length. simpl. lia.
Qed.

Lemma absorb_bc s l n k : forall i, absorb (set_bc s l) n i k = absorb l n i k.
Proof. induction k as [|k IH]; intros i; [done|]. cbn [absorb]. by rewrite IH. Qed.

Lemma wph_zoom {A} h h' (m : M bcache A) (Q : A -> logst -> abuf -> Prop) l a :
  (forall w s, held w = h -> rep pid s a ->
    exists w' s' a' v, m w s = Ret w' s' v /\ held w' = h' /\ rep pid s' a' /\ Q v l a') ->
  wph h h' (zoom bc_of m) Q l a.
Proof.
  intros H w s Hw R. destruct (H w s Hw R) as (w' & s' & a' & v & Hrun & Hw' & R' & HQ).
  exists w', s', l, a', v. split; [|done]. by erewrite zoom_ret by (simpl; exact Hrun).
Qed.

Lemma wph_blockno h n b r lk (Q : Z -> logst -> abuf -> Prop) l a :
  a_refs a !! n = Some (b, r, lk) -> Q n l a -> wph h h (zoom bc_of (getb b_blockno b)) Q l a.
Proof.
  intros He HQ. apply wph_zoom. intros w s Hw R. exists w, s, a, n. split_and!; try done.
  unfold getb, gets. f_equal. by destruct (rep_entry pid s a n b r lk R He) as ((_ & _ & Hn) & _).
Qed.

Lemma wph_bpin h n b r lk (Q : unit -> logst -> abuf -> Prop) l a :
  LkBcache ∉ h -> a_refs a !! n = Some (b, r, lk) -> 0 <= r -> r + 1 < 2 ^ 32 ->
  Q tt l (a_set_refs n (b, r + 1, lk) a) -> wph h h (zoom bc_of (bpin b)) Q l a.
Proof.
  intros Hh He H0 Hr HQ. apply wph_zoom. intros w s Hw R.
  destruct (bpin_rep pid w s a n b r lk) as (s' & Hrun & R'); [by rewrite Hw|done..|]. by eauto 10.
Qed.

Lemma wp_log_write b n r l a (Q : unit -> logst -> abuf -> Prop) :
  a_refs a !! n = Some (b, r, true) -> 0 <= r -> r + 1 < 2 ^ 32 -> 0 <= n < 2 ^ 31 ->
  0 <= lh_n l < LOGSIZE -> lh_n l < lg_size l - 1 -> 1 <= lg_outstanding l ->
  (forall m, m ∈ blocks l -> 0 <= m < 2 ^ 31) ->
  (forall l', logged n l l' ->
     Q tt l' (if decide (n ∈ blocks l) then a else a_set_refs n (b, r + 1, true) a)) ->
  wp (log_write b) Q l a.
Proof.
  intros He H0 Hr Hn Hlen Hsz Ho Hb HQ. apply wph_wp. unfold log_write.
  eapply wph_bind, wph_acquire; [apply not_elem_of_nil|]. eapply wph_bind, wph_gets. intros s.
  simpl lh_n. simpl lg_size. simpl lg_outstanding.
  rewrite (proj2 (Z.leb_gt _ _)), (proj2 (Z.leb_gt _ _)), (proj2 (Z.ltb_ge _ _)) by lia. simpl orb. cbv iota.
  eapply wph_bind, wph_blockno; [done|]. rewrite absorb_bc, s32_small by lia.
  assert (Hrange : forall j, 0 <= j < 0 + Z.of_nat (Z.to_nat (lh_n l)) -> 0 <= lblock l j < 2 ^ 31).
  { intros j Hj. apply Hb, (list_elem_of_lookup_2 _ (Z.to_nat j)), blocks_lookup. lia. }
  destruct (absorb_spec l n (Z.to_nat (lh_n l)) 0) as (H1 & H2 & H3).
  { intros j Hj. specialize (Hrange j Hj). lia. }
  set (i := absorb l n 0 (Z.to_nat (lh_n l))) in *. eapply wph_bind, wph_modify; [done|].
  destruct (i =? lh_n l) eqn:E; zbool.
  - assert (Hnin : n ∉ blocks l) by (intros (j & Hj & Ej)%blocks_in; apply (H3 j); [lia|done]).
    eapply wph_bind, wph_bind, (wph_bpin _ n b r); [|done..|].
    { rewrite not_elem_of_cons. split; [done|apply not_elem_of_nil]. }
    eapply wph_modify; [done|]. apply wph_release; [apply not_elem_of_nil|].
    rewrite decide_False in HQ by done. apply HQ. rewrite E. exact (logged_append n l (proj1 Hlen) Hnin).
  - eapply wph_bind, wph_ret. apply wph_release; [apply not_elem_of_nil|].
    assert (Hlog : logged n l (set_lblock i n l)) by (apply logged_absorb; [lia|apply H2; lia]).
    pose proof (HQ _ Hlog) as HQ'. rewrite decide_True in HQ'; [done|].
    rewrite <-H2 by lia. apply (list_elem_of_lookup_2 _ (Z.to_nat i)), blocks_lookup. lia.
Qed.

(** ** [end_op] *)

(** Another operation is still running. *)
Lemma wp_end_op_more l a (Q : unit -> logst -> abuf -> Prop) :
  lg_committing l = false -> lg_outstanding l <> 1 ->
  Q tt (set_outstanding (lg_outstanding l - 1) l) a -> wp (end_op rw pid fuel) Q l a.
Proof.
  intros Hc Ho HQ. apply wph_wp. unfold end_op.
  eapply wph_bind, wph_acquire; [apply not_elem_of_nil|]. eapply wph_bind, wph_modify; [done|].
  eapply wph_bind, wph_gets. intros s. simpl lg_committing. rewrite Hc. cbv iota zeta.
  simpl lg_outstanding. rewrite (proj2 (Z.eqb_neq _ _)) by lia.
  eapply wph_bind, wph_wakeup, wph_bind, wph_release; [apply not_elem_of_nil|]. by apply wph_ret.
Qed.

(** The last one commits. *)
Lemma wp_end_op_last l a (Q : unit -> logst -> abuf -> Prop) :
  lg_committing l = false -> lg_outstanding l = 1 ->
  wp (commit rw pid fuel) (fun _ l' a' => Q tt (set_committing false l') a')
    (set_committing true (set_outstanding 0 l)) a ->
  wp (end_op rw pid fuel) Q l a.
Proof.
  intros Hc Ho HQ. apply wph_wp. unfold end_op.
  eapply wph_bind, wph_acquire; [apply not_elem_of_nil|]. eapply wph_bind, wph_modify; [done|].
  eapply wph_bind, wph_gets. intros s. simpl lg_committing. rewrite Hc. cbv iota zeta.
  simpl lg_outstanding. rewrite Ho. change (1 - 1 =? 0) with true. cbv iota.
  eapply wph_bind, wph_modify; [done|]. eapply wph_bind, wph_release; [apply not_elem_of_nil|].
  eapply wph_bind, wp_wph, wp_mono; [exact HQ|]. intros v l' a' HQ'.
  eapply wph_bind, wph_acquire; [apply not_elem_of_nil|]. eapply wph_bind, wph_modify; [done|].
  eapply wph_bind, wph_wakeup. apply wph_release; [apply not_elem_of_nil|done].
Qed.
End ops.
