(* ===== verification/LogTheorems.v ===== *)
(** * Crash safety of the log

    The specification of kernel/log.c to the file system: blocks are changed in
    transactions, and after a crash at any moment the next boot finds the blocks
    as of the last commit, all of them or none. *)

From S2P Require Import Prelude Machine Sleeplock Mem Layout Bio BioInv BioSpec BioRefine FsHdr Log LogDisk LogSpec LogCommit LogRun LogOps.

(** What file-system code does. *)
Inductive lop :=
  | LBegin | LEnd
  | LRead (n : Z)            (* bread, and look at the data *)
  | LStore (n i v : Z)       (* bp->data[i] = v *)
  | LWrite (n : Z)           (* log_write *)
  | LRelse (n : Z).          (* brelse *)

(** ** Specification *)

(** Blocks as running code sees them, as committed, the blocks of the current
    transaction, the blocks whose buffers are held, and the running operations. *)
Record lspec := Lspec {
  ls_view : Z -> mem; ls_disk : Z -> mem; ls_log : list Z; ls_held : gset Z; ls_out : Z }.

Definition lspec0 (d : Z -> mem) : lspec := Lspec d d [] ∅ 0.

Section spec.
Context (start size : Z).

(** [None]: the code breaks the rules, or would have to wait. *)
Definition lspec_op (o : lop) (p : lspec) : option (lspec * list mem) :=
  match o with
  | LBegin =>
      if Z.of_nat (length (ls_log p)) + (ls_out p + 1) * MAXOPBLOCKS <=? LOGSIZE
      then Some (Lspec (ls_view p) (ls_disk p) (ls_log p) (ls_held p) (ls_out p + 1), [])
      else None
  | LRead n =>
      if decide (home start size n /\ n ∉ ls_held p /\
                 (n ∈ ls_log p \/ Z.of_nat (base.size (list_to_set (ls_log p) ∪ ls_held p)) < NBUF))
      then Some (Lspec (ls_view p) (ls_disk p) (ls_log p) ({[n]} ∪ ls_held p) (ls_out p), [ls_view p n])
      else None
  | LStore n i v =>
      if decide (n ∈ ls_held p /\ 0 <= i < BSIZE)
      then Some (Lspec (fun m => if m =? n then st8 (ls_view p n) i v else ls_view p m)
                   (ls_disk p) (ls_log p) (ls_held p) (ls_out p), [])
      else None
  | LWrite n =>
      if decide (n ∈ ls_held p /\ 1 <= ls_out p /\ Z.of_nat (length (ls_log p)) < LOGSIZE /\
                 Z.of_nat (length (ls_log p)) < size - 1)
      then Some (Lspec (ls_view p) (ls_disk p)
                   (if decide (n ∈ ls_log p) then ls_log p else ls_log p ++ [n]) (ls_held p) (ls_out p), [])
      else None
  | LRelse n =>
      if decide (n ∈ ls_held p /\ (n ∈ ls_log p \/ ls_view p n = ls_disk p n))
      then Some (Lspec (ls_view p) (ls_disk p) (ls_log p) (ls_held p ∖ {[n]}) (ls_out p), [])
      else None
  | LEnd =>
      if ls_out p =? 1 then
        if decide (ls_held p = ∅ /\ Z.of_nat (length (ls_log p)) < NBUF)
        then Some (Lspec (ls_view p) (ls_view p) [] ∅ 0, []) else None
      else if 1 <? ls_out p
      then Some (Lspec (ls_view p) (ls_disk p) (ls_log p) (ls_held p) (ls_out p - 1), [])
      else None
  end.

Fixpoint lspec_ops (os : list lop) (p : lspec) : option (lspec * list mem) :=
  match os with
  | [] => Some (p, [])
  | o :: os =>
      '(p, out1) ← lspec_op o p;
      '(p, out2) ← lspec_ops os p;
      Some (p, out1 ++ out2)
  end.
End spec.

(** ** Three operations that fill their reservation *)

(** Change block [n] and log it. *)
Definition change_block (n : Z) : list lop := [LRead n; LStore n 0 1; LWrite n; LRelse n].

(** Three operations begin, then blocks are changed by them. *)
Definition three_ops (ns : list Z) : list lop := [LBegin; LBegin; LBegin] ++ concat (map change_block ns).

(** ** The same with the code *)

Section client.
Variable rw : Z -> bool -> M bcache unit.
Variables (pid : Z) (fuel : nat).

Definition run_lop (o : lop) (t : gmap Z Z) : M logst (gmap Z Z * list mem) :=
  match o with
  | LBegin => begin_op fuel;; mret (t, [])
  | LEnd => end_op rw pid fuel;; mret (t, [])
  | LRead n => b ← lbread rw pid fuel n; d ← ldata b; mret (<[n := b]> t, [d])
  | LStore n i v => d ← ldata (ptr t n); set_ldata (ptr t n) (st8 d i v);; mret (t, [])
  | LWrite n => log_write (ptr t n);; mret (t, [])
  | LRelse n => lbrelse pid (ptr t n);; mret (t, [])
  end.

Fixpoint run_lops (os : list lop) (t : gmap Z Z) : M logst (gmap Z Z * list mem) :=
  match os with
  | [] => mret (t, [])
  | o :: os =>
      r1 ← run_lop o t;
      r2 ← run_lops os r1.1;
      mret (r2.1, r1.2 ++ r2.2)
  end.

(** What [main] and the first process do: [binit], then [initlog]. *)
Definition boot (sb : superblock) : M logst unit :=
  zoom bc_of binit;; initlog rw pid fuel ROOTDEV sb.

(** ** Simulation *)

Context (start size : Z).

Record lsim (t : gmap Z Z) (p : lspec) (l : logst) (a : abuf) : Prop := {
  lm_placed : placed start size l;
  lm_com : lg_committing l = false;
  lm_out : lg_outstanding l = ls_out p;
  lm_n : 0 <= lh_n l;
  lm_blocks : blocks l = ls_log p;
  lm_hdr : hdr_ok start size (ls_log p);
  lm_blk n : is_blk (a_view a n);
  lm_disk : disk_ok (a_hist a);
  lm_clear : hdr_list (disk_read (a_hist a) start) = [];
  lm_home n : n ∈ ls_held p -> home start size n;
  lm_held n : n ∈ ls_held p ->
    a_refs a !! n = Some (ptr t n, if decide (n ∈ ls_log p) then 2 else 1, true);
  lm_pin n : n ∉ ls_held p -> n ∈ ls_log p -> exists b, a_refs a !! n = Some (b, 1, false);
  lm_free n : n ∉ ls_held p -> n ∉ ls_log p -> a_refs a !! n = None;
  lm_view n : home start size n -> a_view a n = ls_view p n;
  lm_clean n : n ∉ ls_held p -> n ∉ ls_log p -> a_view a n = disk_read (a_hist a) n;
  lm_committed n : home start size n -> disk_read (a_hist a) n = ls_disk p n }.

Lemma lsim_size t p l a : lsim t p l a ->
  base.size (a_refs a) = base.size (list_to_set (ls_log p) ∪ ls_held p).
Proof.
  intros S. rewrite <-size_dom. f_equal. apply set_eq. intros n.
  rewrite elem_of_dom, elem_of_union, elem_of_list_to_set.
  destruct (decide (n ∈ ls_held p)) as [Hh|Hh].
  - rewrite (lm_held _ _ _ _ S n Hh). split; [by right|by eexists].
  - destruct (decide (n ∈ ls_log p)) as [Hl|Hl].
    + destruct (lm_pin _ _ _ _ S n Hh Hl) as [b ->]. split; [by left|by eexists].
    + rewrite (lm_free _ _ _ _ S n Hh Hl). split; [by intros [? ?]|tauto].
Qed.

(** Nothing the next boot sees has changed. *)
Lemma lsim_crash t p l a v :
  lsim t p l a -> crash_ok start size (ls_disk p) v (a_hist a) /\ disk_ok (a_hist a).
Proof.
  intros S. split; [|apply S]. pose proof (pl_one _ _ _ (lm_placed _ _ _ _ S)).
  split; [rewrite (lm_clear _ _ _ _ S); by apply hdr_ok_nil|]. left. intros n Hn.
  rewrite recovered_clean by apply S. by apply S.
Qed.

Lemma ptr_ne t n m b : n <> m -> ptr (<[n := b]> t) m = ptr t m.
Proof. intros H. unfold ptr. by rewrite lookup_insert_ne. Qed.

Lemma ptr_eq t n b : ptr (<[n := b]> t) n = b.
Proof. unfold ptr. by rewrite lookup_insert_eq. Qed.

Context `{!DiskDriver rw}.

Notation wp := (wp pid).

(** After an operation: same output, still in step, and at every crash point the
    disk holds the blocks as committed before or after it. *)
Definition in_step (p p' : lspec) (out : list mem) (a : abuf)
    (r : gmap Z Z * list mem) (l' : logst) (a' : abuf) : Prop :=
  r.2 = out /\ lsim r.1 p' l' a' /\
  grows (fun h => crash_ok start size (ls_disk p) (ls_disk p') h /\ disk_ok h) (a_hist a) (a_hist a').

(** The operations that do not touch the disk. *)
Lemma in_step_quiet t p l a t' p' l' a' out :
  lsim t p l a -> lsim t' p' l' a' -> a_hist a' = a_hist a -> in_step p p' out a (t', out) l' a'.
Proof.
  intros S S' Hh. split; [done|]. split; [done|]. rewrite Hh. constructor. by eapply lsim_crash.
Qed.

Lemma step_begin t p l a p' out :
  lsim t p l a -> lspec_op start size LBegin p = Some (p', out) ->
  wp (run_lop LBegin t) (in_step p p' out a) l a.
Proof.
  intros S Ho. simpl in Ho. case_match eqn:E; [|done]. zbool. simplify_eq. apply wp_bind.
  pose proof (blocks_length l) as Hlen. rewrite (lm_blocks _ _ _ _ S) in Hlen.
  pose proof (lm_n _ _ _ _ S). pose proof (lm_out _ _ _ _ S).
  apply wp_begin_op; [apply S|lia|]. apply wp_ret. eapply in_step_quiet; [done| |done].
  destruct S as [[] ? ? ? ? ? ? ? ? ? ? ? ? ? ? ?]. split; try done. simpl. congruence.
Qed.

(** A buffer is taken. *)
Lemma lsim_read t p l a n b r :
  lsim t p l a -> home start size n -> n ∉ ls_held p ->
  r = (if decide (n ∈ ls_log p) then 2 else 1) ->
  lsim (<[n := b]> t) (Lspec (ls_view p) (ls_disk p) (ls_log p) ({[n]} ∪ ls_held p) (ls_out p)) l
    (a_set_refs n (b, r, true) a).
Proof.
  intros S Hh Hn ->. split; try apply S; simpl.
  - intros m [->%elem_of_singleton|Hm]%elem_of_union; [done|by apply (lm_home _ _ _ _ S)].
  - intros m Hm. destruct (decide (m = n)) as [->|Hne].
    + by rewrite lookup_insert_eq, ptr_eq.
    + rewrite lookup_insert_ne, ptr_ne by done. apply (lm_held _ _ _ _ S). set_solver.
  - intros m Hm Hl. rewrite lookup_insert_ne by set_solver. apply (lm_pin _ _ _ _ S); [set_solver|done].
  - intros m Hm Hl. rewrite lookup_insert_ne by set_solver. apply (lm_free _ _ _ _ S); [set_solver|done].
  - intros m Hm Hl. apply (lm_clean _ _ _ _ S); [set_solver|done].
Qed.

Lemma step_read t p l a p' out n :
  lsim t p l a -> lspec_op start size (LRead n) p = Some (p', out) ->
  wp (run_lop (LRead n) t) (in_step p p' out a) l a.
Proof.
  intros S Ho. simpl in Ho. case_decide as E; [|done]. destruct E as (Hh & Hn & Hroom). simplify_eq.
  apply wp_bind. apply (wp_lbread rw); [apply S|apply Hh| |].
  - unfold can_bread. destruct (decide (n ∈ ls_log p)) as [Hl|Hl].
    + destruct (lm_pin _ _ _ _ S n Hn Hl) as [b ->]. done.
    + rewrite (lm_free _ _ _ _ S n Hn Hl), (lsim_size _ _ _ _ S). by destruct Hroom.
  - intros b r He. apply wp_bind. eapply (wp_ldata _ n); [apply lookup_insert_eq|]. apply wp_ret.
    simpl a_view. rewrite (lm_view _ _ _ _ S n Hh). eapply in_step_quiet; [done| |done].
    apply lsim_read; try done. unfold bread_entry in He.
    destruct (decide (n ∈ ls_log p)) as [Hl|Hl].
    + destruct (lm_pin _ _ _ _ S n Hn Hl) as [b' Hb']. rewrite Hb' in He. by injection He.
    + rewrite (lm_free _ _ _ _ S n Hn Hl) in He. by injection He.
Qed.

Lemma step_store t p l a p' out n i v :
  lsim t p l a -> lspec_op start size (LStore n i v) p = Some (p', out) ->
  wp (run_lop (LStore n i v) t) (in_step p p' out a) l a.
Proof.
  intros S Ho. simpl in Ho. case_decide as E; [|done]. destruct E as [Hn Hi]. simplify_eq.
  pose proof (lm_held _ _ _ _ S n Hn) as He. pose proof (lm_home _ _ _ _ S n Hn) as Hh.
  apply wp_bind. eapply (wp_ldata _ n); [done|]. apply wp_bind. eapply (wp_set_ldata _ n); [done|].
  apply wp_ret. eapply in_step_quiet; [done| |done].
  split; try apply S; simpl.
  - intros m. destruct (m =? n); [apply is_blk_st8; [|done]|]; apply (lm_blk _ _ _ _ S).
  - intros m Hm. rewrite (lm_view _ _ _ _ S n Hh). destruct (m =? n); [done|by apply (lm_view _ _ _ _ S)].
  - intros m Hm Hl. rewrite (proj2 (Z.eqb_neq _ _)) by (by intros ->). by apply (lm_clean _ _ _ _ S).
Qed.

Lemma sim_write t p l a p' out n :
  lsim t p l a -> lspec_op start size (LWrite n) p = Some (p', out) ->
  wp (log_write (ptr t n)) (fun _ l' a' => lsim t p' l' a' /\ a_hist a' = a_hist a /\ out = []) l a.
Proof.
  intros S Ho. simpl in Ho. case_decide as E; [|done]. destruct E as (Hn & Hout & Hl1 & Hl2). simplify_eq.
  pose proof (lm_held _ _ _ _ S n Hn) as He. pose proof (lm_home _ _ _ _ S n Hn) as Hh.
  pose proof (blocks_length l) as Hlen. pose proof (lm_blocks _ _ _ _ S) as Hb. rewrite Hb in Hlen.
  pose proof (lm_n _ _ _ _ S). pose proof (pl_size _ _ _ (lm_placed _ _ _ _ S)).
  eapply wp_log_write; [done|by case_decide|by case_decide|apply Hh|lia|lia|rewrite (lm_out _ _ _ _ S); done| |].
  { intros m Hm. rewrite Hb in Hm. by apply (ho_home _ _ _ (lm_hdr _ _ _ _ S)). }
  intros l' (E1 & E2 & E3 & E4 & E5 & E6 & E7). rewrite Hb in E7 |- *.
  split; [|split; [by case_decide|done]].
  destruct S as [[] ? ? ? ? Hok ? ? ? ? Hheld Hpin Hfree ? Hclean ?]. split; simpl.
  - split; congruence.
  - congruence.
  - congruence.
  - lia.
  - done.
  - destruct (decide (n ∈ ls_log p)) as [Hin|Hin]; [done|]. destruct Hok as [O1 O2 O3 O4]. split.
    + apply NoDup_app. split; [done|]. split; [|apply NoDup_singleton].
      intros m Hm ->%list_elem_of_singleton. done.
    + rewrite length_app. simpl. lia.
    + rewrite length_app. simpl. lia.
    + intros m [Hm| ->%list_elem_of_singleton]%elem_of_app; [by apply O4|done].
  - by case_decide.
  - by case_decide.
  - by case_decide.
  - done.
  - intros m Hm. destruct (decide (n ∈ ls_log p)) as [Hin|Hin]; [by apply Hheld|]. simpl.
    destruct (decide (m = n)) as [->|Hne].
    + rewrite lookup_insert_eq, decide_True by (apply elem_of_app; right; left). done.
    + rewrite lookup_insert_ne, Hheld by done. f_equal. f_equal. f_equal.
      apply decide_ext. rewrite elem_of_app, list_elem_of_singleton. tauto.
  - intros m Hm Hl. destruct (decide (n ∈ ls_log p)) as [Hin|Hin]; [by apply Hpin|]. simpl.
    rewrite lookup_insert_ne by (intros ->; done). apply Hpin; [done|].
    apply elem_of_app in Hl as [?| ->%list_elem_of_singleton]; [done|by destruct Hm].
  - intros m Hm Hl. destruct (decide (n ∈ ls_log p)) as [Hin|Hin]; [by apply Hfree|]. simpl.
    rewrite lookup_insert_ne by (intros ->; done). apply Hfree; [done|]. rewrite elem_of_app in Hl. tauto.
  - by case_decide.
  - intros m Hm Hl. destruct (decide (n ∈ ls_log p)) as [Hin|Hin]; [by apply Hclean|]. simpl.
    apply Hclean; [done|]. rewrite elem_of_app in Hl. tauto.
  - by case_decide.
Qed.

Lemma step_write t p l a p' out n :
  lsim t p l a -> lspec_op start size (LWrite n) p = Some (p', out) ->
  wp (run_lop (LWrite n) t) (in_step p p' out a) l a.
Proof.
  intros S Ho. apply wp_bind. eapply wp_mono; [by apply (sim_write _ _ _ _ _ _ _ S Ho)|].
  intros _ l' a' (S' & Hh & ->). apply wp_ret. by eapply in_step_quiet.
Qed.

Lemma sim_relse t p l a p' out n :
  lsim t p l a -> lspec_op start size (LRelse n) p = Some (p', out) ->
  wp (lbrelse pid (ptr t n)) (fun _ l' a' => lsim t p' l' a' /\ a_hist a' = a_hist a /\ out = []) l a.
Proof.
  intros S Ho. simpl in Ho. case_decide as E; [|done]. destruct E as (Hn & Hor). simplify_eq.
  pose proof (lm_held _ _ _ _ S n Hn) as He. pose proof (lm_home _ _ _ _ S n Hn) as Hh.
  assert (Hclean : n ∉ ls_log p -> a_view a n = disk_read (a_hist a) n).
  { intros Hl. destruct Hor as [?|Hv]; [done|].
    by rewrite (lm_view _ _ _ _ S), (lm_committed _ _ _ _ S). }
  eapply (wp_lbrelse _ n); [done|intros Hr; apply Hclean; by case_decide|].
  split; [|split; [unfold a_release; by case_match|done]].
  assert (Hother : forall m, m <> n -> a_refs (a_release n (ptr t n) (if decide (n ∈ ls_log p) then 2 else 1) a) !! m =
            a_refs a !! m).
  { intros m Hm. unfold a_release. case_decide; simpl; [by rewrite lookup_insert_ne|by rewrite lookup_delete_ne]. }
  assert (Hkeep : a_view (a_release n (ptr t n) (if decide (n ∈ ls_log p) then 2 else 1) a) = a_view a /\
            a_hist (a_release n (ptr t n) (if decide (n ∈ ls_log p) then 2 else 1) a) = a_hist a)
    by (unfold a_release; by case_decide).
  destruct Hkeep as [Ev Eh]. split; try apply S; rewrite ?Ev, ?Eh; try apply S; simpl.
  - intros m Hm. apply (lm_home _ _ _ _ S). set_solver.
  - intros m Hm. rewrite Hother by set_solver. apply (lm_held _ _ _ _ S). set_solver.
  - intros m Hm Hl. destruct (decide (m = n)) as [->|Hne].
    + unfold a_release. rewrite decide_True by done. simpl. exists (ptr t n). apply lookup_insert_eq.
    + rewrite Hother by done. apply (lm_pin _ _ _ _ S); [set_solver|done].
  - intros m Hm Hl. destruct (decide (m = n)) as [->|Hne].
    + unfold a_release. rewrite decide_False by done. simpl. apply lookup_delete_eq.
    + rewrite Hother by done. apply (lm_free _ _ _ _ S); [set_solver|done].
  - intros m Hm Hl. destruct (decide (m = n)) as [->|Hne]; [by apply Hclean|].
    apply (lm_clean _ _ _ _ S); [set_solver|done].
Qed.

Lemma step_relse t p l a p' out n :
  lsim t p l a -> lspec_op start size (LRelse n) p = Some (p', out) ->
  wp (run_lop (LRelse n) t) (in_step p p' out a) l a.
Proof.
  intros S Ho. apply wp_bind. eapply wp_mono; [by apply (sim_relse _ _ _ _ _ _ _ S Ho)|].
  intros _ l' a' (S' & Hh & ->). apply wp_ret. by eapply in_step_quiet.
Qed.

(** The transaction of the last operation is committed. *)
Lemma step_commit t p l a :
  lsim t p l a -> ls_out p = 1 -> ls_held p = ∅ -> Z.of_nat (length (ls_log p)) < NBUF ->
  wp (run_lop LEnd t) (in_step p (Lspec (ls_view p) (ls_view p) [] ∅ 0) [] a) l a.
Proof.
  intros S Hout Hheld Hlen. pose proof S as [P Hcom Hout' Hn Hb Hok Hblk Hdisk Hclear _ _ Hpin Hfree Hview Hclean Hcomm].
  rewrite Hheld in *. assert (Hempty : forall n : Z, n ∉ (∅ : gset Z)) by set_solver.
  assert (I : ainv (blocks l) a) by (rewrite Hb; split; auto).
  apply wp_bind, (wp_end_op_last rw); [done|congruence|].
  eapply wp_mono; [apply (wp_commit rw pid fuel start size); try done; simpl|].
  - by destruct P.
  - change (hdr_ok start size (blocks l)). by rewrite Hb.
  - change (Z.of_nat (length (blocks l)) < NBUF). by rewrite Hb.
  - intros v l' a' [-> I' G Hc Hv]. apply wp_ret. split; [done|]. split.
    + pose proof (ai_clean _ _ I') as Hcl. pose proof (pl_one _ _ _ P).
      split; simpl; try done; try apply I'.
      * by destruct P.
      * by apply hdr_ok_nil.
      * intros n _ Hn'. by apply not_elem_of_nil in Hn'.
      * intros n _ _. apply (ai_free _ _ I'), not_elem_of_nil.
      * intros n Hh. rewrite Hv by done. by apply Hview.
      * intros n _ _. apply Hcl, not_elem_of_nil.
      * intros n Hh. rewrite <-Hcl by apply not_elem_of_nil. rewrite Hv by done. by apply Hview.
    + eapply grows_impl; [|exact G]. intros h [[H1 H2] H3]. split; [|done]. split; [done|].
      destruct H2 as [H2|H2]; [left|right]; intros n Hh; rewrite H2 by done; [by apply Hcomm|by apply Hview].
Qed.

Lemma step_end t p l a p' out :
  lsim t p l a -> lspec_op start size LEnd p = Some (p', out) ->
  wp (run_lop LEnd t) (in_step p p' out a) l a.
Proof.
  intros S Ho. simpl in Ho. case_match eqn:E; zbool.
  - case_decide as E'; [|done]. destruct E' as [Hh Hl]. simplify_eq. by apply step_commit.
  - case_match eqn:E'; [|done]. simplify_eq. apply wp_bind, (wp_end_op_more rw); [apply S| |].
    + by rewrite (lm_out _ _ _ _ S).
    + apply wp_ret. eapply in_step_quiet; [done| |done].
      destruct S as [[] ? ? ? ? ? ? ? ? ? ? ? ? ? ? ?]. split; try done. simpl. congruence.
Qed.

Lemma step_op o t p l a p' out :
  lsim t p l a -> lspec_op start size o p = Some (p', out) ->
  wp (run_lop o t) (in_step p p' out a) l a.
Proof.
  destruct o; [apply step_begin|apply step_end|apply step_read|apply step_store|apply step_write|apply step_relse].
Qed.

Lemma step_ops os : forall t p l a p' out,
  lsim t p l a -> lspec_ops start size os p = Some (p', out) ->
  wp (run_lops os t) (fun r l' a' => r.2 = out /\ lsim r.1 p' l' a') l a.
Proof.
  induction os as [|o os IH]; intros t p l a p' out S Ho; simpl in Ho.
  { simplify_eq. by apply wp_ret. }
  destruct (lspec_op start size o p) as [[p1 out1]|] eqn:E1; simpl in Ho; [|done].
  destruct (lspec_ops start size os p1) as [[p2 out2]|] eqn:E2; simpl in Ho; [|done]. simplify_eq.
  apply wp_bind. eapply wp_mono; [by apply step_op|]. intros r1 l1 a1 (<- & S1 & _).
  apply wp_bind. eapply wp_mono; [by eapply (IH _ _ _ _ _ _ S1)|]. intros r2 l2 a2 (<- & S2).
  by apply wp_ret.
Qed.

Lemma lspec_ops_app os1 os2 p p1 out1 p2 out2 :
  lspec_ops start size os1 p = Some (p1, out1) -> lspec_ops start size os2 p1 = Some (p2, out2) ->
  lspec_ops start size (os1 ++ os2) p = Some (p2, out1 ++ out2).
Proof.
  revert p out1. induction os1 as [|o os1 IH]; intros p out1 H1 H2; simpl in *; [by simplify_eq|].
  destruct (lspec_op start size o p) as [[q u]|]; simpl in *; [|done].
  destruct (lspec_ops start size os1 q) as [[q' u']|] eqn:E; simpl in *; [|done]. simplify_eq.
  rewrite (IH q u' E H2). simpl. by rewrite app_assoc.
Qed.

(** A block is read and changed in its buffer. *)
Lemma read_store_spec n p :
  ls_held p = ∅ -> home start size n -> NoDup (ls_log p) -> Z.of_nat (length (ls_log p)) < NBUF ->
  exists p' out, lspec_ops start size [LRead n; LStore n 0 1] p = Some (p', out) /\
    ls_held p' = {[n]} /\ ls_out p' = ls_out p /\ ls_log p' = ls_log p.
Proof.
  intros Hh Hn Hnd Hl. simpl. rewrite Hh. rewrite decide_True; cycle 1.
  { split_and!; [done|set_solver|right]. rewrite union_empty_r_L. by rewrite size_list_to_set. }
  simpl. rewrite decide_True by (split; [set_solver|done]). simpl.
  eexists _, _. split; [done|]. simpl. split_and!; [by rewrite union_empty_r_L|done|done].
Qed.

(** It is logged while the log has room for it. *)
Lemma write_relse_spec n p :
  ls_held p = {[n]} -> n ∉ ls_log p -> 1 <= ls_out p -> Z.of_nat (length (ls_log p)) < LOGSIZE ->
  Z.of_nat (length (ls_log p)) < size - 1 ->
  exists p' out, lspec_ops start size [LWrite n; LRelse n] p = Some (p', out) /\
    ls_held p' = ∅ /\ ls_out p' = ls_out p /\ ls_log p' = ls_log p ++ [n].
Proof.
  intros Hh Hn Ho Hl Hs. simpl. rewrite Hh. rewrite decide_True by (split_and!; [set_solver|done..]). simpl.
  destruct (decide (n ∈ ls_log p)) as [|_]; [done|]. rewrite decide_True by (split; [set_solver|left; apply elem_of_app; right; left]). simpl.
  eexists _, _. split; [done|]. simpl. split_and!; [set_solver|done|done].
Qed.

(** Blocks are changed as long as the log has room for them. *)
Lemma changes_spec ns : forall p,
  ls_held p = ∅ -> 1 <= ls_out p -> NoDup (ls_log p ++ ns) -> Forall (home start size) ns ->
  Z.of_nat (length (ls_log p ++ ns)) < Z.min LOGSIZE size ->
  exists p' out, lspec_ops start size (concat (map change_block ns)) p = Some (p', out) /\
    ls_held p' = ∅ /\ ls_out p' = ls_out p /\ ls_log p' = ls_log p ++ ns.
Proof.
  induction ns as [|n ns IH]; intros p Hh Ho Hnd Hhome Hlen.
  { exists p, []. by rewrite app_nil_r. }
  apply Forall_cons in Hhome as [Hn Hhome]. rewrite length_app in Hlen. cbn [length] in Hlen.
  assert (Hni : n ∉ ls_log p) by (apply NoDup_app in Hnd as (_ & Hd & _); intros H; apply (Hd n H); left).
  destruct (read_store_spec n p Hh Hn) as (p1 & o1 & E1 & H1 & O1 & L1); [by apply NoDup_app in Hnd as (? & _)|unfold NBUF, LOGSIZE, MAXOPBLOCKS in *; lia|].
  destruct (write_relse_spec n p1) as (p2 & o2 & E2 & H2' & O2 & L2); [done|by rewrite L1|lia|rewrite L1; lia|rewrite L1; lia|].
  rewrite L1 in L2. destruct (IH p2) as (p3 & o3 & E3 & H3 & O3 & L3);
    [done|lia|by rewrite L2, <-app_assoc|done|rewrite L2, !length_app; cbn [length]; lia|].
  exists p3, ((o1 ++ o2) ++ o3). split_and!; [|done|congruence|by rewrite L3, L2, <-app_assoc].
  change (concat (map change_block (n :: ns))) with (([LRead n; LStore n 0 1] ++ [LWrite n; LRelse n]) ++ concat (map change_block ns)).
  eapply lspec_ops_app; [by eapply lspec_ops_app|exact E3].
Qed.

Lemma three_ops_spec d ns :
  NoDup ns -> Forall (home start size) ns -> Z.of_nat (length ns) < Z.min LOGSIZE size ->
  exists p' out, lspec_ops start size (three_ops ns) (lspec0 d) = Some (p', out) /\
    ls_held p' = ∅ /\ ls_out p' = 3 /\ ls_log p' = ns.
Proof.
  intros Hnd Hh Hl. destruct (changes_spec ns (Lspec d d [] ∅ 3)) as (p' & out & E & H); [done|done|done|done|done|].
  exists p', ([] ++ out). split; [|exact H]. eapply lspec_ops_app; [|exact E]. reflexivity.
Qed.

Lemma run_lops_panic os o os' : forall t w l w1 l1 r msg,
  run_lops os t w l = Ret w1 l1 r -> run_lop o r.1 w1 l1 = Panic msg -> run_lops (os ++ o :: os') t w l = Panic msg.
Proof.
  induction os as [|o1 os IH]; intros t w l w1 l1 r msg Hr Hp; cbn [run_lops app] in *.
  { injection Hr as <- <- <-. unfold mbind, M_bind in *. cbn [fst] in Hp. by rewrite Hp. }
  unfold mbind, M_bind in Hr |- *. destruct (run_lop o1 t w l) as [w2 l2 r2|m|c w2 l2 k|] eqn:E1; try discriminate. simpl in Hr |- *.
  destruct (run_lops os r2.1 w2 l2) as [w3 l3 r3|m|c w3 l3 k|] eqn:E2; try discriminate. simpl in Hr. injection Hr as <- <- <-.
  simpl in Hp. by rewrite (IH _ _ _ _ _ _ _ E2 Hp).
Qed.

(** ** Boot *)

Section boot.
Context (sb : superblock) (Hst : sb_logstart sb = start) (Hsz : sb_nlog sb = size).
Context (H0 : 0 <= start) (H1 : 0 < size) (H2 : start + size < 2 ^ 31).

(** A disk that can be booted from. *)
Definition bootable (h : history) : Prop :=
  disk_ok h /\ hdr_ok start size (hdr_list (disk_read h start)).

(** The state that [initlog] ends in. *)
Lemma recovery_lsim l0 a l' a' : lg_outstanding l0 = 0 -> lg_committing l0 = false -> recovery start size l0 a l' a' -> lsim ∅ (lspec0 (recovered start (a_hist a))) l' a'.
Proof.
  intros E1 E2 [P Hn Hout Hcom I' _ Hh Hv]. pose proof (ai_clean _ _ I') as Hcl. rewrite E1 in Hout. rewrite E2 in Hcom.
  assert (Hb : blocks l' = []) by (unfold blocks; by rewrite Hn).
  split; simpl; try done; try apply I'.
  - lia.
  - by apply hdr_ok_nil.
  - intros n _ Hn'. by apply not_elem_of_nil in Hn'.
  - intros n _ _. apply (ai_free _ _ I'), not_elem_of_nil.
  - intros n _ _. apply Hcl, not_elem_of_nil.
  - intros n Hhome. rewrite <-Hcl by apply not_elem_of_nil. by apply Hv.
Qed.

Lemma boot_run w h :
  held w = [] -> bootable h ->
  exists w' s' l' a', boot sb w (log0 (bcache0 h)) = Ret w' (set_bc s' l') tt /\ held w' = [] /\
    rep pid s' a' /\ lsim ∅ (lspec0 (recovered start h)) l' a' /\
    grows (fun x => crash_ok start size (recovered start h) (recovered start h) x /\ disk_ok x) h (a_hist a').
Proof.
  intros Hw [Hd Hok]. destruct (binit_rep pid w h) as (s & Hrun & R).
  assert (I : ainv [] (Abuf (disk_read h) h ∅)).
  { split; simpl; try done; [intros n; by apply disk_ok_read|]. intros n Hn. by apply not_elem_of_nil in Hn. }
  destruct (wp_initlog rw pid fuel start size sb (Abuf (disk_read h) h ∅) (log0 (bcache0 h)) Hst Hsz H0 H1 H2 I Hok w s Hw R)
    as (w' & s' & l' & a' & v & Hrun' & Hw' & R' & C). destruct v.
  exists w', s', l', a'. split_and!; [|done|done| |apply C].
  - unfold boot. erewrite run_bind by (apply zoom_ret, Hrun). exact Hrun'.
  - by apply (recovery_lsim (log0 (bcache0 h)) (Abuf (disk_read h) h ∅)).
Qed.

(** Booting from a crash state. *)
Lemma boot_crash v v' h :
  crash_ok start size v v' h /\ disk_ok h ->
  exists w' l', boot sb (World [] [] []) (log0 (bcache0 h)) = Ret w' l' tt /\
    ((forall n, home start size n -> disk_read (hist (lg_bc l')) n = v n) \/
     (forall n, home start size n -> disk_read (hist (lg_bc l')) n = v' n)).
Proof.
  intros [[Hok Hv] Hd]. destruct (boot_run (World [] [] []) h eq_refl (conj Hd Hok))
    as (w' & s' & l' & a' & Hrun & _ & R & S & _).
  exists w', (set_bc s' l'). split; [done|]. simpl. rewrite <-(re_hist _ _ _ R).
  assert (E : forall n, home start size n -> disk_read (a_hist a') n = recovered start h n)
    by (intros n Hn; by apply (lm_committed _ _ _ _ S)).
  destruct Hv as [Hv|Hv]; [left|right]; intros n Hn; rewrite E; auto.
Qed.

(** The run of three operations that log [LOGSIZE - 1] blocks ends; one more block is a panic. *)
Lemma reservation_overrun w h ns n :
  held w = [] -> bootable h -> size = LOGSIZE -> NoDup (ns ++ [n]) -> Forall (home start size) (ns ++ [n]) ->
  Z.of_nat (length ns) = LOGSIZE - 1 ->
  (exists w' l' r, (boot sb;; run_lops (three_ops ns) ∅) w (log0 (bcache0 h)) = Ret w' l' r) /\
  (boot sb;; run_lops (three_ops (ns ++ [n])) ∅) w (log0 (bcache0 h)) = Panic "too big a transaction".
Proof.
  intros Hw Hb Hs Hnd Hhome Hlen. destruct (boot_run w h Hw Hb) as (w0 & s0 & l0 & a0 & Hrun0 & Hw0 & R0 & S0 & _).
  apply NoDup_app in Hnd as (Hnd & _ & _). apply Forall_app in Hhome as [Hh [Hn _]%Forall_cons].
  destruct (three_ops_spec (recovered start h) ns Hnd Hh) as (p1 & o1 & E1 & H1' & O1 & L1); [rewrite Hs; lia|].
  destruct (read_store_spec n p1 H1' Hn) as (p2 & o2 & E2 & H2' & O2 & L2); [by rewrite L1|rewrite L1; unfold NBUF, LOGSIZE, MAXOPBLOCKS in *; lia|].
  split.
  - destruct (step_ops _ ∅ _ l0 a0 p1 o1 S0 E1 w0 s0 Hw0 R0) as (w1 & s1 & l1 & a1 & r1 & Hrun1 & _).
    exists w1, (set_bc s1 l1), r1. by run_step Hrun0.
  - destruct (step_ops _ ∅ _ l0 a0 p2 (o1 ++ o2) S0 (lspec_ops_app _ _ _ _ _ _ _ E1 E2) w0 s0 Hw0 R0)
      as (w1 & s1 & l1 & a1 & r1 & Hrun1 & Hw1 & _ & _ & S1). run_step Hrun0.
    replace (three_ops (ns ++ [n])) with ((three_ops ns ++ [LRead n; LStore n 0 1]) ++ LWrite n :: [LRelse n]).
    + eapply run_lops_panic; [exact Hrun1|]. unfold run_lop, log_write, mbind, M_bind, acquire.
      rewrite decide_False by (rewrite Hw1; apply not_elem_of_nil). cbn [gets bind_res]. unfold gets. cbn [bind_res lh_n lg_size set_bc].
      pose proof (lm_blocks _ _ _ _ S1) as Eb. pose proof (blocks_length l1) as El. pose proof (lm_n _ _ _ _ S1).
      rewrite Eb, L2, L1 in El. rewrite (pl_size _ _ _ (lm_placed _ _ _ _ S1)), Hs.
      replace (LOGSIZE - 1 <=? lh_n l1) with true by (symmetry; apply Z.leb_le; lia). by rewrite orb_true_r.
    + unfold three_ops. rewrite map_app, concat_app. simpl. by rewrite <-!app_assoc.
Qed.

(** C1: Crash safety of the log.  Boot from any disk with a valid log header, run
    any sequence of [begin_op], [bread], stores, [log_write], [brelse] and
    [end_op] that follows the rules, and crash during one more operation, after
    any of its disk writes: booting again terminates, and finds every home block
    as committed before that operation, or every home block as committed after
    it, never a mixture. *)
Theorem crash_safety h w os p1 out1 o p2 out2 :
  held w = [] -> bootable h ->
  lspec_ops start size os (lspec0 (recovered start h)) = Some (p1, out1) ->
  lspec_op start size o p1 = Some (p2, out2) ->
  exists w1 l1 t1 w2 l2 t2,
    (boot sb;; run_lops os ∅) w (log0 (bcache0 h)) = Ret w1 l1 (t1, out1) /\
    run_lop o t1 w1 l1 = Ret w2 l2 (t2, out2) /\
    forall h', hist (lg_bc l1) `suffix_of` h' -> h' `suffix_of` hist (lg_bc l2) ->
    exists w3 l3, boot sb (World [] [] []) (log0 (bcache0 h')) = Ret w3 l3 tt /\
      ((forall n, home start size n -> disk_read (hist (lg_bc l3)) n = ls_disk p1 n) \/
       (forall n, home start size n -> disk_read (hist (lg_bc l3)) n = ls_disk p2 n)).
Proof.
  intros Hw Hb Hos Ho. destruct (boot_run w h Hw Hb) as (w0 & s0 & l0 & a0 & Hrun0 & Hw0 & R0 & S0 & _).
  destruct (step_ops os ∅ _ l0 a0 p1 out1 S0 Hos w0 s0 Hw0 R0)
    as (w1 & s1 & l1 & a1 & [t1 x1] & Hrun1 & Hw1 & R1 & Hx1 & S1). simpl in Hx1, S1. subst.
  destruct (step_op o t1 p1 l1 a1 p2 out2 S1 Ho w1 s1 Hw1 R1)
    as (w2 & s2 & l2 & a2 & [t2 x2] & Hrun2 & Hw2 & R2 & Hx2 & S2 & G). simpl in Hx2, S2. subst.
  exists w1, (set_bc s1 l1), t1, w2, (set_bc s2 l2), t2. split; [by run_step Hrun0|]. split; [done|].
  simpl. rewrite <-(re_hist _ _ _ R1), <-(re_hist _ _ _ R2). intros h' Hp Hs.
  exact (boot_crash _ _ _ (grows_between _ _ _ _ G Hp Hs)).
Qed.

(** C10: Recovery can crash, too: after any of the disk writes of a boot, booting
    again terminates with the same home blocks. *)
Theorem recovery_idempotent h w :
  held w = [] -> bootable h ->
  exists w1 l1, boot sb w (log0 (bcache0 h)) = Ret w1 l1 tt /\
    forall h', h `suffix_of` h' -> h' `suffix_of` hist (lg_bc l1) ->
    exists w2 l2, boot sb (World [] [] []) (log0 (bcache0 h')) = Ret w2 l2 tt /\
      forall n, home start size n -> disk_read (hist (lg_bc l2)) n = disk_read (hist (lg_bc l1)) n.
Proof.
  intros Hw Hb. destruct (boot_run w h Hw Hb) as (w0 & s0 & l0 & a0 & Hrun0 & Hw0 & R0 & S0 & G).
  exists w0, (set_bc s0 l0). split; [done|]. simpl. rewrite <-(re_hist _ _ _ R0). intros h' Hp Hs.
  destruct (boot_crash _ _ _ (grows_between _ _ _ _ G Hp Hs)) as (w2 & l2 & Hrun2 & Hv).
  exists w2, l2. split; [done|]. intros n Hn. rewrite (lm_committed _ _ _ _ S0) by done.
  destruct Hv as [Hv|Hv]; by apply Hv.
Qed.
End boot.
End client.

(** ** A disk with a log *)

(** As mkfs lays it out. *)
Definition sb2000 : superblock := Superblock FSMAGIC 2000 1954 200 30 2 32 45.

Lemma blank_bootable : bootable 2 30 [].
Proof. split; [constructor|]. change (hdr_ok 2 30 []). by apply hdr_ok_nil. Qed.

Definition demo_lops : list lop := [LBegin; LRead 50; LStore 50 3 7; LWrite 50; LRelse 50].

#[local] Opaque recovered.

Lemma crash_safety_witness :
  exists w1 l1 t1 w2 l2 t2,
    (boot plain_rw 1 0 sb2000;; run_lops plain_rw 1 0 demo_lops ∅) (World [] [] []) (log0 (bcache0 [])) =
      Ret w1 l1 (t1, [recovered 2 [] 50]) /\
    run_lop plain_rw 1 0 LEnd t1 w1 l1 = Ret w2 l2 (t2, []).
Proof.
  destruct (crash_safety plain_rw 1 0 2 30 sb2000 eq_refl eq_refl ltac:(lia) ltac:(lia) ltac:(lia)
    [] (World [] [] []) demo_lops
    (Lspec (fun m => if m =? 50 then st8 (recovered 2 [] 50) 3 7 else recovered 2 [] m)
       (recovered 2 []) [50] ∅ 1) [recovered 2 [] 50] LEnd
    (Lspec (fun m => if m =? 50 then st8 (recovered 2 [] 50) 3 7 else recovered 2 [] m)
       (fun m => if m =? 50 then st8 (recovered 2 [] 50) 3 7 else recovered 2 [] m) [] ∅ 0) []
    eq_refl blank_bootable) as (w1 & l1 & t1 & w2 & l2 & t2 & H1 & H2 & _).
  - reflexivity.
  - reflexivity.
  - exists w1, l1, t1, w2, l2, t2. exact (conj H1 H2).
Defined.

Lemma recovery_idempotent_witness :
  exists w1 l1, boot plain_rw 1 0 sb2000 (World [] [] []) (log0 (bcache0 [])) = Ret w1 l1 tt.
Proof.
  destruct (recovery_idempotent plain_rw 1 0 2 30 sb2000 eq_refl eq_refl ltac:(lia) ltac:(lia) ltac:(lia)
    [] (World [] [] []) eq_refl blank_bootable) as (w1 & l1 & H & _).
  exists w1, l1. exact H.
Defined.
