(* ===== verification/Printf.v ===== *)
(** * kernel/printf.c: formatted output on the console

    [conschar] is one byte given to the UART by [uartputc_sync]; file Uart models
    that function. *)

From S2P Require Import Prelude Machine Mem.

(** The bytes of a string literal, without its NUL. *)
Definition bytes (s : string) : list Z :=
  map (fun a => Z.of_nat (Ascii.nat_of_ascii a)) (String.list_ascii_of_string s).

(** kernel/console.c *)
Definition BACKSPACE : Z := 256.

Definition consputc {D} (c : Z) : M D unit :=
  if c =? BACKSPACE then conschar 8;; conschar 32;; conschar 8
  else conschar (u8 c).

Fixpoint cputs {D} (bs : list Z) : M D unit :=
  match bs with
  | [] => mret tt
  | b :: bs => consputc b;; cputs bs
  end.

Definition digits : list Z := bytes "0123456789abcdef".

(** The [do ... while]: the digits of [x], least significant first.  A 32-bit
    number has at most 32 digits. *)
Fixpoint printint_loop (x base : Z) (k : nat) : list Z :=
  match k with
  | O => []
  | S k =>
      nth (Z.to_nat (x mod base)) digits 0 ::
        (if x / base =? 0 then [] else printint_loop (x / base) base k)
  end.

(** The contents of [buf], in the order of the array. *)
Definition printint_buf (xx base : Z) (sign : bool) : list Z :=
  let neg := sign && (xx <? 0) in
  let x := if neg then u32 (- xx) else u32 xx in
  printint_loop x base 32 ++ (if neg then [45] else []).

Definition printint {D} (xx base : Z) (sign : bool) : M D unit :=
  cputs (rev (printint_buf xx base sign)).

Fixpoint printptr_loop {D} (x : Z) (k : nat) : M D unit :=
  match k with
  | O => mret tt
  | S k =>
      consputc (nth (Z.to_nat (Z.shiftr x 60)) digits 0);;
      printptr_loop (u64 (Z.shiftl x 4)) k
  end.

Definition printptr {D} (x : Z) : M D unit :=
  consputc 48;; consputc 120;; printptr_loop x 16.

(** The arguments of [printf]: integers, pointers, and strings or null. *)
Inductive parg := PInt (z : Z) | PPtr (p : Z) | PStr (s : option (list Z)).

(** [va_arg]; an argument of another type than the format asks for has no defined
    value. *)
Definition arg_int (args : list parg) : Z := match args with PInt z :: _ => z | _ => 0 end.
Definition arg_ptr (args : list parg) : Z := match args with PPtr p :: _ => p | _ => 0 end.
Definition arg_str (args : list parg) : list Z :=
  match args with PStr (Some s) :: _ => s | _ => bytes "(null)" end.

Fixpoint printf_loop {D} (fmt : list Z) (args : list parg) : M D unit :=
  match fmt with
  | [] => mret tt
  | c :: fmt =>
      if negb (c =? 37) then consputc c;; printf_loop fmt args
      else
        match fmt with
        | [] => mret tt
        | c :: fmt =>
            if c =? 100 then printint (arg_int args) 10 true;; printf_loop fmt (tail args)
            else if c =? 120 then printint (arg_int args) 16 true;; printf_loop fmt (tail args)
            else if c =? 112 then printptr (arg_ptr args);; printf_loop fmt (tail args)
            else if c =? 115 then cputs (arg_str args);; printf_loop fmt (tail args)
            else if c =? 37 then consputc 37;; printf_loop fmt args
            else consputc 37;; consputc c;; printf_loop fmt args
        end
  end.

(** [locking] is [pr.locking], which [printfinit] sets. *)
Definition printf {D} (locking : bool) (fmt : list Z) (args : list parg) : M D unit :=
  when locking (acquire LkPr);;
  printf_loop fmt args;;
  when locking (release LkPr).

(** ** Output on the console *)

(** Code that prints and returns. *)
Definition prints {D} (m : M D unit) : Prop :=
  forall w d, exists w', m w d = Ret w' d tt /\ held w' = held w.

Lemma prints_ret {D} : prints (mret tt : M D unit).
Proof. intros w d. by exists w. Qed.

Lemma prints_bind {D} (m m' : M D unit) : prints m -> prints m' -> prints (m;; m').
Proof.
  intros H H' w d. destruct (H w d) as (w1 & H1 & E1). destruct (H' w1 d) as (w2 & H2 & E2).
  exists w2. split; [by run_step H1|congruence].
Qed.

Lemma prints_consputc {D} c : prints (consputc c : M D unit).
Proof.
  assert (H : forall c, prints (conschar c : M D unit)) by (intros c' w d; by eexists).
  unfold consputc. case_match; [|done]. by repeat apply prints_bind.
Qed.

Lemma prints_cputs {D} bs : prints (cputs bs : M D unit).
Proof. induction bs; [apply prints_ret|]. apply prints_bind; [apply prints_consputc|done]. Qed.

Lemma prints_printptr_loop {D} k : forall x, prints (printptr_loop x k : M D unit).
Proof. induction k; intros x; [apply prints_ret|]. apply prints_bind; [apply prints_consputc|done]. Qed.

Lemma prints_printptr {D} x : prints (printptr x : M D unit).
Proof. do 2 (apply prints_bind; [apply prints_consputc|]). apply prints_printptr_loop. Qed.

Lemma prints_printf_loop {D} k : forall fmt args, (length fmt <= k)%nat -> prints (printf_loop fmt args : M D unit).
Proof.
  induction k as [|k IH]; intros [|c fmt] args Hk; try apply prints_ret; simpl in Hk; [lia|].
  cbn [printf_loop]. case_match; [apply prints_bind; [apply prints_consputc|apply IH; lia]|].
  destruct fmt as [|c' fmt]; [apply prints_ret|]. simpl in Hk.
  assert (Hall : forall args, prints (printf_loop fmt args : M D unit)) by (intros; apply IH; lia).
  repeat case_match; repeat (apply prints_bind;
    [first [apply prints_consputc|apply prints_cputs|apply prints_printptr]|]); done.
Qed.

Lemma prints_printf {D} fmt args (w : world) (d : D) : LkPr ∉ held w ->
  exists w', printf true fmt args w d = Ret w' d tt /\ held w' = held w.
Proof.
  intros Hw. unfold printf. cbn [when]. rewrite run_acquire by done.
  destruct (prints_printf_loop _ fmt args (le_n _) (set_held (LkPr :: held w) w) d) as (w1 & H1 & E1).
  run_step H1. simpl in E1. exists (set_held (held w) w1). split; [|done].
  unfold release. rewrite decide_True by (rewrite E1; left). by rewrite E1, filter_acquired.
Qed.

(** ** What [printint] prints

    The digits of a number, least significant first, and the number that a list
    of digits denotes. *)

Fixpoint digs (x base : Z) (k : nat) : list Z :=
  match k with
  | O => []
  | S k => x mod base :: (if x / base =? 0 then [] else digs (x / base) base k)
  end.

Definition number (base : Z) (ds : list Z) : Z := foldr (fun d v => d + base * v) 0 ds.

Lemma printint_loop_digs x base k :
  printint_loop x base k = map (fun d => nth (Z.to_nat d) digits 0) (digs x base k).
Proof. revert x. induction k as [|k IH]; intros x; cbn; [done|]. f_equal. destruct (_ =? 0); [done|apply IH]. Qed.

Lemma digs_range x base k : 0 < base -> Forall (fun d => 0 <= d < base) (digs x base k).
Proof.
  intros Hb. revert x. induction k as [|k IH]; intros x; cbn; [constructor|].
  constructor; [by apply Z.mod_pos_bound|]. destruct (_ =? 0); [constructor|apply IH].
Qed.

Lemma div_lt_pow x base k : 0 < base -> x < base ^ Z.of_nat (S k) -> x / base < base ^ Z.of_nat k.
Proof.
  intros Hb Hx. apply Z.div_lt_upper_bound; [done|].
  by rewrite Nat2Z.inj_succ, Z.pow_succ_r in Hx by lia.
Qed.

(** Enough rounds give all the digits. *)
Lemma digs_number x base k : 0 < base -> 0 <= x < base ^ Z.of_nat k -> number base (digs x base k) = x.
Proof.
  intros Hb. revert x. induction k as [|k IH]; intros x Hx; [cbn in *; lia|].
  cbn [digs number foldr]. pose proof (Z.div_mod x base ltac:(lia)).
  destruct (Z.eqb_spec (x / base) 0) as [He|Hn]; [cbn; rewrite He in *; lia|].
  fold (number base (digs (x / base) base k)). rewrite IH; [lia|].
  split; [apply Z.div_pos; lia|apply div_lt_pow; lia].
Qed.

(** No more rounds than the number has digits. *)
Lemma digs_length x base k n :
  0 < base -> (0 < n)%nat -> 0 <= x < base ^ Z.of_nat n -> (length (digs x base k) <= n)%nat.
Proof.
  intros Hb. revert x n. induction k as [|k IH]; intros x [|n] Hn Hx; cbn [digs length]; try lia.
  destruct (Z.eqb_spec (x / base) 0) as [|Hd]; cbn; [lia|].
  apply le_n_S. pose proof (div_lt_pow _ _ _ Hb (proj2 Hx)). pose proof (Z.div_pos x base).
  destruct n as [|n]; [cbn in *; lia|]. apply IH; lia.
Qed.

(** No leading zeros. *)
Lemma digs_canonical x base k :
  0 < base -> 0 <= x < base ^ Z.of_nat k -> last (digs x base k) = Some 0 -> digs x base k = [0].
Proof.
  intros Hb. revert x. induction k as [|k IH]; intros x Hx Hl; [done|].
  cbn [digs] in *. destruct (Z.eqb_spec (x / base) 0) as [|Hn]; [cbn in Hl; congruence|].
  exfalso. destruct k as [|k]; [pose proof (div_lt_pow x base 0 Hb (proj2 Hx)); pose proof (Z.div_pos x base); lia|].
  assert (0 <= x / base < base ^ Z.of_nat (S k)) as Hr.
  { split; [apply Z.div_pos; lia|apply div_lt_pow; lia]. }
  specialize (IH _ Hr). rewrite last_cons in Hl. destruct (last (digs (x / base) base (S k))) eqn:Hlast.
  - specialize (IH ltac:(congruence)). pose proof (digs_number _ _ _ Hb Hr) as Hv. rewrite IH in Hv. cbn in Hv. lia.
  - by apply last_None in Hlast.
Qed.

(** A 32-bit number. *)
Lemma lt_pow_base x base n : 10 <= base -> x < 10 ^ n -> x < base ^ n.
Proof. intros Hb Hx. pose proof (Z.pow_le_mono_l 10 base n ltac:(lia)). lia. Qed.

Definition magnitude (xx : Z) (sign : bool) : Z := if sign then Z.abs xx else u32 xx.

Lemma magnitude_u32 xx sign :
  - 2 ^ 31 <= xx < 2 ^ 31 ->
  (if sign && (xx <? 0) then u32 (- xx) else u32 xx) = magnitude xx sign /\ 0 <= magnitude xx sign < 10 ^ 10.
Proof.
  intros Hx. unfold magnitude. pose proof (u32_range xx). destruct sign; cbn; [|lia].
  destruct (Z.ltb_spec xx 0); rewrite u32_small; lia.
Qed.

Definition digits_of (xx base : Z) (sign : bool) : list Z := digs (magnitude xx sign) base 32.

Lemma digits_of_spec xx base sign :
  10 <= base -> - 2 ^ 31 <= xx < 2 ^ 31 ->
  let ds := digits_of xx base sign in
  Forall (fun d => 0 <= d < base) ds /\ number base ds = magnitude xx sign /\
  (last ds = Some 0 -> ds = [0]) /\ (length ds <= 10)%nat.
Proof.
  intros Hb Hx. destruct (magnitude_u32 xx sign Hx) as [_ Hm]. cbn zeta. unfold digits_of.
  assert (magnitude xx sign < base ^ Z.of_nat 32).
  { apply lt_pow_base; [done|]. eapply Z.lt_le_trans; [apply Hm|]. by apply Z.pow_le_mono_r. }
  split_and!; [apply digs_range; lia|apply digs_number; lia|apply digs_canonical; lia|].
  apply digs_length; [lia|lia|]. split; [lia|]. apply (lt_pow_base _ _ 10); lia.
Qed.

(** [printint] of the kernel, for the bases 10 and 16: whatever the 32-bit
    number, the 16 bytes of [buf] are enough, and they hold the digits of the
    number, which denote its magnitude, without leading zeros, and a sign
    exactly for a negative number printed as signed; [INT_MIN] included. *)
Theorem printint_spec xx base sign :
  base = 10 \/ base = 16 -> - 2 ^ 31 <= xx < 2 ^ 31 ->
  exists ds,
    printint_buf xx base sign =
      map (fun d => nth (Z.to_nat d) digits 0) ds ++ (if sign && (xx <? 0) then [45] else []) /\
    Forall (fun d => 0 <= d < base) ds /\ number base ds = magnitude xx sign /\
    (last ds = Some 0 -> ds = [0]) /\ (length (printint_buf xx base sign) <= 16)%nat.
Proof.
  intros Hb Hx. exists (digits_of xx base sign).
  destruct (digits_of_spec xx base sign ltac:(lia) Hx) as (? & ? & ? & Hl).
  assert (printint_buf xx base sign = map (fun d => nth (Z.to_nat d) digits 0) (digits_of xx base sign)
            ++ (if sign && (xx <? 0) then [45] else [])) as ->.
  { unfold printint_buf, digits_of. by rewrite (proj1 (magnitude_u32 xx sign Hx)), printint_loop_digs. }
  split_and!; try done. rewrite length_app, length_map. destruct (sign && (xx <? 0)); cbn [length]; lia.
Qed.

Lemma printint_spec_witness :
  exists ds, printint_buf (- 2 ^ 31) 10 true = map (fun d => nth (Z.to_nat d) digits 0) ds ++ [45] /\
    number 10 ds = 2 ^ 31.
Proof.
  destruct (printint_spec (- 2 ^ 31) 10 true ltac:(lia) ltac:(lia)) as (ds & He & _ & Hn & _).
  exists ds. split; [exact He|exact Hn].
Defined.
