(* ===== verification/Uart.v ===== *)
(** * kernel/uart.c: the UART driver

    The device is given by what its registers read as: [lsr n] is the value of
    the [n]-th read of the line status register and [rhr n] the byte in the
    receive register at that time.  Bytes written to the transmit register are
    the console output of the world. *)

From S2P Require Import Prelude Machine Mem.

Definition LSR_RX_READY : Z := 1.
Definition LSR_TX_IDLE : Z := 32.
Definition UART_TX_BUF_SIZE : Z := 32.

(** The transmit buffer, [panicked], and the number of reads of LSR so far. *)
Record uart := Uart {
  uart_tx_buf : gmap Z Z; uart_tx_w : Z; uart_tx_r : Z; panicked : bool; polls : nat }.

Definition set_tx (b : gmap Z Z) (w r : Z) (u : uart) : uart := Uart b w r (panicked u) (polls u).
Definition polled (u : uart) : uart :=
  Uart (uart_tx_buf u) (uart_tx_w u) (uart_tx_r u) (panicked u) (S (polls u)).

Section uart.
Variables lsr rhr : nat -> Z.
(** How long to wait for the device. *)
Variable fuel : nat.

Definition ReadReg_LSR : M uart Z :=
  n ← gets polls;
  modify polled;;
  mret (lsr n).

Fixpoint wait_idle (k : nat) : M uart unit :=
  v ← ReadReg_LSR;
  if Z.land v LSR_TX_IDLE =? 0 then
    match k with O => diverge | S k => wait_idle k end
  else mret tt.

(** [push_off] and [pop_off] are modelled in file Spinlock. *)
Definition uartputc_sync (c : Z) : M uart unit :=
  p ← gets panicked;
  if (p : bool) then diverge
  else
    wait_idle fuel;;
    conschar (u8 c).

(** The loop sends at most what the buffer holds. *)
Fixpoint uartstart_loop (k : nat) : M uart unit :=
  u ← gets (fun u => u);
  if uart_tx_w u =? uart_tx_r u then mret tt
  else
    v ← ReadReg_LSR;
    if Z.land v LSR_TX_IDLE =? 0 then mret tt
    else
      match k with
      | O => diverge
      | S k =>
          let c := default 0 (uart_tx_buf u !! (uart_tx_r u mod UART_TX_BUF_SIZE)) in
          modify (fun u => set_tx (uart_tx_buf u) (uart_tx_w u) (u64 (uart_tx_r u + 1)) u);;
          wakeup ChUart;;
          conschar c;;
          uartstart_loop k
      end.

Definition uartstart : M uart unit := uartstart_loop (Z.to_nat UART_TX_BUF_SIZE).

Fixpoint uartputc_wait (k : nat) : M uart unit :=
  u ← gets (fun u => u);
  if uart_tx_w u =? u64 (uart_tx_r u + UART_TX_BUF_SIZE) then
    match k with
    | O => diverge
    | S k => sleep ChUart LkUart;; uartputc_wait k
    end
  else mret tt.

Definition uartputc (c : Z) : M uart unit :=
  acquire LkUart;;
  p ← gets panicked;
  if (p : bool) then diverge
  else
    uartputc_wait fuel;;
    modify (fun u =>
      set_tx (<[uart_tx_w u mod UART_TX_BUF_SIZE := u8 c]> (uart_tx_buf u))
        (u64 (uart_tx_w u + 1)) (uart_tx_r u) u);;
    uartstart;;
    release LkUart.

Definition uartgetc : M uart Z :=
  n ← gets polls;
  v ← ReadReg_LSR;
  if negb (Z.land v LSR_RX_READY =? 0) then mret (rhr n) else mret (-1).

(** [consoleintr] is the handler of input characters, on a state that contains
    this one. *)
Fixpoint uartintr_loop {D} (dev : lens D uart) (consoleintr : Z -> M D unit) (k : nat) : M D unit :=
  c ← zoom dev uartgetc;
  if c =? -1 then mret tt
  else
    match k with
    | O => diverge
    | S k => consoleintr c;; uartintr_loop dev consoleintr k
    end.

Definition uartintr {D} (dev : lens D uart) (consoleintr : Z -> M D unit) : M D unit :=
  uartintr_loop dev consoleintr fuel;;
  acquire LkUart;;
  zoom dev uartstart;;
  release LkUart.
End uart.
