(* ===== verification/Console.v ===== *)
(** * kernel/console.c: console input and output *)

From S2P Require Import Prelude Machine Mem Layout Kalloc Vm Printf Uart.

Definition CONSOLE : Z := 1.

Definition INPUT_BUF_SIZE : Z := 128.

(** [struct cons]: the input buffer with its read, write and edit indices. *)
Record cons_t := Cons { c_buf : gmap Z Z; c_r : Z; c_w : Z; c_e : Z }.

Definition cbuf (c : cons_t) (i : Z) : Z := default 0 (c_buf c !! (i mod INPUT_BUF_SIZE)).

Definition set_r r c := Cons (c_buf c) r (c_w c) (c_e c).
Definition set_e e c := Cons (c_buf c) (c_r c) (c_w c) e.
Definition set_w w c := Cons (c_buf c) (c_r c) w (c_e c).
Definition put_e (ch : Z) c :=
  Cons (<[c_e c mod INPUT_BUF_SIZE := u8 ch]> (c_buf c)) (c_r c) (c_w c) (u32 (c_e c + 1)).

(** The console and its UART. *)
Record condev := Condev { cd_cons : cons_t; cd_uart : uart }.

Definition cons_of : lens condev cons_t := Lens _ _ cd_cons (fun c d => Condev c (cd_uart d)).
Definition uart_of : lens condev uart := Lens _ _ cd_uart (fun u d => Condev (cd_cons d) u).

(** With memory, and whether the running process has been killed. *)
Record consst := Consst { cs_mem : kmem; cs_killed : bool; cs_dev : condev }.

Definition cs_kmem : lens consst kmem := Lens _ _ cs_mem (fun k s => Consst k (cs_killed s) (cs_dev s)).
Definition cs_condev : lens consst condev := Lens _ _ cs_dev (fun d s => Consst (cs_mem s) (cs_killed s) d).

Section console.
Variables lsr : nat -> Z.
Variable fuel : nat.
(** The running process and its page table. *)
Variables me upt : Z.

(** [either_copyin] and [either_copyout] of one byte. *)
Definition copyin1 (user_src : bool) (src : Z) : M consst (Z * Z) :=
  if user_src then
    r ← zoom cs_kmem (copyin upt src 1);
    mret (r.1, nth 0 r.2 0)
  else
    b ← gets (fun s => ld8 (km_mem (cs_mem s)) src);
    mret (0, b).

Definition copyout1 (user_dst : bool) (dst c : Z) : M consst Z :=
  if user_dst then zoom cs_kmem (copyout upt dst [c])
  else zoom cs_kmem (on_mem (fun m => st8 m dst c));; mret 0.

Fixpoint consolewrite_loop (user_src : bool) (src i : Z) (k : nat) : M consst Z :=
  match k with
  | O => mret i
  | S k =>
      r ← copyin1 user_src (u64 (src + i));
      if r.1 =? -1 then mret i
      else
        zoom cs_condev (zoom uart_of (uartputc lsr fuel r.2));;
        consolewrite_loop user_src src (i + 1) k
  end.

Definition consolewrite (user_src : bool) (src n : Z) : M consst Z :=
  consolewrite_loop user_src src 0 (Z.to_nat n).

Definition cgets {A} (f : cons_t -> A) : M consst A := gets (fun s => f (cd_cons (cs_dev s))).
Definition cmod (f : cons_t -> cons_t) : M consst unit := zoom cs_condev (zoom cons_of (modify f)).

(** [while(cons.r == cons.w)]: false if the process was killed. *)
Fixpoint consoleread_wait (k : nat) : M consst bool :=
  c ← cgets (fun c => c);
  if c_r c =? c_w c then
    acquire (LkProc me);;
    kl ← gets cs_killed;
    release (LkProc me);;
    if (kl : bool) then mret false
    else
      match k with
      | O => diverge
      | S k => sleep ChConsR LkCons;; consoleread_wait k
      end
  else mret true.

(** The final [n], or [None] for the error return. *)
Fixpoint consoleread_loop (user_dst : bool) (dst n target : Z) (k : nat) : M consst (option Z) :=
  match k with
  | O => mret (Some n)
  | S k =>
      ok ← consoleread_wait fuel;
      if negb ok then mret None
      else
        c ← cgets (fun c => cbuf c (c_r c));
        cmod (fun c => set_r (u32 (c_r c + 1)) c);;
        if c =? 4 then
          when (n <? target) (cmod (fun c => set_r (u32 (c_r c - 1)) c));;
          mret (Some n)
        else
          r ← copyout1 user_dst dst c;
          if r =? -1 then mret (Some n)
          else if c =? 10 then mret (Some (n - 1))
          else consoleread_loop user_dst (u64 (dst + 1)) (n - 1) target k
  end.

(** Each round of the loop takes one from [n]. *)
Definition consoleread (user_dst : bool) (dst n : Z) : M consst Z :=
  let target := u32 n in
  acquire LkCons;;
  r ← consoleread_loop user_dst dst n target (Z.to_nat n);
  release LkCons;;
  match r with
  | None => mret (-1)
  | Some n => mret (s32 (target - n))
  end.
End console.

(** The handler runs on a state that contains the console's. *)
Section intr.
Context {D : Type}.
Variable dev : lens D condev.
Variable procdump : M D unit.

Definition con {A} (m : M cons_t A) : M D A := zoom dev (zoom cons_of m).

(** Kill line: the loop ends when [e] reaches [w], which is at most a buffer
    away. *)
Fixpoint kill_line (k : nat) : M D unit :=
  c ← con (gets (fun c => c));
  if negb (c_e c =? c_w c) && negb (cbuf c (u32 (c_e c - 1)) =? 10) then
    match k with
    | O => diverge
    | S k =>
        con (modify (fun c => set_e (u32 (c_e c - 1)) c));;
        consputc BACKSPACE;;
        kill_line k
    end
  else mret tt.

Definition consoleintr (c : Z) : M D unit :=
  acquire LkCons;;
  (if c =? 16 then procdump
   else if c =? 21 then kill_line (Z.to_nat INPUT_BUF_SIZE)
   else if (c =? 8) || (c =? 127) then
     x ← con (gets (fun x => x));
     when (negb (c_e x =? c_w x))
       (con (modify (fun c => set_e (u32 (c_e c - 1)) c));; consputc BACKSPACE)
   else
     x ← con (gets (fun x => x));
     when (negb (c =? 0) && (u32 (c_e x - c_r x) <? INPUT_BUF_SIZE))
       (let c := if c =? 13 then 10 else c in
        consputc c;;
        con (modify (put_e c));;
        x ← con (gets (fun x => x));
        when ((c =? 10) || (c =? 4) || (u32 (c_e x - c_r x) =? INPUT_BUF_SIZE))
          (con (modify (fun c => set_w (c_e c) c));; wakeup ChConsR)));;
  release LkCons.
End intr.
