(* ===== verification/Fs.v ===== *)
(** * kernel/fs.c: blocks, inodes, directories, path names

    The inode table is a map from table index to [struct inode]; an inode pointer
    is an index, a null pointer is [None].  The superblock, the inode table, the
    log with its buffer cache, and the memory that user data is copied from and
    to form the state. *)

From S2P Require Import Prelude Machine Sleeplock Mem Layout Kalloc Vm Bio FsHdr Log Printf.

Definition s16 (x : Z) : Z := (x + 2 ^ 15) mod 2 ^ 16 - 2 ^ 15.

Definition ld16 (m : mem) (a : Z) : Z := ld_le 2 m a.

Definition st16 (m : mem) (a v : Z) : mem := st_le 2 m a v.

(** File types, kernel/stat.h. *)
Definition T_DIR : Z := 1.
Definition T_FILE : Z := 2.
Definition T_DEVICE : Z := 3.

(** [struct inode]; [i_addrs] is the array [addrs]. *)
Record inode := Inode {
  i_dev : Z; i_inum : Z; i_ref : Z; i_lock : sleeplock; i_valid : bool;
  i_type : Z; i_major : Z; i_minor : Z; i_nlink : Z; i_size : Z; i_addrs : gmap Z Z }.

Definition inode0 : inode := Inode 0 0 0 (Sleeplock 0 "" 0) false 0 0 0 0 0 ∅.

Definition iset_id dev inum ref valid x := Inode dev inum ref (i_lock x) valid (i_type x) (i_major x) (i_minor x) (i_nlink x) (i_size x) (i_addrs x).
Definition iset_ref r x := Inode (i_dev x) (i_inum x) r (i_lock x) (i_valid x) (i_type x) (i_major x) (i_minor x) (i_nlink x) (i_size x) (i_addrs x).
Definition iset_lock l x := Inode (i_dev x) (i_inum x) (i_ref x) l (i_valid x) (i_type x) (i_major x) (i_minor x) (i_nlink x) (i_size x) (i_addrs x).
Definition iset_valid v x := Inode (i_dev x) (i_inum x) (i_ref x) (i_lock x) v (i_type x) (i_major x) (i_minor x) (i_nlink x) (i_size x) (i_addrs x).
Definition iset_type t x := Inode (i_dev x) (i_inum x) (i_ref x) (i_lock x) (i_valid x) t (i_major x) (i_minor x) (i_nlink x) (i_size x) (i_addrs x).
Definition iset_nlink n x := Inode (i_dev x) (i_inum x) (i_ref x) (i_lock x) (i_valid x) (i_type x) (i_major x) (i_minor x) n (i_size x) (i_addrs x).
Definition iset_devno ma mi n x := Inode (i_dev x) (i_inum x) (i_ref x) (i_lock x) (i_valid x) (i_type x) ma mi n (i_size x) (i_addrs x).
Definition iset_size s x := Inode (i_dev x) (i_inum x) (i_ref x) (i_lock x) (i_valid x) (i_type x) (i_major x) (i_minor x) (i_nlink x) s (i_addrs x).
Definition iset_addr i a x := Inode (i_dev x) (i_inum x) (i_ref x) (i_lock x) (i_valid x) (i_type x) (i_major x) (i_minor x) (i_nlink x) (i_size x) (<[i := a]> (i_addrs x)).
Definition iset_fields ty ma mi nl sz ad x := Inode (i_dev x) (i_inum x) (i_ref x) (i_lock x) (i_valid x) ty ma mi nl sz ad.

Definition iaddr (x : inode) (i : Z) : Z := default 0 (i_addrs x !! i).

Record fsst := Fsst { f_mem : kmem; f_sb : superblock; f_itable : gmap Z inode; f_log : logst }.

Definition set_fmem k s := Fsst k (f_sb s) (f_itable s) (f_log s).
Definition set_fsb b s := Fsst (f_mem s) b (f_itable s) (f_log s).
Definition set_itable t s := Fsst (f_mem s) (f_sb s) t (f_log s).
Definition set_flog l s := Fsst (f_mem s) (f_sb s) (f_itable s) l.

Definition mem_of : lens fsst kmem := Lens _ _ f_mem set_fmem.
Definition log_of : lens fsst logst := Lens _ _ f_log set_flog.

Definition inode_at (s : fsst) (ip : Z) : inode := default inode0 (f_itable s !! ip).

Definition geti {A} (f : inode -> A) (ip : Z) : M fsst A := gets (fun s => f (inode_at s ip)).

Definition upd_inode (ip : Z) (f : inode -> inode) (s : fsst) : fsst :=
  set_itable (alter f ip (f_itable s)) s.

Definition seti (ip : Z) (f : inode -> inode) : M fsst unit := modify (upd_inode ip f).

(** Addresses of sleep locks: those of the buffers are the buffer numbers. *)
Definition ilock_id (ip : Z) : Z := 1000 + ip.

Definition ip_lock (ip : Z) : lens fsst sleeplock :=
  Lens _ _ (fun s => i_lock (inode_at s ip)) (fun l => upd_inode ip (iset_lock l)).

(** ** On-disk inodes *)

(** Offset in its block of inode [inum]. *)
Definition dinode_off (inum : Z) : Z := inum mod IPB * DINODE_SIZE.

Fixpoint get_addrs (d : mem) (off i : Z) (k : nat) (m : gmap Z Z) : gmap Z Z :=
  match k with
  | O => m
  | S k => get_addrs d off (i + 1) k (<[i := ld32 d (off + 12 + 4 * i)]> m)
  end.

Fixpoint put_addrs (x : inode) (d : mem) (off i : Z) (k : nat) : mem :=
  match k with
  | O => d
  | S k => put_addrs x (st32 d (off + 12 + 4 * i) (iaddr x i)) off (i + 1) k
  end.

(** The copies in [ilock] and [iupdate]. *)
Definition dinode_read (d : mem) (off : Z) (x : inode) : inode :=
  iset_fields (s16 (ld16 d off)) (s16 (ld16 d (off + 2))) (s16 (ld16 d (off + 4)))
    (s16 (ld16 d (off + 6))) (ld32 d (off + 8)) (get_addrs d off 0 (Z.to_nat (NDIRECT + 1)) (i_addrs x)) x.

Definition dinode_write (x : inode) (d : mem) (off : Z) : mem :=
  put_addrs x
    (st32 (st16 (st16 (st16 (st16 d off (i_type x)) (off + 2) (i_major x)) (off + 4) (i_minor x))
       (off + 6) (i_nlink x)) (off + 8) (i_size x))
    off 0 (Z.to_nat (NDIRECT + 1)).

Section fs.
Variable virtio_disk_rw : Z -> bool -> M bcache unit.
(** The running process: its pid, page table and current directory; [fuel] bounds
    wakeups after which it has to sleep again. *)
Variables (pid : Z) (fuel : nat) (upt : Z) (cwd : Z).

(** Calls into the layers below. *)
Definition fbread (dev n : Z) : M fsst Z := zoom log_of (zoom bc_of (bread virtio_disk_rw pid fuel dev n)).
Definition fbrelse (b : Z) : M fsst unit := zoom log_of (zoom bc_of (brelse pid b)).
Definition fdata (b : Z) : M fsst mem := zoom log_of (zoom bc_of (getb b_data b)).
Definition set_fdata (b : Z) (d : mem) : M fsst unit := zoom log_of (zoom bc_of (setb b (set_data d))).
Definition flog_write (b : Z) : M fsst unit := zoom log_of (log_write b).
Definition fbegin_op : M fsst unit := zoom log_of (begin_op fuel).
Definition fend_op : M fsst unit := zoom log_of (end_op virtio_disk_rw pid fuel).

Definition readsb (dev : Z) : M fsst unit :=
  bp ← fbread dev 1;
  d ← fdata bp;
  modify (set_fsb (Superblock (ld32 d 0) (ld32 d 4) (ld32 d 8) (ld32 d 12)
                     (ld32 d 16) (ld32 d 20) (ld32 d 24) (ld32 d 28)));;
  fbrelse bp.

Definition fsinit (dev : Z) : M fsst unit :=
  readsb dev;;
  sb ← gets f_sb;
  if negb (sb_magic sb =? FSMAGIC) then panic "invalid file system"
  else zoom log_of (initlog virtio_disk_rw pid fuel dev sb).

Definition bzero (dev bno : Z) : M fsst unit :=
  bp ← fbread dev bno;
  d ← fdata bp;
  set_fdata bp (memset d 0 0 BSIZE);;
  flog_write bp;;
  fbrelse bp.

(** The inner loop of [balloc]: the first clear bit of the bitmap block [d],
    [b] being the first block it describes. *)
Fixpoint balloc_scan (d : mem) (b size bi : Z) (k : nat) : option Z :=
  match k with
  | O => None
  | S k =>
      if b + bi <? size then
        let m := Z.shiftl 1 (bi mod 8) in
        if Z.land (ld8 d (bi / 8)) m =? 0 then Some bi else balloc_scan d b size (bi + 1) k
      else None
  end.

Fixpoint balloc_loop (dev b : Z) (k : nat) : M fsst Z :=
  sb ← gets f_sb;
  if b <? sb_size sb then
    match k with
    | O => diverge
    | S k =>
        bp ← fbread dev (BBLOCK b sb);
        d ← fdata bp;
        match balloc_scan d b (sb_size sb) 0 (Z.to_nat BPB) with
        | Some bi =>
            let m := Z.shiftl 1 (bi mod 8) in
            set_fdata bp (st8 d (bi / 8) (Z.lor (ld8 d (bi / 8)) m));;
            flog_write bp;;
            fbrelse bp;;
            bzero dev (b + bi);;
            mret (b + bi)
        | None => fbrelse bp;; balloc_loop dev (b + BPB) k
        end
    end
  else
    printf true (bytes "balloc: out of blocks" ++ [10]) [];;
    mret 0.

(** The bitmap has at most [size / BPB + 1] blocks. *)
Definition balloc (dev : Z) : M fsst Z :=
  sb ← gets f_sb;
  balloc_loop dev 0 (S (Z.to_nat (sb_size sb / BPB))).

Definition bfree (dev b : Z) : M fsst unit :=
  sb ← gets f_sb;
  bp ← fbread dev (BBLOCK b sb);
  d ← fdata bp;
  let bi := b mod BPB in
  let m := Z.shiftl 1 (bi mod 8) in
  if Z.land (ld8 d (bi / 8)) m =? 0 then panic "freeing free block"
  else
    set_fdata bp (st8 d (bi / 8) (Z.land (ld8 d (bi / 8)) (Z.lnot m)));;
    flog_write bp;;
    fbrelse bp.

(** [iinit]: the locks of all entries. *)
Definition iinit : M fsst unit :=
  modify (fun s => set_itable (fmap (iset_lock (initsleeplock "inode")) (f_itable s)) s).

(** The scan of the table in [iget]: the entry of the inode, or the first
    unused one. *)
Fixpoint iget_scan (s : fsst) (dev inum ip : Z) (empty : option Z) (k : nat) : Z + option Z :=
  match k with
  | O => inr empty
  | S k =>
      let x := inode_at s ip in
      if (0 <? i_ref x) && (i_dev x =? dev) && (i_inum x =? inum) then inl ip
      else
        iget_scan s dev inum (ip + 1)
          (if bool_decide (empty = None) && (i_ref x =? 0) then Some ip else empty) k
  end.

Definition iget (dev inum : Z) : M fsst Z :=
  acquire LkItable;;
  s ← gets (fun s => s);
  match iget_scan s dev inum 0 None (Z.to_nat NINODE) with
  | inl ip =>
      seti ip (fun x => iset_ref (i_ref x + 1) x);;
      release LkItable;;
      mret ip
  | inr None => panic "iget: no inodes"
  | inr (Some ip) =>
      seti ip (iset_id dev inum 1 false);;
      release LkItable;;
      mret ip
  end.

Fixpoint ialloc_loop (dev type inum : Z) (k : nat) : M fsst (option Z) :=
  sb ← gets f_sb;
  if inum <? sb_ninodes sb then
    match k with
    | O => diverge
    | S k =>
        bp ← fbread dev (IBLOCK inum sb);
        d ← fdata bp;
        let off := dinode_off inum in
        if s16 (ld16 d off) =? 0 then
          set_fdata bp (st16 (memset d off 0 DINODE_SIZE) off type);;
          flog_write bp;;
          fbrelse bp;;
          ip ← iget dev inum;
          mret (Some ip)
        else fbrelse bp;; ialloc_loop dev type (inum + 1) k
    end
  else
    printf true (bytes "ialloc: no inodes" ++ [10]) [];;
    mret None.

Definition ialloc (dev type : Z) : M fsst (option Z) :=
  sb ← gets f_sb;
  ialloc_loop dev type 1 (Z.to_nat (sb_ninodes sb)).

Definition iupdate (ip : Z) : M fsst unit :=
  sb ← gets f_sb;
  x ← geti (fun x => x) ip;
  bp ← fbread (i_dev x) (IBLOCK (i_inum x) sb);
  d ← fdata bp;
  set_fdata bp (dinode_write x d (dinode_off (i_inum x)));;
  flog_write bp;;
  fbrelse bp.

Definition idup (ip : Z) : M fsst Z :=
  acquire LkItable;;
  seti ip (fun x => iset_ref (i_ref x + 1) x);;
  release LkItable;;
  mret ip.

Definition ilock (ip : option Z) : M fsst unit :=
  match ip with
  | None => panic "ilock"
  | Some ip =>
      ref ← geti i_ref ip;
      if ref <? 1 then panic "ilock"
      else
        zoom (ip_lock ip) (acquiresleep (ilock_id ip) fuel pid);;
        x ← geti (fun x => x) ip;
        if negb (i_valid x) then
          sb ← gets f_sb;
          bp ← fbread (i_dev x) (IBLOCK (i_inum x) sb);
          d ← fdata bp;
          seti ip (dinode_read d (dinode_off (i_inum x)));;
          fbrelse bp;;
          seti ip (iset_valid true);;
          t ← geti i_type ip;
          if t =? 0 then panic "ilock: no type" else mret tt
        else mret tt
  end.

Definition iunlock (ip : option Z) : M fsst unit :=
  match ip with
  | None => panic "iunlock"
  | Some ip =>
      h ← zoom (ip_lock ip) (holdingsleep (ilock_id ip) pid);
      ref ← geti i_ref ip;
      if negb h || (ref <? 1) then panic "iunlock"
      else zoom (ip_lock ip) (releasesleep (ilock_id ip))
  end.
(** *** Inode content *)

Definition bmap (ip bn : Z) : M fsst Z :=
  x ← geti (fun x => x) ip;
  if bn <? NDIRECT then
    let addr := iaddr x bn in
    if addr =? 0 then
      addr ← balloc (i_dev x);
      if addr =? 0 then mret 0
      else seti ip (iset_addr bn addr);; mret addr
    else mret addr
  else
    let bn := bn - NDIRECT in
    if bn <? NINDIRECT then
      addr ←
        (if iaddr x NDIRECT =? 0 then
           addr ← balloc (i_dev x);
           if addr =? 0 then mret 0
           else seti ip (iset_addr NDIRECT addr);; mret addr
         else mret (iaddr x NDIRECT));
      if addr =? 0 then mret 0
      else
        bp ← fbread (i_dev x) addr;
        a ← fdata bp;
        let addr := ld32 a (4 * bn) in
        addr ←
          (if addr =? 0 then
             addr ← balloc (i_dev x);
             when (negb (addr =? 0)) (set_fdata bp (st32 a (4 * bn) addr);; flog_write bp);;
             mret addr
           else mret addr);
        fbrelse bp;;
        mret addr
    else panic "bmap: out of range".

(** The two loops of [itrunc]. *)
Fixpoint itrunc_direct (ip i : Z) (k : nat) : M fsst unit :=
  match k with
  | O => mret tt
  | S k =>
      x ← geti (fun x => x) ip;
      when (negb (iaddr x i =? 0)) (bfree (i_dev x) (iaddr x i);; seti ip (iset_addr i 0));;
      itrunc_direct ip (i + 1) k
  end.

Fixpoint itrunc_indirect (dev : Z) (a : mem) (j : Z) (k : nat) : M fsst unit :=
  match k with
  | O => mret tt
  | S k =>
      when (negb (ld32 a (4 * j) =? 0)) (bfree dev (ld32 a (4 * j)));;
      itrunc_indirect dev a (j + 1) k
  end.

Definition itrunc (ip : Z) : M fsst unit :=
  itrunc_direct ip 0 (Z.to_nat NDIRECT);;
  x ← geti (fun x => x) ip;
  when (negb (iaddr x NDIRECT =? 0))
    (bp ← fbread (i_dev x) (iaddr x NDIRECT);
     a ← fdata bp;
     itrunc_indirect (i_dev x) a 0 (Z.to_nat NINDIRECT);;
     fbrelse bp;;
     bfree (i_dev x) (iaddr x NDIRECT);;
     seti ip (iset_addr NDIRECT 0));;
  seti ip (iset_size 0);;
  iupdate ip.

Definition iput (ip : Z) : M fsst unit :=
  acquire LkItable;;
  x ← geti (fun x => x) ip;
  when ((i_ref x =? 1) && i_valid x && (i_nlink x =? 0))
    (zoom (ip_lock ip) (acquiresleep (ilock_id ip) fuel pid);;
     release LkItable;;
     itrunc ip;;
     seti ip (iset_type 0);;
     iupdate ip;;
     seti ip (iset_valid false);;
     zoom (ip_lock ip) (releasesleep (ilock_id ip));;
     acquire LkItable);;
  seti ip (fun x => iset_ref (i_ref x - 1) x);;
  release LkItable.

Definition iunlockput (ip : Z) : M fsst unit :=
  iunlock (Some ip);;
  iput ip.

(** The fields of [struct stat]. *)
Record stat := Stat { st_dev : Z; st_ino : Z; st_type : Z; st_nlink : Z; st_size : Z }.

Definition stati (ip : Z) : M fsst stat :=
  x ← geti (fun x => x) ip;
  mret (Stat (i_dev x) (i_inum x) (i_type x) (i_nlink x) (i_size x)).

(** Where [readi] puts data: at a user address, at a kernel (physical) address,
    or in a local variable of its caller, to which it returns the bytes. *)
Inductive iodst := ToUser (a : Z) | ToKernel (pa : Z) | ToLocal.

Definition dst_add (d : iodst) (m : Z) : iodst :=
  match d with ToUser a => ToUser (a + m) | ToKernel pa => ToKernel (pa + m) | ToLocal => ToLocal end.

(** [either_copyout] of kernel/proc.c. *)
Definition either_copyout (dst : iodst) (src : list Z) : M fsst Z :=
  match dst with
  | ToUser a => zoom mem_of (copyout upt (u64 a) src)
  | ToKernel pa => zoom mem_of (on_mem (fun m => store_bytes m pa src));; mret 0
  | ToLocal => mret 0
  end.

Fixpoint readi_loop (ip : Z) (dst : iodst) (off n tot : Z) (got : list Z) (k : nat)
    : M fsst (Z * list Z) :=
  if tot <? n then
    match k with
    | O => diverge
    | S k =>
        addr ← bmap ip (off / BSIZE);
        if addr =? 0 then mret (tot, got)
        else
          dev ← geti i_dev ip;
          bp ← fbread dev addr;
          let m := Z.min (n - tot) (BSIZE - off mod BSIZE) in
          d ← fdata bp;
          let bs := bytes_at d (off mod BSIZE) (Z.to_nat m) in
          r ← either_copyout dst bs;
          if r =? -1 then fbrelse bp;; mret (-1, got)
          else fbrelse bp;; readi_loop ip (dst_add dst m) (off + m) n (tot + m) (got ++ bs) k
    end
  else mret (tot, got).

(** Every round reads at least one byte. *)
Definition readi (ip : Z) (dst : iodst) (off n : Z) : M fsst (Z * list Z) :=
  size ← geti i_size ip;
  if (size <? off) || (u32 (off + n) <? off) then mret (0, [])
  else
    let n := if size <? u32 (off + n) then size - off else n in
    readi_loop ip dst off n 0 [] (Z.to_nat n).

(** Where [writei] takes data from: a user address, or an object of the kernel. *)
Inductive iosrc := FromUser (a : Z) | FromLocal (bs : list Z).

Definition src_add (s : iosrc) (m : Z) : iosrc :=
  match s with FromUser a => FromUser (a + m) | FromLocal bs => FromLocal (drop (Z.to_nat m) bs) end.

(** [either_copyin] of kernel/proc.c: the status and the bytes that were copied,
    which can be fewer than [len] when it fails. *)
Definition either_copyin (src : iosrc) (len : Z) : M fsst (Z * list Z) :=
  match src with
  | FromUser a => zoom mem_of (copyin upt (u64 a) len)
  | FromLocal bs => mret (0, take (Z.to_nat len) bs)
  end.

(** Returns the final [off] and [tot]. *)
Fixpoint writei_loop (ip : Z) (src : iosrc) (off n tot : Z) (k : nat) : M fsst (Z * Z) :=
  if tot <? n then
    match k with
    | O => diverge
    | S k =>
        addr ← bmap ip (off / BSIZE);
        if addr =? 0 then mret (off, tot)
        else
          dev ← geti i_dev ip;
          bp ← fbread dev addr;
          let m := Z.min (n - tot) (BSIZE - off mod BSIZE) in
          r ← either_copyin src m;
          d ← fdata bp;
          set_fdata bp (store_bytes d (off mod BSIZE) r.2);;
          if r.1 =? -1 then fbrelse bp;; mret (off, tot)
          else
            flog_write bp;;
            fbrelse bp;;
            writei_loop ip (src_add src m) (off + m) n (tot + m) k
    end
  else mret (off, tot).

Definition writei (ip : Z) (src : iosrc) (off n : Z) : M fsst Z :=
  size ← geti i_size ip;
  if (size <? off) || (u32 (off + n) <? off) then mret (-1)
  else if MAXFILE * BSIZE <? u32 (off + n) then mret (-1)
  else
    r ← writei_loop ip src off n 0 (Z.to_nat n);
    size ← geti i_size ip;
    when (size <? r.1) (seti ip (iset_size r.1));;
    iupdate ip;;
    mret r.2.

(** *** Directories *)

(** [strncmp] and [strncpy] on the characters of two arrays; what lies beyond
    the end of a list reads as NUL. *)
Fixpoint strncmp_chars (p q : list Z) (n : nat) : Z :=
  match n with
  | O => 0
  | S n =>
      let c := default 0 (head p) in
      let c' := default 0 (head q) in
      if negb (c =? 0) && (c =? c') then strncmp_chars (tail p) (tail q) n else c - c'
  end.

Fixpoint strncpy_chars (t : list Z) (n : nat) : list Z :=
  match n with
  | O => []
  | S n =>
      let c := default 0 (head t) in
      if c =? 0 then replicate (S n) 0 else c :: strncpy_chars (tail t) n
  end.

Definition namecmp (s t : list Z) : Z := strncmp_chars s t (Z.to_nat DIRSIZ).

(** [struct dirent] in its 16 bytes. *)
Definition de_inum (de : list Z) : Z := nth 0 de 0 + 256 * nth 1 de 0.

Definition de_name (de : list Z) : list Z := drop 2 de.

Definition dirent (inum : Z) (name : list Z) : list Z := [inum mod 256; inum / 256 mod 256] ++ name.

(** Returns the inode and the offset of its entry. *)
Fixpoint dirlookup_loop (dp : Z) (name : list Z) (off : Z) (k : nat) : M fsst (option (Z * Z)) :=
  size ← geti i_size dp;
  if off <? size then
    match k with
    | O => diverge
    | S k =>
        r ← readi dp ToLocal off DIRENT_SIZE;
        if negb (r.1 =? DIRENT_SIZE) then panic "dirlookup read"
        else if de_inum r.2 =? 0 then dirlookup_loop dp name (off + DIRENT_SIZE) k
        else if namecmp name (de_name r.2) =? 0 then
          dev ← geti i_dev dp;
          ip ← iget dev (de_inum r.2);
          mret (Some (ip, off))
        else dirlookup_loop dp name (off + DIRENT_SIZE) k
    end
  else mret None.

Definition dirlookup (dp : Z) (name : list Z) : M fsst (option (Z * Z)) :=
  x ← geti (fun x => x) dp;
  if negb (i_type x =? T_DIR) then panic "dirlookup not DIR"
  else dirlookup_loop dp name 0 (S (Z.to_nat (i_size x / DIRENT_SIZE))).

(** The search for an unused entry in [dirlink]. *)
Fixpoint dirlink_loop (dp off : Z) (k : nat) : M fsst Z :=
  size ← geti i_size dp;
  if off <? size then
    match k with
    | O => diverge
    | S k =>
        r ← readi dp ToLocal off DIRENT_SIZE;
        if negb (r.1 =? DIRENT_SIZE) then panic "dirlink read"
        else if de_inum r.2 =? 0 then mret off
        else dirlink_loop dp (off + DIRENT_SIZE) k
    end
  else mret off.

Definition dirlink (dp : Z) (name : list Z) (inum : Z) : M fsst Z :=
  r ← dirlookup dp name;
  match r with
  | Some (ip, _) => iput ip;; mret (-1)
  | None =>
      size ← geti i_size dp;
      off ← dirlink_loop dp 0 (S (Z.to_nat (size / DIRENT_SIZE)));
      let de := dirent (inum mod 2 ^ 16) (strncpy_chars name (Z.to_nat DIRSIZ)) in
      n ← writei dp (FromLocal de) off DIRENT_SIZE;
      if negb (n =? DIRENT_SIZE) then mret (-1) else mret 0
  end.
(** *** Paths

    A path is the list of its characters, without the NUL; [name] is an array of
    [DIRSIZ] characters. *)

Definition slash : Z := 47.

Fixpoint skip_slashes (path : list Z) : list Z :=
  match path with
  | c :: path' => if c =? slash then skip_slashes path' else path
  | [] => []
  end.

(** The element at the head of [path], and what follows it. *)
Fixpoint split_elem (path : list Z) : list Z * list Z :=
  match path with
  | c :: path' => if c =? slash then ([], path) else let r := split_elem path' in (c :: r.1, r.2)
  | [] => ([], [])
  end.

Definition skipelem (path name : list Z) : option (list Z * list Z) :=
  let path := skip_slashes path in
  match path with
  | [] => None
  | _ =>
      let '(s, path) := split_elem path in
      let len := length s in
      let name :=
        if DIRSIZ <=? Z.of_nat len then take (Z.to_nat DIRSIZ) s
        else s ++ [0] ++ drop (S len) name in
      Some (skip_slashes path, name)
  end.

(** Returns the inode and the last element copied to [name]. *)
Fixpoint namex_loop (ip : Z) (path : list Z) (nameiparent : bool) (name : list Z) (k : nat)
    : M fsst (option Z * list Z) :=
  match skipelem path name with
  | None =>
      if nameiparent then iput ip;; mret (None, name)
      else mret (Some ip, name)
  | Some (path, name) =>
      match k with
      | O => diverge
      | S k =>
          ilock (Some ip);;
          t ← geti i_type ip;
          if negb (t =? T_DIR) then iunlockput ip;; mret (None, name)
          else if nameiparent && bool_decide (path = []) then
            iunlock (Some ip);;
            mret (Some ip, name)
          else
            r ← dirlookup ip name;
            match r with
            | None => iunlockput ip;; mret (None, name)
            | Some (next, _) => iunlockput ip;; namex_loop next path nameiparent name k
            end
      end
  end.

(** A path has at most as many elements as characters. *)
Definition namex (path : list Z) (nameiparent : bool) (name : list Z) : M fsst (option Z * list Z) :=
  ip ←
    (if bool_decide (head path = Some slash) then iget ROOTDEV ROOTINO
     else idup cwd);
  namex_loop ip path nameiparent name (length path).

Definition namei (path : list Z) : M fsst (option Z) :=
  r ← namex path false (replicate (Z.to_nat DIRSIZ) 0);
  mret r.1.

Definition nameiparent (path : list Z) : M fsst (option Z * list Z) :=
  namex path true (replicate (Z.to_nat DIRSIZ) 0).
End fs.
