(* ===== verification/Mkfs.v ===== *)
(** * mkfs/mkfs.c: the program that makes the disk

    It runs on the host.  The image is a file of sectors, written in full at the
    beginning; the host is taken to be little-endian and to carry out its writes.
    [die] and a failed [assert] end the program with a message. *)

From S2P Require Import Prelude Machine Sleeplock Mem Layout Kalloc Vm Bio FsHdr Log Printf Fs.

Definition NINODES : Z := 200.

(** The image as sectors, how many there are, and the counters [freeinode] and
    [freeblock]. *)
Record mkst := Mkst { m_img : Z -> mem; m_nsec : Z; freeinode : Z; freeblock : Z }.

Inductive mkres (A : Type) := Done (s : mkst) (a : A) | Died (msg : string).
Arguments Done {A} s a.
Arguments Died {A} msg.

Definition Mk (A : Type) := mkst -> mkres A.

#[export] Instance mk_ret : MRet Mk := fun A a s => Done s a.
#[export] Instance mk_bind : MBind Mk := fun A B f m s =>
  match m s with Done s' a => f a s' | Died msg => Died msg end.

Definition die {A} (msg : string) : Mk A := fun _ => Died msg.

Definition assert_ (b : bool) : Mk unit := if b then mret tt else die "assert".

(** Conversion to the byte order of the disk. *)
Definition xshort (x : Z) : Z := ld_le 2 (st_le 2 ∅ 0 x) 0.
Definition xint (x : Z) : Z := ld_le 4 (st_le 4 ∅ 0 x) 0.

Definition nbitmap : Z := FSSIZE / (BSIZE * 8) + 1.
Definition ninodeblocks : Z := NINODES / IPB + 1.
Definition nlog : Z := LOGSIZE.
Definition nmeta : Z := 2 + nlog + ninodeblocks + nbitmap.
Definition nblocks : Z := FSSIZE - nmeta.

Definition mk_sb : superblock :=
  Superblock FSMAGIC (xint FSSIZE) (xint nblocks) (xint NINODES) (xint nlog) (xint 2)
    (xint (2 + nlog)) (xint (2 + nlog + ninodeblocks)).

(** The sector at byte offset [sec * BSIZE], an unsigned int. *)
Definition sector (sec : Z) : Z := u32 (sec * BSIZE) / BSIZE.

Definition wsect (sec : Z) (buf : mem) : Mk unit := fun s =>
  Done (Mkst (fun n => if n =? sector sec then buf else m_img s n) (Z.max (m_nsec s) (sector sec + 1))
          (freeinode s) (freeblock s)) tt.

Definition rsect (sec : Z) : Mk mem := fun s =>
  if sector sec <? m_nsec s then Done s (m_img s (sector sec)) else Died "read".

(** [struct dinode] is represented by the corresponding fields of an inode. *)
Definition blank : inode := Inode ROOTDEV 0 0 (Sleeplock 0 "" 0) false 0 0 0 0 0 ∅.

Definition winode (inum : Z) (ip : inode) : Mk unit :=
  let bn := IBLOCK inum mk_sb in
  buf ← rsect bn;
  wsect bn (dinode_write ip buf (dinode_off inum)).

Definition rinode (inum : Z) : Mk inode :=
  buf ← rsect (IBLOCK inum mk_sb);
  mret (dinode_read buf (dinode_off inum) blank).

Definition mk_ialloc (type : Z) : Mk Z := fun s =>
  let inum := freeinode s in
  (winode inum (iset_fields (xshort type) 0 0 (xshort 1) (xint 0) ∅ blank);; mret inum)
    (Mkst (m_img s) (m_nsec s) (u32 (freeinode s + 1)) (freeblock s)).

Fixpoint set_bits (buf : mem) (i : Z) (k : nat) : mem :=
  match k with
  | O => buf
  | S k => set_bits (st8 buf (i / 8) (Z.lor (ld8 buf (i / 8)) (Z.shiftl 1 (i mod 8)))) (i + 1) k
  end.

Definition mk_balloc (used : Z) : Mk unit :=
  assert_ (used <? BSIZE * 8);;
  wsect (sb_bmapstart mk_sb) (set_bits zero_block 0 (Z.to_nat used)).

(** [freeblock++]. *)
Definition next_block : Mk Z := fun s =>
  Done (Mkst (m_img s) (m_nsec s) (freeinode s) (u32 (freeblock s + 1))) (freeblock s).

(** The block number [x] of block [fbn] of the file, in [iappend]. *)
Definition append_block (din : inode) (fbn : Z) : Mk (inode * Z) :=
  if fbn <? NDIRECT then
    din ←
      (if xint (iaddr din fbn) =? 0 then b ← next_block; mret (iset_addr fbn (xint b) din)
       else mret din);
    mret (din, xint (iaddr din fbn))
  else
    din ←
      (if xint (iaddr din NDIRECT) =? 0 then b ← next_block; mret (iset_addr NDIRECT (xint b) din)
       else mret din);
    indirect ← rsect (xint (iaddr din NDIRECT));
    indirect ←
      (if ld32 indirect (4 * (fbn - NDIRECT)) =? 0 then
         b ← next_block;
         let indirect := st32 indirect (4 * (fbn - NDIRECT)) (xint b) in
         wsect (xint (iaddr din NDIRECT)) indirect;;
         mret indirect
       else mret indirect);
    mret (din, xint (ld32 indirect (4 * (fbn - NDIRECT)))).

Fixpoint iappend_loop (din : inode) (off : Z) (p : list Z) (k : nat) : Mk (inode * Z) :=
  match k with
  | O => mret (din, off)
  | S k =>
      if 0 <? Z.of_nat (length p) then
        let fbn := off / BSIZE in
        assert_ (fbn <? MAXFILE);;
        dx ← append_block din fbn;
        let n1 := Z.min (Z.of_nat (length p)) ((fbn + 1) * BSIZE - off) in
        buf ← rsect dx.2;
        wsect dx.2 (store_bytes buf (off - fbn * BSIZE) (take (Z.to_nat n1) p));;
        iappend_loop dx.1 (off + n1) (drop (Z.to_nat n1) p) k
      else mret (din, off)
  end.

(** Every round appends at least one byte. *)
Definition iappend (inum : Z) (p : list Z) : Mk unit :=
  din ← rinode inum;
  r ← iappend_loop din (xint (i_size din)) p (length p);
  winode inum (iset_size (xint r.2) r.1).

(** ** [main] *)

(** [for(i = 0; i < FSSIZE; i++) wsect(i, zeroes)]. *)
Fixpoint zero_all (i : Z) (k : nat) : Mk unit :=
  match k with
  | O => mret tt
  | S k => wsect i zero_block;; zero_all (i + 1) k
  end.

Definition sb_block (sb : superblock) : mem :=
  st32 (st32 (st32 (st32 (st32 (st32 (st32 (st32 zero_block 0 (sb_magic sb)) 4 (sb_size sb)) 8 (sb_nblocks sb))
    12 (sb_ninodes sb)) 16 (sb_nlog sb)) 20 (sb_logstart sb)) 24 (sb_inodestart sb)) 28 (sb_bmapstart sb).

Definition mk_dirent (inum : Z) (name : list Z) : list Z :=
  dirent (xshort inum) (strncpy_chars name (Z.to_nat DIRSIZ)).

Fixpoint append_all (inum : Z) (chunks : list (list Z)) : Mk unit :=
  match chunks with
  | [] => mret tt
  | c :: chunks => iappend inum c;; append_all inum chunks
  end.

(** The name in the file system: without "user/", and without a leading "_". *)
Definition shortname (arg : list Z) : list Z :=
  if strncmp_chars arg (bytes "user/") 5 =? 0 then drop 5 arg else arg.

Definition skip_underscore (name : list Z) : list Z :=
  match name with 95 :: name' => name' | _ => name end.

(** [host] is what opening a file of the host and reading it gives: the pieces
    that [read] returns, or no file. *)
Fixpoint add_files (host : list Z -> option (list (list Z))) (rootino : Z) (args : list (list Z)) : Mk unit :=
  match args with
  | [] => mret tt
  | arg :: args =>
      assert_ (bool_decide (slash ∉ shortname arg));;
      match host arg with
      | None => die "open"
      | Some chunks =>
          inum ← mk_ialloc T_FILE;
          iappend rootino (mk_dirent inum (skip_underscore (shortname arg)));;
          append_all inum chunks;;
          add_files host rootino args
      end
  end.

Definition fix_root (rootino : Z) : Mk unit :=
  din ← rinode rootino;
  let off := xint (i_size din) in
  let off := u32 ((off / BSIZE + 1) * BSIZE) in
  winode rootino (iset_size (xint off) din).

(** [balloc(freeblock)]. *)
Definition finish : Mk unit := fun s => mk_balloc (freeblock s) s.

Definition mk_body (host : list Z -> option (list (list Z))) (args : list (list Z)) : Mk unit :=
  zero_all 0 (Z.to_nat FSSIZE);;
  wsect 1 (sb_block mk_sb);;
  rootino ← mk_ialloc T_DIR;
  assert_ (rootino =? ROOTINO);;
  iappend rootino (mk_dirent rootino (bytes "."));;
  iappend rootino (mk_dirent rootino (bytes ".."));;
  add_files host rootino args;;
  fix_root rootino;;
  finish.

(** [argv] includes the name of the program and of the image. *)
Definition mkfs_main (host : list Z -> option (list (list Z))) (argv : list (list Z)) : mkres unit :=
  if Z.of_nat (length argv) <? 2 then Died "Usage: mkfs fs.img files..."
  else mk_body host (drop 2 argv) (Mkst (fun _ => ∅) 0 1 nmeta).
