(* ===== verification/FsLogic.v ===== *)
(** * A logic for file-system code on top of the log

    Code of kernel/fs.c is described by what it does to the blocks as the log's
    client sees them ([lspec] of file LogTheorems), to the inode table and to
    memory: a run from any state of log and buffer cache that stands for these
    returns, in a state that stands for the described ones. *)

From S2P Require Import Prelude Machine Sleeplock Mem Layout Kalloc Vm VmCopy Bio BioInv BioSpec BioRefine FsHdr Log LogDisk LogSpec LogCommit LogRun LogOps LogTheorems Printf Fs.

(** The state of fs.c without the log. *)
Record fsx := Fsx { x_mem : kmem; x_sb : superblock; x_it : gmap Z inode }.

Definition fs_with (x : fsx) (l : logst) : fsst := Fsst (x_mem x) (x_sb x) (x_it x) l.

(** ** Changes of the specification state *)

Definition ls_hold (n : Z) (p : lspec) : lspec :=
  Lspec (ls_view p) (ls_disk p) (ls_log p) ({[n]} ∪ ls_held p) (ls_out p).

Definition ls_drop (n : Z) (p : lspec) : lspec :=
  Lspec (ls_view p) (ls_disk p) (ls_log p) (ls_held p ∖ {[n]}) (ls_out p).

Definition ls_put (n : Z) (d : mem) (p : lspec) : lspec :=
  Lspec (fun m => if m =? n then d else ls_view p m) (ls_disk p) (ls_log p) (ls_held p) (ls_out p).

Definition ls_mark (n : Z) (p : lspec) : lspec :=
  Lspec (ls_view p) (ls_disk p) (if decide (n ∈ ls_log p) then ls_log p else ls_log p ++ [n]) (ls_held p) (ls_out p).

(** What a state of the log always satisfies. *)
Record lok (start size : Z) (p : lspec) : Prop := {
  lok_blk n : home start size n -> is_blk (ls_view p n);
  lok_hdr : hdr_ok start size (ls_log p);
  lok_clean n : home start size n -> n ∉ ls_held p -> n ∉ ls_log p -> ls_view p n = ls_disk p n }.

Definition ino (x : fsx) (ip : Z) : inode := default inode0 (x_it x !! ip).

Definition x_seti (ip : Z) (f : inode -> inode) (x : fsx) : fsx :=
  Fsx (x_mem x) (x_sb x) (alter f ip (x_it x)).

Section logic.
Context (rw : Z -> bool -> M bcache unit) `{!DiskDriver rw} (pid : Z) (fuel : nat) (start size : Z).

Definition fwp {A} (m : M fsst A) (Q : A -> fsx -> gmap Z Z -> lspec -> Prop) (x : fsx) (t : gmap Z Z) (p : lspec) : Prop :=
  forall l a w s, lsim start size t p l a -> held w = [] -> rep pid s a ->
  exists w' s' l' a' x' t' p' v, m w (fs_with x (set_bc s l)) = Ret w' (fs_with x' (set_bc s' l')) v /\
    held w' = [] /\ rep pid s' a' /\ (lsim start size t' p' l' a' /\ a_hist a' = a_hist a) /\ Q v x' t' p'.

Lemma fwp_ret {A} (v : A) Q x t p : Q v x t p -> fwp (mret v) Q x t p.
Proof. intros H l a w s S Hw R. by exists w, s, l, a, x, t, p, v. Qed.

Lemma fwp_bind {A B} (m : M fsst A) (f : A -> M fsst B) Q x t p :
  fwp m (fun v x' t' p' => fwp (f v) Q x' t' p') x t p -> fwp (m ≫= f) Q x t p.
Proof.
  intros H l a w s S Hw R. destruct (H l a w s S Hw R) as (w1 & s1 & l1 & a1 & x1 & t1 & p1 & v & Hrun & Hw1 & R1 & [S1 <-] & H1).
  run_step Hrun. by apply (H1 l1 a1).
Qed.

Lemma fwp_mono {A} (m : M fsst A) (Q Q' : A -> fsx -> gmap Z Z -> lspec -> Prop) x t p :
  fwp m Q x t p -> (forall v x' t' p', Q v x' t' p' -> Q' v x' t' p') -> fwp m Q' x t p.
Proof.
  intros H HQ l a w s S Hw R. destruct (H l a w s S Hw R) as (w1 & s1 & l1 & a1 & x1 & t1 & p1 & v & Hrun & Hw1 & R1 & S1 & H1).
  exists w1, s1, l1, a1, x1, t1, p1, v. destruct S1. split_and!; auto.
Qed.

(** What holds of every state. *)
Lemma fwp_lok {A} (m : M fsst A) Q x t p : (lok start size p -> fwp m Q x t p) -> fwp m Q x t p.
Proof.
  intros H l a w s S. apply H; [|exact S]. split.
  - intros n Hn. rewrite <-(lm_view _ _ _ _ _ _ S n Hn). apply S.
  - apply S.
  - intros n Hn Hh Hl. rewrite <-(lm_view _ _ _ _ _ _ S n Hn), <-(lm_committed _ _ _ _ _ _ S n Hn).
    by apply (lm_clean _ _ _ _ _ _ S).
Qed.

Lemma fwp_gets {A} (g : fsst -> A) v Q x t p :
  (forall l, g (fs_with x l) = v) -> Q v x t p -> fwp (gets g) Q x t p.
Proof. intros Hg H l a w s S Hw R. exists w, s, l, a, x, t, p, v. unfold gets. by rewrite Hg. Qed.

Lemma fwp_modify (f : fsst -> fsst) x' Q x t p :
  (forall l, f (fs_with x l) = fs_with x' l) -> Q tt x' t p -> fwp (modify f) Q x t p.
Proof. intros Hf H l a w s S Hw R. exists w, s, l, a, x', t, p, tt. unfold modify. by rewrite Hf. Qed.

Lemma fwp_geti {A} (f : inode -> A) ip Q x t p : Q (f (ino x ip)) x t p -> fwp (geti f ip) Q x t p.
Proof. by apply fwp_gets. Qed.

Lemma fwp_seti ip f Q x t p : Q tt (x_seti ip f x) t p -> fwp (seti ip f) Q x t p.
Proof. by apply fwp_modify. Qed.

Lemma fwp_printf fmt args Q x t p : Q tt x t p -> fwp (printf true fmt args) Q x t p.
Proof.
  intros H l a w s S Hw R. destruct (prints_printf fmt args w (fs_with x (set_bc s l))) as (w' & Hrun & Hw');
    [rewrite Hw; apply not_elem_of_nil|rewrite Hw in Hw'].
  by exists w', s, l, a, x, t, p, tt.
Qed.

(** Code of the log and of the buffer cache. *)
Lemma fwp_log {A} (m : M logst A) (Q : A -> fsx -> gmap Z Z -> lspec -> Prop) x t p :
  (forall l a, lsim start size t p l a ->
     wp pid m (fun v l' a' => exists t' p', (lsim start size t' p' l' a' /\ a_hist a' = a_hist a) /\ Q v x t' p') l a) ->
  fwp (zoom log_of m) Q x t p.
Proof.
  intros H l a w s S Hw R. destruct (H l a S w s Hw R) as (w' & s' & l' & a' & v & Hrun & Hw' & R' & t' & p' & S' & HQ).
  exists w', s', l', a', x, t', p', v. split; [|done]. by erewrite zoom_ret by (simpl; exact Hrun).
Qed.

Lemma fwp_fbread n (Q : Z -> fsx -> gmap Z Z -> lspec -> Prop) x t p :
  home start size n -> n ∉ ls_held p ->
  Z.of_nat (base.size (list_to_set (ls_log p) ∪ ls_held p)) < NBUF ->
  (forall b, Q b x (<[n := b]> t) (ls_hold n p)) -> fwp (fbread rw pid fuel ROOTDEV n) Q x t p.
Proof.
  intros Hh Hn Hroom HQ. apply fwp_log. intros l a S. apply wp_zoom. intros w s Hw R.
  assert (Hc : can_bread a n).
  { unfold can_bread. destruct (decide (n ∈ ls_log p)) as [Hl|Hl].
    + destruct (lm_pin _ _ _ _ _ _ S n Hn Hl) as [b ->]. done.
    + rewrite (lm_free _ _ _ _ _ _ S n Hn Hl). by rewrite (lsim_size rw pid _ _ _ _ _ _ S). }
  destruct (bread_rep rw pid fuel w s a n Hw R (proj1 Hh) Hc) as (s' & b & r & Hrun & He & R').
  exists w, s', (a_set_refs n (b, r, true) a), b. split_and!; try done.
  exists (<[n := b]> t), (ls_hold n p). split; [split; [|done]|done]. apply (lsim_read rw); try done.
  unfold bread_entry in He. destruct (decide (n ∈ ls_log p)) as [Hl|Hl].
  + destruct (lm_pin _ _ _ _ _ _ S n Hn Hl) as [b' Hb']. rewrite Hb' in He. by injection He.
  + rewrite (lm_free _ _ _ _ _ _ S n Hn Hl) in He. by injection He.
Qed.

Lemma fwp_fdata n b (Q : mem -> fsx -> gmap Z Z -> lspec -> Prop) x t p :
  n ∈ ls_held p -> ptr t n = b -> Q (ls_view p n) x t p -> fwp (fdata b) Q x t p.
Proof.
  intros Hn <- HQ. apply fwp_log. intros l a S. pose proof (lm_held _ _ _ _ _ _ S n Hn) as He.
  eapply (wp_ldata _ n); [done|]. exists t, p. split; [done|].
  rewrite (lm_view _ _ _ _ _ _ S); [done|by apply (lm_home _ _ _ _ _ _ S)].
Qed.

Lemma fwp_set_fdata n b d (Q : unit -> fsx -> gmap Z Z -> lspec -> Prop) x t p :
  n ∈ ls_held p -> ptr t n = b -> is_blk d -> Q tt x t (ls_put n d p) -> fwp (set_fdata b d) Q x t p.
Proof.
  intros Hn <- Hd HQ. apply fwp_log. intros l a S. pose proof (lm_held _ _ _ _ _ _ S n Hn) as He.
  eapply (wp_set_ldata _ n); [done|]. exists t, (ls_put n d p). split; [split; [|done]|done].
  split; try apply S; simpl.
  - intros m. destruct (m =? n); [done|apply (lm_blk _ _ _ _ _ _ S)].
  - intros m Hm. destruct (m =? n); [done|by apply (lm_view _ _ _ _ _ _ S)].
  - intros m Hm Hl. rewrite (proj2 (Z.eqb_neq _ _)) by (by intros ->). by apply (lm_clean _ _ _ _ _ _ S).
Qed.

Lemma fwp_lop o p' out n (m : M logst unit) (Q : unit -> fsx -> gmap Z Z -> lspec -> Prop) x t p :
  lspec_op start size o p = Some (p', out) ->
  (o = LWrite n /\ m = log_write (ptr t n) \/ o = LRelse n /\ m = lbrelse pid (ptr t n)) ->
  Q tt x t p' -> fwp (zoom log_of m) Q x t p.
Proof.
  intros Ho Hm HQ. apply fwp_log. intros l a S.
  assert (H : wp pid m (fun _ l' a' => lsim start size t p' l' a' /\ a_hist a' = a_hist a /\ out = []) l a).
  { destruct Hm as [[-> ->]|[-> ->]]; [by eapply sim_write|by eapply sim_relse]. }
  eapply wp_mono; [exact H|]. intros [] l' a' (S' & Hh & _). by eauto 10.
Qed.

Lemma fwp_log_write n b (Q : unit -> fsx -> gmap Z Z -> lspec -> Prop) x t p :
  n ∈ ls_held p -> ptr t n = b -> 1 <= ls_out p -> Z.of_nat (length (ls_log p)) < LOGSIZE ->
  Z.of_nat (length (ls_log p)) < size - 1 -> Q tt x t (ls_mark n p) -> fwp (flog_write b) Q x t p.
Proof.
  intros Hn <- Ho H1 H2 HQ. eapply (fwp_lop (LWrite n)); [simpl; by rewrite decide_True|by left|exact HQ].
Qed.

Lemma fwp_fbrelse n b (Q : unit -> fsx -> gmap Z Z -> lspec -> Prop) x t p :
  n ∈ ls_held p -> ptr t n = b -> n ∈ ls_log p \/ ls_view p n = ls_disk p n ->
  Q tt x t (ls_drop n p) -> fwp (fbrelse pid b) Q x t p.
Proof.
  intros Hn <- Hc HQ. eapply (fwp_lop (LRelse n)); [simpl; by rewrite decide_True|by right|exact HQ].
Qed.
End logic.
