(* ===== verification/FsBitmap.v ===== *)
(** * kernel/fs.c: the free-block bitmap

    [balloc] and [bfree] on the disk layout that mkfs makes: log, inodes, one
    bitmap block, data blocks. *)

From S2P Require Import Prelude Machine Sleeplock Mem Layout Kalloc Vm VmCopy Bio BioInv BioSpec BioRefine FsHdr Log LogDisk LogSpec LogCommit LogRun LogOps LogTheorems Printf Fs FsLogic.

(** ** Bits *)

Lemma bit_clear a k : 0 <= k -> (Z.land a (Z.shiftl 1 k) =? 0) = negb (Z.testbit a k).
Proof.
  intros Hk. assert (E : Z.land a (Z.shiftl 1 k) = if Z.testbit a k then Z.shiftl 1 k else 0).
  { apply Z.bits_inj'. intros n Hn. rewrite Z.land_spec, Z.shiftl_1_l, Z.pow2_bits_eqb by lia.
    destruct (Z.eqb_spec k n) as [->|Hne].
    - rewrite andb_true_r. destruct (Z.testbit a n) eqn:E; [by rewrite Z.pow2_bits_true|by rewrite Z.bits_0].
    - rewrite andb_false_r. destruct (Z.testbit a k); [by rewrite Z.pow2_bits_false|by rewrite Z.bits_0]. }
  rewrite E. destruct (Z.testbit a k); [|done]. apply Z.eqb_neq.
  rewrite Z.shiftl_1_l. pose proof (Z.pow_pos_nonneg 2 k). lia.
Qed.

(** A byte stays a byte when a bit is set or cleared. *)
Lemma byte_bits a : (forall n, 8 <= n -> Z.testbit a n = false) -> 0 <= a -> a < 256.
Proof.
  intros H Ha. destruct (Z.eq_dec a 0) as [->|Hne]; [lia|].
  change 256 with (2 ^ 8). apply Z.log2_lt_pow2; [lia|].
  destruct (Z_lt_le_dec (Z.log2 a) 8) as [?|Hl]; [done|].
  specialize (H _ Hl). rewrite Z.bit_log2 in H by lia. done.
Qed.

Lemma byte_lor a k : 0 <= a < 256 -> 0 <= k < 8 -> 0 <= Z.lor a (Z.shiftl 1 k) < 256.
Proof.
  intros Ha Hk. assert (0 <= Z.shiftl 1 k) by (apply Z.shiftl_nonneg; lia).
  split; [apply Z.lor_nonneg; lia|]. apply byte_bits; [|apply Z.lor_nonneg; lia].
  intros n Hn. rewrite Z.lor_spec, Z.shiftl_1_l, Z.pow2_bits_false by lia.
  by rewrite (testbit_high a 8 n) by lia.
Qed.

Lemma byte_clear a k : 0 <= a < 256 -> 0 <= Z.land a (Z.lnot (Z.shiftl 1 k)) < 256.
Proof.
  intros Ha. split; [apply Z.land_nonneg; lia|]. apply byte_bits; [|apply Z.land_nonneg; lia].
  intros n Hn. rewrite Z.land_spec. by rewrite (testbit_high a 8 n) by lia.
Qed.

(** ** The bitmap *)

Definition bit_of (d : mem) (n : Z) : bool := Z.testbit (ld8 d (n / 8)) (n mod 8).

Lemma ld8_byte d i : mem_ok d -> 0 <= ld8 d i < 256.
Proof. auto. Qed.

(** Blocks whose bits are in the same byte. *)
Lemma same_bit n m : n / 8 = m / 8 -> n mod 8 = m mod 8 -> n = m.
Proof. intros H1 H2. rewrite (Z.div_mod n 8), (Z.div_mod m 8) by lia. lia. Qed.

Lemma bit_of_set d n m : mem_ok d ->
  bit_of (st8 d (n / 8) (Z.lor (ld8 d (n / 8)) (Z.shiftl 1 (n mod 8)))) m = (m =? n) || bit_of d m.
Proof.
  intros Hd. unfold bit_of. pose proof (Z.mod_pos_bound n 8). pose proof (Z.mod_pos_bound m 8).
  destruct (decide (n / 8 = m / 8)) as [E|E].
  - rewrite E, ld8_st8_eq, u8_small by (apply byte_lor; [by apply ld8_byte|lia]).
    rewrite Z.lor_spec, Z.shiftl_1_l, Z.pow2_bits_eqb, orb_comm by lia. f_equal.
    destruct (Z.eqb_spec m n) as [->|Hne]; [by rewrite Z.eqb_refl|].
    apply Z.eqb_neq. intros E'. apply Hne. symmetry. by apply same_bit.
  - rewrite ld8_st8_ne by done. destruct (Z.eqb_spec m n) as [->|Hne]; [done|done].
Qed.

Lemma bit_of_clear d n m : mem_ok d ->
  bit_of (st8 d (n / 8) (Z.land (ld8 d (n / 8)) (Z.lnot (Z.shiftl 1 (n mod 8))))) m =
  negb (m =? n) && bit_of d m.
Proof.
  intros Hd. unfold bit_of. pose proof (Z.mod_pos_bound n 8). pose proof (Z.mod_pos_bound m 8).
  destruct (decide (n / 8 = m / 8)) as [E|E].
  - rewrite E, ld8_st8_eq, u8_small by (apply byte_clear; by apply ld8_byte).
    rewrite Z.land_spec, Z.lnot_spec, Z.shiftl_1_l, Z.pow2_bits_eqb, andb_comm by lia. f_equal. f_equal.
    destruct (Z.eqb_spec m n) as [->|Hne]; [by rewrite Z.eqb_refl|].
    apply Z.eqb_neq. intros E'. apply Hne. symmetry. by apply same_bit.
  - rewrite ld8_st8_ne by done. destruct (Z.eqb_spec m n) as [->|Hne]; [done|done].
Qed.

(** The scan finds the first clear bit. *)
Lemma balloc_scan_spec d b size k : forall bi, 0 <= bi ->
  match balloc_scan d b size bi k with
  | Some r => bi <= r < bi + Z.of_nat k /\ b + r < size /\ bit_of d r = false /\ (forall j, bi <= j < r -> bit_of d j = true)
  | None => forall j, bi <= j < bi + Z.of_nat k -> b + j < size -> bit_of d j = true
  end.
Proof.
  induction k as [|k IH]; intros bi Hbi; cbn [balloc_scan]; [intros j; lia|].
  destruct (Z.ltb_spec (b + bi) size) as [Hlt|Hge]; [|intros j; lia].
  rewrite bit_clear by (apply Z.mod_pos_bound; lia). fold (bit_of d bi).
  destruct (bit_of d bi) eqn:E; simpl negb; cbv iota.
  - specialize (IH (bi + 1) ltac:(lia)). destruct (balloc_scan d b size (bi + 1) k) as [r|].
    + destruct IH as (H1 & H2 & H3 & H4). split_and!; try done; try lia.
      intros j Hj. destruct (decide (j = bi)) as [->|]; [done|]. apply H4. lia.
    + intros j Hj Hs. destruct (decide (j = bi)) as [->|]; [done|]. apply IH; lia.
  - split_and!; try done; try lia.
Qed.

(** ** The layout of the disk *)

(** What mkfs writes in the superblock: the log, then the inodes, one bitmap
    block (the disk has at most [BPB] blocks), and the data blocks. *)
Record layout (start size : Z) (sb : superblock) : Prop := {
  ly_start : 0 <= start /\ 1 < size;
  ly_log : start + size <= sb_inodestart sb;
  ly_inodes : 0 <= sb_ninodes sb /\ sb_inodestart sb + sb_ninodes sb / IPB < sb_bmapstart sb;
  ly_size : sb_bmapstart sb < sb_size sb <= BPB;
  ly_magic : sb_magic sb = FSMAGIC }.

Definition data_block (sb : superblock) (n : Z) : Prop := sb_bmapstart sb < n < sb_size sb.

Definition used (sb : superblock) (v : Z -> mem) (n : Z) : bool := bit_of (v (sb_bmapstart sb)) n.

(** Boot block, superblock, log, inodes and bitmap are marked as used. *)
Definition meta_used (sb : superblock) (v : Z -> mem) : Prop :=
  forall n, 0 <= n <= sb_bmapstart sb -> used sb v n = true.

Definition log_add (n : Z) (l : list Z) : list Z := if decide (n ∈ l) then l else l ++ [n].

Definition lenL (p : lspec) : Z := Z.of_nat (length (ls_log p)).

Definition absent (n : Z) (l : list Z) : Z := if decide (n ∈ l) then 0 else 1.

Lemma log_add_length n l : Z.of_nat (length (log_add n l)) = Z.of_nat (length l) + absent n l.
Proof. unfold log_add, absent. case_decide; [lia|]. rewrite length_app. simpl. lia. Qed.

Lemma log_add_In n m l : m ∈ log_add n l <-> m = n \/ m ∈ l.
Proof.
  unfold log_add. case_decide; [|rewrite elem_of_app, list_elem_of_singleton; tauto].
  split; [by right|]. by intros [->|].
Qed.

Lemma absent_range n l : 0 <= absent n l <= 1.
Proof. unfold absent. case_decide; lia. Qed.

Lemma absent_In n l : n ∈ l -> absent n l = 0.
Proof. intros. unfold absent. by rewrite decide_True. Qed.

Lemma pins_bound l (h : gset Z) :
  Z.of_nat (base.size ((list_to_set l : gset Z) ∪ h)) <= Z.of_nat (length l) + Z.of_nat (base.size h).
Proof.
  induction l as [|n l IH]; simpl.
  - replace ((∅ : gset Z) ∪ h) with h by set_solver. lia.
  - replace ({[n]} ∪ list_to_set l ∪ h) with ({[n]} ∪ (list_to_set l ∪ h)) by set_solver.
    pose proof (size_union_alt {[n]} (list_to_set l ∪ h : gset Z)) as E. rewrite size_singleton in E.
    assert (base.size ((list_to_set l ∪ h) ∖ {[n]} : gset Z) <= base.size (list_to_set l ∪ h : gset Z))%nat.
    { apply subseteq_size. set_solver. }
    lia.
Qed.

Lemma hold_drop n h : n ∉ h -> ({[n]} ∪ h) ∖ {[n]} = (h : gset Z).
Proof. intros. set_solver. Qed.

Section layout.
Context {start size : Z} {sb : superblock} (L : layout start size sb).

Lemma ipb_pos : 0 < IPB.
Proof. done. Qed.

Lemma layout_home n : sb_inodestart sb <= n < sb_size sb -> home start size n.
Proof.
  intros Hn. destruct L as [[] ? [] [] ?]. unfold home. unfold BPB, BSIZE in *. lia.
Qed.

Lemma inodes_before : sb_inodestart sb < sb_bmapstart sb.
Proof. destruct L as [_ _ [H1 H2] _ _]. pose proof (Z.div_pos _ _ H1 ipb_pos). lia. Qed.

Lemma bmap_home : home start size (sb_bmapstart sb).
Proof. pose proof inodes_before. apply layout_home. destruct L as [_ _ _ Hs _]. lia. Qed.

Lemma data_home n : data_block sb n -> home start size n.
Proof. pose proof inodes_before. unfold data_block. intros. apply layout_home. lia. Qed.

Lemma BBLOCK_one b : 0 <= b < sb_size sb -> BBLOCK b sb = sb_bmapstart sb.
Proof.
  intros Hb. pose proof inodes_before. destruct L as [[] ? ? [] ?].
  unfold BBLOCK. rewrite (Z.div_small b) by lia. apply u32_small. unfold BPB, BSIZE in *. lia.
Qed.

Lemma IBLOCK_home i : 0 <= i < sb_ninodes sb -> sb_inodestart sb <= IBLOCK i sb < sb_bmapstart sb.
Proof.
  intros Hi. destruct L as [[] ? [] [] ?]. unfold IBLOCK.
  pose proof (Z.div_pos i IPB ltac:(lia) ipb_pos).
  pose proof (Z.div_le_mono i (sb_ninodes sb) IPB ipb_pos ltac:(lia)).
  rewrite u32_small; unfold BPB, BSIZE in *; lia.
Qed.
End layout.

Lemma memset_zero d : is_blk d -> memset d 0 0 BSIZE = zero_block.
Proof.
  intros Hd. assert (Hm : is_blk (memset d 0 0 BSIZE)).
  { unfold memset. assert (H : forall k m i, is_blk m -> 0 <= i -> i + Z.of_nat k <= BSIZE -> is_blk (memset_loop m 0 0 i k)).
    { induction k as [|k IH]; intros m i Hm Hi Hk; simpl; [done|]. apply IH; [apply is_blk_st8; [done|lia]|lia|lia]. }
    apply H; [done|lia|by rewrite BSIZE_nat]. }
  apply blk_eq; [done|apply is_blk_zero|]. intros i Hi.
  unfold zero_block. rewrite !ld8_memset. rewrite !decide_True by (unfold BSIZE in *; lia). done.
Qed.

(** ** Blocks read, changed and logged *)

Definition ls_update (n : Z) (d : mem) (p : lspec) : lspec :=
  Lspec (fun m => if m =? n then d else ls_view p m) (ls_disk p) (log_add n (ls_log p)) (ls_held p) (ls_out p).

Lemma ls_update_view n d p m : m <> n -> ls_view (ls_update n d p) m = ls_view p m.
Proof. intros. simpl. by rewrite (proj2 (Z.eqb_neq _ _)). Qed.

Lemma ls_update_view_eq n d p : ls_view (ls_update n d p) n = d.
Proof. simpl. by rewrite Z.eqb_refl. Qed.

(** The transaction can take [k] more blocks. *)
Definition room (size k : Z) (p : lspec) : Prop :=
  1 <= ls_out p /\ lenL p + k < NBUF - 1 /\ lenL p + k < size - 1.

Lemma room_le size k k' p : k' <= k -> room size k p -> room size k' p.
Proof. unfold room. lia. Qed.

Lemma room_update size k n d p : room size (k + absent n (ls_log p)) p -> room size k (ls_update n d p).
Proof. unfold room, lenL. simpl. rewrite log_add_length. lia. Qed.

Lemma ls_drop_hold n p : n ∉ ls_held p -> ls_drop n (ls_hold n p) = p.
Proof. destruct p. intros H. unfold ls_drop, ls_hold. simpl in *. by rewrite hold_drop. Qed.

Lemma ls_save n d p : n ∉ ls_held p -> ls_drop n (ls_mark n (ls_put n d (ls_hold n p))) = ls_update n d p.
Proof. intros Hn. unfold ls_update, ls_drop, ls_mark, ls_put, ls_hold. simpl. by rewrite hold_drop. Qed.

Lemma hold_held n p : n ∈ ls_held (ls_hold n p).
Proof. set_solver. Qed.

Section blocks.
Context (rw : Z -> bool -> M bcache unit) `{!DiskDriver rw} (pid : Z) (fuel : nat) (start size : Z).

Notation fwp := (fwp pid start size).

Lemma fwp_read {B} n (f : Z -> M fsst B) Q x t p :
  home start size n -> n ∉ ls_held p -> (base.size (ls_held p) <= 1)%nat -> lenL p < NBUF - 1 ->
  (forall b t', ptr t' n = b -> (forall m, m <> n -> ptr t' m = ptr t m) -> fwp (f b) Q x t' (ls_hold n p)) ->
  fwp (fbread rw pid fuel ROOTDEV n ≫= f) Q x t p.
Proof.
  intros Hh Hn Hs Hl HQ. apply fwp_bind, (fwp_fbread rw); [done|done| |].
  - pose proof (pins_bound (ls_log p) (ls_held p)). unfold lenL in Hl. lia.
  - intros b. apply HQ; [apply ptr_eq|]. intros m Hm. by apply ptr_ne.
Qed.

(** The data of a buffer that has just been read. *)
Lemma fwp_data {B} n b (f : mem -> M fsst B) Q x t p :
  ptr t n = b -> fwp (f (ls_view p n)) Q x t (ls_hold n p) -> fwp (fdata b ≫= f) Q x t (ls_hold n p).
Proof using Type. intros Hb HQ. apply fwp_bind, (fwp_fdata _ _ _ n); [apply hold_held|exact Hb|exact HQ]. Qed.

Lemma fwp_release n b (Q : unit -> fsx -> gmap Z Z -> lspec -> Prop) x t p :
  ptr t n = b -> n ∉ ls_held p -> n ∈ ls_log p \/ ls_view p n = ls_disk p n ->
  Q tt x t p -> fwp (fbrelse pid b) Q x t (ls_hold n p).
Proof.
  intros Hb Hn Hc HQ. apply (fwp_fbrelse rw pid _ _ n); [set_solver|done|done|]. by rewrite ls_drop_hold.
Qed.

(** [bp->data = d; log_write(bp); brelse(bp)]. *)
Lemma fwp_save n b d (Q : unit -> fsx -> gmap Z Z -> lspec -> Prop) x t p :
  ptr t n = b -> n ∉ ls_held p -> room size 0 p -> is_blk d -> Q tt x t (ls_update n d p) ->
  fwp (set_fdata b d;; flog_write b;; fbrelse pid b) Q x t (ls_hold n p).
Proof.
  intros Hb Hn (Ho & H1 & H2) Hd HQ. unfold lenL, NBUF in *.
  apply fwp_bind, (fwp_set_fdata _ _ _ n); [set_solver|done|done|].
  apply fwp_bind, (fwp_log_write rw pid _ _ n); [set_solver|done|done|unfold LOGSIZE; simpl; lia|simpl; lia|].
  apply (fwp_fbrelse rw pid _ _ n); [set_solver|done| |].
  - left. simpl. change (n ∈ log_add n (ls_log p)). apply log_add_In. by left.
  - by rewrite ls_save.
Qed.

Lemma fwp_assoc3 {B} (m1 m2 m3 : M fsst unit) (f : M fsst B) Q x t p :
  fwp (m1;; m2;; m3) (fun _ x' t' p' => fwp f Q x' t' p') x t p -> fwp (m1;; m2;; m3;; f) Q x t p.
Proof using Type.
  intros H l a w s S Hw R. destruct (H l a w s S Hw R) as (w1 & s1 & l1 & a1 & x1 & t1 & p1 & v & Hrun & Hw1 & R1 & [S1 <-] & H1).
  apply run_bind_inv in Hrun as (w2 & d2 & [] & E1 & Hrun). apply run_bind_inv in Hrun as (w3 & d3 & [] & E2 & Hrun).
  run_step E1. run_step E2. run_step Hrun. by apply (H1 l1 a1).
Qed.

Lemma bzero_spec n (Q : unit -> fsx -> gmap Z Z -> lspec -> Prop) x t p :
  home start size n -> n ∉ ls_held p -> (base.size (ls_held p) <= 1)%nat -> room size 0 p ->
  (forall t', (forall m, m <> n -> ptr t' m = ptr t m) -> Q tt x t' (ls_update n zero_block p)) ->
  fwp (bzero rw pid fuel ROOTDEV n) Q x t p.
Proof.
  intros Hh Hn Hs R HQ. apply fwp_lok. intros Hok.
  apply fwp_read; try done; [destruct R; unfold NBUF in *; lia|]. intros b t' Hb Ht.
  apply fwp_data; [done|]. rewrite memset_zero by (by apply (lok_blk _ _ _ Hok)).
  apply fwp_save; auto using is_blk_zero.
Qed.
End blocks.

(** ** Allocation *)

(** The state after [balloc]: with a block, which was free, is now marked and holds
    zeros; or unchanged because every block is in use. *)
Definition balloc_post (sb : superblock) (p : lspec) (r : Z) (p' : lspec) : Prop :=
  if r =? 0 then p' = p /\ forall n, 0 <= n < sb_size sb -> used sb (ls_view p) n = true
  else data_block sb r /\ used sb (ls_view p) r = false /\
    exists d, p' = ls_update r zero_block (ls_update (sb_bmapstart sb) d p) /\ is_blk d /\
      forall n, bit_of d n = (n =? r) || used sb (ls_view p) n.

Section balloc.
Context (rw : Z -> bool -> M bcache unit) `{!DiskDriver rw} (pid : Z) (fuel : nat) (start size : Z).
Context {x : fsx} (L : layout start size (x_sb x)).

Notation fwp := (fwp pid start size).
Notation sb := (x_sb x).
Notation bm := (sb_bmapstart sb).

(** Buffers that may be held while the bitmap is used: at most one, of a data block
    in use. *)
Definition busy (p : lspec) : Prop :=
  (base.size (ls_held p) <= 1)%nat /\
  forall n, n ∈ ls_held p -> data_block sb n /\ used sb (ls_view p) n = true.

Lemma busy_bm p : busy p -> bm ∉ ls_held p.
Proof. intros [_ H] Hn. destruct (H _ Hn) as [[] _]. lia. Qed.

Lemma div_small_range bi : 0 <= bi < sb_size sb -> 0 <= bi / 8 < BSIZE.
Proof.
  intros Hb. destruct (ly_size _ _ _ L) as [_ Hs]. unfold BPB in Hs.
  split; [apply Z.div_pos; lia|]. apply Z.div_lt_upper_bound; lia.
Qed.

Lemma balloc_spec (Q : Z -> fsx -> gmap Z Z -> lspec -> Prop) t p :
  meta_used sb (ls_view p) -> busy p -> room size (absent bm (ls_log p)) p ->
  (forall r t' p', balloc_post sb p r p' -> (forall n, n ∈ ls_held p -> ptr t' n = ptr t n) -> Q r x t' p') ->
  fwp (balloc rw pid fuel ROOTDEV) Q x t p.
Proof.
  intros Hmeta Hbusy Hroom HQ. pose proof (busy_bm p Hbusy) as Hbm. pose proof (inodes_before L) as Hib.
  pose proof (ly_size _ _ _ L) as Hsz. pose proof (absent_range bm (ls_log p)). pose proof (ly_start _ _ _ L). pose proof (ly_log _ _ _ L).
  apply fwp_bind, (fwp_gets _ _ _ _ sb); [done|]. cbn [balloc_loop].
  apply fwp_bind, (fwp_gets _ _ _ _ sb); [done|]. rewrite (proj2 (Z.ltb_lt 0 _)) by lia.
  apply fwp_lok. intros Hok. rewrite (BBLOCK_one L) by lia.
  apply (fwp_read rw pid fuel); [apply (bmap_home L)|done|apply Hbusy|destruct Hroom; lia|]. intros b t' Hb Ht. apply fwp_data; [done|].
  assert (Hptr : forall n, n ∈ ls_held p -> ptr t' n = ptr t n).
  { intros n Hn. apply Ht. by intros ->. }
  pose proof (balloc_scan_spec (ls_view p bm) 0 (sb_size sb) (Z.to_nat BPB) 0 (Z.le_refl 0)) as Hscan.
  destruct (balloc_scan _ 0 _ 0 _) as [bi|].
  - destruct Hscan as (Hr1 & Hr2 & Hfree & _). rewrite Z.add_0_l in *.
    assert (Hdata : data_block sb bi).
    { split; [|done]. destruct (Z_lt_le_dec bm bi) as [?|Hle]; [done|].
      specialize (Hmeta bi). unfold used in Hmeta. rewrite Hmeta in Hfree by lia. done. }
    assert (Hd : is_blk (ls_view p bm)) by apply (lok_blk _ _ _ Hok), (bmap_home L).
    apply fwp_assoc3, (fwp_save rw pid); [done|done|eapply room_le; [|done]; lia| |].
    { apply is_blk_st8; [done|]. apply div_small_range. lia. }
    apply fwp_bind, (bzero_spec rw pid fuel); [by apply (data_home L)| |apply Hbusy|by apply room_update|].
    { intros Hin. destruct Hbusy as [_ H']. destruct (H' _ Hin) as [_ Hu]. unfold used in Hu. congruence. }
    intros t2 Ht2. apply fwp_ret. apply HQ.
    + unfold balloc_post. rewrite (proj2 (Z.eqb_neq _ _)) by (destruct Hdata; lia). split; [done|]. split; [done|].
      eexists. split; [done|]. split; [apply is_blk_st8; [done|]; apply div_small_range; lia|].
      intros n. by rewrite bit_of_set by apply Hd.
    + intros n Hn. rewrite Ht2 by (intros ->; destruct Hbusy as [_ H']; destruct (H' _ Hn) as [_ Hu]; unfold used in Hu; congruence).
      by apply Hptr.
  - apply fwp_bind, (fwp_release rw pid); [done|done| |].
    { destruct (decide (bm ∈ ls_log p)) as [?|Hl]; [by left|right]. apply (lok_clean _ _ _ Hok); [apply (bmap_home L)|done|done]. }
    assert (Hend : forall k, fwp (balloc_loop rw pid fuel ROOTDEV (0 + BPB) k) Q x t' p); [|apply Hend].
    intros k. assert (Hr : fwp (printf true (bytes "balloc: out of blocks" ++ [10]) [];; mret 0) Q x t' p).
    { apply fwp_bind, fwp_printf, fwp_ret, HQ; [|done]. unfold balloc_post. simpl. split; [done|]. intros n Hn.
      apply Hscan; unfold BPB, BSIZE in *; lia. }
    destruct k; cbn [balloc_loop]; (apply fwp_bind, (fwp_gets _ _ _ _ sb); [done|]);
      rewrite (proj2 (Z.ltb_ge _ _)) by lia; exact Hr.
Qed.
(** The state after [bfree]. *)
Definition bfree_post (p : lspec) (b : Z) (p' : lspec) : Prop :=
  exists d, p' = ls_update bm d p /\ is_blk d /\ forall n, bit_of d n = negb (n =? b) && used sb (ls_view p) n.

Lemma bfree_spec b (Q : unit -> fsx -> gmap Z Z -> lspec -> Prop) t p :
  0 <= b < sb_size sb -> used sb (ls_view p) b = true -> busy p -> room size 0 p ->
  (forall t' p', bfree_post p b p' -> (forall n, n ∈ ls_held p -> ptr t' n = ptr t n) -> Q tt x t' p') ->
  fwp (bfree rw pid fuel ROOTDEV b) Q x t p.
Proof.
  intros Hb Hu Hbusy Hroom HQ. pose proof (busy_bm p Hbusy) as Hbm. pose proof (ly_size _ _ _ L) as Hsz.
  apply fwp_bind, (fwp_gets _ _ _ _ sb); [done|]. rewrite (BBLOCK_one L) by done. apply fwp_lok. intros Hok.
  apply (fwp_read rw pid fuel); [apply (bmap_home L)|done|apply Hbusy|destruct Hroom; lia|]. intros buf t' Hbuf Ht. apply fwp_data; [done|].
  assert (Hd : is_blk (ls_view p bm)) by apply (lok_blk _ _ _ Hok), (bmap_home L).
  cbv zeta. rewrite (Z.mod_small b) by lia. rewrite bit_clear by (apply Z.mod_pos_bound; lia).
  change (Z.testbit _ _) with (used sb (ls_view p) b). rewrite Hu. simpl negb. cbv iota.
  assert (Hblk : is_blk (st8 (ls_view p bm) (b / 8) (Z.land (ld8 (ls_view p bm) (b / 8)) (Z.lnot (Z.shiftl 1 (b mod 8)))))).
  { apply is_blk_st8; [done|]. apply div_small_range. lia. }
  apply (fwp_save rw pid); [done|done|done|done|]. apply HQ.
  - eexists. split; [done|]. split; [done|]. intros n. by apply bit_of_clear, Hd.
  - intros n Hn. apply Ht. by intros ->.
Qed.
End balloc.
