(* ===== verification/FsFile.v ===== *)
(** * kernel/fs.c: the blocks of a file

    A file is an array of bytes held in the blocks that its inode and its indirect
    block name.  [bmap] adds blocks to it without changing its bytes. *)

From S2P Require Import Prelude Machine Sleeplock Mem Layout Kalloc Vm VmCopy Bio BioInv BioSpec BioRefine FsHdr Log LogDisk LogSpec LogCommit LogRun LogOps LogTheorems Printf Fs FsLogic FsBitmap.

(** ** The blocks of an inode *)

(** Block [bn] of the file, 0 when there is none. *)
Definition iblk (y : inode) (v : Z -> mem) (bn : Z) : Z :=
  if bn <? NDIRECT then iaddr y bn
  else if iaddr y NDIRECT =? 0 then 0 else ld32 (v (iaddr y NDIRECT)) (4 * (bn - NDIRECT)).

(** All blocks the inode owns: number [MAXFILE] is the indirect block. *)
Definition slot (y : inode) (v : Z -> mem) (s : Z) : Z :=
  if s =? MAXFILE then iaddr y NDIRECT else iblk y v s.

(** Byte [o] of the file. *)
Definition fbyte (y : inode) (v : Z -> mem) (o : Z) : Z :=
  let b := iblk y v (o / BSIZE) in
  if b =? 0 then 0 else ld8 (v b) (o mod BSIZE).

(** The blocks are distinct data blocks, marked as used; the file has no holes. *)
Record file_ok (sb : superblock) (v : Z -> mem) (y : inode) : Prop := {
  fo_dev : i_dev y = ROOTDEV;
  fo_slot s : 0 <= s <= MAXFILE -> slot y v s <> 0 -> data_block sb (slot y v s) /\ used sb v (slot y v s) = true;
  fo_inj s s' : 0 <= s <= MAXFILE -> 0 <= s' <= MAXFILE -> slot y v s <> 0 -> slot y v s = slot y v s' -> s = s';
  fo_size : 0 <= i_size y <= MAXFILE * BSIZE;
  fo_full bn : 0 <= bn -> bn * BSIZE < i_size y -> iblk y v bn <> 0 }.

Definition same_fields (y y' : inode) : Prop := y' = iset_fields (i_type y) (i_major y) (i_minor y) (i_nlink y) (i_size y) (i_addrs y') y.

(** One block [r], free before and zero now, has become number [s0]. *)
Record grown (sb : superblock) (y : inode) (v : Z -> mem) (s0 r : Z) (y' : inode) (v' : Z -> mem) : Prop := {
  g_s0 : 0 <= s0 <= MAXFILE /\ slot y v s0 = 0;
  g_data : data_block sb r;
  g_free : used sb v r = false;
  g_used n : used sb v' n = (n =? r) || used sb v n;
  g_slots s : 0 <= s <= MAXFILE -> slot y' v' s = if s =? s0 then r else slot y v s;
  g_fields : same_fields y y';
  g_zero : v' r = zero_block;
  g_frame n : used sb v n = true -> n <> sb_bmapstart sb -> n <> iaddr y NDIRECT -> v' n = v n }.

(** The file has at least the blocks it had, and the same bytes; other blocks in
    use are as they were. *)
Record extended (sb : superblock) (y : inode) (v : Z -> mem) (y' : inode) (v' : Z -> mem) : Prop := {
  e_ok : file_ok sb v' y';
  e_fields : same_fields y y';
  e_used n : used sb v n = true -> used sb v' n = true;
  e_slot s : 0 <= s <= MAXFILE -> slot y v s <> 0 -> slot y' v' s = slot y v s;
  e_new s : 0 <= s <= MAXFILE -> slot y v s = 0 -> slot y' v' s = 0 \/ used sb v (slot y' v' s) = false;
  e_byte o : 0 <= o < MAXFILE * BSIZE -> fbyte y' v' o = fbyte y v o;
  e_frame n : 0 < n -> used sb v n = true -> n <> sb_bmapstart sb -> n <> iaddr y NDIRECT -> v' n = v n }.

Lemma MAXFILE_in : 0 <= MAXFILE <= MAXFILE.
Proof. split; [by vm_compute|apply Z.le_refl]. Qed.

Lemma NDIRECT_MAXFILE : NDIRECT < MAXFILE.
Proof. by vm_compute. Qed.

Lemma slot_blk y v bn : bn < MAXFILE -> slot y v bn = iblk y v bn.
Proof. intros. unfold slot. by rewrite (proj2 (Z.eqb_neq _ _)) by lia. Qed.

Lemma slot_ind y v : slot y v MAXFILE = iaddr y NDIRECT.
Proof. unfold slot. by rewrite Z.eqb_refl. Qed.

Lemma ld32_zero_block i : ld32 zero_block i = 0.
Proof.
  assert (H : forall j, ld8 zero_block j = 0) by (intros; unfold zero_block; rewrite ld8_memset; by case_decide).
  unfold ld32. simpl. by rewrite !H.
Qed.

Lemma ld8_zero_block i : ld8 zero_block i = 0.
Proof. unfold zero_block. rewrite ld8_memset. by case_decide. Qed.

Lemma file_block_range o : 0 <= o < MAXFILE * BSIZE -> 0 <= o / BSIZE < MAXFILE.
Proof.
  intros Ho. assert (0 < BSIZE) by done. split; [apply Z.div_pos; lia|].
  apply Z.div_lt_upper_bound; [done|]. lia.
Qed.

Section grown.
Context {sb : superblock} {y : inode} {v : Z -> mem} {s0 r : Z} {y' : inode} {v' : Z -> mem}.
Context (Hmeta : 0 <= sb_bmapstart sb) (F : file_ok sb v y) (G : grown sb y v s0 r y' v').

Lemma grown_nonzero : r <> 0.
Proof. pose proof (g_data _ _ _ _ _ _ _ G) as []. lia. Qed.

Lemma grown_ok : file_ok sb v' y'.
Proof.
  pose proof grown_nonzero as Hr. destruct (g_s0 _ _ _ _ _ _ _ G) as [Hs0 Hnil].
  assert (Hfresh : forall s, 0 <= s <= MAXFILE -> slot y v s <> r).
  { intros s Hs E. destruct (fo_slot _ _ _ F s Hs) as [_ Hu]; [congruence|].
    rewrite E, (g_free _ _ _ _ _ _ _ G) in Hu. done. }
  pose proof (g_fields _ _ _ _ _ _ _ G) as Hf. split.
  - rewrite Hf. apply F.
  - intros s Hs. rewrite (g_slots _ _ _ _ _ _ _ G), (g_used _ _ _ _ _ _ _ G) by done. destruct (Z.eqb_spec s s0) as [->|Hne].
    + intros _. split; [apply G|]. by rewrite Z.eqb_refl.
    + intros Hn. destruct (fo_slot _ _ _ F s Hs Hn) as [H1 H2]. split; [done|]. by rewrite H2, orb_true_r.
  - intros s s' Hs Hs'. rewrite !(g_slots _ _ _ _ _ _ _ G) by done.
    destruct (Z.eqb_spec s s0) as [->|Hne], (Z.eqb_spec s' s0) as [->|Hne']; intros Hn E; try done.
    + exfalso. by apply (Hfresh s' Hs').
    + exfalso. by apply (Hfresh s Hs).
    + by apply (fo_inj _ _ _ F).
  - rewrite Hf. apply F.
  - intros bn Hbn Hsz. rewrite Hf in Hsz. simpl in Hsz. pose proof (fo_size _ _ _ F).
    assert (bn < MAXFILE) by (unfold BSIZE in *; lia).
    rewrite <-slot_blk, (g_slots _ _ _ _ _ _ _ G) by lia. case_match; [done|].
    rewrite slot_blk by done. by apply (fo_full _ _ _ F).
Qed.

Lemma grown_extended : extended sb y v y' v'.
Proof.
  pose proof grown_nonzero as Hr. destruct (g_s0 _ _ _ _ _ _ _ G) as [Hs0 Hnil]. split.
  - apply grown_ok.
  - apply G.
  - intros n Hn. by rewrite (g_used _ _ _ _ _ _ _ G), Hn, orb_true_r.
  - intros s Hs Hn. rewrite (g_slots _ _ _ _ _ _ _ G) by done. destruct (Z.eqb_spec s s0) as [->|]; [done|done].
  - intros s Hs Hn. rewrite (g_slots _ _ _ _ _ _ _ G) by done. destruct (Z.eqb_spec s s0) as [->|]; [|by left].
    right. apply G.
  - intros o Ho. apply file_block_range in Ho. unfold fbyte. rewrite <-!slot_blk by lia.
    rewrite (g_slots _ _ _ _ _ _ _ G) by lia. destruct (Z.eqb_spec (o / BSIZE) s0) as [E|Hne].
    + rewrite E, Hnil, (g_zero _ _ _ _ _ _ _ G), ld8_zero_block. by case_match.
    + destruct (Z.eqb_spec (slot y v (o / BSIZE)) 0) as [|Hn]; [done|].
      destruct (fo_slot _ _ _ F (o / BSIZE) ltac:(lia) Hn) as [[] Hu].
      rewrite (g_frame _ _ _ _ _ _ _ G); [done|done|lia|]. rewrite <-(slot_ind y v). intros E.
      apply (fo_inj _ _ _ F) in E; lia.
  - intros n _. apply G.
Qed.
End grown.

Lemma extended_refl sb y v : file_ok sb v y -> extended sb y v y v.
Proof. intros F. split; try done; [by destruct y|intros; by left]. Qed.

Lemma extended_trans sb y1 v1 y2 v2 y3 v3 : 0 <= sb_bmapstart sb ->
  file_ok sb v1 y1 -> extended sb y1 v1 y2 v2 -> extended sb y2 v2 y3 v3 -> extended sb y1 v1 y3 v3.
Proof.
  intros H0 F E1 E2. pose proof MAXFILE_in as HM. split.
  - apply E2.
  - pose proof (e_fields _ _ _ _ _ E1) as H1. pose proof (e_fields _ _ _ _ _ E2) as H2.
    unfold same_fields in *. rewrite H2, H1. done.
  - intros n Hn. by apply (e_used _ _ _ _ _ E2), (e_used _ _ _ _ _ E1).
  - intros s Hs Hn. pose proof (e_slot _ _ _ _ _ E1 s Hs Hn) as E. by rewrite (e_slot _ _ _ _ _ E2), E by congruence.
  - intros s Hs Hn. destruct (decide (slot y2 v2 s = 0)) as [E|E].
    + destruct (e_new _ _ _ _ _ E2 s Hs E) as [?|Hu]; [by left|right].
      apply not_true_is_false. intros Hu'. apply (e_used _ _ _ _ _ E1) in Hu'. congruence.
    + rewrite (e_slot _ _ _ _ _ E2) by done. by apply E1.
  - intros o Ho. by rewrite (e_byte _ _ _ _ _ E2), (e_byte _ _ _ _ _ E1).
  - intros n Hp Hu Hb Hi. rewrite (e_frame _ _ _ _ _ E2), (e_frame _ _ _ _ _ E1); try done.
    + by apply (e_used _ _ _ _ _ E1).
    + intros ->. rewrite <-(slot_ind y2 v2) in *. rewrite <-(slot_ind y1 v1) in Hi.
      destruct (decide (slot y1 v1 MAXFILE = 0)) as [E|E].
      * destruct (e_new _ _ _ _ _ E1 MAXFILE HM E); [lia|congruence].
      * by rewrite (e_slot _ _ _ _ _ E1) in Hi.
Qed.

(** ** The three ways in which [bmap] uses a new block *)

Lemma iaddr_set y i a j : iaddr (iset_addr i a y) j = if j =? i then a else iaddr y j.
Proof.
  unfold iaddr, iset_addr. simpl. destruct (Z.eqb_spec j i) as [->|Hne].
  - by rewrite lookup_insert_eq.
  - by rewrite lookup_insert_ne.
Qed.

Lemma same_fields_set y i a : same_fields y (iset_addr i a y).
Proof. done. Qed.

(** Block [r], free in [v], is in use and zero in [v1]. *)
Definition allocated (sb : superblock) (v : Z -> mem) (r : Z) (v1 : Z -> mem) : Prop :=
  data_block sb r /\ used sb v r = false /\ v1 r = zero_block /\
  (forall n, used sb v1 n = (n =? r) || used sb v n) /\
  (forall n, n <> r -> n <> sb_bmapstart sb -> v1 n = v n).

Lemma balloc_allocated {sb p r p1} : r <> 0 -> balloc_post sb p r p1 -> allocated sb (ls_view p) r (ls_view p1).
Proof.
  intros Hr B. unfold balloc_post in B. rewrite (proj2 (Z.eqb_neq _ _)) in B by done.
  destruct B as (Hd & Hu & d & -> & _ & Hbit). split_and!; try done.
  - apply ls_update_view_eq.
  - intros n. unfold used. rewrite ls_update_view, ls_update_view_eq by (destruct Hd; lia). apply Hbit.
  - intros n H1 H2. by rewrite !ls_update_view.
Qed.

Section alloc.
Context {sb : superblock} {y : inode} {p p1 : lspec} {r : Z} (Hbm : 0 <= sb_bmapstart sb < sb_size sb) (Hsz : sb_size sb <= BPB).
Context (F : file_ok sb (ls_view p) y) (Hr : r <> 0) (B : allocated sb (ls_view p) r (ls_view p1)).

Lemma slot_kept s : 0 <= s <= MAXFILE -> slot y (ls_view p) s <> 0 -> ls_view p1 (slot y (ls_view p) s) = ls_view p (slot y (ls_view p) s).
Proof using B Hr F.
  intros Hs Hn. destruct B as (Hd & Hu & Hz & Hus & Hk). destruct (fo_slot _ _ _ F s Hs Hn) as [[] H2].
  apply Hk; [congruence|lia].
Qed.

Lemma grown_direct bn : 0 <= bn < NDIRECT -> iaddr y bn = 0 -> grown sb y (ls_view p) bn r (iset_addr bn r y) (ls_view p1).
Proof using B Hr F.
  intros Hb Hnil. destruct B as (Hd & Hu & Hz & Hus & Hk).
  pose proof NDIRECT_MAXFILE as HM.
  split; [|exact Hd|exact Hu|exact Hus| |apply same_fields_set|exact Hz|].
  - split; [lia|]. rewrite slot_blk by lia. unfold iblk. by rewrite (proj2 (Z.ltb_lt _ _)) by lia.
  - intros s Hs. unfold slot, iblk. rewrite !iaddr_set, (proj2 (Z.eqb_neq NDIRECT bn)) by lia.
    destruct (Z.eqb_spec s MAXFILE) as [->|]; [by rewrite (proj2 (Z.eqb_neq MAXFILE bn)) by lia|].
    destruct (Z.ltb_spec s NDIRECT) as [Hs'|Hs']; [done|]. rewrite (proj2 (Z.eqb_neq s bn)) by lia.
    destruct (Z.eqb_spec (iaddr y NDIRECT) 0) as [|Hi]; [done|]. f_equal.
    rewrite <-(slot_ind y (ls_view p)) in *. apply slot_kept; [lia|done].
  - intros n H1 H2 _. apply Hk; congruence.
Qed.

Lemma grown_indirect : iaddr y NDIRECT = 0 -> grown sb y (ls_view p) MAXFILE r (iset_addr NDIRECT r y) (ls_view p1).
Proof using B Hr F.
  intros Hnil. destruct B as (Hd & Hu & Hz & Hus & Hk).
  split; [|exact Hd|exact Hu|exact Hus| |apply same_fields_set|exact Hz|].
  - split; [apply MAXFILE_in|]. by rewrite slot_ind.
  - intros s Hs. unfold slot, iblk. rewrite !iaddr_set, Z.eqb_refl.
    destruct (Z.eqb_spec s MAXFILE) as [->|]; [done|].
    destruct (Z.ltb_spec s NDIRECT) as [Hs'|Hs']; [by rewrite (proj2 (Z.eqb_neq s NDIRECT)) by lia|].
    rewrite (proj2 (Z.eqb_neq r 0)), Hnil, Hz, ld32_zero_block by done. done.
  - intros n H1 H2 _. apply Hk; congruence.
Qed.

Lemma grown_entry bn : NDIRECT <= bn < MAXFILE -> iaddr y NDIRECT <> 0 -> iblk y (ls_view p) bn = 0 ->
  grown sb y (ls_view p) bn r y
    (ls_view (ls_update (iaddr y NDIRECT) (st32 (ls_view p (iaddr y NDIRECT)) (4 * (bn - NDIRECT)) r) p1)).
Proof using B Hr F Hsz Hbm.
  intros Hb Hi Hnil. destruct B as (Hd & Hu & Hz & Hus & Hk).
  pose proof MAXFILE_in as HM. assert (HN : 0 <= NDIRECT) by done.
  destruct (fo_slot _ _ _ F MAXFILE HM) as [[H1 _] H2]; [by rewrite slot_ind|]. rewrite slot_ind in H1, H2.
  split; [|exact Hd|exact Hu| | | | |].
  - split; [lia|]. by rewrite slot_blk by lia.
  - intros n. rewrite <-Hus. unfold used. by rewrite ls_update_view by lia.
  - intros s Hs. unfold slot. destruct (Z.eqb_spec s MAXFILE) as [->|]; [by rewrite (proj2 (Z.eqb_neq MAXFILE bn)) by lia|].
    unfold iblk. rewrite (proj2 (Z.eqb_neq (iaddr y NDIRECT) 0)) by done.
    destruct (Z.ltb_spec s NDIRECT) as [Hs'|Hs']; [by rewrite (proj2 (Z.eqb_neq s bn)) by lia|].
    rewrite ls_update_view_eq. destruct (Z.eqb_spec s bn) as [->|Hne].
    + apply ld32_st32_same. destruct Hd. unfold BPB, BSIZE in *. lia.
    + apply ld32_st32_other. lia.
  - by destruct y.
  - rewrite ls_update_view by congruence. done.
  - intros n H3 H4 H5. rewrite ls_update_view by done. apply Hk; congruence.
Qed.
End alloc.

(** ** The size of the transaction *)

(** The blocks logged so far, and the bitmap and the indirect block. *)
Definition cost (sb : superblock) (y : inode) (p : lspec) : Z :=
  lenL p + absent (sb_bmapstart sb) (ls_log p) +
  (if iaddr y NDIRECT =? 0 then 1 else absent (iaddr y NDIRECT) (ls_log p)).

Lemma absent_mono n l l' : (forall m, m ∈ l -> m ∈ l') -> absent n l' <= absent n l.
Proof. intros H. unfold absent. repeat case_decide; try lia. by destruct H0; apply H. Qed.

Lemma lenL_update n d p : lenL (ls_update n d p) = lenL p + absent n (ls_log p).
Proof. unfold lenL. simpl. apply log_add_length. Qed.

Section cost.
Context {sb : superblock} {y : inode} {p p1 : lspec} {r : Z}.
Context (Hr : r <> 0) (B : balloc_post sb p r p1).

Lemma alloc_log : lenL p1 <= lenL p + absent (sb_bmapstart sb) (ls_log p) + 1 /\
  (forall n, n ∈ ls_log p1 <-> n = r \/ n = sb_bmapstart sb \/ n ∈ ls_log p).
Proof using B Hr.
  unfold balloc_post in B. rewrite (proj2 (Z.eqb_neq _ _)) in B by done.
  destruct B as (Hd & Hu & d & -> & _ & Hbit). rewrite !lenL_update. split.
  - pose proof (absent_range r (ls_log (ls_update (sb_bmapstart sb) d p))). lia.
  - intros n. simpl. by rewrite !log_add_In.
Qed.

Lemma cost_direct bn : bn <> NDIRECT -> cost sb (iset_addr bn r y) p1 <= cost sb y p + 1.
Proof using B Hr.
  intros Hb. destruct alloc_log as [H1 H2]. unfold cost. rewrite iaddr_set, (proj2 (Z.eqb_neq NDIRECT bn)) by lia.
  rewrite (absent_In (sb_bmapstart sb) (ls_log p1)) by (apply H2; auto).
  pose proof (absent_mono (iaddr y NDIRECT) (ls_log p) (ls_log p1) ltac:(intros; apply H2; auto)).
  case_match; lia.
Qed.

Lemma cost_indirect : iaddr y NDIRECT = 0 -> cost sb (iset_addr NDIRECT r y) p1 <= cost sb y p.
Proof using B Hr.
  intros Hn. destruct alloc_log as [H1 H2]. unfold cost. rewrite iaddr_set, Z.eqb_refl, (proj2 (Z.eqb_neq r 0)), Hn by done.
  rewrite !(absent_In _ (ls_log p1)) by (apply H2; auto). simpl. lia.
Qed.

Lemma cost_entry d : iaddr y NDIRECT <> 0 -> cost sb y (ls_update (iaddr y NDIRECT) d p1) <= cost sb y p + 1.
Proof using B Hr.
  intros Hn. destruct alloc_log as [H1 H2]. unfold cost. rewrite lenL_update. rewrite (proj2 (Z.eqb_neq _ 0)) by done. cbn [ls_log ls_update].
  pose proof (absent_mono (iaddr y NDIRECT) (ls_log p) (ls_log p1) ltac:(intros; apply H2; auto)).
  rewrite !(absent_In _ (log_add _ _)) by (apply log_add_In; rewrite H2; auto). lia.
Qed.
End cost.

(** ** The state of a file that is being used *)

Record fstate (start size ip : Z) (x : fsx) (p : lspec) : Prop := {
  st_layout : layout start size (x_sb x);
  st_meta : meta_used (x_sb x) (ls_view p);
  st_held : ls_held p = ∅;
  st_in : is_Some (x_it x !! ip);
  st_file : file_ok (x_sb x) (ls_view p) (ino x ip) }.

(** Only inode [ip] has changed. *)
Definition only_inode (ip : Z) (x x' : fsx) : Prop :=
  x' = Fsx (x_mem x) (x_sb x) (<[ip := ino x' ip]> (x_it x)).

(** [c] blocks fit in a transaction. *)
Definition fits (size c : Z) (p : lspec) : Prop := 1 <= ls_out p /\ c < NBUF - 1 /\ c < size - 1.

Lemma ino_seti ip f x : is_Some (x_it x !! ip) -> ino (x_seti ip f x) ip = f (ino x ip).
Proof. intros [y Hy]. unfold ino, x_seti. simpl. by rewrite lookup_alter_eq, Hy. Qed.

Lemma only_inode_refl ip x : is_Some (x_it x !! ip) -> only_inode ip x x.
Proof.
  intros [y Hy]. unfold only_inode, ino. rewrite Hy. simpl. rewrite insert_id by done. by destruct x.
Qed.

Lemma only_inode_seti ip f x : is_Some (x_it x !! ip) -> only_inode ip x (x_seti ip f x).
Proof.
  intros [y Hy]. unfold only_inode. rewrite ino_seti by eauto. unfold x_seti, ino. rewrite Hy. simpl. f_equal.
  apply map_eq. intros i. destruct (decide (i = ip)) as [->|Hne].
  - by rewrite lookup_alter_eq, Hy, lookup_insert_eq.
  - by rewrite lookup_alter_ne, lookup_insert_ne.
Qed.

Lemma only_inode_trans ip x1 x2 x3 : only_inode ip x1 x2 -> only_inode ip x2 x3 -> only_inode ip x1 x3.
Proof. unfold only_inode. intros H1 H2. rewrite H2 at 1. rewrite H1 at 1 2 3. simpl. by rewrite insert_insert_eq. Qed.

Lemma only_inode_sb ip x x' : only_inode ip x x' -> x_sb x' = x_sb x.
Proof. by intros ->. Qed.

Lemma only_inode_in ip x x' : only_inode ip x x' -> is_Some (x_it x' !! ip).
Proof. intros ->. simpl. rewrite lookup_insert_eq. by eexists. Qed.

(** What has happened to the file and the log, [k] more blocks having been paid for. *)
Record moved (start size ip k : Z) (x : fsx) (p : lspec) (x' : fsx) (p' : lspec) : Prop := {
  mv_state : fstate start size ip x' p';
  mv_only : only_inode ip x x';
  mv_ext : extended (x_sb x) (ino x ip) (ls_view p) (ino x' ip) (ls_view p');
  mv_out : ls_out p' = ls_out p;
  mv_cost : cost (x_sb x) (ino x' ip) p' <= cost (x_sb x) (ino x ip) p + k }.

Definition all_used (sb : superblock) (v : Z -> mem) : Prop := forall n, 0 <= n < sb_size sb -> used sb v n = true.

Lemma moved_refl start size ip x p : fstate start size ip x p -> moved start size ip 0 x p x p.
Proof.
  intros S. split; [done|apply only_inode_refl, S|apply extended_refl, S|done|lia].
Qed.

Lemma moved_trans start size ip k1 k2 x1 p1 x2 p2 x3 p3 :
  fstate start size ip x1 p1 ->
  moved start size ip k1 x1 p1 x2 p2 -> moved start size ip k2 x2 p2 x3 p3 -> moved start size ip (k1 + k2) x1 p1 x3 p3.
Proof.
  intros S M1 M2. pose proof (mv_only _ _ _ _ _ _ _ _ M1) as O1.
  pose proof (only_inode_sb _ _ _ O1) as E1. pose proof (inodes_before (st_layout _ _ _ _ _ S)).
  pose proof (ly_start _ _ _ (st_layout _ _ _ _ _ S)). pose proof (ly_log _ _ _ (st_layout _ _ _ _ _ S)).
  split.
  - apply M2.
  - eapply only_inode_trans; [done|apply M2].
  - pose proof (mv_ext _ _ _ _ _ _ _ _ M2) as X2. rewrite E1 in X2. eapply extended_trans; [lia|apply S|apply M1|done].
  - by rewrite (mv_out _ _ _ _ _ _ _ _ M2), (mv_out _ _ _ _ _ _ _ _ M1).
  - pose proof (mv_cost _ _ _ _ _ _ _ _ M1). pose proof (mv_cost _ _ _ _ _ _ _ _ M2) as C2. rewrite E1 in C2. lia.
Qed.

Lemma moved_grown start size ip k x p s0 r f p' :
  fstate start size ip x p ->
  grown (x_sb x) (ino x ip) (ls_view p) s0 r (f (ino x ip)) (ls_view p') ->
  cost (x_sb x) (f (ino x ip)) p' <= cost (x_sb x) (ino x ip) p + k ->
  ls_held p' = ∅ -> ls_out p' = ls_out p -> moved start size ip k x p (x_seti ip f x) p'.
Proof.
  intros S G C Hh Ho. pose proof (st_in _ _ _ _ _ S) as Hin.
  pose proof (inodes_before (st_layout _ _ _ _ _ S)).
  pose proof (ly_start _ _ _ (st_layout _ _ _ _ _ S)). pose proof (ly_log _ _ _ (st_layout _ _ _ _ _ S)).
  assert (Hbm : 0 <= sb_bmapstart (x_sb x)) by lia.
  pose proof (grown_extended Hbm (st_file _ _ _ _ _ S) G) as E.
  pose proof (only_inode_seti ip f x Hin) as O.
  split; [|done|by rewrite ino_seti|done|by rewrite ino_seti].
  split; [apply S| |done|by eapply only_inode_in|rewrite ino_seti by done; apply E].
  intros n Hn. apply (e_used _ _ _ _ _ E), (st_meta _ _ _ _ _ S), Hn.
Qed.

Lemma seti_id ip x : x_seti ip (fun y => y) x = x.
Proof.
  destruct x as [m b t]. unfold x_seti. simpl. f_equal. apply map_eq. intros i.
  destruct (decide (i = ip)) as [->|Hne]; [rewrite lookup_alter_eq; by destruct (t !! ip)|by rewrite lookup_alter_ne].
Qed.

Lemma moved_le start size ip k k' x p x' p' : k <= k' -> moved start size ip k x p x' p' -> moved start size ip k' x p x' p'.
Proof. intros Hk []. split; try done. lia. Qed.

Lemma fits_le size c c' p : c' <= c -> fits size c p -> fits size c' p.
Proof. unfold fits. lia. Qed.

Lemma fits_room size sb y p : fits size (cost sb y p) p -> room size (absent (sb_bmapstart sb) (ls_log p)) p.
Proof.
  unfold fits, room, cost. pose proof (absent_range (iaddr y NDIRECT) (ls_log p)). case_match; lia.
Qed.

Lemma cost_lenL sb y p : lenL p <= cost sb y p.
Proof.
  unfold cost. pose proof (absent_range (iaddr y NDIRECT) (ls_log p)).
  pose proof (absent_range (sb_bmapstart sb) (ls_log p)). case_match; lia.
Qed.

Section bmap.
Context (rw : Z -> bool -> M bcache unit) `{!DiskDriver rw} (pid : Z) (fuel : nat) (start size ip : Z).

Notation fwp := (fwp pid start size).

Lemma busy_empty x p : ls_held p = ∅ -> busy (x := x) p.
Proof. intros E. split; rewrite E; [rewrite size_empty; lia|]. intros n Hn. by apply not_elem_of_empty in Hn. Qed.

(** A block for address [i] of the inode. *)
Lemma balloc_addr i (Q : Z -> fsx -> gmap Z Z -> lspec -> Prop) x t p :
  fstate start size ip x p -> 0 <= i <= NDIRECT -> iaddr (ino x ip) i = 0 ->
  let k := if i =? NDIRECT then 0 else 1 in
  fits size (cost (x_sb x) (ino x ip) p) p ->
  (forall r x' t' p', moved start size ip k x p x' p' -> r = iaddr (ino x' ip) i ->
     (r = 0 -> all_used (x_sb x) (ls_view p')) -> (r <> 0 -> r ∈ ls_log p') ->
     (forall s, 0 <= s < MAXFILE -> s <> i \/ i = NDIRECT -> iblk (ino x' ip) (ls_view p') s = iblk (ino x ip) (ls_view p) s) -> Q r x' t' p') ->
  fwp (addr ← balloc rw pid fuel (i_dev (ino x ip));
       if addr =? 0 then mret 0 else seti ip (iset_addr i addr);; mret addr) Q x t p.
Proof.
  intros S Hi Hnil k Hfit HQ. pose proof (st_layout _ _ _ _ _ S) as L. pose proof (st_file _ _ _ _ _ S) as F.
  pose proof (ly_size _ _ _ L). pose proof (inodes_before L). pose proof (ly_start _ _ _ L). pose proof (ly_log _ _ _ L).
  rewrite (fo_dev _ _ _ F). apply fwp_bind, (balloc_spec rw pid fuel start size L);
    [apply S|apply busy_empty, S|by eapply fits_room|].
  intros r t' p' B _. destruct (Z.eqb_spec r 0) as [->|Hr].
  - apply fwp_ret. destruct B as [-> Hfull]. apply HQ; try done.
    eapply moved_le; [|by apply moved_refl]. subst k. case_match; lia.
  - apply fwp_bind, fwp_seti, fwp_ret.
    set (s0 := if i =? NDIRECT then MAXFILE else i).
    assert (G : grown (x_sb x) (ino x ip) (ls_view p) s0 r (iset_addr i r (ino x ip)) (ls_view p')).
    { subst s0. destruct (Z.eqb_spec i NDIRECT) as [->|Hne]; [by apply (grown_indirect F Hr (balloc_allocated Hr B))|].
      apply (grown_direct F Hr (balloc_allocated Hr B)); [lia|done]. }
    assert (M : moved start size ip k x p (x_seti ip (iset_addr i r) x) p').
    { pose proof (alloc_log Hr B) as [_ Hlog].
      assert (Hhold : ls_held p' = ∅ /\ ls_out p' = ls_out p).
      { unfold balloc_post in B. rewrite (proj2 (Z.eqb_neq _ _)) in B by done.
        destruct B as (_ & _ & d & -> & _). simpl. split; [apply S|done]. }
      subst k. destruct (Z.eqb_spec i NDIRECT) as [->|Hne].
      - eapply moved_grown; [done|exact G| |apply Hhold|apply Hhold].
        rewrite Z.add_0_r. by apply (cost_indirect Hr B).
      - eapply moved_grown; [done|exact G| |apply Hhold|apply Hhold].
        by apply (cost_direct Hr B). }
    apply HQ; try done.
    + rewrite ino_seti by apply S. by rewrite iaddr_set, Z.eqb_refl.
    + intros _. apply (alloc_log Hr B). by left.
    + intros s Hs Hsi. rewrite ino_seti, <-!slot_blk, (g_slots _ _ _ _ _ _ _ G) by (lia || apply S).
      rewrite (proj2 (Z.eqb_neq _ _)); [done|]. subst s0. case_match; lia.
Qed.
(** An entry of the indirect block. *)
Definition bmap_entry (dev addr bn : Z) : M fsst Z :=
  bp ← fbread rw pid fuel dev addr;
  a ← fdata bp;
  let addr := ld32 a (4 * bn) in
  addr ←
    (if addr =? 0 then
       addr ← balloc rw pid fuel dev;
       when (negb (addr =? 0)) (set_fdata bp (st32 a (4 * bn) addr);; flog_write bp);;
       mret addr
     else mret addr);
  fbrelse pid bp;;
  mret addr.

Record mapped (bn : Z) (x : fsx) (p : lspec) (r : Z) (x' : fsx) (p' : lspec) : Prop := {
  mp_moved : moved start size ip 1 x p x' p';
  mp_r : r = iblk (ino x' ip) (ls_view p') bn;
  mp_full : r = 0 -> all_used (x_sb x) (ls_view p');
  mp_new : iblk (ino x ip) (ls_view p) bn = 0 -> r <> 0 -> r ∈ ls_log p';
  mp_old : iblk (ino x ip) (ls_view p) bn <> 0 -> x' = x /\ p' = p }.

Lemma balloc_post_hold sb n p r p' :
  balloc_post sb (ls_hold n p) r p' -> exists p1, p' = ls_hold n p1 /\ balloc_post sb p r p1.
Proof.
  unfold balloc_post. case_match; [intros [-> H']; by exists p|].
  intros (Hd & Hu & d & -> & Hb & Hbit). eexists (ls_update r zero_block (ls_update (sb_bmapstart sb) d p)).
  split; [done|]. eauto 10.
Qed.

Lemma iblk_entry y v bn : NDIRECT <= bn -> iaddr y NDIRECT <> 0 ->
  iblk y v bn = ld32 (v (iaddr y NDIRECT)) (4 * (bn - NDIRECT)).
Proof.
  intros Hb Hn. unfold iblk. by rewrite (proj2 (Z.ltb_ge _ _)), (proj2 (Z.eqb_neq _ _)).
Qed.

Lemma mapped_entry bn x p p1 r :
  fstate start size ip x p -> NDIRECT <= bn < MAXFILE -> iaddr (ino x ip) NDIRECT <> 0 ->
  iblk (ino x ip) (ls_view p) bn = 0 -> r <> 0 -> balloc_post (x_sb x) p r p1 ->
  mapped bn x p r x (ls_update (iaddr (ino x ip) NDIRECT)
    (st32 (ls_view p (iaddr (ino x ip) NDIRECT)) (4 * (bn - NDIRECT)) r) p1).
Proof using Type.
  intros S Hb Hi Hnil Hr B. pose proof (st_layout _ _ _ _ _ S) as L. pose proof (st_file _ _ _ _ _ S) as F.
  pose proof (ly_size _ _ _ L) as [Hs1 Hs2]. pose proof (inodes_before L). pose proof (ly_start _ _ _ L). pose proof (ly_log _ _ _ L).
  assert (Hh : ls_held p1 = ∅ /\ ls_out p1 = ls_out p).
  { pose proof B as B'. unfold balloc_post in B'. rewrite (proj2 (Z.eqb_neq _ _)) in B' by done.
    destruct B' as (_ & _ & d & -> & _). split; [apply S|done]. }
  assert (G : grown (x_sb x) (ino x ip) (ls_view p) bn r (ino x ip)
            (ls_view (ls_update (iaddr (ino x ip) NDIRECT)
              (st32 (ls_view p (iaddr (ino x ip) NDIRECT)) (4 * (bn - NDIRECT)) r) p1)))
    by (apply grown_entry; try done; [lia|by apply balloc_allocated]).
  split.
  - rewrite <-(seti_id ip x) at 2. eapply moved_grown; [done|exact G|by apply (cost_entry Hr B)|apply Hh|apply Hh].
  - rewrite <-slot_blk by lia. rewrite (g_slots _ _ _ _ _ _ _ G) by (change NDIRECT with 12 in *; lia). by rewrite Z.eqb_refl.
  - intros; congruence.
  - intros _ _. simpl. apply log_add_In. right. apply (alloc_log Hr B). by left.
  - intros; congruence.
Qed.

Lemma bmap_entry_spec bn (Q : Z -> fsx -> gmap Z Z -> lspec -> Prop) x t p :
  fstate start size ip x p -> NDIRECT <= bn < MAXFILE -> iaddr (ino x ip) NDIRECT <> 0 ->
  fits size (cost (x_sb x) (ino x ip) p + 1) p ->
  (forall r x' t' p', mapped bn x p r x' p' -> Q r x' t' p') ->
  fwp (bmap_entry ROOTDEV (iaddr (ino x ip) NDIRECT) (bn - NDIRECT)) Q x t p.
Proof.
  intros S Hb Hi Hfit HQ. pose proof (st_layout _ _ _ _ _ S) as L. pose proof (st_file _ _ _ _ _ S) as F.
  pose proof (ly_size _ _ _ L) as [Hs1 Hs2]. pose proof (inodes_before L) as Hib. pose proof (ly_start _ _ _ L). pose proof (ly_log _ _ _ L).
  pose proof MAXFILE_in as HM.
  set (y := ino x ip) in *. set (ind := iaddr y NDIRECT) in *.
  assert (Hind : data_block (x_sb x) ind /\ used (x_sb x) (ls_view p) ind = true).
  { rewrite <-(slot_ind y (ls_view p) : _ = ind). apply (fo_slot _ _ _ F); [done|]. by rewrite slot_ind. }
  assert (Hh : ind ∉ ls_held p) by (rewrite (st_held _ _ _ _ _ S); apply not_elem_of_empty).
  pose proof (cost_lenL (x_sb x) y p).
  apply fwp_lok. intros Hok. unfold bmap_entry.
  apply (fwp_read rw pid fuel); [apply (data_home L), Hind|done|rewrite (st_held _ _ _ _ _ S), size_empty; lia|destruct Hfit; lia|].
  intros b t' Hbp _. apply fwp_data; [done|].
  pose proof (iblk_entry y (ls_view p) bn ltac:(lia) Hi) as Hblk. fold ind in Hblk. rewrite <-Hblk.
  apply fwp_bind. destruct (Z.eqb_spec (iblk y (ls_view p) bn) 0) as [Hnil|Hold].
  2: { apply fwp_ret, fwp_bind, (fwp_release rw pid); [done|done| |].
    - destruct (decide (ind ∈ ls_log p)) as [?|Hl]; [by left|right]. apply (lok_clean _ _ _ Hok); [apply (data_home L), Hind|done|done].
    - apply fwp_ret, HQ. split; try done. eapply moved_le; [|by apply moved_refl]. lia. }
  apply fwp_bind, (balloc_spec rw pid fuel start size L); [apply S| |refine (fits_room size (x_sb x) y p _); eapply fits_le; [|exact Hfit]; lia|].
  { split; simpl; rewrite (st_held _ _ _ _ _ S), union_empty_r_L; [rewrite size_singleton; lia|].
    intros n Hn. apply elem_of_singleton in Hn as ->. exact Hind. }
  intros r t2 p2 B Ht2. destruct (balloc_post_hold _ _ _ _ _ B) as (p1 & -> & B1).
  assert (Hb2 : ptr t2 ind = b) by (rewrite Ht2 by apply hold_held; done). apply fwp_bind.
  destruct (Z.eqb_spec r 0) as [->|Hr]; cbn [negb when].
  - destruct B1 as [-> Hfull]. apply fwp_ret, fwp_ret, fwp_bind, (fwp_release rw pid); [done|done| |].
    + destruct (decide (ind ∈ ls_log p)) as [?|Hl]; [by left|right]. apply (lok_clean _ _ _ Hok); [apply (data_home L), Hind|done|done].
    + apply fwp_ret, HQ. split; try done. eapply moved_le; [|by apply moved_refl]. lia.
  - pose proof (alloc_log Hr B1) as [Hlen _]. destruct Hfit as (Ho & Hf1 & Hf2).
    assert (Hp1 : ls_held p1 = ∅ /\ ls_out p1 = ls_out p).
    { unfold balloc_post in B1. rewrite (proj2 (Z.eqb_neq _ _)) in B1 by done.
      destruct B1 as (_ & _ & d & -> & _). split; [apply S|done]. }
    assert (Hc : lenL p + absent (sb_bmapstart (x_sb x)) (ls_log p) <= cost (x_sb x) y p).
    { unfold cost. pose proof (absent_range (iaddr y NDIRECT) (ls_log p)). case_match; lia. }
    apply fwp_bind, (fwp_set_fdata _ _ _ ind); [apply hold_held|done| |].
    { apply is_blk_st_le; [apply (lok_blk _ _ _ Hok), (data_home L), Hind| |];
        change MAXFILE with 268 in Hb; change NDIRECT with 12 in *; unfold BSIZE; simpl; lia. }
    apply (fwp_log_write rw pid _ _ ind); [apply hold_held|done|simpl; lia|simpl; unfold lenL, NBUF, LOGSIZE in *; lia|simpl; unfold lenL in *; lia|].
    apply fwp_ret, fwp_bind, (fwp_fbrelse rw pid _ _ ind); [apply hold_held|done|left; simpl; by apply log_add_In; left|].
    rewrite ls_save by (rewrite (proj1 Hp1); apply not_elem_of_empty). apply fwp_ret, HQ. by apply mapped_entry.
Qed.
Lemma mapped_after bn x0 p0 x p r x' p' :
  moved start size ip 0 x0 p0 x p -> fstate start size ip x0 p0 ->
  iblk (ino x0 ip) (ls_view p0) bn = 0 -> iblk (ino x ip) (ls_view p) bn = 0 ->
  mapped bn x p r x' p' -> mapped bn x0 p0 r x' p'.
Proof using Type.
  intros M S0 Hnil Hnil' [Hm Hr Hf Hn Ho].
  assert (Hsb : x_sb x = x_sb x0) by (eapply only_inode_sb; apply M).
  split; [apply (moved_trans _ _ _ 0 1 _ _ _ _ _ _ S0 M Hm)|done|by rewrite <-Hsb|by auto|done].
Qed.

Lemma bmap_spec bn (Q : Z -> fsx -> gmap Z Z -> lspec -> Prop) x t p :
  fstate start size ip x p -> 0 <= bn < MAXFILE -> fits size (cost (x_sb x) (ino x ip) p + 1) p ->
  (forall r x' t' p', mapped bn x p r x' p' -> Q r x' t' p') ->
  fwp (bmap rw pid fuel ip bn) Q x t p.
Proof.
  intros S Hb Hfit HQ. pose proof (st_file _ _ _ _ _ S) as F.
  apply fwp_bind, fwp_geti. cbv zeta. destruct (Z.ltb_spec bn NDIRECT) as [Hd|Hd].
  - assert (Hblk : iblk (ino x ip) (ls_view p) bn = iaddr (ino x ip) bn).
    { unfold iblk. by rewrite (proj2 (Z.ltb_lt _ _)). }
    destruct (Z.eqb_spec (iaddr (ino x ip) bn) 0) as [Hnil|Hold].
    + apply balloc_addr; [done|lia|done|eapply fits_le; [|exact Hfit]; lia|].
      intros r x' t' p' M -> Hf Hl _. apply HQ. rewrite (proj2 (Z.eqb_neq _ _)) in M by lia.
      split; try done; [|by rewrite Hblk]. unfold iblk. by rewrite (proj2 (Z.ltb_lt _ _)).
    + apply fwp_ret, HQ. split; [|by rewrite Hblk|done|congruence|done].
      eapply moved_le; [|by apply moved_refl]. lia.
  - rewrite (proj2 (Z.ltb_lt _ _)) by (unfold MAXFILE in Hb; lia). apply fwp_bind.
    destruct (Z.eqb_spec (iaddr (ino x ip) NDIRECT) 0) as [Hnil|Hold].
    + assert (Hz : iblk (ino x ip) (ls_view p) bn = 0) by (unfold iblk; by rewrite (proj2 (Z.ltb_ge _ _)), Hnil).
      apply balloc_addr; [done|change NDIRECT with 12; lia|done|eapply fits_le; [|exact Hfit]; lia|].
      rewrite Z.eqb_refl. intros r x' t' p' M -> Hf Hl Hs. destruct (Z.eqb_spec (iaddr (ino x' ip) NDIRECT) 0) as [E|E].
      * apply fwp_ret, HQ. split; [by eapply moved_le; [|done]| |intros _; by apply Hf|done|done].
        unfold iblk. by rewrite (proj2 (Z.ltb_ge _ _)), E by done.
      * rewrite (fo_dev _ _ _ F). apply (bmap_entry_spec bn); [apply M|lia|done| |].
        -- pose proof (mv_cost _ _ _ _ _ _ _ _ M). rewrite (only_inode_sb _ _ _ (mv_only _ _ _ _ _ _ _ _ M)).
           unfold fits in *. rewrite (mv_out _ _ _ _ _ _ _ _ M). lia.
        -- intros r x2 t2 p2 Hm. apply HQ. eapply mapped_after; try done. rewrite Hs; [done|lia|by right].
    + apply fwp_ret. rewrite (proj2 (Z.eqb_neq _ _)), (fo_dev _ _ _ F) by done. by apply (bmap_entry_spec bn); [|lia|..].
Qed.
End bmap.
