(* ===== verification/FsRead.v ===== *)
(** * kernel/fs.c: [readi]

    Reading a file returns its bytes. *)

From S2P Require Import Prelude Machine Sleeplock Mem Layout Kalloc Vm VmInv VmCopy Bio BioInv BioSpec BioRefine FsHdr Log LogDisk LogSpec LogCommit LogRun LogOps LogTheorems Printf Fs FsLogic FsBitmap FsFile.

(** ** The bytes of a file *)

(** [n] bytes from offset [off]. *)
Definition frange (y : inode) (v : Z -> mem) (off n : Z) : list Z := map (fbyte y v) (seqZ off n).

(** The contents of the file. *)
Definition content (y : inode) (v : Z -> mem) : list Z := frange y v 0 (i_size y).

Lemma frange_length y v off n : 0 <= n -> Z.of_nat (length (frange y v off n)) = n.
Proof. intros. unfold frange. rewrite length_map, length_seqZ. lia. Qed.

Lemma frange_app y v off a b : 0 <= a -> 0 <= b -> frange y v off (a + b) = frange y v off a ++ frange y v (off + a) b.
Proof. intros. unfold frange. by rewrite seqZ_app, map_app by lia. Qed.

Lemma frange_lookup y v off n i : 0 <= i < n -> frange y v off n !! Z.to_nat i = Some (fbyte y v (off + i)).
Proof.
  intros Hi. unfold frange. etrans; [apply (list_lookup_fmap (fbyte y v))|].
  rewrite lookup_seqZ_lt by lia. simpl. do 2 f_equal. lia.
Qed.

Lemma BSIZE_pos : 0 < BSIZE.
Proof. done. Qed.

(** Offsets in one block. *)
Lemma block_off off i : 0 <= i < BSIZE - off mod BSIZE ->
  (off + i) / BSIZE = off / BSIZE /\ (off + i) mod BSIZE = off mod BSIZE + i.
Proof.
  intros Hi. pose proof BSIZE_pos. pose proof (Z.mod_pos_bound off BSIZE BSIZE_pos).
  pose proof (Z.div_mod off BSIZE ltac:(lia)) as E.
  assert (E' : off + i = BSIZE * (off / BSIZE) + (off mod BSIZE + i)) by lia.
  split.
  - symmetry. eapply Z.div_unique_pos; [|exact E']. lia.
  - symmetry. eapply Z.mod_unique_pos; [|exact E']. lia.
Qed.

Lemma bytes_at_frange y v off m : iblk y v (off / BSIZE) <> 0 -> 0 <= m <= BSIZE - off mod BSIZE ->
  bytes_at (v (iblk y v (off / BSIZE))) (off mod BSIZE) (Z.to_nat m) = frange y v off m.
Proof.
  intros Hb Hm. apply list_eq. intros i. destruct (decide (Z.of_nat i < m)) as [Hi|Hi].
  - rewrite <-(Nat2Z.id i), frange_lookup by lia. unfold bytes_at.
    etrans; [apply (list_lookup_fmap (fun i => ld8 (v (iblk y v (off / BSIZE))) (off mod BSIZE + Z.of_nat i)))|].
    rewrite lookup_seq_lt by lia. simpl. f_equal. unfold fbyte.
    destruct (block_off off (Z.of_nat i) ltac:(lia)) as [-> ->].
    rewrite (proj2 (Z.eqb_neq _ _)) by done. f_equal. lia.
  - pose proof (frange_length y v off m ltac:(lia)).
    rewrite !lookup_ge_None_2; [done|lia|unfold bytes_at; rewrite length_map, length_seq; lia].
Qed.

(** ** [bmap] of a block that the file has *)

Section read.
Context (rw : Z -> bool -> M bcache unit) `{!DiskDriver rw} (pid : Z) (fuel : nat) (upt : Z) (start size ip : Z).

Notation fwp := (fwp pid start size).

(** A block is read and not changed. *)
Lemma fwp_unread n b (Q : unit -> fsx -> gmap Z Z -> lspec -> Prop) x t p :
  home start size n -> ptr t n = b -> n ∉ ls_held p -> Q tt x t p -> lok start size p -> fwp (fbrelse pid b) Q x t (ls_hold n p).
Proof.
  intros Hh Hb Hn HQ Hok. apply (fwp_release rw pid); [done|done| |done].
  destruct (decide (n ∈ ls_log p)) as [?|Hl]; [by left|right]. by apply (lok_clean _ _ _ Hok).
Qed.

Lemma bmap_old bn (Q : Z -> fsx -> gmap Z Z -> lspec -> Prop) x t p :
  fstate start size ip x p -> 0 <= bn < MAXFILE -> iblk (ino x ip) (ls_view p) bn <> 0 -> lenL p < NBUF - 1 ->
  (forall t', Q (iblk (ino x ip) (ls_view p) bn) x t' p) -> fwp (bmap rw pid fuel ip bn) Q x t p.
Proof.
  intros S Hb Hold Hl HQ. pose proof (st_layout _ _ _ _ _ S) as L. pose proof (st_file _ _ _ _ _ S) as F.
  apply fwp_lok. intros Hok. apply fwp_bind, fwp_geti. cbv zeta. unfold iblk in Hold.
  destruct (Z.ltb_spec bn NDIRECT) as [Hd|Hd].
  - rewrite (proj2 (Z.eqb_neq _ _)) by done. apply fwp_ret.
    specialize (HQ t). unfold iblk in HQ. by rewrite (proj2 (Z.ltb_lt _ _)) in HQ.
  - rewrite (proj2 (Z.ltb_lt _ _)) by (unfold MAXFILE in Hb; lia).
    destruct (Z.eqb_spec (iaddr (ino x ip) NDIRECT) 0) as [|Hi]; [done|].
    apply fwp_bind, fwp_ret. rewrite (proj2 (Z.eqb_neq _ _)) by done. rewrite (fo_dev _ _ _ F).
    assert (Hind : data_block (x_sb x) (iaddr (ino x ip) NDIRECT)).
    { rewrite <-(slot_ind (ino x ip) (ls_view p)) in *. apply (fo_slot _ _ _ F); [apply MAXFILE_in|done]. }
    assert (Hh : forall n, n ∉ ls_held p) by (intros n; rewrite (st_held _ _ _ _ _ S); apply not_elem_of_empty).
    apply (fwp_read rw pid fuel); [by apply (data_home L)|done|rewrite (st_held _ _ _ _ _ S), size_empty; lia|done|].
    intros b t' Hbp _. apply fwp_data; [done|]. rewrite (proj2 (Z.eqb_neq (ld32 _ _) _)) by done.
    apply fwp_bind, fwp_ret, fwp_bind, fwp_unread; [by apply (data_home L)|done|done| |done]. apply fwp_ret.
    specialize (HQ t'). by rewrite iblk_entry in HQ.
Qed.
(** ** The loop *)

Definition with_mem (k : kmem) (x : fsx) : fsx := Fsx k (x_sb x) (x_it x).

(** [either_copyout] of [bs] to [dst] succeeds and takes memory from [I] to [J]. *)
Definition delivers (dst : iodst) (bs : list Z) (I J : kmem -> Prop) : Prop :=
  forall x t p (Q : Z -> fsx -> gmap Z Z -> lspec -> Prop),
    I (x_mem x) -> (forall k', J k' -> Q 0 (with_mem k' x) t p) -> fwp (either_copyout upt dst bs) Q x t p.

(** Destinations that take [n] bytes, given by [B], chunk by chunk; [I i] is what
    holds of memory when the first [i] are there. *)
Definition sink (dst : iodst) (B : Z -> Z -> list Z) (n : Z) (I : Z -> kmem -> Prop) : Prop :=
  forall i m, 0 <= i -> 0 < m -> i + m <= n -> delivers (dst_add dst i) (B i m) (I i) (I (i + m)).

Lemma fstate_mem k x p : fstate start size ip x p -> fstate start size ip (with_mem k x) p.
Proof. by intros []. Qed.

Lemma dst_add_add dst a b : dst_add (dst_add dst a) b = dst_add dst (a + b).
Proof. destruct dst; simpl; f_equal; lia. Qed.

Lemma readi_loop_spec dst off0 n I k : forall off tot got (Q : Z * list Z -> fsx -> gmap Z Z -> lspec -> Prop) x t p,
  fstate start size ip x p -> lenL p < NBUF - 1 ->
  0 <= off0 -> off = off0 + tot -> 0 <= tot <= n -> off0 + n <= i_size (ino x ip) -> n - tot <= Z.of_nat k ->
  sink dst (fun i m => frange (ino x ip) (ls_view p) (off0 + i) m) n I -> I tot (x_mem x) ->
  (forall t' k', I n k' -> Q (n, got ++ frange (ino x ip) (ls_view p) off (n - tot)) (with_mem k' x) t' p) ->
  fwp (readi_loop rw pid fuel upt ip (dst_add dst tot) off n tot got k) Q x t p.
Proof.
  induction k as [|k IH]; intros off tot got Q x t p S Hl H0 -> Htot Hsz Hk Hdst Hmem HQ.
  { cbn [readi_loop]. rewrite (proj2 (Z.ltb_ge _ _)) by lia. replace tot with n in * by lia. apply fwp_ret.
    specialize (HQ t _ Hmem). rewrite Z.sub_diag in HQ. unfold frange in HQ. simpl in HQ. rewrite app_nil_r in HQ. by destruct x. }
  cbn [readi_loop]. destruct (Z.ltb_spec tot n) as [Hlt|Hge].
  2: { replace tot with n in * by lia. apply fwp_ret.
    specialize (HQ t _ Hmem). rewrite Z.sub_diag in HQ. unfold frange in HQ. simpl in HQ. rewrite app_nil_r in HQ. by destruct x. }
  pose proof (st_file _ _ _ _ _ S) as F. pose proof (st_layout _ _ _ _ _ S) as L. pose proof (fo_size _ _ _ F) as Hsize.
  set (off := off0 + tot) in *. set (y := ino x ip) in *.
  assert (Hbn : 0 <= off / BSIZE < MAXFILE) by (apply file_block_range; lia).
  pose proof BSIZE_pos. pose proof (Z.mod_pos_bound off BSIZE BSIZE_pos) as Hmod. pose proof (Z.div_mod off BSIZE ltac:(lia)) as Hdm.
  assert (Hold : iblk y (ls_view p) (off / BSIZE) <> 0) by (apply (fo_full _ _ _ F); lia).
  apply fwp_bind, bmap_old; [done|done|done|done|]. intros t1. rewrite (proj2 (Z.eqb_neq _ _)) by done.
  apply fwp_bind, fwp_geti. fold y. rewrite (fo_dev _ _ _ F). apply fwp_lok. intros Hok.
  assert (Hdata : data_block (x_sb x) (iblk y (ls_view p) (off / BSIZE))).
  { rewrite <-slot_blk in * by lia. apply (fo_slot _ _ _ F); [lia|done]. }
  assert (Hh : forall n, n ∉ ls_held p) by (intros n'; rewrite (st_held _ _ _ _ _ S); apply not_elem_of_empty).
  apply (fwp_read rw pid fuel); [by apply (data_home L)|done|rewrite (st_held _ _ _ _ _ S), size_empty; lia|done|].
  intros b t' Hbp _. cbv zeta. apply fwp_data; [done|].
  set (m := Z.min (n - tot) (BSIZE - off mod BSIZE)). rewrite bytes_at_frange by (done || lia).
  apply fwp_bind. apply (Hdst tot m); [lia|lia|lia|done|]. intros k' Hk'. cbn [Z.eqb].
  apply fwp_bind, fwp_unread; [by apply (data_home L)|done|done| |done].
  rewrite dst_add_add. apply IH; [by apply fstate_mem|done|done|lia|lia|done|lia|done|done|].
  intros t2 k2 Hk2. specialize (HQ t2 k2 Hk2). change (ino (with_mem k' x) ip) with y.
  rewrite <-app_assoc. replace (n - tot) with (m + (n - (tot + m))) in HQ by lia. by rewrite frange_app in HQ by lia.
Qed.
(** How many bytes a read of [n] at [off] returns. *)
Definition read_len (y : inode) (off n : Z) : Z :=
  if (i_size y <? off) || (2 ^ 32 <=? off + n) then 0 else Z.min n (i_size y - off).

Lemma u32_wraps off n : 0 <= off < 2 ^ 32 -> 0 <= n < 2 ^ 32 -> (u32 (off + n) <? off) = (2 ^ 32 <=? off + n).
Proof.
  intros Ho Hn. unfold u32. destruct (Z.leb_spec (2 ^ 32) (off + n)) as [H|H].
  - apply Z.ltb_lt. assert (E : (off + n) mod 2 ^ 32 = off + n - 2 ^ 32).
    { symmetry. apply (Z.mod_unique_pos _ _ 1); lia. }
    lia.
  - apply Z.ltb_ge. rewrite Z.mod_small by lia. lia.
Qed.

(** With the block numbers and the contents of a file, [readi] gives its bytes,
    to any destination that takes them. *)
Lemma readi_sink dst off n I (Q : Z * list Z -> fsx -> gmap Z Z -> lspec -> Prop) x t p :
  fstate start size ip x p -> lenL p < NBUF - 1 -> 0 <= off < 2 ^ 32 -> 0 <= n < 2 ^ 32 ->
  let m := read_len (ino x ip) off n in
  sink dst (fun i k => frange (ino x ip) (ls_view p) (off + i) k) m I -> I 0 (x_mem x) ->
  (forall t' k', I m k' -> Q (m, frange (ino x ip) (ls_view p) off m) (with_mem k' x) t' p) ->
  fwp (readi rw pid fuel upt ip dst off n) Q x t p.
Proof.
  intros S Hl Hoff Hn m Hdst Hmem HQ. apply fwp_bind, fwp_geti. rewrite u32_wraps by done.
  subst m. unfold read_len in *. destruct (_ || _) eqn:E.
  { apply fwp_ret. specialize (HQ t _ Hmem). unfold frange in HQ. simpl in HQ. by destruct x. }
  zbool. pose proof (fo_size _ _ _ (st_file _ _ _ _ _ S)).
  rewrite u32_small by lia. cbv zeta.
  set (k := if i_size (ino x ip) <? off + n then i_size (ino x ip) - off else n).
  assert (Hk : k = Z.min n (i_size (ino x ip) - off)).
  { subst k. destruct (Z.ltb_spec (i_size (ino x ip)) (off + n)); lia. }
  rewrite <-Hk in *. replace dst with (dst_add dst 0) by (destruct dst; simpl; f_equal; lia).
  apply (readi_loop_spec dst off k I); [done|done|lia|lia|lia|lia|lia|done|done|].
  by rewrite Z.sub_0_r.
Qed.

(** *** Into a variable of the kernel *)

Lemma sink_local B n k : sink ToLocal B n (fun _ k' => k' = k).
Proof. intros i m _ _ _ x t p Q Hk HQ. apply fwp_ret. specialize (HQ _ Hk). by destruct x. Qed.

Lemma readi_local off n (Q : Z * list Z -> fsx -> gmap Z Z -> lspec -> Prop) x t p :
  fstate start size ip x p -> lenL p < NBUF - 1 -> 0 <= off < 2 ^ 32 -> 0 <= n < 2 ^ 32 ->
  let m := read_len (ino x ip) off n in
  (forall t', Q (m, frange (ino x ip) (ls_view p) off m) x t' p) ->
  fwp (readi rw pid fuel upt ip ToLocal off n) Q x t p.
Proof.
  intros S Hl Ho Hn m HQ. eapply (readi_sink _ _ _ (fun _ k' => k' = x_mem x)); try done; [apply sink_local|].
  intros t' k' ->. specialize (HQ t'). by destruct x.
Qed.

(** *** Into kernel memory, as [exec] does *)

Lemma store_bytes_app m a bs bs' : store_bytes m a (bs ++ bs') = store_bytes (store_bytes m a bs) (a + Z.of_nat (length bs)) bs'.
Proof.
  revert m a. induction bs as [|b bs IH]; intros m a; simpl.
  - f_equal. lia.
  - rewrite IH. f_equal. lia.
Qed.

Lemma fwp_mem (f : kmem -> kmem) Q x t p : Q tt (with_mem (f (x_mem x)) x) t p -> fwp (zoom mem_of (modify f)) Q x t p.
Proof. intros HQ l a w s S Hw R. by exists w, s, l, a, (with_mem (f (x_mem x)) x), t, p, tt. Qed.

Lemma sink_kernel pa y v off n k : 0 <= n ->
  sink (ToKernel pa) (fun i m => frange y v (off + i) m) n
    (fun i k' => k' = set_mem (store_bytes (km_mem k) pa (frange y v off i)) k).
Proof.
  intros Hn i m Hi Hm Him x t p Q Hk HQ. apply fwp_bind, fwp_mem, fwp_ret, HQ. rewrite Hk. simpl.
  by rewrite frange_app, store_bytes_app, frange_length by lia.
Qed.

(** *** To a user address *)

Context (kend : Z) (Hend : KERNBASE <= kend <= PHYSTOP).

(** The user's memory after [bs] has been copied to [a]. *)
Record user_has (a : Z) (k : kmem) (l : list Z) (T : ptree) (bs : list Z) (k' : kmem) : Prop := {
  uh_vm : vm_inv kend k' l upt T;
  uh_pages : upages_ok kend (km_mem k') l T;
  uh_copied : ucopied (km_mem k) (km_mem k') T a bs }.

Definition byte (c : Z) : Prop := 0 <= c < 256.

Lemma sink_user a k l T y v off n : 0 <= a -> a + n <= MAXVA -> 0 <= n -> Forall byte (frange y v off n) ->
  (forall i, 0 <= i < n -> uget (km_mem k) T (a + i) <> None) ->
  sink (ToUser a) (fun i m => frange y v (off + i) m) n (fun i => user_has a k l T (frange y v off i)).
Proof.
  intros Ha Hmax Hn Hb Hmap i m Hi Hm Him x t p Q [Hvm Hup Hc] HQ. simpl either_copyout.
  rewrite MAXVA_val in Hmax. rewrite u64_small by lia.
  assert (Hbi : Forall byte (frange y v (off + i) m)).
  { replace n with (i + (m + (n - (i + m)))) in Hb by lia. rewrite !frange_app in Hb by lia.
    apply Forall_app in Hb as [_ Hb]. by apply Forall_app in Hb as [Hb _]. }
  pose proof (frange_length y v (off + i) m ltac:(lia)) as Hlen. pose proof (frange_length y v off i ltac:(lia)) as Hlen'.
  intros ls ab w s S Hw R.
  destruct (copyout_loop_spec kend Hend w (x_mem x) l upt T (a + i) (frange y v (off + i) m)
    (length (frange y v (off + i) m)) Hvm Hup ltac:(lia) Hbi ltac:(done)) as (k' & r & j & Hrun & Hvm' & Hup' & Hc' & Hres).
  destruct Hres as [[-> ->]|(-> & Hj & Hnone)].
  - rewrite firstn_all in Hc'. exists w, s, ls, ab, (with_mem k' x), t, p, 0. split; [|split_and!; try done].
    + by erewrite zoom_ret by (simpl; exact Hrun).
    + apply HQ. split; try done. rewrite frange_app by lia. eapply ucopied_trans; [done|]. by rewrite Hlen'.
  - exfalso. apply (Hmap (i + Z.of_nat j)); [lia|]. rewrite Z.add_assoc, <-Hnone.
    pose proof (uc_upa _ _ _ _ _ Hc) as Hu. unfold uget in *. rewrite Hu in Hnone |- *.
    destruct (_ =? 0); done.
Qed.
End read.
