(* ===== verification/FsWrite.v ===== *)
(** * kernel/fs.c: [writei] and [iupdate]

    Writing to a file changes the bytes written and no other byte of the file
    system, within the number of blocks that one transaction may log. *)

From S2P Require Import Prelude Machine Sleeplock Mem Layout Kalloc Vm VmInv VmCopy Bio BioInv BioSpec BioRefine FsHdr Log LogDisk LogSpec LogCommit LogRun LogOps LogTheorems Printf Fs FsLogic FsBitmap FsFile FsRead.

(** ** Changes to a file *)

(** As [extended], except for the bytes of the file and its blocks. *)
Record evolved (sb : superblock) (y : inode) (v : Z -> mem) (y' : inode) (v' : Z -> mem) : Prop := {
  ev_ok : file_ok sb v' y';
  ev_fields : same_fields y y';
  ev_used n : used sb v n = true -> used sb v' n = true;
  ev_slot s : 0 <= s <= MAXFILE -> slot y v s <> 0 -> slot y' v' s = slot y v s;
  ev_new s : 0 <= s <= MAXFILE -> slot y v s = 0 -> slot y' v' s = 0 \/ used sb v (slot y' v' s) = false;
  ev_frame n : 0 < n -> used sb v n = true -> n <> sb_bmapstart sb ->
    (forall s, 0 <= s <= MAXFILE -> n <> slot y v s) -> v' n = v n }.

Lemma extended_evolved sb y v y' v' : extended sb y v y' v' -> evolved sb y v y' v'.
Proof.
  intros E. split; try apply E. intros n Hn Hu Hb Hs. apply (e_frame _ _ _ _ _ E); try done.
  rewrite <-(slot_ind y v). apply Hs, MAXFILE_in.
Qed.

Lemma evolved_trans sb y1 v1 y2 v2 y3 v3 :
  evolved sb y1 v1 y2 v2 -> evolved sb y2 v2 y3 v3 -> evolved sb y1 v1 y3 v3.
Proof.
  intros E1 E2. split.
  - apply E2.
  - pose proof (ev_fields _ _ _ _ _ E1) as H1. pose proof (ev_fields _ _ _ _ _ E2) as H2.
    unfold same_fields in *. rewrite H2, H1. done.
  - intros n Hn. by apply (ev_used _ _ _ _ _ E2), (ev_used _ _ _ _ _ E1).
  - intros s Hs Hn. pose proof (ev_slot _ _ _ _ _ E1 s Hs Hn) as E. by rewrite (ev_slot _ _ _ _ _ E2), E by congruence.
  - intros s Hs Hn. destruct (decide (slot y2 v2 s = 0)) as [E|E].
    + destruct (ev_new _ _ _ _ _ E2 s Hs E) as [?|Hu]; [by left|right].
      apply not_true_is_false. intros Hu'. apply (ev_used _ _ _ _ _ E1) in Hu'. congruence.
    + rewrite (ev_slot _ _ _ _ _ E2) by done. by apply E1.
  - intros n Hp Hu Hb Hs. rewrite (ev_frame _ _ _ _ _ E2), (ev_frame _ _ _ _ _ E1); try done.
    + by apply (ev_used _ _ _ _ _ E1).
    + intros s Hs' ->. destruct (decide (slot y1 v1 s = 0)) as [E|E].
      * destruct (ev_new _ _ _ _ _ E1 s Hs' E); [lia|congruence].
      * apply (Hs s Hs'). by rewrite (ev_slot _ _ _ _ _ E1).
Qed.

(** ** One block of the file is replaced *)

Section store.
Context {sb : superblock} {y : inode} {p : lspec} {bn : Z} (d : mem).
Context (Hbm : 0 <= sb_bmapstart sb) (F : file_ok sb (ls_view p) y) (Hbn : 0 <= bn < MAXFILE) (Hn : iblk y (ls_view p) bn <> 0).

Notation r := (iblk y (ls_view p) bn).
Notation p' := (ls_update r d p).

Lemma store_r : data_block sb r /\ (iaddr y NDIRECT <> 0 -> iaddr y NDIRECT <> r).
Proof using F Hbn Hn.
  clear d. rewrite <-slot_blk in * by lia. split; [by apply (fo_slot _ _ _ F); [lia|]|].
  intros Hi E. rewrite <-(slot_ind y (ls_view p)) in E, Hi. pose proof MAXFILE_in.
  apply (fo_inj _ _ _ F) in E; lia.
Qed.

Lemma store_slot s : slot y (ls_view p') s = slot y (ls_view p) s.
Proof using F Hbn Hn.
  destruct store_r as [_ Hi]. unfold slot at 1 2. case_match; [done|]. unfold iblk at 1 3.
  case_match; [done|]. destruct (Z.eqb_spec (iaddr y NDIRECT) 0) as [|Hne]; [done|].
  rewrite ls_update_view; [done|by apply Hi].
Qed.

Lemma store_used n : used sb (ls_view p') n = used sb (ls_view p) n.
Proof using F Hbn Hn. destruct store_r as [[] _]. unfold used. rewrite ls_update_view; [done|lia]. Qed.

Lemma store_ok : file_ok sb (ls_view p') y.
Proof using F Hbn Hn.
  split; [apply F|..].
  - intros s. rewrite store_slot, store_used. apply F.
  - intros s s'. rewrite !store_slot. apply F.
  - apply F.
  - intros b Hb Hs. pose proof (fo_size _ _ _ F). assert (b < MAXFILE) by (unfold BSIZE in *; lia).
    rewrite <-slot_blk, store_slot, slot_blk by done. by apply F.
Qed.

Lemma store_evolved : evolved sb y (ls_view p) y (ls_view p').
Proof using F Hbn Hn.
  split.
  - apply store_ok.
  - by destruct y.
  - intros n. by rewrite store_used.
  - intros s _ _. apply store_slot.
  - intros s _ E. left. by rewrite store_slot.
  - intros n _ _ _ Hs. apply ls_update_view. rewrite <-slot_blk by lia. apply Hs. lia.
Qed.

Lemma store_byte o : 0 <= o < MAXFILE * BSIZE ->
  fbyte y (ls_view p') o = if o / BSIZE =? bn then ld8 d (o mod BSIZE) else fbyte y (ls_view p) o.
Proof using F Hbn Hn.
  intros Ho. apply file_block_range in Ho. unfold fbyte.
  rewrite <-(slot_blk y (ls_view p') (o / BSIZE)), <-(slot_blk y (ls_view p) (o / BSIZE)), store_slot by lia.
  destruct (Z.eqb_spec (o / BSIZE) bn) as [->|Hne].
  - rewrite slot_blk, (proj2 (Z.eqb_neq _ _)) by (done || lia). by rewrite ls_update_view_eq.
  - destruct (Z.eqb_spec (slot y (ls_view p) (o / BSIZE)) 0) as [|Hs]; [done|].
    rewrite ls_update_view; [done|]. rewrite <-slot_blk by lia. intros E.
    apply (fo_inj _ _ _ F) in E; lia.
Qed.

Lemma store_cost : cost sb y p' <= cost sb y p + absent r (ls_log p).
Proof using Type.
  unfold cost. rewrite lenL_update. cbn [ls_log ls_update].
  pose proof (absent_mono (sb_bmapstart sb) (ls_log p) (log_add r (ls_log p)) ltac:(intros; apply log_add_In; auto)).
  pose proof (absent_mono (iaddr y NDIRECT) (ls_log p) (log_add r (ls_log p)) ltac:(intros; apply log_add_In; auto)).
  case_match; lia.
Qed.
End store.

(** ** Bytes written so far *)

Definition len (bs : list Z) : Z := Z.of_nat (length bs).

Record wrote (start size ip k off : Z) (bs : list Z) (x : fsx) (p : lspec) (x' : fsx) (p' : lspec) : Prop := {
  wr_state : fstate start size ip x' p';
  wr_only : only_inode ip x x';
  wr_ev : evolved (x_sb x) (ino x ip) (ls_view p) (ino x' ip) (ls_view p');
  wr_out : ls_out p' = ls_out p;
  wr_cost : cost (x_sb x) (ino x' ip) p' <= cost (x_sb x) (ino x ip) p + k;
  wr_byte o : 0 <= o < MAXFILE * BSIZE -> fbyte (ino x' ip) (ls_view p') o =
    if decide (off <= o < off + len bs) then default 0 (bs !! Z.to_nat (o - off)) else fbyte (ino x ip) (ls_view p) o;
  wr_map bn : 0 < len bs -> off / BSIZE <= bn -> bn * BSIZE < off + len bs -> iblk (ino x' ip) (ls_view p') bn <> 0 }.

Lemma wrote_moved start size ip k off x p x' p' : moved start size ip k x p x' p' -> wrote start size ip k off [] x p x' p'.
Proof.
  intros [S O E Ho C]. split; try done; [by apply extended_evolved|].
  intros o Hb. rewrite decide_False by (unfold len; simpl; lia). by apply (e_byte _ _ _ _ _ E).
Qed.

Lemma wrote_le start size ip k k' off bs x p x' p' : k <= k' -> wrote start size ip k off bs x p x' p' -> wrote start size ip k' off bs x p x' p'.
Proof. intros Hk []. split; try done. lia. Qed.

Lemma wrote_trans start size ip k1 k2 off bs1 bs2 x1 p1 x2 p2 x3 p3 : 0 <= off -> off + len bs1 + len bs2 <= MAXFILE * BSIZE ->
  wrote start size ip k1 off bs1 x1 p1 x2 p2 -> wrote start size ip k2 (off + len bs1) bs2 x2 p2 x3 p3 ->
  wrote start size ip (k1 + k2) off (bs1 ++ bs2) x1 p1 x3 p3.
Proof.
  intros Hoff Hmax [S1 O1 E1 Ho1 C1 B1 M1] [S2 O2 E2 Ho2 C2 B2 M2]. pose proof (only_inode_sb _ _ _ O1) as Hsb. rewrite Hsb in E2, C2.
  assert (Hlen : len (bs1 ++ bs2) = len bs1 + len bs2) by (unfold len; rewrite length_app; lia).
  assert (0 <= len bs1 /\ 0 <= len bs2) by (unfold len; lia). split.
  - done.
  - by eapply only_inode_trans.
  - by eapply evolved_trans.
  - congruence.
  - lia.
  - intros o Hb. rewrite B2, B1, Hlen by done. repeat case_decide; try lia; try done.
    + f_equal. symmetry. rewrite lookup_app_r by (unfold len in *; lia). f_equal. unfold len in *. lia.
    + f_equal. symmetry. apply lookup_app_l. unfold len in *. lia.
  - intros bn H0 H1 H2. rewrite Hlen in H0, H2.
    assert (Hbn : 0 <= bn < MAXFILE).
    { pose proof BSIZE_pos. pose proof (Z.div_pos off BSIZE Hoff BSIZE_pos). nia. }
    destruct (Z_lt_le_dec (bn * BSIZE) (off + len bs1)) as [Hlt|Hge].
    + destruct (Z_lt_le_dec 0 (len bs1)) as [Hp|Hp].
      * specialize (M1 bn Hp H1 Hlt). rewrite <-slot_blk in * by lia. by rewrite (ev_slot _ _ _ _ _ E2) by (done || lia).
      * apply M2; [lia| |lia]. replace (off + len bs1) with off by lia. done.
    + apply M2; [lia| |lia]. apply Z.div_le_upper_bound; [done|]. lia.
Qed.

(** A chunk stored in block [bn] of the file, as bytes of the file. *)
Lemma chunk_byte y v bn off bs o :
  iblk y v bn <> 0 -> 0 <= off -> bn = off / BSIZE -> Forall (fun c => 0 <= c < 256) bs -> 0 < len bs <= BSIZE - off mod BSIZE ->
  (if o / BSIZE =? bn then ld8 (store_bytes (v (iblk y v bn)) (off mod BSIZE) bs) (o mod BSIZE) else fbyte y v o) =
  if decide (off <= o < off + len bs) then default 0 (bs !! Z.to_nat (o - off)) else fbyte y v o.
Proof.
  intros Hn Hoff Hbn Hbs Hlen. destruct (Z.eqb_spec (o / BSIZE) bn) as [E|Hne].
  - assert (Hdm : o - off = o mod BSIZE - off mod BSIZE).
    { rewrite Hbn in E. pose proof (Z.div_mod o BSIZE ltac:(done)). pose proof (Z.div_mod off BSIZE ltac:(done)). lia. }
    rewrite ld8_store_bytes by done. unfold len in *.
    destruct (decide (off mod BSIZE <= o mod BSIZE < off mod BSIZE + Z.of_nat (length bs))).
    + rewrite decide_True by lia. do 2 f_equal. lia.
    + rewrite decide_False by lia. unfold fbyte. rewrite E. by rewrite (proj2 (Z.eqb_neq _ _)).
  - rewrite decide_False; [done|]. intros Ho'. apply Hne. rewrite Hbn.
    replace o with (off + (o - off)) by lia. apply block_off. lia.
Qed.

Section block.
Context {start size ip bn r off : Z} {bs : list Z} {x x' : fsx} {p p' : lspec}.
Context (S : fstate start size ip x p) (Hm : mapped start size ip bn x p r x' p') (Hr : r <> 0).
Context (Hoff : 0 <= off) (Hbn : bn = off / BSIZE) (Hlt : bn < MAXFILE) (Hbs : Forall (fun c => 0 <= c < 256) bs).
Context (Hlen : 0 < len bs <= BSIZE - off mod BSIZE).

Notation d := (store_bytes (ls_view p' r) (off mod BSIZE) bs).

Lemma wrote_block : wrote start size ip 1 off bs x p x' (ls_update r d p').
Proof using S Hm Hr Hoff Hbn Hlt Hbs Hlen.
  pose proof (mp_moved _ _ _ _ _ _ _ _ _ Hm) as [S' O E Ho C]. pose proof (mp_r _ _ _ _ _ _ _ _ _ Hm) as Er.
  pose proof (only_inode_sb _ _ _ O) as Hsb. pose proof (st_file _ _ _ _ _ S') as F'. rewrite Hsb in F'.
  pose proof (st_meta _ _ _ _ _ S') as Hmeta. rewrite Hsb in Hmeta.
  pose proof (Z.div_pos off BSIZE Hoff BSIZE_pos) as Hpos.
  assert (Hb : 0 <= bn < MAXFILE) by lia.
  assert (Hn : iblk (ino x' ip) (ls_view p') bn <> 0) by congruence.
  pose proof (store_evolved d F' Hb Hn) as Ev. rewrite <-Er in Ev. split.
  - split; try apply S'; rewrite Hsb; [|apply Ev]. intros n Hn'. apply (ev_used _ _ _ _ _ Ev), Hmeta, Hn'.
  - done.
  - eapply evolved_trans; [by apply extended_evolved|done].
  - done.
  - pose proof (store_cost (sb := x_sb x) (y := ino x' ip) (p := p') (bn := bn) d) as Hc. rewrite <-Er in Hc.
    destruct (decide (iblk (ino x ip) (ls_view p) bn = 0)) as [E0|E0].
    + rewrite (absent_In r) in Hc by (by apply (mp_new _ _ _ _ _ _ _ _ _ Hm)). lia.
    + destruct (mp_old _ _ _ _ _ _ _ _ _ Hm E0) as [-> ->]. pose proof (absent_range r (ls_log p)). lia.
  - intros o Hb'. pose proof (store_byte d F' Hb Hn o Hb') as Hs. rewrite <-Er in Hs. rewrite Hs.
    pose proof (chunk_byte (ino x' ip) (ls_view p') bn off bs o Hn Hoff Hbn Hbs Hlen) as Hc. rewrite <-Er in Hc. rewrite Hc.
    case_decide; [done|]. by apply (e_byte _ _ _ _ _ E).
  - intros b _ H1 H2. assert (b = bn) as ->.
    { pose proof (Z.mod_pos_bound off BSIZE BSIZE_pos). pose proof (Z.div_mod off BSIZE ltac:(done)). pose proof BSIZE_pos. nia. }
    rewrite <-slot_blk, (ev_slot _ _ _ _ _ Ev), slot_blk by (lia || by rewrite slot_blk). done.
Qed.
End block.

(** ** The loop *)

(** The number of blocks that [n] bytes at [off] touch. *)
Definition span (off n : Z) : Z := if n <=? 0 then 0 else (off + n - 1) / BSIZE - off / BSIZE + 1.

Lemma span_step off n m : 0 <= off -> 0 < n -> m = Z.min n (BSIZE - off mod BSIZE) -> 1 + span (off + m) (n - m) <= span off n.
Proof.
  intros Hoff Hn Hm. pose proof BSIZE_pos. pose proof (Z.mod_pos_bound off BSIZE BSIZE_pos).
  pose proof (Z.div_mod off BSIZE ltac:(lia)). unfold span. rewrite (proj2 (Z.leb_gt n 0)) by lia.
  destruct (Z.leb_spec (n - m) 0) as [Hle|Hgt].
  - pose proof (Z.div_le_mono off (off + n - 1) BSIZE ltac:(lia) ltac:(lia)). lia.
  - replace (off + m) with ((off / BSIZE + 1) * BSIZE) by lia. rewrite Z.div_mul by lia.
    replace ((off / BSIZE + 1) * BSIZE + (n - m) - 1) with (off + n - 1) by lia. lia.
Qed.

Lemma span_pos off n : 0 <= off -> 0 <= span off n.
Proof.
  intros Hoff. unfold span. destruct (Z.leb_spec n 0); [lia|].
  pose proof (Z.div_le_mono off (off + n - 1) BSIZE BSIZE_pos ltac:(lia)). lia.
Qed.

Lemma is_blk_store d a bs : is_blk d -> 0 <= a -> a + len bs <= BSIZE -> is_blk (store_bytes d a bs).
Proof.
  unfold len. revert d a. induction bs as [|b bs IH]; intros d a Hd Ha Hl; simpl in *; [done|].
  apply IH; [apply is_blk_st8; [done|lia]|lia|lia].
Qed.

Section write.
Context (rw : Z -> bool -> M bcache unit) `{!DiskDriver rw} (pid : Z) (fuel : nat) (upt : Z) (start size ip : Z).

Notation fwp := (fwp pid start size).

(** [either_copyin] gets the bytes [bs] from [src], while the memory is [k]. *)
Definition supplies (src : iosrc) (bs : list Z) (k : kmem) : Prop :=
  forall i m x t p (Q : Z * list Z -> fsx -> gmap Z Z -> lspec -> Prop),
    x_mem x = k -> 0 <= i -> 0 <= m -> i + m <= len bs ->
    Q (0, take (Z.to_nat m) (drop (Z.to_nat i) bs)) x t p -> fwp (either_copyin upt (src_add src i) m) Q x t p.

Lemma supplies_local bs k : supplies (FromLocal bs) bs k.
Proof. intros i m x t p Q _ Hi Hm Him HQ. by apply fwp_ret. Qed.

Lemma ugets_length m T n : forall va bs, ugets m T va n = Some bs -> length bs = n.
Proof.
  induction n as [|n IH]; intros va bs H; simpl in H; [by simplify_eq|].
  destruct (uget m T va); simpl in H; [|done]. destruct (ugets m T (va + 1) n) eqn:E; simpl in H; [|done].
  simplify_eq. simpl. f_equal. by eapply IH.
Qed.

Lemma ugets_sub m T va n i k bs : ugets m T va n = Some bs -> (i + k <= n)%nat ->
  ugets m T (va + Z.of_nat i) k = Some (take k (drop i bs)).
Proof.
  intros H Hik. replace n with (i + (k + (n - i - k)))%nat in H by lia. rewrite !ugets_app in H.
  destruct (ugets m T va i) as [b1|] eqn:E1; simpl in H; [|done].
  destruct (ugets m T (va + Z.of_nat i) k) as [b2|] eqn:E2; simpl in H; [|done].
  destruct (ugets m T _ (n - i - k)) as [b3|] eqn:E3; simpl in H; [|done]. simplify_eq. f_equal.
  apply ugets_length in E1, E2. rewrite drop_app_length' by done. by rewrite take_app_length'.
Qed.

(** From a user address that is mapped. *)
Lemma supplies_user kend l T a bs k : KERNBASE <= kend <= PHYSTOP -> vm_inv kend k l upt T ->
  0 <= a -> a + len bs <= 2 ^ 64 -> ugets (km_mem k) T a (length bs) = Some bs -> supplies (FromUser a) bs k.
Proof.
  intros Hend Hvm Ha Hmax Hg i m x t p Q <- Hi Hm Him HQ. simpl either_copyin. intros ls ab w s S Hw R.
  destruct (decide (m = 0)) as [->|Hne].
  { exists w, s, ls, ab, x, t, p, (0, []). split; [by destruct x|]. split_and!; done. }
  rewrite u64_small by lia.
  destruct (copyin_loop_spec kend Hend w (x_mem x) upt T (a + i) m [] (Z.to_nat m) (vi_pt _ _ _ _ _ Hvm) ltac:(lia) ltac:(lia))
    as (r & bs' & Hrun & Hres).
  assert (E : ugets (km_mem (x_mem x)) T (a + i) (Z.to_nat m) = Some (take (Z.to_nat m) (drop (Z.to_nat i) bs))).
  { replace i with (Z.of_nat (Z.to_nat i)) at 1 by lia. eapply ugets_sub; [done|]. unfold len in Him. lia. }
  rewrite E in Hres. destruct Hres as [-> ->].
  exists w, s, ls, ab, x, t, p, (0, take (Z.to_nat m) (drop (Z.to_nat i) bs)). split; [|by split_and!].
  erewrite zoom_ret by (simpl; exact Hrun). by destruct x.
Qed.

Lemma src_add_add src a b : 0 <= a -> 0 <= b -> src_add (src_add src a) b = src_add src (a + b).
Proof.
  intros Ha Hb. destruct src; simpl; f_equal; [lia|]. rewrite drop_drop. f_equal. lia.
Qed.

Lemma only_inode_mem x x' : only_inode ip x x' -> x_mem x' = x_mem x.
Proof. by intros ->. Qed.

Lemma take_take_drop (bs : list Z) a b : take a bs ++ take b (drop a bs) = take (a + b) bs.
Proof. by rewrite take_take_drop. Qed.

(** The body of the loop after [bmap]. *)
Lemma write_chunk addr s m off chunk fail (rest : M fsst (Z * Z)) Q x t p :
  fstate start size ip x p -> data_block (x_sb x) addr -> room size 0 p ->
  (forall t p (Q' : Z * list Z -> fsx -> gmap Z Z -> lspec -> Prop), Q' (0, chunk) x t p -> fwp (either_copyin upt s m) Q' x t p) ->
  off mod BSIZE + len chunk <= BSIZE ->
  (forall t', fwp rest Q x t' (ls_update addr (store_bytes (ls_view p addr) (off mod BSIZE) chunk) p)) ->
  fwp (dev ← geti i_dev ip;
       bp ← fbread rw pid fuel dev addr;
       r ← either_copyin upt s m;
       d ← fdata bp;
       set_fdata bp (store_bytes d (off mod BSIZE) r.2);;
       if r.1 =? -1 then fbrelse pid bp;; fail else flog_write bp;; fbrelse pid bp;; rest) Q x t p.
Proof.
  intros S Hd (Ho & Hr1 & Hr2) Hs Hl HQ. pose proof (st_layout _ _ _ _ _ S) as L.
  apply fwp_bind, fwp_geti. rewrite (fo_dev _ _ _ (st_file _ _ _ _ _ S)). apply fwp_lok. intros Hok.
  assert (Hh : addr ∉ ls_held p) by (rewrite (st_held _ _ _ _ _ S); apply not_elem_of_empty).
  apply (fwp_read rw pid fuel); [by apply (data_home L)|done|rewrite (st_held _ _ _ _ _ S), size_empty; lia|lia|].
  intros b t' Hb _. apply fwp_bind, Hs, fwp_data; [done|]. simpl fst. simpl snd.
  apply fwp_bind, (fwp_set_fdata _ _ _ addr); [apply hold_held|done| |].
  { apply is_blk_store; [by apply (lok_blk _ _ _ Hok), (data_home L)|apply Z.mod_pos_bound, BSIZE_pos|done]. }
  cbn [Z.eqb]. unfold lenL, NBUF in *.
  apply fwp_bind, (fwp_log_write rw pid _ _ addr); [apply hold_held|done|done|unfold LOGSIZE; simpl; lia|simpl; lia|].
  apply fwp_bind, (fwp_fbrelse rw pid _ _ addr); [apply hold_held|done|left; by apply log_add_In; left|].
  rewrite ls_save by done. apply HQ.
Qed.

Lemma writei_loop_spec src bs off0 k fuel' : forall off tot (Q : Z * Z -> fsx -> gmap Z Z -> lspec -> Prop) x t p,
  let n := len bs in
  fstate start size ip x p -> supplies src bs k -> x_mem x = k -> Forall (fun c => 0 <= c < 256) bs ->
  0 <= off0 -> off = off0 + tot -> 0 <= tot <= n -> off0 + n <= MAXFILE * BSIZE -> n - tot <= Z.of_nat fuel' ->
  fits size (cost (x_sb x) (ino x ip) p + span off (n - tot)) p ->
  (forall r x' t' p', 0 <= r <= n - tot -> (r = n - tot \/ all_used (x_sb x) (ls_view p') /\ i_size (ino x ip) <= off + r) ->
     wrote start size ip (span off (n - tot)) off (take (Z.to_nat r) (drop (Z.to_nat tot) bs)) x p x' p' ->
     Q (off + r, tot + r) x' t' p') ->
  fwp (writei_loop rw pid fuel upt ip (src_add src tot) off n tot fuel') Q x t p.
Proof.
  induction fuel' as [|fuel' IH]; intros off tot Q x t p n S Hsrc Hmem Hbs H0 Hoff Htot Hmax Hk Hfit HQ.
  { cbn [writei_loop]. rewrite (proj2 (Z.ltb_ge _ _)) by lia. apply fwp_ret.
    rewrite <-(Z.add_0_r off), <-(Z.add_0_r tot). apply HQ; [lia|left; lia|].
    eapply wrote_le; [by apply span_pos; lia|]. by apply wrote_moved, moved_refl. }
  cbn [writei_loop]. destruct (Z.ltb_spec tot n) as [Hlt|Hge].
  2: { apply fwp_ret. rewrite <-(Z.add_0_r off), <-(Z.add_0_r tot). apply HQ; [lia|left; lia|].
    eapply wrote_le; [by apply span_pos; lia|]. by apply wrote_moved, moved_refl. }
  pose proof BSIZE_pos. pose proof (Z.mod_pos_bound off BSIZE BSIZE_pos) as Hmod.
  set (m := Z.min (n - tot) (BSIZE - off mod BSIZE)).
  pose proof (span_step off (n - tot) m ltac:(lia) ltac:(lia) eq_refl) as Hspan.
  pose proof (span_pos (off + m) (n - tot - m) ltac:(lia)) as Hsp.
  assert (Hbn : 0 <= off / BSIZE < MAXFILE) by (apply file_block_range; lia).
  apply fwp_bind, (bmap_spec rw pid fuel start size ip); [done|done|eapply fits_le; [|exact Hfit]; lia|].
  intros r x1 t1 p1 Hm. pose proof (mp_moved _ _ _ _ _ _ _ _ _ Hm) as M1. destruct (Z.eqb_spec r 0) as [->|Hr].
  { apply fwp_ret. rewrite <-(Z.add_0_r off), <-(Z.add_0_r tot). apply HQ; [lia| |].
    - right. split; [by apply (mp_full _ _ _ _ _ _ _ _ _ Hm)|]. apply Z.nlt_ge. intros Hin.
      assert (Hne : iblk (ino x ip) (ls_view p) (off / BSIZE) <> 0).
      { apply (fo_full _ _ _ (st_file _ _ _ _ _ S)); [lia|]. pose proof (Z.mul_div_le off BSIZE BSIZE_pos). lia. }
      destruct (mp_old _ _ _ _ _ _ _ _ _ Hm Hne) as [-> ->]. by rewrite <- (mp_r _ _ _ _ _ _ _ _ _ Hm) in Hne.
    - eapply wrote_le; [|by apply wrote_moved]. lia. }
  pose proof (mv_cost _ _ _ _ _ _ _ _ M1) as Hc1. pose proof (only_inode_sb _ _ _ (mv_only _ _ _ _ _ _ _ _ M1)) as Hsb.
  pose proof (only_inode_mem _ _ (mv_only _ _ _ _ _ _ _ _ M1)) as Hmem1. pose proof (mv_out _ _ _ _ _ _ _ _ M1) as Ho1.
  set (chunk := take (Z.to_nat m) (drop (Z.to_nat tot) bs)).
  assert (Hchunk : len chunk = m).
  { subst chunk. unfold len in *. rewrite length_take, length_drop. lia. }
  assert (Hcb : Forall (fun c => 0 <= c < 256) chunk) by (by apply Forall_take, Forall_drop).
  assert (W : wrote start size ip 1 off chunk x p x1 (ls_update r (store_bytes (ls_view p1 r) (off mod BSIZE) chunk) p1)).
  { apply (wrote_block S Hm Hr); [lia|done|lia|done|lia]. }
  cbv zeta. apply (write_chunk _ _ _ _ chunk); [apply M1| | |intros; apply Hsrc; try done; [congruence|lia..]|lia|].
  { rewrite (mp_r _ _ _ _ _ _ _ _ _ Hm), <-slot_blk in * by lia.
    apply (fo_slot _ _ _ (st_file _ _ _ _ _ (mv_state _ _ _ _ _ _ _ _ M1))); [lia|done]. }
  { pose proof (cost_lenL (x_sb x) (ino x1 ip) p1). unfold fits, room in *. lia. }
  intros t2. rewrite src_add_add by lia. pose proof (wr_cost _ _ _ _ _ _ _ _ _ _ W) as Hc2. fold m.
  apply IH; [apply W|done|congruence|done|done|lia|lia|done|lia| |].
  { rewrite Hsb. unfold fits in *. simpl ls_out. fold n. replace (n - (tot + m)) with (n - tot - m) by lia. lia. }
  fold n. intros r2 x2 t3 p2 Hr2 Hfull W2. rewrite <-!Z.add_assoc. apply HQ; [lia| |].
  { rewrite Hsb in Hfull. destruct Hfull as [?|[Hall Hs]]; [left; lia|right]. split; [exact Hall|].
    pose proof (ev_fields _ _ _ _ _ (wr_ev _ _ _ _ _ _ _ _ _ _ W)) as Hf. rewrite Hf in Hs. cbn [i_size iset_fields] in Hs. lia. }
  eapply (wrote_le _ _ _ (1 + span (off + m) (n - (tot + m)))); [replace (n - (tot + m)) with (n - tot - m) by lia; lia|].
  replace (take (Z.to_nat (m + r2)) _) with (chunk ++ take (Z.to_nat r2) (drop (Z.to_nat (tot + m)) bs)).
  - eapply wrote_trans; [lia| |exact W|by rewrite Hchunk]. unfold len in *. rewrite length_take. lia.
  - subst chunk. rewrite !Z2Nat.inj_add by lia. rewrite <-drop_drop. apply take_take_drop.
Qed.
End write.

(** ** The inode on disk *)

(** The fields fit in those of [struct dinode]. *)
Record dinode_fits (y : inode) : Prop := {
  df_type : - 2 ^ 15 <= i_type y < 2 ^ 15;
  df_major : - 2 ^ 15 <= i_major y < 2 ^ 15;
  df_minor : - 2 ^ 15 <= i_minor y < 2 ^ 15;
  df_nlink : - 2 ^ 15 <= i_nlink y < 2 ^ 15;
  df_size : 0 <= i_size y < 2 ^ 32;
  df_addrs i : 0 <= i <= NDIRECT -> 0 <= iaddr y i < 2 ^ 32 }.

Lemma ld8_put_addrs y off k : forall d i b, b < off + 12 + 4 * i \/ off + 12 + 4 * (i + Z.of_nat k) <= b ->
  ld8 (put_addrs y d off i k) b = ld8 d b.
Proof.
  induction k as [|k IH]; intros d i b Hb; cbn [put_addrs]; [done|].
  rewrite IH by lia. apply ld8_st32_out. lia.
Qed.

Lemma ld32_put_addrs y off k : forall d i j, i <= j < i + Z.of_nat k -> 0 <= iaddr y j < 2 ^ 32 ->
  ld32 (put_addrs y d off i k) (off + 12 + 4 * j) = iaddr y j.
Proof.
  induction k as [|k IH]; intros d i j Hj Hr; cbn [put_addrs]; [lia|].
  destruct (decide (j = i)) as [->|Hne]; [|apply IH; [lia|done]].
  etrans; [|exact (ld32_st32_same d (off + 12 + 4 * i) (iaddr y i) Hr)].
  unfold ld32. apply ld_le_ext. intros b Hb. apply ld8_put_addrs. lia.
Qed.

Lemma is_blk_put_addrs y off k : forall d i, is_blk d -> 0 <= off + 12 + 4 * i -> off + 12 + 4 * (i + Z.of_nat k) <= BSIZE ->
  is_blk (put_addrs y d off i k).
Proof.
  induction k as [|k IH]; intros d i Hd H1 H2; cbn [put_addrs]; [done|].
  apply IH; [apply is_blk_st_le; simpl; [done|lia|lia]|lia|lia].
Qed.

Lemma get_addrs_at d off k : forall i m j, default 0 (get_addrs d off i k m !! j) =
  if decide (i <= j < i + Z.of_nat k) then ld32 d (off + 12 + 4 * j) else default 0 (m !! j).
Proof.
  induction k as [|k IH]; intros i m j; cbn [get_addrs]; [by rewrite decide_False by lia|].
  rewrite IH. destruct (decide (j = i)) as [->|Hne].
  - rewrite decide_False, decide_True by lia. by rewrite lookup_insert_eq.
  - rewrite lookup_insert_ne by done. repeat case_decide; try lia; done.
Qed.

Lemma is_blk_dinode_write y d off : is_blk d -> 0 <= off -> off + DINODE_SIZE <= BSIZE -> is_blk (dinode_write y d off).
Proof.
  intros Hd H1 H2. unfold DINODE_SIZE, NDIRECT in *. unfold dinode_write.
  apply is_blk_put_addrs; [|lia|unfold NDIRECT; simpl; lia].
  repeat (apply is_blk_st_le; [|lia|simpl; lia]). done.
Qed.

(** Bytes outside the inode are not touched. *)
Lemma dinode_write_out y d off b : b < off \/ off + DINODE_SIZE <= b -> ld8 (dinode_write y d off) b = ld8 d b.
Proof.
  intros Hb. unfold DINODE_SIZE, NDIRECT in *. unfold dinode_write.
  rewrite ld8_put_addrs by (unfold NDIRECT; simpl; lia). unfold st32, st16.
  by rewrite !ld8_st_le_out by (simpl; lia).
Qed.

Lemma dinode_off_range inum : 0 <= inum -> 0 <= dinode_off inum /\ dinode_off inum + DINODE_SIZE <= BSIZE.
Proof.
  intros H. unfold dinode_off. pose proof (Z.mod_pos_bound inum IPB ipb_pos) as Hm.
  assert (HI : IPB = 16) by reflexivity. assert (HD : DINODE_SIZE = 64) by reflexivity. assert (HB : BSIZE = 1024) by reflexivity.
  rewrite HI in Hm. rewrite HI, HD, HB. lia.
Qed.

Lemma dinode_offs i j : 0 <= i -> 0 <= j -> i mod IPB <> j mod IPB ->
  dinode_off j + DINODE_SIZE <= dinode_off i \/ dinode_off i + DINODE_SIZE <= dinode_off j.
Proof.
  intros Hi Hj Hne. unfold dinode_off. assert (E : DINODE_SIZE = 64) by reflexivity. rewrite E. lia.
Qed.

Lemma s16_mod z : - 2 ^ 15 <= z < 2 ^ 15 -> s16 (z mod 2 ^ 16) = z.
Proof.
  intros Hz. unfold s16. destruct (Z_lt_le_dec z 0).
  - replace (z mod 2 ^ 16) with (z + 2 ^ 16) by (apply (Z.mod_unique_pos _ _ (-1)); lia).
    replace (z + 2 ^ 16 + 2 ^ 15) with (z + 2 ^ 15 + 1 * 2 ^ 16) by lia.
    rewrite Z.mod_add, Z.mod_small by lia. lia.
  - rewrite (Z.mod_small z), Z.mod_small by lia. lia.
Qed.

Lemma ld_le_st_le_mod n m a v : ld_le n (st_le n m a v) a = v mod 256 ^ Z.of_nat n.
Proof.
  revert m a v. induction n as [|n IH]; intros m a v; [simpl; by rewrite Z.mod_1_r|].
  rewrite Nat2Z.inj_succ, Z.pow_succ_r by lia. simpl.
  rewrite ld8_st_le_out by lia. rewrite ld8_st8_eq, IH.
  pose proof (Z.pow_pos_nonneg 256 (Z.of_nat n)). rewrite Z.rem_mul_r by lia. done.
Qed.

Section dinode.
Context (y y0 : inode) (d : mem) (off : Z) (Hf : dinode_fits y).

Notation y' := (dinode_read (dinode_write y d off) off y0).

Lemma dinode_header b k : 0 <= b -> b + Z.of_nat k <= 12 ->
  ld_le k (dinode_write y d off) (off + b) =
  ld_le k (st32 (st16 (st16 (st16 (st16 d off (i_type y)) (off + 2) (i_major y)) (off + 4) (i_minor y))
       (off + 6) (i_nlink y)) (off + 8) (i_size y)) (off + b).
Proof using Type. intros H1 H2. apply ld_le_ext. intros c Hc. apply ld8_put_addrs. lia. Qed.

Lemma dinode_read_write :
  (i_type y', i_major y', i_minor y', i_nlink y', i_size y') = (i_type y, i_major y, i_minor y, i_nlink y, i_size y) /\
  forall i, 0 <= i <= NDIRECT -> iaddr y' i = iaddr y i.
Proof using Hf.
  destruct Hf as [H1 H2 H3 H4 H5 H6]. split.
  - cbn [i_type i_major i_minor i_nlink i_size dinode_read iset_fields]. unfold ld16, ld32.
    rewrite <-(Z.add_0_r off) at 2. rewrite !dinode_header by (simpl; lia). rewrite Z.add_0_r. unfold st32.
    rewrite !(ld_le_st_le_other 2 4) by (simpl; lia). rewrite ld_le_st_le_mod. unfold st16.
    repeat (rewrite !ld_le_st_le_mod || rewrite !(ld_le_st_le_other 2 2) by (simpl; lia)).
    change (256 ^ Z.of_nat 2) with (2 ^ 16). rewrite !s16_mod, Z.mod_small by done. done.
  - intros i Hi. etrans; [apply (get_addrs_at _ off)|]. rewrite decide_True by (change NDIRECT with 12 in *; simpl; lia).
    apply ld32_put_addrs; [change NDIRECT with 12 in *; simpl; lia|by apply H6].
Qed.
End dinode.
