(* ===== verification/FsContent.v ===== *)
(** * kernel/fs.c: files as sequences of bytes

    [writei] replaces bytes of a file and extends it, [readi] reads them, and what
    has been written is read back. *)

From S2P Require Import Prelude Machine Sleeplock Mem Layout Kalloc Vm VmInv VmCopy Bio BioInv BioSpec BioRefine FsHdr Log LogDisk LogSpec LogCommit LogRun LogOps LogTheorems Printf Fs FsLogic FsBitmap FsFile FsRead FsWrite.

(** ** A block that holds no data changes *)

Section meta.
Context {start size ip : Z} {x : fsx} {p : lspec} {n : Z} (d : mem).
Context (S : fstate start size ip x p) (Hn : n < sb_bmapstart (x_sb x)).

Notation p' := (ls_update n d p).
Notation y := (ino x ip).

Lemma meta_slot s : 0 <= s <= MAXFILE -> slot y (ls_view p') s = slot y (ls_view p) s.
Proof.
  intros Hs. pose proof (st_file _ _ _ _ _ S) as F. pose proof MAXFILE_in as HM.
  unfold slot at 1 2. case_match; [done|]. unfold iblk.
  case_match; [done|]. destruct (Z.eqb_spec (iaddr y NDIRECT) 0) as [|Hne]; [done|].
  rewrite <-(slot_ind y (ls_view p)) in Hne |- *. destruct (fo_slot _ _ _ F _ HM Hne) as [[] _].
  rewrite ls_update_view; [done|lia].
Qed.

Lemma meta_used_same m : used (x_sb x) (ls_view p') m = used (x_sb x) (ls_view p) m.
Proof. unfold used. rewrite ls_update_view; [done|lia]. Qed.

Lemma meta_state : fstate start size ip x p'.
Proof.
  pose proof (st_file _ _ _ _ _ S) as F. split; try apply S.
  - intros m Hm. rewrite meta_used_same. by apply (st_meta _ _ _ _ _ S).
  - split; [apply F|..].
    + intros s Hs. rewrite meta_slot, meta_used_same by done. by apply F.
    + intros s s' Hs Hs'. rewrite !meta_slot by done. by apply F.
    + apply F.
    + intros b Hb Hs. pose proof (fo_size _ _ _ F). assert (b < MAXFILE) by (unfold BSIZE in *; lia).
      rewrite <-slot_blk, meta_slot, slot_blk by lia. by apply F.
Qed.

Lemma meta_byte o : 0 <= o < MAXFILE * BSIZE -> fbyte y (ls_view p') o = fbyte y (ls_view p) o.
Proof.
  intros Ho. apply file_block_range in Ho. pose proof (st_file _ _ _ _ _ S) as F. unfold fbyte.
  rewrite <-(slot_blk y (ls_view p') (o / BSIZE)), <-(slot_blk y (ls_view p) (o / BSIZE)), meta_slot by lia.
  destruct (Z.eqb_spec (slot y (ls_view p) (o / BSIZE)) 0) as [|Hs]; [done|].
  destruct (fo_slot _ _ _ F (o / BSIZE) ltac:(lia) Hs) as [[] _]. rewrite ls_update_view; [done|lia].
Qed.
End meta.

(** ** The size of the file changes *)

Lemma file_ok_size sb v y sz : file_ok sb v y -> 0 <= sz <= MAXFILE * BSIZE ->
  (forall bn, 0 <= bn -> bn * BSIZE < sz -> iblk y v bn <> 0) -> file_ok sb v (iset_size sz y).
Proof. intros F Hsz Hfull. split; [apply F|apply F|apply F|done|done]. Qed.

Lemma fstate_size start size ip x p sz :
  fstate start size ip x p -> 0 <= sz <= MAXFILE * BSIZE ->
  (forall bn, 0 <= bn -> bn * BSIZE < sz -> iblk (ino x ip) (ls_view p) bn <> 0) ->
  fstate start size ip (x_seti ip (iset_size sz) x) p.
Proof.
  intros S Hsz Hfull. pose proof (st_in _ _ _ _ _ S) as Hin. split; try apply S.
  - eapply only_inode_in. by apply only_inode_seti.
  - rewrite ino_seti by done. apply file_ok_size; [apply S|done|done].
Qed.

(** ** Contents *)

Lemma frange_ext y v y' v' off n :
  (forall o, off <= o < off + n -> fbyte y' v' o = fbyte y v o) -> frange y' v' off n = frange y v off n.
Proof.
  intros H. unfold frange. apply map_ext_in. intros o Ho%list_elem_of_In%elem_of_seqZ. by apply H.
Qed.

Lemma frange_nil y v off n : n <= 0 -> frange y v off n = [].
Proof. intros. unfold frange, seqZ. by rewrite Z2Nat.nonpos. Qed.

Lemma content_length y v : 0 <= i_size y -> length (content y v) = Z.to_nat (i_size y).
Proof. intros H. unfold content. pose proof (frange_length y v 0 (i_size y) H). lia. Qed.

Lemma take_frange y v n k : 0 <= k <= n -> take (Z.to_nat k) (frange y v 0 n) = frange y v 0 k.
Proof.
  intros Hk. replace n with (k + (n - k)) by lia. rewrite frange_app by lia.
  apply take_app_length'. pose proof (frange_length y v 0 k ltac:(lia)). lia.
Qed.

Lemma drop_frange y v n k : 0 <= k -> drop (Z.to_nat k) (frange y v 0 n) = frange y v k (n - k).
Proof.
  intros Hk. destruct (Z_lt_le_dec n k) as [Hlt|Hle].
  - rewrite (frange_nil _ _ k) by lia. apply drop_ge. unfold frange. rewrite length_map, length_seqZ. lia.
  - replace n with (k + (n - k)) at 1 by lia. rewrite frange_app by lia.
    apply drop_app_length'. pose proof (frange_length y v 0 k ltac:(lia)). lia.
Qed.

Lemma frange_content y v off r : 0 <= off -> 0 <= r -> off + r <= i_size y ->
  frange y v off r = take (Z.to_nat r) (drop (Z.to_nat off) (content y v)).
Proof.
  intros H1 H2 H3. unfold content. rewrite drop_frange by done.
  replace (i_size y - off) with (r + (i_size y - off - r)) by lia. rewrite frange_app by lia.
  symmetry. apply take_app_length'. pose proof (frange_length y v off r H2). lia.
Qed.

(** Bytes [off .. off + len bs) replaced by [bs]. *)
Definition splice (c : list Z) (off : Z) (bs : list Z) : list Z :=
  take (Z.to_nat off) c ++ bs ++ drop (Z.to_nat (off + len bs)) c.

Lemma content_splice y v y' v' off bs :
  0 <= off <= i_size y -> 0 <= i_size y <= MAXFILE * BSIZE -> off + len bs <= MAXFILE * BSIZE ->
  i_size y' = Z.max (i_size y) (off + len bs) ->
  (forall o, 0 <= o < MAXFILE * BSIZE -> fbyte y' v' o =
    if decide (off <= o < off + len bs) then default 0 (bs !! Z.to_nat (o - off)) else fbyte y v o) ->
  content y' v' = splice (content y v) off bs.
Proof.
  intros Hoff Hsz Hmax Hsz' Hb. assert (0 <= len bs) by (unfold len; lia). unfold content, splice. rewrite Hsz'.
  rewrite take_frange, drop_frange by lia.
  replace (Z.max _ _) with (off + (len bs + (Z.max (i_size y) (off + len bs) - (off + len bs)))) by lia.
  rewrite !frange_app by lia. rewrite Z.add_0_l. f_equal; [|f_equal].
  - apply frange_ext. intros o Ho. rewrite Hb, decide_False by lia. done.
  - apply list_eq. intros i. destruct (decide (Z.of_nat i < len bs)) as [Hi|Hi].
    + rewrite <-(Nat2Z.id i), frange_lookup, Hb, decide_True by lia.
      replace (off + Z.of_nat i - off) with (Z.of_nat i) by lia. rewrite !Nat2Z.id.
      destruct (bs !! i) eqn:E; [done|]. apply lookup_ge_None in E. unfold len in Hi. lia.
    + pose proof (frange_length y' v' off (len bs) ltac:(lia)).
      rewrite !lookup_ge_None_2; [done|unfold len in *; lia|lia].
  - destruct (Z_lt_le_dec (i_size y) (off + len bs)) as [Hlt|Hle].
    + by rewrite !frange_nil by lia.
    + rewrite Z.max_l by lia. apply frange_ext. intros o Ho. rewrite Hb, decide_False by lia. done.
Qed.

(** ** [writei] *)

(** Refused: beyond the end of the file, or larger than a file can be. *)
Definition write_refused (y : inode) (off n : Z) : bool :=
  (i_size y <? off) || (2 ^ 32 <=? off + n) || (MAXFILE * BSIZE <? off + n).

(** The outcome of writing [bs] at [off], of which [r] bytes have been written. *)
Record writei_post (start size ip off : Z) (bs : list Z) (x : fsx) (p : lspec) (r : Z) (x' : fsx) (p' : lspec) : Prop := {
  wp_r : 0 <= r <= len bs /\ (r = len bs \/ all_used (x_sb x) (ls_view p') /\ i_size (ino x ip) <= off + r);
  wp_state : fstate start size ip x' p';
  wp_only : only_inode ip x x';
  wp_fields : same_fields (iset_size (Z.max (i_size (ino x ip)) (off + r)) (ino x ip)) (ino x' ip);
  wp_content : content (ino x' ip) (ls_view p') = splice (content (ino x ip) (ls_view p)) off (take (Z.to_nat r) bs);
  wp_dinode : let b := IBLOCK (i_inum (ino x ip)) (x_sb x) in
    ls_view p' b = dinode_write (ino x' ip) (ls_view p b) (dinode_off (i_inum (ino x ip)));
  wp_used n : used (x_sb x) (ls_view p) n = true -> used (x_sb x) (ls_view p') n = true;
  wp_frame n : 0 < n -> used (x_sb x) (ls_view p) n = true -> n <> sb_bmapstart (x_sb x) ->
    n <> IBLOCK (i_inum (ino x ip)) (x_sb x) ->
    (forall s, 0 <= s <= MAXFILE -> n <> slot (ino x ip) (ls_view p) s) -> ls_view p' n = ls_view p n;
  wp_log : lenL p' <= lenL p + span off (len bs) + 3 /\ ls_out p' = ls_out p }.

Lemma cost_bound sb y p : cost sb y p <= lenL p + 2.
Proof.
  unfold cost. pose proof (absent_range (iaddr y NDIRECT) (ls_log p)).
  pose proof (absent_range (sb_bmapstart sb) (ls_log p)). case_match; lia.
Qed.

Section writei.
Context (rw : Z -> bool -> M bcache unit) `{!DiskDriver rw} (pid : Z) (fuel : nat) (upt : Z) (start size ip : Z).

Notation fwp := (fwp pid start size).

Lemma iupdate_spec (Q : unit -> fsx -> gmap Z Z -> lspec -> Prop) x t p :
  fstate start size ip x p -> 0 <= i_inum (ino x ip) < sb_ninodes (x_sb x) -> room size 0 p ->
  (forall t', let b := IBLOCK (i_inum (ino x ip)) (x_sb x) in
     Q tt x t' (ls_update b (dinode_write (ino x ip) (ls_view p b) (dinode_off (i_inum (ino x ip)))) p)) ->
  fwp (iupdate rw pid fuel ip) Q x t p.
Proof.
  intros S Hi R HQ. pose proof (st_layout _ _ _ _ _ S) as L. pose proof (IBLOCK_home L _ Hi) as Hb.
  assert (Hh : home start size (IBLOCK (i_inum (ino x ip)) (x_sb x))).
  { apply (layout_home L). pose proof (ly_size _ _ _ L). lia. }
  assert (Hn : forall n, n ∉ ls_held p) by (intros n; rewrite (st_held _ _ _ _ _ S); apply not_elem_of_empty).
  apply fwp_bind, (fwp_gets _ _ _ _ (x_sb x)); [done|]. apply fwp_bind, fwp_geti. apply fwp_lok. intros Hok.
  rewrite (fo_dev _ _ _ (st_file _ _ _ _ _ S)).
  apply (fwp_read rw pid fuel); [done|done|rewrite (st_held _ _ _ _ _ S), size_empty; lia|destruct R; lia|].
  intros b t' Hbp _. apply fwp_data; [done|]. apply (fwp_save rw pid); [done|done|done| |apply HQ].
  destruct (dinode_off_range (i_inum (ino x ip)) ltac:(lia)). apply is_blk_dinode_write; [by apply (lok_blk _ _ _ Hok)|done|done].
Qed.

(** From the end of the loop to the end of [writei]. *)
Section finish.
Context {off r : Z} {bs : list Z} {x x1 : fsx} {p p1 : lspec}.
Context (S : fstate start size ip x p) (Hi : 0 <= i_inum (ino x ip) < sb_ninodes (x_sb x)).
Context (Hoff : 0 <= off <= i_size (ino x ip)) (Hmax : off + len bs <= MAXFILE * BSIZE).
Context (Hr : 0 <= r <= len bs) (Hfull : r = len bs \/ all_used (x_sb x) (ls_view p1) /\ i_size (ino x ip) <= off + r).
Context (W : wrote start size ip (span off (len bs)) off (take (Z.to_nat r) bs) x p x1 p1).

Definition x_end : fsx := if i_size (ino x ip) <? off + r then x_seti ip (iset_size (off + r)) x1 else x1.

Definition p_end : lspec :=
  let b := IBLOCK (i_inum (ino x ip)) (x_sb x) in
  ls_update b (dinode_write (ino x_end ip) (ls_view p1 b) (dinode_off (i_inum (ino x ip)))) p1.

Lemma len_written : len (take (Z.to_nat r) bs) = r.
Proof using Hr. unfold len in *. rewrite length_take. lia. Qed.

Lemma end_inode : ino x_end ip = iset_size (Z.max (i_size (ino x ip)) (off + r)) (ino x1 ip) /\ only_inode ip x x_end.
Proof using S Hi Hoff Hmax Hr Hfull W.
  pose proof (st_in _ _ _ _ _ (wr_state _ _ _ _ _ _ _ _ _ _ W)) as Hin. pose proof (wr_only _ _ _ _ _ _ _ _ _ _ W) as O.
  pose proof (ev_fields _ _ _ _ _ (wr_ev _ _ _ _ _ _ _ _ _ _ W)) as Hf. unfold x_end.
  destruct (Z.ltb_spec (i_size (ino x ip)) (off + r)).
  - rewrite ino_seti by done. split; [f_equal; lia|]. eapply only_inode_trans; [done|by apply only_inode_seti].
  - split; [|done]. rewrite Z.max_l by lia. rewrite Hf. by destruct (ino x ip).
Qed.

Lemma end_full bn : 0 <= bn -> bn * BSIZE < Z.max (i_size (ino x ip)) (off + r) -> iblk (ino x1 ip) (ls_view p1) bn <> 0.
Proof using S Hi Hoff Hmax Hr Hfull W.
  intros H0 H1. pose proof (st_file _ _ _ _ _ S) as F. pose proof (fo_size _ _ _ F). pose proof BSIZE_pos. pose proof len_written as Hl.
  assert (Hb : bn < MAXFILE) by nia.
  destruct (Z_lt_le_dec (bn * BSIZE) (i_size (ino x ip))) as [Hlt|Hge].
  - pose proof (fo_full _ _ _ F bn H0 Hlt) as Hn. rewrite <-slot_blk in * by done.
    by rewrite (ev_slot _ _ _ _ _ (wr_ev _ _ _ _ _ _ _ _ _ _ W)) by (done || lia).
  - apply (wr_map _ _ _ _ _ _ _ _ _ _ W); [lia| |lia]. apply Z.div_le_upper_bound; lia.
Qed.

Lemma end_state1 : fstate start size ip x_end p1.
Proof using S Hi Hoff Hmax Hr Hfull W.
  pose proof (fo_size _ _ _ (st_file _ _ _ _ _ S)). unfold x_end.
  destruct (Z.ltb_spec (i_size (ino x ip)) (off + r)); [|apply W].
  apply fstate_size; [apply W|lia|]. intros bn H1 H2. apply end_full; [done|lia].
Qed.

Lemma end_post : writei_post start size ip off bs x p r x_end p_end.
Proof using S Hi Hoff Hmax Hr Hfull W.
  pose proof (st_layout _ _ _ _ _ S) as L. pose proof (IBLOCK_home L _ Hi) as Hb. destruct end_inode as [Ey O].
  pose proof (only_inode_sb _ _ _ O) as Hsb. pose proof (wr_ev _ _ _ _ _ _ _ _ _ _ W) as Ev. pose proof (ev_fields _ _ _ _ _ Ev) as Hf.
  set (b := IBLOCK (i_inum (ino x ip)) (x_sb x)) in *. set (d := dinode_write (ino x_end ip) (ls_view p1 b) (dinode_off (i_inum (ino x ip)))).
  assert (Hb' : b < sb_bmapstart (x_sb x_end)) by (rewrite Hsb; lia).
  pose proof (meta_state d end_state1 Hb') as S'. pose proof (meta_byte d end_state1 Hb') as By.
  pose proof (meta_used_same (x := x_end) (p := p1) d Hb') as Us. rewrite Hsb in Us. change (ls_update b d p1) with p_end in *.
  pose proof (fo_size _ _ _ (st_file _ _ _ _ _ S)). pose proof len_written as Hl. split.
  - split; [done|]. destruct Hfull as [?|[Hall Hs]]; [by left|right]. split; [|exact Hs]. intros n Hn. rewrite Us. by apply Hall.
  - done.
  - done.
  - rewrite Ey. unfold same_fields in *. rewrite Hf. done.
  - apply content_splice; rewrite ?Hl; [lia|lia|lia|by rewrite Ey|].
    intros o Ho. rewrite By by done. rewrite Ey. change (fbyte (iset_size _ (ino x1 ip)) (ls_view p1) o) with (fbyte (ino x1 ip) (ls_view p1) o).
    rewrite (wr_byte _ _ _ _ _ _ _ _ _ _ W) by done. by rewrite Hl.
  - cbv zeta. fold b. unfold p_end. cbv zeta. fold b. rewrite ls_update_view_eq. f_equal. pose proof (ly_start _ _ _ L). pose proof (ly_log _ _ _ L).
    apply (ev_frame _ _ _ _ _ Ev); [lia|apply (st_meta _ _ _ _ _ S); lia|lia|]. intros s Hs E.
    destruct (fo_slot _ _ _ (st_file _ _ _ _ _ S) s Hs) as [[] _]; lia.
  - intros n Hn. rewrite Us. by apply Ev.
  - intros n H0 Hu H1 H2 H3. unfold p_end. cbv zeta. rewrite ls_update_view by done. by apply Ev.
  - unfold p_end. cbv zeta. rewrite lenL_update. pose proof (wr_cost _ _ _ _ _ _ _ _ _ _ W). pose proof (cost_bound (x_sb x) (ino x ip) p).
    pose proof (cost_lenL (x_sb x) (ino x1 ip) p1). fold b. pose proof (absent_range b (ls_log p1)).
    split; [lia|exact (wr_out _ _ _ _ _ _ _ _ _ _ W)].
Qed.
End finish.

Lemma writei_spec_gen src off bs (Q : Z -> fsx -> gmap Z Z -> lspec -> Prop) x t p :
  fstate start size ip x p -> 0 <= i_inum (ino x ip) < sb_ninodes (x_sb x) ->
  supplies pid upt start size src bs (x_mem x) -> Forall (fun c => 0 <= c < 256) bs ->
  0 <= off < 2 ^ 32 -> len bs < 2 ^ 32 -> fits size (lenL p + 2 + span off (len bs)) p ->
  (if write_refused (ino x ip) off (len bs) then forall t', Q (-1) x t' p
   else forall r x' t' p', writei_post start size ip off bs x p r x' p' -> Q r x' t' p') ->
  fwp (writei rw pid fuel upt ip src off (len bs)) Q x t p.
Proof.
  intros S Hi Hsrc Hbs Hoff Hlen Hfit HQ. assert (H0 : 0 <= len bs) by (unfold len; lia). unfold write_refused in HQ.
  apply fwp_bind, fwp_geti. rewrite u32_wraps by lia. destruct (_ || (2 ^ 32 <=? _)) eqn:E1; [by apply fwp_ret|].
  simpl orb in HQ. zbool. rewrite u32_small by lia.
  destruct (MAXFILE * BSIZE <? off + len bs) eqn:E2; [by apply fwp_ret|]. zbool.
  pose proof (cost_bound (x_sb x) (ino x ip) p) as Hc. apply fwp_bind.
  replace src with (src_add src 0) by (destruct src; simpl; [f_equal; lia|done]).
  apply (writei_loop_spec rw pid fuel upt start size ip src bs off (x_mem x)); try done; [lia|lia|lia|..].
  { rewrite Z.sub_0_r. eapply fits_le; [|exact Hfit]. lia. }
  rewrite Z.sub_0_r. simpl drop. intros r x1 t1 p1 Hr Hfull W. rewrite Z.add_0_l.
  assert (Hoff' : 0 <= off <= i_size (ino x ip)) by lia.
  pose proof (end_post S Hi Hoff' E2 Hr Hfull W) as P. pose proof (end_state1 S Hi Hoff' E2 Hr Hfull W) as S1.
  pose proof (wr_only _ _ _ _ _ _ _ _ _ _ W) as O1. pose proof (only_inode_sb _ _ _ O1) as Hsb.
  destruct (end_inode S Hi Hoff' E2 Hr Hfull W) as [Ey O].
  pose proof (ev_fields _ _ _ _ _ (wr_ev _ _ _ _ _ _ _ _ _ _ W)) as Hf.
  assert (Hend : fwp (iupdate rw pid fuel ip;; mret r) Q (x_end (off := off) (r := r) (x := x) (x1 := x1)) t1 p1).
  { assert (Ei : i_inum (ino (x_end (off := off) (r := r) (x := x) (x1 := x1)) ip) = i_inum (ino x ip)).
    { rewrite Ey, Hf. done. }
    pose proof (only_inode_sb _ _ _ O) as Hsb'. pose proof (cost_lenL (x_sb x) (ino x1 ip) p1).
    pose proof (wr_cost _ _ _ _ _ _ _ _ _ _ W). pose proof (wr_out _ _ _ _ _ _ _ _ _ _ W).
    apply fwp_bind, iupdate_spec; [done|by rewrite Ei, Hsb'|unfold fits, room in *; lia|].
    intros t'. cbv zeta. rewrite Ei, Hsb'. apply fwp_ret, HQ, P. }
  apply fwp_bind, fwp_geti. simpl fst. simpl snd. apply fwp_bind.
  assert (Esz : i_size (ino x1 ip) = i_size (ino x ip)) by (rewrite Hf; done). rewrite Esz.
  unfold x_end in Hend. destruct (Z.ltb_spec (i_size (ino x ip)) (off + r)); cbn [when]; [apply fwp_seti|apply fwp_ret]; exact Hend.
Qed.
End writei.
