(* ===== verification/FsInode.v ===== *)
(** * Inodes in memory and on disk

    The inode table of kernel/fs.c as a cache of the inodes on disk: [iget],
    [idup], [ilock], [iunlock] and [iput]. *)

From S2P Require Import Prelude Machine Sleeplock Mem Layout Kalloc Vm VmCopy Bio BioInv BioSpec BioRefine FsHdr Log LogDisk LogSpec LogCommit LogRun LogOps LogTheorems Printf Fs FsLogic FsBitmap FsFile FsRead FsWrite FsContent.

(** ** A file none of whose blocks changes *)

Section keep.
Context {sb : superblock} {v v' : Z -> mem} {y : inode} (F : file_ok sb v y).
Context (K : forall s, 0 <= s <= MAXFILE -> slot y v s <> 0 -> v' (slot y v s) = v (slot y v s)).
Context (U : forall n, used sb v n = true -> used sb v' n = true).

Lemma keep_slot s : slot y v' s = slot y v s.
Proof using F K.
  unfold slot. case_match; [done|]. unfold iblk. case_match; [done|].
  destruct (Z.eqb_spec (iaddr y NDIRECT) 0) as [|Hn]; [done|]. f_equal.
  rewrite <-(slot_ind y v) in *. apply K; [apply MAXFILE_in|done].
Qed.

Lemma keep_iblk bn : bn < MAXFILE -> iblk y v' bn = iblk y v bn.
Proof using F K. intros H. by rewrite <-!slot_blk, keep_slot. Qed.

Lemma keep_ok : file_ok sb v' y.
Proof using F K U.
  split; [apply F|..|apply F|].
  - intros s Hs. rewrite keep_slot. intros Hn. destruct (fo_slot _ _ _ F s Hs Hn). split; [done|by apply U].
  - intros s s' Hs Hs'. rewrite !keep_slot. by apply F.
  - intros bn Hbn Hsz. pose proof (fo_size _ _ _ F). assert (bn < MAXFILE) by (unfold BSIZE in *; lia).
    rewrite keep_iblk by done. by apply F.
Qed.

Lemma keep_byte o : 0 <= o < MAXFILE * BSIZE -> fbyte y v' o = fbyte y v o.
Proof using F K.
  intros Ho. apply file_block_range in Ho. unfold fbyte. rewrite keep_iblk by lia.
  destruct (Z.eqb_spec (iblk y v (o / BSIZE)) 0) as [|Hn]; [done|]. rewrite <-slot_blk in * by lia. by rewrite K by (done || lia).
Qed.

Lemma keep_content : content y v' = content y v.
Proof using F K.
  pose proof (fo_size _ _ _ F). apply frange_ext. intros o Ho. apply keep_byte. lia.
Qed.
End keep.

(** ** Inodes with the same fields *)

Record same_dinode (y y' : inode) : Prop := {
  sd_type : i_type y' = i_type y;
  sd_major : i_major y' = i_major y;
  sd_minor : i_minor y' = i_minor y;
  sd_nlink : i_nlink y' = i_nlink y;
  sd_size : i_size y' = i_size y;
  sd_dev : i_dev y' = i_dev y;
  sd_addr i : 0 <= i <= NDIRECT -> iaddr y' i = iaddr y i }.

Section same.
Context {y y' : inode} (E : same_dinode y y').

Lemma same_iblk v bn : 0 <= bn -> iblk y' v bn = iblk y v bn.
Proof using E.
  intros Hb. assert (HN : 0 <= NDIRECT <= NDIRECT) by done. unfold iblk. rewrite (sd_addr _ _ E NDIRECT HN).
  destruct (Z.ltb_spec bn NDIRECT); [|done]. apply (sd_addr _ _ E). lia.
Qed.

Lemma same_slot v s : 0 <= s -> slot y' v s = slot y v s.
Proof using E.
  intros Hs. assert (HN : 0 <= NDIRECT <= NDIRECT) by done. unfold slot. by rewrite (sd_addr _ _ E NDIRECT HN), same_iblk.
Qed.

Lemma same_ok sb v : file_ok sb v y -> file_ok sb v y'.
Proof using E.
  intros F. split.
  - rewrite (sd_dev _ _ E). apply F.
  - intros s Hs. rewrite same_slot by lia. by apply F.
  - intros s s' Hs Hs'. rewrite !same_slot by lia. by apply F.
  - rewrite (sd_size _ _ E). apply F.
  - intros bn Hb. rewrite (sd_size _ _ E), same_iblk by done. by apply F.
Qed.

Lemma same_byte v o : 0 <= o -> fbyte y' v o = fbyte y v o.
Proof using E. intros Ho. unfold fbyte. by rewrite same_iblk by (apply Z.div_pos; [done|apply BSIZE_pos]). Qed.

Lemma same_content v : content y' v = content y v.
Proof using E. unfold content. rewrite (sd_size _ _ E). apply frange_ext. intros o Ho. apply same_byte. lia. Qed.
End same.

(** ** Inodes on disk *)

Lemma get_addrs_ext d d' off k : forall i m,
  (forall b, off + 12 + 4 * i <= b < off + 12 + 4 * (i + Z.of_nat k) -> ld8 d' b = ld8 d b) ->
  get_addrs d' off i k m = get_addrs d off i k m.
Proof.
  induction k as [|k IH]; intros i m H; cbn [get_addrs]; [done|].
  assert (E : ld32 d' (off + 12 + 4 * i) = ld32 d (off + 12 + 4 * i)).
  { unfold ld32. apply ld_le_ext. intros b Hb. apply H. lia. }
  rewrite E. apply IH. intros b Hb. apply H. lia.
Qed.

Lemma dinode_read_ext d d' off x :
  (forall b, off <= b < off + DINODE_SIZE -> ld8 d' b = ld8 d b) -> dinode_read d' off x = dinode_read d off x.
Proof.
  intros H. change DINODE_SIZE with 64 in H.
  assert (E : forall k b, 0 <= b -> b + Z.of_nat k <= 64 -> ld_le k d' (off + b) = ld_le k d (off + b)).
  { intros k b H1 H2. apply ld_le_ext. intros c Hc. apply H. lia. }
  unfold dinode_read, ld16, ld32. rewrite !E by (simpl; lia).
  rewrite <-(Z.add_0_r off) at 1. rewrite E, Z.add_0_r by (simpl; lia). f_equal.
  apply get_addrs_ext. intros b Hb. apply H. change NDIRECT with 12 in Hb. simpl in Hb. lia.
Qed.

(** The inode [i] of the disk, as [ilock] loads it. *)
Definition disk_inode (sb : superblock) (v : Z -> mem) (i : Z) : inode :=
  dinode_read (v (IBLOCK i sb)) (dinode_off i) (Inode ROOTDEV 0 0 (Sleeplock 0 "" 0) false 0 0 0 0 0 ∅).

Lemma iaddr_read d off x x' i : 0 <= i <= NDIRECT -> iaddr (dinode_read d off x) i = iaddr (dinode_read d off x') i.
Proof.
  intros Hi. change NDIRECT with 12 in Hi. unfold iaddr. cbn [i_addrs dinode_read iset_fields].
  rewrite !get_addrs_at, !decide_True by (change NDIRECT with 12; simpl; lia). done.
Qed.

Lemma loaded_same sb v y : i_dev y = ROOTDEV ->
  same_dinode (disk_inode sb v (i_inum y)) (dinode_read (v (IBLOCK (i_inum y) sb)) (dinode_off (i_inum y)) y).
Proof. intros Hd. split; try done. intros i Hi. by apply iaddr_read. Qed.

Lemma same_trans y1 y2 y3 : same_dinode y1 y2 -> same_dinode y2 y3 -> same_dinode y1 y3.
Proof. intros [] []. split; try congruence. intros i Hi. etrans; auto. Qed.

(** ** Rules for locks *)

Lemma x_seti_seti ip f g x : x_seti ip g (x_seti ip f x) = x_seti ip (fun y => g (f y)) x.
Proof.
  unfold x_seti. simpl. f_equal. apply map_eq. intros j. destruct (decide (ip = j)) as [->|Hne].
  - rewrite !lookup_alter_eq. by destruct (x_it x !! j).
  - by rewrite !lookup_alter_ne.
Qed.

Lemma ino_seti_ne ip ip' f x : ip' <> ip -> ino (x_seti ip f x) ip' = ino x ip'.
Proof. intros Hne. unfold ino, x_seti. simpl. by rewrite lookup_alter_ne. Qed.

Section rules.
Context (rw : Z -> bool -> M bcache unit) `{!DiskDriver rw} (pid : Z) (fuel : nat) (start size : Z).

Notation fwp := (fwp pid start size).

(** A critical section of a spin lock in which neither the log nor the disk is used. *)
Lemma fwp_crit {A} lk (m : M fsst A) (Q : A -> fsx -> gmap Z Z -> lspec -> Prop) x t p :
  (forall w l, held w = [lk] -> exists w' x' v, m w (fs_with x l) = Ret w' (fs_with x' l) v /\ held w' = [] /\ Q v x' t p) ->
  fwp (acquire lk;; m) Q x t p.
Proof using Type.
  intros Hm l a w s S Hw R. destruct (Hm (set_held [lk] w) (set_bc s l) eq_refl) as (w' & x' & v & Hrun & Hw' & HQ).
  exists w', s, l, a, x', t, p, v. split; [|done]. rewrite run_acquire by (rewrite Hw; apply not_elem_of_nil). by rewrite Hw.
Qed.

Lemma release_last {D} lk w (d : D) : held w = [lk] -> release lk w d = Ret (set_held [] w) d tt.
Proof using Type. intros Hw. unfold release. rewrite Hw, decide_True by left. by rewrite filter_acquired by apply not_elem_of_nil. Qed.

Lemma fwp_lock ip {A} (m : M sleeplock A) v lk' (Q : A -> fsx -> gmap Z Z -> lspec -> Prop) x t p :
  (forall w, held w = [] -> exists w', m w (i_lock (ino x ip)) = Ret w' lk' v /\ held w' = []) ->
  Q v (x_seti ip (iset_lock lk') x) t p -> fwp (zoom (ip_lock ip) m) Q x t p.
Proof using Type.
  intros Hm HQ l a w s S Hw R. destruct (Hm w Hw) as (w' & Hrun & Hw').
  exists w', s, l, a, (x_seti ip (iset_lock lk') x), t, p, v. split; [|done]. by erewrite zoom_ret by exact Hrun.
Qed.

Lemma fwp_acquiresleep ip (Q : unit -> fsx -> gmap Z Z -> lspec -> Prop) x t p : sl_locked (i_lock (ino x ip)) = 0 ->
  Q tt (x_seti ip (iset_lock (set_owner 1 pid (i_lock (ino x ip)))) x) t p ->
  fwp (zoom (ip_lock ip) (acquiresleep (ilock_id ip) fuel pid)) Q x t p.
Proof using Type. intros H HQ. eapply fwp_lock; [|exact HQ]. intros w Hw. exists w. by rewrite acquiresleep_free. Qed.

Lemma fwp_releasesleep ip (Q : unit -> fsx -> gmap Z Z -> lspec -> Prop) x t p :
  Q tt (x_seti ip (iset_lock (set_owner 0 0 (i_lock (ino x ip)))) x) t p ->
  fwp (zoom (ip_lock ip) (releasesleep (ilock_id ip))) Q x t p.
Proof using Type. intros HQ. eapply fwp_lock; [|exact HQ]. intros w Hw. eexists. by rewrite releasesleep_eq. Qed.

Lemma seti_same ip x : x_seti ip (iset_lock (i_lock (ino x ip))) x = x.
Proof using Type.
  destruct x as [k b it]. unfold x_seti, ino. cbn [x_mem x_sb x_it]. f_equal. apply map_eq. intros j.
  destruct (decide (ip = j)) as [->|Hne]; [|by rewrite lookup_alter_ne].
  rewrite lookup_alter_eq. destruct (it !! j) as [y|]; [|done]. simpl. by destruct y.
Qed.

Lemma fwp_holdingsleep ip (Q : bool -> fsx -> gmap Z Z -> lspec -> Prop) x t p :
  Q (negb (sl_locked (i_lock (ino x ip)) =? 0) && (sl_pid (i_lock (ino x ip)) =? pid)) x t p ->
  fwp (zoom (ip_lock ip) (holdingsleep (ilock_id ip) pid)) Q x t p.
Proof using Type.
  intros HQ. eapply (fwp_lock ip _ _ (i_lock (ino x ip))); [|rewrite seti_same; exact HQ]. intros w Hw. exists w. by rewrite holdingsleep_eq.
Qed.
End rules.

(** ** Reference counts *)

Definition sumZ (l : list Z) : Z := foldr Z.add 0 l.

Lemma sumZ_upd (f g : Z -> Z) i l : NoDup l -> i ∈ l -> (forall j, j <> i -> g j = f j) ->
  sumZ (map g l) = sumZ (map f l) - f i + g i.
Proof.
  intros Hnd Hi E. induction Hnd as [|j l Hj Hnd IH]; [by apply elem_of_nil in Hi|]. cbn [map sumZ foldr]. fold (sumZ (map f l)) (sumZ (map g l)).
  destruct (decide (j = i)) as [->|Hne].
  - assert (map g l = map f l) as ->; [|lia]. apply map_ext_in. intros k Hk%list_elem_of_In. apply E. by intros ->.
  - rewrite IH, (E j) by (done || (by apply elem_of_cons in Hi as [?|?])). lia.
Qed.

(** How many references to inode [k] the table counts. *)
Definition refs_to (k : Z) (y : inode) : Z := if i_inum y =? k then i_ref y else 0.

Definition rc (x : fsx) (k : Z) : Z := sumZ (map (fun ip => refs_to k (ino x ip)) (seqZ 0 NINODE)).

Lemma rc_seti ip f x k : is_Some (x_it x !! ip) -> 0 <= ip < NINODE ->
  rc (x_seti ip f x) k = rc x k - refs_to k (ino x ip) + refs_to k (f (ino x ip)).
Proof.
  intros Hin Hip. unfold rc. rewrite (sumZ_upd (fun j => refs_to k (ino x j)) _ ip).
  - by rewrite ino_seti.
  - apply NoDup_seqZ.
  - apply elem_of_seqZ. lia.
  - intros j Hj. by rewrite ino_seti_ne.
Qed.

Lemma rc_same ip f x k : is_Some (x_it x !! ip) -> 0 <= ip < NINODE -> i_inum (f (ino x ip)) = i_inum (ino x ip) ->
  i_ref (f (ino x ip)) = i_ref (ino x ip) -> rc (x_seti ip f x) k = rc x k.
Proof. intros Hin Hip E1 E2. rewrite rc_seti by done. unfold refs_to. rewrite E1, E2. lia. Qed.

(** ** The table as a cache of the disk *)

(** An inode in use: a well-formed file that is in some directory. *)
Record live (sb : superblock) (v : Z -> mem) (i : Z) : Prop := {
  lv_inum : 1 <= i < sb_ninodes sb;
  lv_type : i_type (disk_inode sb v i) <> 0;
  lv_nlink : 1 <= i_nlink (disk_inode sb v i);
  lv_file : file_ok sb v (disk_inode sb v i) }.

(** [L] are the entries that the process [pid] has locked; all others are unlocked. *)
Record icache (pid : Z) (L : gset Z) (x : fsx) (v : Z -> mem) : Prop := {
  ic_in ip : 0 <= ip < NINODE -> is_Some (x_it x !! ip);
  ic_ref ip : 0 <= ip < NINODE -> 0 <= i_ref (ino x ip);
  ic_id ip : 0 <= ip < NINODE -> 0 < i_ref (ino x ip) -> i_dev (ino x ip) = ROOTDEV /\ live (x_sb x) v (i_inum (ino x ip));
  ic_uniq ip ip' : 0 <= ip < NINODE -> 0 <= ip' < NINODE -> 0 < i_ref (ino x ip) -> 0 < i_ref (ino x ip') ->
    i_inum (ino x ip) = i_inum (ino x ip') -> ip = ip';
  ic_lock ip : 0 <= ip < NINODE -> ip ∉ L -> sl_locked (i_lock (ino x ip)) = 0;
  ic_mine ip : ip ∈ L -> 0 <= ip < NINODE /\ 0 < i_ref (ino x ip) /\ i_valid (ino x ip) = true /\
    sl_locked (i_lock (ino x ip)) <> 0 /\ sl_pid (i_lock (ino x ip)) = pid;
  ic_valid ip : 0 <= ip < NINODE -> 0 < i_ref (ino x ip) -> i_valid (ino x ip) = true ->
    same_dinode (disk_inode (x_sb x) v (i_inum (ino x ip))) (ino x ip) }.

(** What may be put into an entry. *)
Record entry_ok (pid : Z) (L : gset Z) (x : fsx) (v : Z -> mem) (ip : Z) (y : inode) : Prop := {
  en_ref : 0 <= i_ref y;
  en_id : 0 < i_ref y -> i_dev y = ROOTDEV /\ live (x_sb x) v (i_inum y);
  en_uniq ip' : 0 <= ip' < NINODE -> ip' <> ip -> 0 < i_ref y -> 0 < i_ref (ino x ip') -> i_inum y <> i_inum (ino x ip');
  en_lock : ip ∉ L -> sl_locked (i_lock y) = 0;
  en_mine : ip ∈ L -> 0 < i_ref y /\ i_valid y = true /\ sl_locked (i_lock y) <> 0 /\ sl_pid (i_lock y) = pid;
  en_valid : 0 < i_ref y -> i_valid y = true -> same_dinode (disk_inode (x_sb x) v (i_inum y)) y }.

Lemma icache_seti pid L L' x v ip f : icache pid L x v -> 0 <= ip < NINODE -> entry_ok pid L' x v ip (f (ino x ip)) ->
  (forall ip', ip' <> ip -> ip' ∈ L' <-> ip' ∈ L) -> icache pid L' (x_seti ip f x) v.
Proof.
  intros I Hip E HL. pose proof (ic_in _ _ _ _ I ip Hip) as Hin.
  assert (Hs : ino (x_seti ip f x) ip = f (ino x ip)) by (by apply ino_seti).
  assert (Ho : forall j, j <> ip -> ino (x_seti ip f x) j = ino x j) by (intros; by apply ino_seti_ne).
  split.
  - intros j Hj. unfold x_seti. simpl. destruct (decide (j = ip)) as [->|Hne]; [rewrite lookup_alter_eq|rewrite lookup_alter_ne by done]; [by apply fmap_is_Some|by apply I].
  - intros j Hj. destruct (decide (j = ip)) as [->|Hne]; [rewrite Hs|rewrite Ho by done]; [apply E|by apply I].
  - intros j Hj. destruct (decide (j = ip)) as [->|Hne]; [rewrite Hs|rewrite Ho by done]; [apply E|by apply I].
  - intros j k Hj Hk. destruct (decide (j = ip)) as [->|Hne], (decide (k = ip)) as [->|Hne']; rewrite ?Hs, ?Ho by done; try done.
    + intros H1 H2 H3. exfalso. by apply (en_uniq _ _ _ _ _ _ E k).
    + intros H1 H2 H3. exfalso. by apply (en_uniq _ _ _ _ _ _ E j).
    + by apply I.
  - intros j Hj. destruct (decide (j = ip)) as [->|Hne]; [rewrite Hs|rewrite Ho by done]; [apply E|]. rewrite HL by done. by apply I.
  - intros j. destruct (decide (j = ip)) as [->|Hne]; [rewrite Hs|rewrite Ho, HL by done]; [|by apply I]. intros Hj. split; [done|by apply E].
  - intros j Hj. destruct (decide (j = ip)) as [->|Hne]; [rewrite Hs|rewrite Ho by done]; [apply E|by apply I].
Qed.

(** The entry itself satisfies what is asked of a new one. *)
Lemma icache_entry pid L x v ip : icache pid L x v -> 0 <= ip < NINODE -> entry_ok pid L x v ip (ino x ip).
Proof.
  intros I Hip. split.
  - by apply I.
  - by apply I.
  - intros ip' H1 H2 H3 H4 H5. by apply H2, I.
  - by apply I.
  - intros H. by apply (ic_mine _ _ _ _ I) in H as [_ ?].
  - by apply I.
Qed.

(** At least [n] entries can still be taken. *)
Definition iroom (n : Z) (x : fsx) : Prop :=
  exists A : list Z, (forall k, 0 < rc x k -> k ∈ A) /\ Z.of_nat (length A) + n <= NINODE.

Lemma sumZ_ge (f : Z -> Z) i l : (forall j, j ∈ l -> 0 <= f j) -> i ∈ l -> f i <= sumZ (map f l) /\ 0 <= sumZ (map f l).
Proof.
  intros Hf Hi. induction l as [|j l IH]; [by apply elem_of_nil in Hi|]. cbn [map sumZ foldr]. fold (sumZ (map f l)).
  pose proof (Hf j ltac:(left)). assert (H0 : 0 <= sumZ (map f l)).
  { clear IH Hi. induction l as [|k l IH]; [done|]. cbn [map sumZ foldr]. fold (sumZ (map f l)).
    pose proof (Hf k ltac:(right; left)). assert (0 <= sumZ (map f l)); [|lia]. apply IH. intros j' [->|Hj']%elem_of_cons; apply Hf; [left|by right; right]. }
  apply elem_of_cons in Hi as [->|Hi]; [lia|]. destruct IH; [intros; apply Hf; by right|done|lia].
Qed.

Lemma rc_active pid L x v ip : icache pid L x v -> 0 <= ip < NINODE -> i_ref (ino x ip) <= rc x (i_inum (ino x ip)).
Proof.
  intros I Hip. destruct (sumZ_ge (fun j => refs_to (i_inum (ino x ip)) (ino x j)) ip (seqZ 0 NINODE)) as [H _].
  - intros j Hj%elem_of_seqZ. unfold refs_to. case_match; [|done]. apply I. lia.
  - apply elem_of_seqZ. lia.
  - unfold rc. etrans; [|exact H]. unfold refs_to. by rewrite Z.eqb_refl.
Qed.

Lemma free_entry pid L x v : icache pid L x v -> iroom 1 x -> exists ip, 0 <= ip < NINODE /\ i_ref (ino x ip) = 0.
Proof.
  intros I (A & HA & Hlen). destruct (decide (Exists (fun ip => i_ref (ino x ip) = 0) (seqZ 0 NINODE))) as [He|Hne].
  { apply Exists_exists in He as (ip & Hip%elem_of_seqZ & E). exists ip. split; [lia|done]. }
  apply not_Exists_Forall in Hne; [|apply _]. rewrite Forall_forall in Hne.
  assert (Hact : forall ip, 0 <= ip < NINODE -> 0 < i_ref (ino x ip)).
  { intros ip Hip. pose proof (ic_ref _ _ _ _ I ip Hip). pose proof (Hne ip ltac:(apply elem_of_seqZ; lia)) as Hz. cbn beta in Hz. destruct (Z.eq_dec (i_ref (ino x ip)) 0); [done|lia]. }
  assert (Hs : map (fun ip => i_inum (ino x ip)) (seqZ 0 NINODE) ⊆+ A).
  { apply NoDup_submseteq.
    - apply NoDup_fmap_2_strong; [|apply NoDup_seqZ]. intros i j Hi%elem_of_seqZ Hj%elem_of_seqZ E.
      apply (ic_uniq _ _ _ _ I); [lia|lia|apply Hact; lia|apply Hact; lia|done].
    - intros k (ip & -> & Hip%elem_of_seqZ)%list_elem_of_fmap. apply HA. pose proof (rc_active _ _ _ _ ip I ltac:(lia)). pose proof (Hact ip ltac:(lia)). lia. }
  apply submseteq_length in Hs. rewrite length_map, length_seqZ in Hs. lia.
Qed.

(** The scan of [iget]. *)
Definition iget_match (x : fsx) (dev inum ip : Z) : bool := (0 <? i_ref (ino x ip)) && (i_dev (ino x ip) =? dev) && (i_inum (ino x ip) =? inum).

Lemma iget_scan_spec x l dev inum k : forall ip empty,
  match iget_scan (fs_with x l) dev inum ip empty k with
  | inl j => ip <= j < ip + Z.of_nat k /\ iget_match x dev inum j = true
  | inr r => (forall j, ip <= j < ip + Z.of_nat k -> iget_match x dev inum j = false) /\
      match r with
      | Some e => empty = Some e \/ ip <= e < ip + Z.of_nat k /\ i_ref (ino x e) = 0
      | None => empty = None /\ forall j, ip <= j < ip + Z.of_nat k -> i_ref (ino x j) <> 0
      end
  end.
Proof.
  induction k as [|k IH]; intros ip empty; cbn [iget_scan].
  - split; [intros; lia|]. destruct empty; [by left|]. split; [done|]. intros; lia.
  - change (inode_at (fs_with x l) ip) with (ino x ip). destruct ((0 <? _) && _ && _) eqn:E; [split; [lia|done]|].
    specialize (IH (ip + 1) (if bool_decide (empty = None) && (i_ref (ino x ip) =? 0) then Some ip else empty)).
    destruct (iget_scan _ _ _ _ _ _) as [j|[e|]].
    + destruct IH. split; [lia|done].
    + destruct IH as [H1 H2]. split; [intros j Hj; destruct (decide (j = ip)) as [->|]; [done|apply H1; lia]|].
      destruct H2 as [H2|[H2 H3]]; [|right; split; [lia|done]]. destruct (bool_decide (empty = None)) eqn:Eb; [|by left].
      destruct (Z.eqb_spec (i_ref (ino x ip)) 0); [|by left]. simpl in H2. injection H2 as <-. right. split; [lia|done].
    + destruct IH as (H1 & H2 & H3). split; [intros j Hj; destruct (decide (j = ip)) as [->|]; [done|apply H1; lia]|].
      destruct (Z.eqb_spec (i_ref (ino x ip)) 0) as [Er|Er]; [destruct empty; [by rewrite bool_decide_eq_false_2 in H2|by rewrite bool_decide_eq_true_2 in H2]|].
      rewrite andb_false_r in H2. split; [done|]. intros j Hj. destruct (decide (j = ip)) as [->|]; [done|apply H3; lia].
Qed.

(** ** The operations *)

Definition plus_ref (inum k : Z) : Z := if k =? inum then 1 else 0.

(** [iget] and [idup] leave active entries where they are. *)
Record grabbed (pid : Z) (L : gset Z) (v : Z -> mem) (inum ip : Z) (x x' : fsx) : Prop := {
  gr_cache : icache pid L x' v;
  gr_range : 0 <= ip < NINODE;
  gr_inum : i_inum (ino x' ip) = inum;
  gr_ref : 0 < i_ref (ino x' ip);
  gr_up : 0 < i_ref (ino x ip) -> i_ref (ino x' ip) = i_ref (ino x ip) + 1;
  gr_rc k : rc x' k = rc x k + plus_ref inum k;
  gr_same : x_mem x' = x_mem x /\ x_sb x' = x_sb x;
  gr_other j : 0 <= j < NINODE -> 0 < i_ref (ino x j) -> i_inum (ino x' j) = i_inum (ino x j) /\ 0 < i_ref (ino x' j) }.

Lemma grabbed_old pid L v x ip : icache pid L x v -> 0 <= ip < NINODE -> 0 < i_ref (ino x ip) ->
  grabbed pid L v (i_inum (ino x ip)) ip x (x_seti ip (fun y => iset_ref (i_ref y + 1) y) x).
Proof.
  intros I Hip Ha. pose proof (ic_in _ _ _ _ I ip Hip) as Hin. pose proof (icache_entry _ _ _ _ _ I Hip) as En.
  split; rewrite ?ino_seti by done; simpl; try done.
  - eapply icache_seti; [done|done| |done]. destruct En as [H1 H2 H3 H4 H5 H6]. split; simpl.
    + lia.
    + intros _. by apply H2.
    + intros ip' Hr Hne _. by apply H3.
    + done.
    + intros Hl. destruct (H5 Hl) as (? & ? & ? & ?). split_and!; try done. lia.
    + intros _ Hv. destruct (H6 Ha Hv). by split.
  - lia.
  - intros k. rewrite rc_seti by done. unfold refs_to, plus_ref. simpl. rewrite (Z.eqb_sym k). case_match; lia.
  - intros j Hj Hja. destruct (decide (j = ip)) as [->|Hne]; [rewrite ino_seti by done; simpl; split; [done|lia]|by rewrite ino_seti_ne].
Qed.

Lemma grabbed_new pid L v x ip inum : icache pid L x v -> 0 <= ip < NINODE -> i_ref (ino x ip) = 0 -> live (x_sb x) v inum ->
  (forall j, 0 <= j < NINODE -> iget_match x ROOTDEV inum j = false) ->
  grabbed pid L v inum ip x (x_seti ip (iset_id ROOTDEV inum 1 false) x).
Proof.
  intros I Hip Hz Hl Hm. pose proof (ic_in _ _ _ _ I ip Hip) as Hin. pose proof (icache_entry _ _ _ _ _ I Hip) as En.
  split; rewrite ?ino_seti by done; simpl; try done.
  - eapply icache_seti; [done|done| |done]. destruct En as [H1 H2 H3 H4 H5 H6]. split; simpl; try done.
    + intros j Hj Hne _ Ha E. specialize (Hm j Hj). unfold iget_match in Hm. destruct (ic_id _ _ _ _ I j Hj Ha) as [Hd _].
      rewrite (proj2 (Z.ltb_lt _ _) Ha), Hd, <-E, !Z.eqb_refl in Hm. done.
    + intros Hil. destruct (H5 Hil). lia.
  - lia.
  - intros k. rewrite rc_seti by done. unfold refs_to, plus_ref. simpl. rewrite Hz, (Z.eqb_sym k). repeat case_match; lia.
  - intros j Hj Hja. destruct (decide (j = ip)) as [->|Hne]; [lia|by rewrite ino_seti_ne].
Qed.

(** [ilock] and [iunlock] change one entry, not its identity. *)
Record touched (ip : Z) (x x' : fsx) : Prop := {
  to_id : i_inum (ino x' ip) = i_inum (ino x ip) /\ i_ref (ino x' ip) = i_ref (ino x ip);
  to_rc k : rc x' k = rc x k;
  to_same : x_mem x' = x_mem x /\ x_sb x' = x_sb x;
  to_other j : j <> ip -> ino x' j = ino x j }.

Lemma touched_seti ip f x : is_Some (x_it x !! ip) -> 0 <= ip < NINODE -> i_inum (f (ino x ip)) = i_inum (ino x ip) ->
  i_ref (f (ino x ip)) = i_ref (ino x ip) -> touched ip x (x_seti ip f x).
Proof.
  intros Hin Hip E1 E2. split; rewrite ?ino_seti by done; try done.
  - intros k. by apply rc_same.
  - intros j Hj. by apply ino_seti_ne.
Qed.

Section ops.
Context (rw : Z -> bool -> M bcache unit) `{!DiskDriver rw} (pid : Z) (fuel : nat) (start size : Z).

Notation fwp := (fwp pid start size).

Lemma crit_seti {A} x l w ip f lk (r : A) : held w = [lk] ->
  (seti ip f;; release lk;; mret r) w (fs_with x l) = Ret (set_held [] w) (fs_with (x_seti ip f x) l) r.
Proof using Type. intros Hw. unfold seti. rewrite run_modify. erewrite run_bind by (by apply release_last). done. Qed.

Lemma iget_spec L v inum (Q : Z -> fsx -> gmap Z Z -> lspec -> Prop) x t p :
  icache pid L x v -> live (x_sb x) v inum -> iroom 1 x ->
  (forall ip x', grabbed pid L v inum ip x x' -> Q ip x' t p) -> fwp (iget ROOTDEV inum) Q x t p.
Proof using Type.
  intros I Hl Hr HQ. apply fwp_crit. intros w l Hw. rewrite run_gets. cbn beta.
  pose proof (iget_scan_spec x l ROOTDEV inum (Z.to_nat NINODE) 0 None) as Hs. rewrite Z2Nat.id, Z.add_0_l in Hs by done.
  destruct (iget_scan _ _ _ _ _ _) as [ip|[ip|]].
  - destruct Hs as [Hip Hm]. unfold iget_match in Hm. apply andb_true_iff in Hm as [[Ha _]%andb_true_iff <-%Z.eqb_eq]. apply Z.ltb_lt in Ha.
    eexists _, _, ip. split; [|split; [|by apply HQ, grabbed_old]]; [by apply (crit_seti x l w)|done].
  - destruct Hs as [Hm [|[Hip Hz]]]; [done|].
    eexists _, _, ip. split; [|split; [|by apply HQ, grabbed_new]]; [by apply (crit_seti x l w)|done].
  - destruct Hs as (_ & _ & Hn). destruct (free_entry _ _ _ _ I Hr) as (ip & Hip & Hz). by destruct (Hn ip Hip).
Qed.

Lemma idup_spec L v ip (Q : Z -> fsx -> gmap Z Z -> lspec -> Prop) x t p :
  icache pid L x v -> 0 <= ip < NINODE -> 0 < i_ref (ino x ip) ->
  (forall x', grabbed pid L v (i_inum (ino x ip)) ip x x' -> Q ip x' t p) -> fwp (idup ip) Q x t p.
Proof using Type.
  intros I Hip Ha HQ. apply fwp_crit. intros w l Hw.
  eexists _, _, ip. split; [by apply (crit_seti x l w)|]. split; [done|]. by apply HQ, grabbed_old.
Qed.

(** The file system is mounted, and blocks can be read. *)
Record mounted (x : fsx) (p : lspec) : Prop := {
  mt_layout : layout start size (x_sb x);
  mt_meta : meta_used (x_sb x) (ls_view p);
  mt_held : ls_held p = ∅;
  mt_room : lenL p < NBUF - 1 }.

Lemma ilock_spec L ip (Q : unit -> fsx -> gmap Z Z -> lspec -> Prop) x t p :
  mounted x p -> icache pid L x (ls_view p) -> 0 <= ip < NINODE -> 0 < i_ref (ino x ip) -> ip ∉ L ->
  (forall x' t', icache pid ({[ip]} ∪ L) x' (ls_view p) -> touched ip x x' -> Q tt x' t' p) ->
  fwp (ilock rw pid fuel (Some ip)) Q x t p.
Proof using All.
  intros [Ly Hm Hh Hr] I Hip Ha HL HQ. pose proof (ic_in _ _ _ _ I ip Hip) as Hin. pose proof (icache_entry _ _ _ _ _ I Hip) as En.
  destruct (en_id _ _ _ _ _ _ En Ha) as [Hd Hlv]. apply fwp_lok. intros Hok.
  apply fwp_bind, fwp_geti. rewrite (proj2 (Z.ltb_ge _ _)) by lia.
  apply fwp_bind, fwp_acquiresleep; [by apply (en_lock _ _ _ _ _ _ En)|]. set (lk := set_owner 1 pid _). apply fwp_bind, fwp_geti. rewrite ino_seti by done.
  assert (En' : forall y, i_ref y = i_ref (ino x ip) -> i_inum y = i_inum (ino x ip) -> i_lock y = lk -> i_valid y = true ->
    same_dinode (disk_inode (x_sb x) (ls_view p) (i_inum (ino x ip))) y -> entry_ok pid ({[ip]} ∪ L) x (ls_view p) ip y).
  { intros y E1 E2 E3 E4 E5. destruct En as [H1 H2 H3 H4 H5 H6]. split; rewrite ?E1, ?E2, ?E3, ?E4; try done.
    - intros _. split; [|done]. rewrite (sd_dev _ _ E5). done.
    - set_solver. }
  cbn [i_valid iset_lock]. destruct (i_valid (ino x ip)) eqn:Ev; cbn [negb].
  - apply fwp_ret, HQ; [|by apply touched_seti]. eapply icache_seti; [done|done| |set_solver].
    apply En'; try done. destruct (en_valid _ _ _ _ _ _ En Ha Ev). by split.
  - cbn [i_dev iset_lock i_inum]. rewrite Hd. apply fwp_bind, (fwp_gets _ _ _ _ (x_sb x)); [done|].
    pose proof (IBLOCK_home Ly (i_inum (ino x ip)) ltac:(destruct (lv_inum _ _ _ Hlv); lia)) as Hb.
    assert (Hhm : home start size (IBLOCK (i_inum (ino x ip)) (x_sb x))).
    { apply (layout_home Ly). pose proof (ly_size _ _ _ Ly). lia. }
    assert (Hn : forall n, n ∉ ls_held p) by (intros n; rewrite Hh; apply not_elem_of_empty).
    apply (fwp_read rw pid fuel); [done|done|rewrite Hh, size_empty; lia|done|].
    intros b t' Hbp _. apply fwp_data; [done|]. apply fwp_bind, fwp_seti, fwp_bind, (fwp_unread rw pid); try done.
    apply fwp_bind, fwp_seti, fwp_bind, fwp_geti. rewrite !x_seti_seti, ino_seti by done.
    rewrite (proj2 (Z.eqb_neq _ _)) by apply (lv_type _ _ _ Hlv). apply fwp_ret, HQ; [|by apply touched_seti].
    eapply icache_seti; [done|done| |set_solver]. apply En'; try done.
    pose proof (loaded_same (x_sb x) (ls_view p) (ino x ip) Hd) as [? ? ? ? ? ? H7]. by split.
Qed.

Lemma iunlock_spec L ip (Q : unit -> fsx -> gmap Z Z -> lspec -> Prop) x v t p :
  icache pid L x v -> ip ∈ L ->
  (forall x', icache pid (L ∖ {[ip]}) x' v -> touched ip x x' -> Q tt x' t p) ->
  fwp (iunlock pid (Some ip)) Q x t p.
Proof using All.
  intros I HL HQ. destruct (ic_mine _ _ _ _ I ip HL) as (Hip & Ha & Hv & Hlk & Hpid). pose proof (ic_in _ _ _ _ I ip Hip) as Hin.
  apply fwp_bind, fwp_holdingsleep. rewrite (proj2 (Z.eqb_neq _ _)), (proj2 (Z.eqb_eq _ _)) by done.
  apply fwp_bind, fwp_geti. rewrite (proj2 (Z.ltb_ge _ _)) by lia. apply fwp_releasesleep.
  apply HQ; [|by apply touched_seti]. eapply icache_seti; [done|done| |set_solver].
  destruct (icache_entry _ _ _ _ _ I Hip) as [H1 H2 H3 H4 H5 H6]. split; simpl; try done; [set_solver|].
  intros _ _. destruct (H6 Ha Hv). by split.
Qed.

(** A reference is given up. *)
Record dropped (L : gset Z) (v : Z -> mem) (inum ip : Z) (x x' : fsx) : Prop := {
  dr_cache : icache pid L x' v;
  dr_rc k : rc x' k = rc x k - plus_ref inum k;
  dr_same : x_mem x' = x_mem x /\ x_sb x' = x_sb x;
  dr_other j : j <> ip -> ino x' j = ino x j;
  dr_entry : i_inum (ino x' ip) = i_inum (ino x ip) /\ i_ref (ino x' ip) = i_ref (ino x ip) - 1 }.

Lemma iput_spec L ip (Q : unit -> fsx -> gmap Z Z -> lspec -> Prop) x v t p :
  icache pid L x v -> 0 <= ip < NINODE -> 0 < i_ref (ino x ip) -> ip ∉ L ->
  (forall x', dropped L v (i_inum (ino x ip)) ip x x' -> Q tt x' t p) -> fwp (iput rw pid fuel ip) Q x t p.
Proof using All.
  intros I Hip Ha HL HQ. pose proof (ic_in _ _ _ _ I ip Hip) as Hin. pose proof (icache_entry _ _ _ _ _ I Hip) as [H1 H2 H3 H4 H5 H6].
  destruct (H2 Ha) as [Hd Hlv]. apply fwp_crit. intros w l Hw. unfold geti. rewrite run_gets. cbn beta. change (inode_at (fs_with x l) ip) with (ino x ip).
  assert (Ec : (i_ref (ino x ip) =? 1) && i_valid (ino x ip) && (i_nlink (ino x ip) =? 0) = false).
  { destruct (i_valid (ino x ip)) eqn:Ev; [|by rewrite andb_false_r]. pose proof (sd_nlink _ _ (H6 Ha eq_refl)) as En.
    pose proof (lv_nlink _ _ _ Hlv). rewrite En, (proj2 (Z.eqb_neq _ 0)) by lia. apply andb_false_r. }
  rewrite Ec. cbn [when]. erewrite run_bind by reflexivity. unfold seti. rewrite run_modify.
  eexists _, (x_seti ip (fun x => iset_ref (i_ref x - 1) x) x), tt. split; [by apply release_last|]. split; [done|]. apply HQ.
  split; rewrite ?ino_seti by done; try done.
  - eapply icache_seti; [done|done| |done]. split; simpl; try done; [lia|..].
    + intros j Hj Hne _ Hja. by apply H3.
    + intros _ Hv. destruct (H6 Ha Hv). by split.
  - intros k. rewrite rc_seti by done. unfold refs_to, plus_ref. simpl. rewrite (Z.eqb_sym k). case_match; lia.
  - intros j Hj. by apply ino_seti_ne.
Qed.

Lemma iunlockput_spec L ip (Q : unit -> fsx -> gmap Z Z -> lspec -> Prop) x v t p :
  icache pid L x v -> ip ∈ L ->
  (forall x', dropped (L ∖ {[ip]}) v (i_inum (ino x ip)) ip x x' -> Q tt x' t p) -> fwp (iunlockput rw pid fuel ip) Q x t p.
Proof using All.
  intros I HL HQ. destruct (ic_mine _ _ _ _ I ip HL) as (Hip & Ha & _). apply fwp_bind. eapply iunlock_spec; [done|done|].
  intros x1 I1 [[E1 E2] T2 [T3 T3'] T4]. eapply iput_spec; [done|done|lia|set_solver|]. rewrite E1. intros x2 [D1 D2 [D3 D3'] D4 D5].
  apply HQ. split; [done|..].
  - intros k. by rewrite D2, T2.
  - split; congruence.
  - intros j Hj. by rewrite D4, T4.
  - destruct D5. split; congruence.
Qed.
End ops.
