(* ===== verification/FsDir.v ===== *)
(** * Directories and paths

    [dirlookup] and [namex] of kernel/fs.c find what a search of the tree of
    directories on the disk finds, and give up every reference that they take. *)

From S2P Require Import Prelude Machine Sleeplock Mem Layout Kalloc Vm VmCopy Bio BioInv BioSpec BioRefine FsHdr Log LogDisk LogSpec LogCommit LogRun LogOps LogTheorems Printf Fs FsLogic FsBitmap FsFile FsRead FsWrite FsContent FsInode.

(** ** Names *)

Fixpoint upto_nul (s : list Z) : list Z :=
  match s with
  | [] => []
  | c :: s => if c =? 0 then [] else c :: upto_nul s
  end.

(** The file name in an array of characters. *)
Definition fname (s : list Z) : list Z := take (Z.to_nat DIRSIZ) (upto_nul s).

Lemma strncmp_chars_eq n : forall s t, strncmp_chars s t n = 0 <-> take n (upto_nul s) = take n (upto_nul t).
Proof.
  induction n as [|n IH]; intros s t; [done|]. cbn [strncmp_chars].
  assert (E : forall l, upto_nul l = if default 0 (head l) =? 0 then [] else default 0 (head l) :: upto_nul (tail l)) by (by intros []).
  rewrite (E s), (E t). set (c := default 0 (head s)). set (c' := default 0 (head t)).
  destruct (Z.eqb_spec c 0) as [Hc|Hc], (Z.eqb_spec c' 0) as [Hc'|Hc'], (Z.eqb_spec c c') as [Hcc|Hcc]; simpl; try (split; [lia|congruence]); try lia.
  - split; [done|lia].
  - rewrite IH, Hcc. split; [congruence|by intros [= ?]].
Qed.

Lemma namecmp_eq s t : namecmp s t = 0 <-> fname s = fname t.
Proof. apply strncmp_chars_eq. Qed.

(** ** The search of a directory *)

(** The bytes of the [m]th entry. *)
Definition entry (c : list Z) (m : Z) : list Z := take (Z.to_nat DIRENT_SIZE) (drop (Z.to_nat (m * DIRENT_SIZE)) c).

(** The first entry with the name, from entry [m] on. *)
Fixpoint dir_find (c name : list Z) (m : Z) (k : nat) : option (Z * Z) :=
  match k with
  | O => None
  | S k =>
      let de := entry c m in
      if negb (de_inum de =? 0) && bool_decide (fname name = fname (de_name de)) then Some (de_inum de, m * DIRENT_SIZE)
      else dir_find c name (m + 1) k
  end.

Definition dir_lookup (c name : list Z) : option (Z * Z) := dir_find c name 0 (length c / Z.to_nat DIRENT_SIZE).

(** The entries of directories in use are inodes in use. *)
Record dir_ok (sb : superblock) (v : Z -> mem) (i : Z) : Prop := {
  do_size : i_size (disk_inode sb v i) mod DIRENT_SIZE = 0;
  do_live m : 0 <= m < i_size (disk_inode sb v i) / DIRENT_SIZE ->
    de_inum (entry (content (disk_inode sb v i) v) m) <> 0 -> live sb v (de_inum (entry (content (disk_inode sb v i) v) m)) }.

Definition tree_ok (sb : superblock) (v : Z -> mem) : Prop :=
  forall i, live sb v i -> i_type (disk_inode sb v i) = T_DIR -> dir_ok sb v i.

Section dir.
Context (rw : Z -> bool -> M bcache unit) `{!DiskDriver rw} (pid : Z) (fuel : nat) (upt : Z) (start size : Z).

Notation fwp := (fwp pid start size).

(** A locked inode can be read. *)
Lemma locked_state L x p ip : mounted start size x p -> icache pid L x (ls_view p) -> ip ∈ L ->
  fstate start size ip x p /\ same_dinode (disk_inode (x_sb x) (ls_view p) (i_inum (ino x ip))) (ino x ip) /\ live (x_sb x) (ls_view p) (i_inum (ino x ip)).
Proof using Type.
  intros [M1 M2 M3 M4] I HL. destruct (ic_mine _ _ _ _ I ip HL) as (Hip & Ha & Hv & _).
  pose proof (ic_valid _ _ _ _ I ip Hip Ha Hv) as E. destruct (ic_id _ _ _ _ I ip Hip Ha) as [_ Hlv]. split; [|done].
  split; [done|done|done|by apply I|]. apply (same_ok E), Hlv.
Qed.

Lemma read_entry L x p t dp m (Q : Z * list Z -> fsx -> gmap Z Z -> lspec -> Prop) :
  mounted start size x p -> icache pid L x (ls_view p) -> dp ∈ L -> i_size (ino x dp) mod DIRENT_SIZE = 0 ->
  0 <= m < i_size (ino x dp) / DIRENT_SIZE ->
  (forall t', Q (DIRENT_SIZE, entry (content (disk_inode (x_sb x) (ls_view p) (i_inum (ino x dp))) (ls_view p)) m) x t' p) ->
  fwp (readi rw pid fuel upt dp ToLocal (m * DIRENT_SIZE) DIRENT_SIZE) Q x t p.
Proof using All.
  intros Mt I HL Hs Hm HQ. destruct (locked_state _ _ _ _ Mt I HL) as (S & E & Hlv). pose proof (fo_size _ _ _ (st_file _ _ _ _ _ S)) as Hsz.
  assert (HM : MAXFILE * BSIZE < 2 ^ 31) by (vm_compute; reflexivity). change DIRENT_SIZE with 16 in *.
  assert (Hoff : 0 <= m * 16 /\ m * 16 + 16 <= i_size (ino x dp)) by (Z.to_euclidean_division_equations; lia).
  apply (readi_local rw pid fuel upt); [done|apply (mt_room _ _ _ _ Mt)|lia|lia|]. intros t'.
  assert (Hr : read_len (ino x dp) (m * 16) 16 = 16).
  { unfold read_len. rewrite (proj2 (Z.ltb_ge _ _)), (proj2 (Z.leb_gt _ _)) by lia. simpl. lia. }
  rewrite Hr, frange_content by lia. rewrite (same_content E). apply HQ.
Qed.

(** The contents of the directory in entry [dp]. *)
Notation dcontent x p dp := (content (disk_inode (x_sb x) (ls_view p) (i_inum (ino x dp))) (ls_view p)).

Lemma dirlookup_loop_spec L x p dp name (Q : option (Z * Z) -> fsx -> gmap Z Z -> lspec -> Prop) :
  mounted start size x p -> icache pid L x (ls_view p) -> dp ∈ L -> dir_ok (x_sb x) (ls_view p) (i_inum (ino x dp)) -> iroom 1 x ->
  forall n k m t, 0 <= m -> m + Z.of_nat n = i_size (ino x dp) / DIRENT_SIZE -> (n <= k)%nat ->
  (forall t', match dir_find (dcontent x p dp) name m n with
     | None => Q None x t' p
     | Some (inum, off) => forall ip x', grabbed pid L (ls_view p) inum ip x x' -> Q (Some (ip, off)) x' t' p
     end) ->
  fwp (dirlookup_loop rw pid fuel upt dp name (m * DIRENT_SIZE) k) Q x t p.
Proof using All.
  intros Mt I HL Hok Hr. destruct (locked_state _ _ _ _ Mt I HL) as (S & E & Hlv). pose proof (fo_size _ _ _ (st_file _ _ _ _ _ S)) as Hsz.
  destruct Hok as [Hs Hlive]. rewrite <-(sd_size _ _ E) in Hs, Hlive.
  induction n as [|n IH]; intros k m t Hm Hn Hk HQ.
  - assert (m * DIRENT_SIZE = i_size (ino x dp)) as Em by (change DIRENT_SIZE with 16 in *; Z.to_euclidean_division_equations; lia).
    destruct k; cbn [dirlookup_loop]; apply fwp_bind, fwp_geti; rewrite Em, Z.ltb_irrefl; apply fwp_ret, HQ.
  - destruct k as [|k]; [lia|]. cbn [dirlookup_loop]. apply fwp_bind, fwp_geti.
    assert (m * DIRENT_SIZE < i_size (ino x dp)) by (change DIRENT_SIZE with 16 in *; Z.to_euclidean_division_equations; lia).
    rewrite (proj2 (Z.ltb_lt _ _)) by done. apply fwp_bind. apply (read_entry L); [done|done|done|done|lia|]. intros t'. cbn [fst snd].
    rewrite Z.eqb_refl. cbn [negb]. cbn [dir_find] in HQ. replace (m * DIRENT_SIZE + DIRENT_SIZE) with ((m + 1) * DIRENT_SIZE) by lia.
    specialize (Hlive m ltac:(lia)). set (de := entry _ m) in *.
    destruct (Z.eqb_spec (de_inum de) 0) as [Hz|Hz]; cbn [negb andb] in HQ; [by apply IH; [lia|lia|lia|]|].
    destruct (Z.eqb_spec (namecmp name (de_name de)) 0) as [Hc|Hc].
    + apply namecmp_eq in Hc. rewrite bool_decide_eq_true_2 in HQ by done. apply fwp_bind, fwp_geti. rewrite (fo_dev _ _ _ (st_file _ _ _ _ _ S)).
      apply fwp_bind, (iget_spec pid start size L (ls_view p)); [done|by apply Hlive|done|]. intros ip x' G. by apply fwp_ret, HQ.
    + rewrite bool_decide_eq_false_2 in HQ by (by rewrite <-namecmp_eq). by apply IH; [lia|lia|lia|].
Qed.

Lemma dirlookup_spec L x p t dp name (Q : option (Z * Z) -> fsx -> gmap Z Z -> lspec -> Prop) :
  mounted start size x p -> icache pid L x (ls_view p) -> tree_ok (x_sb x) (ls_view p) -> dp ∈ L -> i_type (ino x dp) = T_DIR -> iroom 1 x ->
  (forall t', match dir_lookup (dcontent x p dp) name with
     | None => Q None x t' p
     | Some (inum, off) => forall ip x', grabbed pid L (ls_view p) inum ip x x' -> Q (Some (ip, off)) x' t' p
     end) ->
  fwp (dirlookup rw pid fuel upt dp name) Q x t p.
Proof using All.
  intros Mt I Ht HL Hty Hr HQ. destruct (locked_state _ _ _ _ Mt I HL) as (S & E & Hlv). pose proof (fo_size _ _ _ (st_file _ _ _ _ _ S)) as Hsz.
  apply fwp_bind, fwp_geti. rewrite Hty. cbn [negb Z.eqb T_DIR].
  apply (dirlookup_loop_spec L x p dp name Q Mt I HL (Ht _ Hlv ltac:(rewrite <-(sd_type _ _ E); done)) Hr (Z.to_nat (i_size (ino x dp) / DIRENT_SIZE)) _ 0).
  - done.
  - rewrite Z2Nat.id; [lia|]. apply Z.div_pos; [lia|done].
  - lia.
  - intros t'. specialize (HQ t'). unfold dir_lookup in HQ. rewrite content_length, <-(sd_size _ _ E) in HQ by (rewrite <-(sd_size _ _ E); lia).
    replace (Z.to_nat (i_size (ino x dp) / DIRENT_SIZE)) with (Z.to_nat (i_size (ino x dp)) / Z.to_nat DIRENT_SIZE)%nat; [exact HQ|].
    rewrite Z2Nat.inj_div by (done || lia). done.
Qed.
End dir.

(** ** Paths *)

(** The elements of a path: what is between slashes, without what is empty. *)
Fixpoint elems_from (cur path : list Z) : list (list Z) :=
  match path with
  | [] => match cur with [] => [] | _ => [cur] end
  | c :: path =>
      if c =? slash then match cur with [] => elems_from [] path | _ => cur :: elems_from [] path end
      else elems_from (cur ++ [c]) path
  end.

Definition elems (path : list Z) : list (list Z) := elems_from [] path.

Lemma elems_skip path : elems (skip_slashes path) = elems path.
Proof. unfold elems. induction path as [|c path IH]; [done|]. simpl. destruct (c =? slash) eqn:Hc; [exact IH|]. simpl. by rewrite Hc. Qed.

Lemma elems_split path : forall cur, cur <> [] \/ (split_elem path).1 <> [] ->
  elems_from cur path = (cur ++ (split_elem path).1) :: elems (split_elem path).2.
Proof.
  induction path as [|c path IH]; intros cur Hne; simpl in *.
  - rewrite app_nil_r. destruct cur; [by destruct Hne|done].
  - destruct (Z.eqb_spec c slash) as [->|Hc]; simpl.
    + rewrite app_nil_r. destruct cur; [by destruct Hne|]. unfold elems. cbn [elems_from]. by rewrite Z.eqb_refl.
    + rewrite IH by (left; by destruct cur). by rewrite <-app_assoc.
Qed.

Lemma upto_nul_id s : 0 ∉ s -> upto_nul s = s.
Proof.
  induction s as [|c s IH]; intros Hs; [done|]. apply not_elem_of_cons in Hs as [Hc Hs]. simpl. rewrite (proj2 (Z.eqb_neq c 0)) by done. by rewrite IH.
Qed.

Lemma upto_nul_cut s r : 0 ∉ s -> upto_nul (s ++ [0] ++ r) = s.
Proof.
  change ([0] ++ r) with (0 :: r). induction s as [|c s IH]; intros Hs; [done|]. apply not_elem_of_cons in Hs as [Hc Hs].
  simpl. rewrite (proj2 (Z.eqb_neq c 0)) by done. by rewrite IH.
Qed.

Lemma split_elem_app path : path = (split_elem path).1 ++ (split_elem path).2.
Proof. induction path as [|c path IH]; [done|]. simpl. destruct (c =? slash); simpl; [done|by rewrite <-IH]. Qed.

Lemma skip_slashes_suffix path : exists l, path = l ++ skip_slashes path.
Proof.
  induction path as [|c path IH]; [by exists []|]. simpl. destruct (c =? slash); [|by exists []]. destruct IH as [l Hl].
  exists (c :: l). simpl. by rewrite <-Hl.
Qed.

Lemma skip_slashes_head path c rest : skip_slashes path = c :: rest -> c <> slash.
Proof. induction path as [|d path IH]; [done|]. simpl. destruct (Z.eqb_spec d slash); [done|]. by intros [= <- _]. Qed.

Lemma skipped_empty path : skip_slashes path = [] <-> elems (skip_slashes path) = [].
Proof.
  split; [by intros ->|]. destruct (skip_slashes path) as [|c rest] eqn:E; [done|]. pose proof (skip_slashes_head _ _ _ E) as Hc.
  unfold elems. rewrite elems_split; [done|]. right. simpl. by rewrite (proj2 (Z.eqb_neq c slash)).
Qed.

(** [skipelem] takes the first element of the path off. *)
Lemma skipelem_spec path name : 0 ∉ path ->
  match skipelem path name with
  | None => elems path = []
  | Some (path', name') => exists s, elems path = s :: elems path' /\ fname name' = fname s /\ 0 ∉ path' /\ (length path' < length path)%nat /\
      (path' = [] <-> elems path' = [])
  end.
Proof.
  intros H0. unfold skipelem. destruct (skip_slashes_suffix path) as [l El]. destruct (skip_slashes path) as [|c rest] eqn:E.
  - rewrite <-elems_skip, E. done.
  - pose proof (skip_slashes_head _ _ _ E) as Hc. destruct (split_elem (c :: rest)) as [s r] eqn:Es. pose proof (split_elem_app (c :: rest)) as Ea. rewrite Es in Ea. cbn [fst snd] in Ea.
    destruct (skip_slashes_suffix r) as [l' El']. exists s. pose proof (elems_split (c :: rest) []) as Hel. rewrite Es in Hel. cbn [fst snd app] in Hel.
    assert (Hs : exists s', s = c :: s').
    { simpl in Es. rewrite (proj2 (Z.eqb_neq c slash)) in Es by done. injection Es as <- _. by eexists. }
    destruct Hs as [s' ->]. rewrite El, Ea in H0. apply not_elem_of_app in H0 as [_ [Hs0 Hr0]%not_elem_of_app]. split_and!.
    + rewrite <-elems_skip, E. unfold elems at 1. rewrite Hel by (by right). by rewrite elems_skip.
    + unfold fname. set (n := c :: s') in *. destruct (Z.leb_spec DIRSIZ (Z.of_nat (length n))) as [Hl|Hl].
      * rewrite (upto_nul_id n) by done. rewrite upto_nul_id; [by rewrite take_take, Nat.min_id|].
        intros Hin. apply Hs0. rewrite <-(take_drop (Z.to_nat DIRSIZ) n). apply elem_of_app. by left.
      * by rewrite (upto_nul_cut n), (upto_nul_id n).
    + intros Hin. apply Hr0. rewrite El'. apply elem_of_app. by right.
    + apply (f_equal length) in El, Ea, El'. rewrite length_app in El, Ea, El'. simpl in *. lia.
    + apply skipped_empty.
Qed.

(** ** Searching the tree *)

(** The inode that [els] leads to from inode [i]; with [par], the directory in which
    its last element is looked up. *)
Fixpoint walk_tree (sb : superblock) (v : Z -> mem) (par : bool) (i : Z) (els : list (list Z)) : option Z :=
  match els with
  | [] => if par then None else Some i
  | e :: es =>
      if negb (i_type (disk_inode sb v i) =? T_DIR) then None
      else if par && bool_decide (es = []) then Some i
      else
        match dir_lookup (content (disk_inode sb v i) v) e with
        | Some (j, _) => walk_tree sb v par j es
        | None => None
        end
  end.

Lemma dir_find_name c e e' : fname e = fname e' -> forall k m, dir_find c e m k = dir_find c e' m k.
Proof. intros E. induction k as [|k IH]; intros m; cbn [dir_find]; [done|]. by rewrite E, IH. Qed.

(** A lookup finds an inode in use. *)
Lemma dir_find_live sb v i e : dir_ok sb v i -> forall k m j off, 0 <= m -> m + Z.of_nat k <= i_size (disk_inode sb v i) / DIRENT_SIZE ->
  dir_find (content (disk_inode sb v i) v) e m k = Some (j, off) -> live sb v j.
Proof.
  intros Hd. induction k as [|k IH]; intros m j off Hm Hk; cbn [dir_find]; [done|]. destruct (_ && _) eqn:E.
  - intros [= <- _]. apply andb_true_iff in E as [Hz%negb_true_iff%Z.eqb_neq _]. apply (do_live _ _ _ Hd); [lia|done].
  - apply IH; lia.
Qed.

(** The result of a walk that started at entry [ip], inode [i]: the reference to [i]
    is gone, and there is one to the inode found. *)
Record walked (pid : Z) (v : Z -> mem) (i : Z) (r : option Z) (ret : option Z) (x x' : fsx) : Prop := {
  wk_cache : icache pid ∅ x' v;
  wk_same : x_mem x' = x_mem x /\ x_sb x' = x_sb x;
  wk_rc k : rc x' k = rc x k - plus_ref i k + match r with Some j => plus_ref j k | None => 0 end;
  wk_ret : match r, ret with
    | Some j, Some ip => 0 <= ip < NINODE /\ 0 < i_ref (ino x' ip) /\ i_inum (ino x' ip) = j
    | None, None => True
    | _, _ => False
    end }.

Lemma unlock_all ip : ({[ip]} ∪ ∅) ∖ {[ip]} = (∅ : gset Z).
Proof. set_solver. Qed.

Lemma last_default {A} (a : A) l d d' : List.last (a :: l) d = List.last (a :: l) d'.
Proof. revert a. induction l as [|b l IH]; intros a; [done|]. apply IH. Qed.

Section path.
Context (rw : Z -> bool -> M bcache unit) `{!DiskDriver rw} (pid : Z) (fuel : nat) (upt : Z) (start size : Z).

Notation fwp := (fwp pid start size).

Lemma iroom_walk A x i : (forall k, 0 < rc x k - plus_ref i k -> k ∈ A) -> Z.of_nat (length A) + 2 <= NINODE -> iroom 1 x.
Proof using Type.
  intros HA Hl. exists (i :: A). split; [|simpl; lia]. intros k Hk. destruct (Z.eq_dec k i) as [->|Hne]; [left|right].
  apply HA. unfold plus_ref. rewrite (proj2 (Z.eqb_neq k i)) by done. lia.
Qed.

(** The end of the path. *)
Lemma namex_end par path name ip x t p (Q : option Z * list Z -> fsx -> gmap Z Z -> lspec -> Prop) :
  icache pid ∅ x (ls_view p) -> 0 <= ip < NINODE -> 0 < i_ref (ino x ip) -> elems path = [] ->
  (forall ret x' t', walked pid (ls_view p) (i_inum (ino x ip)) (walk_tree (x_sb x) (ls_view p) par (i_inum (ino x ip)) (elems path)) ret x x' ->
     Q (ret, name) x' t' p) ->
  fwp (if par then iput rw pid fuel ip;; mret (None, name) else mret (Some ip, name)) Q x t p.
Proof using All.
  intros I Hip Ha He HQ. rewrite He in HQ. cbn [walk_tree] in HQ. destruct par.
  - apply fwp_bind. eapply (iput_spec rw); [done|done|done|apply not_elem_of_empty|]. intros x' [D1 D2 D3 D4 D5].
    apply fwp_ret, HQ. split; try done. intros k. rewrite D2. lia.
  - apply fwp_ret, HQ. split; try done. intros k. lia.
Qed.

(** An entry of a directory is followed, the directory is unlocked and given up. *)
Lemma walk_step x x1 x2 x3 v ip next j : icache pid ∅ x v -> 0 <= ip < NINODE -> 0 < i_ref (ino x ip) ->
  touched ip x x1 -> grabbed pid ({[ip]} ∪ ∅) v j next x1 x2 -> dropped pid ∅ v (i_inum (ino x2 ip)) ip x2 x3 ->
  icache pid ∅ x3 v /\ 0 <= next < NINODE /\ 0 < i_ref (ino x3 next) /\ i_inum (ino x3 next) = j /\
  (x_mem x3 = x_mem x /\ x_sb x3 = x_sb x) /\ forall k, rc x3 k = rc x k - plus_ref (i_inum (ino x ip)) k + plus_ref j k.
Proof using Type.
  intros I Hip Ha [[T1 T1'] T2 [T3 T3'] T4] G [D1 D2 [D3 D3'] D4 [D5 D5']]. pose proof (gr_same _ _ _ _ _ _ _ G) as [G1 G2].
  destruct (gr_other _ _ _ _ _ _ _ G ip Hip ltac:(lia)) as [G3 _]. split_and!; try done; try congruence.
  - apply (gr_range _ _ _ _ _ _ _ G).
  - apply (gr_range _ _ _ _ _ _ _ G).
  - destruct (decide (next = ip)) as [->|Hne]; [|rewrite D4 by done; apply (gr_ref _ _ _ _ _ _ _ G)].
    rewrite D5', (gr_up _ _ _ _ _ _ _ G) by lia. lia.
  - destruct (decide (next = ip)) as [->|Hne]; [rewrite D5|rewrite D4 by done]; apply (gr_inum _ _ _ _ _ _ _ G).
  - intros k. rewrite D2, (gr_rc _ _ _ _ _ _ _ G), T2, G3, T1. lia.
Qed.

(** The walk ends without a result, or, with [par], in the directory. *)
Lemma walk_none x x1 v ip n t p (Q : option Z * list Z -> fsx -> gmap Z Z -> lspec -> Prop) :
  icache pid ({[ip]} ∪ ∅) x1 v -> touched ip x x1 ->
  (forall x' t', walked pid v (i_inum (ino x ip)) None None x x' -> Q (None, n) x' t' p) ->
  fwp (iunlockput rw pid fuel ip;; mret (None, n)) Q x1 t p.
Proof using All.
  intros I1 [[T1 T1'] T2 [T3 T3'] T4] HQ. apply fwp_bind. eapply (iunlockput_spec rw); [done|set_solver|]. rewrite T1.
  intros x2 [D1 D2 [D3 D3'] D4 D5]. apply fwp_ret, HQ. rewrite unlock_all in D1.
  split; [done|split; congruence| |done]. intros k. rewrite D2, T2. lia.
Qed.

Lemma walk_parent x x1 v ip n t p (Q : option Z * list Z -> fsx -> gmap Z Z -> lspec -> Prop) :
  0 <= ip < NINODE -> 0 < i_ref (ino x ip) -> icache pid ({[ip]} ∪ ∅) x1 v -> touched ip x x1 ->
  (forall x' t', walked pid v (i_inum (ino x ip)) (Some (i_inum (ino x ip))) (Some ip) x x' -> Q (Some ip, n) x' t' p) ->
  fwp (iunlock pid (Some ip);; mret (Some ip, n)) Q x1 t p.
Proof using All.
  intros Hip Ha I1 [[T1 T1'] T2 [T3 T3'] T4] HQ. apply fwp_bind. eapply (iunlock_spec rw pid fuel); [done|set_solver|].
  intros x2 I2 [[U1 U1'] U2 [U3 U3'] U4]. apply fwp_ret, HQ.
  rewrite unlock_all in I2. constructor; [done|split; congruence| |].
  - intros k. rewrite U2, T2. lia.
  - split; [done|]. split; [lia|congruence].
Qed.

Lemma walked_trans v i j r ret x x1 x' : walked pid v j r ret x1 x' -> x_mem x1 = x_mem x /\ x_sb x1 = x_sb x ->
  (forall k, rc x1 k = rc x k - plus_ref i k + plus_ref j k) -> walked pid v i r ret x x'.
Proof using Type.
  intros [W1 [W2 W2'] W3 W4] [E1 E2] E3. split; [done|split; congruence| |done]. intros k. rewrite W3, E3. lia.
Qed.

Lemma mounted_sb x x' p : x_sb x' = x_sb x -> mounted start size x p -> mounted start size x' p.
Proof using Type. intros E []. by split; rewrite ?E. Qed.

Lemma namex_loop_spec par A p : forall k path name ip x t (Q : option Z * list Z -> fsx -> gmap Z Z -> lspec -> Prop),
  mounted start size x p -> icache pid ∅ x (ls_view p) -> tree_ok (x_sb x) (ls_view p) ->
  0 <= ip < NINODE -> 0 < i_ref (ino x ip) ->
  (forall k, 0 < rc x k - plus_ref (i_inum (ino x ip)) k -> k ∈ A) -> Z.of_nat (length A) + 2 <= NINODE ->
  0 ∉ path -> (length path <= k)%nat ->
  (forall ret name' x' t', walked pid (ls_view p) (i_inum (ino x ip)) (walk_tree (x_sb x) (ls_view p) par (i_inum (ino x ip)) (elems path)) ret x x' ->
     (is_Some ret -> fname name' = fname (List.last (elems path) name)) -> Q (ret, name') x' t' p) ->
  fwp (namex_loop rw pid fuel upt ip path par name k) Q x t p.
Proof using All.
  induction k as [|k IH]; intros path name ip x t Q Mt I Ht Hip Ha HA Hl H0 Hk HQ;
    pose proof (skipelem_spec path name H0) as Hs; cbn [namex_loop]; destruct (skipelem path name) as [[path' name']|].
  - destruct Hs as (_ & _ & _ & _ & Hlen & _). lia.
  - by apply (namex_end par path); try done; intros; apply HQ; [|rewrite Hs].
  - destruct Hs as (e & Ee & En & H0' & Hlen & Hemp). rewrite Ee in HQ. cbn [walk_tree] in HQ.
    apply fwp_bind, (ilock_spec rw pid fuel start size ∅); [done|done|done|done|apply not_elem_of_empty|]. intros x1 t1 I1 To.
    pose proof (to_same _ _ _ To) as [T3 T4]. pose proof (mounted_sb _ x1 p T4 Mt) as Mt1. assert (HL : ip ∈ {[ip]} ∪ (∅ : gset Z)) by set_solver.
    destruct (locked_state pid start size _ _ _ _ Mt1 I1 HL) as (S & E & Hlv). pose proof (to_id _ _ _ To) as [T1 T2].
    rewrite T1, T4 in E, Hlv. apply fwp_bind, fwp_geti. rewrite (sd_type _ _ E). set (i := i_inum (ino x ip)) in *.
    destruct (Z.eqb_spec (i_type (disk_inode (x_sb x) (ls_view p) i)) T_DIR) as [Hty|Hty]; cbn [negb] in *.
    2: { eapply walk_none; [done|done|]. intros x' t' W. by apply HQ; [|intros []]. }
    rewrite (bool_decide_ext _ _ Hemp). destruct (par && bool_decide (elems path' = [])) eqn:Ep.
    { apply andb_true_iff in Ep as [_ Hes%bool_decide_eq_true]. eapply walk_parent; [done|done|done|done|]. intros x' t' W.
      apply HQ; [done|]. intros _. by rewrite Hes. }
    apply fwp_bind. apply (dirlookup_spec rw pid fuel upt start size ({[ip]} ∪ ∅)); [done|done|by rewrite T4|done|by rewrite (sd_type _ _ E)| |].
    { apply (iroom_walk A x1 i); [|done]. intros k0. rewrite (to_rc _ _ _ To). apply HA. }
    intros t'. rewrite T1, T4. fold i. unfold dir_lookup in *. rewrite (dir_find_name _ name' e En).
    destruct (dir_find _ e _ _) as [[j off]|].
    2: { eapply walk_none; [done|done|]. intros x' t2 W. by apply HQ; [|intros []]. }
    intros next x2 G. apply fwp_bind. pose proof (gr_cache _ _ _ _ _ _ _ G) as I2. eapply (iunlockput_spec rw); [done|set_solver|]. rewrite unlock_all. intros x3 D.
    destruct (walk_step x x1 x2 x3 (ls_view p) ip next j I Hip Ha To G D) as (I3 & Hn & Hna & Hj & [Hm3 Hs3] & Hrc).
    apply IH; rewrite ?Hj; try done.
    + by apply (mounted_sb x).
    + by rewrite Hs3.
    + intros k0. rewrite Hrc. intros Hk0. apply HA. fold i in Hk0. lia.
    + lia.
    + intros ret nm x' t2 W Hnm. rewrite Hs3 in W. apply HQ; [by eapply walked_trans|]. intros Hr. rewrite (Hnm Hr).
      destruct (elems path') as [|e' es']; [done|]. change (List.last (e :: e' :: es') name) with (List.last (e' :: es') name).
      by rewrite (last_default e' es' name' name).
  - by apply (namex_end par path); try done; intros; apply HQ; [|rewrite Hs].
Qed.

(** The inode at which a path starts. *)
Definition start_of (cwd : Z) (x : fsx) (path : list Z) : Z :=
  if bool_decide (head path = Some slash) then ROOTINO else i_inum (ino x cwd).

(** The result of [namex] is that of the walk, with one more reference. *)
Record found (v : Z -> mem) (r : option Z) (ret : option Z) (x x' : fsx) : Prop := {
  fd_cache : icache pid ∅ x' v;
  fd_same : x_mem x' = x_mem x /\ x_sb x' = x_sb x;
  fd_rc k : rc x' k = rc x k + match r with Some j => plus_ref j k | None => 0 end;
  fd_ret : match r, ret with
    | Some j, Some ip => 0 <= ip < NINODE /\ 0 < i_ref (ino x' ip) /\ i_inum (ino x' ip) = j
    | None, None => True
    | _, _ => False
    end }.

Lemma walked_found v inum ip x x1 r ret x' : grabbed pid ∅ v inum ip x x1 -> walked pid v inum r ret x1 x' -> found v r ret x x'.
Proof using Type.
  intros G [W1 [W2 W2'] W3 W4]. pose proof (gr_same _ _ _ _ _ _ _ G) as [G1 G2]. split; [done|split; congruence| |done].
  intros k. rewrite W3, (gr_rc _ _ _ _ _ _ _ G). lia.
Qed.

Lemma namex_run par cwd path name x t p (Q : option Z * list Z -> fsx -> gmap Z Z -> lspec -> Prop) :
  mounted start size x p -> icache pid ∅ x (ls_view p) -> tree_ok (x_sb x) (ls_view p) -> live (x_sb x) (ls_view p) ROOTINO ->
  (head path <> Some slash -> 0 <= cwd < NINODE /\ 0 < i_ref (ino x cwd)) -> iroom 2 x -> 0 ∉ path ->
  (forall ret name' x' t', found (ls_view p) (walk_tree (x_sb x) (ls_view p) par (start_of cwd x path) (elems path)) ret x x' ->
     (is_Some ret -> fname name' = fname (List.last (elems path) name)) -> Q (ret, name') x' t' p) ->
  fwp (namex rw pid fuel upt cwd path par name) Q x t p.
Proof using All.
  intros Mt I Ht Hroot Hcwd (A & HA & Hl) H0 HQ. unfold namex.
  assert (Hloop : forall ip x1, grabbed pid ∅ (ls_view p) (start_of cwd x path) ip x x1 ->
    fwp (namex_loop rw pid fuel upt ip path par name (length path)) Q x1 t p).
  { intros ip x1 G. pose proof (gr_same _ _ _ _ _ _ _ G) as [G1 G2]. pose proof (gr_inum _ _ _ _ _ _ _ G) as Gi.
    apply (namex_loop_spec par A); try done.
    - by apply (mounted_sb x).
    - apply (gr_cache _ _ _ _ _ _ _ G).
    - by rewrite G2.
    - apply (gr_range _ _ _ _ _ _ _ G).
    - apply (gr_ref _ _ _ _ _ _ _ G).
    - intros k. rewrite (gr_rc _ _ _ _ _ _ _ G), Gi. intros Hk. apply HA. lia.
    - rewrite Gi, G2. intros ret name' x' t' W Hn. apply HQ; [|done]. by eapply walked_found. }
  apply fwp_bind. unfold start_of in *. destruct (bool_decide_reflect (head path = Some slash)) as [Hh|Hh].
  - apply (iget_spec pid start size ∅ (ls_view p)); [done|done| |done]. exists A. split; [done|lia].
  - destruct (Hcwd Hh). apply (idup_spec pid start size ∅ (ls_view p)); try done. intros x' G. by apply Hloop.
Qed.

(** C4: [namex], the search for a path.  It terminates and finds the inode that the
    elements of the path lead to in the tree of directories on the disk, from the
    root or the current directory, or the directory of the last element, or that
    there is none.  It changes no block; it leaves the inode table a consistent cache
    with no entry locked, and the caller gets exactly one new reference, to the inode
    found. *)
Theorem namex_spec par cwd path name x t p :
  mounted start size x p -> icache pid ∅ x (ls_view p) -> tree_ok (x_sb x) (ls_view p) -> live (x_sb x) (ls_view p) ROOTINO ->
  (head path <> Some slash -> 0 <= cwd < NINODE /\ 0 < i_ref (ino x cwd)) -> iroom 2 x -> 0 ∉ path ->
  fwp (namex rw pid fuel upt cwd path par name)
    (fun r x' t' p' => p' = p /\ found (ls_view p) (walk_tree (x_sb x) (ls_view p) par (start_of cwd x path) (elems path)) r.1 x x' /\
       (is_Some r.1 -> fname r.2 = fname (List.last (elems path) name)))
    x t p.
Proof using All. intros. by apply namex_run; try done; intros. Qed.
End path.

(** ** Adding an entry *)

Definition hit (c name : list Z) (j : Z) : bool :=
  negb (de_inum (entry c j) =? 0) && bool_decide (fname name = fname (de_name (entry c j))).

Lemma dir_find_hit c name m k j :
  m <= j < m + Z.of_nat k -> (forall i, m <= i < j -> hit c name i = false) -> hit c name j = true ->
  dir_find c name m k = Some (de_inum (entry c j), j * DIRENT_SIZE).
Proof.
  revert m. induction k as [|k IH]; intros m Hj Hno Hyes; [lia|]. cbn [dir_find].
  destruct (decide (m = j)) as [->|Hne]; [unfold hit in Hyes; by rewrite Hyes|].
  specialize (Hno m ltac:(lia)) as Hm. unfold hit in Hm. rewrite Hm. apply IH; [lia| |done]. intros i Hi. apply Hno. lia.
Qed.

Lemma dir_find_none c name m k : dir_find c name m k = None -> forall i, m <= i < m + Z.of_nat k -> hit c name i = false.
Proof.
  revert m. induction k as [|k IH]; intros m H i Hi; [lia|]. cbn [dir_find] in H. destruct (negb _ && _) eqn:E; [done|].
  destruct (decide (i = m)) as [->|]; [exact E|]. apply (IH (m + 1)); [done|lia].
Qed.

Lemma dir_find_ext c c' name m k :
  (forall i, m <= i < m + Z.of_nat k -> hit c' name i = hit c name i /\ (hit c name i = true -> entry c' i = entry c i)) ->
  dir_find c' name m k = dir_find c name m k.
Proof.
  revert m. induction k as [|k IH]; intros m H; [done|]. cbn [dir_find]. destruct (H m ltac:(lia)) as [H1 H2].
  fold (hit c' name m). fold (hit c name m). rewrite H1. destruct (hit c name m); [by rewrite H2|]. apply IH. intros i Hi. apply H. lia.
Qed.

Lemma dir_find_more c name m k : hit c name (m + Z.of_nat k) = false -> dir_find c name m (S k) = dir_find c name m k.
Proof.
  revert m. induction k as [|k IH]; intros m H.
  - rewrite Z.add_0_r in H. unfold hit in H. cbn [dir_find]. by rewrite H.
  - change (dir_find c name m (S (S k))) with
      (if negb (de_inum (entry c m) =? 0) && bool_decide (fname name = fname (de_name (entry c m))) then Some (de_inum (entry c m), m * DIRENT_SIZE)
       else dir_find c name (m + 1) (S k)).
    rewrite IH; [done|]. by replace (m + 1 + Z.of_nat k) with (m + Z.of_nat (S k)) by lia.
Qed.

(** The entries after entry [m] is replaced, or added at the end. *)
Lemma entry_splice c m de j :
  len de = DIRENT_SIZE -> 0 <= m -> m * DIRENT_SIZE <= len c -> 0 <= j ->
  entry (splice c (m * DIRENT_SIZE) de) j = if decide (j = m) then de else entry c j.
Proof.
  change DIRENT_SIZE with 16. unfold len. intros Hd Hm Hc Hj. unfold entry, splice. change DIRENT_SIZE with 16. unfold len.
  assert (Ht : length (take (Z.to_nat (m * 16)) c) = Z.to_nat (m * 16)) by (rewrite length_take; lia).
  case_decide as E; [subst j|].
  - rewrite drop_app_length' by lia. rewrite take_app_length' by lia. done.
  - destruct (Z_lt_le_dec j m).
    + rewrite drop_app_le, take_app_le by (rewrite ?length_drop; lia).
      rewrite skipn_firstn_comm, take_take. f_equal. lia.
    + rewrite drop_app_ge, drop_app_ge, drop_drop by lia. f_equal. f_equal. lia.
Qed.

Lemma entry_end c m : len c <= m * DIRENT_SIZE -> 0 <= m -> entry c m = [].
Proof. unfold len, entry. intros H H0. rewrite drop_ge by lia. apply take_nil. Qed.

(** A free or a new entry: the name is found there, and other names where they were. *)
Lemma dir_insert c name m de inum n :
  len c = n * DIRENT_SIZE -> 0 <= m <= n -> (m < n -> de_inum (entry c m) = 0) -> dir_lookup c name = None ->
  len de = DIRENT_SIZE -> de_inum de = inum -> inum <> 0 -> fname (de_name de) = fname name ->
  let c' := splice c (m * DIRENT_SIZE) de in
  len c' = Z.max n (m + 1) * DIRENT_SIZE /\ dir_lookup c' name = Some (inum, m * DIRENT_SIZE) /\
  forall name', fname name' <> fname name -> dir_lookup c' name' = dir_lookup c name'.
Proof.
  intros Hc Hm Hfree Hnone Hd Hi Hi0 Hname c'.
  assert (Hlen : len c' = Z.max n (m + 1) * DIRENT_SIZE).
  { unfold c', splice, len in *. rewrite !length_app, length_take, length_drop. change DIRENT_SIZE with 16 in *. lia. }
  assert (Hent : forall j, 0 <= j -> entry c' j = if decide (j = m) then de else entry c j).
  { intros j Hj. apply entry_splice; [done|lia| |done]. rewrite Hc. change DIRENT_SIZE with 16. lia. }
  assert (Hm0 : de_inum (entry c m) = 0).
  { destruct (decide (m < n)); [by apply Hfree|]. rewrite entry_end; [done| |lia]. rewrite Hc. change DIRENT_SIZE with 16. lia. }
  assert (Hcount : forall l k, len l = k * DIRENT_SIZE -> 0 <= k -> (length l / Z.to_nat DIRENT_SIZE)%nat = Z.to_nat k).
  { intros l k Hl Hk. unfold len in Hl. change DIRENT_SIZE with 16 in *. change (Z.to_nat 16) with 16%nat.
    replace (length l) with (Z.to_nat k * 16)%nat by lia. apply Nat.div_mul. lia. }
  unfold dir_lookup in *. rewrite (Hcount c n) in Hnone |- * by (done || lia). rewrite (Hcount c' (Z.max n (m + 1))) by (done || lia).
  assert (Hmiss : forall j, 0 <= j < n -> hit c name j = false) by (intros j Hj; apply (dir_find_none c name 0 (Z.to_nat n)); [done|lia]).
  assert (Hhit0 : forall name', hit c name' m = false) by (intros name'; unfold hit; by rewrite Hm0).
  split_and!; [done| |].
  - rewrite (dir_find_hit c' name 0 _ m); [rewrite Hent, decide_True by lia; by rewrite Hi|lia| |].
    + intros i Hi'. unfold hit. rewrite Hent, decide_False by lia. apply Hmiss. lia.
    + unfold hit. rewrite Hent, decide_True by lia. rewrite Hi, (proj2 (Z.eqb_neq _ _)) by done. simpl. by apply bool_decide_eq_true_2.
  - intros name' Hne. transitivity (dir_find c name' 0 (Z.to_nat (Z.max n (m + 1)))).
    + apply dir_find_ext. intros i Hi'. destruct (decide (i = m)) as [->|Him].
      * rewrite Hhit0. split; [|done]. unfold hit. rewrite Hent, decide_True by lia. rewrite Hname, bool_decide_eq_false_2 by done. apply andb_false_r.
      * unfold hit. rewrite Hent, decide_False by lia. done.
    + destruct (decide (m < n)); [by rewrite Z.max_l by lia|]. assert (m = n) as -> by lia.
      replace (Z.to_nat (Z.max n (n + 1))) with (S (Z.to_nat n)) by lia. apply dir_find_more.
      by replace (0 + Z.of_nat (Z.to_nat n)) with n by lia.
Qed.

(** The first unused entry, or the end of the directory. *)
Fixpoint free_from (c : list Z) (m : Z) (k : nat) : Z :=
  match k with
  | O => m
  | S k => if de_inum (entry c m) =? 0 then m else free_from c (m + 1) k
  end.

Definition free_entry (c : list Z) : Z := free_from c 0 (length c / Z.to_nat DIRENT_SIZE).

Lemma free_from_range c k : forall m,
  m <= free_from c m k <= m + Z.of_nat k /\ (free_from c m k < m + Z.of_nat k -> de_inum (entry c (free_from c m k)) = 0).
Proof.
  induction k as [|k IH]; intros m; cbn [free_from]; [lia|].
  destruct (Z.eqb_spec (de_inum (entry c m)) 0) as [Hz|Hz]; [split; [lia|done]|]. destruct (IH (m + 1)) as [H1 H2].
  split; [lia|]. intros H. apply H2. lia.
Qed.

(** The entry that [dirlink] writes. *)
Lemma upto_nul_strncpy n : forall t, upto_nul (strncpy_chars t n) = take n (upto_nul t).
Proof.
  induction n as [|n IH]; intros t; [by destruct t|]. cbn [strncpy_chars].
  destruct t as [|c t]; [reflexivity|]. simpl. destruct (Z.eqb_spec c 0) as [Hc|Hc]; [reflexivity|].
  simpl. rewrite (proj2 (Z.eqb_neq _ _)) by done. by rewrite IH.
Qed.

Lemma length_strncpy n : forall t, length (strncpy_chars t n) = n.
Proof. induction n as [|n IH]; intros t; [done|]. cbn [strncpy_chars]. case_match; simpl; [by rewrite length_replicate|by rewrite IH]. Qed.

Lemma strncpy_bytes n : forall t, Forall byte t -> Forall byte (strncpy_chars t n).
Proof.
  induction n as [|n IH]; intros t Ht; [constructor|]. cbn [strncpy_chars]. case_match.
  - apply Forall_replicate. unfold byte. lia.
  - constructor; [|apply IH; by destruct Ht]. destruct Ht; [unfold byte; simpl; lia|done].
Qed.

Definition new_entry (inum : Z) (name : list Z) : list Z := dirent (inum mod 2 ^ 16) (strncpy_chars name (Z.to_nat DIRSIZ)).

Lemma new_entry_ok inum name : 0 < inum < 2 ^ 16 -> Forall byte name ->
  len (new_entry inum name) = DIRENT_SIZE /\ de_inum (new_entry inum name) = inum /\
  fname (de_name (new_entry inum name)) = fname name /\ Forall byte (new_entry inum name).
Proof.
  intros Hi Hb. unfold new_entry, dirent. rewrite (Z.mod_small inum) by lia. split_and!.
  - unfold len. rewrite length_app, length_strncpy. reflexivity.
  - unfold de_inum. simpl. rewrite (Z.mod_small (inum / 256)) by (Z.to_euclidean_division_equations; lia).
    pose proof (Z.div_mod inum 256). lia.
  - unfold de_name, fname. change (drop 2 ([inum mod 256; inum / 256 mod 256] ++ ?l)) with l. by rewrite upto_nul_strncpy, take_take.
  - apply Forall_app. split; [|by apply strncpy_bytes]. repeat constructor; unfold byte; apply Z.mod_pos_bound; lia.
Qed.

Section link.
Context (rw : Z -> bool -> M bcache unit) `{!DiskDriver rw} (pid : Z) (fuel : nat) (upt : Z) (start size : Z).

Notation fwp := (fwp pid start size).
Notation dcontent x p dp := (content (disk_inode (x_sb x) (ls_view p) (i_inum (ino x dp))) (ls_view p)).

(** [dirlink] looks for the first unused entry, or takes the end of the directory. *)
Lemma dirlink_loop_spec L x p dp (Q : Z -> fsx -> gmap Z Z -> lspec -> Prop) :
  mounted start size x p -> icache pid L x (ls_view p) -> dp ∈ L -> i_size (ino x dp) mod DIRENT_SIZE = 0 ->
  forall n k m t, 0 <= m -> m + Z.of_nat n = i_size (ino x dp) / DIRENT_SIZE -> (n <= k)%nat ->
  (forall t', Q (free_from (dcontent x p dp) m n * DIRENT_SIZE) x t' p) ->
  fwp (dirlink_loop rw pid fuel upt dp (m * DIRENT_SIZE) k) Q x t p.
Proof using All.
  intros Mt I HL Hs. induction n as [|n IH]; intros k m t Hm Hn Hk HQ.
  - assert (m * DIRENT_SIZE = i_size (ino x dp)) as Em by (change DIRENT_SIZE with 16 in *; Z.to_euclidean_division_equations; lia).
    destruct k; cbn [dirlink_loop]; apply fwp_bind, fwp_geti; rewrite Em, Z.ltb_irrefl, <-Em; apply fwp_ret, HQ.
  - destruct k as [|k]; [lia|]. cbn [dirlink_loop]. apply fwp_bind, fwp_geti.
    assert (m * DIRENT_SIZE < i_size (ino x dp)) by (change DIRENT_SIZE with 16 in *; Z.to_euclidean_division_equations; lia).
    rewrite (proj2 (Z.ltb_lt _ _)) by done. apply fwp_bind. apply (read_entry rw pid fuel upt start size L); [done|done|done|done|lia|]. intros t'. cbn [fst snd].
    rewrite Z.eqb_refl. cbn [negb]. replace (m * DIRENT_SIZE + DIRENT_SIZE) with ((m + 1) * DIRENT_SIZE) by lia.
    cbn [free_from] in HQ. destruct (Z.eqb_spec (de_inum (entry (dcontent x p dp) m)) 0) as [Hz|Hz]; [apply fwp_ret, HQ|].
    apply IH; [lia|lia|lia|exact HQ].
Qed.
End link.
