(* ===== verification/FsAtomic.v ===== *)
(** * Transactions of the file system

    Code between [begin_op] and [end_op] takes effect as a whole: after a crash at
    any moment the next boot finds the blocks from before it or from after it. *)

From S2P Require Import Prelude Machine Sleeplock Mem Layout Kalloc Vm VmInv VmCopy Bio BioInv BioSpec BioRefine FsHdr Log LogDisk LogSpec LogCommit LogRun LogOps LogTheorems Printf Fs FsLogic FsBitmap FsFile FsRead FsWrite FsContent.

Section transaction.
Context (rw : Z -> bool -> M bcache unit) `{!DiskDriver rw} (pid : Z) (fuel : nat) (start size : Z).
Context (sb : superblock) (Hst : sb_logstart sb = start) (Hsz : sb_nlog sb = size).
Context (H0 : 0 <= start) (H1 : 0 < size) (H2 : start + size < 2 ^ 31).

Definition transaction {A} (m : M fsst A) : M fsst A :=
  fbegin_op fuel;; r ← m; fend_op rw pid fuel;; mret r.

(** Every boot after a crash between two states of the disk finds one of two
    contents of the blocks. *)
Definition atomic_between (h1 h2 : history) (d1 d2 : Z -> mem) : Prop :=
  forall h, h1 `suffix_of` h -> h `suffix_of` h2 ->
  exists w l, boot rw pid fuel sb (World [] [] []) (log0 (bcache0 h)) = Ret w l tt /\
    ((forall n, home start size n -> disk_read (hist (lg_bc l)) n = d1 n) \/
     (forall n, home start size n -> disk_read (hist (lg_bc l)) n = d2 n)).

(** A transaction of one process has begun. *)
Definition begun (d : Z -> mem) : lspec := Lspec d d [] ∅ 1.

Lemma begin_begun d t l a w s (x : fsx) :
  lsim start size t (lspec0 d) l a -> held w = [] -> rep pid s a ->
  exists w' s' l' a', fbegin_op fuel w (fs_with x (set_bc s l)) = Ret w' (fs_with x (set_bc s' l')) tt /\
    held w' = [] /\ rep pid s' a' /\ lsim start size t (begun d) l' a' /\ a_hist a' = a_hist a.
Proof.
  intros S Hw R. assert (W : wp pid (begin_op fuel) (fun _ l' a' => lsim start size t (begun d) l' a' /\ a' = a) l a).
  { pose proof (blocks_length l) as Hlen. rewrite (lm_blocks _ _ _ _ _ _ S) in Hlen. simpl in Hlen.
    pose proof (lm_n _ _ _ _ _ _ S). pose proof (lm_out _ _ _ _ _ _ S) as Ho. simpl in Ho.
    apply wp_begin_op; [apply S|unfold LOGSIZE, MAXOPBLOCKS; lia|]. split; [|done].
    destruct S as [[] ? ? ? ? ? ? ? ? ? ? ? ? ? ? ?]. split; try done. simpl. lia. }
  destruct (W w s Hw R) as (w' & s' & l' & a' & [] & Hrun & Hw' & R' & S' & ->).
  exists w', s', l', a. split; [|done]. unfold fbegin_op. by erewrite zoom_ret by (simpl; exact Hrun).
Qed.

Lemma end_commits d t p l a w s (x : fsx) :
  lsim start size t p l a -> ls_out p = 1 -> ls_held p = ∅ -> lenL p < NBUF -> held w = [] -> rep pid s a ->
  (forall n, home start size n -> ls_disk p n = d n) ->
  exists w' s' l' a' t', fend_op rw pid fuel w (fs_with x (set_bc s l)) = Ret w' (fs_with x (set_bc s' l')) tt /\
    held w' = [] /\ rep pid s' a' /\ lsim start size t' (lspec0 (ls_view p)) l' a' /\
    atomic_between (a_hist a) (a_hist a') d (ls_view p).
Proof.
  intros S Ho Hh Hl Hw R Hd.
  destruct (step_commit rw pid fuel start size t p l a S Ho Hh Hl w s Hw R)
    as (w' & s' & l' & a' & [t' out] & Hrun & Hw' & R' & _ & S' & G).
  apply run_bind_inv in Hrun as (w1 & d1 & [] & Hrun & E). injection E as <- -> <- _.
  exists w1, s', l', a', t. split_and!; try done; [unfold fend_op; by erewrite zoom_ret by (simpl; exact Hrun)|].
  intros h Hh1 Hh2. pose proof (grows_between _ _ _ _ G Hh1 Hh2) as C.
  destruct (boot_crash rw pid fuel start size sb Hst Hsz H0 H1 H2 _ _ _ C) as (w2 & l2 & Hb & Hv).
  exists w2, l2. split; [done|]. destruct Hv as [Hv|Hv]; [left|by right].
  intros n Hn. rewrite Hv by done. by apply Hd.
Qed.

(** The rule for code in a transaction. *)
Lemma transaction_spec {A} (m : M fsst A) (Q : A -> fsx -> lspec -> Prop) x d t l a w s :
  lsim start size t (lspec0 d) l a -> held w = [] -> rep pid s a ->
  fwp pid start size m (fun v x' t' p' => ls_out p' = 1 /\ ls_held p' = ∅ /\ lenL p' < NBUF /\ Q v x' p') x t (begun d) ->
  exists w' s' l' a' t' x' p' v,
    transaction m w (fs_with x (set_bc s l)) = Ret w' (fs_with x' (set_bc s' l')) v /\ held w' = [] /\ rep pid s' a' /\
    lsim start size t' (lspec0 (ls_view p')) l' a' /\ Q v x' p' /\
    atomic_between (a_hist a) (a_hist a') d (ls_view p').
Proof.
  intros S Hw R Hm. destruct (begin_begun d t l a w s x S Hw R) as (w1 & s1 & l1 & a1 & Hrun1 & Hw1 & R1 & S1 & Eh).
  destruct (Hm l1 a1 w1 s1 S1 Hw1 R1)
    as (w2 & s2 & l2 & a2 & x2 & t2 & p2 & v & Hrun2 & Hw2 & R2 & [S2 Eh2] & Ho & Hh & Hl & HQ).
  assert (Hd : forall n, home start size n -> ls_disk p2 n = d n).
  { intros n Hn. rewrite <-(lm_committed _ _ _ _ _ _ S2 n Hn), Eh2. by apply (lm_committed _ _ _ _ _ _ S1). }
  destruct (end_commits d t2 p2 l2 a2 w2 s2 x2 S2 Ho Hh Hl Hw2 R2 Hd) as (w3 & s3 & l3 & a3 & t3 & Hrun3 & Hw3 & R3 & S3 & At).
  exists w3, s3, l3, a3, t3, x2, p2, v. split_and!; try done; [|by rewrite <-Eh, <-Eh2].
  unfold transaction. run_step Hrun1. run_step Hrun2. by run_step Hrun3.
Qed.
End transaction.
