(* ===== verification/Pipe.v ===== *)
(** * kernel/pipe.c: pipes

    A pipe is a page of memory: after the lock come a ring buffer of [PIPESIZE]
    bytes, the counts of bytes read and written, and a flag for each end. *)

From S2P Require Import Prelude Machine Mem Layout Kalloc Vm.

Definition PIPESIZE : Z := 512.

(** Offsets in [struct pipe]; [sizeof(struct spinlock)] is 24. *)
Definition PI_DATA : Z := 24.
Definition PI_NREAD : Z := PI_DATA + PIPESIZE.
Definition PI_NWRITE : Z := PI_NREAD + 4.
Definition PI_READOPEN : Z := PI_NWRITE + 4.
Definition PI_WRITEOPEN : Z := PI_READOPEN + 4.

(** Memory, and whether the running process has been killed. *)
Record pipest := Pipest { pp_mem : kmem; pp_killed : bool }.

Definition pp_of : lens pipest kmem := Lens _ _ pp_mem (fun k s => Pipest k (pp_killed s)).

Section pipe.
Variable kend : Z.
(** The running process, its page table, and how often it may be woken up without
    being able to continue. *)
Variables (me upt : Z) (fuel : nat).

(** [killed(pr)]. *)
Definition pkilled : M pipest bool :=
  acquire (LkProc me);;
  k ← gets pp_killed;
  release (LkProc me);;
  mret k.

Definition pld (a : Z) : M pipest Z := gets (fun s => ld32 (km_mem (pp_mem s)) a).

Definition pst (a v : Z) : M pipest unit := zoom pp_of (on_mem (fun m => st32 m a v)).

Definition pipeclose (pi : Z) (writable : bool) : M pipest unit :=
  acquire (LkPipe pi);;
  (if writable then pst (pi + PI_WRITEOPEN) 0;; wakeup (ChPipeR pi)
   else pst (pi + PI_READOPEN) 0;; wakeup (ChPipeW pi));;
  r ← pld (pi + PI_READOPEN);
  w ← pld (pi + PI_WRITEOPEN);
  if (r =? 0) && (w =? 0) then
    release (LkPipe pi);;
    zoom pp_of (kfree kend pi)
  else release (LkPipe pi).

(** The loop of [pipewrite]; the result says whether it was left by the error
    return. *)
Fixpoint pipewrite_loop (pi addr n i : Z) (k : nat) : M pipest (Z + Z) :=
  if i <? n then
    match k with
    | O => diverge
    | S k =>
        ro ← pld (pi + PI_READOPEN);
        kl ← (if ro =? 0 then mret true else pkilled);
        if (kl : bool) then mret (inl (-1))
        else
          nw ← pld (pi + PI_NWRITE);
          nr ← pld (pi + PI_NREAD);
          if nw =? u32 (nr + PIPESIZE) then
            wakeup (ChPipeR pi);;
            sleep (ChPipeW pi) (LkPipe pi);;
            pipewrite_loop pi addr n i k
          else
            r ← zoom pp_of (copyin upt (u64 (addr + i)) 1);
            if r.1 =? -1 then mret (inr i)
            else
              pst (pi + PI_NWRITE) (u32 (nw + 1));;
              zoom pp_of (on_mem (fun m => st8 m (pi + PI_DATA + nw mod PIPESIZE) (nth 0 r.2 0)));;
              pipewrite_loop pi addr n (i + 1) k
    end
  else mret (inr i).

Definition pipewrite (pi addr n : Z) : M pipest Z :=
  acquire (LkPipe pi);;
  r ← pipewrite_loop pi addr n 0 (Z.to_nat n + fuel);
  match r with
  | inl e => release (LkPipe pi);; mret e
  | inr i =>
      wakeup (ChPipeR pi);;
      release (LkPipe pi);;
      mret i
  end.

(** [while(pi->nread == pi->nwrite && pi->writeopen)]: false if the process was
    killed. *)
Fixpoint piperead_wait (pi : Z) (k : nat) : M pipest bool :=
  nr ← pld (pi + PI_NREAD);
  nw ← pld (pi + PI_NWRITE);
  wo ← pld (pi + PI_WRITEOPEN);
  if (nr =? nw) && negb (wo =? 0) then
    kl ← pkilled;
    if (kl : bool) then mret false
    else
      match k with
      | O => diverge
      | S k => sleep (ChPipeR pi) (LkPipe pi);; piperead_wait pi k
      end
  else mret true.

Fixpoint piperead_loop (pi addr i : Z) (k : nat) : M pipest Z :=
  match k with
  | O => mret i
  | S k =>
      nr ← pld (pi + PI_NREAD);
      nw ← pld (pi + PI_NWRITE);
      if nr =? nw then mret i
      else
        pst (pi + PI_NREAD) (u32 (nr + 1));;
        ch ← gets (fun s => ld8 (km_mem (pp_mem s)) (pi + PI_DATA + nr mod PIPESIZE));
        r ← zoom pp_of (copyout upt (u64 (addr + i)) [ch]);
        if r =? -1 then mret i
        else piperead_loop pi addr (i + 1) k
  end.

Definition piperead (pi addr n : Z) : M pipest Z :=
  acquire (LkPipe pi);;
  ok ← piperead_wait pi fuel;
  if negb ok then release (LkPipe pi);; mret (-1)
  else
    i ← piperead_loop pi addr 0 (Z.to_nat n);
    wakeup (ChPipeW pi);;
    release (LkPipe pi);;
    mret i.
End pipe.
