(* ===== verification/PipeSpec.v ===== *)
(** * A pipe is a bounded queue of bytes

    [pipewrite] appends the writer's bytes to a queue, [piperead] takes bytes off
    its front, whatever other processes do to the pipe while either sleeps. *)

From S2P Require Import Prelude Machine Mem Layout Kalloc Vm VmInv VmWalk VmMap VmUser VmAlloc VmCopy VmTheorems Pipe.

(** ** The queue in the ring buffer *)

Definition nread (m : mem) (pi : Z) : Z := ld32 m (pi + PI_NREAD).

Definition nwrite (m : mem) (pi : Z) : Z := ld32 m (pi + PI_NWRITE).

Definition count (m : mem) (pi : Z) : Z := u32 (nwrite m pi - nread m pi).

(** The byte that is [k]-th in line. *)
Definition slot (m : mem) (pi k : Z) : Z := ld8 m (pi + PI_DATA + (nread m pi + k) mod PIPESIZE).

Definition queue (m : mem) (pi : Z) : list Z := slot m pi <$> seqZ 0 (count m pi).

Lemma length_queue m pi : Z.of_nat (length (queue m pi)) = count m pi.
Proof. unfold queue. rewrite length_fmap, length_seqZ. unfold count. pose proof (u32_range (nwrite m pi - nread m pi)). lia. Qed.

Lemma count_range m pi : 0 <= count m pi < 2 ^ 32.
Proof. apply u32_range. Qed.

(** One byte in. *)
Definition enqueue (m : mem) (pi b : Z) : mem :=
  st8 (st32 m (pi + PI_NWRITE) (u32 (nwrite m pi + 1))) (pi + PI_DATA + nwrite m pi mod PIPESIZE) b.

Lemma full_iff m pi : mem_ok m -> count m pi <= PIPESIZE ->
  nwrite m pi = u32 (nread m pi + PIPESIZE) <-> count m pi = PIPESIZE.
Proof.
  intros Hm. unfold count, PIPESIZE. pose proof (ld32_range m (pi + PI_NREAD) Hm). pose proof (ld32_range m (pi + PI_NWRITE) Hm).
  unfold nread, nwrite, u32 in *. split; intros; zdm.
Qed.

Lemma empty_iff m pi : mem_ok m -> nread m pi = nwrite m pi <-> count m pi = 0.
Proof.
  intros Hm. unfold count. pose proof (ld32_range m (pi + PI_NREAD) Hm). pose proof (ld32_range m (pi + PI_NWRITE) Hm).
  unfold nread, nwrite, u32 in *. split; intros; zdm.
Qed.

Lemma enqueue_counts m pi b :
  nread (enqueue m pi b) pi = nread m pi /\ nwrite (enqueue m pi b) pi = u32 (nwrite m pi + 1).
Proof.
  unfold enqueue, nread, nwrite. set (nw := ld32 m (pi + PI_NWRITE)).
  pose proof (Z.mod_pos_bound nw PIPESIZE ltac:(done)). unfold PI_NWRITE, PI_NREAD, PI_DATA, PIPESIZE in *.
  rewrite !ld32_st8_out by lia. split; [by rewrite ld32_st32_other by lia|]. apply ld32_st32_same, u32_range.
Qed.

Lemma enqueue_spec m pi b :
  mem_ok m -> count m pi < PIPESIZE -> 0 <= b < 256 ->
  count (enqueue m pi b) pi = count m pi + 1 /\ queue (enqueue m pi b) pi = queue m pi ++ [b].
Proof.
  intros Hm Hc Hb. destruct (enqueue_counts m pi b) as [Hr Hw].
  pose proof (ld32_range m (pi + PI_NREAD) Hm) as H1. pose proof (ld32_range m (pi + PI_NWRITE) Hm) as H2.
  assert (Hcnt : count (enqueue m pi b) pi = count m pi + 1).
  { unfold count in *. rewrite Hr, Hw. unfold nread, nwrite, u32, PIPESIZE in *. zdm. }
  split; [done|]. unfold queue. rewrite Hcnt. pose proof (count_range m pi) as Hcr.
  rewrite seqZ_app, fmap_app by lia. f_equal.
  - apply list_fmap_ext. intros i k Hk. apply list_elem_of_lookup_2, elem_of_seqZ in Hk. unfold slot. rewrite Hr. unfold enqueue.
    rewrite ld8_st8_ne.
    + rewrite ld8_st32_out; [done|]. pose proof (Z.mod_pos_bound (nread m pi + k) PIPESIZE ltac:(done)).
      unfold PI_NWRITE, PI_NREAD, PIPESIZE in *. lia.
    + unfold count in *. unfold nread, nwrite, u32, PIPESIZE in *. zdm.
  - replace (seqZ (0 + count m pi) 1) with [count m pi] by (by rewrite seqZ_cons). simpl. f_equal.
    unfold slot. rewrite Hr. unfold enqueue.
    replace ((nread m pi + count m pi) mod PIPESIZE) with (nwrite m pi mod PIPESIZE).
    + by rewrite ld8_st8_eq, u8_small.
    + unfold count in *. unfold nread, nwrite, u32, PIPESIZE in *. zdm.
Qed.

(** One byte out. *)
Lemma dequeue_spec m pi :
  mem_ok m -> 0 < count m pi ->
  let m' := st32 m (pi + PI_NREAD) (u32 (nread m pi + 1)) in
  count m' pi = count m pi - 1 /\ queue m pi = slot m pi 0 :: queue m' pi.
Proof.
  intros Hm Hc m'. pose proof (ld32_range m (pi + PI_NREAD) Hm) as H1. pose proof (ld32_range m (pi + PI_NWRITE) Hm) as H2.
  assert (Hr : nread m' pi = u32 (nread m pi + 1)) by (apply ld32_st32_same, u32_range).
  assert (Hw : nwrite m' pi = nwrite m pi) by (apply ld32_st32_other; unfold PI_NWRITE; lia).
  assert (Hcnt : count m' pi = count m pi - 1).
  { unfold count in *. rewrite Hr, Hw. unfold nread, nwrite, u32 in *. zdm. }
  split; [done|]. unfold queue. rewrite Hcnt, seqZ_cons by lia. csimpl.
  apply (f_equal2 cons); [done|]. change (Z.succ 0) with (1 + 0). replace (Z.pred (count m pi)) with (count m pi - 1) by lia.
  rewrite <-(fmap_add_seqZ 1 0), <-list_fmap_compose. apply list_fmap_ext. intros i k Hk. unfold compose.
  unfold slot. rewrite Hr. unfold m'. rewrite ld8_st32_out.
  - f_equal. unfold nread, u32, PIPESIZE in *. f_equal. zdm.
  - pose proof (Z.mod_pos_bound (u32 (nread m pi + 1) + k) PIPESIZE ltac:(done)). unfold PI_NREAD, PIPESIZE in *. lia.
Qed.

(** ** Runs that sleep *)

(** [segs G f k0 acc r R]: each stretch of the run [r] between sleeps relates the
    memory at its start to the memory at its end by [G], which says which bytes
    it moved; [acc] are the bytes moved before.  When it sleeps, the others may
    change memory as [rely] allows.  At the end [R] holds.  The run does not
    panic, and does not end before it has been woken up [f] times in vain. *)
Section segs.
Context (G : kmem -> list Z -> kmem -> Prop) (rely : kmem -> kmem -> Prop).

Fixpoint segs {A} (f : nat) (k0 : kmem) (acc : list Z) (r : res pipest A)
    (R : kmem -> list Z -> world -> pipest -> A -> Prop) {struct r} : Prop :=
  match r with
  | Ret w s a => R k0 acc w s a
  | Block _ w s k =>
      exists bs, G k0 bs (pp_mem s) /\
        match f with
        | O => True
        | S f => forall w' s', rely (pp_mem s) (pp_mem s') -> segs f (pp_mem s') (acc ++ bs) (k w' s') R
        end
  | Panic _ => False
  | Diverge => f = O
  end.

Lemma segs_bind {A B} f k0 acc (r : res pipest A) (g : A -> M pipest B) R1 R :
  segs f k0 acc r R1 ->
  (forall f k0 acc w s a, R1 k0 acc w s a -> segs f k0 acc (g a w s) R) ->
  segs f k0 acc (bind_res r g) R.
Proof.
  intros H Hg. revert f k0 acc H. induction r as [w s a|msg|c w s k IH|]; intros f k0 acc H; simpl in *; auto; try done.
  destruct H as (bs & HG & H). exists bs. split; [done|]. destruct f; [done|]. intros w' s' Hr. apply IH. auto.
Qed.
End segs.

Section pipe.
Context (kend : Z) (Hend : KERNBASE <= kend <= PHYSTOP).
(** The process, its page table and the tables of it, and the pipe. *)
Context (me upt : Z) (T : VmInv.ptree) (pi : Z).

(** The pipe is a page of its own in a machine whose allocator and page table
    are well formed, *)
Record papart (l : list Z) (k : kmem) : Prop := {
  pe_vm : vm_inv kend k l upt T;
  pe_up : upages_ok kend (km_mem k) l T;
  pe_page : page_ok kend pi;
  pe_free : pi ∉ l;
  pe_tree : ~ in_tree T pi;
  pe_user va : aligned va -> 0 <= va < MAXVA -> upa (km_mem k) T va <> pi }.

(** and holds at most [PIPESIZE] bytes. *)
Record penv (l : list Z) (k : kmem) : Prop := {
  pe_apart :> papart l k;
  pe_count : count (km_mem k) pi <= PIPESIZE }.

Definition env (k : kmem) : Prop := exists l, penv l k.

(** The process finds the same bytes in its memory. *)
Definition same_user (k k' : kmem) : Prop :=
  forall va, 0 <= va < 2 ^ 64 -> uget (km_mem k') T va = uget (km_mem k) T va.

(** What the others do while the process sleeps. *)
Definition rely (k k' : kmem) : Prop := env k' /\ same_user k k'.

Lemma env_mem_ok k : env k -> mem_ok (km_mem k).
Proof. intros [l H]. apply (pe_vm _ _ H). Qed.

Lemma page_user l k va : papart l k -> 0 <= va < 2 ^ 64 -> upa (km_mem k) T (PGROUNDDOWN va) <> 0 ->
  aligned (PGROUNDDOWN va) /\ 0 <= PGROUNDDOWN va < MAXVA /\ PGROUNDDOWN va <= va < PGROUNDDOWN va + PGSIZE.
Proof.
  intros E Hva Hpa. destruct (pgrounddown_spec va Hva) as [Ha Hr]. pose proof (upa_small _ _ _ Hpa).
  split; [done|]. split; [|lia]. split; [|done]. rewrite pgrounddown_alt by done. unfold PGSIZE. zdm.
Qed.

(** Bytes of user pages lie outside the pipe. *)
Lemma user_apart l k va : papart l k -> 0 <= va < 2 ^ 64 -> upa (km_mem k) T (PGROUNDDOWN va) <> 0 ->
  let b := upa (km_mem k) T (PGROUNDDOWN va) + (va - PGROUNDDOWN va) in b < pi \/ pi + PGSIZE <= b.
Proof.
  intros E Hva Hpa. destruct (page_user l k va E Hva Hpa) as (Ha & Hr & Hin).
  pose proof (up_page _ _ _ _ (pe_up _ _ E) _ Ha Hr Hpa) as [Hpa' _]. pose proof (pe_page _ _ E) as [Hp _].
  pose proof (aligned_apart _ pi Hpa' Hp (pe_user _ _ E _ Ha Hr)). unfold PGSIZE in *. lia.
Qed.

(** A store inside the pipe. *)
Lemma env_store l k m' :
  papart l k -> only_page pi (km_mem k) m' -> mem_ok m' -> count m' pi <= PIPESIZE ->
  penv l (set_mem m' k) /\ same_user k (set_mem m' k).
Proof.
  intros E Ho Hm Hc. pose proof E as [E1 E2 E3 E4 E5 E6].
  assert (Hupa : forall va, upa m' T va = upa (km_mem k) T va).
  { intros va. unfold upa. rewrite (only_page_leaf kend (km_mem k) upt pi T (km_mem k) m' va); [done|apply E1|apply E3|done|done]. }
  split.
  - split; [split; try done|done].
    + by apply fill_vm with pi.
    + destruct E2 as [U1 U2 U3 U4]. split; simpl; intros va; rewrite !Hupa; auto. intros va'. rewrite !Hupa. auto.
    + intros va. simpl. rewrite Hupa. apply E6.
  - intros va Hva. unfold uget. simpl. rewrite Hupa. destruct (_ =? 0) eqn:Epa; [done|]. zbool. f_equal.
    apply Ho. pose proof (user_apart l k va E Hva Epa). simpl in *. lia.
Qed.

Lemma pipe_stores m b v : 24 <= b -> b + 4 <= PGSIZE -> only_page pi m (st32 m (pi + b) v).
Proof. intros H1 H2 a Ha. apply ld8_st32_out. unfold PGSIZE in *. lia. Qed.
(** ** [pipewrite] *)

Lemma copyin_byte w k va : env k -> 0 <= va < 2 ^ 64 ->
  match uget (km_mem k) T va with
  | Some b => copyin upt va 1 w k = Ret w k (0, [b]) /\ 0 <= b < 256
  | None => exists bs, copyin upt va 1 w k = Ret w k (-1, bs)
  end.
Proof.
  intros [l E] Hva. destruct (copyin_loop_spec kend Hend w k upt T va 1 [] 1 (vi_pt _ _ _ _ _ (pe_vm _ _ E)) Hva ltac:(done))
    as (r & bs & Hrun & Hres). unfold copyin. change (Z.to_nat 1) with 1%nat in *. simpl app in Hrun.
  change (ugets (km_mem k) T va 1) with (b ← uget (km_mem k) T va; Some [b]) in Hres.
  destruct (uget (km_mem k) T va) as [b|] eqn:Hb; simpl in Hres.
  - destruct Hres as [-> ->]. split; [done|]. unfold uget in Hb. case_match; [done|]. injection Hb as <-.
    apply (env_mem_ok k). by exists l.
  - subst r. by exists bs.
Qed.

(** The bytes of the writer from [addr] on start with [bs]. *)
Definition user_has (k : kmem) (addr : Z) (bs : list Z) : Prop :=
  forall j : nat, (j < length bs)%nat -> uget (km_mem k) T (u64 (addr + Z.of_nat j)) = bs !! j.

Definition Gw (k0 : kmem) (bs : list Z) (k : kmem) : Prop :=
  queue (km_mem k) pi = queue (km_mem k0) pi ++ bs /\ env k /\ same_user k0 k.

(** How [pipewrite] ends: the bytes it has put in are the writer's first bytes.  It
    returns their number, which is less than [n] only at an address the writer
    cannot read; or -1, when the read end is closed or the writer killed. *)
Definition written (addr n : Z) (k0 : kmem) (acc : list Z) (s : pipest) (r : Z) : Prop :=
  exists bs, Gw k0 bs (pp_mem s) /\ user_has (pp_mem s) addr (acc ++ bs) /\
    (r = -1 /\ (ld32 (km_mem (pp_mem s)) (pi + PI_READOPEN) = 0 \/ pp_killed s = true) \/
     r = Z.of_nat (length (acc ++ bs)) /\
     (r < n -> uget (km_mem (pp_mem s)) T (u64 (addr + r)) = None)).

Definition Rloop (addr n : Z) (k0 : kmem) (acc : list Z) (w : world) (s : pipest) (r : Z + Z) : Prop :=
  held w = [LkPipe pi] /\
  match r with
  | inl e => e = -1 /\ written addr n k0 acc s e
  | inr i => 0 <= i /\ written addr n k0 acc s i
  end.

Lemma pkilled_run w s : held w = [LkPipe pi] -> pkilled me w s = Ret w s (pp_killed s).
Proof.
  intros Hw. unfold pkilled. rewrite run_acquire by (rewrite Hw; set_solver). rewrite run_gets.
  rewrite run_release_acquired by (rewrite Hw; set_solver). done.
Qed.

Lemma Gw_app k0 bs k bs' k' : Gw k0 bs k -> Gw k bs' k' -> Gw k0 (bs ++ bs') k'.
Proof.
  intros (Q1 & _ & U1) (Q2 & E2 & U2). split; [by rewrite Q2, Q1, app_assoc|]. split; [done|].
  intros va Hva. by rewrite U2, U1.
Qed.

Lemma Gw_refl k : env k -> Gw k [] k.
Proof. intros E. split; [by rewrite app_nil_r|]. by split. Qed.

Lemma user_has_same k k' addr bs : same_user k k' -> user_has k addr bs -> user_has k' addr bs.
Proof. intros U H j Hj. rewrite U by apply u64_range. by apply H. Qed.

Lemma user_has_snoc k addr bs b :
  user_has k addr bs -> uget (km_mem k) T (u64 (addr + Z.of_nat (length bs))) = Some b -> user_has k addr (bs ++ [b]).
Proof.
  intros H Hb j. rewrite length_app. simpl. intros Hj. destruct (decide (j < length bs)%nat).
  - rewrite lookup_app_l by done. by apply H.
  - assert (j = length bs) as -> by lia. rewrite lookup_app_r, Nat.sub_diag by lia. done.
Qed.

(** Putting a byte in. *)
Lemma put_byte k b : env k -> count (km_mem k) pi < PIPESIZE -> 0 <= b < 256 ->
  Gw k [b] (set_mem (enqueue (km_mem k) pi b) k).
Proof.
  intros [l E] Hc Hb. pose proof (env_mem_ok k ltac:(by exists l)) as Hm.
  destruct (enqueue_spec (km_mem k) pi b Hm Hc Hb) as [Hcnt Hq].
  destruct (env_store l k (enqueue (km_mem k) pi b)) as [E' U]; [apply E| | |lia|].
  - intros a Ha. unfold enqueue. pose proof (Z.mod_pos_bound (nwrite (km_mem k) pi) PIPESIZE ltac:(done)).
    unfold PI_DATA, PI_NWRITE, PI_NREAD, PI_DATA, PIPESIZE, PGSIZE in *.
    rewrite ld8_st8_ne by lia. rewrite ld8_st32_out by lia. done.
  - unfold enqueue. mem_ok.
  - split; [done|]. split; [by exists l|done].
Qed.
Lemma pld_run a w s : pld a w s = Ret w s (ld32 (km_mem (pp_mem s)) a).
Proof. done. Qed.

(** The two stores that put a byte in. *)
Lemma run_put {B} b (g : M pipest B) w km kl :
  (pst (pi + PI_NWRITE) (u32 (nwrite (km_mem km) pi + 1));;
   zoom pp_of (on_mem (fun m => st8 m (pi + PI_DATA + nwrite (km_mem km) pi mod PIPESIZE) b));; g) w (Pipest km kl)
  = g w (Pipest (set_mem (enqueue (km_mem km) pi b) km) kl).
Proof. done. Qed.

Lemma write_loop addr n k : forall f i w s k0 acc bs,
  held w = [LkPipe pi] -> Gw k0 bs (pp_mem s) -> user_has (pp_mem s) addr (acc ++ bs) ->
  i = Z.of_nat (length (acc ++ bs)) -> k = (Z.to_nat (n - i) + f)%nat ->
  segs Gw rely f k0 acc (pipewrite_loop me upt pi addr n i k w s) (Rloop addr n).
Proof.
  induction k as [|k IH]; intros f i w s k0 acc bs Hw HG Hu Hi Hk; cbn [pipewrite_loop];
    (destruct (i <? n) eqn:Hin; zbool;
     [|split; [done|]; split; [lia|]; exists bs; split; [done|]; split; [done|]; right; split; [done|lia]]); [lia|].
  pose proof HG as (_ & E & _). pose proof E as [l El]. pose proof (env_mem_ok _ E) as Hm.
  erewrite run_bind by apply pld_run.
  destruct (ld32 (km_mem (pp_mem s)) (pi + PI_READOPEN) =? 0) eqn:Hro; zbool.
  { rewrite run_bind_ret. split; [done|]. split; [done|]. exists bs. split; [done|]. split; [done|]. left. auto. }
  erewrite run_bind by (by apply pkilled_run). destruct (pp_killed s) eqn:Hkl.
  { split; [done|]. split; [done|]. exists bs. split; [done|]. split; [done|]. left. auto. }
  erewrite run_bind by apply pld_run. erewrite run_bind by apply pld_run.
  fold (nwrite (km_mem (pp_mem s)) pi) (nread (km_mem (pp_mem s)) pi).
  destruct (nwrite (km_mem (pp_mem s)) pi =? u32 (nread (km_mem (pp_mem s)) pi + PIPESIZE)) eqn:Hfull; zbool.
  - (* the pipe is full *)
    rewrite run_wakeup. unfold sleep at 1. unfold mbind, M_bind. simpl. rewrite Hw. rewrite decide_True by set_solver.
    rewrite decide_True by done. simpl. exists bs. split; [done|]. destruct f as [|f]; [done|].
    intros w' s' [E' U']. apply (IH f i _ s' (pp_mem s') (acc ++ bs) []); auto.
    + by apply Gw_refl.
    + rewrite app_nil_r. by eapply user_has_same.
    + by rewrite app_nil_r.
    + lia.
  - assert (Hc : count (km_mem (pp_mem s)) pi < PIPESIZE).
    { pose proof (pe_count _ _ El). destruct (decide (count (km_mem (pp_mem s)) pi = PIPESIZE)) as [Hc|]; [|lia].
      by apply full_iff in Hc. }
    pose proof (copyin_byte w (pp_mem s) (u64 (addr + i)) E (u64_range _)) as Hcopy.
    destruct (uget (km_mem (pp_mem s)) T (u64 (addr + i))) as [b|] eqn:Hb.
    + destruct Hcopy as [Hcopy Hbr].
      erewrite run_bind by (unfold zoom; simpl; rewrite Hcopy; reflexivity). simpl.
      destruct s as [km kl]. simpl in *. rewrite run_put.
      pose proof (put_byte km b E Hc Hbr) as HG'.
      apply (IH f (i + 1) w _ k0 acc (bs ++ [b])); auto.
      * by eapply Gw_app.
      * rewrite app_assoc. apply user_has_snoc; [eapply user_has_same; [apply HG'|done]|].
        destruct HG' as (_ & _ & U). rewrite U by apply u64_range. by rewrite <-Hi.
      * rewrite app_assoc, length_app. simpl. lia.
      * lia.
    + destruct Hcopy as [bs' Hcopy]. erewrite run_bind by (unfold zoom; simpl; rewrite Hcopy; reflexivity). simpl.
      split; [done|]. split; [lia|]. exists bs. split; [destruct s; done|]. split; [destruct s; done|].
      right. split; [done|]. intros _. destruct s. done.
Qed.
Lemma release_only lk : filter (.≠ lk) [lk] = ([] : list lockid).
Proof. rewrite filter_cons_False by (by intros H; apply H). done. Qed.

(** C13: [pipewrite] appends to the queue, in each stretch between its sleeps, the
    writer's next bytes, and changes nothing the writer can see.  It returns
    how many bytes it has appended, all [n] of them unless an address cannot
    be read, with the readers woken; or -1 if the read end is closed or the
    writer has been killed.  It never overfills the ring, and gives up
    the lock. *)
Theorem pipewrite_spec fuel addr n w s :
  held w = [] -> env (pp_mem s) ->
  segs Gw rely fuel (pp_mem s) [] (pipewrite me upt fuel pi addr n w s)
    (fun k0 acc w' s' r => held w' = [] /\ written addr n k0 acc s' r /\
       (r <> -1 -> head (wakeups w') = Some (ChPipeR pi))).
Proof.
  intros Hw E. unfold pipewrite. rewrite run_acquire by (rewrite Hw; set_solver). rewrite Hw.
  eapply segs_bind.
  - apply (write_loop addr n _ fuel 0 _ s (pp_mem s) [] []); try done.
    + by apply Gw_refl.
    + intros j Hj. simpl in Hj. lia.
    + lia.
  - intros f k0 acc w' s' r [Hw' Hr]. destruct r as [e|i].
    + destruct Hr as [-> Hr]. rewrite run_release by (rewrite Hw'; set_solver). rewrite Hw', release_only.
      split; [done|]. split; [done|]. done.
    + destruct Hr as [Hi Hr]. rewrite run_wakeup, run_release by (simpl; rewrite Hw'; set_solver). simpl. rewrite Hw', release_only.
      split; [done|]. split; [done|]. done.
Qed.
(** ** [piperead] *)

Lemma queue_ext m m' : same_bytes m m' pi PGSIZE -> count m' pi = count m pi /\ queue m' pi = queue m pi.
Proof.
  intros H. assert (H32 : forall b, 0 <= b -> b + 4 <= PGSIZE -> ld32 m' (pi + b) = ld32 m (pi + b)).
  { intros b H1 H2. apply ld_le_ext. intros c Hc. apply H. lia. }
  assert (Hr : nread m' pi = nread m pi) by (apply H32; done). assert (Hw : nwrite m' pi = nwrite m pi) by (apply H32; done).
  assert (Hc : count m' pi = count m pi) by (unfold count; by rewrite Hr, Hw). split; [done|].
  unfold queue. rewrite Hc. apply list_fmap_ext. intros i k _. unfold slot. rewrite Hr. apply H.
  pose proof (Z.mod_pos_bound (nread m pi + k) PIPESIZE ltac:(done)). unfold PI_DATA, PIPESIZE, PGSIZE in *. lia.
Qed.

Lemma uget_big m va : MAXVA <= va < 2 ^ 64 -> uget m T va = None.
Proof.
  intros Hva. apply uget_None. unfold upa. rewrite (proj2 (Z.ltb_ge _ _)); [done|].
  rewrite MAXVA_val in *. rewrite pgrounddown_alt by lia. unfold PGSIZE. zdm.
Qed.

Lemma copyout_byte w k va c : env k -> 0 <= va < 2 ^ 64 -> 0 <= c < 256 ->
  exists k' r, copyout upt va [c] w k = Ret w k' r /\ env k' /\ queue (km_mem k') pi = queue (km_mem k) pi /\
    match uget (km_mem k) T va with
    | None => r = -1 /\ same_user k k'
    | Some _ => r = 0 /\ forall va', 0 <= va' < 2 ^ 64 ->
        uget (km_mem k') T va' = if decide (va' = va) then Some c else uget (km_mem k) T va'
    end.
Proof.
  intros [l E] Hva Hc.
  destruct (copyout_loop_spec kend Hend w k l upt T va [c] 1 (pe_vm _ _ E) (pe_up _ _ E) Hva
              (Forall_cons_2 _ _ _ Hc (Forall_nil_2 _)) ltac:(done)) as (k' & r & j & Hrun & Hvm & Hup & Hcp & Hres).
  exists k', r. split; [exact Hrun|]. destruct Hcp as [U M Gt F].
  assert (Hsame : same_bytes (km_mem k) (km_mem k') pi PGSIZE).
  { intros b Hb. destruct (decide (ld8 (km_mem k') b = ld8 (km_mem k) b)) as [|Hne]; [done|].
    destruct (F b Hne) as (va' & Hr & ->). destruct (M va' Hr) as [Hs Hpa]. rewrite MAXVA_val in Hs.
    pose proof (user_apart l k va' E ltac:(lia) Hpa). simpl in *. lia. }
  destruct (queue_ext _ _ Hsame) as [Hcnt Hq]. split; [|split; [done|]].
  { exists l. destruct E as [[E1 E2 E3 E4 E5 E6] E7]. split; [split; try done|lia]. intros va'. rewrite U. apply E6. }
  destruct (uget (km_mem k) T va) as [b|] eqn:Hb; destruct Hres as [[-> ->]|(-> & Hj & Hn)].
  - split; [done|]. intros va' Hva'. destruct (decide (va' < MAXVA)) as [Hs|Hs].
    + rewrite Gt by lia. simpl. repeat case_decide; try lia; [|done]. subst. by rewrite Z.sub_diag.
    + rewrite !uget_big by lia. rewrite decide_False; [done|]. intros ->. rewrite uget_big in Hb by lia. done.
  - simpl in Hj. assert (j = 0%nat) as -> by lia. rewrite Z.add_0_r in Hn. congruence.
  - destruct (M va) as [_ Hpa]; [simpl; lia|]. apply uget_None in Hb. done.
  - split; [done|]. simpl in Hj. assert (j = 0%nat) as -> by lia. intros va' Hva'. destruct (decide (va' < MAXVA)) as [Hs|Hs].
    + rewrite Gt by lia. simpl. by rewrite decide_False by lia.
    + by rewrite !uget_big by lia.
Qed.

(** The reader finds [bs] from its address [addr] on, and the rest as before. *)
Definition user_got (k : kmem) (addr : Z) (bs : list Z) (k' : kmem) : Prop :=
  forall va, 0 <= va < 2 ^ 64 ->
    uget (km_mem k') T va =
    if decide (u64 (va - addr) < Z.of_nat (length bs)) then bs !! Z.to_nat (u64 (va - addr)) else uget (km_mem k) T va.

(** [bs] are the bytes taken from the pipe and given to the reader; [lost] is the
    byte taken when the reader's memory cannot be written. *)
Definition taken (addr n : Z) (k : kmem) (bs lost : list Z) (k' : kmem) : Prop :=
  queue (km_mem k) pi = bs ++ lost ++ queue (km_mem k') pi /\ env k' /\ user_got k addr bs k' /\
  (lost = [] /\ (Z.of_nat (length bs) = Z.max 0 n \/ queue (km_mem k') pi = []) \/
   length lost = 1%nat /\ Z.of_nat (length bs) < n /\ uget (km_mem k) T (u64 (addr + Z.of_nat (length bs))) = None).

Lemma user_got_cons k k1 k' addr c bs :
  Z.of_nat (length bs) < 2 ^ 64 - 1 ->
  (forall va, 0 <= va < 2 ^ 64 -> uget (km_mem k1) T va = if decide (va = u64 addr) then Some c else uget (km_mem k) T va) ->
  user_got k1 (addr + 1) bs k' -> user_got k addr (c :: bs) k'.
Proof.
  intros Hlen H1 H2 va Hva. rewrite (H2 va Hva), (H1 va Hva). simpl length.
  assert (Hs : u64 (va - addr) = 0 <-> va = u64 addr) by (unfold u64; split; intros; zdm).
  assert (Hp : u64 (va - addr) <> 0 -> u64 (va - (addr + 1)) = u64 (va - addr) - 1) by (unfold u64; intros; zdm).
  assert (Hz : u64 (va - addr) = 0 -> u64 (va - (addr + 1)) = 2 ^ 64 - 1) by (unfold u64; intros; zdm).
  pose proof (u64_range (va - addr)) as Hr.
  destruct (decide (u64 (va - addr) = 0)) as [E|E].
  - rewrite (Hz E), E. rewrite decide_False by lia. rewrite !decide_True by (lia || tauto). done.
  - rewrite (Hp E). rewrite (decide_False (P := va = u64 addr)) by tauto.
    destruct (decide (u64 (va - addr) - 1 < Z.of_nat (length bs))).
    + rewrite decide_True by lia. replace (Z.to_nat (u64 (va - addr))) with (S (Z.to_nat (u64 (va - addr) - 1))) by lia. done.
    + by rewrite decide_False by lia.
Qed.
Lemma env_dequeue k : env k -> 0 < count (km_mem k) pi ->
  let k1 := set_mem (st32 (km_mem k) (pi + PI_NREAD) (u32 (nread (km_mem k) pi + 1))) k in
  env k1 /\ same_user k k1 /\
  queue (km_mem k) pi = ld8 (km_mem k1) (pi + PI_DATA + nread (km_mem k) pi mod PIPESIZE) :: queue (km_mem k1) pi.
Proof.
  intros [l E] Hc k1. pose proof (env_mem_ok k ltac:(by exists l)) as Hm. destruct (dequeue_spec (km_mem k) pi Hm Hc) as [Hcnt Hq].
  destruct (env_store l k (km_mem k1)) as [E' U]; [apply E| | | |].
  - apply pipe_stores; done.
  - simpl. mem_ok.
  - simpl. pose proof (pe_count _ _ E). lia.
  - split; [by exists l|]. split; [done|]. rewrite Hq. f_equal. unfold slot. rewrite Z.add_0_r. simpl.
    symmetry. apply ld8_st32_out. pose proof (Z.mod_pos_bound (nread (km_mem k) pi) PIPESIZE ltac:(done)).
    unfold PI_NREAD, PI_DATA, PIPESIZE in *. lia.
Qed.

Lemma user_got_nil k k' addr : same_user k k' -> user_got k addr [] k'.
Proof. intros U va Hva. rewrite decide_False; [by apply U|]. pose proof (u64_range (va - addr)). simpl. lia. Qed.

Lemma read_loop addr k : Z.of_nat k < 2 ^ 63 -> forall i w s, env (pp_mem s) ->
  exists s' bs lost, piperead_loop upt pi addr i k w s = Ret w s' (i + Z.of_nat (length bs)) /\
    pp_killed s' = pp_killed s /\ (length bs <= k)%nat /\ taken (addr + i) (Z.of_nat k) (pp_mem s) bs lost (pp_mem s').
Proof.
  induction k as [|k IH]; intros Hk i w s E; cbn [piperead_loop].
  { exists s, [], []. rewrite Z.add_0_r. split; [done|]. split; [done|]. split; [done|]. split; [done|]. split; [done|].
    split; [by apply user_got_nil|]. left. split; [done|]. by left. }
  erewrite run_bind by apply pld_run. erewrite run_bind by apply pld_run. pose proof (env_mem_ok _ E) as Hm.
  fold (nwrite (km_mem (pp_mem s)) pi) (nread (km_mem (pp_mem s)) pi).
  destruct (nread (km_mem (pp_mem s)) pi =? nwrite (km_mem (pp_mem s)) pi) eqn:Hempty; zbool.
  { exists s, [], []. rewrite Z.add_0_r. split; [done|]. split; [done|]. split; [simpl; lia|]. split; [done|]. split; [done|].
    split; [by apply user_got_nil|]. left. split; [done|]. right. apply length_zero_iff_nil.
    pose proof (length_queue (km_mem (pp_mem s)) pi). apply empty_iff in Hempty; [lia|done]. }
  assert (Hc : 0 < count (km_mem (pp_mem s)) pi).
  { pose proof (count_range (km_mem (pp_mem s)) pi). destruct (decide (count (km_mem (pp_mem s)) pi = 0)) as [H0|]; [|lia].
    by apply empty_iff in H0. }
  destruct s as [km kl]. simpl in *. destruct (env_dequeue km E Hc) as (E1 & U1 & Hq).
  set (k1 := set_mem (st32 _ _ _) km) in *. set (ch := ld8 (km_mem k1) _) in *.
  change ((pst (pi + PI_NREAD) (u32 (nread (km_mem km) pi + 1));; ?g) w (Pipest km kl)) with (g w (Pipest k1 kl)).
  rewrite run_gets. simpl pp_mem. fold ch.
  destruct (copyout_byte w k1 (u64 (addr + i)) ch E1 (u64_range _) ltac:(apply (env_mem_ok _ E1)))
    as (k2 & r & Hrun & E2 & Hq2 & Hres).
  erewrite run_bind by (unfold zoom; simpl; rewrite Hrun; reflexivity). simpl zoom_res.
  rewrite (U1 (u64 (addr + i)) (u64_range _)) in Hres. destruct (uget (km_mem km) T (u64 (addr + i))) as [b|] eqn:Hb.
  - destruct Hres as [-> Hget]. simpl. destruct (IH ltac:(lia) (i + 1) w (Pipest k2 kl) E2)
      as (s' & bs & lost & Hl & Hkl & Hlen & HQ & E' & Hgot & Hend').
    exists s', (ch :: bs), lost. split; [rewrite Hl; f_equal; simpl; lia|]. split; [done|]. split; [simpl; lia|].
    simpl in HQ. split; [simpl; by rewrite Hq, <-Hq2, HQ|]. split; [done|]. split.
    + apply (user_got_cons km k2 _ (addr + i) ch bs); [lia| |by rewrite <-Z.add_assoc].
      intros va Hva. rewrite Hget by done. case_decide; [done|]. by apply U1.
    + simpl. destruct Hend' as [[-> He]|(He1 & He2 & He3)].
      * left. split; [done|]. destruct He as [He|He]; [left; lia|by right].
      * right. split; [done|]. split; [lia|]. simpl in He3. rewrite Hget in He3 by apply u64_range.
        case_decide as Hd; [done|]. rewrite U1 in He3 by apply u64_range.
        replace (addr + i + Z.of_nat (S (length bs))) with (addr + (i + 1) + Z.of_nat (length bs)) by lia. done.
  - destruct Hres as [-> U2]. simpl. exists (Pipest k2 kl), [], [ch]. rewrite Z.add_0_r. split; [done|]. split; [done|].
    split; [simpl; lia|]. split; [simpl; by rewrite Hq, Hq2|]. split; [done|]. split.
    + apply user_got_nil. intros va Hva. simpl. by rewrite U2, U1.
    + right. split; [done|]. simpl. split; [lia|]. by rewrite Z.add_0_r.
Qed.
Definition Gr (k0 : kmem) (bs : list Z) (k : kmem) : Prop :=
  queue (km_mem k0) pi = bs ++ queue (km_mem k) pi /\ env k.

(** Waiting takes nothing. *)
Lemma read_wait k : forall w s, held w = [LkPipe pi] -> env (pp_mem s) ->
  segs Gr rely k (pp_mem s) [] (piperead_wait me pi k w s)
    (fun k0 acc w' s' ok => held w' = [LkPipe pi] /\ acc = [] /\ pp_mem s' = k0 /\ env k0 /\
       if ok : bool then queue (km_mem k0) pi <> [] \/ ld32 (km_mem k0) (pi + PI_WRITEOPEN) = 0
       else queue (km_mem k0) pi = [] /\ pp_killed s' = true).
Proof.
  induction k as [|k IH]; intros w s Hw E; cbn [piperead_wait];
    do 3 erewrite run_bind by apply pld_run; pose proof (env_mem_ok _ E) as Hm;
    fold (nwrite (km_mem (pp_mem s)) pi) (nread (km_mem (pp_mem s)) pi);
    pose proof (length_queue (km_mem (pp_mem s)) pi) as Hlen;
    pose proof (empty_iff (km_mem (pp_mem s)) pi Hm) as Hem;
    (destruct (nread _ pi =? nwrite _ pi) eqn:Hn; zbool; cbn [negb andb];
     [destruct (ld32 _ (pi + PI_WRITEOPEN) =? 0) eqn:Hwo; zbool; cbn [negb]; [simpl; by split_and!; auto|]
     |simpl; split_and!; auto; left; intros Hq; rewrite Hq in Hlen; simpl in Hlen; apply Hn, Hem; lia]);
    erewrite run_bind by (by apply pkilled_run); destruct (pp_killed s) eqn:Hk; simpl;
    try (split_and!; auto; apply length_zero_iff_nil; apply Hem in Hn; lia).
  - done.
  - unfold sleep at 1. unfold mbind, M_bind. rewrite Hw. rewrite decide_True by set_solver.
    rewrite decide_True by done. simpl. exists []. split; [by split|]. intros w' s' [E' _]. by apply IH.
Qed.

(** C14: [piperead] sleeps while the pipe is empty and its write end open, taking
    nothing.  Then it takes bytes off the front of the queue until it has [n] or
    the queue is empty, gives them to the reader in order from [addr] on, changes
    no other byte the reader can see, and returns their number, with the writers
    woken; 0 means that the pipe is empty and closed for writing, or that [n] is
    not positive.  If the reader has been killed the result is -1.  If an address
    cannot be written it stops there, and the byte it has taken is lost. *)
Theorem piperead_spec fuel addr n w s :
  held w = [] -> env (pp_mem s) -> n < 2 ^ 31 ->
  segs Gr rely fuel (pp_mem s) [] (piperead me upt fuel pi addr n w s)
    (fun k0 acc w' s' r => held w' = [] /\ acc = [] /\
       (r = -1 /\ pp_mem s' = k0 /\ queue (km_mem k0) pi = [] /\ pp_killed s' = true \/
        exists bs lost, r = Z.of_nat (length bs) /\ taken addr n k0 bs lost (pp_mem s') /\
          head (wakeups w') = Some (ChPipeW pi) /\
          (bs = [] -> n <= 0 \/ lost <> [] \/ ld32 (km_mem k0) (pi + PI_WRITEOPEN) = 0))).
Proof.
  intros Hw E Hn. unfold piperead. rewrite run_acquire by (rewrite Hw; set_solver). rewrite Hw.
  eapply segs_bind; [by apply read_wait|].
  intros f k0 acc w' s' ok (Hw' & -> & Hs' & E' & Hok). destruct ok; cbn [negb].
  - rewrite <-Hs' in *. destruct (read_loop addr (Z.to_nat n) ltac:(lia) 0 w' s' E') as (s2 & bs & lost & Hrun & Hkl & Hlen & HT).
    erewrite run_bind by exact Hrun. rewrite run_wakeup, run_release by (simpl; rewrite Hw'; set_solver).
    simpl. rewrite Hw', release_only. split; [done|]. split; [done|]. right. exists bs, lost. split; [done|].
    rewrite Z.add_0_r in HT. destruct HT as (HQ & E2 & Hgot & Hend').
    split; [split; [done|]; split; [done|]; split; [done|]; naive_solver lia|]. split; [done|]. intros ->.
    destruct Hend' as [[-> [He|He]]|(He & _)]; [left; simpl in He; lia| |right; left; by intros ->].
    right. right. simpl in HQ. rewrite He in HQ. by destruct Hok.
  - rewrite run_release by (rewrite Hw'; set_solver). rewrite Hw', release_only. split; [done|]. split; [done|]. left.
    destruct Hok. split_and!; auto.
Qed.
End pipe.

(** ** A process with one page, and a pipe with two bytes in it *)

#[local] Opaque boot16 as0 as1 as2.

Definition two_bytes (m : mem) (p : Z) : mem :=
  enqueue (enqueue (st32 (st32 m (p + PI_NREAD) 0) (p + PI_NWRITE) 0) p 104) p 105.

Lemma only_page_trans p m m1 m2 : only_page p m m1 -> only_page p m1 m2 -> only_page p m m2.
Proof. intros H1 H2 b Hb. by rewrite H2, H1. Qed.

Lemma enqueue_only p m b : only_page p m (enqueue m p b).
Proof.
  intros a Ha. unfold enqueue. pose proof (Z.mod_pos_bound (nwrite m p) PIPESIZE ltac:(done)).
  unfold PI_NWRITE, PI_NREAD, PI_DATA, PIPESIZE, PGSIZE in *. rewrite ld8_st8_ne by lia. rewrite ld8_st32_out by lia. done.
Qed.

Lemma two_bytes_queue m p : mem_ok m -> count (two_bytes m p) p = 2 /\ queue (two_bytes m p) p = [104; 105].
Proof.
  intros Hm. unfold two_bytes. set (m0 := st32 (st32 m _ 0) _ 0).
  assert (H0 : mem_ok m0) by (unfold m0; mem_ok). assert (Hc : count m0 p = 0).
  { unfold count. replace (nread m0 p) with 0; [replace (nwrite m0 p) with 0|]; [done| |]; symmetry; unfold nread, nwrite, m0.
    - by rewrite ld32_st32_same.
    - rewrite ld32_st32_other by (unfold PI_NWRITE; lia). by rewrite ld32_st32_same. }
  assert (Hq : queue m0 p = []) by (apply length_zero_iff_nil; pose proof (length_queue m0 p); lia).
  destruct (enqueue_spec m0 p 104 H0) as [Hc1 Hq1]; [rewrite Hc; done|done|].
  destruct (enqueue_spec (enqueue m0 p 104) p 105) as [Hc2 Hq2]; [unfold enqueue; mem_ok|rewrite Hc1, Hc; done|done|].
  rewrite Hc2, Hc1, Hc, Hq2, Hq1, Hq. done.
Qed.

Lemma two_bytes_env : exists T p, let k := set_mem (two_bytes (km_mem as2) p) as2 in
  env kend16 root16 T p k /\ queue (km_mem k) p = [104; 105] /\ is_Some (uget (km_mem k) T 0).
Proof.
  destruct as2_inv as (l & T & p & H1 & H2 & Hp & Hne). exists T, p. intros k.
  assert (Hin : in_tree ({[ [] := p ]} : ptree) p) by (exists []; apply lookup_singleton_eq).
  assert (Hok : page_ok kend16 p) by (destruct Hin as [q Hq]; eapply pt_pages; [apply H2|exact Hq]).
  pose proof (one_page_upages _ _ _ H1) as Hup. pose proof (one_page_upa _ _ _ H1) as Hupa.
  assert (Ha : papart kend16 root16 T p l as2).
  { split; [apply H1|exact Hup|exact Hok|exact (vi_disj _ _ _ _ _ H2 p Hin)|exact Hp|].
    intros va Hva Hr Heq. apply Hne. destruct H1 as (Hu & Hab & _). apply (page_ok_range kend16 kend16_ok) in Hok.
    unfold upa in Heq. destruct (decide (va < PGSIZE)) as [Hlt|Hge].
    - assert (va = 0) as -> by (unfold aligned, PGSIZE in *; zdm).
      unfold leaf_pa. destruct ((0 <? MAXVA) && _ && _); [done|lia].
    - rewrite Hab, andb_false_r in Heq by (done || lia). simpl in Heq. lia. }
  assert (Hm : mem_ok (km_mem as2)) by apply Ha. destruct (two_bytes_queue (km_mem as2) p Hm) as [Hc Hq].
  destruct (env_store kend16 root16 T p l as2 (two_bytes (km_mem as2) p) Ha) as [E U].
  - unfold two_bytes. do 2 (eapply only_page_trans; [|apply enqueue_only]).
    eapply only_page_trans; apply pipe_stores; done.
  - unfold two_bytes, enqueue. mem_ok.
  - rewrite Hc. done.
  - split; [exists l; exact E|]. split; [exact Hq|]. assert (H0 : 0 <= 0 < 2 ^ 64) by lia. specialize (U 0 H0).
    assert (Hs : is_Some (uget (km_mem as2) T 0)).
    { unfold uget. change (PGROUNDDOWN 0) with 0. destruct (Z.eqb_spec (upa (km_mem as2) T 0) 0); [contradiction|]. by eexists. }
    rewrite <-U in Hs. exact Hs.
Qed.

Lemma pipewrite_spec_witness :
  exists T p k, queue (km_mem k) p = [104; 105] /\
    segs (Gw kend16 root16 T p) (rely kend16 root16 T p) 3 k [] (pipewrite 0 root16 3 p 0 1 (World [] [] []) (Pipest k false))
      (fun k0 acc w' s' r => held w' = [] /\ written kend16 root16 T p 0 1 k0 acc s' r /\
         (r <> -1 -> head (wakeups w') = Some (ChPipeR p))).
Proof.
  destruct two_bytes_env as (T & p & E & Hq & _). eexists T, p, _. split; [exact Hq|].
  exact (pipewrite_spec kend16 kend16_ok 0 root16 T p 3 0 1 (World [] [] []) (Pipest _ false) eq_refl E).
Defined.

Lemma piperead_spec_witness :
  exists T p k, queue (km_mem k) p = [104; 105] /\
    segs (Gr kend16 root16 T p) (rely kend16 root16 T p) 3 k [] (piperead 0 root16 3 p 0 1 (World [] [] []) (Pipest k false))
      (fun k0 acc w' s' r => held w' = [] /\ acc = [] /\
         (r = -1 /\ pp_mem s' = k0 /\ queue (km_mem k0) p = [] /\ pp_killed s' = true \/
          exists bs lost, r = Z.of_nat (length bs) /\ taken kend16 root16 T p 0 1 k0 bs lost (pp_mem s') /\
            head (wakeups w') = Some (ChPipeW p) /\
            (bs = [] -> 1 <= 0 \/ lost <> [] \/ ld32 (km_mem k0) (p + PI_WRITEOPEN) = 0))).
Proof.
  destruct two_bytes_env as (T & p & E & Hq & _). eexists T, p, _. split; [exact Hq|].
  exact (piperead_spec kend16 kend16_ok 0 root16 T p 3 0 1 (World [] [] []) (Pipest _ false) eq_refl E ltac:(lia)).
Defined.
