(* ===== verification/File.v ===== *)
(** * kernel/file.c: open files

    The file table is a map from table index to [struct file]; a file pointer is
    an index.  The state adds the table to that of the file system. *)

From S2P Require Import Prelude Machine Sleeplock Mem Layout Kalloc Vm Bio FsHdr Log Printf Uart Console Fs Pipe.

Inductive ftype := FD_NONE | FD_PIPE | FD_INODE | FD_DEVICE.

#[export] Instance ftype_eq_dec : EqDecision ftype.
Proof. solve_decision. Defined.

(** [struct file]. *)
Record file := File {
  fi_type : ftype; fi_ref : Z; fi_readable : bool; fi_writable : bool;
  fi_pipe : Z; fi_ip : option Z; fi_off : Z; fi_major : Z }.

Definition file0 : file := File FD_NONE 0 false false 0 None 0 0.

Definition fset_ref r f := File (fi_type f) r (fi_readable f) (fi_writable f) (fi_pipe f) (fi_ip f) (fi_off f) (fi_major f).
Definition fset_type t f := File t (fi_ref f) (fi_readable f) (fi_writable f) (fi_pipe f) (fi_ip f) (fi_off f) (fi_major f).
Definition fset_mode r w f := File (fi_type f) (fi_ref f) r w (fi_pipe f) (fi_ip f) (fi_off f) (fi_major f).
Definition fset_pipe p f := File (fi_type f) (fi_ref f) (fi_readable f) (fi_writable f) p (fi_ip f) (fi_off f) (fi_major f).
Definition fset_ip i f := File (fi_type f) (fi_ref f) (fi_readable f) (fi_writable f) (fi_pipe f) i (fi_off f) (fi_major f).
Definition fset_off o f := File (fi_type f) (fi_ref f) (fi_readable f) (fi_writable f) (fi_pipe f) (fi_ip f) o (fi_major f).
Definition fset_major m f := File (fi_type f) (fi_ref f) (fi_readable f) (fi_writable f) (fi_pipe f) (fi_ip f) (fi_off f) m.

(** The file system, [ftable], the console, and whether the running process has
    been killed. *)
Record filest := Filest { fl_fs : fsst; fl_table : gmap Z file; fl_dev : condev; fl_killed : bool }.

Definition fs_of : lens filest fsst := Lens _ _ fl_fs (fun x s => Filest x (fl_table s) (fl_dev s) (fl_killed s)).

Definition pipe_of : lens filest pipest :=
  Lens _ _ (fun s => Pipest (f_mem (fl_fs s)) (fl_killed s))
    (fun p s => Filest (set_fmem (pp_mem p) (fl_fs s)) (fl_table s) (fl_dev s) (fl_killed s)).

Definition kmem_of : lens filest kmem :=
  Lens _ _ (fun s => f_mem (fl_fs s)) (fun k s => Filest (set_fmem k (fl_fs s)) (fl_table s) (fl_dev s) (fl_killed s)).

Definition cons_st : lens filest consst :=
  Lens _ _ (fun s => Consst (f_mem (fl_fs s)) (fl_killed s) (fl_dev s))
    (fun c s => Filest (set_fmem (cs_mem c) (fl_fs s)) (fl_table s) (cs_dev c) (fl_killed s)).

Definition file_at (s : filest) (f : Z) : file := default file0 (fl_table s !! f).

Definition getf {A} (g : file -> A) (f : Z) : M filest A := gets (fun s => g (file_at s f)).

Definition setf (f : Z) (g : file -> file) : M filest unit :=
  modify (fun s => Filest (fl_fs s) (alter g f (fl_table s)) (fl_dev s) (fl_killed s)).

(** The bytes of [struct stat]; the four bytes of padding before [size], which
    the code leaves uninitialised, are taken to be 0. *)
Definition stat_bytes (st : stat) : list Z :=
  bytes_at (st_le 8 (st16 (st16 (st32 (st32 ∅ 0 (st_dev st)) 4 (st_ino st)) 8 (st_type st)) 10 (st_nlink st))
              16 (st_size st)) 0 24.

(** Following a null inode pointer is a page fault: [panic "kerneltrap"]. *)
Section file.
Variable virtio_disk_rw : Z -> bool -> M bcache unit.
Variable kend : Z.
(** The running process: its slot in the process table, pid, page table and
    current directory. *)
Variables (me pid : Z) (fuel : nat) (upt cwd : Z).
(** The line status of the UART. *)
Variable lsr : nat -> Z.

(** [devsw] as [consoleinit] leaves it, the functions applied to 1: user
    addresses. *)
Definition devread (major : Z) : option (Z -> Z -> M filest Z) :=
  if major =? CONSOLE then Some (fun addr n => zoom cons_st (consoleread fuel me upt true addr n)) else None.

Definition devwrite (major : Z) : option (Z -> Z -> M filest Z) :=
  if major =? CONSOLE then Some (fun addr n => zoom cons_st (consolewrite lsr fuel upt true addr n)) else None.

Fixpoint filealloc_loop (f : Z) (k : nat) : M filest (option Z) :=
  match k with
  | O => release LkFtable;; mret None
  | S k =>
      ref ← getf fi_ref f;
      if ref =? 0 then
        setf f (fset_ref 1);;
        release LkFtable;;
        mret (Some f)
      else filealloc_loop (f + 1) k
  end.

Definition filealloc : M filest (option Z) :=
  acquire LkFtable;;
  filealloc_loop 0 (Z.to_nat NFILE).

Definition filedup (f : Z) : M filest Z :=
  acquire LkFtable;;
  ref ← getf fi_ref f;
  if ref <? 1 then panic "filedup"
  else
    setf f (fun x => fset_ref (fi_ref x + 1) x);;
    release LkFtable;;
    mret f.

Definition fileclose (f : Z) : M filest unit :=
  acquire LkFtable;;
  ref ← getf fi_ref f;
  if ref <? 1 then panic "fileclose"
  else
    setf f (fun x => fset_ref (fi_ref x - 1) x);;
    ref ← getf fi_ref f;
    if 0 <? ref then release LkFtable
    else
      ff ← getf (fun x => x) f;
      setf f (fset_ref 0);;
      setf f (fset_type FD_NONE);;
      release LkFtable;;
      match fi_type ff with
      | FD_PIPE => zoom pipe_of (pipeclose kend (fi_pipe ff) (fi_writable ff))
      | FD_INODE | FD_DEVICE =>
          zoom fs_of (fbegin_op fuel);;
          (match fi_ip ff with
           | Some ip => zoom fs_of (iput virtio_disk_rw pid fuel ip)
           | None => panic "kerneltrap"
           end);;
          zoom fs_of (fend_op virtio_disk_rw pid fuel)
      | FD_NONE => mret tt
      end.

Definition filestat (f addr : Z) : M filest Z :=
  x ← getf (fun x => x) f;
  match fi_type x with
  | FD_INODE | FD_DEVICE =>
      zoom fs_of (ilock virtio_disk_rw pid fuel (fi_ip x));;
      st ← (match fi_ip x with Some ip => zoom fs_of (stati ip) | None => panic "kerneltrap" end);
      zoom fs_of (iunlock pid (fi_ip x));;
      r ← zoom kmem_of (copyout upt addr (stat_bytes st));
      if r <? 0 then mret (-1) else mret 0
  | _ => mret (-1)
  end.

Definition fileread (f addr n : Z) : M filest Z :=
  x ← getf (fun x => x) f;
  if negb (fi_readable x) then mret (-1)
  else
    match fi_type x with
    | FD_PIPE => zoom pipe_of (piperead me upt fuel (fi_pipe x) addr n)
    | FD_DEVICE =>
        if (fi_major x <? 0) || (NDEV <=? fi_major x) then mret (-1)
        else match devread (fi_major x) with None => mret (-1) | Some rd => rd addr n end
    | FD_INODE =>
        zoom fs_of (ilock virtio_disk_rw pid fuel (fi_ip x));;
        r ← (match fi_ip x with
             | Some ip => zoom fs_of (readi virtio_disk_rw pid fuel upt ip (ToUser addr) (fi_off x) (u32 n))
             | None => panic "kerneltrap"
             end);
        when (0 <? r.1) (setf f (fun x => fset_off (u32 (fi_off x + r.1)) x));;
        zoom fs_of (iunlock pid (fi_ip x));;
        mret r.1
    | FD_NONE => panic "fileread"
    end.

(** [((MAXOPBLOCKS-1-1-2) / 2) * BSIZE] *)
Definition write_max : Z := (MAXOPBLOCKS - 1 - 1 - 2) / 2 * BSIZE.

(** The loop of [filewrite] on an inode: the final [i]. *)
Fixpoint filewrite_loop (f addr n i : Z) (k : nat) : M filest Z :=
  if i <? n then
    match k with
    | O => diverge
    | S k =>
        let n1 := if write_max <? n - i then write_max else n - i in
        zoom fs_of (fbegin_op fuel);;
        ip ← getf fi_ip f;
        zoom fs_of (ilock virtio_disk_rw pid fuel ip);;
        off ← getf fi_off f;
        r ← (match ip with
             | Some ip => zoom fs_of (writei virtio_disk_rw pid fuel upt ip (FromUser (addr + i)) off (u32 n1))
             | None => panic "kerneltrap"
             end);
        when (0 <? r) (setf f (fun x => fset_off (u32 (fi_off x + r)) x));;
        zoom fs_of (iunlock pid ip);;
        zoom fs_of (fend_op virtio_disk_rw pid fuel);;
        if negb (r =? n1) then mret i else filewrite_loop f addr n (i + r) k
    end
  else mret i.

Definition filewrite (f addr n : Z) : M filest Z :=
  x ← getf (fun x => x) f;
  if negb (fi_writable x) then mret (-1)
  else
    match fi_type x with
    | FD_PIPE => zoom pipe_of (pipewrite me upt fuel (fi_pipe x) addr n)
    | FD_DEVICE =>
        if (fi_major x <? 0) || (NDEV <=? fi_major x) then mret (-1)
        else match devwrite (fi_major x) with None => mret (-1) | Some wr => wr addr n end
    | FD_INODE =>
        i ← filewrite_loop f addr n 0 (Z.to_nat n);
        mret (if i =? n then n else -1)
    | FD_NONE => panic "filewrite"
    end.

(** [pipealloc] of kernel/pipe.c.  The lock of the new pipe is free. *)
Definition pipe_end (f : Z) (rd wr : bool) (pi : Z) : M filest unit :=
  setf f (fset_type FD_PIPE);;
  setf f (fset_mode rd wr);;
  setf f (fset_pipe pi).

Definition close_opt (f : option Z) : M filest unit :=
  match f with Some f => fileclose f | None => mret tt end.

Definition pipealloc : M filest (option (Z * Z)) :=
  f0 ← filealloc;
  match f0 with
  | None => mret None
  | Some a =>
      f1 ← filealloc;
      match f1 with
      | None => close_opt f0;; mret None
      | Some b =>
          pi ← zoom kmem_of kalloc;
          if pi =? 0 then close_opt f0;; close_opt f1;; mret None
          else
            zoom pipe_of (pst (pi + PI_READOPEN) 1);;
            zoom pipe_of (pst (pi + PI_WRITEOPEN) 1);;
            zoom pipe_of (pst (pi + PI_NWRITE) 0);;
            zoom pipe_of (pst (pi + PI_NREAD) 0);;
            pipe_end a true false pi;;
            pipe_end b false true pi;;
            mret (Some (a, b))
      end
  end.
End file.
