(* ===== verification/FsTheorems.v ===== *)
(** * Properties of the file system

    What the code of kernel/fs.c that file.c, exec.c and sysfile.c call promises
    about files. *)

From S2P Require Import Prelude Machine Sleeplock Mem Layout Kalloc Vm VmInv VmCopy Bio BioInv BioSpec BioRefine FsHdr Log LogDisk LogSpec LogCommit LogRun LogOps LogTheorems Printf Fs FsLogic FsBitmap FsFile FsRead FsWrite FsContent FsInode FsDir FsAtomic File VmUser VmTheorems.

(** Where [writei] may take the bytes [bs] from: a kernel object, or mapped user
    memory. *)
Inductive source (kend upt : Z) (k : kmem) : iosrc -> list Z -> Prop :=
  | SrcLocal bs : source kend upt k (FromLocal bs) bs
  | SrcUser a l T bs :
      vm_inv kend k l upt T -> 0 <= a -> a + len bs <= 2 ^ 64 ->
      ugets (km_mem k) T a (length bs) = Some bs -> source kend upt k (FromUser a) bs.

Lemma source_supplies kend pid upt start size k src bs : KERNBASE <= kend <= PHYSTOP ->
  source kend upt k src bs -> supplies pid upt start size src bs k.
Proof. intros Hend []; [apply supplies_local|by eapply supplies_user]. Qed.

Lemma span_write_max off n : 0 <= off -> n <= write_max -> span off n <= 4.
Proof.
  intros Hoff Hn. unfold write_max, MAXOPBLOCKS in Hn. change ((10 - 1 - 1 - 2) / 2) with 3 in Hn.
  unfold span. destruct (Z.leb_spec n 0); [lia|].
  pose proof (Z.div_le_mono (off + n - 1) (off + 3 * BSIZE) BSIZE BSIZE_pos ltac:(lia)) as Hd.
  rewrite Z.div_add in Hd by done. lia.
Qed.

(** What a write can do to a file system whose blocks are [d]. *)
Definition write_outcome (start size ip off : Z) (bs : list Z) (x : fsx) (d : Z -> mem) (r : Z) (x' : fsx) (p' : lspec) : Prop :=
  if write_refused (ino x ip) off (len bs) then r = -1 /\ x' = x /\ ls_view p' = d
  else writei_post start size ip off bs x (begun d) r x' p'.

(** What adding the name [name] for inode [inum] to the directory [dp] can do. *)
Definition link_outcome (start size pid : Z) (L : gset Z) (dp : Z) (name : list Z) (inum : Z) (x : fsx) (d : Z -> mem) (r : Z) (x' : fsx) (p' : lspec) : Prop :=
  let c := content (disk_inode (x_sb x) d (i_inum (ino x dp))) d in
  match dir_lookup c name with
  | Some _ => r = -1 /\ ls_view p' = d /\ icache pid L x' d /\ forall k, rc x' k = rc x k
  | None =>
      let m := free_entry c in
      exists n, write_outcome start size dp (m * DIRENT_SIZE) (new_entry inum name) x d n x' p' /\
      if n =? DIRENT_SIZE then
        let c' := content (ino x' dp) (ls_view p') in
        r = 0 /\ len c' mod DIRENT_SIZE = 0 /\ dir_lookup c' name = Some (inum, m * DIRENT_SIZE) /\
        forall name', fname name' <> fname name -> dir_lookup c' name' = dir_lookup c name'
      else r = -1 /\ m * DIRENT_SIZE = i_size (ino x dp) /\
        (i_size (ino x dp) = MAXFILE * BSIZE /\ ls_view p' = d \/ all_used (x_sb x) (ls_view p'))
  end.

Section theorems.
Context (rw : Z -> bool -> M bcache unit) `{!DiskDriver rw} (pid : Z) (fuel : nat) (upt kend : Z) (Hend : KERNBASE <= kend <= PHYSTOP).
Context (sb : superblock).

Notation start := (sb_logstart sb).
Notation size := (sb_nlog sb).

Lemma layout_small : layout start size sb -> start + size < 2 ^ 31.
Proof. intros L. pose proof (inodes_before L). destruct L as [_ ? _ [? ?] _]. unfold BPB, BSIZE in *. lia. Qed.

Lemma writei_in_transaction ip x d t off src bs :
  x_sb x = sb -> fstate start size ip x (lspec0 d) -> 0 <= i_inum (ino x ip) < sb_ninodes sb ->
  source kend upt (x_mem x) src bs -> Forall byte bs -> 0 <= off < 2 ^ 32 -> len bs <= write_max -> MAXOPBLOCKS < size ->
  fwp pid start size (writei rw pid fuel upt ip src off (len bs))
    (fun r x' t' p' => ls_out p' = 1 /\ ls_held p' = ∅ /\ lenL p' <= MAXOPBLOCKS /\ write_outcome start size ip off bs x d r x' p')
    x t (begun d).
Proof.
  intros Hx S Hi Hsrc Hb Hoff Hn Hsz. pose proof (span_write_max off (len bs) ltac:(lia) Hn) as Hspan.
  assert (Hlen : len bs < 2 ^ 32) by (unfold write_max, MAXOPBLOCKS, BSIZE in Hn; change ((10 - 1 - 1 - 2) / 2) with 3 in Hn; lia).
  assert (S' : fstate start size ip x (begun d)) by (by destruct S). unfold MAXOPBLOCKS in *.
  apply writei_spec_gen; try done; [by rewrite Hx|by eapply source_supplies| |].
  { split_and!; simpl; [lia|..]; unfold lenL, NBUF, MAXOPBLOCKS; simpl; lia. }
  unfold write_outcome. destruct (write_refused _ _ _).
  - intros t'. split_and!; done.
  - intros r x' t' p' P. destruct (wp_log _ _ _ _ _ _ _ _ _ _ P) as [Hl Ho].
    split_and!; [done|apply P| |done]. unfold lenL in *. simpl in Hl. lia.
Qed.

(** C2: A file write is atomic.  [begin_op; writei; end_op] of at most the bytes that
    [filewrite] gives it terminates without panic; it refuses a write beyond the end
    of the file or larger than a file can be, and otherwise replaces the bytes of the
    file at the offset by those of the user (all of them, or fewer when the disk is
    full and the write goes past the end of the file), updates the inode on disk, keeps the file well formed, and leaves every
    other block in use as it was; and after a crash at any moment, the next boot
    finds all blocks as before the write, or all as after it. *)
Theorem write_atomic ip x d t l a w s off src bs :
  x_sb x = sb -> lsim start size t (lspec0 d) l a -> held w = [] -> rep pid s a ->
  fstate start size ip x (lspec0 d) -> 0 <= i_inum (ino x ip) < sb_ninodes sb ->
  source kend upt (x_mem x) src bs -> Forall byte bs -> 0 <= off < 2 ^ 32 -> len bs <= write_max -> MAXOPBLOCKS < size ->
  exists w' s' l' a' t' x' p' r,
    transaction rw pid fuel (writei rw pid fuel upt ip src off (len bs)) w (fs_with x (set_bc s l)) =
      Ret w' (fs_with x' (set_bc s' l')) r /\ held w' = [] /\ rep pid s' a' /\
    lsim start size t' (lspec0 (ls_view p')) l' a' /\ lenL p' <= MAXOPBLOCKS /\
    write_outcome start size ip off bs x d r x' p' /\
    atomic_between rw pid fuel start size sb (a_hist a) (a_hist a') d (ls_view p').
Proof.
  intros Hx Sim Hw R S Hi Hsrc Hb Hoff Hn Hsz. pose proof (st_layout _ _ _ _ _ S) as L. rewrite Hx in L.
  destruct (ly_start _ _ _ L) as [Hs1 Hs2].
  destruct (transaction_spec rw pid fuel start size sb eq_refl eq_refl ltac:(lia) ltac:(lia) (layout_small L)
    (writei rw pid fuel upt ip src off (len bs))
    (fun r x' p' => lenL p' <= MAXOPBLOCKS /\ write_outcome start size ip off bs x d r x' p') x d t l a w s Sim Hw R)
    as (w' & s' & l' & a' & t' & x' & p' & r & Hrun & Hw' & R' & Sim' & [Hl HQ] & At).
  { eapply fwp_mono; [by apply writei_in_transaction|]. intros r x' t' p' (? & ? & Hl & ?). split_and!; try done.
    unfold NBUF, MAXOPBLOCKS in *. lia. }
  exists w', s', l', a', t', x', p', r. by split_and!.
Qed.

(** ** Directories *)

(** The free entry that the search has found. *)
Lemma link_written dp name inum m x d n x' p' :
  fstate start size dp x (begun d) -> 0 < inum < 2 ^ 16 -> Forall byte name -> i_size (ino x dp) mod DIRENT_SIZE = 0 ->
  0 <= m <= i_size (ino x dp) / DIRENT_SIZE ->
  let c := content (ino x dp) d in
  (m < i_size (ino x dp) / DIRENT_SIZE -> de_inum (entry c m) = 0) -> dir_lookup c name = None ->
  writei_post start size dp (m * DIRENT_SIZE) (new_entry inum name) x (begun d) n x' p' -> n = DIRENT_SIZE ->
  let c' := content (ino x' dp) (ls_view p') in
  len c' mod DIRENT_SIZE = 0 /\ dir_lookup c' name = Some (inum, m * DIRENT_SIZE) /\
  forall name', fname name' <> fname name -> dir_lookup c' name' = dir_lookup c name'.
Proof.
  intros S Hi Hb Hs Hm c Hfree Hnone P Hn c'. destruct (new_entry_ok inum name Hi Hb) as (N1 & N2 & N3 & N4).
  pose proof (fo_size _ _ _ (st_file _ _ _ _ _ S)) as Hsz. set (k := i_size (ino x dp) / DIRENT_SIZE) in *.
  assert (Hc : len c = k * DIRENT_SIZE).
  { unfold len, c. rewrite content_length by lia. unfold k. change DIRENT_SIZE with 16 in *. Z.to_euclidean_division_equations. lia. }
  assert (Ec : c' = splice c (m * DIRENT_SIZE) (new_entry inum name)).
  { unfold c'. rewrite (wp_content _ _ _ _ _ _ _ _ _ _ P). f_equal. apply take_ge. unfold len in N1. lia. }
  destruct (dir_insert c name m (new_entry inum name) inum k Hc Hm Hfree Hnone N1 N2 ltac:(lia) N3) as (H1 & H2 & H3).
  rewrite <- Ec in H1, H2, H3. split_and!; [|exact H2|exact H3]. rewrite H1. by apply Z_mod_mult.
Qed.

(** The entry that the search of [dirlink] finds. *)
Lemma link_entry dp x d :
  same_dinode (disk_inode (x_sb x) d (i_inum (ino x dp))) (ino x dp) ->
  i_size (ino x dp) mod DIRENT_SIZE = 0 -> 0 <= i_size (ino x dp) <= MAXFILE * BSIZE ->
  let c := content (disk_inode (x_sb x) d (i_inum (ino x dp))) d in
  let n := i_size (ino x dp) / DIRENT_SIZE in
  free_from c 0 (Z.to_nat n) = free_entry c /\ 0 <= free_entry c <= n /\ (free_entry c < n -> de_inum (entry c (free_entry c)) = 0).
Proof.
  intros E Hs Hfs c n.
  assert (free_from c 0 (Z.to_nat n) = free_entry c) as He.
  { unfold free_entry. f_equal. unfold c. rewrite <- (same_content E), content_length by lia. unfold n.
    change DIRENT_SIZE with 16 in *. rewrite <- Z2Nat.inj_div by lia. done. }
  rewrite <- He. assert (0 <= n) by (apply Z.div_pos; [lia|done]).
  destruct (free_from_range c (Z.to_nat n) 0) as [H1 H2]. split_and!; [done|lia|lia|]. intros. apply H2. lia.
Qed.

(** Why an entry is not written. *)
Lemma link_refused dp m e x d n x' p' :
  0 <= m <= i_size (ino x dp) / DIRENT_SIZE -> i_size (ino x dp) mod DIRENT_SIZE = 0 -> 0 <= i_size (ino x dp) <= MAXFILE * BSIZE ->
  len e = DIRENT_SIZE -> write_outcome start size dp (m * DIRENT_SIZE) e x d n x' p' -> n <> DIRENT_SIZE ->
  m * DIRENT_SIZE = i_size (ino x dp) /\
  (i_size (ino x dp) = MAXFILE * BSIZE /\ ls_view p' = d \/ all_used (x_sb x) (ls_view p')).
Proof.
  intros Hm Hs Hfs He W Hne. unfold write_outcome in W. destruct (write_refused _ _ _) eqn:Er.
  - destruct W as (_ & _ & Hv). rewrite He in Er. unfold write_refused in Er.
    change (MAXFILE * BSIZE) with 274432 in *. change DIRENT_SIZE with 16 in *. rewrite !orb_true_iff, !Z.ltb_lt, Z.leb_le in Er.
    assert (m * 16 = i_size (ino x dp) /\ i_size (ino x dp) = 274432) as [H1 H2] by (Z.to_euclidean_division_equations; lia).
    split; [exact H1|]. by left.
  - destruct (wp_r _ _ _ _ _ _ _ _ _ _ W) as [Hn [Hr|[Hr Hle]]]; [congruence|]. rewrite He in *. split; [|by right].
    change DIRENT_SIZE with 16 in *. Z.to_euclidean_division_equations. lia.
Qed.

(** What [dirlink] relies on: the directory [dp] is locked, and the inode that has the name, if
    there is one, is not. *)
Record linkable (L : gset Z) (dp : Z) (name : list Z) (inum : Z) (x : fsx) (d : Z -> mem) : Prop := {
  ln_mounted : mounted start size x (begun d);
  ln_cache : icache pid L x d;
  ln_tree : tree_ok (x_sb x) d;
  ln_dir : dp ∈ L /\ i_type (ino x dp) = T_DIR;
  ln_room : iroom 1 x;
  ln_inum : 0 < inum < 2 ^ 16;
  ln_name : Forall byte name;
  ln_other i off : dir_lookup (content (disk_inode (x_sb x) d (i_inum (ino x dp))) d) name = Some (i, off) ->
    forall j, j ∈ L -> i_inum (ino x j) <> i }.

Lemma dirlink_in_transaction L dp name inum x d t :
  x_sb x = sb -> linkable L dp name inum x d -> MAXOPBLOCKS < size ->
  fwp pid start size (dirlink rw pid fuel upt dp name inum)
    (fun r x' t' p' => ls_out p' = 1 /\ ls_held p' = ∅ /\ lenL p' <= MAXOPBLOCKS /\ link_outcome start size pid L dp name inum x d r x' p')
    x t (begun d).
Proof using All.
  intros Hx [Mt I Ht [HL Hty] Hroom Hi Hb Hoth] Hsz.
  destruct (locked_state pid start size L x (begun d) dp Mt I HL) as (S & E & Hlv).
  change (ls_view (begun d)) with d in E, Hlv.
  pose proof (fo_size _ _ _ (st_file _ _ _ _ _ S)) as Hfs. pose proof (sd_type _ _ E) as Et. rewrite Hty in Et.
  destruct (Ht _ Hlv (eq_sym Et)) as [Hs _]. rewrite <-(sd_size _ _ E) in Hs.
  unfold dirlink. apply fwp_bind. apply (dirlookup_spec rw pid fuel upt start size L); [done|done|done|done|done|done|]. intros t1.
  cbn [begun ls_view]. unfold link_outcome. destruct (dir_lookup _ name) as [[i off]|] eqn:El.
  - intros ip x1 G. destruct G as [G1 G2 G3 G4 G5 G6 [G7 G7'] G8].
    assert (Hn : ip ∉ L).
    { intros HipL. destruct (ic_mine _ _ _ _ I ip HipL) as (Hr & Ha & _). destruct (G8 ip Hr Ha) as [Ei _].
      apply (Hoth i off eq_refl ip HipL). congruence. }
    apply fwp_bind, (iput_spec rw) with (L := L) (v := d); [done|done|done|done|].
    intros x2 [D1 D2 _ _ _]. apply fwp_ret. split_and!; try done.
    intros k. rewrite D2, G6, G3. lia.
  - apply fwp_bind, fwp_geti. apply fwp_bind.
    destruct (link_entry dp x d E Hs Hfs) as (Em & Hm & Hfree). set (m := free_entry _) in *.
    apply (dirlink_loop_spec rw pid fuel upt start size L x (begun d) dp _ Mt I HL Hs (Z.to_nat (i_size (ino x dp) / DIRENT_SIZE)) _ 0);
      [done|rewrite Z2Nat.id; [lia|apply Z.div_pos; [lia|done]]|lia|].
    intros t2. change (ls_view (begun d)) with d. rewrite Em. fold (new_entry inum name).
    destruct (new_entry_ok inum name Hi Hb) as (N1 & N2 & N3 & N4).
    assert (Hoff : 0 <= m * DIRENT_SIZE < 2 ^ 32).
    { assert (HM : MAXFILE * BSIZE < 2 ^ 31) by (vm_compute; reflexivity).
      change DIRENT_SIZE with 16 in *. Z.to_euclidean_division_equations. lia. }
    apply fwp_bind. rewrite <- N1 at 2. eapply fwp_mono.
    { apply writei_in_transaction; [done|by destruct S|rewrite <- Hx; destruct (lv_inum _ _ _ Hlv); lia|by constructor|done|done| |done].
      rewrite N1. by vm_compute. }
    intros n x' t' p' (Ho & Hh & Hl & W).
    destruct (Z.eqb_spec n DIRENT_SIZE) as [->|Hne]; cbn [negb]; apply fwp_ret; split_and!; try done; eexists; (split; [exact W|]).
    + rewrite Z.eqb_refl. unfold write_outcome in W. destruct (write_refused _ _ _); [by destruct W|]. split; [done|].
      rewrite <- (same_content E) in El, Hfree |- *.
      apply (link_written dp name inum m x d DIRENT_SIZE x' p'); done.
    + rewrite (proj2 (Z.eqb_neq _ _)) by done. split; [done|]. by eapply link_refused.
Qed.

(** C5: Adding a name to a directory is atomic.  [begin_op; dirlink; end_op] terminates without
    panic.  If the directory has the name, dirlink returns -1, gives up the reference it has
    taken and changes no block.  Otherwise it writes the first unused entry of the directory, or one
    at its end.  It returns 0, and then the name is found with its inode, and every other name
    as before; or it returns -1, but only if no entry was unused and either the directory has
    the size of the largest file or no block of the disk is free.  After a crash at any
    moment, the next boot finds all blocks as before it, or all as after it. *)
Theorem dirlink_atomic L dp name inum x d t l a w s :
  x_sb x = sb -> lsim start size t (lspec0 d) l a -> held w = [] -> rep pid s a ->
  linkable L dp name inum x d -> MAXOPBLOCKS < size ->
  exists w' s' l' a' t' x' p' r,
    transaction rw pid fuel (dirlink rw pid fuel upt dp name inum) w (fs_with x (set_bc s l)) =
      Ret w' (fs_with x' (set_bc s' l')) r /\ held w' = [] /\ rep pid s' a' /\
    lsim start size t' (lspec0 (ls_view p')) l' a' /\ lenL p' <= MAXOPBLOCKS /\
    link_outcome start size pid L dp name inum x d r x' p' /\
    atomic_between rw pid fuel start size sb (a_hist a) (a_hist a') d (ls_view p').
Proof.
  intros Hx Sim Hw R Lk Hsz. pose proof (mt_layout _ _ _ _ (ln_mounted _ _ _ _ _ _ Lk)) as Ly. rewrite Hx in Ly.
  destruct (ly_start _ _ _ Ly) as [Hs1 Hs2].
  destruct (transaction_spec rw pid fuel start size sb eq_refl eq_refl ltac:(lia) ltac:(lia) (layout_small Ly)
    (dirlink rw pid fuel upt dp name inum)
    (fun r x' p' => lenL p' <= MAXOPBLOCKS /\ link_outcome start size pid L dp name inum x d r x' p') x d t l a w s Sim Hw R)
    as (w' & s' & l' & a' & t' & x' & p' & r & Hrun & Hw' & R' & Sim' & [Hl HQ] & At).
  { eapply fwp_mono; [by apply dirlink_in_transaction|]. intros r x' t' p' (? & ? & Hl & ?). split_and!; try done.
    unfold NBUF, MAXOPBLOCKS in *. lia. }
  exists w', s', l', a', t', x', p', r. by split_and!.
Qed.

(** ** Reading *)

Lemma splice_read c off bs : (Z.to_nat off <= length c)%nat -> take (length bs) (drop (Z.to_nat off) (splice c off bs)) = bs.
Proof.
  intros H. unfold splice. rewrite drop_app_length' by (rewrite length_take; lia). by apply take_app_length'.
Qed.

Lemma write_read_len ip off bs x p r x' p' :
  fstate start size ip x p -> write_refused (ino x ip) off (len bs) = false -> 0 <= off ->
  writei_post start size ip off bs x p r x' p' ->
  read_len (ino x' ip) off r = r /\ frange (ino x' ip) (ls_view p') off r = take (Z.to_nat r) bs.
Proof.
  intros S Hr Hoff P. destruct (wp_r _ _ _ _ _ _ _ _ _ _ P) as [Hr' _]. pose proof (wp_fields _ _ _ _ _ _ _ _ _ _ P) as Hf.
  unfold write_refused in Hr. zbool. pose proof (fo_size _ _ _ (st_file _ _ _ _ _ S)).
  assert (Hsz : i_size (ino x' ip) = Z.max (i_size (ino x ip)) (off + r)) by (rewrite Hf; done). split.
  - unfold read_len. rewrite Hsz, (proj2 (Z.ltb_ge _ _)), (proj2 (Z.leb_gt _ _)) by lia. simpl. lia.
  - rewrite frange_content, (wp_content _ _ _ _ _ _ _ _ _ _ P) by lia.
    assert (E : Z.to_nat r = length (take (Z.to_nat r) bs)) by (unfold len in *; rewrite length_take; lia).
    rewrite E at 1. apply splice_read. rewrite content_length; lia.
Qed.

(** C26: What [writei] has written, [readi] at the same offset reads back. *)
Theorem write_read ip x d t off src bs :
  x_sb x = sb -> fstate start size ip x (lspec0 d) -> 0 <= i_inum (ino x ip) < sb_ninodes sb ->
  source kend upt (x_mem x) src bs -> Forall byte bs -> 0 <= off < 2 ^ 32 -> len bs <= write_max -> MAXOPBLOCKS < size ->
  write_refused (ino x ip) off (len bs) = false ->
  fwp pid start size
    (r ← writei rw pid fuel upt ip src off (len bs);
     v ← readi rw pid fuel upt ip ToLocal off r;
     mret (r, v))
    (fun rv x' t' p' => rv.2 = (rv.1, take (Z.to_nat rv.1) bs) /\
       (rv.1 = len bs \/ all_used sb (ls_view p') /\ i_size (ino x ip) <= off + rv.1))
    x t (begun d).
Proof.
  intros Hx S Hi Hsrc Hb Hoff Hn Hsz Hok. apply fwp_bind.
  eapply fwp_mono; [by apply writei_in_transaction|]. intros r x' t' p' (_ & _ & Hl & HQ).
  unfold write_outcome in HQ. rewrite Hok in HQ. assert (S' : fstate start size ip x (begun d)) by (by destruct S).
  destruct (wp_r _ _ _ _ _ _ _ _ _ _ HQ) as [Hr Hfull]. rewrite Hx in Hfull.
  destruct (write_read_len ip off bs x (begun d) r x' p' S' Hok ltac:(lia) HQ) as [E1 E2].
  assert (len bs < 2 ^ 32) by (unfold write_max, MAXOPBLOCKS, BSIZE in Hn; change ((10 - 1 - 1 - 2) / 2) with 3 in Hn; lia).
  apply fwp_bind, (readi_local rw pid fuel); [apply HQ|unfold NBUF, MAXOPBLOCKS in *; lia|done|lia|].
  intros t2. rewrite E1, E2. by apply fwp_ret.
Qed.

Lemma fbyte_byte ip x p o : lok start size p -> fstate start size ip x p -> 0 <= o < MAXFILE * BSIZE ->
  byte (fbyte (ino x ip) (ls_view p) o).
Proof.
  intros Hok S Ho. apply file_block_range in Ho. unfold fbyte. destruct (Z.eqb_spec (iblk (ino x ip) (ls_view p) (o / BSIZE)) 0) as [|Hn].
  - unfold byte. lia.
  - assert (Hd : data_block (x_sb x) (iblk (ino x ip) (ls_view p) (o / BSIZE))).
    { rewrite <-slot_blk in * by lia. apply (fo_slot _ _ _ (st_file _ _ _ _ _ S)); [lia|done]. }
    apply ld8_byte, blk_ok, (lok_blk _ _ _ Hok), (data_home (st_layout _ _ _ _ _ S)), Hd.
Qed.

Lemma frange_bytes ip x p off n : lok start size p -> fstate start size ip x p ->
  0 <= off -> off + n <= i_size (ino x ip) -> Forall byte (frange (ino x ip) (ls_view p) off n).
Proof.
  intros Hok S H1 H2. pose proof (fo_size _ _ _ (st_file _ _ _ _ _ S)). apply Forall_forall.
  intros c (o & -> & Ho%elem_of_seqZ)%list_elem_of_fmap. apply fbyte_byte; [done|done|lia].
Qed.

(** [readi] to user memory.  A read at [off] of at most [n] bytes copies the
    bytes of the file that are there, up to its end, to the user's buffer, returns
    their number, and changes nothing else: no block, no inode, no other byte of
    the user. *)
Theorem readi_user ip x t p l T a off n :
  fstate start size ip x p -> lenL p < NBUF - 1 -> 0 <= off < 2 ^ 32 -> 0 <= n < 2 ^ 32 ->
  let m := read_len (ino x ip) off n in
  vm_inv kend (x_mem x) l upt T -> upages_ok kend (km_mem (x_mem x)) l T ->
  0 <= a -> a + m <= MAXVA -> (forall i, 0 <= i < m -> uget (km_mem (x_mem x)) T (a + i) <> None) ->
  fwp pid start size (readi rw pid fuel upt ip (ToUser a) off n)
    (fun v x' t' p' => v.1 = m /\ p' = p /\ exists k', x' = with_mem k' x /\
       user_has upt kend a (x_mem x) l T (take (Z.to_nat m) (drop (Z.to_nat off) (content (ino x ip) (ls_view p)))) k')
    x t p.
Proof.
  intros S Hl Hoff Hn m Hvm Hup Ha Hmax Hmap. apply fwp_lok. intros Hok.
  pose proof (fo_size _ _ _ (st_file _ _ _ _ _ S)) as Hsz.
  assert (Hm : 0 <= m /\ (m = 0 \/ off + m <= i_size (ino x ip))).
  { subst m. unfold read_len. destruct (_ || _) eqn:E; [lia|]. zbool. lia. }
  assert (Hc : take (Z.to_nat m) (drop (Z.to_nat off) (content (ino x ip) (ls_view p))) = frange (ino x ip) (ls_view p) off m).
  { destruct Hm as [Hm [->|Hm']]; [by rewrite frange_nil|]. by rewrite frange_content by lia. }
  rewrite Hc. eapply (readi_sink rw pid fuel upt _ _ _ _ _ _ (fun i => user_has upt kend a (x_mem x) l T (frange (ino x ip) (ls_view p) off i)));
    [done|done|done|done| | |].
  - fold m. apply sink_user; try done; [lia|]. destruct Hm as [Hm [->|Hm']]; [by rewrite frange_nil|].
    apply frange_bytes; [done|done|lia|done].
  - rewrite frange_nil by lia. split; [done|done|apply ucopied_refl].
  - intros t' k' Hk'. split; [done|]. split; [done|]. by exists k'.
Qed.
(** ** Blocks and inodes *)

(** [balloc] returns a data block that was free, now marked as used in the bitmap
    and filled with zeros, all other blocks being as they were; when it returns 0
    every block is in use and nothing has changed. *)
Theorem balloc_fresh x t p :
  layout start size (x_sb x) -> meta_used (x_sb x) (ls_view p) -> ls_held p = ∅ ->
  room size (absent (sb_bmapstart (x_sb x)) (ls_log p)) p ->
  fwp pid start size (balloc rw pid fuel ROOTDEV)
    (fun r x' t' p' => x' = x /\ ls_held p' = ∅ /\ balloc_post (x_sb x) p r p') x t p.
Proof.
  intros L Hm Hh Hr. apply (balloc_spec rw pid fuel start size L); [done|by apply busy_empty|done|].
  intros r t' p' B _. split; [done|]. split; [|done]. unfold balloc_post in B.
  case_match; [by destruct B as [-> _]|by destruct B as (_ & _ & d & -> & _)].
Qed.

Lemma balloc_frees x p p' r : layout start size (x_sb x) -> balloc_post (x_sb x) p r p' -> r <> 0 ->
  forall n, used (x_sb x) (ls_view p') n = (n =? r) || used (x_sb x) (ls_view p) n.
Proof. intros L B Hr. by destruct (balloc_allocated Hr B) as (_ & _ & _ & Hu & _). Qed.

(** [bfree] undoes [balloc]: every block is in use exactly if it was before. *)
Theorem balloc_bfree x t p :
  layout start size (x_sb x) -> meta_used (x_sb x) (ls_view p) -> ls_held p = ∅ ->
  room size (absent (sb_bmapstart (x_sb x)) (ls_log p) + 1) p ->
  fwp pid start size (b ← balloc rw pid fuel ROOTDEV; when (negb (b =? 0)) (bfree rw pid fuel ROOTDEV b))
    (fun _ x' t' p' => x' = x /\ forall n, used (x_sb x) (ls_view p') n = used (x_sb x) (ls_view p) n) x t p.
Proof.
  intros L Hm Hh Hr.
  apply fwp_bind, (balloc_spec rw pid fuel start size L); [done|by apply busy_empty|eapply room_le; [|done]; lia|].
  intros r t' p' B _. destruct (Z.eqb_spec r 0) as [->|Hr0]; cbn [negb when].
  { destruct B as [-> _]. by apply fwp_ret. }
  pose proof (alloc_log Hr0 B) as [Hl _]. pose proof (balloc_frees x p p' r L B Hr0) as Hu.
  pose proof (inodes_before L). pose proof (ly_start _ _ _ L). pose proof (ly_log _ _ _ L).
  unfold balloc_post in B. rewrite (proj2 (Z.eqb_neq _ _)) in B by done. destruct B as (Hd & Hf & d & -> & _).
  apply (bfree_spec rw pid fuel start size L); [destruct Hd; lia|rewrite Hu, Z.eqb_refl; done|by apply busy_empty| |].
  { unfold room in *. simpl ls_out. lia. }
  intros t2 p2 (d2 & -> & _ & Hbit) _. split; [done|]. intros n. unfold used at 1. rewrite ls_update_view_eq, Hbit, Hu.
  destruct (Z.eqb_spec n r) as [->|]; [by rewrite Hf|done].
Qed.

End theorems.

(** The inode that [iupdate] writes to disk is the one that [ilock] reads back,
    and no other inode of the block changes. *)
Theorem dinode_roundtrip y y0 d i j :
  dinode_fits y -> 0 <= i -> 0 <= j -> i mod IPB <> j mod IPB ->
  let d' := dinode_write y d (dinode_off i) in
  let y' := dinode_read d' (dinode_off i) y0 in
  (i_type y', i_major y', i_minor y', i_nlink y', i_size y') = (i_type y, i_major y, i_minor y, i_nlink y, i_size y) /\
  (forall k, 0 <= k <= NDIRECT -> iaddr y' k = iaddr y k) /\
  (forall b, dinode_off j <= b < dinode_off j + DINODE_SIZE -> ld8 d' b = ld8 d b).
Proof.
  intros Hf Hi Hj Hne. cbv zeta. destruct (dinode_read_write y y0 d (dinode_off i) Hf) as [H1 H2].
  split; [done|]. split; [done|]. intros b Hb. apply dinode_write_out.
  destruct (dinode_offs i j Hi Hj Hne); lia.
Qed.

(** ** A disk with an empty file *)

(** The blocks before 48 are in use, the others are free. *)
Definition demo_bitmap : mem := memset zero_block 0 255 6.

Definition demo_disk : history := [(45, demo_bitmap)].

Definition demo_inode : inode := Inode ROOTDEV 5 1 (Sleeplock 0 "inode" 0) true T_FILE 0 0 1 0 ∅.

Definition demo_x : fsx := Fsx (Kmem ∅ 0) sb2000 {[0 := demo_inode]}.

Lemma memset_blk m c i k : is_blk m -> 0 <= i -> i + Z.of_nat k <= BSIZE -> is_blk (memset_loop m 0 c i k).
Proof.
  revert m i. induction k as [|k IH]; intros m i Hm Hi Hk; simpl; [done|].
  apply IH; [apply is_blk_st8; [done|lia]|lia|lia].
Qed.

Lemma demo_bootable : bootable 2 30 demo_disk.
Proof.
  split.
  - constructor; [|constructor]. apply memset_blk; [apply is_blk_zero|lia|done].
  - change (disk_read demo_disk 2) with zero_block. change (hdr_ok 2 30 []). by apply hdr_ok_nil.
Qed.

Lemma demo_layout : layout 2 30 sb2000.
Proof. by split; vm_compute. Qed.

Lemma demo_meta d : d 45 = demo_bitmap -> meta_used sb2000 d.
Proof.
  intros E n Hn. unfold used. change (sb_bmapstart sb2000) with 45 in *. rewrite E. unfold bit_of, demo_bitmap. rewrite ld8_memset.
  assert (0 <= n / 8 < 6) by (split; [apply Z.div_pos; lia|apply Z.div_lt_upper_bound; lia]).
  rewrite decide_True by lia. change (u8 255) with (Z.ones 8). apply Z.ones_spec_low, Z.mod_pos_bound. lia.
Qed.

Lemma demo_state p : ls_view p 45 = demo_bitmap -> ls_held p = ∅ -> fstate 2 30 0 demo_x p.
Proof.
  intros E Hh. assert (Hs : forall s, slot demo_inode (ls_view p) s = 0).
  { intros s. unfold slot, iblk, iaddr. simpl. rewrite !lookup_empty. by repeat case_match. }
  split; [apply demo_layout|by apply demo_meta|done|by eexists|].
  change (ino demo_x 0) with demo_inode. split; [done|..].
  - intros s _ Hn. destruct Hn. apply Hs.
  - intros s s' _ _ Hn. destruct Hn. apply Hs.
  - clear. split; vm_compute; discriminate.
  - simpl. intros bn H1 H2. unfold BSIZE in H2. lia.
Qed.

Lemma demo_recovered n : recovered 2 demo_disk n = disk_read demo_disk n.
Proof. apply recovered_clean. reflexivity. Qed.

Definition hi : list Z := [104; 105].

Lemma hi_bytes : Forall byte hi.
Proof. by repeat constructor. Qed.

Lemma kend_demo : KERNBASE <= KERNBASE <= PHYSTOP.
Proof. by vm_compute. Qed.

#[local] Opaque recovered demo_bitmap.

Lemma write_atomic_witness :
  exists w l r,
    (zoom log_of (boot plain_rw 1 0 sb2000);; transaction plain_rw 1 0 (writei plain_rw 1 0 0 0 (FromLocal hi) 0 2))
      (World [] [] []) (fs_with demo_x (log0 (bcache0 demo_disk))) = Ret w l r /\ 0 <= r <= 2.
Proof.
  destruct (boot_run plain_rw 1 0 2 30 sb2000 eq_refl eq_refl ltac:(lia) ltac:(lia) ltac:(lia) (World [] [] []) demo_disk
    eq_refl demo_bootable) as (w & s & l & a & Hb & Hw & R & S & _).
  destruct (write_atomic plain_rw 1 0 0 KERNBASE kend_demo sb2000 0 demo_x (recovered 2 demo_disk) ∅ l a w s 0 (FromLocal hi) hi
    eq_refl S Hw R) as (w' & s' & l' & a' & t' & x' & p' & r & Hrun & _ & _ & _ & _ & HQ & _).
  - apply demo_state; [exact (demo_recovered 45)|reflexivity].
  - split; [discriminate|reflexivity].
  - apply SrcLocal.
  - exact hi_bytes.
  - split; [discriminate|reflexivity].
  - discriminate.
  - reflexivity.
  - exists w', (fs_with x' (set_bc s' l')), r. split.
    + erewrite run_bind by (apply zoom_ret, Hb). exact Hrun.
    + exact (proj1 (wp_r _ _ _ _ _ _ _ _ _ _ HQ)).
Defined.

Definition demo_p (out : Z) : lspec := Lspec (disk_read demo_disk) (disk_read demo_disk) [] ∅ out.

Lemma demo_bitmap_at out : ls_view (demo_p out) 45 = demo_bitmap.
Proof. reflexivity. Qed.

Lemma write_read_witness :
  fwp 1 2 30
    (r ← writei plain_rw 1 0 0 0 (FromLocal hi) 0 2;
     v ← readi plain_rw 1 0 0 0 ToLocal 0 r;
     mret (r, v))
    (fun rv x' t' p' => rv.2 = (rv.1, take (Z.to_nat rv.1) hi) /\ (rv.1 = 2 \/ all_used sb2000 (ls_view p') /\ i_size (ino demo_x 0) <= 0 + rv.1))
    demo_x ∅ (begun (disk_read demo_disk)).
Proof.
  refine (write_read plain_rw 1 0 0 KERNBASE kend_demo sb2000 0 demo_x (disk_read demo_disk) ∅ 0 (FromLocal hi) hi
    eq_refl _ _ (SrcLocal _ _ _ hi) hi_bytes _ _ _ _).
  - apply demo_state; [exact (demo_bitmap_at 0)|reflexivity].
  - split; [discriminate|reflexivity].
  - split; [discriminate|reflexivity].
  - discriminate.
  - reflexivity.
  - reflexivity.
Defined.

Lemma balloc_fresh_witness :
  fwp 1 2 30 (balloc plain_rw 1 0 ROOTDEV)
    (fun r x' t' p' => x' = demo_x /\ ls_held p' = ∅ /\ balloc_post sb2000 (demo_p 1) r p') demo_x ∅ (demo_p 1).
Proof.
  refine (balloc_fresh plain_rw 1 0 sb2000 demo_x ∅ (demo_p 1) demo_layout (demo_meta _ (demo_bitmap_at 1)) eq_refl _).
  split; [discriminate|split; reflexivity].
Defined.

Lemma balloc_bfree_witness :
  fwp 1 2 30 (b ← balloc plain_rw 1 0 ROOTDEV; when (negb (b =? 0)) (bfree plain_rw 1 0 ROOTDEV b))
    (fun _ x' t' p' => x' = demo_x /\ forall n, used sb2000 (ls_view p') n = used sb2000 (ls_view (demo_p 1)) n) demo_x ∅ (demo_p 1).
Proof.
  refine (balloc_bfree plain_rw 1 0 sb2000 demo_x ∅ (demo_p 1) demo_layout (demo_meta _ (demo_bitmap_at 1)) eq_refl _).
  split; [discriminate|split; reflexivity].
Defined.

Lemma demo_fits : dinode_fits demo_inode.
Proof.
  split; try (split; [discriminate|reflexivity]).
Qed.

Lemma dinode_roundtrip_witness :
  let d' := dinode_write demo_inode zero_block (dinode_off 5) in
  let y' := dinode_read d' (dinode_off 5) inode0 in
  (i_type y', i_major y', i_minor y', i_nlink y', i_size y') =
    (i_type demo_inode, i_major demo_inode, i_minor demo_inode, i_nlink demo_inode, i_size demo_inode) /\
  ld8 d' (dinode_off 6) = 0.
Proof.
  destruct (dinode_roundtrip demo_inode inode0 zero_block 5 6 demo_fits ltac:(lia) ltac:(lia) ltac:(vm_compute; discriminate)) as (H1 & _ & H3).
  split; [exact H1|]. rewrite H3 by (split; [discriminate|reflexivity]). apply ld8_zero_block.
Defined.

(** A file of three bytes, in block 100. *)
Definition one_inode : inode := Inode ROOTDEV 6 1 (Sleeplock 0 "inode" 0) true T_FILE 0 0 1 3 {[0 := 100]}.

Definition one_view (n : Z) : mem :=
  if n =? 45 then memset zero_block 0 255 13 else if n =? 100 then store_bytes zero_block 0 [104; 105; 0] else zero_block.

Definition one_p : lspec := Lspec one_view one_view [] ∅ 0.

Definition one_x : fsx := Fsx as1 sb2000 {[0 := one_inode]}.

Lemma one_used n : 0 <= n < 104 -> used sb2000 one_view n = true.
Proof.
  intros Hn. unfold used. change (one_view (sb_bmapstart sb2000)) with (memset zero_block 0 255 13). unfold bit_of. rewrite ld8_memset.
  assert (0 <= n / 8 < 13) by (split; [apply Z.div_pos; lia|apply Z.div_lt_upper_bound; lia]).
  rewrite decide_True by lia. change (u8 255) with (Z.ones 8). apply Z.ones_spec_low, Z.mod_pos_bound. lia.
Qed.

Lemma one_slot s : 0 <= s -> slot one_inode one_view s = if s =? 0 then 100 else 0.
Proof.
  intros Hs. assert (Ha : forall i, iaddr one_inode i = if i =? 0 then 100 else 0).
  { intros i. unfold iaddr. simpl i_addrs. destruct (Z.eqb_spec i 0) as [->|Hne]; [by rewrite lookup_singleton_eq|].
    by rewrite lookup_singleton_ne by congruence. }
  unfold slot, iblk. rewrite !Ha. change (NDIRECT =? 0) with false. cbv iota. rewrite Z.eqb_refl.
  destruct (Z.eqb_spec s MAXFILE) as [->|]; [done|]. destruct (Z.ltb_spec s NDIRECT); [done|].
  rewrite (proj2 (Z.eqb_neq s 0)); [done|]. change NDIRECT with 12 in *. lia.
Qed.

Lemma one_state : fstate 2 30 0 one_x one_p.
Proof.
  split; [apply demo_layout| |done|by eexists|].
  - intros n Hn. apply one_used. change (sb_bmapstart (x_sb one_x)) with 45 in Hn. lia.
  - change (ino one_x 0) with one_inode. change (ls_view one_p) with one_view. split; [reflexivity|..].
    + intros s Hs. rewrite one_slot by lia. destruct (s =? 0); [|done]. intros _. split; [split; reflexivity|]. apply one_used. lia.
    + intros s s' Hs Hs'. rewrite !one_slot by lia.
      destruct (Z.eqb_spec s 0), (Z.eqb_spec s' 0); try done. lia.
    + split; [discriminate|]. vm_compute. discriminate.
    + simpl. intros bn H1 H2. unfold BSIZE in H2. assert (bn = 0) as -> by lia.
      rewrite <-slot_blk, one_slot by done. done.
Qed.

#[local] Opaque as1 content.

Lemma readi_user_witness :
  exists l T, one_page as1 l T /\
  fwp 1 2 30 (readi plain_rw 1 0 root16 0 (ToUser 0) 0 3)
    (fun v x' t' p' => v.1 = 3 /\ p' = one_p /\ exists k', x' = with_mem k' one_x /\
       user_has root16 kend16 0 as1 l T (take 3 (drop 0 (content one_inode one_view))) k')
    one_x ∅ one_p.
Proof.
  destruct as1_inv as (l & T & H & _). exists l, T. split; [exact H|].
  refine (readi_user plain_rw 1 0 root16 kend16 kend16_ok sb2000 0 one_x ∅ one_p l T 0 0 3 one_state _ _ _
    (ui_vm _ _ _ _ _ _ (proj1 H)) (one_page_upages as1 l T H) _ _ _).
  - reflexivity.
  - split; [discriminate|reflexivity].
  - split; [discriminate|reflexivity].
  - lia.
  - discriminate.
  - change (read_len (ino one_x 0) 0 3) with 3. intros i Hi Hn. apply uget_None in Hn. revert Hn.
    rewrite (pgrounddown_page 0 i); [exact (one_page_upa as1 l T H)|lia|lia| |lia].
    change (PGROUNDDOWN 0) with 0. unfold PGSIZE. lia.
Defined.
