(* ===== verification/MkfsSpec.v ===== *)
(** * What mkfs writes

    The image as the kernel will see it, with the bitmap that [balloc] writes at
    the end, and [iappend] as appending to the contents of a file. *)

From S2P Require Import Prelude Machine Sleeplock Mem Layout Kalloc Vm VmCopy Bio FsHdr Log LogDisk LogTheorems Printf Fs FsLogic FsBitmap FsFile FsRead FsWrite FsContent Mkfs.

Lemma mk_run {A B} (m : Mk A) (f : A -> Mk B) s s' a : m s = Done s' a -> (m ≫= f) s = f a s'.
Proof. intros H. unfold mbind, mk_bind. by rewrite H. Qed.

(** ** Views that agree *)

Section ext.
Context {v v' : Z -> mem} (E : forall n, v' n = v n).

Lemma iblk_ext y bn : iblk y v' bn = iblk y v bn.
Proof using E. unfold iblk. by rewrite E. Qed.

Lemma slot_ext y s : slot y v' s = slot y v s.
Proof using E. unfold slot. by rewrite iblk_ext. Qed.

Lemma used_ext sb n : used sb v' n = used sb v n.
Proof using E. unfold used. by rewrite E. Qed.

Lemma fbyte_ext y o : fbyte y v' o = fbyte y v o.
Proof using E. unfold fbyte. by rewrite iblk_ext, E. Qed.

Lemma file_ok_ext sb y : file_ok sb v y -> file_ok sb v' y.
Proof using E.
  intros [F1 F2 F3 F4 F5]. split; [done|..|done|].
  - intros s. rewrite slot_ext, used_ext. apply F2.
  - intros s s'. rewrite !slot_ext. apply F3.
  - intros bn. rewrite iblk_ext. apply F5.
Qed.

Lemma grown_ext sb y v0 s0 r y' : grown sb y v0 s0 r y' v -> grown sb y v0 s0 r y' v'.
Proof using E.
  intros [G1 G2 G3 G4 G5 G6 G7 G8]. split; [done|done|done|..].
  - intros n. by rewrite used_ext.
  - intros s Hs. rewrite slot_ext. by apply G5.
  - done.
  - by rewrite E.
  - intros n. rewrite E. apply G8.
Qed.

Lemma evolved_ext sb y v0 y' : evolved sb y v0 y' v -> evolved sb y v0 y' v'.
Proof using E.
  intros [G1 G2 G3 G4 G5 G6]. split; [by apply file_ok_ext|done|..].
  - intros n. rewrite used_ext. apply G3.
  - intros s. rewrite slot_ext. apply G4.
  - intros s. rewrite slot_ext. apply G5.
  - intros n. rewrite E. apply G6.
Qed.
End ext.

(** ** The bitmap *)

Definition bitmap (k : Z) : mem := set_bits zero_block 0 (Z.to_nat k).

Lemma set_bits_snoc k : forall d i, set_bits d i (S k) =
  let d' := set_bits d i k in let j := i + Z.of_nat k in
  st8 d' (j / 8) (Z.lor (ld8 d' (j / 8)) (Z.shiftl 1 (j mod 8))).
Proof.
  induction k as [|k IH]; intros d i.
  - cbn [set_bits]. cbv zeta. by rewrite Z.add_0_r.
  - change (set_bits d i (S (S k))) with (set_bits (st8 d (i / 8) (Z.lor (ld8 d (i / 8)) (Z.shiftl 1 (i mod 8)))) (i + 1) (S k)).
    rewrite IH. cbv zeta. cbn [set_bits]. by replace (i + 1 + Z.of_nat k) with (i + Z.of_nat (S k)) by lia.
Qed.

Lemma bitmap_succ k : 0 <= k -> bitmap (k + 1) =
  st8 (bitmap k) (k / 8) (Z.lor (ld8 (bitmap k) (k / 8)) (Z.shiftl 1 (k mod 8))).
Proof.
  intros Hk. unfold bitmap. replace (Z.to_nat (k + 1)) with (S (Z.to_nat k)) by lia.
  rewrite set_bits_snoc. cbv zeta. by rewrite Z.add_0_l, Z2Nat.id.
Qed.

Lemma is_blk_bitmap k : 0 <= k <= BPB -> is_blk (bitmap k).
Proof.
  intros Hk. rewrite <-(Z2Nat.id k) in * by lia. induction (Z.to_nat k) as [|n IH]; [apply is_blk_zero|].
  replace (Z.of_nat (S n)) with (Z.of_nat n + 1) in * by lia. rewrite bitmap_succ by lia.
  apply is_blk_st8; [apply IH; lia|]. unfold BPB in Hk.
  split; [apply Z.div_pos; lia|apply Z.div_lt_upper_bound; lia].
Qed.

Lemma bit_of_bitmap k n : 0 <= k <= BPB -> 0 <= n -> bit_of (bitmap k) n = (n <? k).
Proof.
  intros Hk Hn. rewrite <-(Z2Nat.id k) in * by lia. induction (Z.to_nat k) as [|m IH].
  - unfold bit_of. change (bitmap (Z.of_nat 0)) with zero_block. rewrite ld8_zero_block, Z.bits_0.
    symmetry. apply Z.ltb_ge. lia.
  - replace (Z.of_nat (S m)) with (Z.of_nat m + 1) in * by lia. rewrite bitmap_succ by lia.
    rewrite bit_of_set by (apply blk_ok, is_blk_bitmap; lia). rewrite IH by lia.
    destruct (Z.eqb_spec n (Z.of_nat m)), (Z.ltb_spec n (Z.of_nat m)), (Z.ltb_spec n (Z.of_nat m + 1)); try done; lia.
Qed.

(** ** The image *)

Lemma mk_sb_val : mk_sb = sb2000.
Proof. reflexivity. Qed.

Notation bm := (sb_bmapstart sb2000).

(** The image with the bitmap of the blocks allocated so far. *)
Definition vv (s : mkst) (n : Z) : mem := if n =? bm then bitmap (freeblock s) else m_img s n.

Record imgok (s : mkst) : Prop := {
  io_nsec : m_nsec s = FSSIZE;
  io_free : nmeta <= freeblock s <= FSSIZE;
  io_blk n : 0 <= n < FSSIZE -> is_blk (m_img s n);
  io_zero n : freeblock s <= n < FSSIZE -> m_img s n = zero_block }.

Lemma xint_id x : 0 <= x < 2 ^ 32 -> xint x = x.
Proof. intros Hx. unfold xint. by apply ld_le_st_le_same. Qed.

Lemma sector_id n : 0 <= n < FSSIZE -> sector n = n.
Proof.
  intros Hn. unfold sector. unfold FSSIZE, BSIZE in *. rewrite u32_small by lia. apply Z.div_mul. lia.
Qed.

Section image.
Context {s : mkst} (I : imgok s).

Lemma vv_used n : 0 <= n -> used sb2000 (vv s) n = (n <? freeblock s).
Proof using I.
  intros Hn. unfold used, vv. rewrite Z.eqb_refl. apply bit_of_bitmap; [|done].
  pose proof (io_free _ I). unfold nmeta, FSSIZE, BPB, BSIZE in *. change (2 + nlog + ninodeblocks + nbitmap) with 46 in *. lia.
Qed.

Lemma rsect_run n : 0 <= n < FSSIZE -> rsect n s = Done s (m_img s n).
Proof using I. intros Hn. unfold rsect. rewrite sector_id, (io_nsec _ I), (proj2 (Z.ltb_lt _ _)) by lia. done. Qed.

Lemma wsect_run n d : 0 <= n < FSSIZE -> wsect n d s =
  Done (Mkst (fun m => if m =? n then d else m_img s m) FSSIZE (freeinode s) (freeblock s)) tt.
Proof using I. intros Hn. unfold wsect. rewrite sector_id, (io_nsec _ I) by done. do 2 f_equal. lia. Qed.

Lemma next_block_run : freeblock s < FSSIZE ->
  let s' := Mkst (m_img s) (m_nsec s) (freeinode s) (freeblock s + 1) in
  next_block s = Done s' (freeblock s) /\ imgok s' /\ allocated sb2000 (vv s) (freeblock s) (vv s').
Proof using I.
  intros Hlt s'. pose proof (io_free _ I) as Hf. change nmeta with 46 in Hf. unfold FSSIZE in *.
  split; [unfold next_block; by rewrite u32_small by lia|]. split.
  - destruct I as [I1 I2 I3 I4]. split; simpl; [done|change nmeta with 46 in *; unfold FSSIZE in *; lia|done|]. intros n Hn. apply I4. lia.
  - change (sb_bmapstart sb2000) with 45 in *. split_and!.
    + split; [change (sb_bmapstart sb2000) with 45|change (sb_size sb2000) with 2000]; lia.
    + rewrite vv_used by lia. apply Z.ltb_irrefl.
    + unfold vv. rewrite (proj2 (Z.eqb_neq _ _)) by (change bm with 45; lia). apply (io_zero _ I). unfold FSSIZE. lia.
    + intros n. unfold used, vv. rewrite Z.eqb_refl. simpl freeblock. rewrite bitmap_succ by lia.
      apply bit_of_set. apply blk_ok, is_blk_bitmap. unfold BPB, BSIZE. lia.
    + intros n H1 H2. unfold vv. by rewrite (proj2 (Z.eqb_neq _ _)).
Qed.
End image.

(** ** [append_block] *)

(** The file has exactly its first [k] blocks, and the indirect block when they
    need it. *)
Definition packed (y : inode) (v : Z -> mem) (k : Z) : Prop :=
  (forall bn, 0 <= bn < MAXFILE -> iblk y v bn <> 0 <-> bn < k) /\ (iaddr y NDIRECT <> 0 <-> NDIRECT < k).

(** The blocks that it uses. *)
Definition tot (k : Z) : Z := k + (if NDIRECT <? k then 1 else 0).

Record block_added (k fbn : Z) (s : mkst) (y : inode) (s1 : mkst) (y1 : inode) (r : Z) : Prop := {
  ab_img : imgok s1;
  ab_meta n : n <= bm -> m_img s1 n = m_img s n;
  ab_inode : freeinode s1 = freeinode s;
  ab_ext : extended sb2000 y (vv s) y1 (vv s1);
  ab_r : r = iblk y1 (vv s1) fbn;
  ab_packed : packed y1 (vv s1) (fbn + 1);
  ab_free : freeblock s1 = freeblock s + (tot (fbn + 1) - tot k) }.

Lemma bm_pos : 0 <= bm.
Proof. by vm_compute. Qed.

Lemma bm_size : 0 <= bm < sb_size sb2000.
Proof. by vm_compute. Qed.

Lemma size_bpb : sb_size sb2000 <= BPB.
Proof. by vm_compute. Qed.

Lemma grown_packed sb y v s0 r y' v' k : grown sb y v s0 r y' v' -> r <> 0 -> s0 < MAXFILE ->
  (forall bn, 0 <= bn < MAXFILE -> iblk y v bn <> 0 <-> bn < s0) -> k = s0 + 1 ->
  forall bn, 0 <= bn < MAXFILE -> iblk y' v' bn <> 0 <-> bn < k.
Proof.
  intros G Hr Hs0 Hp -> bn Hbn. pose proof (g_slots _ _ _ _ _ _ _ G bn ltac:(lia)) as Es. rewrite !slot_blk in Es by lia.
  rewrite Es. destruct (Z.eqb_spec bn s0) as [->|Hne]; [lia|]. rewrite Hp by done. lia.
Qed.

(** The blocks of a file, as sectors. *)
Lemma slot_sector y v s : file_ok sb2000 v y -> 0 <= s <= MAXFILE -> slot y v s <> 0 -> bm < slot y v s < FSSIZE.
Proof. intros F Hs Hn. destruct (fo_slot _ _ _ F s Hs Hn) as [[H1 H2] _]. change (sb_size sb2000) with FSSIZE in H2. lia. Qed.

Lemma vv_data s n : bm < n -> vv s n = m_img s n.
Proof. intros H. unfold vv. by rewrite (proj2 (Z.eqb_neq _ _)) by lia. Qed.

Lemma imgok_store s n d : imgok s -> bm < n < freeblock s -> is_blk d ->
  imgok (Mkst (fun m => if m =? n then d else m_img s m) FSSIZE (freeinode s) (freeblock s)).
Proof.
  intros [I1 I2 I3 I4] Hn Hd. split; simpl; [done|done|..].
  - intros m Hm. destruct (m =? n); [done|by apply I3].
  - intros m Hm. rewrite (proj2 (Z.eqb_neq _ _)) by lia. by apply I4.
Qed.

Lemma slot_free s y sl : imgok s -> file_ok sb2000 (vv s) y -> 0 <= sl <= MAXFILE -> slot y (vv s) sl <> 0 ->
  bm < slot y (vv s) sl < freeblock s.
Proof.
  intros I F Hs Hn. destruct (fo_slot _ _ _ F sl Hs Hn) as [[H1 _] H2]. pose proof bm_pos.
  rewrite (vv_used I) in H2 by lia. apply Z.ltb_lt in H2. lia.
Qed.

Section append.
Context {s : mkst} {y : inode} (I : imgok s) (F : file_ok sb2000 (vv s) y).

(** An entry of the indirect block. *)
Lemma entry_new fbn : NDIRECT <= fbn < MAXFILE -> iaddr y NDIRECT <> 0 -> iblk y (vv s) fbn = 0 -> freeblock s < FSSIZE ->
  exists s1 r, (b ← next_block;
     let indirect := st32 (m_img s (iaddr y NDIRECT)) (4 * (fbn - NDIRECT)) (xint b) in
     wsect (xint (iaddr y NDIRECT)) indirect;; mret indirect) s = Done s1 (vv s1 (iaddr y NDIRECT)) /\
    imgok s1 /\ (forall n, n <= bm -> m_img s1 n = m_img s n) /\ freeinode s1 = freeinode s /\ freeblock s1 = freeblock s + 1 /\
    grown sb2000 y (vv s) fbn r y (vv s1) /\ r <> 0.
Proof using I F.
  intros Hb Hi Hnil Hlt. destruct (next_block_run I Hlt) as (Hrun & I1 & A). set (ind := iaddr y NDIRECT) in *.
  pose proof (io_free _ I) as Hf. change nmeta with 46 in Hf.
  assert (Hind : bm < ind < freeblock s).
  { unfold ind. rewrite <-(slot_ind y (vv s)) in *. apply slot_free; [done|done|apply MAXFILE_in|exact Hi]. }
  change bm with 45 in *. change FSSIZE with 2000 in *. rewrite !xint_id by lia.
  eexists (Mkst (fun m => if m =? ind then st32 (m_img s ind) (4 * (fbn - NDIRECT)) (freeblock s) else m_img s m) FSSIZE
             (freeinode s) (freeblock s + 1)), (freeblock s).
  split; [|split_and!].
  - unfold mbind, mk_bind. rewrite Hrun. rewrite (wsect_run I1) by (change FSSIZE with 2000; lia). simpl. unfold vv. change bm with 45.
    rewrite (proj2 (Z.eqb_neq ind 45)) by lia. simpl. rewrite Z.eqb_refl, !xint_id by lia. done.
  - apply (imgok_store _ ind _ I1); [simpl; change bm with 45; lia|].
    apply is_blk_st_le; [apply (io_blk _ I); change FSSIZE with 2000; lia| |];
      change MAXFILE with 268 in Hb; change NDIRECT with 12 in *; unfold BSIZE; simpl; lia.
  - intros n Hn. simpl. rewrite (proj2 (Z.eqb_neq _ _)) by lia. done.
  - done.
  - done.
  - set (p := Lspec (vv s) (vv s) [] ∅ 0). set (p1 := Lspec (vv (Mkst (m_img s) (m_nsec s) (freeinode s) (freeblock s + 1))) (vv s) [] ∅ 0).
    assert (Hr0 : freeblock s <> 0) by lia.
    pose proof (grown_entry (p := p) (p1 := p1) bm_size size_bpb F Hr0 A fbn Hb Hi Hnil) as G.
    revert G. apply grown_ext. intros n. simpl. unfold vv. simpl. change bm with 45. fold ind.
    rewrite (proj2 (Z.eqb_neq ind 45)) by lia.
    destruct (Z.eqb_spec n 45) as [->|]; [by rewrite (proj2 (Z.eqb_neq 45 ind)) by lia|]. done.
  - lia.
Qed.
Lemma slot_small sl : 0 <= sl <= MAXFILE -> 0 <= slot y (vv s) sl < 2 ^ 32.
Proof using I F.
  intros Hs. destruct (decide (slot y (vv s) sl = 0)) as [->|Hn]; [lia|].
  pose proof (slot_free s y sl I F Hs Hn). pose proof (io_free _ I). pose proof bm_pos. unfold FSSIZE in *. lia.
Qed.

Definition addr_slot (i : Z) : Z := if i =? NDIRECT then MAXFILE else i.

Lemma slot_addr i : 0 <= i <= NDIRECT -> slot y (vv s) (addr_slot i) = iaddr y i /\ 0 <= addr_slot i <= MAXFILE.
Proof using Type.
  intros Hi. pose proof NDIRECT_MAXFILE. unfold addr_slot. destruct (Z.eqb_spec i NDIRECT) as [->|Hne].
  - split; [apply slot_ind|apply MAXFILE_in].
  - split; [|lia]. rewrite slot_blk by lia. unfold iblk. by rewrite (proj2 (Z.ltb_lt _ _)) by lia.
Qed.

(** An address in the inode. *)
Lemma addr_new i : 0 <= i <= NDIRECT -> iaddr y i = 0 -> freeblock s < FSSIZE ->
  exists s1, (b ← next_block; mret (iset_addr i (xint b) y)) s = Done s1 (iset_addr i (freeblock s) y) /\
    imgok s1 /\ m_img s1 = m_img s /\ freeinode s1 = freeinode s /\ freeblock s1 = freeblock s + 1 /\
    grown sb2000 y (vv s) (addr_slot i) (freeblock s) (iset_addr i (freeblock s) y) (vv s1) /\ freeblock s <> 0.
Proof using I F.
  intros Hi Hnil Hlt. destruct (next_block_run I Hlt) as (Hrun & I1 & A).
  pose proof (io_free _ I) as Hf. change nmeta with 46 in Hf. change FSSIZE with 2000 in *.
  assert (Hr0 : freeblock s <> 0) by lia.
  exists (Mkst (m_img s) (m_nsec s) (freeinode s) (freeblock s + 1)). split_and!; try done.
  - unfold mbind, mk_bind. rewrite Hrun. by rewrite xint_id by lia.
  - set (p := Lspec (vv s) (vv s) [] ∅ 0). set (p1 := Lspec (vv (Mkst (m_img s) (m_nsec s) (freeinode s) (freeblock s + 1))) (vv s) [] ∅ 0).
    unfold addr_slot. destruct (Z.eqb_spec i NDIRECT) as [->|Hne].
    + apply (grown_indirect (p := p) (p1 := p1) F Hr0 A Hnil).
    + apply (grown_direct (p := p) (p1 := p1) F Hr0 A); [lia|done].
Qed.

Lemma added_none fbn r : packed y (vv s) (fbn + 1) -> r = iblk y (vv s) fbn -> block_added (fbn + 1) fbn s y s y r.
Proof using I F. intros Hp ->. split; try done; [by apply extended_refl|lia]. Qed.
End append.

Lemma added_direct s y s1 y1 fbn r : imgok s -> file_ok sb2000 (vv s) y -> 0 <= fbn < NDIRECT -> packed y (vv s) fbn ->
  imgok s1 -> m_img s1 = m_img s -> freeinode s1 = freeinode s -> freeblock s1 = freeblock s + 1 ->
  y1 = iset_addr fbn r y -> grown sb2000 y (vv s) fbn r y1 (vv s1) -> r <> 0 -> block_added fbn fbn s y s1 y1 r.
Proof.
  intros I F Hb [Hp1 Hp2] I1 Em Ei Ef -> G Hr. pose proof NDIRECT_MAXFILE. split; try done.
  - intros n _. by rewrite Em.
  - by apply (grown_extended bm_pos F G).
  - pose proof (g_slots _ _ _ _ _ _ _ G fbn ltac:(lia)) as E. rewrite Z.eqb_refl, slot_blk in E by lia. done.
  - split; [eapply (grown_packed _ _ _ _ _ _ _ _ G); [done|lia|done|done]|].
    rewrite iaddr_set, (proj2 (Z.eqb_neq NDIRECT fbn)) by lia. rewrite Hp2. lia.
  - rewrite Ef. unfold tot. rewrite !(proj2 (Z.ltb_ge NDIRECT _)) by lia. lia.
Qed.

(** The part of [append_block] that uses the indirect block. *)
Definition append_entry (din : inode) (fbn : Z) : Mk (inode * Z) :=
  indirect ← rsect (xint (iaddr din NDIRECT));
  indirect ←
    (if ld32 indirect (4 * (fbn - NDIRECT)) =? 0 then
       b ← next_block;
       let indirect := st32 indirect (4 * (fbn - NDIRECT)) (xint b) in
       wsect (xint (iaddr din NDIRECT)) indirect;;
       mret indirect
     else mret indirect);
  mret (din, xint (ld32 indirect (4 * (fbn - NDIRECT)))).

Lemma append_entry_spec s y k fbn : imgok s -> file_ok sb2000 (vv s) y -> NDIRECT <= fbn < MAXFILE ->
  iaddr y NDIRECT <> 0 -> (forall bn, 0 <= bn < MAXFILE -> iblk y (vv s) bn <> 0 <-> bn < k) -> k = fbn \/ k = fbn + 1 ->
  freeblock s + (fbn + 1 - k) <= FSSIZE ->
  exists s1 r, append_entry y fbn s = Done s1 (y, r) /\ imgok s1 /\ (forall n, n <= bm -> m_img s1 n = m_img s n) /\
    freeinode s1 = freeinode s /\ freeblock s1 = freeblock s + (fbn + 1 - k) /\ extended sb2000 y (vv s) y (vv s1) /\
    r = iblk y (vv s1) fbn /\ packed y (vv s1) (fbn + 1).
Proof.
  intros I F Hb Hi Hp Hk Hroom. assert (HN : 0 <= NDIRECT) by done. pose proof MAXFILE_in as HM.
  pose proof (slot_free s y MAXFILE I F HM ltac:(by rewrite slot_ind)) as Hind. rewrite slot_ind in Hind.
  pose proof (io_free _ I) as Hf. pose proof bm_pos.
  assert (Hsec : 0 <= iaddr y NDIRECT < FSSIZE) by lia.
  unfold append_entry. rewrite !xint_id by (unfold FSSIZE in *; lia). erewrite mk_run by (by apply (rsect_run I)).
  pose proof (iblk_entry y (vv s) fbn ltac:(lia) Hi) as Hblk. rewrite vv_data in Hblk by lia.
  pose proof (Hp fbn ltac:(lia)) as Hpf. rewrite Hblk in Hpf.
  destruct (Z.eqb_spec (ld32 (m_img s (iaddr y NDIRECT)) (4 * (fbn - NDIRECT))) 0) as [Hz|Hz].
  - assert (k = fbn) as -> by (destruct Hk; [done|exfalso; apply Hpf in Hz; [done|lia]]).
    destruct (entry_new I F fbn Hb Hi ltac:(by rewrite Hblk) ltac:(lia)) as (s1 & r & Hrun & I1 & Em & Ei & Ef & G & Hr).
    pose proof (grown_extended bm_pos F G) as X. rewrite xint_id in Hrun by (unfold FSSIZE in *; lia).
    assert (E : ld32 (vv s1 (iaddr y NDIRECT)) (4 * (fbn - NDIRECT)) = iblk y (vv s1) fbn) by (rewrite iblk_entry by (done || lia); done).
    exists s1, (iblk y (vv s1) fbn). split_and!; try done.
    + erewrite mk_run by exact Hrun. rewrite E, xint_id; [done|].
      rewrite <-slot_blk by lia. apply (slot_small I1 (e_ok _ _ _ _ _ X)). lia.
    + lia.
    + split; [eapply (grown_packed _ _ _ _ _ _ _ _ G); [done|lia|done|done]|]. split; [lia|done].
  - assert (k = fbn + 1) as -> by (destruct Hk as [->|]; [exfalso; apply Hpf in Hz; lia|done]).
    exists s, (iblk y (vv s) fbn). split_and!; try done.
    + unfold mbind, mk_bind, mret, mk_ret. rewrite <-Hblk, xint_id; [done|].
      rewrite <-slot_blk by lia. apply (slot_small I F). lia.
    + lia.
    + by apply extended_refl.
    + split; [done|]. split; [lia|done].
Qed.

Lemma append_block_spec s y k fbn : imgok s -> file_ok sb2000 (vv s) y -> 0 <= fbn < MAXFILE ->
  packed y (vv s) k -> k = fbn \/ k = fbn + 1 -> freeblock s + (tot (fbn + 1) - tot k) <= FSSIZE ->
  exists s1 y1 r, append_block y fbn s = Done s1 (y1, r) /\ block_added k fbn s y s1 y1 r.
Proof.
  intros I F Hb Hp Hk Hroom. pose proof Hp as [Hp1 Hp2]. unfold append_block.
  destruct (Z.ltb_spec fbn NDIRECT) as [Hd|Hd].
  - destruct (slot_addr (s := s) (y := y) fbn ltac:(lia)) as [Es Hs]. pose proof (slot_small I F _ Hs) as Hsm. rewrite Es in Hsm.
    pose proof (Hp1 fbn Hb) as Hpf. unfold iblk in Hpf. rewrite (proj2 (Z.ltb_lt _ _)) in Hpf by done.
    unfold tot in Hroom. rewrite (proj2 (Z.ltb_ge NDIRECT (fbn + 1))), (proj2 (Z.ltb_ge NDIRECT k)) in Hroom by lia.
    rewrite xint_id by done. destruct (Z.eqb_spec (iaddr y fbn) 0) as [Hz|Hz].
    + assert (k = fbn) as -> by (destruct Hk; [done|exfalso; apply Hpf in Hz; [done|lia]]).
      destruct (addr_new I F fbn ltac:(lia) Hz ltac:(lia)) as (s1 & Hrun & I1 & Em & Ei & Ef & G & Hr).
      unfold addr_slot in G. rewrite (proj2 (Z.eqb_neq _ _)) in G by lia.
      exists s1, (iset_addr fbn (freeblock s) y), (freeblock s). split; [|apply added_direct; try done; lia].
      erewrite mk_run by exact Hrun. unfold mret, mk_ret. rewrite iaddr_set, Z.eqb_refl, xint_id; [done|].
      pose proof (io_free _ I) as Hf. change nmeta with 46 in Hf. unfold FSSIZE in *. lia.
    + assert (k = fbn + 1) as -> by (destruct Hk as [->|]; [exfalso; apply Hpf in Hz; lia|done]).
      exists s, y, (iaddr y fbn). split.
      * unfold mbind, mk_bind, mret, mk_ret. by rewrite xint_id.
      * apply added_none; try done. unfold iblk. by rewrite (proj2 (Z.ltb_lt _ _)).
  - change (exists s1 y1 r, (din ← (if xint (iaddr y NDIRECT) =? 0 then b ← next_block; mret (iset_addr NDIRECT (xint b) y) else mret y);
      append_entry din fbn) s = Done s1 (y1, r) /\ block_added k fbn s y s1 y1 r).
    pose proof (slot_small I F MAXFILE MAXFILE_in) as Hsm. rewrite slot_ind in Hsm. rewrite xint_id by done.
    assert (Ht : tot (fbn + 1) = fbn + 2) by (unfold tot; rewrite (proj2 (Z.ltb_lt _ _)) by lia; lia).
    destruct (Z.eqb_spec (iaddr y NDIRECT) 0) as [Hz|Hz].
    + assert (k = fbn /\ fbn = NDIRECT) as [-> ->].
      { assert (~ NDIRECT < k) by (rewrite <-Hp2; congruence). lia. }
      assert (Htk : tot NDIRECT = NDIRECT) by done. rewrite Ht, Htk in Hroom.
      destruct (addr_new I F NDIRECT ltac:(lia) Hz ltac:(lia)) as (s1 & Hrun & I1 & Em & Ei & Ef & G & Hr).
      unfold addr_slot in G. rewrite Z.eqb_refl in G. pose proof (grown_extended bm_pos F G) as X.
      set (y1 := iset_addr NDIRECT (freeblock s) y) in *.
      assert (Hp1' : forall bn, 0 <= bn < MAXFILE -> iblk y1 (vv s1) bn <> 0 <-> bn < NDIRECT).
      { intros bn Hbn. rewrite <-Hp1 by done. rewrite <-!slot_blk by lia. rewrite (g_slots _ _ _ _ _ _ _ G) by lia.
        by rewrite (proj2 (Z.eqb_neq _ _)) by lia. }
      assert (Hi1 : iaddr y1 NDIRECT <> 0) by (unfold y1; rewrite iaddr_set, Z.eqb_refl; done).
      destruct (append_entry_spec s1 y1 NDIRECT NDIRECT I1 (e_ok _ _ _ _ _ X) ltac:(lia) Hi1 Hp1' ltac:(by left) ltac:(lia))
        as (s2 & r & Hrun2 & I2 & Em2 & Ei2 & Ef2 & X2 & Er & P).
      exists s2, y1, r. split; [erewrite mk_run by exact Hrun; exact Hrun2|]. split; try done.
      * intros n Hn. rewrite Em2 by done. by rewrite Em.
      * congruence.
      * exact (extended_trans _ _ _ _ _ _ _ bm_pos F X X2).
      * rewrite Ht, Htk. lia.
    + assert (Hk' : NDIRECT < k) by (by apply Hp2).
      assert (Htk : tot k = k + 1) by (unfold tot; rewrite (proj2 (Z.ltb_lt _ _)) by lia; lia).
      destruct (append_entry_spec s y k fbn I F ltac:(lia) Hz Hp1 Hk ltac:(lia)) as (s1 & r & Hrun & I1 & Em & Ei & Ef & X & Er & P).
      exists s1, y, r. split; [exact Hrun|]. split; try done. lia.
Qed.

(** ** [iappend] *)

(** Blocks that hold [off] bytes. *)
Definition nb (off : Z) : Z := (off + BSIZE - 1) / BSIZE.

Lemma nb_block off : 0 <= off -> off mod BSIZE = 0 /\ nb off = off / BSIZE \/ off mod BSIZE <> 0 /\ nb off = off / BSIZE + 1.
Proof.
  intros Hoff. pose proof BSIZE_pos. pose proof (Z.mod_pos_bound off BSIZE BSIZE_pos). pose proof (Z.div_mod off BSIZE ltac:(lia)) as E.
  unfold nb. destruct (decide (off mod BSIZE = 0)) as [Hz|Hz]; [left|right]; (split; [done|]); symmetry.
  - apply (Z.div_unique_pos _ _ _ (BSIZE - 1)); lia.
  - apply (Z.div_unique_pos _ _ _ (off mod BSIZE - 1)); lia.
Qed.

Lemma nb_same off n : 0 <= off -> 0 < n <= BSIZE - off mod BSIZE -> nb (off + n) = off / BSIZE + 1.
Proof.
  intros Hoff Hn. pose proof BSIZE_pos. pose proof (Z.mod_pos_bound off BSIZE BSIZE_pos). pose proof (Z.div_mod off BSIZE ltac:(lia)) as E.
  unfold nb. symmetry. apply (Z.div_unique_pos _ _ _ (off mod BSIZE + n - 1)); lia.
Qed.

Lemma nb_mono a b : a <= b -> nb a <= nb b.
Proof. intros H. unfold nb. apply Z.div_le_mono; [apply BSIZE_pos|lia]. Qed.

Lemma tot_mono a b : a <= b -> tot a <= tot b.
Proof. intros H. unfold tot. destruct (Z.ltb_spec NDIRECT a), (Z.ltb_spec NDIRECT b); lia. Qed.

Record appended (off : Z) (bs : list Z) (s0 : mkst) (y0 : inode) (s : mkst) (y : inode) : Prop := {
  ap_img : imgok s;
  ap_meta n : n <= bm -> m_img s n = m_img s0 n;
  ap_inode : freeinode s = freeinode s0;
  ap_ev : evolved sb2000 y0 (vv s0) y (vv s);
  ap_byte o : 0 <= o < MAXFILE * BSIZE -> fbyte y (vv s) o =
    if decide (off <= o < off + len bs) then default 0 (bs !! Z.to_nat (o - off)) else fbyte y0 (vv s0) o;
  ap_packed : packed y (vv s) (nb (off + len bs));
  ap_free : freeblock s = freeblock s0 + (tot (nb (off + len bs)) - tot (nb off)) }.

Lemma splice_byte (bs1 bs2 : list Z) off o d :
  (if decide (off + len bs1 <= o < off + len bs1 + len bs2) then default 0 (bs2 !! Z.to_nat (o - (off + len bs1)))
   else if decide (off <= o < off + len bs1) then default 0 (bs1 !! Z.to_nat (o - off)) else d) =
  if decide (off <= o < off + len (bs1 ++ bs2)) then default 0 ((bs1 ++ bs2) !! Z.to_nat (o - off)) else d.
Proof.
  assert (Hlen : len (bs1 ++ bs2) = len bs1 + len bs2) by (unfold len; rewrite length_app; lia).
  assert (0 <= len bs1 /\ 0 <= len bs2) by (unfold len; lia). rewrite Hlen. repeat case_decide; try lia; try done.
  - f_equal. symmetry. rewrite lookup_app_r by (unfold len in *; lia). f_equal. unfold len in *. lia.
  - f_equal. symmetry. apply lookup_app_l. unfold len in *. lia.
Qed.

Lemma appended_trans off bs1 bs2 s1 y1 s2 y2 s3 y3 :
  appended off bs1 s1 y1 s2 y2 -> appended (off + len bs1) bs2 s2 y2 s3 y3 -> appended off (bs1 ++ bs2) s1 y1 s3 y3.
Proof.
  intros [I1 M1 N1 E1 B1 P1 F1] [I2 M2 N2 E2 B2 P2 F2].
  assert (Hlen : len (bs1 ++ bs2) = len bs1 + len bs2) by (unfold len; rewrite length_app; lia). split.
  - done.
  - intros n Hn. by rewrite M2, M1.
  - congruence.
  - by eapply evolved_trans.
  - intros o Ho. rewrite B2, B1 by done. apply splice_byte.
  - by rewrite Hlen, Z.add_assoc.
  - rewrite Hlen, Z.add_assoc. lia.
Qed.

Lemma appended_refl off s y : imgok s -> file_ok sb2000 (vv s) y -> packed y (vv s) (nb off) -> appended off [] s y s y.
Proof.
  intros I F P. split; try done.
  - by apply extended_evolved, extended_refl.
  - intros o Ho. rewrite decide_False by (unfold len; simpl; lia). done.
  - unfold len. simpl. by rewrite Z.add_0_r.
  - unfold len. simpl. rewrite Z.add_0_r. lia.
Qed.

(** One chunk. *)
Lemma appended_chunk s y s1 y1 r off chunk : file_ok sb2000 (vv s) y -> 0 <= off -> off / BSIZE < MAXFILE ->
  block_added (nb off) (off / BSIZE) s y s1 y1 r -> Forall byte chunk -> 0 < len chunk <= BSIZE - off mod BSIZE ->
  let d := store_bytes (m_img s1 r) (off mod BSIZE) chunk in
  let s2 := Mkst (fun m => if m =? r then d else m_img s1 m) FSSIZE (freeinode s1) (freeblock s1) in
  appended off chunk s y s2 y1 /\ 0 <= r < FSSIZE.
Proof.
  intros F Hoff Hlt [I1 Em Ei X Er P Ef] Hc Hlen d s2. pose proof (e_ok _ _ _ _ _ X) as F1.
  pose proof (Z.div_pos off BSIZE Hoff BSIZE_pos) as Hpos. pose proof (Z.mod_pos_bound off BSIZE BSIZE_pos) as Hmod.
  set (bn := off / BSIZE) in *. assert (Hn : iblk y1 (vv s1) bn <> 0) by (apply P; lia).
  assert (Hr : bm < r < freeblock s1). { rewrite Er, <-slot_blk by lia. apply slot_free; [done|done|lia|by rewrite slot_blk]. }
  pose proof bm_pos. pose proof (io_free _ I1) as Hf.
  assert (Ed : vv s1 r = m_img s1 r) by (apply vv_data; lia).
  set (p := Lspec (vv s1) (vv s1) [] ∅ 0).
  assert (Ev : forall n, vv s2 n = ls_view (ls_update (iblk y1 (ls_view p) bn) d p) n).
  { intros n. simpl. rewrite <-Er. unfold vv, s2. simpl. change bm with 45 in Hr.
    destruct (Z.eqb_spec n 45) as [->|]; [by rewrite (proj2 (Z.eqb_neq 45 r)) by lia|done]. }
  assert (Hbn : 0 <= bn < MAXFILE) by lia. pose proof (store_evolved (p := p) d F1 Hbn Hn) as Se.
  assert (Hd : is_blk d). { apply is_blk_store; [apply (io_blk _ I1); lia|lia|lia]. }
  split; [|lia]. split.
  - by apply imgok_store.
  - intros n Hle. simpl. rewrite (proj2 (Z.eqb_neq _ _)) by lia. by apply Em.
  - done.
  - eapply evolved_trans; [by apply extended_evolved|]. by apply (evolved_ext Ev).
  - intros o Ho. rewrite (fbyte_ext Ev), (store_byte (p := p) d F1 Hbn Hn o Ho).
    pose proof (chunk_byte y1 (vv s1) bn off chunk o Hn Hoff eq_refl Hc Hlen) as Hcb. rewrite <-Er, Ed in Hcb. fold d in Hcb.
    etrans; [exact Hcb|]. case_decide; [done|]. by apply (e_byte _ _ _ _ _ X).
  - rewrite nb_same by done. fold bn. destruct P as [P1 P2]. split; [|done].
    intros b Hb. rewrite (iblk_ext Ev), <-slot_blk, (store_slot (p := p) d F1 Hbn Hn), slot_blk by lia. by apply P1.
  - simpl. rewrite nb_same by done. exact Ef.
Qed.

Lemma iappend_loop_spec k : forall s y off p,
  imgok s -> file_ok sb2000 (vv s) y -> packed y (vv s) (nb off) -> 0 <= off -> off + len p <= MAXFILE * BSIZE ->
  Forall byte p -> len p <= Z.of_nat k -> freeblock s + (tot (nb (off + len p)) - tot (nb off)) <= FSSIZE ->
  exists s' y', iappend_loop y off p k s = Done s' (y', off + len p) /\ appended off p s y s' y'.
Proof.
  induction k as [|k IH]; intros s y off p I F P Hoff Hmax Hp Hk Hroom.
  { assert (p = []) as -> by (destruct p; [done|unfold len in Hk; simpl in Hk; lia]).
    exists s, y. split; [unfold len; simpl; by rewrite Z.add_0_r|by apply appended_refl]. }
  cbn [iappend_loop]. fold (len p). destruct (Z.ltb_spec 0 (len p)) as [Hpos|Hz].
  2: { assert (p = []) as -> by (destruct p; [done|unfold len in Hz; simpl in Hz; lia]).
    exists s, y. split; [unfold len; simpl; by rewrite Z.add_0_r|by apply appended_refl]. }
  pose proof BSIZE_pos. pose proof (Z.mod_pos_bound off BSIZE BSIZE_pos) as Hmod. pose proof (Z.div_mod off BSIZE ltac:(lia)) as Hdm.
  assert (Hb : 0 <= off / BSIZE < MAXFILE) by (apply file_block_range; lia).
  rewrite (proj2 (Z.ltb_lt _ _)) by lia. erewrite mk_run by done.
  replace ((off / BSIZE + 1) * BSIZE - off) with (BSIZE - off mod BSIZE) by lia. replace (off - off / BSIZE * BSIZE) with (off mod BSIZE) by lia.
  set (n1 := Z.min (len p) (BSIZE - off mod BSIZE)). assert (Hn1 : 0 < n1 <= BSIZE - off mod BSIZE /\ n1 <= len p) by lia.
  assert (Hkb : nb off = off / BSIZE \/ nb off = off / BSIZE + 1) by (destruct (nb_block off Hoff) as [[_ ?]|[_ ?]]; auto).
  pose proof (nb_same off n1 Hoff ltac:(lia)) as Hnb. pose proof (tot_mono _ _ (nb_mono (off + n1) (off + len p) ltac:(lia))) as Htm.
  destruct (append_block_spec s y (nb off) (off / BSIZE) I F Hb P Hkb ltac:(rewrite Hnb in Htm; lia)) as (s1 & y1 & r & Hrun & A).
  set (chunk := take (Z.to_nat n1) p). assert (Hc : len chunk = n1) by (unfold chunk, len in *; rewrite length_take; lia).
  destruct (appended_chunk s y s1 y1 r off chunk F Hoff ltac:(lia) A ltac:(by apply Forall_take) ltac:(lia)) as [Ap Hr].
  cbv zeta. erewrite mk_run by exact Hrun. simpl fst. simpl snd.
  erewrite mk_run by (by apply (rsect_run (ab_img _ _ _ _ _ _ _ A))).
  erewrite mk_run by (by apply (wsect_run (ab_img _ _ _ _ _ _ _ A))).
  set (s2 := Mkst _ _ _ _) in *. pose proof (ap_free _ _ _ _ _ _ Ap) as Hf. rewrite Hc in Hf.
  set (rest := drop (Z.to_nat n1) p). assert (Hrl : len rest = len p - n1) by (unfold rest, len in *; rewrite length_drop; lia).
  destruct (IH s2 y1 (off + n1) rest) as (s3 & y3 & Hrun3 & A3).
  - apply Ap.
  - apply (ev_ok _ _ _ _ _ (ap_ev _ _ _ _ _ _ Ap)).
  - rewrite <-Hc. apply Ap.
  - lia.
  - lia.
  - by apply Forall_drop.
  - lia.
  - rewrite Hrl, Hf. replace (off + n1 + (len p - n1)) with (off + len p) by lia. lia.
  - exists s3, y3. split; [rewrite Hrun3, Hrl; do 2 f_equal; lia|].
    rewrite <-(take_drop (Z.to_nat n1) p). fold chunk. fold rest. eapply appended_trans; [exact Ap|]. by rewrite Hc.
Qed.
