(* ===== verification/MkfsInv.v ===== *)
(** * The files of the image

    The inodes that mkfs has made so far, their contents, and that [ialloc] and
    [iappend] change one file at a time. *)

From S2P Require Import Prelude Machine Sleeplock Mem Layout Kalloc Vm VmCopy Bio FsHdr Log LogDisk LogTheorems Printf Fs FsLogic FsBitmap FsFile FsRead FsWrite FsContent FsInode Mkfs MkfsSpec.

Lemma keep_packed {sb v v' y} (F : file_ok sb v y)
  (K : forall s, 0 <= s <= MAXFILE -> slot y v s <> 0 -> v' (slot y v s) = v (slot y v s)) k : packed y v k -> packed y v' k.
Proof. intros [P1 P2]. split; [|done]. intros bn Hbn. rewrite (keep_iblk F K) by lia. by apply P1. Qed.

Lemma same_packed {y y'} (E : same_dinode y y') v k : packed y v k -> packed y' v k.
Proof.
  intros [P1 P2]. assert (HN : 0 <= NDIRECT <= NDIRECT) by done. split; [|by rewrite (sd_addr _ _ E NDIRECT HN)].
  intros bn Hb. rewrite (same_iblk E) by lia. by apply P1.
Qed.

(** ** Inodes in the image *)

(** What [rinode] reads. *)
Definition rd (s : mkst) (i : Z) : inode := dinode_read (m_img s (IBLOCK i sb2000)) (dinode_off i) blank.

Lemma IBLOCK_val i : 0 <= i < NINODES -> IBLOCK i sb2000 = i / IPB + 32.
Proof.
  intros Hi. unfold IBLOCK. change (sb_inodestart sb2000) with 32. unfold NINODES in Hi. change IPB with 16.
  rewrite u32_small; [done|]. Z.to_euclidean_division_equations. lia.
Qed.

Lemma inode_block i : 0 <= i < NINODES -> 2 + nlog <= IBLOCK i sb2000 < bm.
Proof.
  intros Hi. rewrite IBLOCK_val by done. change IPB with 16. change (2 + nlog) with 32. change bm with 45.
  unfold NINODES in Hi. Z.to_euclidean_division_equations. lia.
Qed.

(** The state after [winode]. *)
Record written (i : Z) (y : inode) (s s' : mkst) : Prop := {
  wn_img : imgok s';
  wn_inode : freeinode s' = freeinode s;
  wn_free : freeblock s' = freeblock s;
  wn_out n : n <> IBLOCK i sb2000 -> m_img s' n = m_img s n;
  wn_other j : 0 <= j < NINODES -> j <> i -> rd s' j = rd s j;
  wn_same : same_dinode y (rd s' i) }.

Lemma written_run i y s : imgok s -> 0 <= i < NINODES -> dinode_fits y -> i_dev y = ROOTDEV ->
  exists s', winode i y s = Done s' tt /\ written i y s s'.
Proof.
  intros I Hi Hf Hd. pose proof (inode_block i Hi) as Hb. assert (Hr : 0 <= IBLOCK i sb2000 < FSSIZE) by (change bm with 45 in Hb; unfold FSSIZE; change (2 + nlog) with 32 in Hb; lia).
  destruct (dinode_off_range i ltac:(lia)) as [Ho1 Ho2]. unfold winode. rewrite mk_sb_val. cbv zeta.
  eexists. split; [erewrite mk_run by (by apply rsect_run); by apply wsect_run|]. pose proof (io_free _ I) as Hfree. change nmeta with 46 in Hfree. split; try done.
  - split; simpl; [done|apply I|..].
    + intros n Hn. case_match; [|by apply I]. apply is_blk_dinode_write; try done. by apply I.
    + intros n Hn. change bm with 45 in Hb. destruct (Z.eqb_spec n (IBLOCK i sb2000)); [lia|]. by apply I.
  - intros n Hn. simpl. by rewrite (proj2 (Z.eqb_neq _ _)).
  - intros j Hj Hne. unfold rd. simpl. destruct (Z.eqb_spec (IBLOCK j sb2000) (IBLOCK i sb2000)) as [E|]; [|done].
    rewrite E. apply dinode_read_ext. intros b Hbb. apply dinode_write_out.
    assert (i mod IPB <> j mod IPB) by (rewrite !IBLOCK_val in E by done; change IPB with 16 in *; Z.to_euclidean_division_equations; lia).
    destruct (dinode_offs i j ltac:(lia) ltac:(lia) ltac:(done)); lia.
  - unfold rd. simpl. rewrite Z.eqb_refl. destruct (dinode_read_write y blank (m_img s (IBLOCK i sb2000)) (dinode_off i) Hf) as [H1 H2].
    injection H1 as H3 H4 H5 H6 H7. by split.
Qed.

(** ** The invariant *)

(** Inode [i] is a file of type [t] with contents [c]; its last block ends in zeros. *)
Record file_in (s : mkst) (i t : Z) (c : list Z) : Prop := {
  fi_ok : file_ok sb2000 (vv s) (rd s i);
  fi_packed : packed (rd s i) (vv s) (nb (i_size (rd s i)));
  fi_fits : dinode_fits (rd s i);
  fi_type : i_type (rd s i) = t;
  fi_nlink : i_nlink (rd s i) = 1;
  fi_content : content (rd s i) (vv s) = c;
  fi_tail o : i_size (rd s i) <= o < MAXFILE * BSIZE -> fbyte (rd s i) (vv s) o = 0 }.

Definition apart (s : mkst) (i j : Z) : Prop :=
  forall a b, 0 <= a <= MAXFILE -> 0 <= b <= MAXFILE ->
  slot (rd s i) (vv s) a <> 0 -> slot (rd s i) (vv s) a <> slot (rd s j) (vv s) b.

Definition boot_block (n : Z) : mem := if n =? 1 then sb_block sb2000 else zero_block.

Record mkinv (s : mkst) (T : Z -> Z) (C : Z -> list Z) : Prop := {
  mi_img : imgok s;
  mi_count : 1 <= freeinode s <= NINODES;
  mi_file i : 1 <= i < freeinode s -> file_in s i (T i) (C i);
  mi_apart i j : 1 <= i < freeinode s -> 1 <= j < freeinode s -> i <> j -> apart s i j;
  mi_unused i : freeinode s <= i < NINODES -> i_type (rd s i) = 0;
  mi_boot n : 0 <= n < 2 + nlog -> m_img s n = boot_block n }.

Lemma apart_sym s i j : apart s i j -> apart s j i.
Proof. intros H a b Ha Hb Hn E. apply (H b a); try done; congruence. Qed.

Lemma file_in_size s i t c : file_in s i t c -> i_size (rd s i) = len c.
Proof.
  intros F. pose proof (fo_size _ _ _ (fi_ok _ _ _ _ F)). rewrite <-(fi_content _ _ _ _ F). unfold len.
  rewrite content_length; lia.
Qed.

(** The other files keep their blocks. *)
Record kept (s s' : mkst) (j : Z) : Prop := {
  kp_rd : rd s' j = rd s j;
  kp_blocks a : 0 <= a <= MAXFILE -> slot (rd s j) (vv s) a <> 0 -> vv s' (slot (rd s j) (vv s) a) = vv s (slot (rd s j) (vv s) a);
  kp_used n : used sb2000 (vv s) n = true -> used sb2000 (vv s') n = true }.

Lemma kept_slot s s' j t c a : file_in s j t c -> kept s s' j -> slot (rd s' j) (vv s') a = slot (rd s j) (vv s) a.
Proof. intros F [E K U]. rewrite E. apply (keep_slot (fi_ok _ _ _ _ F) K). Qed.

Lemma kept_file s s' j t c : file_in s j t c -> kept s s' j -> file_in s' j t c.
Proof.
  intros F [E K U]. pose proof (fi_ok _ _ _ _ F) as O. pose proof (fo_size _ _ _ O). split; rewrite ?E.
  - by apply (keep_ok O K U).
  - apply (keep_packed O K), F.
  - apply F.
  - apply (fi_type _ _ _ _ F).
  - apply (fi_nlink _ _ _ _ F).
  - rewrite (keep_content O K). apply (fi_content _ _ _ _ F).
  - intros o Ho. rewrite (keep_byte O K) by lia. by apply (fi_tail _ _ _ _ F).
Qed.

Lemma kept_apart s s' i j t c t' c' : file_in s i t c -> file_in s j t' c' -> kept s s' i -> kept s s' j ->
  apart s i j -> apart s' i j.
Proof. intros Fi Fj Ki Kj H a b Ha Hb. rewrite (kept_slot _ _ _ _ _ _ Fi Ki), (kept_slot _ _ _ _ _ _ Fj Kj). by apply H. Qed.

(** [winode] of another inode keeps a file. *)
Lemma written_vv i y s s' n : 0 <= i < NINODES -> written i y s s' -> bm <= n -> vv s' n = vv s n.
Proof.
  intros Hi W Hn. unfold vv. rewrite (wn_free _ _ _ _ W). case_match; [done|]. apply W. pose proof (inode_block i Hi). lia.
Qed.

Lemma written_kept i y s s' j t c : 0 <= i < NINODES -> 0 <= j < NINODES -> j <> i -> written i y s s' -> file_in s j t c -> kept s s' j.
Proof.
  intros Hi Hj Hne W F. split.
  - by apply W.
  - intros a Ha Hn. apply (written_vv i y); try done. pose proof (slot_sector _ _ _ (fi_ok _ _ _ _ F) Ha Hn). lia.
  - intros n. unfold used. by rewrite (written_vv i y s s' bm) by (done || lia).
Qed.

Lemma rinode_run s i : imgok s -> 0 <= i < NINODES -> rinode i s = Done s (rd s i).
Proof.
  intros I Hi. pose proof (inode_block i Hi) as Hb. unfold rinode. rewrite mk_sb_val. erewrite mk_run; [done|].
  apply (rsect_run I). change bm with 45 in Hb. change (2 + nlog) with 32 in Hb. unfold FSSIZE. lia.
Qed.

(** ** The file that [winode] writes *)

Section written.
Context {i : Z} {y : inode} {s s' : mkst} (Hi : 0 <= i < NINODES) (W : written i y s s') (F : file_ok sb2000 (vv s) y).

Lemma written_keep a : 0 <= a <= MAXFILE -> slot y (vv s) a <> 0 -> vv s' (slot y (vv s) a) = vv s (slot y (vv s) a).
Proof using Hi W F. intros Ha Hn. apply (written_vv i y); try done. pose proof (slot_sector _ _ _ F Ha Hn). lia. Qed.

Lemma written_used n : used sb2000 (vv s') n = used sb2000 (vv s) n.
Proof using Hi W. unfold used. by rewrite (written_vv i y s s' bm) by (done || lia). Qed.

Lemma written_slot a : 0 <= a -> slot (rd s' i) (vv s') a = slot y (vv s) a.
Proof using Hi W F. intros Ha. rewrite (same_slot (wn_same _ _ _ _ W)) by done. apply (keep_slot F written_keep). Qed.

Lemma written_file : packed y (vv s) (nb (i_size y)) -> dinode_fits y -> i_nlink y = 1 ->
  (forall o, i_size y <= o < MAXFILE * BSIZE -> fbyte y (vv s) o = 0) ->
  file_in s' i (i_type y) (content y (vv s)).
Proof using Hi W F.
  intros P D N Z0. pose proof (wn_same _ _ _ _ W) as E. pose proof E as [Et Ema Emi Enl Es _ _].
  pose proof (fo_size _ _ _ F). split.
  - apply (same_ok E), (keep_ok F written_keep). intros n. by rewrite written_used.
  - rewrite Es. apply (same_packed E), (keep_packed F written_keep), P.
  - destruct D. split; rewrite ?Et, ?Ema, ?Emi, ?Enl, ?Es; try done. intros k Hk. rewrite (sd_addr _ _ E) by done. auto.
  - done.
  - by rewrite Enl.
  - rewrite (same_content E). apply (keep_content F written_keep).
  - rewrite Es. intros o Ho. rewrite (same_byte E), (keep_byte F written_keep) by lia. by apply Z0.
Qed.
End written.

(** ** [iappend] *)

Lemma appended_size off bs s y s1 y1 : 0 <= off -> file_ok sb2000 (vv s) y -> off = i_size y -> off + len bs <= MAXFILE * BSIZE ->
  appended off bs s y s1 y1 -> file_ok sb2000 (vv s1) (iset_size (off + len bs) y1).
Proof.
  intros Hoff F Es Hmax A. apply file_ok_size; [apply A|unfold len in *; lia|]. intros bn H0 Hbn.
  assert (bn < MAXFILE) by (unfold BSIZE in *; lia). apply (ap_packed _ _ _ _ _ _ A); [lia|]. unfold nb.
  apply (Z.lt_le_trans _ (bn + 1)); [lia|]. apply Z.div_le_lower_bound; unfold BSIZE in *; lia.
Qed.

Lemma appended_content off bs s y s1 y1 : file_ok sb2000 (vv s) y -> off = i_size y -> off + len bs <= MAXFILE * BSIZE ->
  appended off bs s y s1 y1 -> content (iset_size (off + len bs) y1) (vv s1) = content y (vv s) ++ bs.
Proof.
  intros F -> Hmax A. pose proof (fo_size _ _ _ F). pose proof (content_length y (vv s) ltac:(lia)) as Hl.
  rewrite (content_splice y (vv s) _ _ (i_size y) bs); [|lia|done|done|simpl; unfold len in *; lia|apply A].
  unfold splice. rewrite take_ge, drop_ge by (unfold len; lia). by rewrite app_nil_r.
Qed.

Lemma appended_fits s y s1 y1 off bs sz : imgok s1 -> dinode_fits y -> 0 <= sz < 2 ^ 32 ->
  appended off bs s y s1 y1 -> dinode_fits (iset_size sz y1).
Proof.
  intros I D Hsz A. pose proof (ev_fields _ _ _ _ _ (ap_ev _ _ _ _ _ _ A)) as Ef. pose proof (ev_ok _ _ _ _ _ (ap_ev _ _ _ _ _ _ A)) as F.
  destruct D. split; [rewrite Ef; done..|done|]. intros i Hi. change (0 <= iaddr y1 i < 2 ^ 32). destruct (slot_addr (y := y1) (s := s1) i Hi) as [<- Ha].
  by apply (slot_small I F).
Qed.

Definition upd {A} (f : Z -> A) (i : Z) (x : A) (j : Z) : A := if j =? i then x else f j.

Lemma kept_trans s s1 s2 j t c : file_in s j t c -> kept s s1 j -> kept s1 s2 j -> kept s s2 j.
Proof.
  intros F K1 K2. split.
  - by rewrite (kp_rd _ _ _ K2), (kp_rd _ _ _ K1).
  - intros a Ha Hn. rewrite <-(kp_blocks _ _ _ K1) by done. rewrite <-(kept_slot _ _ _ _ _ a F K1) in *. by apply K2.
  - intros n Hn. by apply K2, K1.
Qed.

(** A step that changes one file. *)
Record changed (s s' : mkst) (i : Z) : Prop := {
  ch_img : imgok s';
  ch_inode : freeinode s' = freeinode s;
  ch_boot n : 0 <= n < 2 + nlog -> m_img s' n = m_img s n;
  ch_rd j : 0 <= j < NINODES -> j <> i -> rd s' j = rd s j;
  ch_kept j : 1 <= j < freeinode s -> j <> i -> kept s s' j;
  ch_slot a : 0 <= a <= MAXFILE -> slot (rd s' i) (vv s') a <> 0 ->
    slot (rd s' i) (vv s') a = slot (rd s i) (vv s) a \/ used sb2000 (vv s) (slot (rd s' i) (vv s') a) = false }.

Lemma changed_apart s s' T C i j : mkinv s T C -> changed s s' i -> 1 <= i < freeinode s -> 1 <= j < freeinode s -> j <> i -> apart s' i j.
Proof.
  intros V H Hi Hj Hne a b Ha Hb Hn. pose proof (mi_file _ _ _ V j Hj) as Fj. rewrite (kept_slot _ _ _ _ _ b Fj (ch_kept _ _ _ H j Hj Hne)).
  destruct (ch_slot _ _ _ H a Ha Hn) as [E|E].
  - rewrite E in *. by apply (mi_apart _ _ _ V).
  - intros E2. rewrite E2 in *. destruct (fo_slot _ _ _ (fi_ok _ _ _ _ Fj) b Hb Hn) as [_ Hu]. congruence.
Qed.

Lemma changed_inv s s' T C i t c : mkinv s T C -> changed s s' i -> 1 <= i < freeinode s -> file_in s' i t c ->
  mkinv s' (upd T i t) (upd C i c).
Proof.
  intros V H Hi F. pose proof (mi_count _ _ _ V). split; rewrite ?(ch_inode _ _ _ H).
  - apply H.
  - done.
  - intros j Hj. unfold upd. destruct (Z.eqb_spec j i) as [->|Hne]; [done|].
    eapply kept_file; [by apply V|by apply H].
  - intros j k Hj Hk Hne. destruct (Z.eq_dec j i) as [->|Hji]; [by eapply changed_apart; eauto|].
    destruct (Z.eq_dec k i) as [->|Hki]; [by eapply apart_sym, changed_apart; eauto|].
    eapply kept_apart; [by apply V|by apply V|by apply H|by apply H|by apply V].
  - intros j Hj. rewrite (ch_rd _ _ _ H) by lia. by apply V.
  - intros n Hn. rewrite (ch_boot _ _ _ H) by done. by apply V.
Qed.

Lemma appended_kept s T C i j off bs s1 y1 : mkinv s T C -> 1 <= i < freeinode s -> 1 <= j < freeinode s -> j <> i ->
  appended off bs s (rd s i) s1 y1 -> kept s s1 j.
Proof.
  intros V Hi Hj Hne A. pose proof (mi_count _ _ _ V). pose proof (ap_ev _ _ _ _ _ _ A) as E. split.
  - unfold rd. rewrite (ap_meta _ _ _ _ _ _ A); [done|]. pose proof (inode_block j ltac:(lia)). lia.
  - intros a Ha Hn. pose proof (fi_ok _ _ _ _ (mi_file _ _ _ V j Hj)) as O. pose proof (slot_sector _ _ _ O Ha Hn).
    pose proof bm_pos. apply (ev_frame _ _ _ _ _ E); [lia|by apply O|lia|]. intros b Hb. by apply (mi_apart _ _ _ V).
  - apply E.
Qed.

Lemma appended_changed s T C i off bs s1 y1 sz s2 : mkinv s T C -> 1 <= i < freeinode s ->
  appended off bs s (rd s i) s1 y1 -> file_ok sb2000 (vv s1) (iset_size sz y1) -> written i (iset_size sz y1) s1 s2 -> changed s s2 i.
Proof.
  intros V Hi A F W. pose proof (mi_count _ _ _ V). pose proof (ap_ev _ _ _ _ _ _ A) as E. assert (Hi' : 0 <= i < NINODES) by lia. split.
  - apply W.
  - by rewrite (wn_inode _ _ _ _ W), (ap_inode _ _ _ _ _ _ A).
  - intros n Hn. pose proof (inode_block i Hi'). rewrite (wn_out _ _ _ _ W), (ap_meta _ _ _ _ _ _ A) by lia. done.
  - intros j Hj Hne. rewrite (wn_other _ _ _ _ W) by done. unfold rd. rewrite (ap_meta _ _ _ _ _ _ A); [done|]. pose proof (inode_block j Hj). lia.
  - intros j Hj Hne. pose proof (appended_kept _ _ _ _ _ _ _ _ _ V Hi Hj Hne A) as K1. pose proof (mi_file _ _ _ V j Hj) as Fj.
    eapply kept_trans; [done|done|]. eapply written_kept; [done| |done|done|by eapply kept_file]. lia.
  - intros a Ha. rewrite (written_slot Hi' W F) by lia. change (slot (iset_size sz y1) (vv s1) a) with (slot y1 (vv s1) a). intros Hn.
    destruct (Z.eq_dec (slot (rd s i) (vv s) a) 0) as [E0|E0].
    + destruct (ev_new _ _ _ _ _ E a Ha E0) as [|]; [done|by right].
    + left. by apply (ev_slot _ _ _ _ _ E).
Qed.

Lemma mkinv_ext s T C T' C' : (forall j, 1 <= j < freeinode s -> T' j = T j /\ C' j = C j) -> mkinv s T C -> mkinv s T' C'.
Proof. intros E V. split; try apply V. intros j Hj. destruct (E j Hj) as [-> ->]. by apply V. Qed.

Lemma upd_same {A} (f : Z -> A) i j : upd f i (f i) j = f j.
Proof. unfold upd. by destruct (Z.eqb_spec j i) as [->|]. Qed.

Lemma appended_file s i t c bs s1 y1 s2 : 0 <= i < NINODES -> file_in s i t c -> len c + len bs <= MAXFILE * BSIZE ->
  appended (len c) bs s (rd s i) s1 y1 -> dinode_fits (iset_size (len c + len bs) y1) ->
  file_ok sb2000 (vv s1) (iset_size (len c + len bs) y1) -> written i (iset_size (len c + len bs) y1) s1 s2 -> file_in s2 i t (c ++ bs).
Proof.
  intros Hi F Hmax A D F1 W. pose proof (file_in_size _ _ _ _ F) as Es. pose proof (fi_ok _ _ _ _ F) as O.
  pose proof (ev_fields _ _ _ _ _ (ap_ev _ _ _ _ _ _ A)) as Ef. assert (0 <= len c /\ 0 <= len bs) by (unfold len; lia).
  pose proof (written_file Hi W F1) as G. rewrite (appended_content _ _ _ _ _ _ O (eq_sym Es) Hmax A), (fi_content _ _ _ _ F) in G.
  replace t with (i_type (iset_size (len c + len bs) y1)) by (rewrite Ef; apply (fi_type _ _ _ _ F)). apply G; clear G.
  - apply (ap_packed _ _ _ _ _ _ A).
  - done.
  - rewrite Ef. apply (fi_nlink _ _ _ _ F).
  - intros o Ho. change (fbyte y1 (vv s1) o = 0). cbn [i_size iset_size iset_fields] in Ho.
    rewrite (ap_byte _ _ _ _ _ _ A), decide_False by lia. apply (fi_tail _ _ _ _ F). lia.
Qed.

(** Bytes are appended to one file, and no other file changes. *)
Lemma iappend_inv s T C i bs : mkinv s T C -> 1 <= i < freeinode s -> Forall byte bs ->
  len (C i) + len bs <= MAXFILE * BSIZE ->
  freeblock s + (tot (nb (len (C i) + len bs)) - tot (nb (len (C i)))) <= FSSIZE ->
  exists s', iappend i bs s = Done s' tt /\ mkinv s' T (upd C i (C i ++ bs)) /\ freeinode s' = freeinode s /\
    freeblock s' = freeblock s + (tot (nb (len (C i) + len bs)) - tot (nb (len (C i)))).
Proof.
  intros V Hi Hb Hmax Hroom. pose proof (mi_count _ _ _ V). assert (Hi' : 0 <= i < NINODES) by lia.
  pose proof (mi_file _ _ _ V i Hi) as F. pose proof (file_in_size _ _ _ _ F) as Es. pose proof (fi_ok _ _ _ _ F) as O.
  assert (H0 : 0 <= len (C i)) by (unfold len; lia). assert (HM : MAXFILE * BSIZE < 2 ^ 32) by (vm_compute; reflexivity).
  assert (H1 : 0 <= len bs) by (unfold len; lia). pose proof (fi_packed _ _ _ _ F) as P. rewrite Es in P.
  destruct (iappend_loop_spec (length bs) s (rd s i) (len (C i)) bs (mi_img _ _ _ V) O P H0 Hmax Hb ltac:(unfold len; lia) Hroom) as (s1 & y1 & Hrun & A).
  pose proof (appended_size _ _ _ _ _ _ H0 O (eq_sym Es) Hmax A) as F1.
  pose proof (appended_fits _ _ _ _ _ _ (len (C i) + len bs) (ap_img _ _ _ _ _ _ A) (fi_fits _ _ _ _ F) ltac:(lia) A) as D1.
  destruct (written_run i (iset_size (len (C i) + len bs) y1) s1 (ap_img _ _ _ _ _ _ A) Hi' D1 (fo_dev _ _ _ F1)) as (s2 & Hrun2 & W).
  pose proof (appended_changed _ _ _ _ _ _ _ _ _ _ V Hi A F1 W) as Hch.
  exists s2. split_and!.
  - unfold iappend. erewrite mk_run by (by apply rinode_run; [apply V|]). rewrite xint_id, Es by lia.
    erewrite mk_run by exact Hrun. cbn [fst snd]. by rewrite xint_id by lia.
  - eapply mkinv_ext; [|by eapply changed_inv, appended_file]. intros j Hj. by rewrite upd_same.
  - by rewrite (ch_inode _ _ _ Hch).
  - by rewrite (wn_free _ _ _ _ W), (ap_free _ _ _ _ _ _ A).
Qed.

(** ** [ialloc] *)

Definition fresh_inode (t : Z) : inode := iset_fields t 0 0 1 0 ∅ blank.

Lemma fresh_slot t v a : slot (fresh_inode t) v a = 0.
Proof. unfold slot, iblk, iaddr. simpl. rewrite !lookup_empty. simpl. by repeat case_match. Qed.

Lemma fresh_iblk t v bn : iblk (fresh_inode t) v bn = 0.
Proof. unfold iblk, iaddr. simpl. rewrite !lookup_empty. simpl. by repeat case_match. Qed.

Lemma fresh_ok t sb v : file_ok sb v (fresh_inode t).
Proof.
  split; [done|..].
  - intros s _. by rewrite fresh_slot.
  - intros s s' _ _. by rewrite fresh_slot.
  - simpl. split; [done|]. vm_compute. discriminate.
  - simpl. intros bn. unfold BSIZE. lia.
Qed.

Lemma fresh_fits t : 0 <= t < 2 ^ 15 -> dinode_fits (fresh_inode t).
Proof. intros Ht. split; try done. simpl. lia. Qed.

Lemma fresh_file t i s s' : 0 <= i < NINODES -> 0 <= t < 2 ^ 15 -> written i (fresh_inode t) s s' -> file_in s' i t [].
Proof.
  intros Hi Ht W. apply (written_file Hi W (fresh_ok t _ _)); [|by apply fresh_fits|done|].
  - split; [|done]. intros bn Hbn. rewrite fresh_iblk. change (nb (i_size (fresh_inode t))) with 0. lia.
  - intros o _. unfold fbyte. by rewrite fresh_iblk.
Qed.

Lemma xshort_id z : 0 <= z < 2 ^ 16 -> xshort z = z.
Proof. intros Hz. unfold xshort. by apply ld_le_st_le_same. Qed.

Lemma ialloc_inv s T C t : mkinv s T C -> freeinode s < NINODES -> 0 <= t < 2 ^ 15 ->
  exists s', mk_ialloc t s = Done s' (freeinode s) /\ mkinv s' (upd T (freeinode s) t) (upd C (freeinode s) []) /\
    freeinode s' = freeinode s + 1 /\ freeblock s' = freeblock s.
Proof.
  intros V Hn Ht. pose proof (mi_count _ _ _ V) as Hc. set (i := freeinode s) in *. assert (Hi : 0 <= i < NINODES) by lia.
  set (s0 := Mkst (m_img s) (m_nsec s) (i + 1) (freeblock s)).
  assert (I0 : imgok s0) by (split; apply V).
  destruct (written_run i (fresh_inode t) s0 I0 Hi (fresh_fits t Ht) eq_refl) as (s' & Hrun & W).
  pose proof (fresh_file t i s0 s' Hi Ht W) as F. pose proof (wn_inode _ _ _ _ W) as Hin. cbn [s0 freeinode] in Hin.
  assert (K : forall j, 1 <= j < i -> kept s s' j).
  { intros j Hj. assert (Fj : file_in s0 j (T j) (C j)) by (by destruct (mi_file _ _ _ V j Hj)).
    by destruct (written_kept i (fresh_inode t) s0 s' j (T j) (C j) Hi ltac:(lia) ltac:(lia) W Fj). }
  assert (Z0 : forall j, 1 <= j < i -> apart s' i j).
  { intros j Hj a b Ha Hb. rewrite (written_slot Hi W (fresh_ok _ _ _)), fresh_slot by lia. done. }
  exists s'. split_and!; [| |done|apply (wn_free _ _ _ _ W)].
  - unfold mk_ialloc. rewrite u32_small by (unfold NINODES in *; lia). rewrite (xshort_id t) by lia. erewrite mk_run by exact Hrun. done.
  - split.
    + apply W.
    + lia.
    + intros j Hj. unfold upd. destruct (Z.eqb_spec j i) as [->|Hne]; [done|]. assert (1 <= j < i) by lia. eapply kept_file; [by apply V|by apply K].
    + intros j k Hj Hk Hne. destruct (Z.eq_dec j i) as [->|Hji]; [apply Z0; lia|].
      destruct (Z.eq_dec k i) as [->|Hki]; [apply apart_sym, Z0; lia|]. assert (1 <= j < i /\ 1 <= k < i) as [? ?] by lia.
      eapply kept_apart; [by apply V|by apply V|by apply K|by apply K|by apply V].
    + intros j Hj. rewrite (wn_other _ _ _ _ W) by lia. apply (mi_unused _ _ _ V). lia.
    + intros n Hnn. pose proof (inode_block i Hi). rewrite (wn_out _ _ _ _ W) by lia. by apply V.
Qed.

(** ** Several appends *)

Lemma len_app (l k : list Z) : len (l ++ k) = len l + len k.
Proof. unfold len. rewrite length_app. lia. Qed.

Lemma mk_upd_upd {A} (f : Z -> A) i x x' j : upd (upd f i x) i x' j = upd f i x' j.
Proof. unfold upd. by case_match. Qed.

Lemma upd_at {A} (f : Z -> A) i x : upd f i x i = x.
Proof. unfold upd. by rewrite Z.eqb_refl. Qed.

Lemma upd_ne {A} (f : Z -> A) i x j : j <> i -> upd f i x j = f j.
Proof. intros H. unfold upd. by rewrite (proj2 (Z.eqb_neq _ _)). Qed.

Lemma append_all_inv i chunks : forall s T C, mkinv s T C -> 1 <= i < freeinode s -> Forall (Forall byte) chunks ->
  len (C i) + len (concat chunks) <= MAXFILE * BSIZE ->
  freeblock s + (tot (nb (len (C i) + len (concat chunks))) - tot (nb (len (C i)))) <= FSSIZE ->
  exists s', append_all i chunks s = Done s' tt /\ mkinv s' T (upd C i (C i ++ concat chunks)) /\ freeinode s' = freeinode s /\
    freeblock s' = freeblock s + (tot (nb (len (C i) + len (concat chunks))) - tot (nb (len (C i)))).
Proof.
  induction chunks as [|c chunks IH]; intros s T C V Hi Hb Hmax Hroom; cbn [append_all concat] in *.
  - exists s. change (len []) with 0. rewrite Z.add_0_r, app_nil_r, Z.sub_diag. split_and!; try done; [|lia].
    eapply mkinv_ext; [|exact V]. intros j _. by rewrite upd_same.
  - inversion Hb as [|? ? Hc Hcs]; subst. rewrite len_app in *.
    assert (0 <= len c /\ 0 <= len (concat chunks)) as [? ?] by (unfold len; lia).
    pose proof (tot_mono _ _ (nb_mono (len (C i) + len c) (len (C i) + (len c + len (concat chunks))) ltac:(lia))).
    destruct (iappend_inv s T C i c V Hi Hc ltac:(lia) ltac:(lia)) as (s1 & Hrun1 & V1 & Hfi & Hfb).
    destruct (IH s1 T _ V1) as (s2 & Hrun2 & V2 & Hfi2 & Hfb2); rewrite ?upd_at, ?len_app in *; [lia|done|lia|rewrite <-Z.add_assoc; lia|].
    exists s2. split_and!; [by erewrite mk_run by exact Hrun1| |lia|rewrite <-Z.add_assoc in *; lia].
    eapply mkinv_ext; [|exact V2]. intros j _. by rewrite mk_upd_upd, app_assoc.
Qed.
