(* ===== verification/MkfsTheorems.v ===== *)
(** * The image that mkfs makes

    mkfs makes, out of the files of the host, an image that the kernel boots from,
    in which it finds the files. *)

From S2P Require Import Prelude Machine Sleeplock Mem Layout Kalloc Vm VmCopy Bio FsHdr Log LogDisk LogTheorems Printf Fs FsLogic FsBitmap FsFile FsRead FsWrite FsContent FsInode Mkfs MkfsSpec MkfsInv.

(** A file for the image: its name there and its contents. *)
Definition hfile : Type := list Z * list Z.

(** The host's file for an argument of mkfs. *)
Definition supplied (host : list Z -> option (list (list Z))) (arg : list Z) (f : hfile) : Prop :=
  slash ∉ shortname arg /\ Forall byte (skip_underscore (shortname arg)) /\ f.1 = skip_underscore (shortname arg) /\
  exists chunks, host arg = Some chunks /\ Forall (Forall byte) chunks /\ f.2 = concat chunks.

(** The directory entries of files whose inodes are [i], [i + 1], ... *)
Fixpoint dirents (i : Z) (fs : list hfile) : list Z :=
  match fs with
  | [] => []
  | f :: fs => mk_dirent i f.1 ++ dirents (i + 1) fs
  end.

(** The blocks that the contents [c] take. *)
Definition blocks (c : list Z) : Z := tot (nb (len c)).

Fixpoint blocks_all (fs : list hfile) : Z :=
  match fs with
  | [] => 0
  | f :: fs => blocks f.2 + blocks_all fs
  end.

Lemma blocks_nonneg c : 0 <= blocks c.
Proof.
  unfold blocks, tot. assert (0 <= nb (len c)).
  { unfold nb, len, BSIZE. apply Z.div_pos; lia. }
  case_match; lia.
Qed.

Lemma blocks_all_nonneg fs : 0 <= blocks_all fs.
Proof. induction fs as [|f fs IH]; simpl; [done|]. pose proof (blocks_nonneg f.2). lia. Qed.

Lemma length_strncpy_chars n : forall t, length (strncpy_chars t n) = n.
Proof.
  induction n as [|n IH]; intros t; [done|]. cbn [strncpy_chars]. case_match; [apply length_replicate|]. simpl. by rewrite IH.
Qed.

Lemma strncpy_chars_bytes n : forall t, Forall byte t -> Forall byte (strncpy_chars t n).
Proof.
  induction n as [|n IH]; intros t Ht; [constructor|]. cbn [strncpy_chars].
  case_match; [apply Forall_replicate; unfold byte; lia|].
  destruct Ht as [|c t Hc Ht]; [done|]. constructor; [done|by apply IH].
Qed.

Lemma len_mk_dirent i name : len (mk_dirent i name) = DIRENT_SIZE.
Proof. unfold len, mk_dirent, dirent. rewrite length_app, length_strncpy_chars. reflexivity. Qed.

Lemma mk_dirent_bytes i name : Forall byte name -> Forall byte (mk_dirent i name).
Proof.
  intros H. unfold mk_dirent, dirent. pose proof (Z.mod_pos_bound (xshort i) 256 ltac:(lia)). pose proof (Z.mod_pos_bound (xshort i / 256) 256 ltac:(lia)).
  do 2 (constructor; [unfold byte; lia|]). by apply strncpy_chars_bytes.
Qed.

Lemma len_dirents fs : forall i, len (dirents i fs) = DIRENT_SIZE * Z.of_nat (length fs).
Proof.
  induction fs as [|f fs IH]; intros i; cbn [dirents length]; [done|]. rewrite len_app, len_mk_dirent, IH. lia.
Qed.

(** ** The files are added one by one *)

(** The file at inode [j], the first of [fs] being at [i]. *)
Definition file_at (C : Z -> list Z) (i : Z) (fs : list hfile) (j : Z) : list Z :=
  if j =? ROOTINO then C ROOTINO ++ dirents i fs
  else if j <? i then C j else default [] (snd <$> fs !! Z.to_nat (j - i)).

Definition type_at (T : Z -> Z) (i : Z) (j : Z) : Z := if j <? i then T j else T_FILE.

Lemma add_file_inv s T C f chunks : mkinv s T C -> ROOTINO < freeinode s < NINODES -> Forall byte f.1 -> Forall (Forall byte) chunks -> f.2 = concat chunks ->
  len (C ROOTINO) + DIRENT_SIZE <= MAXFILE * BSIZE -> len f.2 <= MAXFILE * BSIZE ->
  freeblock s + (tot (nb (len (C ROOTINO) + DIRENT_SIZE)) - blocks (C ROOTINO)) + blocks f.2 <= FSSIZE ->
  let i := freeinode s in
  exists s', (forall k : Mk unit, (inum ← mk_ialloc T_FILE; iappend ROOTINO (mk_dirent inum f.1);; append_all inum chunks;; k) s = k s') /\
    mkinv s' (upd T i T_FILE) (upd (upd C i f.2) ROOTINO (C ROOTINO ++ mk_dirent i f.1)) /\ freeinode s' = i + 1 /\
    freeblock s' = freeblock s + (tot (nb (len (C ROOTINO) + DIRENT_SIZE)) - blocks (C ROOTINO)) + blocks f.2.
Proof.
  intros V Hi Hname Hch Hf Hdir Hmax Hroom i. unfold ROOTINO in *. pose proof (blocks_nonneg f.2).
  destruct (ialloc_inv s T C T_FILE V ltac:(lia) ltac:(done)) as (s1 & Hrun1 & V1 & Hfi1 & Hfb1). fold i in Hrun1, V1, Hfi1.
  assert (E1 : upd C i [] 1 = C 1) by (apply upd_ne; subst i; lia).
  destruct (iappend_inv s1 _ _ 1 (mk_dirent i f.1) V1 ltac:(lia) ltac:(by apply mk_dirent_bytes)) as (s2 & Hrun2 & V2 & Hfi2 & Hfb2);
    rewrite ?E1, ?len_mk_dirent in *; [done|unfold blocks in *; lia|].
  assert (E2 : upd (upd C i []) 1 (C 1 ++ mk_dirent i f.1) i = []) by (rewrite upd_ne, upd_at by (subst i; lia); done).
  destruct (append_all_inv i chunks s2 _ _ V2 ltac:(subst i; lia) Hch) as (s3 & Hrun3 & V3 & Hfi3 & Hfb3);
    rewrite ?E2, <-?Hf in *; change (len []) with 0 in *; change (tot (nb 0)) with 0 in *; rewrite ?Z.add_0_l in *; [done|unfold blocks in *; lia|].
  exists s3. split_and!.
  - intros k. erewrite mk_run by exact Hrun1. erewrite mk_run by exact Hrun2. by erewrite mk_run by exact Hrun3.
  - eapply mkinv_ext; [|exact V3]. intros j Hj. split; [done|]. unfold upd.
    destruct (Z.eqb_spec j i), (Z.eqb_spec j 1); try done. subst i. lia.
  - lia.
  - unfold blocks in *. lia.
Qed.

Lemma add_file_at T C i f fs j : ROOTINO < i ->
  type_at T i j = type_at (upd T i T_FILE) (i + 1) j /\
  file_at C i (f :: fs) j = file_at (upd (upd C i f.2) ROOTINO (C ROOTINO ++ mk_dirent i f.1)) (i + 1) fs j.
Proof.
  intros Hi. unfold type_at, file_at. destruct (Z.lt_trichotomy j i) as [Hj|[->|Hj]].
  - rewrite !(proj2 (Z.ltb_lt j _)) by lia. rewrite (upd_ne T) by lia. split; [done|].
    destruct (Z.eqb_spec j ROOTINO) as [->|Hne]; [rewrite upd_at; cbn [dirents]; by rewrite app_assoc|].
    by rewrite !upd_ne by lia.
  - rewrite Z.ltb_irrefl, (proj2 (Z.ltb_lt i (i + 1))), (proj2 (Z.eqb_neq i ROOTINO)), upd_at, upd_ne, upd_at, Z.sub_diag by lia. done.
  - rewrite !(proj2 (Z.ltb_ge j _)), (proj2 (Z.eqb_neq j ROOTINO)) by lia. split; [done|].
    replace (Z.to_nat (j - i)) with (S (Z.to_nat (j - (i + 1)))) by lia. done.
Qed.

Lemma add_files_inv host args fs : Forall2 (supplied host) args fs -> forall s T C, mkinv s T C ->
  ROOTINO < freeinode s -> freeinode s + Z.of_nat (length fs) <= NINODES ->
  Forall (fun f => len f.2 <= MAXFILE * BSIZE) fs -> len (C ROOTINO) + DIRENT_SIZE * Z.of_nat (length fs) <= MAXFILE * BSIZE ->
  freeblock s + (tot (nb (len (C ROOTINO) + DIRENT_SIZE * Z.of_nat (length fs))) - blocks (C ROOTINO)) + blocks_all fs <= FSSIZE ->
  exists s', add_files host ROOTINO args s = Done s' tt /\
    mkinv s' (type_at T (freeinode s)) (file_at C (freeinode s) fs) /\
    freeinode s' = freeinode s + Z.of_nat (length fs) /\ freeblock s <= freeblock s'.
Proof.
  induction 1 as [|arg f args fs Hs _ IH]; intros s T C V Hi Hcount Hlen Hdir Hroom; cbn [add_files length blocks_all] in *.
  - exists s. split_and!; try done; [|lia]. eapply mkinv_ext; [|exact V]. intros j Hj. unfold type_at, file_at.
    rewrite (proj2 (Z.ltb_lt j _)) by lia. simpl. rewrite app_nil_r. destruct (Z.eqb_spec j ROOTINO) as [->|]; done.
  - destruct Hs as (Hslash & Hname & Ename & chunks & Hhost & Hch & Econt). inversion Hlen as [|? ? Hl Hls]; subst.
    rewrite bool_decide_eq_true_2 by done. erewrite mk_run by done. rewrite Hhost, <-Ename.
    pose proof (blocks_nonneg f.2). pose proof (blocks_all_nonneg fs).
    change DIRENT_SIZE with 16 in *.
    pose proof (tot_mono _ _ (nb_mono (len (C ROOTINO) + 16) (len (C ROOTINO) + 16 * Z.of_nat (S (length fs))) ltac:(lia))) as Hm.
    pose proof (tot_mono _ _ (nb_mono (len (C ROOTINO)) (len (C ROOTINO) + 16) ltac:(lia))) as Hm2.
    destruct (add_file_inv s T C f chunks V ltac:(lia) ltac:(by rewrite Ename) Hch Econt) as (s1 & Hrun & V1 & Hfi & Hfb);
      change DIRENT_SIZE with 16 in *; try lia.
    rewrite Hrun. set (i := freeinode s) in *.
    destruct (IH s1 _ _ V1) as (s2 & Hrun2 & V2 & Hfi2 & Hfb2); rewrite ?upd_at, ?len_app, ?len_mk_dirent in *; change DIRENT_SIZE with 16 in *; try lia; try done.
    + unfold blocks in *. rewrite len_app, len_mk_dirent. change DIRENT_SIZE with 16.
      replace (len (C ROOTINO) + 16 + 16 * Z.of_nat (length fs)) with (len (C ROOTINO) + 16 * Z.of_nat (S (length fs))) by lia. lia.
    + exists s2. split_and!; [exact Hrun2| |lia|unfold blocks in *; lia]. eapply mkinv_ext; [|exact V2]. intros j Hj.
      rewrite Hfi. apply add_file_at. lia.
Qed.

(** ** The empty image *)

Lemma wsect_at s n d : 0 <= n < m_nsec s -> m_nsec s <= FSSIZE ->
  wsect n d s = Done (Mkst (fun m => if m =? n then d else m_img s m) (m_nsec s) (freeinode s) (freeblock s)) tt.
Proof. intros H1 H2. unfold wsect. rewrite sector_id by lia. do 2 f_equal. lia. Qed.

Lemma zero_all_run k : forall i s, 0 <= i -> i + Z.of_nat k <= FSSIZE -> m_nsec s = i ->
  exists s', zero_all i k s = Done s' tt /\ m_nsec s' = i + Z.of_nat k /\ freeinode s' = freeinode s /\ freeblock s' = freeblock s /\
    (forall n, i <= n < i + Z.of_nat k -> m_img s' n = zero_block) /\ (forall n, n < i -> m_img s' n = m_img s n).
Proof.
  induction k as [|k IH]; intros i s Hi Hk Hn; cbn [zero_all].
  - exists s. split_and!; try done; intros; lia.
  - erewrite mk_run by (unfold wsect; rewrite sector_id by lia; reflexivity).
    destruct (IH (i + 1) (Mkst (fun n => if n =? i then zero_block else m_img s n) (Z.max (m_nsec s) (i + 1)) (freeinode s) (freeblock s)))
      as (s' & Hrun & H1 & H2 & H3 & H4 & H5); [lia|lia|simpl; lia|]. cbn [m_img freeinode freeblock] in *.
    exists s'. split_and!; try done; [lia|..].
    + intros n Hnn. destruct (Z.eq_dec n i) as [->|]; [|apply H4; lia]. rewrite H5 by lia. by rewrite Z.eqb_refl.
    + intros n Hnn. rewrite H5 by lia. by rewrite (proj2 (Z.eqb_neq n i)) by lia.
Qed.

Lemma is_blk_sb sb : is_blk (sb_block sb).
Proof. unfold sb_block, st32. do 8 (apply is_blk_st_le; [|lia|unfold BSIZE; simpl; lia]). apply is_blk_zero. Qed.

Lemma rd_zero s i : m_img s (IBLOCK i sb2000) = zero_block -> i_type (rd s i) = 0.
Proof.
  intros E. unfold rd. rewrite E. cbn [dinode_read i_type iset_fields]. unfold ld16. cbn [ld_le]. by rewrite !ld8_zero_block.
Qed.

Lemma boot_inv s : m_nsec s = FSSIZE -> freeinode s = 1 -> freeblock s = nmeta ->
  (forall n, 0 <= n < FSSIZE -> m_img s n = boot_block n) -> mkinv s (fun _ => 0) (fun _ => []).
Proof.
  intros H1 H2 H3 H4. split; rewrite ?H2; try lia.
  - split; rewrite ?H3; [done|by vm_compute| |].
    + intros n Hn. rewrite H4 by done. unfold boot_block. case_match; [apply is_blk_sb|apply is_blk_zero].
    + intros n Hn. change nmeta with 46 in Hn. rewrite H4 by lia. unfold boot_block. by rewrite (proj2 (Z.eqb_neq n 1)) by lia.
  - done.
  - intros i Hi. apply rd_zero. pose proof (inode_block i ltac:(lia)) as Hb. change (2 + nlog) with 32 in Hb. change bm with 45 in Hb.
    rewrite H4 by (unfold FSSIZE; lia). unfold boot_block. by rewrite (proj2 (Z.eqb_neq _ 1)) by lia.
  - intros n Hn. change (2 + nlog) with 32 in Hn. apply H4. unfold FSSIZE. lia.
Qed.

(** The image with an empty root directory. *)
Lemma empty_image : exists s, mkinv s (upd (fun _ => 0) 1 T_DIR) (upd (fun _ => []) 1 []) /\ freeinode s = 2 /\ freeblock s = nmeta /\
  forall k : Z -> Mk unit,
    (zero_all 0 (Z.to_nat FSSIZE);; wsect 1 (sb_block mk_sb);; rootino ← mk_ialloc T_DIR; assert_ (rootino =? ROOTINO);; k rootino)
      (Mkst (fun _ => ∅) 0 1 nmeta) = k ROOTINO s.
Proof.
  destruct (zero_all_run (Z.to_nat FSSIZE) 0 (Mkst (fun _ => ∅) 0 1 nmeta)) as (s0 & Hrun & H1 & H2 & H3 & H4 & _);
    [lia|rewrite Z2Nat.id; unfold FSSIZE; lia|reflexivity|].
  rewrite Z2Nat.id, Z.add_0_l in H1, H4 by (unfold FSSIZE; lia). cbn [freeinode freeblock] in H2, H3.
  set (s1 := Mkst (fun n => if n =? 1 then sb_block sb2000 else m_img s0 n) FSSIZE (freeinode s0) (freeblock s0)).
  assert (V : mkinv s1 (fun _ => 0) (fun _ => [])).
  { apply boot_inv; [reflexivity|exact H2|exact H3|]. intros n Hn. cbn [s1 m_img]. unfold boot_block. case_match; [done|]. by apply H4. }
  destruct (ialloc_inv s1 _ _ T_DIR V) as (s2 & Hrun2 & V2 & Hfi & Hfb); [change (freeinode s0 < NINODES); rewrite H2; reflexivity|split; [discriminate|reflexivity]|]. cbn [s1 freeinode freeblock] in *. rewrite H2, H3 in *.
  exists s2. split; [exact V2|]. split; [exact Hfi|]. split; [exact Hfb|]. intros k. erewrite mk_run by exact Hrun. rewrite mk_sb_val.
  erewrite mk_run by (apply wsect_at; rewrite H1; [split; [discriminate|reflexivity]|reflexivity]). rewrite H1. fold s1.
  erewrite mk_run by exact Hrun2. reflexivity.
Qed.

(** ** The size of the root directory *)

Definition root_size (c : list Z) : Z := (len c / BSIZE + 1) * BSIZE.

Lemma root_size_range c : len c <= MAXFILE * BSIZE -> len c < root_size c <= len c + BSIZE /\ root_size c < 2 ^ 32.
Proof.
  intros H. unfold root_size. assert (0 <= len c) by (unfold len; lia). assert (HM : MAXFILE * BSIZE + BSIZE < 2 ^ 32) by (vm_compute; reflexivity).
  pose proof (Z.div_mod (len c) BSIZE ltac:(done)). pose proof (Z.mod_pos_bound (len c) BSIZE BSIZE_pos). lia.
Qed.

Lemma fix_root_run s T C : mkinv s T C -> ROOTINO < freeinode s ->
  let y := iset_size (root_size (C ROOTINO)) (rd s ROOTINO) in
  exists s', fix_root ROOTINO s = Done s' tt /\ written ROOTINO y s s' /\ dinode_fits y.
Proof.
  intros V Hi y. assert (Hr : 0 <= ROOTINO < NINODES) by done. pose proof (mi_file _ _ _ V ROOTINO ltac:(unfold ROOTINO in *; lia)) as F.
  pose proof (file_in_size _ _ _ _ F) as Es. pose proof (fo_size _ _ _ (fi_ok _ _ _ _ F)) as Hs. rewrite Es in Hs.
  pose proof (root_size_range (C ROOTINO) ltac:(lia)) as Hz.
  assert (D : dinode_fits y) by (destruct (fi_fits _ _ _ _ F); split; try done; simpl; lia).
  destruct (written_run ROOTINO y s (mi_img _ _ _ V) Hr D eq_refl) as (s' & Hrun & W).
  exists s'. split; [|done]. unfold fix_root. erewrite mk_run by (apply rinode_run; [apply V|done]). cbv zeta.
  rewrite (xint_id (i_size _)), Es by lia. change ((len (C ROOTINO) / BSIZE + 1) * BSIZE) with (root_size (C ROOTINO)).
  by rewrite u32_small, xint_id by lia.
Qed.

Lemma nb_round c : len c mod BSIZE <> 0 -> root_size c = nb (len c) * BSIZE /\ nb (root_size c) = nb (len c).
Proof.
  intros Hm. destruct (nb_block (len c) ltac:(unfold len; lia)) as [[? _]|[_ E]]; [done|]. unfold root_size. rewrite <-E. split; [done|].
  unfold nb at 1. symmetry. apply (Z.div_unique_pos _ _ _ (BSIZE - 1)); unfold BSIZE; lia.
Qed.

Lemma rounded_content s i t c sz : file_in s i t c -> len c <= sz <= MAXFILE * BSIZE ->
  content (iset_size sz (rd s i)) (vv s) = c ++ replicate (Z.to_nat (sz - len c)) 0.
Proof.
  intros F Hsz. pose proof (file_in_size _ _ _ _ F) as Es. assert (0 <= len c) by (unfold len; lia).
  unfold content. change (i_size (iset_size sz (rd s i))) with sz.
  change (frange (iset_size sz (rd s i)) (vv s) 0 sz) with (frange (rd s i) (vv s) 0 sz).
  replace sz with (len c + (sz - len c)) at 1 by lia. rewrite frange_app, Z.add_0_l by lia. f_equal.
  - rewrite <-Es. apply (fi_content _ _ _ _ F).
  - apply list_eq_Forall2, Forall2_same_length_lookup_2; [rewrite length_replicate; pose proof (frange_length (rd s i) (vv s) (len c) (sz - len c)); lia|].
    intros k x y Hx Hy. apply lookup_replicate in Hy as [-> Hk]. revert Hx. rewrite <-(Nat2Z.id k), frange_lookup by lia.
    intros [= <-]. apply (fi_tail _ _ _ _ F). lia.
Qed.

(** A root directory whose entries do not fill its last block is padded with zeros. *)
Lemma fix_root_inv s T C : mkinv s T C -> ROOTINO < freeinode s -> len (C ROOTINO) mod BSIZE <> 0 ->
  exists s', fix_root ROOTINO s = Done s' tt /\ freeinode s' = freeinode s /\ freeblock s' = freeblock s /\
    mkinv s' T (upd C ROOTINO (C ROOTINO ++ replicate (Z.to_nat (root_size (C ROOTINO) - len (C ROOTINO))) 0)).
Proof.
  intros V Hi Hm. set (c := C ROOTINO) in *. destruct (nb_round c Hm) as [E1 E2].
  destruct (fix_root_run s T C V Hi) as (s' & Hrun & W & D). fold c in W, D.
  assert (Hr : 1 <= ROOTINO < freeinode s) by (unfold ROOTINO in *; lia). assert (Hr' : 0 <= ROOTINO < NINODES) by done.
  pose proof (mi_file _ _ _ V ROOTINO Hr) as F. fold c in F. pose proof (file_in_size _ _ _ _ F) as Es. pose proof (fi_ok _ _ _ _ F) as O.
  pose proof (fo_size _ _ _ O) as Hs. rewrite Es in Hs. pose proof (root_size_range c ltac:(lia)) as Hz.
  assert (Hsz : root_size c <= MAXFILE * BSIZE).
  { rewrite E1. apply Z.mul_le_mono_nonneg_r; [done|]. rewrite <-(Z.div_mul MAXFILE BSIZE) by done. unfold nb.
    replace (MAXFILE * BSIZE / BSIZE) with ((MAXFILE * BSIZE + BSIZE - 1) / BSIZE) by reflexivity. apply Z.div_le_mono; [done|lia]. }
  pose proof (fi_packed _ _ _ _ F) as P. rewrite Es in P.
  assert (O' : file_ok sb2000 (vv s) (iset_size (root_size c) (rd s ROOTINO))).
  { apply file_ok_size; [done|lia|]. intros bn H0 Hbn. rewrite E1 in Hbn. assert (bn < nb (len c)) by (unfold BSIZE in *; lia).
    apply P; [|done]. unfold BSIZE in *. lia. }
  exists s'. split_and!; [exact Hrun|apply (wn_inode _ _ _ _ W)|apply (wn_free _ _ _ _ W)|].
  apply (mkinv_ext s' (upd T ROOTINO (T ROOTINO)) (upd C ROOTINO (c ++ replicate (Z.to_nat (root_size c - len c)) 0))); [intros j _; by rewrite upd_same|].
  eapply changed_inv; [done| |done|].
  - eapply (appended_changed s T C ROOTINO (len c) [] s); [done|done|by apply appended_refl; [apply V| |]|exact O'|exact W].
  - rewrite <-(rounded_content s ROOTINO (T ROOTINO) c) by (done || lia). rewrite <-(fi_type _ _ _ _ F).
    apply (written_file Hr' W O'); [|done|apply (fi_nlink _ _ _ _ F)|].
    + change (packed (rd s ROOTINO) (vv s) (nb (root_size c))). by rewrite E2.
    + intros o Ho. apply (fi_tail _ _ _ _ F). change (root_size c <= o < MAXFILE * BSIZE) in Ho. lia.
Qed.

(** ** The image *)

(** The inode that [ilock] finds on the disk. *)
Definition inode_on (img : Z -> mem) (i : Z) : inode := dinode_read (img (IBLOCK i sb2000)) (dinode_off i) blank.

(** The superblock that [readsb] finds in block 1. *)
Definition sb_on (d : mem) : superblock :=
  Superblock (ld32 d 0) (ld32 d 4) (ld32 d 8) (ld32 d 12) (ld32 d 16) (ld32 d 20) (ld32 d 24) (ld32 d 28).

(** A file system with inodes 1 to [k - 1]: inode [i] is a file of type [T i] with
    contents [C i]. *)
Record image_ok (img : Z -> mem) (k : Z) (T : Z -> Z) (C : Z -> list Z) : Prop := {
  im_super : sb_on (img 1) = sb2000;
  im_log : hdr_list (img (sb_logstart sb2000)) = [];
  im_blk n : 0 <= n < sb_size sb2000 -> is_blk (img n);
  im_meta : meta_used sb2000 img;
  im_file i : 1 <= i < k -> file_ok sb2000 img (inode_on img i) /\ dinode_fits (inode_on img i) /\ i_type (inode_on img i) = T i /\
    i_nlink (inode_on img i) = 1 /\ content (inode_on img i) img = C i;
  im_apart i j a b : 1 <= i < k -> 1 <= j < k -> i <> j -> 0 <= a <= MAXFILE -> 0 <= b <= MAXFILE ->
    slot (inode_on img i) img a <> 0 -> slot (inode_on img i) img a <> slot (inode_on img j) img b;
  im_unused i : k <= i < sb_ninodes sb2000 -> i_type (inode_on img i) = 0 }.

Lemma image_ext img k T C T' C' : image_ok img k T C -> (forall i, 1 <= i < k -> T' i = T i /\ C' i = C i) -> image_ok img k T' C'.
Proof. intros Im E. split; try apply Im. intros i Hi. destruct (E i Hi) as [-> ->]. by apply Im. Qed.

Lemma sb_on_block : sb_on (sb_block sb2000) = sb2000.
Proof. vm_compute. reflexivity. Qed.

Lemma finish_run s : imgok s -> finish s = Done (Mkst (vv s) (m_nsec s) (freeinode s) (freeblock s)) tt.
Proof.
  intros I. pose proof (io_free _ I) as Hf. unfold finish, mk_balloc.
  rewrite mk_sb_val, (proj2 (Z.ltb_lt _ _)) by (unfold FSSIZE, BSIZE in *; lia). erewrite mk_run by reflexivity.
  rewrite wsect_at by (rewrite (io_nsec _ I); done). reflexivity.
Qed.

Lemma inode_on_rd s i : 0 <= i < NINODES -> inode_on (vv s) i = rd s i.
Proof.
  intros Hi. pose proof (inode_block i Hi). unfold inode_on, rd, vv. by rewrite (proj2 (Z.eqb_neq _ _)) by lia.
Qed.

Lemma finish_image s T C : mkinv s T C -> exists s', finish s = Done s' tt /\ image_ok (m_img s') (freeinode s) T C.
Proof.
  intros V. pose proof (mi_img _ _ _ V) as I. pose proof (io_free _ I) as Hf. eexists. split; [by apply finish_run|].
  cbn [m_img]. assert (E : forall n, n <> bm -> vv s n = m_img s n) by (intros n Hn; unfold vv; by rewrite (proj2 (Z.eqb_neq _ _))).
  pose proof (mi_count _ _ _ V) as Hc. split.
  - rewrite E by done. rewrite (mi_boot _ _ _ V) by done. exact sb_on_block.
  - change (sb_logstart sb2000) with 2. rewrite E by done. rewrite (mi_boot _ _ _ V) by done. reflexivity.
  - intros n Hn. change (sb_size sb2000) with FSSIZE in Hn. destruct (Z.eq_dec n bm) as [->|Hne].
    + unfold vv. rewrite Z.eqb_refl. apply is_blk_bitmap. unfold BPB, FSSIZE, BSIZE in *. change nmeta with 46 in Hf. lia.
    + rewrite E by done. by apply I.
  - intros n Hn. rewrite vv_used, Z.ltb_lt by (done || lia). change nmeta with 46 in Hf. change bm with 45 in Hn. lia.
  - intros i Hi. rewrite inode_on_rd by lia. by destruct (mi_file _ _ _ V i Hi).
  - intros i j a b Hi Hj Hne Ha Hb. rewrite !inode_on_rd by lia. by apply (mi_apart _ _ _ V).
  - intros i Hi. change (sb_ninodes sb2000) with NINODES in Hi. rewrite inode_on_rd by lia. by apply V.
Qed.

(** ** [main] *)

Definition root_entries (fs : list hfile) : list Z :=
  mk_dirent ROOTINO (bytes ".") ++ mk_dirent ROOTINO (bytes "..") ++ dirents (ROOTINO + 1) fs.

(** There are enough inodes and blocks. *)
Record image_fits (fs : list hfile) : Prop := {
  fit_inodes : 2 + Z.of_nat (length fs) <= NINODES;
  fit_files : Forall (fun f => len f.2 <= MAXFILE * BSIZE) fs;
  fit_blocks : nmeta + blocks (root_entries fs) + blocks_all fs <= FSSIZE }.

Definition image_type (i : Z) : Z := if i =? ROOTINO then T_DIR else T_FILE.

Definition image_file (root : list Z) (fs : list hfile) (i : Z) : list Z :=
  if i =? ROOTINO then root else default [] (snd <$> fs !! Z.to_nat (i - 2)).

Lemma len_root fs : len (root_entries fs) = DIRENT_SIZE * (2 + Z.of_nat (length fs)).
Proof. unfold root_entries. rewrite !len_app, !len_mk_dirent, len_dirents. lia. Qed.

Definition dots : list Z := mk_dirent ROOTINO (bytes ".") ++ mk_dirent ROOTINO (bytes "..").

Lemma dots_bytes : Forall byte (bytes ".") /\ Forall byte (bytes "..").
Proof. split; repeat (constructor; [split; [discriminate|reflexivity]|]); constructor. Qed.

(** The root directory with its first two entries. *)
Lemma root_image : exists s, mkinv s (upd (fun _ => 0) 1 T_DIR) (upd (fun _ => []) 1 dots) /\ freeinode s = 2 /\
  freeblock s = nmeta + blocks dots /\
  forall k : Z -> Mk unit,
    (zero_all 0 (Z.to_nat FSSIZE);; wsect 1 (sb_block mk_sb);; rootino ← mk_ialloc T_DIR; assert_ (rootino =? ROOTINO);;
     iappend rootino (mk_dirent rootino (bytes "."));; iappend rootino (mk_dirent rootino (bytes ".."));; k rootino)
      (Mkst (fun _ => ∅) 0 1 nmeta) = k ROOTINO s.
Proof.
  destruct empty_image as (s0 & V0 & Hfi0 & Hfb0 & Hrun0). destruct dots_bytes as [B1 B2].
  pose proof (len_mk_dirent ROOTINO (bytes ".")) as L1. pose proof (len_mk_dirent ROOTINO (bytes "..")) as L2.
  destruct (iappend_inv s0 _ _ ROOTINO _ V0 ltac:(unfold ROOTINO; lia) (mk_dirent_bytes ROOTINO _ B1)) as (s1 & Hrun1 & V1 & Hfi1 & Hfb1);
    rewrite upd_at, L1 in *; [discriminate|rewrite Hfb0; discriminate|].
  destruct (iappend_inv s1 _ _ ROOTINO _ V1 ltac:(unfold ROOTINO; lia) (mk_dirent_bytes ROOTINO _ B2)) as (s2 & Hrun2 & V2 & Hfi2 & Hfb2);
    rewrite upd_at, len_app, L1, L2 in *; [discriminate|rewrite Hfb1, Hfb0; discriminate|].
  exists s2. split; [|split; [lia|split]].
  - eapply mkinv_ext; [|exact V2]. intros j _. split; [done|]. rewrite !mk_upd_upd. reflexivity.
  - rewrite Hfb2, Hfb1, Hfb0. unfold blocks, dots. rewrite len_app, L1, L2. reflexivity.
  - intros k. etrans; [apply Hrun0|]. cbn beta. erewrite mk_run by exact Hrun1. erewrite mk_run by exact Hrun2. reflexivity.
Qed.

(** Up to the size of the root directory. *)
Lemma mkfs_files host a0 a1 args fs : Forall2 (supplied host) args fs -> image_fits fs ->
  exists s, mkinv s image_type (image_file (root_entries fs) fs) /\ freeinode s = 2 + Z.of_nat (length fs) /\
    mkfs_main host (a0 :: a1 :: args) = (fix_root ROOTINO;; finish) s.
Proof.
  intros Hs [Hn Hl Hb]. destruct root_image as (s0 & V0 & Hfi0 & Hfb0 & Hrun0). pose proof (blocks_all_nonneg fs).
  assert (Ld : len dots = 32) by reflexivity. assert (HM : 16 * 200 <= MAXFILE * BSIZE) by (vm_compute; discriminate).
  unfold blocks in Hb. rewrite len_root in Hb. change DIRENT_SIZE with 16 in Hb. change NINODES with 200 in Hn.
  destruct (add_files_inv host args fs Hs s0 _ _ V0) as (s1 & Hrun1 & V1 & Hfi1 & _); rewrite ?upd_at, ?Ld, ?Hfi0; change DIRENT_SIZE with 16.
  - reflexivity.
  - change NINODES with 200. lia.
  - exact Hl.
  - lia.
  - rewrite Hfb0. replace (32 + 16 * Z.of_nat (length fs)) with (16 * (2 + Z.of_nat (length fs))) by lia. lia.
  - exists s1. split; [|split; [lia|]].
    + eapply mkinv_ext; [|exact V1]. intros j Hj. rewrite Hfi0. unfold image_type, image_file, type_at, file_at.
      destruct (Z.eqb_spec j ROOTINO) as [->|Hne].
      * split; [reflexivity|]. rewrite upd_at. unfold root_entries, dots. by rewrite <-app_assoc.
      * unfold ROOTINO in Hne. by rewrite (proj2 (Z.ltb_ge j 2)) by lia.
    + unfold mkfs_main. rewrite (proj2 (Z.ltb_ge _ _)) by (cbn [length]; lia). cbn [drop]. unfold mk_body.
      etrans; [apply (Hrun0 (fun rootino => add_files host rootino args;; fix_root rootino;; finish))|].
      erewrite mk_run by exact Hrun1. reflexivity.
Qed.

Lemma mkfs_run host a0 a1 args fs : Forall2 (supplied host) args fs -> image_fits fs ->
  len (root_entries fs) mod BSIZE <> 0 ->
  exists s, mkfs_main host (a0 :: a1 :: args) = Done s tt /\
    let root := root_entries fs ++ replicate (Z.to_nat (root_size (root_entries fs) - len (root_entries fs))) 0 in
    image_ok (m_img s) (2 + Z.of_nat (length fs)) image_type (image_file root fs).
Proof.
  intros Hs Hfit Hm. destruct (mkfs_files host a0 a1 args fs Hs Hfit) as (s & V & Hfi & Hrun).
  destruct (fix_root_inv s _ _ V) as (s1 & Hrun1 & Hfi1 & _ & V1); [unfold ROOTINO; lia|exact Hm|].
  destruct (finish_image s1 _ _ V1) as (s2 & Hrun2 & Im). rewrite Hfi1, Hfi in Im.
  exists s2. split; [rewrite Hrun; by erewrite mk_run by exact Hrun1|].
  apply (image_ext (m_img s2) _ _ _ _ _ Im). intros i _. split; [reflexivity|].
  unfold image_file, upd. by destruct (Z.eqb_spec i ROOTINO).
Qed.

(** Mkfs makes a file system with the files of its arguments.  If the inodes and
    the blocks are enough, and the entries of the root directory do not end at the
    end of a block, then mkfs terminates without an error; the image has the
    superblock that the kernel expects, an empty log and a bitmap that covers the
    blocks of all files; every file has its contents, in blocks of its own, and the
    root directory has their names. *)
Theorem mkfs_image host a0 a1 args fs : Forall2 (supplied host) args fs -> image_fits fs ->
  len (root_entries fs) mod BSIZE <> 0 ->
  exists s, mkfs_main host (a0 :: a1 :: args) = Done s tt /\
    let root := root_entries fs ++ replicate (Z.to_nat (root_size (root_entries fs) - len (root_entries fs))) 0 in
    image_ok (m_img s) (2 + Z.of_nat (length fs)) image_type (image_file root fs).
Proof. apply mkfs_run. Qed.

(** C38: When the entries of the root directory end at the end of a block, which is so for
    62 files, mkfs counts one block too many: the directory has a block that is not
    allocated.  The kernel, reading the directory, allocates it outside of a
    transaction. *)
Theorem mkfs_root_hole host a0 a1 args fs : Forall2 (supplied host) args fs -> image_fits fs ->
  len (root_entries fs) mod BSIZE = 0 ->
  exists s, mkfs_main host (a0 :: a1 :: args) = Done s tt /\
    let y := inode_on (m_img s) ROOTINO in let bn := len (root_entries fs) / BSIZE in
    bn * BSIZE < i_size y /\ iblk y (m_img s) bn = 0.
Proof.
  intros Hs Hfit Hm. destruct (mkfs_files host a0 a1 args fs Hs Hfit) as (s & V & Hfi & Hrun).
  destruct (fix_root_run s _ _ V) as (s1 & Hrun1 & W & _); [unfold ROOTINO; lia|].
  set (c := root_entries fs) in *. change (image_file c fs ROOTINO) with c in W. assert (Hr : 0 <= ROOTINO < NINODES) by done.
  pose proof (mi_file _ _ _ V ROOTINO ltac:(unfold ROOTINO; lia)) as F. pose proof (fi_ok _ _ _ _ F) as O. pose proof (file_in_size _ _ _ _ F) as Es.
  change (image_file c fs ROOTINO) with c in Es. pose proof (fi_packed _ _ _ _ F) as P. rewrite Es in P. pose proof (wn_same _ _ _ _ W) as E.
  assert (Hl : 0 <= len c / BSIZE < MAXFILE).
  { subst c. rewrite len_root. destruct Hfit as [Hn _ _]. unfold NINODES in Hn. change DIRENT_SIZE with 16. split; [apply Z.div_pos; unfold BSIZE; lia|].
    apply Z.div_lt_upper_bound; [done|]. assert (3200 < BSIZE * MAXFILE) by (vm_compute; reflexivity). lia. }
  eexists. split; [rewrite Hrun; erewrite mk_run by exact Hrun1; apply finish_run, W|]. cbv zeta. cbn [m_img].
  rewrite inode_on_rd by done. split.
  - rewrite (sd_size _ _ E). change (len c / BSIZE * BSIZE < root_size c). unfold root_size, BSIZE. lia.
  - rewrite (same_iblk E) by lia. change (iblk (rd s ROOTINO) (vv s1) (len c / BSIZE) = 0).
    rewrite (keep_iblk O); [|intros a Ha Hn; apply (written_vv ROOTINO _ s s1 _ Hr W); pose proof (slot_sector _ _ _ O Ha Hn); lia|lia].
    destruct P as [P _]. destruct (nb_block (len c) ltac:(unfold len; lia)) as [[_ En]|[]]; [|done].
    destruct (Z.eq_dec (iblk (rd s ROOTINO) (vv s) (len c / BSIZE)) 0) as [|Hne]; [done|]. apply P in Hne; [lia|lia].
Qed.

(** ** Two images *)

Definition demo_name : list Z := bytes "user/_hi".
Definition demo_host (arg : list Z) : option (list (list Z)) := Some [[104; 105]; [10]].
Definition demo_files : list hfile := [(bytes "hi", [104; 105; 10])].

Lemma demo_supplied : Forall2 (supplied demo_host) [demo_name] demo_files.
Proof.
  constructor; [|constructor]. split; [by apply (bool_decide_unpack _)|]. split; [|split; [reflexivity|]].
  - repeat (constructor; [split; [discriminate|reflexivity]|]). constructor.
  - exists [[104; 105]; [10]]. split; [reflexivity|]. split; [|reflexivity].
    repeat (constructor; [repeat (constructor; [split; [discriminate|reflexivity]|]); constructor|]). constructor.
Qed.

Lemma demo_files_fit : image_fits demo_files.
Proof. split; [discriminate|constructor; [discriminate|constructor]|vm_compute; discriminate]. Qed.

Lemma mkfs_image_witness : exists s, mkfs_main demo_host [bytes "mkfs"; bytes "fs.img"; demo_name] = Done s tt /\
  content (inode_on (m_img s) 2) (m_img s) = [104; 105; 10].
Proof.
  destruct (mkfs_image demo_host (bytes "mkfs") (bytes "fs.img") [demo_name] demo_files demo_supplied demo_files_fit) as (s & Hrun & Im).
  - vm_compute. discriminate.
  - exists s. split; [exact Hrun|]. destruct (im_file _ _ _ _ Im 2) as (_ & _ & _ & _ & E); [split; [discriminate|reflexivity]|]. exact E.
Defined.

(** 62 empty files. *)
Definition hole_host (arg : list Z) : option (list (list Z)) := Some [].
Definition hole_files : list hfile := replicate 62 (bytes "a", []).

Lemma hole_supplied : Forall2 (supplied hole_host) (replicate 62 (bytes "a")) hole_files.
Proof.
  apply Forall2_replicate. split; [by apply (bool_decide_unpack _)|]. split; [|split; [reflexivity|]].
  - constructor; [split; [discriminate|reflexivity]|constructor].
  - exists []. split; [reflexivity|]. split; [constructor|reflexivity].
Qed.

Lemma hole_files_fit : image_fits hole_files.
Proof. split; [discriminate|apply Forall_replicate; discriminate|vm_compute; discriminate]. Qed.

Lemma mkfs_root_hole_witness : exists s, mkfs_main hole_host (bytes "mkfs" :: bytes "fs.img" :: replicate 62 (bytes "a")) = Done s tt /\
  BSIZE < i_size (inode_on (m_img s) ROOTINO) /\ iblk (inode_on (m_img s) ROOTINO) (m_img s) 1 = 0.
Proof.
  apply (mkfs_root_hole hole_host (bytes "mkfs") (bytes "fs.img") (replicate 62 (bytes "a")) hole_files hole_supplied hole_files_fit).
  vm_compute. reflexivity.
Defined.
