(* ===== verification/MkfsRead.v ===== *)
(** * From the image to a file

    The kernel boots from an image that mkfs has made, and finds every file under
    its name. *)

From S2P Require Import Prelude Machine Sleeplock Mem Layout Kalloc Vm VmCopy Bio BioInv BioSpec BioRefine FsHdr Log LogDisk LogSpec LogCommit LogRun LogOps LogTheorems Printf Fs FsLogic FsBitmap FsFile FsRead FsWrite FsContent FsInode FsDir FsAtomic FsTheorems Mkfs MkfsSpec MkfsInv MkfsTheorems.

(** ** The entries of the root directory *)

Lemma fname_dirent i name : fname (de_name (mk_dirent i name)) = fname name.
Proof.
  unfold fname, de_name, mk_dirent, dirent. change (drop 2 (?l ++ ?k)) with k. rewrite upto_nul_strncpy.
  by rewrite take_take, Nat.min_id.
Qed.

Lemma inum_dirent i name : 0 <= i < 2 ^ 16 -> de_inum (mk_dirent i name) = i.
Proof.
  intros Hi. unfold de_inum, mk_dirent, dirent. rewrite xshort_id by done. cbn [nth app]. Z.to_euclidean_division_equations. lia.
Qed.

Lemma entry_first i name l : entry (mk_dirent i name ++ l) 0 = mk_dirent i name.
Proof.
  unfold entry. rewrite Z.mul_0_l, drop_0. apply take_app_length'. pose proof (len_mk_dirent i name) as E. unfold len in E. lia.
Qed.

Lemma entry_next i name l m : 0 <= m -> entry (mk_dirent i name ++ l) (m + 1) = entry l m.
Proof.
  intros Hm. unfold entry. f_equal. pose proof (len_mk_dirent i name) as E. unfold len in E.
  rewrite drop_app_ge by (change DIRENT_SIZE with 16 in *; lia). f_equal. change DIRENT_SIZE with 16 in *. lia.
Qed.

Lemma entry_file fs : forall i l k (f : hfile), fs !! k = Some f -> entry (dirents i fs ++ l) (Z.of_nat k) = mk_dirent (i + Z.of_nat k) f.1.
Proof.
  induction fs as [|f0 fs IH]; intros i l k f Hk; [done|]. cbn [dirents]. rewrite <-app_assoc. destruct k as [|k].
  - injection Hk as <-. rewrite Z.add_0_r. apply entry_first.
  - replace (Z.of_nat (S k)) with (Z.of_nat k + 1) by lia. rewrite entry_next by lia. rewrite (IH (i + 1) l k f Hk). f_equal. lia.
Qed.

Lemma entry_rest fs : forall i l m, 0 <= m -> entry (dirents i fs ++ l) (Z.of_nat (length fs) + m) = entry l m.
Proof.
  induction fs as [|f fs IH]; intros i l m Hm; [done|]. cbn [dirents length]. rewrite <-app_assoc.
  replace (Z.of_nat (S (length fs)) + m) with (Z.of_nat (length fs) + m + 1) by lia. rewrite entry_next by lia. by apply IH.
Qed.

Lemma entry_zero n m : de_inum (entry (replicate n 0) m) = 0.
Proof.
  assert (H : forall i, nth i (entry (replicate n 0) m) 0 = 0).
  { intros i. unfold entry. rewrite drop_replicate, take_replicate. rewrite <-nth_default_eq. unfold nth_default.
    destruct (nth_error _ i) as [z|] eqn:E; [|done]. apply nth_error_In, list_elem_of_In in E. by apply elem_of_replicate in E as [-> _]. }
  unfold de_inum. by rewrite !H.
Qed.

Definition padded_root (fs : list hfile) : list Z :=
  root_entries fs ++ replicate (Z.to_nat (root_size (root_entries fs) - len (root_entries fs))) 0.

Lemma padded_root_eq fs : padded_root fs = mk_dirent ROOTINO (bytes ".") ++ mk_dirent ROOTINO (bytes "..") ++ dirents (ROOTINO + 1) fs ++
  replicate (Z.to_nat (root_size (root_entries fs) - len (root_entries fs))) 0.
Proof. unfold padded_root, root_entries at 1. by rewrite <-!app_assoc. Qed.

Lemma root_dot fs : entry (padded_root fs) 0 = mk_dirent ROOTINO (bytes ".").
Proof. rewrite padded_root_eq. apply entry_first. Qed.

Lemma root_dotdot fs : entry (padded_root fs) 1 = mk_dirent ROOTINO (bytes "..").
Proof. rewrite padded_root_eq. change 1 with (0 + 1) at 2. rewrite entry_next by lia. apply entry_first. Qed.

Lemma root_file fs k (f : hfile) : fs !! k = Some f -> entry (padded_root fs) (2 + Z.of_nat k) = mk_dirent (2 + Z.of_nat k) f.1.
Proof.
  intros Hk. rewrite padded_root_eq. replace (2 + Z.of_nat k) with (Z.of_nat k + 1 + 1) at 1 by lia. rewrite !entry_next by lia.
  by apply (entry_file fs 2).
Qed.

Lemma root_rest fs m : 2 + Z.of_nat (length fs) <= m -> de_inum (entry (padded_root fs) m) = 0.
Proof.
  intros Hm. rewrite padded_root_eq. replace m with (Z.of_nat (length fs) + (m - 2 - Z.of_nat (length fs)) + 1 + 1) by lia.
  rewrite !entry_next, entry_rest by lia. apply entry_zero.
Qed.

(** The inode of an entry. *)
Lemma root_inum fs m : 0 <= m -> 2 + Z.of_nat (length fs) <= NINODES -> de_inum (entry (padded_root fs) m) <> 0 ->
  1 <= de_inum (entry (padded_root fs) m) < 2 + Z.of_nat (length fs).
Proof.
  intros Hm Hn Hne. unfold NINODES in Hn. destruct (Z_lt_le_dec m (2 + Z.of_nat (length fs))) as [Hlt|Hge]; [|by rewrite root_rest in Hne].
  destruct (Z.eq_dec m 0) as [->|H0]; [rewrite root_dot, inum_dirent by done; unfold ROOTINO; lia|].
  destruct (Z.eq_dec m 1) as [->|H1]; [rewrite root_dotdot, inum_dirent by done; unfold ROOTINO; lia|].
  destruct (lookup_lt_is_Some_2 fs (Z.to_nat (m - 2))) as [f Hf]; [lia|].
  pose proof (root_file fs _ f Hf) as E. replace (2 + Z.of_nat (Z.to_nat (m - 2))) with m in E by lia. rewrite E, inum_dirent by lia. lia.
Qed.

(** ** Looking a name up *)

Lemma dir_find_at c name m j : 0 <= m -> de_inum (entry c m) = j -> j <> 0 -> fname name = fname (de_name (entry c m)) ->
  forall k m0, 0 <= m0 <= m -> m < m0 + Z.of_nat k ->
  (forall m', m0 <= m' < m -> de_inum (entry c m') = 0 \/ fname name <> fname (de_name (entry c m'))) ->
  dir_find c name m0 k = Some (j, m * DIRENT_SIZE).
Proof.
  intros Hm Hj Hne Hn. induction k as [|k IH]; intros m0 H0 Hk Hbefore; [lia|]. cbn [dir_find].
  destruct (Z.eq_dec m0 m) as [->|Hd].
  - rewrite Hj, (proj2 (Z.eqb_neq j 0)), bool_decide_eq_true_2 by done. done.
  - assert (E : negb (de_inum (entry c m0) =? 0) && bool_decide (fname name = fname (de_name (entry c m0))) = false).
    { destruct (Hbefore m0 ltac:(lia)) as [->|Hf]; [done|]. rewrite bool_decide_eq_false_2 by done. apply andb_false_r. }
    rewrite E. apply IH; [lia|lia|]. intros m' Hm'. apply Hbefore. lia.
Qed.

(** The names of the files differ, and no file is called "." or "..". *)
Definition names_differ (fs : list hfile) : Prop := NoDup (fname (bytes ".") :: fname (bytes "..") :: ((fun f : hfile => fname f.1) <$> fs)).

Lemma names_before fs k (f : hfile) m : names_differ fs -> fs !! k = Some f -> 0 <= m < 2 + Z.of_nat k ->
  fname f.1 <> fname (de_name (entry (padded_root fs) m)).
Proof.
  intros Hd Hk Hm. set (ns := fname (bytes ".") :: fname (bytes "..") :: ((fun f : hfile => fname f.1) <$> fs)) in *.
  assert (Hf : ns !! (S (S k)) = Some (fname f.1)) by (change (((fun f : hfile => fname f.1) <$> fs) !! k = Some (fname f.1)); by rewrite list_lookup_fmap, Hk).
  assert (He : ns !! Z.to_nat m = Some (fname (de_name (entry (padded_root fs) m)))).
  { destruct (Z.eq_dec m 0) as [->|H0]; [by rewrite root_dot, fname_dirent|].
    destruct (Z.eq_dec m 1) as [->|H1]; [by rewrite root_dotdot, fname_dirent|].
    destruct (lookup_lt_is_Some_2 fs (Z.to_nat (m - 2))) as [g Hg]; [apply lookup_lt_Some in Hk; lia|].
    pose proof (root_file fs _ g Hg) as E. replace (2 + Z.of_nat (Z.to_nat (m - 2))) with m in E by lia. rewrite E, fname_dirent.
    replace (Z.to_nat m) with (S (S (Z.to_nat (m - 2)))) by lia.
    change (((fun f : hfile => fname f.1) <$> fs) !! Z.to_nat (m - 2) = Some (fname g.1)). by rewrite list_lookup_fmap, Hg. }
  intros E. rewrite <-E in He. pose proof (NoDup_lookup _ _ _ _ Hd He Hf). lia.
Qed.

(** ** The tree *)

Section image.
Context {img v : Z -> mem} {k : Z} {T : Z -> Z} {C : Z -> list Z} (Im : image_ok img k T C) (Hk : 1 <= k <= NINODES).
Context (Hv : forall n, 0 <= n < FSSIZE -> v n = img n).

Lemma image_inode i : 0 <= i < NINODES -> inode_on v i = inode_on img i.
Proof using Hv.
  intros Hi. unfold inode_on. rewrite Hv; [done|]. pose proof (inode_block i Hi) as Hb. change bm with 45 in Hb. change (2 + nlog) with 32 in Hb. unfold FSSIZE. lia.
Qed.

Lemma image_keep i : 1 <= i < k -> forall a, 0 <= a <= MAXFILE -> slot (inode_on img i) img a <> 0 ->
  v (slot (inode_on img i) img a) = img (slot (inode_on img i) img a).
Proof using Im Hv.
  intros Hi a Ha Hn. destruct (im_file _ _ _ _ Im i Hi) as (F & _). pose proof (slot_sector _ _ _ F Ha Hn) as H. pose proof bm_pos. apply Hv. lia.
Qed.

Lemma image_used n : used sb2000 v n = used sb2000 img n.
Proof using Hv. unfold used. by rewrite Hv by done. Qed.

(** The file system depends on the blocks of the disk only. *)
Lemma image_agree : image_ok v k T C.
Proof using All.
  assert (K : forall i, 1 <= i < k -> file_ok sb2000 img (inode_on img i)) by (intros i Hi; by destruct (im_file _ _ _ _ Im i Hi)).
  split.
  - rewrite Hv by done. apply Im.
  - rewrite Hv by done. apply Im.
  - intros n Hn. rewrite Hv by done. by apply Im.
  - intros n Hn. rewrite image_used. by apply (im_meta _ _ _ _ Im).
  - intros i Hi. rewrite image_inode by lia. destruct (im_file _ _ _ _ Im i Hi) as (F & D & Ht & Hl & Hc). split_and!; try done.
    + apply (keep_ok F (image_keep i Hi)). intros n. by rewrite image_used.
    + by rewrite (keep_content F (image_keep i Hi)).
  - intros i j a b Hi Hj Hne Ha Hb. rewrite !image_inode by lia.
    rewrite (keep_slot (K i Hi) (image_keep i Hi)), (keep_slot (K j Hj) (image_keep j Hj)). by apply Im.
  - intros i Hi. change (sb_ninodes sb2000) with NINODES in Hi. rewrite image_inode by lia. by apply Im.
Qed.
End image.

Section tree.
Context {v : Z -> mem} {fs : list hfile} (Hn : 2 + Z.of_nat (length fs) <= NINODES).
Context (Im : image_ok v (2 + Z.of_nat (length fs)) image_type (image_file (padded_root fs) fs)).

Lemma image_live i : 1 <= i < 2 + Z.of_nat (length fs) -> live sb2000 v i.
Proof using Im Hn.
  intros Hi. destruct (im_file _ _ _ _ Im i Hi) as (F & _ & Ht & Hl & _). split.
  - change (sb_ninodes sb2000) with NINODES. lia.
  - change (i_type (inode_on v i) <> 0). rewrite Ht. unfold image_type. by case_match.
  - change (1 <= i_nlink (inode_on v i)). lia.
  - exact F.
Qed.

Lemma image_root_content : content (disk_inode sb2000 v ROOTINO) v = padded_root fs.
Proof using Im. by destruct (im_file _ _ _ _ Im ROOTINO ltac:(unfold ROOTINO; lia)) as (_ & _ & _ & _ & E). Qed.

Lemma len_padded : len (padded_root fs) = root_size (root_entries fs).
Proof using Hn.
  unfold padded_root. rewrite len_app. unfold len at 2. rewrite length_replicate. pose proof (root_size_range (root_entries fs)) as H.
  rewrite len_root in *. unfold NINODES in Hn. change DIRENT_SIZE with 16 in *. assert (3200 <= MAXFILE * BSIZE) by (vm_compute; discriminate). lia.
Qed.

Lemma image_root_size : i_size (disk_inode sb2000 v ROOTINO) = root_size (root_entries fs).
Proof using Im Hn.
  destruct (im_file _ _ _ _ Im ROOTINO ltac:(unfold ROOTINO; lia)) as (F & _). change (inode_on v ROOTINO) with (disk_inode sb2000 v ROOTINO) in F.
  pose proof (fo_size _ _ _ F). rewrite <-len_padded, <-image_root_content. unfold len. rewrite content_length; lia.
Qed.

Lemma image_tree : tree_ok sb2000 v.
Proof using Im Hn.
  intros i Hlv Ht. destruct (lv_inum _ _ _ Hlv) as [H1 H2]. change (sb_ninodes sb2000) with NINODES in H2.
  assert (i = ROOTINO) as ->.
  { destruct (Z_lt_le_dec i (2 + Z.of_nat (length fs))) as [Hlt|Hge].
    - destruct (im_file _ _ _ _ Im i ltac:(lia)) as (_ & _ & Et & _). change (disk_inode sb2000 v i) with (inode_on v i) in Ht. rewrite Et in Ht.
      unfold image_type in Ht. destruct (Z.eqb_spec i ROOTINO); [done|discriminate].
    - pose proof (im_unused _ _ _ _ Im i ltac:(change (sb_ninodes sb2000) with NINODES; lia)) as E. by destruct (lv_type _ _ _ Hlv). }
  split.
  - rewrite image_root_size. unfold root_size. change BSIZE with (64 * DIRENT_SIZE). rewrite Z.mul_assoc. by apply Z.mod_mul.
  - rewrite image_root_content. intros m Hm Hne. apply image_live. apply root_inum; [lia|done|done].
Qed.

Lemma image_lookup k (f : hfile) : names_differ fs -> fs !! k = Some f ->
  dir_lookup (content (disk_inode sb2000 v ROOTINO) v) f.1 = Some (2 + Z.of_nat k, (2 + Z.of_nat k) * DIRENT_SIZE).
Proof using Im Hn.
  intros Hd Hk. pose proof (lookup_lt_Some _ _ _ Hk) as Hlt. rewrite image_root_content. unfold dir_lookup. unfold NINODES in Hn.
  assert (Hl : 2 + Z.of_nat k < Z.of_nat (length (padded_root fs) / Z.to_nat DIRENT_SIZE)).
  { pose proof len_padded as E. unfold len in E. rewrite Nat2Z.inj_div, E, Z2Nat.id by done.
    pose proof (root_size_range (root_entries fs)) as H. rewrite len_root in H. change DIRENT_SIZE with 16 in *.
    assert (3200 <= MAXFILE * BSIZE) by (vm_compute; discriminate). destruct H as [[H _] _]; [lia|].
    unfold root_size, BSIZE in *. Z.to_euclidean_division_equations. lia. }
  pose proof (root_file fs k f Hk) as E. apply dir_find_at.
  - lia.
  - rewrite E. apply inum_dirent. lia.
  - lia.
  - by rewrite E, fname_dirent.
  - lia.
  - lia.
  - intros m Hm. right. by apply (names_before fs k).
Qed.

(** A name is a path of one element, in the root directory. *)
Lemma image_walk k (f : hfile) : names_differ fs -> fs !! k = Some f -> slash ∉ f.1 -> f.1 <> [] ->
  walk_tree sb2000 v false ROOTINO (elems (slash :: f.1)) = Some (2 + Z.of_nat k).
Proof using Im Hn.
  intros Hd Hk Hs Hne.
  assert (El : elems (slash :: f.1) = [f.1]).
  { unfold elems. cbn [elems_from]. rewrite Z.eqb_refl. assert (E : split_elem f.1 = (f.1, [])).
    { clear -Hs. induction f.1 as [|c l IH]; [done|]. apply not_elem_of_cons in Hs as [Hc Hs]. simpl. rewrite (proj2 (Z.eqb_neq c slash)) by congruence. by rewrite IH. }
    rewrite elems_split by (right; by rewrite E). by rewrite E. }
  rewrite El. cbn [walk_tree andb]. destruct (im_file _ _ _ _ Im ROOTINO ltac:(unfold ROOTINO; lia)) as (_ & _ & Et & _).
  change (disk_inode sb2000 v ROOTINO) with (inode_on v ROOTINO) at 1. rewrite Et. cbn [negb image_type Z.eqb ROOTINO T_DIR Pos.eqb].
  by rewrite (image_lookup k f).
Qed.
End tree.

(** ** Mounting *)

Section mount.
Context (rw : Z -> bool -> M bcache unit) `{!DiskDriver rw} (pid : Z) (fuel : nat).

(** What the kernel does before the first process runs: [binit] and [iinit] in
    [main], and [fsinit] in [forkret]. *)
Definition mount : M fsst unit :=
  zoom log_of (zoom bc_of binit);;
  iinit;;
  fsinit rw pid fuel ROOTDEV.

(** The inode table in the kernel's data segment. *)
Definition itable0 : gmap Z inode := list_to_map (map (fun ip => (ip, inode0)) (seqZ 0 NINODE)).

Definition booting (k : kmem) (h : history) : fsst := Fsst k (Superblock 0 0 0 0 0 0 0 0) itable0 (log0 (bcache0 h)).

Definition itable1 : gmap Z inode := iset_lock (initsleeplock "inode") <$> itable0.

(** [readsb]. *)
Lemma readsb_run w x h s : held w = [] -> rep pid s (Abuf (disk_read h) h ∅) ->
  exists w' s' a', readsb rw pid fuel ROOTDEV w (fs_with x (set_bc s (log0 (bcache0 h)))) =
      Ret w' (fs_with (Fsx (x_mem x) (sb_on (disk_read h 1)) (x_it x)) (set_bc s' (log0 (bcache0 h)))) tt /\
    held w' = [] /\ rep pid s' a' /\ a_hist a' = h /\ a_view a' = disk_read h /\ forall n, a_refs a' !! n = None.
Proof using DiskDriver0.
  intros Hw R. set (a := Abuf (disk_read h) h ∅) in *.
  destruct (bread_rep rw pid fuel w s a 1 Hw R ltac:(done)) as (s1 & b & r & Hrun1 & He & R1).
  { unfold can_bread. simpl. rewrite lookup_empty. by rewrite map_size_empty. }
  unfold bread_entry in He. simpl in He. rewrite lookup_empty in He. injection He as <-.
  assert (Ha : a_refs (a_set_refs 1 (b, 1, true) a) !! 1 = Some (b, 1, true)) by (simpl; apply lookup_insert_eq).
  destruct (brelse_rep pid w s1 _ 1 b 1 Hw R1 Ha ltac:(done)) as (w2 & s2 & Hrun2 & Hw2 & R2).
  assert (Hd : b_data (buf_at s1 b) = disk_read h 1).
  { by destruct (rep_entry _ _ _ _ _ _ _ R1 Ha) as (_ & _ & _ & _ & _ & E & _). }
  exists w2, s2, (a_release 1 b 1 (a_set_refs 1 (b, 1, true) a)). split_and!; try done.
  unfold readsb, fbread, fdata, fbrelse. erewrite run_bind by (apply zoom_ret, zoom_ret; exact Hrun1).
  erewrite run_bind by (apply zoom_ret, zoom_ret; reflexivity).
  rewrite run_modify. erewrite zoom_ret by (apply zoom_ret; exact Hrun2). cbn. by rewrite Hd.
Qed.

(** Up to the check of the magic number. *)
Lemma mount_sb w k h : held w = [] -> exists w' s' a', held w' = [] /\ rep pid s' a' /\ a_hist a' = h /\ a_view a' = disk_read h /\
  (forall n, a_refs a' !! n = None) /\ let sb := sb_on (disk_read h 1) in
  mount w (booting k h) = (if negb (sb_magic sb =? FSMAGIC) then panic "invalid file system" else zoom log_of (initlog rw pid fuel ROOTDEV sb))
    w' (fs_with (Fsx k sb itable1) (set_bc s' (log0 (bcache0 h)))).
Proof using DiskDriver0.
  intros Hw. destruct (binit_rep pid w h) as (s & Hrun & R).
  destruct (readsb_run w (Fsx k (Superblock 0 0 0 0 0 0 0 0) itable1) h s Hw R) as (w' & s' & a' & Hrun' & Hw' & R' & H1 & H2 & H3).
  exists w', s', a'. split_and!; try done. unfold mount, iinit. erewrite run_bind by (apply zoom_ret, zoom_ret; exact Hrun).
  rewrite run_modify. unfold fsinit. erewrite run_bind by exact Hrun'. rewrite run_gets. reflexivity.
Qed.

Lemma mount_run w k h : held w = [] -> let sb := sb_on (disk_read h 1) in sb_magic sb = FSMAGIC ->
  0 <= sb_logstart sb -> 0 < sb_nlog sb -> sb_logstart sb + sb_nlog sb < 2 ^ 31 -> bootable (sb_logstart sb) (sb_nlog sb) h ->
  exists w' s' l' a', mount w (booting k h) = Ret w' (fs_with (Fsx k sb itable1) (set_bc s' l')) tt /\ held w' = [] /\ rep pid s' a' /\
    lsim (sb_logstart sb) (sb_nlog sb) ∅ (lspec0 (recovered (sb_logstart sb) h)) l' a'.
Proof using DiskDriver0.
  intros Hw sb Hm H0 H1 H2 [Hd Hok]. destruct (mount_sb w k h Hw) as (w1 & s1 & a1 & Hw1 & R1 & E1 & E2 & E3 & Hrun). cbv zeta in Hrun. fold sb in Hrun.
  rewrite Hm, Z.eqb_refl in Hrun. cbn [negb] in Hrun.
  assert (I : ainv [] a1).
  { split; [intros n; rewrite E2; exact (disk_ok_read h n Hd)|rewrite E1; exact Hd|intros n []%not_elem_of_nil|intros n _; apply E3|].
    intros n _. rewrite E1, E2. reflexivity. }
  rewrite <-E1 in Hok. destruct (wp_initlog rw pid fuel _ _ sb a1 (log0 (bcache0 h)) eq_refl eq_refl H0 H1 H2 I Hok w1 s1 Hw1 R1)
    as (w' & s' & l' & a' & [] & Hrun' & Hw' & R' & Cr).
  exists w', s', l', a'. split; [rewrite Hrun; erewrite zoom_ret by exact Hrun'; reflexivity|]. split; [exact Hw'|]. split; [exact R'|].
  rewrite <-E1. exact (recovery_lsim _ _ H1 (log0 (bcache0 h)) a1 _ _ eq_refl eq_refl Cr).
Qed.

(** C37: [fsinit] mounts a disk whose superblock has the magic number and whose log can be
    recovered: it reads the superblock, installs a committed transaction, and leaves
    the log empty and the blocks as they are after recovery.  With another magic
    number it panics. *)
Theorem fsinit_mounts w k h : held w = [] -> let sb := sb_on (disk_read h 1) in
  0 <= sb_logstart sb -> 0 < sb_nlog sb -> sb_logstart sb + sb_nlog sb < 2 ^ 31 -> bootable (sb_logstart sb) (sb_nlog sb) h ->
  if sb_magic sb =? FSMAGIC then
    exists w' s' l' a', mount w (booting k h) = Ret w' (fs_with (Fsx k sb itable1) (set_bc s' l')) tt /\ held w' = [] /\ rep pid s' a' /\
      lsim (sb_logstart sb) (sb_nlog sb) ∅ (lspec0 (recovered (sb_logstart sb) h)) l' a'
  else mount w (booting k h) = Panic "invalid file system".
Proof using DiskDriver0.
  intros Hw sb H0 H1 H2 Hb. destruct (Z.eqb_spec (sb_magic sb) FSMAGIC) as [Hm|Hm]; [by apply mount_run|].
  destruct (mount_sb w k h Hw) as (w1 & s1 & a1 & _ & _ & _ & _ & _ & Hrun). cbv zeta in Hrun. rewrite Hrun. fold sb.
  by rewrite (proj2 (Z.eqb_neq _ _) Hm).
Qed.
End mount.

(** ** Reading a file by its name *)

Lemma itable0_lookup ip : 0 <= ip < NINODE -> itable0 !! ip = Some inode0.
Proof.
  intros Hip. unfold itable0. apply elem_of_list_to_map_1.
  - assert (E : forall l : list Z, (map (fun ip => (ip, inode0)) l).*1 = l) by (induction l as [|i l IH]; [done|]; simpl; by f_equal).
    rewrite E. apply NoDup_seqZ.
  - apply list_elem_of_fmap. exists ip. split; [done|]. apply elem_of_seqZ. lia.
Qed.

Lemma itable1_lookup ip : 0 <= ip < NINODE -> itable1 !! ip = Some (iset_lock (initsleeplock "inode") inode0).
Proof. intros Hip. unfold itable1. rewrite lookup_fmap, itable0_lookup by exact Hip. reflexivity. Qed.

#[local] Opaque itable1.

Lemma itable1_ino k sb ip : 0 <= ip < NINODE -> ino (Fsx k sb itable1) ip = iset_lock (initsleeplock "inode") inode0.
Proof. intros Hip. unfold ino. cbn [x_it]. rewrite itable1_lookup by exact Hip. reflexivity. Qed.

Lemma itable1_rc k sb i : rc (Fsx k sb itable1) i = 0.
Proof.
  unfold rc. assert (H0 : forall l, (forall j, j ∈ l -> 0 <= j < NINODE) -> sumZ (map (fun ip => refs_to i (ino (Fsx k sb itable1) ip)) l) = 0).
  { induction l as [|j l IH]; intros Hl; [reflexivity|]. cbn [map sumZ foldr]. fold (sumZ (map (fun ip => refs_to i (ino (Fsx k sb itable1) ip)) l)).
    rewrite IH by (intros; apply Hl; by right). rewrite itable1_ino by (apply Hl; left). unfold refs_to. simpl. case_match; reflexivity. }
  apply H0. intros j Hj%elem_of_seqZ. lia.
Qed.

Lemma fresh_room k sb : iroom 2 (Fsx k sb itable1).
Proof. exists []. split; [|discriminate]. intros i. rewrite itable1_rc. lia. Qed.

Lemma fresh_cache pid k sb v : icache pid ∅ (Fsx k sb itable1) v.
Proof.
  split.
  - intros ip Hip. cbn [x_it]. rewrite itable1_lookup by exact Hip. by eexists.
  - intros ip Hip. rewrite itable1_ino by exact Hip. simpl. lia.
  - intros ip Hip. rewrite itable1_ino by exact Hip. simpl. lia.
  - intros ip ip' Hip _. rewrite itable1_ino by exact Hip. simpl. lia.
  - intros ip Hip _. rewrite itable1_ino by exact Hip. reflexivity.
  - intros ip []%not_elem_of_empty.
  - intros ip Hip. rewrite itable1_ino by exact Hip. simpl. lia.
Qed.

Section read.
Context (rw : Z -> bool -> M bcache unit) `{!DiskDriver rw} (pid : Z) (fuel : nat) (upt cwd : Z).

(** A file is looked up, locked and read, as [exec] and [sys_open] with [fileread] do. *)
Definition read_named (path : list Z) (n : Z) : M fsst (option (list Z)) :=
  ip ← namei rw pid fuel upt cwd path;
  match ip with
  | None => mret None
  | Some ip =>
      ilock rw pid fuel (Some ip);;
      r ← readi rw pid fuel upt ip ToLocal 0 n;
      mret (Some r.2)
  end.

Lemma read_named_spec start size path n x t p j :
  mounted start size x p -> icache pid ∅ x (ls_view p) -> tree_ok (x_sb x) (ls_view p) -> live (x_sb x) (ls_view p) ROOTINO ->
  head path = Some slash -> iroom 2 x -> 0 ∉ path -> walk_tree (x_sb x) (ls_view p) false ROOTINO (elems path) = Some j ->
  i_size (disk_inode (x_sb x) (ls_view p) j) <= n < 2 ^ 32 ->
  fwp pid start size (read_named path n) (fun r _ _ _ => r = Some (content (disk_inode (x_sb x) (ls_view p) j) (ls_view p))) x t p.
Proof using DiskDriver0.
  intros Mt I Ht Hroot Hh Hr H0 Hw Hn. apply fwp_bind, fwp_bind.
  apply (namex_run rw pid fuel upt); try done. unfold start_of. rewrite bool_decide_eq_true_2, Hw by done.
  intros ret name x1 t1 [F1 [F2 F2'] F3 F4] _. apply fwp_ret. cbn [fst]. destruct ret as [ip|]; [|done]. destruct F4 as (Hip & Ha & Hj).
  apply fwp_bind, (ilock_spec rw pid fuel start size ∅); [apply (mounted_sb _ _ x); done|done|done|done|apply not_elem_of_empty|].
  intros x2 t2 I2 To. pose proof (to_same _ _ _ To) as [_ T4]. pose proof (to_id _ _ _ To) as [T1 _]. assert (HL : ip ∈ {[ip]} ∪ (∅ : gset Z)) by set_solver.
  destruct (locked_state pid start size ({[ip]} ∪ ∅) x2 p ip) as (S & E & Hlv); [apply (mounted_sb _ _ x); [congruence|done]|done|done|].
  rewrite T1, T4, Hj, F2' in E. pose proof (fo_size _ _ _ (st_file _ _ _ _ _ S)) as Hsz. rewrite (sd_size _ _ E) in Hsz.
  apply fwp_bind, (readi_local rw pid fuel upt); [done|apply (mt_room _ _ _ _ Mt)|lia|lia|]. intros t3. apply fwp_ret. cbn [snd].
  assert (Hm : read_len (ino x2 ip) 0 n = i_size (ino x2 ip)).
  { unfold read_len. rewrite (sd_size _ _ E), (proj2 (Z.ltb_ge _ _)), (proj2 (Z.leb_gt _ _)) by lia. cbn [orb]. lia. }
  rewrite Hm. fold (content (ino x2 ip) (ls_view p)). by rewrite (same_content E).
Qed.

Lemma sb2000_layout : layout (sb_logstart sb2000) (sb_nlog sb2000) sb2000.
Proof using Type. split; vm_compute; repeat split; discriminate. Qed.

Lemma supplied_name host arg f : supplied host arg f -> slash ∉ f.1.
Proof using Type.
  intros (Hs & _ & -> & _) Hin. apply Hs. unfold skip_underscore in Hin. destruct (shortname arg) as [|c l]; [done|].
  repeat (destruct c as [|c|c]; try done; try (by right)); by repeat case_match; try done; right.
Qed.

(** C3: mkfs and the kernel agree.  Make an image of some files with mkfs, boot the kernel
    from a disk with that image, and read any of the files by its name: [mount],
    [namei], [ilock] and [readi] end without a panic, and the result is the contents
    of the host's file. *)
Theorem mkfs_boot_read host a0 a1 args fs k (f : hfile) n :
  Forall2 (supplied host) args fs -> image_fits fs -> len (root_entries fs) mod BSIZE <> 0 -> names_differ fs ->
  fs !! k = Some f -> f.1 <> [] -> 0 ∉ f.1 -> len f.2 <= n < 2 ^ 32 ->
  exists s, mkfs_main host (a0 :: a1 :: args) = Done s tt /\
    forall h w km, disk_ok h -> (forall b, 0 <= b < FSSIZE -> disk_read h b = m_img s b) -> held w = [] ->
    exists w' d', (mount rw pid fuel;; read_named (slash :: f.1) n) w (booting km h) = Ret w' d' (Some f.2).
Proof using DiskDriver0.
  intros Hs Hfit Hm Hd Hk Hne H0 Hn. destruct (mkfs_run host a0 a1 args fs Hs Hfit Hm) as (s & Hrun & Im). exists s. split; [exact Hrun|].
  intros h w km Hok Hdisk Hw. pose proof (fit_inodes _ Hfit) as Hin. cbv zeta in Im. fold (padded_root fs) in Im.
  pose proof (image_agree Im ltac:(lia) Hdisk) as Id.
  pose proof (im_log _ _ _ _ Id) as Elog. change (sb_logstart sb2000) with 2 in Elog.
  assert (Hrec : forall b, recovered 2 h b = disk_read h b) by (intros b; unfold recovered; by rewrite Elog).
  assert (Iv : image_ok (recovered 2 h) (2 + Z.of_nat (length fs)) image_type (image_file (padded_root fs) fs)).
  { apply (image_agree Id ltac:(lia)). intros b _. apply Hrec. }
  pose proof (im_super _ _ _ _ Id) as Esb.
  destruct (mount_run rw pid fuel w km h Hw) as (w1 & s1 & l1 & a1' & Hrun1 & Hw1 & R1 & S1).
  { by rewrite Esb. } { by rewrite Esb. } { by rewrite Esb. } { by rewrite Esb. }
  { rewrite Esb. split; [done|]. change (sb_logstart sb2000) with 2. rewrite Elog. by apply hdr_ok_nil. }
  rewrite Esb in *. erewrite run_bind by exact Hrun1.
  pose proof (im_file _ _ _ _ Iv (2 + Z.of_nat k)) as Hf. pose proof (lookup_lt_Some _ _ _ Hk) as Hlt. destruct Hf as (F & _ & _ & _ & Hc); [lia|].
  change (inode_on (recovered 2 h) (2 + Z.of_nat k)) with (disk_inode sb2000 (recovered 2 h) (2 + Z.of_nat k)) in F, Hc.
  assert (Ec : image_file (padded_root fs) fs (2 + Z.of_nat k) = f.2).
  { unfold image_file, ROOTINO. rewrite (proj2 (Z.eqb_neq _ 1)) by lia. replace (Z.to_nat (2 + Z.of_nat k - 2)) with k by lia.
    exact (f_equal (fun o : option hfile => default [] (snd <$> o)) Hk). }
  rewrite Ec in Hc. pose proof (fo_size _ _ _ F) as Hsz.
  assert (El : i_size (disk_inode sb2000 (recovered 2 h) (2 + Z.of_nat k)) = len f.2) by (rewrite <-Hc; unfold len; rewrite content_length; lia).
  destruct (Forall2_lookup_r _ _ _ _ _ Hs Hk) as (arg & _ & Harg). pose proof (supplied_name _ _ _ Harg) as Hslash.
  destruct (read_named_spec 2 30 (slash :: f.1) n (Fsx km sb2000 itable1) ∅ (lspec0 (recovered 2 h)) (2 + Z.of_nat k))
    with (l := l1) (a := a1') (w := w1) (s := s1) as (w2 & s2 & l2 & a2 & x2 & t2 & p2 & v & Hrun2 & _ & _ & _ & Hv).
  - split; [exact sb2000_layout|apply (im_meta _ _ _ _ Iv)|reflexivity|reflexivity].
  - apply fresh_cache.
  - exact (image_tree Hin Iv).
  - apply (image_live Hin Iv). unfold ROOTINO. lia.
  - reflexivity.
  - apply fresh_room.
  - apply not_elem_of_cons. split; [discriminate|exact H0].
  - exact (image_walk Hin Iv k f Hd Hk Hslash Hne).
  - cbn [x_sb ls_view lspec0]. rewrite El. exact Hn.
  - exact S1.
  - exact Hw1.
  - exact R1.
  - exists w2, (fs_with x2 (set_bc s2 l2)). rewrite Hrun2, Hv. cbn [x_sb ls_view lspec0]. by rewrite Hc.
Qed.

(** C30: The log of the image is smaller than what [begin_op] reserves of it.  Make an image with
    mkfs and boot from it.  Three operations begin, all admitted at once, which reserves
    three times MAXOPBLOCKS = 10 blocks.  They change 29 blocks, with [bread], [log_write]
    and [brelse], without a panic; but [log_write] of a thirtieth one, whichever it is, panics. *)
Theorem log_reservation_overrun host a0 a1 args fs ns n :
  Forall2 (supplied host) args fs -> image_fits fs -> len (root_entries fs) mod BSIZE <> 0 ->
  NoDup (ns ++ [n]) -> Forall (fun b => 32 <= b < FSSIZE) (ns ++ [n]) -> Z.of_nat (length (ns ++ [n])) = 3 * MAXOPBLOCKS ->
  exists s, mkfs_main host (a0 :: a1 :: args) = Done s tt /\
    forall h w, disk_ok h -> (forall b, 0 <= b < FSSIZE -> disk_read h b = m_img s b) -> held w = [] ->
    let run ops := (boot rw pid fuel (sb_on (disk_read h 1));; run_lops rw pid fuel ops ∅) w (log0 (bcache0 h)) in
    (exists w' l' r, run (three_ops ns) = Ret w' l' r) /\
    run (three_ops (ns ++ [n])) = Panic "too big a transaction".
Proof using DiskDriver0.
  intros Hs Hfit Hm Hnd Hb Hl. destruct (mkfs_run host a0 a1 args fs Hs Hfit Hm) as (s & Hrun & Im). exists s. split; [exact Hrun|].
  intros h w Hok Hdisk Hw. pose proof (fit_inodes _ Hfit) as Hin.
  pose proof (image_agree Im ltac:(lia) Hdisk) as Id. pose proof (im_log _ _ _ _ Id) as Elog. cbv zeta. rewrite (im_super _ _ _ _ Id).
  apply (reservation_overrun rw pid fuel 2 30 sb2000); [reflexivity|reflexivity|lia|lia|lia|exact Hw| |reflexivity|exact Hnd| |].
  - split; [exact Hok|]. change (sb_logstart sb2000) with 2 in Elog. rewrite Elog. by apply hdr_ok_nil.
  - eapply Forall_impl; [exact Hb|]. intros b Hr. unfold home. cbv beta in Hr. change FSSIZE with 2000 in Hr. split; lia.
  - rewrite length_app in Hl. cbn [length] in Hl. unfold LOGSIZE, MAXOPBLOCKS in *. lia.
Qed.
End read.

(** ** A concrete disk *)

(** A disk with the given blocks. *)
Definition disk_with (img : Z -> mem) : history := map (fun b => (b, img b)) (seqZ 0 FSSIZE).

Lemma disk_with_read img b : 0 <= b < FSSIZE -> disk_read (disk_with img) b = img b.
Proof.
  intros Hb. unfold disk_with. assert (Hin : b ∈ seqZ 0 FSSIZE) by (apply elem_of_seqZ; lia). revert Hin. generalize (seqZ 0 FSSIZE).
  induction l as [|c l IH]; [by intros ?%elem_of_nil|]. cbn [map disk_read]. destruct (Z.eqb_spec c b) as [->|Hne]; [done|].
  intros [?|?]%elem_of_cons; [congruence|by apply IH].
Qed.

Lemma disk_with_ok img : (forall b, 0 <= b < FSSIZE -> is_blk (img b)) -> disk_ok (disk_with img).
Proof. intros H. apply Forall_forall. intros [b d] (c & [= -> ->] & Hc%elem_of_seqZ)%list_elem_of_fmap. apply H. lia. Qed.

Lemma demo_differ : names_differ demo_files.
Proof. apply (bool_decide_unpack _). vm_compute. exact I. Qed.

Lemma mkfs_boot_read_witness : exists s w' d',
  mkfs_main demo_host [bytes "mkfs"; bytes "fs.img"; demo_name] = Done s tt /\
  (mount plain_rw 1 0;; read_named plain_rw 1 0 0 0 (bytes "/hi") 100) (World [] [] []) (booting (Kmem ∅ 0) (disk_with (m_img s))) =
    Ret w' d' (Some [104; 105; 10]).
Proof.
  destruct (mkfs_boot_read plain_rw 1 0 0 0 demo_host (bytes "mkfs") (bytes "fs.img") [demo_name] demo_files 0 (bytes "hi", [104; 105; 10]) 100)
    as (s & Hrun & H).
  - exact demo_supplied.
  - exact demo_files_fit.
  - vm_compute. discriminate.
  - exact demo_differ.
  - reflexivity.
  - discriminate.
  - by apply (bool_decide_unpack _).
  - split; [discriminate|reflexivity].
  - destruct (H (disk_with (m_img s)) (World [] [] []) (Kmem ∅ 0)) as (w' & d' & Hr).
    + apply disk_with_ok. destruct (mkfs_run demo_host (bytes "mkfs") (bytes "fs.img") [demo_name] demo_files demo_supplied demo_files_fit) as (s' & Hrun' & Im);
        [vm_compute; discriminate|]. assert (s' = s) as -> by congruence. exact (im_blk _ _ _ _ Im).
    + intros b Hb. by apply disk_with_read.
    + reflexivity.
    + exists s, w', d'. split; [exact Hrun|exact Hr].
Defined.

(** Blocks 46 to 75 of the image with one file. *)
Lemma log_reservation_overrun_witness : exists s,
  mkfs_main demo_host [bytes "mkfs"; bytes "fs.img"; demo_name] = Done s tt /\
  (boot plain_rw 1 0 (sb_on (disk_read (disk_with (m_img s)) 1));; run_lops plain_rw 1 0 (three_ops (seqZ 46 29 ++ [75])) ∅)
    (World [] [] []) (log0 (bcache0 (disk_with (m_img s)))) = Panic "too big a transaction".
Proof.
  destruct (log_reservation_overrun plain_rw 1 0 demo_host (bytes "mkfs") (bytes "fs.img") [demo_name] demo_files (seqZ 46 29) 75)
    as (s & Hrun & H).
  - exact demo_supplied.
  - exact demo_files_fit.
  - vm_compute. discriminate.
  - apply (bool_decide_unpack _). vm_compute. exact I.
  - apply (bool_decide_unpack _). vm_compute. exact I.
  - reflexivity.
  - exists s. split; [exact Hrun|]. apply (H (disk_with (m_img s)) (World [] [] [])).
    + apply disk_with_ok. destruct (mkfs_run demo_host (bytes "mkfs") (bytes "fs.img") [demo_name] demo_files demo_supplied demo_files_fit) as (s' & Hrun' & Im);
        [vm_compute; discriminate|]. assert (s' = s) as -> by congruence. exact (im_blk _ _ _ _ Im).
    + intros b Hb. by apply disk_with_read.
    + reflexivity.
Defined.

Lemma fsinit_mounts_witness : exists w' s' l' a',
  mount plain_rw 1 0 (World [] [] []) (booting (Kmem ∅ 0) [(1, sb_block sb2000)]) =
    Ret w' (fs_with (Fsx (Kmem ∅ 0) sb2000 itable1) (set_bc s' l')) tt /\
  lsim 2 30 ∅ (lspec0 (recovered 2 [(1, sb_block sb2000)])) l' a'.
Proof.
  pose proof (fsinit_mounts plain_rw 1 0 (World [] [] []) (Kmem ∅ 0) [(1, sb_block sb2000)] eq_refl) as H. cbv zeta in H.
  change (disk_read [(1, sb_block sb2000)] 1) with (sb_block sb2000) in H. rewrite sb_on_block in H.
  destruct H as (w' & s' & l' & a' & Hrun & _ & _ & S).
  - discriminate.
  - reflexivity.
  - reflexivity.
  - split; [constructor; [apply is_blk_sb|constructor]|].
    change (hdr_ok 2 30 []). by apply hdr_ok_nil.
  - exists w', s', l', a'. split; [exact Hrun|exact S].
Defined.

Lemma namex_spec_witness : exists v,
  fwp 1 2 30 (namex plain_rw 1 0 0 0 (bytes "/hi") false (bytes ""))
    (fun r x' t' p' => p' = lspec0 v /\ found 1 v (Some 2) r.1 (Fsx (Kmem ∅ 0) sb2000 itable1) x' /\ (is_Some r.1 -> fname r.2 = bytes "hi"))
    (Fsx (Kmem ∅ 0) sb2000 itable1) ∅ (lspec0 v).
Proof.
  destruct (mkfs_run demo_host (bytes "mkfs") (bytes "fs.img") [demo_name] demo_files demo_supplied demo_files_fit) as (s & _ & Im); [vm_compute; discriminate|].
  pose proof (fit_inodes _ demo_files_fit) as Hin. exists (m_img s).
  assert (Hw : walk_tree sb2000 (m_img s) false ROOTINO (elems (bytes "/hi")) = Some 2).
  { apply (image_walk Hin Im 0 (bytes "hi", [104; 105; 10]) demo_differ eq_refl); [by apply (bool_decide_unpack _)|discriminate]. }
  rewrite <-Hw. refine (namex_spec plain_rw 1 0 0 2 30 false 0 (bytes "/hi") (bytes "") (Fsx (Kmem ∅ 0) sb2000 itable1) ∅ (lspec0 (m_img s)) _ _ _ _ _ _ _).
  - split; [exact sb2000_layout|exact (im_meta _ _ _ _ Im)|reflexivity|reflexivity].
  - apply fresh_cache.
  - exact (image_tree Hin Im).
  - apply (image_live Hin Im). split; [discriminate|reflexivity].
  - intros H. by destruct H.
  - apply fresh_room.
  - by apply (bool_decide_unpack _).
Defined.

(** ** Adding a name to the root directory of the image *)

(** The root directory in entry 0 of the inode table, locked by process 1. *)
Definition locked_root (v : Z -> mem) : inode :=
  let y := disk_inode sb2000 v ROOTINO in
  Inode ROOTDEV ROOTINO 1 (Sleeplock 1 "inode" 1) true (i_type y) (i_major y) (i_minor y) (i_nlink y) (i_size y) (i_addrs y).

Definition demo_at_root (v : Z -> mem) : fsx := x_seti 0 (fun _ => locked_root v) (Fsx (Kmem ∅ 0) sb2000 itable1).

Lemma demo_root_cache v : live sb2000 v ROOTINO -> icache 1 {[0]} (demo_at_root v) v.
Proof.
  intros Hlv. apply (icache_seti 1 ∅); [apply fresh_cache|split; [discriminate|reflexivity]| |set_solver].
  split; try done.
  - intros j Hj _ _. rewrite itable1_ino by exact Hj. simpl. lia.
Qed.

Lemma demo_root_room v : iroom 1 (demo_at_root v).
Proof.
  exists [ROOTINO]. split; [|discriminate]. intros k. unfold demo_at_root.
  rewrite rc_seti, itable1_rc, itable1_ino; [|split; [discriminate|reflexivity]|cbn [x_it]; rewrite itable1_lookup by (split; [discriminate|reflexivity]); by eexists|split; [discriminate|reflexivity]].
  unfold refs_to. cbn [i_inum i_ref locked_root iset_lock inode0]. destruct (Z.eqb_spec ROOTINO k) as [<-|]; [intros _; left|]. by case_match.
Qed.

(** The name that is added. *)
Definition demo_new : list Z := bytes "new".

Lemma demo_new_free : dir_lookup (padded_root demo_files) demo_new = None.
Proof. vm_compute. reflexivity. Qed.

Lemma demo_root_ino v : ino (demo_at_root v) 0 = locked_root v.
Proof.
  unfold demo_at_root. rewrite ino_seti by (cbn [x_it]; rewrite itable1_lookup by (split; [discriminate|reflexivity]); by eexists).
  reflexivity.
Qed.

Lemma demo_linkable v :
  image_ok v (2 + Z.of_nat (length demo_files)) image_type (image_file (padded_root demo_files) demo_files) ->
  live sb2000 v ROOTINO -> linkable 1 sb2000 {[0]} 0 demo_new 3 (demo_at_root v) v.
Proof.
  intros Iv Hlv. pose proof (fit_inodes _ demo_files_fit) as Hin. split.
  - split; [exact sb2000_layout|exact (im_meta _ _ _ _ Iv)|reflexivity|reflexivity].
  - exact (demo_root_cache v Hlv).
  - exact (image_tree Hin Iv).
  - split; [set_solver|]. rewrite demo_root_ino. destruct (im_file _ _ _ _ Iv ROOTINO) as (_ & _ & Et & _); [split; [discriminate|reflexivity]|]. exact Et.
  - exact (demo_root_room v).
  - lia.
  - repeat constructor; vm_compute; discriminate.
  - intros i off E. exfalso. revert E. rewrite demo_root_ino. cbn [i_inum locked_root]. change (x_sb (demo_at_root v)) with sb2000.
    rewrite (image_root_content Iv), demo_new_free. discriminate.
Qed.

Lemma demo_root_entry : free_entry (padded_root demo_files) = 3 /\ len (padded_root demo_files) = 1024.
Proof. vm_compute. split; reflexivity. Qed.

(** The root directory has an unused entry, so the name is added. *)
Lemma demo_linked_in v r x' p' :
  image_ok v (2 + Z.of_nat (length demo_files)) image_type (image_file (padded_root demo_files) demo_files) ->
  link_outcome 2 30 1 {[0]} 0 demo_new 3 (demo_at_root v) v r x' p' ->
  r = 0 /\ dir_lookup (content (ino x' 0) (ls_view p')) demo_new = Some (3, 48).
Proof.
  intros Iv. unfold link_outcome. rewrite demo_root_ino. cbn [i_inum locked_root]. change (x_sb (demo_at_root v)) with sb2000.
  pose proof (image_root_content Iv) as Ec. rewrite Ec, demo_new_free. destruct demo_root_entry as [-> Hl].
  destruct (im_file _ _ _ _ Iv ROOTINO) as (F & _); [split; [discriminate|reflexivity]|]. pose proof (fo_size _ _ _ F) as Hf.
  assert (Hs : i_size (disk_inode sb2000 v ROOTINO) = 1024).
  { rewrite <- Hl, <- Ec. unfold len. rewrite content_length; [|exact (proj1 Hf)]. symmetry. apply Z2Nat.id, Hf. }
  intros (n & _ & H). destruct (n =? DIRENT_SIZE); [by destruct H as (? & _ & ? & _)|].
  destruct H as (_ & H & _). exfalso. cbn [i_size locked_root] in H. rewrite Hs in H. discriminate.
Qed.

Lemma dirlink_atomic_witness : exists d w w' s s' l l' x' p',
  dir_lookup (content (disk_inode sb2000 d ROOTINO) d) demo_new = None /\
  transaction plain_rw 1 0 (dirlink plain_rw 1 0 0 0 demo_new 3) w (fs_with (demo_at_root d) (set_bc s l)) =
    Ret w' (fs_with x' (set_bc s' l')) 0 /\
  dir_lookup (content (ino x' 0) (ls_view p')) demo_new = Some (3, 48).
Proof.
  destruct (mkfs_run demo_host (bytes "mkfs") (bytes "fs.img") [demo_name] demo_files demo_supplied demo_files_fit) as (s & _ & Im); [vm_compute; discriminate|].
  pose proof (fit_inodes _ demo_files_fit) as Hin. set (h := disk_with (m_img s)).
  assert (Id : image_ok (disk_read h) (2 + Z.of_nat (length demo_files)) image_type (image_file (padded_root demo_files) demo_files)).
  { apply (image_agree Im); [lia|]. intros b Hb. by apply disk_with_read. }
  pose proof (im_log _ _ _ _ Id) as Elog. change (sb_logstart sb2000) with 2 in Elog. pose proof (im_super _ _ _ _ Id) as Esb.
  set (d := recovered 2 h).
  assert (Iv : image_ok d (2 + Z.of_nat (length demo_files)) image_type (image_file (padded_root demo_files) demo_files)).
  { apply (image_agree Id); [lia|]. intros b _. unfold d, recovered. by rewrite Elog. }
  assert (Hlv : live sb2000 d ROOTINO) by (apply (image_live Hin Iv); split; [discriminate|reflexivity]).
  destruct (mount_run plain_rw 1 0 (World [] [] []) (Kmem ∅ 0) h eq_refl) as (w1 & s1 & l1 & a1 & _ & Hw1 & R1 & S1).
  { by rewrite Esb. } { by rewrite Esb. } { by rewrite Esb. } { by rewrite Esb. }
  { rewrite Esb. split; [apply disk_with_ok; exact (im_blk _ _ _ _ Im)|]. change (sb_logstart sb2000) with 2. rewrite Elog. by apply hdr_ok_nil. }
  rewrite Esb in S1. change (sb_logstart sb2000) with 2 in S1. change (sb_nlog sb2000) with 30 in S1. fold d in S1.
  destruct (dirlink_atomic plain_rw 1 0 0 KERNBASE kend_demo sb2000 {[0]} 0 demo_new 3 (demo_at_root d) d ∅ l1 a1 w1 s1)
    as (w' & s' & l' & a' & t' & x' & p' & r & Hrun & _ & _ & _ & _ & HQ & _).
  - reflexivity.
  - exact S1.
  - exact Hw1.
  - exact R1.
  - exact (demo_linkable d Iv Hlv).
  - reflexivity.
  - destruct (demo_linked_in d r x' p' Iv HQ) as [Hr0 Hl]. rewrite Hr0 in Hrun.
    exists d, w1, w', s1, s', l1, l', x', p'. split_and!; [|exact Hrun|exact Hl].
    rewrite (image_root_content Iv). exact demo_new_free.
Defined.
