(* ===== verification/Proc.v ===== *)
(** * kernel/proc.c: processes

    The process table is a map from table index to [struct proc]; a process
    pointer is an index.  The running process is the parameter [me]. *)

From S2P Require Import Prelude Machine Sleeplock Mem Layout Kalloc Vm Bio Virtio FsHdr Log Printf Uart Console Fs Pipe File.

Inductive procstate := UNUSED | USED | SLEEPING | RUNNABLE | RUNNING | ZOMBIE.

#[export] Instance procstate_eq_dec : EqDecision procstate.
Proof. solve_decision. Defined.

(** [struct context]; [ctx_s] are the registers [s0] to [s11]. *)
Record context := Context_ { ctx_ra : Z; ctx_sp : Z; ctx_s : list Z }.

(** [struct proc], without its lock.  [p_ofile] maps descriptors to open files,
    [p_trapframe] and [p_pagetable] are physical addresses. *)
Record proc := Proc {
  p_state : procstate; p_chan : option chan; p_killed : Z; p_xstate : Z; p_pid : Z;
  p_parent : option Z; p_kstack : Z; p_sz : Z; p_pagetable : Z; p_trapframe : Z;
  p_context : context; p_ofile : gmap Z Z; p_cwd : option Z; p_name : list Z }.

Definition proc0 : proc :=
  Proc UNUSED None 0 0 0 None 0 0 0 0 (Context_ 0 0 (replicate 12 0)) ∅ None (replicate 16 0).

Definition pset_state x p := Proc x (p_chan p) (p_killed p) (p_xstate p) (p_pid p) (p_parent p) (p_kstack p) (p_sz p) (p_pagetable p) (p_trapframe p) (p_context p) (p_ofile p) (p_cwd p) (p_name p).
Definition pset_chan x p := Proc (p_state p) x (p_killed p) (p_xstate p) (p_pid p) (p_parent p) (p_kstack p) (p_sz p) (p_pagetable p) (p_trapframe p) (p_context p) (p_ofile p) (p_cwd p) (p_name p).
Definition pset_killed x p := Proc (p_state p) (p_chan p) x (p_xstate p) (p_pid p) (p_parent p) (p_kstack p) (p_sz p) (p_pagetable p) (p_trapframe p) (p_context p) (p_ofile p) (p_cwd p) (p_name p).
Definition pset_xstate x p := Proc (p_state p) (p_chan p) (p_killed p) x (p_pid p) (p_parent p) (p_kstack p) (p_sz p) (p_pagetable p) (p_trapframe p) (p_context p) (p_ofile p) (p_cwd p) (p_name p).
Definition pset_pid x p := Proc (p_state p) (p_chan p) (p_killed p) (p_xstate p) x (p_parent p) (p_kstack p) (p_sz p) (p_pagetable p) (p_trapframe p) (p_context p) (p_ofile p) (p_cwd p) (p_name p).
Definition pset_parent x p := Proc (p_state p) (p_chan p) (p_killed p) (p_xstate p) (p_pid p) x (p_kstack p) (p_sz p) (p_pagetable p) (p_trapframe p) (p_context p) (p_ofile p) (p_cwd p) (p_name p).
Definition pset_kstack x p := Proc (p_state p) (p_chan p) (p_killed p) (p_xstate p) (p_pid p) (p_parent p) x (p_sz p) (p_pagetable p) (p_trapframe p) (p_context p) (p_ofile p) (p_cwd p) (p_name p).
Definition pset_sz x p := Proc (p_state p) (p_chan p) (p_killed p) (p_xstate p) (p_pid p) (p_parent p) (p_kstack p) x (p_pagetable p) (p_trapframe p) (p_context p) (p_ofile p) (p_cwd p) (p_name p).
Definition pset_pagetable x p := Proc (p_state p) (p_chan p) (p_killed p) (p_xstate p) (p_pid p) (p_parent p) (p_kstack p) (p_sz p) x (p_trapframe p) (p_context p) (p_ofile p) (p_cwd p) (p_name p).
Definition pset_trapframe x p := Proc (p_state p) (p_chan p) (p_killed p) (p_xstate p) (p_pid p) (p_parent p) (p_kstack p) (p_sz p) (p_pagetable p) x (p_context p) (p_ofile p) (p_cwd p) (p_name p).
Definition pset_context x p := Proc (p_state p) (p_chan p) (p_killed p) (p_xstate p) (p_pid p) (p_parent p) (p_kstack p) (p_sz p) (p_pagetable p) (p_trapframe p) x (p_ofile p) (p_cwd p) (p_name p).
Definition pset_ofile x p := Proc (p_state p) (p_chan p) (p_killed p) (p_xstate p) (p_pid p) (p_parent p) (p_kstack p) (p_sz p) (p_pagetable p) (p_trapframe p) (p_context p) x (p_cwd p) (p_name p).
Definition pset_cwd x p := Proc (p_state p) (p_chan p) (p_killed p) (p_xstate p) (p_pid p) (p_parent p) (p_kstack p) (p_sz p) (p_pagetable p) (p_trapframe p) (p_context p) (p_ofile p) x (p_name p).
Definition pset_name x p := Proc (p_state p) (p_chan p) (p_killed p) (p_xstate p) (p_pid p) (p_parent p) (p_kstack p) (p_sz p) (p_pagetable p) (p_trapframe p) (p_context p) (p_ofile p) (p_cwd p) x.

(** The state of the kernel: file system and memory, [ftable], [proc], [nextpid],
    [initproc], [ticks], the static variable [first] of [forkret], the console, and the driver's state. *)
Record kst := Kst {
  k_fs : fsst; k_ftable : gmap Z file; k_procs : gmap Z proc;
  k_nextpid : Z; k_initproc : option Z; k_ticks : Z; k_first : bool; k_dev : condev; k_vdisk : vdisk }.

Definition proc_at (s : kst) (p : Z) : proc := default proc0 (k_procs s !! p).

(** The data of the kernel when it starts: zero, but for the initialised
    variables; [h] is the contents of the disk. *)
Definition zeros {A} (n : Z) (g : Z -> A) : gmap Z A := list_to_map (map (fun i => (i, g i)) (seqZ 0 n)).

Definition kst0 (h : history) : kst :=
  Kst (Fsst (Kmem ∅ 0) (Superblock 0 0 0 0 0 0 0 0) (zeros NINODE (fun _ => inode0)) (log0 (bcache0 h)))
    (zeros NFILE (fun _ => file0)) (zeros NPROC (fun _ => proc0)) 1 None 0 true
    (Condev (Cons ∅ 0 0 0) (Uart ∅ 0 0 false 0)) (Vdisk ∅ ∅ 0 ∅ 0 ∅ 0 ∅ ∅ ∅ [] 0).

Definition set_procs t s := Kst (k_fs s) (k_ftable s) t (k_nextpid s) (k_initproc s) (k_ticks s) (k_first s) (k_dev s) (k_vdisk s).
Definition set_nextpid n s := Kst (k_fs s) (k_ftable s) (k_procs s) n (k_initproc s) (k_ticks s) (k_first s) (k_dev s) (k_vdisk s).
Definition set_initproc i s := Kst (k_fs s) (k_ftable s) (k_procs s) (k_nextpid s) i (k_ticks s) (k_first s) (k_dev s) (k_vdisk s).
Definition set_ticks t s := Kst (k_fs s) (k_ftable s) (k_procs s) (k_nextpid s) (k_initproc s) t (k_first s) (k_dev s) (k_vdisk s).
Definition set_first b s := Kst (k_fs s) (k_ftable s) (k_procs s) (k_nextpid s) (k_initproc s) (k_ticks s) b (k_dev s) (k_vdisk s).

Definition getp {A} (f : proc -> A) (p : Z) : M kst A := gets (fun s => f (proc_at s p)).

Definition upd_proc (p : Z) (f : proc -> proc) (s : kst) : kst := set_procs (alter f p (k_procs s)) s.

Definition setp (p : Z) (f : proc -> proc) : M kst unit := modify (upd_proc p f).

(** Memory, and the open files as the process [me] sees them. *)
Definition k_mem : lens kst kmem :=
  Lens _ _ (fun s => f_mem (k_fs s))
    (fun m s => Kst (set_fmem m (k_fs s)) (k_ftable s) (k_procs s) (k_nextpid s) (k_initproc s) (k_ticks s) (k_first s) (k_dev s) (k_vdisk s)).

Definition k_files (me : Z) : lens kst filest :=
  Lens _ _ (fun s => Filest (k_fs s) (k_ftable s) (k_dev s) (negb (p_killed (proc_at s me) =? 0)))
    (fun x s => Kst (fl_fs x) (fl_table x) (k_procs s) (k_nextpid s) (k_initproc s) (k_ticks s) (k_first s) (fl_dev x) (k_vdisk s)).

Definition k_condev : lens kst condev :=
  Lens _ _ k_dev
    (fun d s => Kst (k_fs s) (k_ftable s) (k_procs s) (k_nextpid s) (k_initproc s) (k_ticks s) (k_first s) d (k_vdisk s)).

(** The disk driver and the buffers. *)
Definition k_disk : lens kst vdst :=
  Lens _ _ (fun s => Vdst (lg_bc (f_log (k_fs s))) (k_vdisk s))
    (fun x s => Kst (set_flog (set_bc (vs_bc x) (f_log (k_fs s))) (k_fs s)) (k_ftable s) (k_procs s)
                  (k_nextpid s) (k_initproc s) (k_ticks s) (k_first s) (k_dev s) (vs_disk x)).

(** Offsets in [struct trapframe], and its size. *)
Definition TF_KSATP : Z := 0.
Definition TF_KSP : Z := 8.
Definition TF_KTRAP : Z := 16.
Definition TF_EPC : Z := 24.
Definition TF_KHARTID : Z := 32.
Definition TF_SP : Z := 48.
Definition TF_A0 : Z := 112.
Definition TF_A1 : Z := 120.
Definition TF_A7 : Z := 168.
Definition TF_SIZE : Z := 288.

(** [safestrcpy] on character arrays: the new contents of the array [old] of at
    least [n] characters. *)
Fixpoint safestrcpy_chars (old t : list Z) (n : nat) : list Z :=
  match n with
  | O => old
  | S O => 0 :: tail old
  | S n =>
      let c := default 0 (head t) in
      c :: (if c =? 0 then 0 :: tail (tail old) else safestrcpy_chars (tail old) (tail t) n)
  end.

(** The bytes of an integer of [n] bytes. *)
Definition le_bytes (n : nat) (v : Z) : list Z := bytes_at (st_le n ∅ 0 v) 0 n.

Definition procstate2str (state : procstate) : string :=
  match state with
  | UNUSED => "UNUSED" | USED => "USED" | SLEEPING => "SLEEPING"
  | RUNNABLE => "RUNNABLE" | RUNNING => "RUNNING" | ZOMBIE => "ZOMBIE"
  end.

(** The table [states] of [procdump]. *)
Definition dump_state (state : procstate) : string :=
  match state with
  | UNUSED => "unused" | USED => "used" | SLEEPING => "sleep "
  | RUNNABLE => "runble" | RUNNING => "run   " | ZOMBIE => "zombie"
  end.

(** A loop [for(p = proc; p < &proc[NPROC]; p++)] that can be left early. *)
Fixpoint proc_loop {A} (p : Z) (k : nat) (body : Z -> M kst (option A)) : M kst (option A) :=
  match k with
  | O => mret None
  | S k =>
      r ← body p;
      match r with
      | Some a => mret (Some a)
      | None => proc_loop (p + 1) k body
      end
  end.

Definition for_procs {A} (body : Z -> M kst (option A)) : M kst (option A) :=
  proc_loop 0 (Z.to_nat NPROC) body.

(** The calls of [initlock] are left out: a spin lock that is free has no state here
    (see Spinlock for the locks themselves). *)
Definition procinit : M kst unit :=
  for_procs (fun p => setp p (pset_state UNUSED);; setp p (pset_kstack (KSTACK p));; mret (@None unit));;
  mret tt.

(** The characters of an array up to its NUL. *)
Fixpoint chars (a : list Z) : list Z :=
  match a with
  | [] => []
  | c :: a => if c =? 0 then [] else c :: chars a
  end.

(** The value of [p->state] is always one of the enumeration. *)
Definition procdump : M kst unit :=
  printf true [10] [];;
  for_procs (fun p =>
    x ← getp (fun x => x) p;
    (if decide (p_state x = UNUSED) then mret tt
     else
       printf true (bytes "%d %s %s")
         [PInt (p_pid x); PStr (Some (bytes (dump_state (p_state x)))); PStr (Some (chars (p_name x)))];;
       printf true [10] []);;
    mret (@None unit));;
  mret tt.

(** A pointer to the name is the index of its process. *)
Definition name (pid : Z) : M kst (option Z) :=
  acquire LkWait;;
  r ← for_procs (fun pp =>
    q ← getp p_pid pp;
    if q =? pid then release LkWait;; mret (Some pp) else mret None);
  match r with
  | Some pp => mret (Some pp)
  | None => release LkWait;; mret None
  end.

Definition state (pid : Z) : M kst (option string) :=
  acquire LkWait;;
  r ← for_procs (fun pp =>
    q ← getp p_pid pp;
    if q =? pid then
      release LkWait;;
      st ← getp p_state pp;
      mret (Some (procstate2str st))
    else mret None);
  match r with
  | Some st => mret (Some st)
  | None => release LkWait;; mret None
  end.

Definition allocpid : M kst Z :=
  acquire LkPid;;
  pid ← gets k_nextpid;
  modify (fun s => set_nextpid (s32 (k_nextpid s + 1)) s);;
  release LkPid;;
  mret pid.

Section proc.
Variable virtio_disk_rw : Z -> bool -> M bcache unit.
(** Linker symbols: the end of the kernel, the trampoline page, [forkret]. *)
Variables kend trampoline forkret_addr : Z.
Variable fuel : nat.

(** *** Address spaces *)

(** [trapframe] is [p->trapframe]. *)
Definition proc_pagetable (trapframe : Z) : M kmem Z :=
  pagetable ← uvmcreate;
  if pagetable =? 0 then mret 0
  else
    r ← mappages pagetable TRAMPOLINE PGSIZE trampoline (Z.lor PTE_R PTE_X);
    if r <? 0 then uvmfree kend pagetable 0;; mret 0
    else
      r ← mappages pagetable TRAPFRAME PGSIZE trapframe (Z.lor PTE_R PTE_W);
      if r <? 0 then
        uvmunmap kend pagetable TRAMPOLINE 1 false;;
        uvmfree kend pagetable 0;;
        mret 0
      else mret pagetable.

Definition proc_freepagetable (pagetable sz : Z) : M kmem unit :=
  uvmunmap kend pagetable TRAMPOLINE 1 false;;
  uvmunmap kend pagetable TRAPFRAME 1 false;;
  uvmfree kend pagetable sz.

(** *** Allocation *)

Definition freeproc (p : Z) : M kst unit :=
  tf ← getp p_trapframe p;
  when (negb (tf =? 0)) (zoom k_mem (kfree kend tf));;
  setp p (pset_trapframe 0);;
  pt ← getp p_pagetable p;
  sz ← getp p_sz p;
  when (negb (pt =? 0)) (zoom k_mem (proc_freepagetable pt sz));;
  setp p (pset_pagetable 0);;
  setp p (pset_sz 0);;
  setp p (pset_pid 0);;
  setp p (pset_parent None);;
  setp p (fun x => pset_name (0 :: tail (p_name x)) x);;
  setp p (pset_chan None);;
  setp p (pset_killed 0);;
  setp p (pset_xstate 0);;
  setp p (pset_state UNUSED).

Definition allocproc : M kst (option Z) :=
  r ← for_procs (fun p =>
    acquire (LkProc p);;
    st ← getp p_state p;
    if decide (st = UNUSED) then mret (Some p)
    else release (LkProc p);; mret None);
  match r with
  | None => mret None
  | Some p =>
      pid ← allocpid;
      setp p (pset_pid pid);;
      setp p (pset_state USED);;
      tf ← zoom k_mem kalloc;
      setp p (pset_trapframe tf);;
      if tf =? 0 then freeproc p;; release (LkProc p);; mret None
      else
        pt ← zoom k_mem (proc_pagetable tf);
        setp p (pset_pagetable pt);;
        if pt =? 0 then freeproc p;; release (LkProc p);; mret None
        else
          ks ← getp p_kstack p;
          setp p (pset_context (Context_ forkret_addr (ks + PGSIZE) (replicate 12 0)));;
          mret (Some p)
  end.
(** [initcode]: the machine code of a program that executes /init. *)
Definition initcode : list Z :=
  [23; 5; 0; 0; 19; 5; 69; 2; 151; 5; 0; 0; 147; 133; 53; 2;
   147; 8; 112; 0; 115; 0; 0; 0; 147; 8; 32; 0; 115; 0; 0; 0;
   239; 240; 159; 255; 47; 105; 110; 105; 116; 0; 0; 36; 0; 0; 0; 0; 0; 0; 0; 0].

(** [uvmfirst] takes its bytes from memory: [src] is where the linker put
    [initcode]. *)
Definition userinit (src : Z) : M kst unit :=
  r ← allocproc;
  modify (set_initproc r);;
  match r with
  | None => panic "kerneltrap"
  | Some p =>
      pt ← getp p_pagetable p;
      zoom k_mem (uvmfirst pt src (Z.of_nat (length initcode)));;
      setp p (pset_sz PGSIZE);;
      tf ← getp p_trapframe p;
      zoom k_mem (on_mem (fun m => st64 m (tf + TF_EPC) 0));;
      zoom k_mem (on_mem (fun m => st64 m (tf + TF_SP) PGSIZE));;
      setp p (fun x => pset_name (safestrcpy_chars (p_name x) (bytes "initcode") 16) x);;
      cwd ← zoom (k_files p) (zoom fs_of (namei virtio_disk_rw 0 fuel 0 0 [slash]));
      setp p (pset_cwd cwd);;
      setp p (pset_state RUNNABLE);;
      release (LkProc p)
  end.

Definition growproc (me n : Z) : M kst Z :=
  sz ← getp p_sz me;
  pt ← getp p_pagetable me;
  if 0 <? n then
    sz ← zoom k_mem (uvmalloc kend pt sz (u64 (sz + n)) PTE_W);
    if sz =? 0 then mret (-1)
    else setp me (pset_sz sz);; mret 0
  else if n <? 0 then
    sz ← zoom k_mem (uvmdealloc kend pt sz (u64 (sz + n)));
    setp me (pset_sz sz);; mret 0
  else setp me (pset_sz sz);; mret 0.

(** *** Fork *)

Fixpoint fork_files (me np i : Z) (k : nat) : M kst unit :=
  match k with
  | O => mret tt
  | S k =>
      fds ← getp p_ofile me;
      (match fds !! i with
       | Some f =>
           g ← zoom (k_files me) (filedup f);
           setp np (fun x => pset_ofile (<[i := g]> (p_ofile x)) x)
       | None => mret tt
       end);;
      fork_files me np (i + 1) k
  end.

Definition fork (me : Z) : M kst Z :=
  r ← allocproc;
  match r with
  | None => mret (-1)
  | Some np =>
      pt ← getp p_pagetable me;
      npt ← getp p_pagetable np;
      sz ← getp p_sz me;
      r ← zoom k_mem (uvmcopy kend pt npt sz);
      if r <? 0 then freeproc np;; release (LkProc np);; mret (-1)
      else
        setp np (pset_sz sz);;
        tf ← getp p_trapframe me;
        ntf ← getp p_trapframe np;
        zoom k_mem (on_mem (fun m => memmove m ntf tf TF_SIZE));;
        zoom k_mem (on_mem (fun m => st64 m (ntf + TF_A0) 0));;
        fork_files me np 0 (Z.to_nat NOFILE);;
        cwd ← getp p_cwd me;
        (match cwd with
         | Some ip =>
             ip ← zoom (k_files me) (zoom fs_of (idup ip));
             setp np (pset_cwd (Some ip))
         | None => panic "kerneltrap"
         end);;
        nm ← getp p_name me;
        setp np (fun x => pset_name (safestrcpy_chars (p_name x) nm 16) x);;
        pid ← getp p_pid np;
        release (LkProc np);;
        acquire LkWait;;
        setp np (pset_parent (Some me));;
        release LkWait;;
        acquire (LkProc np);;
        setp np (pset_state RUNNABLE);;
        release (LkProc np);;
        mret pid
  end.

(** *** Sleeping and waking up *)

(** [intr_get()]: on one hart interrupts can be on only while it holds no spin lock, since
    [acquire] turns them off (file Spinlock); they are then taken to be on. *)
Definition interruptible (w : world) : bool := bool_decide (held w = []).

(** The switch to the scheduler of the hart, which releases [p->lock] and
    acquires it again before it resumes the process. *)
Definition sched (me : Z) : M kst unit := fun w s =>
  if decide (LkProc me ∈ held w) then
    if decide (held w = [LkProc me]) then
      if decide (p_state (proc_at s me) = RUNNING) then Panic "sched running"
      else if interruptible w then Panic "sched interruptible"
      else Block (ChProc me) (set_held [] w) s (fun w' s' => Ret (set_held [LkProc me] w') s' tt)
    else Panic "sched locks"
  else Panic "sched p->lock".

Definition yield (me : Z) : M kst unit :=
  acquire (LkProc me);;
  setp me (pset_state RUNNABLE);;
  sched me;;
  release (LkProc me).

(** [sleep]. *)
Definition psleep (me : Z) (c : chan) (lk : lockid) : M kst unit :=
  acquire (LkProc me);;
  release lk;;
  setp me (pset_chan (Some c));;
  setp me (pset_state SLEEPING);;
  sched me;;
  setp me (pset_chan None);;
  release (LkProc me);;
  acquire lk.

(** [wakeup], called by process [me]. *)
(** [wakeup] of a channel, or of a null pointer. *)
Definition pwakeup_on (me : Z) (c : option chan) : M kst unit :=
  for_procs (fun p =>
    (if p =? me then mret tt
     else
       acquire (LkProc p);;
       x ← getp (fun x => x) p;
       when (bool_decide (p_state x = SLEEPING /\ p_chan x = c)) (setp p (pset_state RUNNABLE));;
       release (LkProc p));;
    mret (@None unit));;
  mret tt.

Definition pwakeup (me : Z) (c : chan) : M kst unit := pwakeup_on me (Some c).

Definition kill (pid : Z) : M kst Z :=
  r ← for_procs (fun p =>
    acquire (LkProc p);;
    q ← getp p_pid p;
    if q =? pid then
      setp p (pset_killed 1);;
      st ← getp p_state p;
      when (bool_decide (st = SLEEPING)) (setp p (pset_state RUNNABLE));;
      release (LkProc p);;
      mret (Some 0)
    else release (LkProc p);; mret None);
  mret (default (-1) r).

Definition setkilled (p : Z) : M kst unit :=
  acquire (LkProc p);;
  setp p (pset_killed 1);;
  release (LkProc p).

Definition killed (p : Z) : M kst Z :=
  acquire (LkProc p);;
  k ← getp p_killed p;
  release (LkProc p);;
  mret k.

(** *** Exit and wait *)

(** [wakeup(q)] for a process pointer that may be null. *)
Definition wakeup_proc (me : Z) (q : option Z) : M kst unit :=
  pwakeup_on me (ChProc <$> q).

Definition reparent (me p : Z) : M kst unit :=
  for_procs (fun pp =>
    x ← getp p_parent pp;
    when (bool_decide (x = Some p))
      (init ← gets k_initproc;
       setp pp (pset_parent init);;
       wakeup_proc me init);;
    mret (@None unit));;
  mret tt.

Fixpoint exit_files (me pid fd : Z) (k : nat) : M kst unit :=
  match k with
  | O => mret tt
  | S k =>
      fds ← getp p_ofile me;
      (match fds !! fd with
       | Some f =>
           zoom (k_files me) (fileclose virtio_disk_rw kend pid fuel f);;
           setp me (fun x => pset_ofile (delete fd (p_ofile x)) x)
       | None => mret tt
       end);;
      exit_files me pid (fd + 1) k
  end.

Definition exit (me status : Z) : M kst unit :=
  init ← gets k_initproc;
  if bool_decide (init = Some me) then panic "init exiting"
  else
    pid ← getp p_pid me;
    exit_files me pid 0 (Z.to_nat NOFILE);;
    zoom (k_files me) (zoom fs_of (fbegin_op fuel));;
    cwd ← getp p_cwd me;
    (match cwd with
     | Some ip => zoom (k_files me) (zoom fs_of (iput virtio_disk_rw pid fuel ip))
     | None => panic "kerneltrap"
     end);;
    zoom (k_files me) (zoom fs_of (fend_op virtio_disk_rw pid fuel));;
    setp me (pset_cwd None);;
    acquire LkWait;;
    reparent me me;;
    par ← getp p_parent me;
    wakeup_proc me par;;
    acquire (LkProc me);;
    setp me (pset_xstate status);;
    setp me (pset_state ZOMBIE);;
    release LkWait;;
    sched me;;
    panic "zombie exit".

(** One pass over the table: the value to return, or whether there are
    children. *)
Fixpoint wait_scan (me addr pp : Z) (havekids : bool) (k : nat) : M kst (Z + bool) :=
  match k with
  | O => mret (inr havekids)
  | S k =>
      par ← getp p_parent pp;
      if bool_decide (par = Some me) then
        acquire (LkProc pp);;
        x ← getp (fun x => x) pp;
        if decide (p_state x = ZOMBIE) then
          pt ← getp p_pagetable me;
          r ← (if negb (addr =? 0) then zoom k_mem (copyout pt addr (le_bytes 4 (u32 (p_xstate x)))) else mret 0);
          if r <? 0 then
            release (LkProc pp);;
            release LkWait;;
            mret (inl (-1))
          else
            freeproc pp;;
            release (LkProc pp);;
            release LkWait;;
            mret (inl (p_pid x))
        else
          release (LkProc pp);;
          wait_scan me addr (pp + 1) true k
      else wait_scan me addr (pp + 1) havekids k
  end.

Fixpoint wait_loop (me addr : Z) (k : nat) : M kst Z :=
  r ← wait_scan me addr 0 false (Z.to_nat NPROC);
  match r with
  | inl v => mret v
  | inr havekids =>
      kl ← (if negb havekids then mret 1 else killed me);
      if negb (kl =? 0) then release LkWait;; mret (-1)
      else
        match k with
        | O => diverge
        | S k => psleep me (ChProc me) LkWait;; wait_loop me addr k
        end
  end.

Definition wait (me addr : Z) : M kst Z :=
  acquire LkWait;;
  wait_loop me addr fuel.
End proc.
