(* ===== verification/ProcInv.v ===== *)
(** * The process table: invariant and isolation

    A process runs kernel code from one point where it gives up the processor to
    the next.  At those points, and when a call returns, the process table is
    well formed; in between, the process changes the private fields of its own
    entry and of entries that belong to nobody, and what it does to the others
    is at most to make a sleeping process runnable, to mark it killed or to
    give it a new parent.  In return it can rely on the same from the others. *)

From S2P Require Import Prelude Machine Sleeplock Mem Layout Kalloc Vm Bio Virtio FsHdr Log Printf Uart Console Fs Pipe File Proc.

(** ** The invariant *)

Definition alive (x : proc) : Prop := p_state x = SLEEPING \/ p_state x = RUNNABLE \/ p_state x = RUNNING.

(** The fields that proc.h calls private to the process, and its pid.  The saved
    context is apart, because the process itself changes it each time it sleeps. *)
Definition private (x : proc) :=
  (p_pid x, p_kstack x, p_sz x, p_pagetable x, p_trapframe x, p_ofile x, p_cwd x, p_name x).

(** What [freeproc] leaves. *)
Record blank (x : proc) : Prop := {
  bl_pid : p_pid x = 0; bl_pt : p_pagetable x = 0; bl_tf : p_trapframe x = 0; bl_sz : p_sz x = 0;
  bl_parent : p_parent x = None; bl_chan : p_chan x = None; bl_xstate : p_xstate x = 0; bl_ofile : p_ofile x = ∅; bl_cwd : p_cwd x = None }.

(** Entry [p] of the table; [next] is the next pid. *)
Record proc_ok (next p : Z) (x : proc) : Prop := {
  po_used : p_state x <> USED;
  po_kstack : p_kstack x = KSTACK p;
  po_ofile fd f : p_ofile x !! fd = Some f -> 0 <= fd < NOFILE;
  po_parent q : p_parent x = Some q -> 0 <= q < NPROC;
  po_unused : p_state x = UNUSED -> blank x;
  po_pid : p_state x <> UNUSED -> 0 < p_pid x < next;
  po_zombie : p_state x = ZOMBIE -> p_ofile x = ∅ /\ p_cwd x = None;
  po_sleeping : p_state x = SLEEPING -> is_Some (p_chan x);
  po_alive : alive x -> is_Some (p_cwd x) /\ p_pagetable x <> 0 /\ p_trapframe x <> 0 }.

Record table_ok (s : kst) : Prop := {
  to_dom p : is_Some (k_procs s !! p) <-> 0 <= p < NPROC;
  to_next : 1 <= k_nextpid s < 2 ^ 31;
  to_init q : k_initproc s = Some q -> 0 <= q < NPROC;
  to_proc p : 0 <= p < NPROC -> proc_ok (k_nextpid s) p (proc_at s p);
  to_unique p q : 0 <= p < NPROC -> 0 <= q < NPROC ->
    p_state (proc_at s p) <> UNUSED -> p_state (proc_at s q) <> UNUSED ->
    p_pid (proc_at s p) = p_pid (proc_at s q) -> p = q }.

(** ** Boot *)

Lemma list_fmap_fst_map {A} (g : Z -> A) l : (map (fun i => (i, g i)) l).*1 = l.
Proof. induction l as [|i l IH]; csimpl; [done|]. by f_equal. Qed.

Lemma lookup_zeros {A} n (g : Z -> A) p : zeros n g !! p = if decide (0 <= p < n) then Some (g p) else None.
Proof.
  unfold zeros. case_decide as H.
  - apply elem_of_list_to_map_1.
    + rewrite list_fmap_fst_map. apply NoDup_seqZ.
    + apply list_elem_of_fmap. exists p. split; [done|]. apply elem_of_seqZ. lia.
  - apply not_elem_of_list_to_map_1. rewrite list_fmap_fst_map. rewrite elem_of_seqZ. lia.
Qed.

(** A loop that changes each entry on its own. *)
Definition upd_range (f : Z -> proc -> proc) (p n : Z) (s : kst) : kst :=
  set_procs (map_imap (fun q x => Some (if decide (p <= q < p + n) then f q x else x)) (k_procs s)) s.

Lemma proc_loop_upd {A} (f : Z -> proc -> proc) (body : Z -> M kst (option A)) w p k s :
  (forall q s, p <= q < p + Z.of_nat k -> body q w s = Ret w (upd_proc q (f q) s) None) ->
  proc_loop p k body w s = Ret w (upd_range f p (Z.of_nat k) s) None.
Proof.
  revert p s. induction k as [|k IH]; intros p s Hb; simpl.
  - unfold upd_range. rewrite run_ret. f_equal. destruct s. unfold set_procs. simpl. f_equal.
    apply map_eq. intros q. rewrite map_lookup_imap. destruct (_ !! q); simpl; [|done].
    by rewrite decide_False by lia.
  - run_step (Hb p s); [|lia]. cbv beta iota. rewrite IH by (intros; apply Hb; lia).
    f_equal. unfold upd_range, upd_proc, set_procs. simpl. f_equal. apply map_eq. intros q.
    rewrite !map_lookup_imap. destruct (decide (q = p)) as [->|Hne].
    + rewrite lookup_alter_eq. destruct (k_procs s !! p); simpl; [|done].
      by rewrite decide_False, decide_True by lia.
    + rewrite lookup_alter_ne by done. destruct (k_procs s !! q); simpl; [|done].
      f_equal. destruct (decide (p + 1 <= q < _)); [rewrite decide_True by lia|rewrite decide_False by lia]; done.
Qed.

Lemma for_procs_upd {A} (f : Z -> proc -> proc) (body : Z -> M kst (option A)) w s :
  (forall q s, 0 <= q < NPROC -> body q w s = Ret w (upd_proc q (f q) s) None) ->
  for_procs body w s = Ret w (upd_range f 0 NPROC s) None.
Proof. intros Hb. unfold for_procs. rewrite (proc_loop_upd f); [done|]. intros q s' Hq. apply Hb. unfold NPROC in *. lia. Qed.

(** [procinit] makes a well-formed, empty table of the zeroed one. *)
Definition initial : kst -> kst := upd_range (fun q x => pset_kstack (KSTACK q) (pset_state UNUSED x)) 0 NPROC.

Lemma procinit_run w s : procinit w s = Ret w (initial s) tt.
Proof.
  unfold procinit. erewrite run_bind; [done|]. apply for_procs_upd. intros q s' _.
  unfold setp. rewrite !run_modify, run_ret. f_equal. unfold upd_proc. simpl. by rewrite alter_alter_eq.
Qed.

Lemma proc_at_zeros g s p : k_procs s = zeros NPROC g -> 0 <= p < NPROC -> proc_at s p = g p.
Proof. intros H Hp. unfold proc_at. rewrite H, lookup_zeros. by rewrite decide_True. Qed.

Lemma table_ok_zeros g s :
  k_procs s = zeros NPROC g -> 1 <= k_nextpid s < 2 ^ 31 -> (forall q, k_initproc s = Some q -> 0 <= q < NPROC) ->
  (forall p, 0 <= p < NPROC -> proc_ok (k_nextpid s) p (g p)) ->
  (forall p q, 0 <= p < NPROC -> 0 <= q < NPROC -> p_state (g p) <> UNUSED -> p_state (g q) <> UNUSED ->
    p_pid (g p) = p_pid (g q) -> p = q) -> table_ok s.
Proof.
  intros Hp Hn Hi Hok Hu. split; try done.
  - intros p. rewrite Hp, lookup_zeros. case_decide; split; naive_solver.
  - intros p Hr. rewrite (proc_at_zeros g) by done. auto.
  - intros p q Hr Hq. rewrite !(proc_at_zeros g) by done. auto.
Qed.

(** An entry nobody has used yet. *)
Definition unused_proc (p : Z) : proc := pset_kstack (KSTACK p) proc0.

Lemma unused_proc_ok next p : proc_ok next p (unused_proc p).
Proof. split; simpl; try done; intros [H|[H|H]]; done. Qed.

Lemma initial_ok h : table_ok (initial (kst0 h)).
Proof.
  apply (table_ok_zeros unused_proc); simpl; try done. intros. apply unused_proc_ok.
Qed.

(** C40: procinit makes a well-formed process table of the zeroed one: every entry is unused and
    blank, and the kernel stacks are pages of their own below the trampoline, with at least
    a page that is not mapped between any two of them. *)
Theorem procinit_types h w :
  exists s, procinit w (kst0 h) = Ret w s tt /\ table_ok s /\
  forall p, 0 <= p < NPROC ->
    p_state (proc_at s p) = UNUSED /\
    0 < p_kstack (proc_at s p) /\ p_kstack (proc_at s p) + PGSIZE <= TRAMPOLINE - PGSIZE /\ aligned (p_kstack (proc_at s p)) /\
    forall q, 0 <= q < NPROC -> p < q -> p_kstack (proc_at s q) + 2 * PGSIZE <= p_kstack (proc_at s p).
Proof.
  exists (initial (kst0 h)). split_and!; [apply procinit_run|apply initial_ok|].
  assert (E : forall p, 0 <= p < NPROC -> proc_at (initial (kst0 h)) p = unused_proc p)
    by (intros q Hq; by apply (proc_at_zeros unused_proc)).
  revert E. generalize (initial (kst0 h)). intros s E p Hp. rewrite (E p Hp).
  cbn [unused_proc pset_kstack p_state p_kstack]. unfold KSTACK, TRAMPOLINE, PGSIZE. rewrite MAXVA_val. unfold NPROC in Hp.
  split_and!; [reflexivity|lia..| |].
  - unfold aligned, PGSIZE. Z.to_euclidean_division_equations. lia.
  - intros q Hq Hpq. rewrite (E q Hq). cbn [unused_proc pset_kstack p_kstack]. unfold KSTACK, TRAMPOLINE, PGSIZE.
    rewrite MAXVA_val. lia.
Qed.

(** ** What a process does to the others *)

Definition state_step (a b : procstate) : Prop := b = a \/ (a = SLEEPING /\ b = RUNNABLE).

(** The fields of an entry that another process leaves alone: all but [state], [killed]
    and [parent]. *)
Definition foreign (x : proc) := (private x, p_context x, p_chan x, p_xstate x).

Definition killed_step (a b : Z) : Prop := b = a \/ b = 1.

Definition guar (me : Z) (s s' : kst) : Prop := forall q, q <> me -> alive (proc_at s q) ->
  foreign (proc_at s' q) = foreign (proc_at s q) /\ state_step (p_state (proc_at s q)) (p_state (proc_at s' q)) /\
  killed_step (p_killed (proc_at s q)) (p_killed (proc_at s' q)).

(** What it can rely on when it is resumed: nobody else changes its private
    fields, and the scheduler has made it RUNNING. *)
Definition resumed (me : Z) (s s' : kst) : Prop :=
  table_ok s' /\ p_state (proc_at s' me) = RUNNING /\ private (proc_at s' me) = private (proc_at s me).

Fixpoint safe {A} (me : Z) (s : kst) (r : res kst A) (Q : A -> kst -> Prop) : Prop :=
  match r with
  | Ret _ s' a => guar me s s' /\ Q a s'
  | Block _ _ s' k => guar me s s' /\ table_ok s' /\ forall w' s'', resumed me s' s'' -> safe me s'' (k w' s'') Q
  | Panic _ | Diverge => True
  end.

Lemma state_step_trans a b c : state_step a b -> state_step b c -> state_step a c.
Proof. unfold state_step. intros [->|[-> ->]] [->|[? ->]]; auto; try done. Qed.

Lemma state_step_alive x y : state_step (p_state x) (p_state y) -> alive x -> alive y.
Proof. unfold state_step, alive. intros [->|[? ->]]; auto. Qed.

Lemma guar_refl me s : guar me s s.
Proof. intros q _ _. split_and!; [done|by left..]. Qed.

Lemma guar_trans me s1 s2 s3 : guar me s1 s2 -> guar me s2 s3 -> guar me s1 s3.
Proof.
  intros H1 H2 q Hq Ha. destruct (H1 q Hq Ha) as (Hp & Hs & Hk).
  destruct (H2 q Hq (state_step_alive _ _ Hs Ha)) as (Hp' & Hs' & Hk').
  split_and!; [congruence|by eapply state_step_trans|]. destruct Hk' as [->| ->]; [done|by right].
Qed.

Lemma guar_procs me s s' : k_procs s' = k_procs s -> guar me s s'.
Proof. intros H q _ _. unfold proc_at. rewrite H. split_and!; [done|by left..]. Qed.

(** ** Rules *)

Section rules.
Context (me : Z).
Implicit Types s : kst.

Lemma safe_start {A} s s1 (r : res kst A) Q : guar me s s1 -> safe me s1 r Q -> safe me s r Q.
Proof.
  destruct r as [w s' a| |c w s' k|]; simpl; try done.
  - intros G [G' ?]. split; [by eapply guar_trans|done].
  - intros G (G' & ? & ?). split; [by eapply guar_trans|done].
Qed.

Lemma safe_mono {A} s (r : res kst A) (Q Q' : A -> kst -> Prop) :
  (forall a s', Q a s' -> Q' a s') -> safe me s r Q -> safe me s r Q'.
Proof.
  intros HQ. revert s. induction r as [w s' a| |c w s' k IH|]; simpl; intros s; try done.
  - intros [? ?]. auto.
  - intros (? & ? & Hk). split_and!; try done. intros w' s'' Hr. by apply IH, Hk.
Qed.

Lemma safe_bind_res {A B} s (r : res kst A) (f : A -> M kst B) Q Q' :
  safe me s r Q -> (forall a w s', Q a s' -> safe me s' (f a w s') Q') -> safe me s (bind_res r f) Q'.
Proof.
  intros Hr Hf. revert s Hr. induction r as [w s' a| |c w s' k IH|]; simpl; intros s Hr; try done.
  - destruct Hr as [G HQ]. eapply safe_start; [exact G|by apply Hf].
  - destruct Hr as (G & T & Hk). split_and!; try done. intros w' s'' R. by apply IH, Hk.
Qed.

(** [runs m P Q]: from a state with [P], [m] is safe and returns with [Q]. *)
Definition runs {A} (m : M kst A) (P : kst -> Prop) (Q : A -> kst -> Prop) : Prop :=
  forall w s, P s -> safe me s (m w s) Q.

Lemma runs_bind {A B} (m : M kst A) (f : A -> M kst B) P Q Q' :
  runs m P Q -> (forall a, runs (f a) (Q a) Q') -> runs (m ≫= f) P Q'.
Proof. intros Hm Hf w s HP. eapply safe_bind_res; [by apply Hm|]. intros a w' s' HQ. by apply Hf. Qed.

Lemma runs_pre {A} (m : M kst A) (P P' : kst -> Prop) Q : (forall s, P s -> P' s) -> runs m P' Q -> runs m P Q.
Proof. intros H Hm w s HP. by apply Hm, H. Qed.

Lemma runs_post {A} (m : M kst A) P (Q Q' : A -> kst -> Prop) :
  (forall a s, Q a s -> Q' a s) -> runs m P Q -> runs m P Q'.
Proof. intros H Hm w s HP. eapply safe_mono; [exact H|by apply Hm]. Qed.

Lemma runs_ret {A} (a : A) (P : kst -> Prop) (Q : A -> kst -> Prop) : (forall s, P s -> Q a s) -> runs (mret a) P Q.
Proof. intros H w s HP. split; [apply guar_refl|by apply H]. Qed.

Lemma runs_gets {A} (g : kst -> A) (P : kst -> Prop) (Q : A -> kst -> Prop) :
  (forall s, P s -> Q (g s) s) -> runs (gets g) P Q.
Proof. intros H w s HP. split; [apply guar_refl|by apply H]. Qed.

Lemma runs_modify f (P : kst -> Prop) (Q : unit -> kst -> Prop) :
  (forall s, P s -> guar me s (f s) /\ Q tt (f s)) -> runs (modify f) P Q.
Proof. intros H w s HP. by apply H. Qed.

Lemma runs_panic {A} msg P Q : runs (@panic kst A msg) P Q.
Proof. by intros w s _. Qed.

Lemma runs_diverge {A} P Q : runs (@diverge kst A) P Q.
Proof. by intros w s _. Qed.

Lemma runs_acquire lk (P : kst -> Prop) : runs (acquire lk) P (fun _ => P).
Proof. intros w s HP. unfold acquire. case_decide; [done|]. split; [apply guar_refl|done]. Qed.

Lemma runs_release lk (P : kst -> Prop) : runs (release lk) P (fun _ => P).
Proof. intros w s HP. unfold release. case_decide; [|done]. split; [apply guar_refl|done]. Qed.

Lemma runs_when b m (P : kst -> Prop) (Q : unit -> kst -> Prop) :
  (b = true -> runs m P Q) -> (b = false -> forall s, P s -> Q tt s) -> runs (when b m) P Q.
Proof. destruct b; simpl; intros H1 H2; [by apply H1|]. by apply runs_ret, H2. Qed.

Lemma runs_exists {A B} (m : M kst A) (P : kst -> Prop) (P' : B -> kst -> Prop) Q :
  (forall s, P s -> exists b, P' b s) -> (forall b, runs m (P' b) Q) -> runs m P Q.
Proof. intros H Hm w s HP. destruct (H s HP) as [b Hb]. by apply (Hm b). Qed.

(** A fact that follows from the precondition. *)
Lemma runs_assume {A} (m : M kst A) (P : kst -> Prop) Q (R : Prop) :
  (forall s, P s -> R) -> (R -> runs m P Q) -> runs m P Q.
Proof. intros H Hm w s HP. apply Hm; [by eapply H|done]. Qed.
End rules.

(** ** Computations on other parts of the state *)

(** The parts of the state that the invariant is about. *)
Definition table (s : kst) := (k_procs s, k_nextpid s, k_initproc s).

Definition table_only (P : kst -> Prop) : Prop := forall s s', table s' = table s -> P s -> P s'.

Definition off_table {T} (l : lens kst T) : Prop := forall t s, table (upd l t s) = table s.

Lemma proc_at_table s s' p : table s' = table s -> proc_at s' p = proc_at s p.
Proof. unfold table, proc_at. intros H. by injection H as -> _ _. Qed.

Lemma table_ok_table : table_only table_ok.
Proof.
  intros s s' H T. unfold table in H. injection H as Hp Hn Hi.
  assert (Hat : forall p, proc_at s' p = proc_at s p) by (intros p; unfold proc_at; by rewrite Hp).
  destruct T as [T1 T2 T3 T4 T5]. split; rewrite ?Hn.
  - intros p. rewrite Hp. apply T1.
  - done.
  - intros q. rewrite Hi. apply T3.
  - intros p. rewrite Hat. apply T4.
  - intros p q. rewrite !Hat. apply T5.
Qed.

Lemma guar_table me s s' : table s' = table s -> guar me s s'.
Proof. intros H. apply guar_procs. unfold table in H. by injection H. Qed.

(** The process is running, its private fields satisfy [P], and the table is
    well formed. *)
Definition here (me : Z) (P : proc -> Prop) (s : kst) : Prop :=
  table_ok s /\ p_state (proc_at s me) = RUNNING /\ P (proc_at s me).

(** A condition on private fields only. *)
Definition private_only (P : proc -> Prop) : Prop := forall x y, private x = private y -> P x -> P y.

Lemma here_table me P : table_only (here me P).
Proof.
  intros s s' H (T & R & HP). unfold here. rewrite (proc_at_table _ _ _ H).
  split_and!; [exact (table_ok_table s s' H T)|done|done].
Qed.

Lemma runs_zoom {T A} me (l : lens kst T) (m : M T A) P :
  off_table l -> private_only P -> runs me (zoom l m) (here me P) (fun _ => here me P).
Proof.
  intros Hl HP w s Hs. unfold zoom. generalize (m w (view l s)). intros r. revert s Hs.
  induction r as [w' t a| |c w' t k IH|]; intros s Hs; simpl; try done.
  - split; [apply guar_table, Hl|exact (here_table me P _ _ (Hl t s) Hs)].
  - split; [apply guar_table, Hl|]. split; [exact (table_ok_table _ _ (Hl t s) (proj1 Hs))|].
    intros w'' s'' (T'' & R & Hp). apply IH. split_and!; [done|done|].
    eapply HP; [symmetry; exact Hp|]. rewrite (proc_at_table s _ me (Hl t s)). apply Hs.
Qed.

(** *** Computations that do not sleep *)

Definition nonblocking {D A} (m : M D A) : Prop := forall w d, match m w d with Block _ _ _ _ => False | _ => True end.

Lemma runs_zoom_nb {T A} me (l : lens kst T) (m : M T A) P :
  off_table l -> nonblocking m -> table_only P -> runs me (zoom l m) P (fun _ => P).
Proof.
  intros Hl Hm HP w s Hs. unfold zoom. specialize (Hm w (view l s)).
  destruct (m w (view l s)) as [w' t a| | |]; simpl; try done.
  split; [apply guar_table, Hl|exact (HP _ _ (Hl t s) Hs)].
Qed.

Section nonblocking.
Context {D : Type}.

Lemma nb_bind {A B} (m : M D A) (f : A -> M D B) : nonblocking m -> (forall a, nonblocking (f a)) -> nonblocking (m ≫= f).
Proof.
  intros Hm Hf w d. unfold mbind, M_bind. specialize (Hm w d).
  destruct (m w d) as [w' d' a| |c w' d' k|]; simpl; try done. apply Hf.
Qed.

Lemma nb_ret {A} (a : A) : nonblocking (mret a : M D A). Proof. done. Qed.
Lemma nb_gets {A} (f : D -> A) : nonblocking (gets f). Proof. done. Qed.
Lemma nb_modify (f : D -> D) : nonblocking (modify f). Proof. done. Qed.
Lemma nb_panic {A} msg : nonblocking (@panic D A msg). Proof. done. Qed.
Lemma nb_diverge {A} : nonblocking (@diverge D A). Proof. done. Qed.
Lemma nb_acquire lk : nonblocking (@acquire D lk).
Proof. intros w d. unfold acquire. by case_decide. Qed.
Lemma nb_release lk : nonblocking (@release D lk).
Proof. intros w d. unfold release. by case_decide. Qed.
Lemma nb_wakeup c : nonblocking (@wakeup D c). Proof. done. Qed.
Lemma nb_conschar c : nonblocking (@conschar D c). Proof. done. Qed.
Lemma nb_when b (m : M D unit) : nonblocking m -> nonblocking (when b m).
Proof. by destruct b. Qed.
End nonblocking.

Lemma nb_zoom {S T A} (l : lens S T) (m : M T A) : nonblocking m -> nonblocking (zoom l m).
Proof. intros Hm w s. unfold zoom. specialize (Hm w (view l s)). by destruct (m w (view l s)). Qed.

Create HintDb nb.
#[export] Hint Resolve nb_ret nb_gets nb_modify nb_panic nb_diverge nb_acquire nb_release nb_wakeup nb_conschar : nb.

(** Step through a computation. *)
Ltac nb :=
  repeat first
    [ progress intros
    | lazymatch goal with
      | |- nonblocking (match ?x with _ => _ end) => destruct x
      | |- nonblocking (_ ≫= _) => apply nb_bind
      | |- nonblocking (when _ _) => apply nb_when
      | |- nonblocking (zoom _ _) => apply nb_zoom
      end
    | solve [auto with nb] ].

Lemma nb_on_mem f : nonblocking (on_mem f).
Proof. unfold on_mem. nb. Qed.
Lemma nb_ldpte pte : nonblocking (ldpte pte).
Proof. unfold ldpte. nb. Qed.
Lemma nb_stpte pte v : nonblocking (stpte pte v).
Proof. apply nb_on_mem. Qed.
#[export] Hint Resolve nb_on_mem nb_ldpte nb_stpte : nb.

Lemma nb_kalloc : nonblocking kalloc.
Proof. unfold kalloc. nb. Qed.
Lemma nb_kfree kend pa : nonblocking (kfree kend pa).
Proof. unfold kfree. nb. Qed.
#[export] Hint Resolve nb_kalloc nb_kfree : nb.

Lemma nb_walk_loop level pt va alloc : nonblocking (walk_loop level pt va alloc).
Proof. revert pt. induction level; simpl; nb. Qed.
Lemma nb_walk pt va alloc : nonblocking (walk pt va alloc).
Proof. unfold walk. pose proof nb_walk_loop. nb. Qed.
#[export] Hint Resolve nb_walk : nb.
Lemma nb_walkaddr pt va : nonblocking (walkaddr pt va).
Proof. unfold walkaddr. nb. Qed.
#[export] Hint Resolve nb_walkaddr : nb.

Lemma nb_mappages_loop pt a last pa perm k : nonblocking (mappages_loop pt a last pa perm k).
Proof. revert a pa. induction k; simpl; nb. Qed.
Lemma nb_mappages pt va size pa perm : nonblocking (mappages pt va size pa perm).
Proof. unfold mappages. pose proof nb_mappages_loop. nb. Qed.
#[export] Hint Resolve nb_mappages : nb.

Lemma nb_uvmunmap_loop kend pt a lim f k : nonblocking (uvmunmap_loop kend pt a lim f k).
Proof. revert a. induction k; simpl; nb. Qed.
Lemma nb_uvmunmap kend pt va n f : nonblocking (uvmunmap kend pt va n f).
Proof. unfold uvmunmap. pose proof nb_uvmunmap_loop. nb. Qed.
#[export] Hint Resolve nb_uvmunmap : nb.

Lemma nb_freewalk_loop f pt i n : (forall c, nonblocking (f c)) -> nonblocking (freewalk_loop f pt i n).
Proof. intros Hf. revert i. induction n; simpl; nb. Qed.
Lemma nb_freewalk kend pt : nonblocking (freewalk kend pt).
Proof.
  unfold freewalk. generalize 3%nat. intros n. revert pt. induction n as [|n IH]; cbn [freewalk_rec]; [nb|]. intros pt.
  apply nb_bind; [by apply nb_freewalk_loop|nb].
Qed.
#[export] Hint Resolve nb_freewalk : nb.

Lemma nb_uvmfree kend pt sz : nonblocking (uvmfree kend pt sz).
Proof. unfold uvmfree. nb. Qed.
Lemma nb_uvmcreate : nonblocking uvmcreate.
Proof. unfold uvmcreate. nb. Qed.
Lemma nb_uvmdealloc kend pt a b : nonblocking (uvmdealloc kend pt a b).
Proof. unfold uvmdealloc. nb. Qed.
#[export] Hint Resolve nb_uvmfree nb_uvmcreate nb_uvmdealloc : nb.

Lemma nb_uvmcopy_loop kend old new i sz k : nonblocking (uvmcopy_loop kend old new i sz k).
Proof. revert i. induction k; simpl; nb. Qed.
Lemma nb_uvmcopy kend old new sz : nonblocking (uvmcopy kend old new sz).
Proof. unfold uvmcopy. apply nb_uvmcopy_loop. Qed.
Lemma nb_copyout_loop pt dst src k : nonblocking (copyout_loop pt dst src k).
Proof. revert dst src. induction k; simpl; nb. Qed.
Lemma nb_copyout pt dst src : nonblocking (copyout pt dst src).
Proof. unfold copyout. apply nb_copyout_loop. Qed.
#[export] Hint Resolve nb_uvmcopy nb_copyout : nb.

Lemma nb_proc_pagetable kend trampoline tf : nonblocking (proc_pagetable kend trampoline tf).
Proof. unfold proc_pagetable. nb. Qed.
Lemma nb_proc_freepagetable kend pt sz : nonblocking (proc_freepagetable kend pt sz).
Proof. unfold proc_freepagetable. nb. Qed.
Lemma nb_filedup f : nonblocking (filedup f).
Proof. unfold filedup, getf, setf. nb. Qed.
Lemma nb_idup ip : nonblocking (idup ip).
Proof. unfold idup, seti. nb. Qed.
#[export] Hint Resolve nb_proc_pagetable nb_proc_freepagetable nb_filedup nb_idup : nb.

(** ** Changes of the table *)

Lemma proc_at_upd p f s q :
  is_Some (k_procs s !! p) -> proc_at (upd_proc p f s) q = if decide (q = p) then f (proc_at s q) else proc_at s q.
Proof.
  intros [x Hx]. unfold proc_at, upd_proc. simpl. case_decide as E.
  - subst. by rewrite lookup_alter_eq, Hx.
  - by rewrite lookup_alter_ne.
Qed.

Lemma running_range s p : (forall p, is_Some (k_procs s !! p) <-> 0 <= p < NPROC) ->
  p_state (proc_at s p) <> UNUSED -> 0 <= p < NPROC.
Proof. intros Hd Hr. apply Hd. unfold proc_at in Hr. destruct (k_procs s !! p); [by eexists|done]. Qed.

(** Everything but entry [np] is well formed, and nobody else has its [pid]. *)
Record others_ok (np pid : Z) (s : kst) : Prop := {
  oo_range : 0 <= np < NPROC;
  oo_dom p : is_Some (k_procs s !! p) <-> 0 <= p < NPROC;
  oo_next : 1 <= k_nextpid s < 2 ^ 31;
  oo_fresh : 0 < pid < k_nextpid s;
  oo_init q : k_initproc s = Some q -> 0 <= q < NPROC;
  oo_proc p : 0 <= p < NPROC -> p <> np -> proc_ok (k_nextpid s) p (proc_at s p);
  oo_pid p : 0 <= p < NPROC -> p <> np -> p_state (proc_at s p) <> UNUSED -> p_pid (proc_at s p) <> pid;
  oo_unique p q : 0 <= p < NPROC -> 0 <= q < NPROC -> p <> np -> q <> np ->
    p_state (proc_at s p) <> UNUSED -> p_state (proc_at s q) <> UNUSED ->
    p_pid (proc_at s p) = p_pid (proc_at s q) -> p = q }.

Lemma table_ok_others s np : table_ok s -> 0 <= np < NPROC -> p_state (proc_at s np) <> UNUSED ->
  others_ok np (p_pid (proc_at s np)) s.
Proof.
  intros [T1 T2 T3 T4 T5] Hnp Hu. split; auto. by apply T4.
Qed.

Lemma others_table_ok s np pid : others_ok np pid s -> proc_ok (k_nextpid s) np (proc_at s np) ->
  (p_state (proc_at s np) <> UNUSED -> p_pid (proc_at s np) = pid) -> table_ok s.
Proof.
  intros [O0 O1 O2 Of O3 O4 O5 O6] Hok Hpid. split; auto.
  - intros p Hp. destruct (decide (p = np)) as [->|]; auto.
  - intros p q Hp Hq Hup Huq Heq.
    destruct (decide (p = np)) as [->|Hpn], (decide (q = np)) as [->|Hqn]; auto; exfalso.
    + apply (O5 q Hq Hqn Huq). by rewrite <-Heq, Hpid.
    + apply (O5 p Hp Hpn Hup). by rewrite Heq, Hpid.
Qed.

Lemma others_upd np pid s f : others_ok np pid s -> others_ok np pid (upd_proc np f s).
Proof.
  intros [O0 O1 O2 Of O3 O4 O5 O6]. assert (Hs : is_Some (k_procs s !! np)) by by apply O1.
  assert (Hat : forall p, p <> np -> proc_at (upd_proc np f s) p = proc_at s p).
  { intros p Hp. rewrite proc_at_upd by done. by rewrite decide_False. }
  split; simpl; auto.
  - intros p. rewrite lookup_alter_is_Some. apply O1.
  - intros p Hp Hne. rewrite Hat by done. auto.
  - intros p Hp Hne. rewrite Hat by done. auto.
  - intros p q Hp Hq Hnp Hnq. rewrite !Hat by done. auto.
Qed.

(** Entry [np] satisfies [X], the others are well formed. *)
Definition but (np pid : Z) (X : proc -> Prop) (s : kst) : Prop := others_ok np pid s /\ X (proc_at s np).

Lemma but_table np pid X : table_only (but np pid X).
Proof.
  intros s s' H [O HX]. split; [|by rewrite (proc_at_table _ _ _ H)].
  assert (Hat : forall p, proc_at s' p = proc_at s p) by (intros p; by apply proc_at_table).
  unfold table in H. injection H as Hp Hn Hi. destruct O as [O0 O1 O2 Of O3 O4 O5 O6].
  split; rewrite ?Hn; auto.
  - intros p. rewrite Hp. apply O1.
  - intros q. rewrite Hi. apply O3.
  - intros p. rewrite Hat. apply O4.
  - intros p. rewrite Hat. apply O5.
  - intros p q. rewrite !Hat. apply O6.
Qed.

Lemma but_upd np pid (X X' : proc -> Prop) f s :
  but np pid X s -> (forall x, X x -> X' (f x)) -> but np pid X' (upd_proc np f s).
Proof.
  intros [O HX] Hf. split; [by apply others_upd|].
  rewrite proc_at_upd by apply (oo_dom _ _ _ O), (oo_range _ _ _ O). rewrite decide_True by done. auto.
Qed.

Lemma here_but me P s : here me P s ->
  but me (p_pid (proc_at s me)) (fun x => p_pid x = p_pid (proc_at s me) /\ proc_ok (k_nextpid s) me x /\
    p_state x = RUNNING /\ P x) s.
Proof.
  intros (T & R & HP). assert (Hme : 0 <= me < NPROC) by (apply (running_range s); [apply T|by rewrite R]).
  split; [apply table_ok_others; [done|done|by rewrite R]|]. split_and!; try done. by apply T.
Qed.

(** A change of the process's own entry. *)
Lemma runs_set_me me f (P Q : proc -> Prop) :
  (forall next x, proc_ok next me x -> p_state x = RUNNING -> P x ->
    proc_ok next me (f x) /\ p_state (f x) = RUNNING /\ p_pid (f x) = p_pid x /\ Q (f x)) ->
  runs me (setp me f) (here me P) (fun _ => here me Q).
Proof.
  intros Hf. apply runs_modify. intros s Hs. pose proof (here_but _ _ _ Hs) as [O (Hpid & Hok & Hr & HP)].
  destruct (Hf _ _ Hok Hr HP) as (Hok' & Hr' & Hpid' & HQ). 
  assert (Hat : proc_at (upd_proc me f s) me = f (proc_at s me)).
  { rewrite proc_at_upd by apply (oo_dom _ _ _ O), (oo_range _ _ _ O). by rewrite decide_True. }
  split.
  - intros q Hq _. rewrite proc_at_upd by apply (oo_dom _ _ _ O), (oo_range _ _ _ O).
    rewrite decide_False by done. split_and!; [done|by left..].
  - split_and!; [|by rewrite Hat|by rewrite Hat].
    eapply others_table_ok; [by apply others_upd|by rewrite Hat|]. rewrite Hat. by rewrite Hpid'.
Qed.

(** Entry [np] belongs to nobody while the process [me] works on it. *)
Definition making (me : Z) (P : proc -> Prop) (np pid : Z) (X : proc -> Prop) (s : kst) : Prop :=
  but np pid X s /\ p_state (proc_at s me) = RUNNING /\ P (proc_at s me).

Lemma making_table me P np pid X : table_only (making me P np pid X).
Proof.
  intros s s' H (B & R & HP). unfold making. rewrite (proc_at_table _ _ _ H).
  split; [exact (but_table _ _ _ _ _ H B)|done].
Qed.

(** A change of an entry that belongs to nobody. *)
Lemma runs_set_but me np pid f (X X' : proc -> Prop) P :
  me <> np -> (forall x, X x -> ~ alive x) -> (forall x, X x -> X' (f x)) ->
  runs me (setp np f) (making me P np pid X) (fun _ => making me P np pid X').
Proof.
  intros Hne Hna Hf. apply runs_modify. intros s (B & Hr & HP). destruct (B) as [O HX].
  assert (Hs : is_Some (k_procs s !! np)) by apply (oo_dom _ _ _ O), (oo_range _ _ _ O).
  split.
  - intros q Hq Ha. rewrite proc_at_upd by done. case_decide as E; [|split_and!; [done|by left..]].
    subst. by apply Hna in HX.
  - unfold making. rewrite proc_at_upd by done. rewrite decide_False by done. split; [|done]. by eapply but_upd.
Qed.
