(* ===== verification/ProcSafe.v ===== *)
(** * Every function of kernel/proc.c keeps the table well formed *)

From S2P Require Import Prelude Machine Sleeplock Mem Layout Kalloc Vm Bio Virtio FsHdr Log Printf Uart Console Fs Pipe File Proc ProcInv.

Section safe.
Context (me : Z).

(** ** Loops over the table *)

Lemma runs_proc_loop {A} p k (body : Z -> M kst (option A)) (I : kst -> Prop) (Q : A -> kst -> Prop) :
  (forall p', p <= p' < p + Z.of_nat k ->
    runs me (body p') I (fun r s => match r with Some a => Q a s | None => I s end)) ->
  runs me (proc_loop p k body) I (fun r s => match r with Some a => Q a s | None => I s end).
Proof.
  revert p. induction k as [|k IH]; intros p Hb; simpl; [by apply runs_ret|].
  eapply runs_bind; [apply Hb; lia|]. intros [a|]; simpl; [by apply runs_ret|].
  apply IH. intros p' Hp'. apply Hb. lia.
Qed.

Lemma runs_for_procs {A} (body : Z -> M kst (option A)) (I : kst -> Prop) (Q : A -> kst -> Prop) :
  (forall p, 0 <= p < NPROC ->
    runs me (body p) I (fun r s => match r with Some a => Q a s | None => I s end)) ->
  runs me (for_procs body) I (fun r s => match r with Some a => Q a s | None => I s end).
Proof. intros Hb. apply runs_proc_loop. intros p Hp. apply Hb. unfold NPROC in *. lia. Qed.

(** A loop over the table that is not left early. *)
Lemma runs_each (body : Z -> M kst unit) (I : kst -> Prop) :
  (forall p, 0 <= p < NPROC -> runs me (body p) I (fun _ => I)) ->
  runs me (for_procs (fun p => body p;; mret (@None unit));; mret tt) I (fun _ => I).
Proof.
  intros Hb. eapply runs_bind.
  - apply (runs_for_procs _ I (fun _ => I)). intros p Hp. eapply runs_bind; [by apply Hb|].
    intros ?. by apply runs_ret.
  - intros [u|]; by apply runs_ret.
Qed.

(** ** What may happen to any process *)

(** Conditions that survive what processes do to one another. *)
Record stable (I : kst -> Prop) : Prop := {
  sb_dom s p : I s -> is_Some (k_procs s !! p) <-> 0 <= p < NPROC;
  sb_init s q : I s -> k_initproc s = Some q -> 0 <= q < NPROC;
  sb_me s : I s -> p_state (proc_at s me) <> SLEEPING;
  sb_wake s p : I s -> p <> me -> p_state (proc_at s p) = SLEEPING -> I (upd_proc p (pset_state RUNNABLE) s);
  sb_kill s p : I s -> 0 <= p < NPROC -> I (upd_proc p (pset_killed 1) s);
  sb_parent s p q : I s -> 0 <= p < NPROC -> is_Some (p_parent (proc_at s p)) ->
    (forall q', q = Some q' -> 0 <= q' < NPROC) -> I (upd_proc p (pset_parent q) s) }.

(** Changes that leave the fields of others alone. *)
Lemma guar_upd s p f :
  is_Some (k_procs s !! p) -> foreign (f (proc_at s p)) = foreign (proc_at s p) ->
  state_step (p_state (proc_at s p)) (p_state (f (proc_at s p))) ->
  killed_step (p_killed (proc_at s p)) (p_killed (f (proc_at s p))) -> guar me s (upd_proc p f s).
Proof.
  intros Hs Hp Hst Hk q _ _. rewrite proc_at_upd by done.
  case_decide; [subst; auto|split_and!; [done|by left..]].
Qed.

Section stable.
Context (I : kst -> Prop) (Hst : stable I).

Lemma stable_wake p : 0 <= p < NPROC -> p <> me ->
  runs me (setp p (pset_state RUNNABLE)) (fun s => I s /\ p_state (proc_at s p) = SLEEPING) (fun _ => I).
Proof.
  intros Hp Hne. apply runs_modify. intros s [HI Hs]. split; [|by apply (sb_wake _ Hst)].
  apply guar_upd; [by apply (sb_dom _ Hst)|done| |by left]. right. by rewrite Hs.
Qed.

Lemma stable_kill p : 0 <= p < NPROC -> runs me (setp p (pset_killed 1)) I (fun _ => I).
Proof.
  intros Hp. apply runs_modify. intros s HI. split; [|by apply (sb_kill _ Hst)].
  apply guar_upd; [by apply (sb_dom _ Hst)|done|by left|by right].
Qed.

(** Wake a process up if it sleeps. *)
Lemma stable_when_wake p x (b : bool) : 0 <= p < NPROC -> (b = true -> p_state x = SLEEPING) ->
  runs me (when b (setp p (pset_state RUNNABLE))) (fun s => I s /\ proc_at s p = x) (fun _ => I).
Proof.
  intros Hp Hb. apply runs_when; [|by intros _ s [? _]]. intros E. specialize (Hb E).
  destruct (decide (p = me)) as [->|Hne].
  - intros w s [HI Hx]. exfalso. apply (sb_me _ Hst s HI). by rewrite Hx.
  - eapply runs_pre; [|by apply stable_wake]. intros s [HI Hx]. by rewrite Hx.
Qed.

Lemma runs_pwakeup_on c : runs me (pwakeup_on me c) I (fun _ => I).
Proof.
  apply runs_each. intros p Hp. case_match; [by apply runs_ret|].
  eapply runs_bind; [apply runs_acquire|]. intros ?. eapply runs_bind.
  { apply (runs_gets _ _ _ (fun x s => I s /\ proc_at s p = x)). done. }
  intros x. eapply runs_bind.
  - apply stable_when_wake; [done|]. intros Hb. by apply bool_decide_eq_true in Hb as [? _].
  - intros ?. apply runs_release.
Qed.

Lemma runs_wakeup_proc q : runs me (wakeup_proc me q) I (fun _ => I).
Proof. apply runs_pwakeup_on. Qed.

Lemma runs_kill pid : runs me (kill pid) I (fun _ => I).
Proof.
  eapply runs_bind; [|by intros r; apply (runs_ret _ _ (match r with Some _ => I | None => I end)); intros; case_match].
  eapply runs_post; [|apply (runs_for_procs _ I (fun _ => I))]; [by intros [?|] ?|].
  intros p Hp. eapply runs_bind; [apply runs_acquire|]. intros ?.
  eapply runs_bind; [by apply (runs_gets _ _ _ (fun _ => I))|]. intros q. case_match.
  - eapply runs_bind; [by apply stable_kill|]. intros ?.
    eapply runs_bind; [by apply (runs_gets _ _ _ (fun st s => I s /\ p_state (proc_at s p) = st))|]. intros st.
    eapply (runs_bind _ _ _ _ (fun _ => I)).
    + intros w s [HI Hs]. apply (stable_when_wake p (proc_at s p)); [done| |done].
      intros Hb. apply bool_decide_eq_true in Hb. by rewrite Hs.
    + intros ?. eapply runs_bind; [apply runs_release|]. intros ?. by apply runs_ret.
  - eapply runs_bind; [apply runs_release|]. intros ?. by apply runs_ret.
Qed.

Lemma runs_setkilled p : 0 <= p < NPROC -> runs me (setkilled p) I (fun _ => I).
Proof.
  intros Hp. eapply runs_bind; [apply runs_acquire|]. intros ?.
  eapply runs_bind; [by apply stable_kill|]. intros ?. apply runs_release.
Qed.

Lemma runs_killed p : runs me (killed p) I (fun _ => I).
Proof.
  eapply runs_bind; [apply runs_acquire|]. intros ?. eapply runs_bind; [by apply (runs_gets _ _ _ (fun _ => I))|].
  intros k. eapply runs_bind; [apply runs_release|]. intros ?. by apply runs_ret.
Qed.

Lemma runs_reparent p : runs me (reparent me p) I (fun _ => I).
Proof.
  eapply runs_bind; [apply (runs_for_procs _ I (fun _ => I))|intros [?|]; by apply runs_ret]. intros pp Hpp.
  eapply runs_bind; [by apply (runs_gets _ _ _ (fun x s => I s /\ p_parent (proc_at s pp) = x))|]. intros x.
  eapply (runs_bind _ _ _ _ (fun _ => I)); [|intros ?; by apply runs_ret].
  apply runs_when; [|by intros ? s [? _]]. intros Hb. apply bool_decide_eq_true in Hb as ->.
  eapply runs_bind.
  { apply (runs_gets _ _ _ (fun init s => (I s /\ is_Some (p_parent (proc_at s pp))) /\ k_initproc s = init)).
    intros s [HI Hx]. rewrite Hx. split; [split; [done|by eexists]|done]. }
  intros init. eapply runs_bind; [|intros ?; apply runs_wakeup_proc].
  apply runs_modify. intros s [[HI Hx] Hi]. split.
  - apply guar_upd; [by apply (sb_dom _ Hst)|done|by left..].
  - apply (sb_parent _ Hst); try done. intros q' ->. by apply (sb_init _ Hst s).
Qed.

Lemma runs_name pid : runs me (name pid) I (fun _ => I).
Proof.
  eapply runs_bind; [apply runs_acquire|]. intros ?.
  eapply runs_bind; [apply (runs_for_procs _ I (fun _ => I))|].
  - intros p Hp. eapply runs_bind; [by apply (runs_gets _ _ _ (fun _ => I))|]. intros q. case_match; [|by apply runs_ret].
    eapply runs_bind; [apply runs_release|]. intros ?. by apply runs_ret.
  - intros [p|]; [by apply runs_ret|]. eapply runs_bind; [apply runs_release|]. intros ?. by apply runs_ret.
Qed.

Lemma runs_state pid : runs me (state pid) I (fun _ => I).
Proof.
  eapply runs_bind; [apply runs_acquire|]. intros ?.
  eapply runs_bind; [apply (runs_for_procs _ I (fun _ => I))|].
  - intros p Hp. eapply runs_bind; [by apply (runs_gets _ _ _ (fun _ => I))|]. intros q. case_match; [|by apply runs_ret].
    eapply runs_bind; [apply runs_release|]. intros ?.
    eapply runs_bind; [by apply (runs_gets _ _ _ (fun _ => I))|]. intros st. by apply runs_ret.
  - intros [p|]; [by apply runs_ret|]. eapply runs_bind; [apply runs_release|]. intros ?. by apply runs_ret.
Qed.
End stable.

(** ** The conditions in use are stable *)

Lemma proc_ok_wake next p x : proc_ok next p x -> p_state x = SLEEPING -> proc_ok next p (pset_state RUNNABLE x).
Proof.
  intros [H1 H2 H3 H4 H5 H6 H7 H8 H9] Hs. split; simpl; try done.
  - intros _. apply H6. by rewrite Hs.
  - intros _. apply H9. by left.
Qed.

Lemma proc_ok_killed next p x : proc_ok next p x -> proc_ok next p (pset_killed 1 x).
Proof. intros [H1 H2 H3 H4 H5 H6 H7 H8 H9]. split; simpl; try done. intros Hu. by destruct (H5 Hu). Qed.

Lemma proc_ok_parent next p q x :
  proc_ok next p x -> is_Some (p_parent x) -> (forall q', q = Some q' -> 0 <= q' < NPROC) -> proc_ok next p (pset_parent q x).
Proof.
  intros [H1 H2 H3 H4 H5 H6 H7 H8 H9] [q0 Hp] Hq. split; simpl; try done.
  intros Hu. destruct (H5 Hu). congruence.
Qed.

Lemma others_upd_ne np pid s p f :
  others_ok np pid s -> 0 <= p < NPROC -> p <> np -> proc_ok (k_nextpid s) p (f (proc_at s p)) ->
  p_pid (f (proc_at s p)) = p_pid (proc_at s p) ->
  (p_state (proc_at s p) = UNUSED -> p_state (f (proc_at s p)) = UNUSED) ->
  others_ok np pid (upd_proc p f s).
Proof.
  intros [O0 O1 O2 Of O3 O4 O5 O6] Hp Hne Hok Hpid Hu. assert (Hs : is_Some (k_procs s !! p)) by by apply O1.
  assert (Hat : forall q, proc_at (upd_proc p f s) q = if decide (q = p) then f (proc_at s q) else proc_at s q)
    by (intros; by apply proc_at_upd).
  assert (Hpq : forall q, p_pid (proc_at (upd_proc p f s) q) = p_pid (proc_at s q))
    by (intros q; rewrite Hat; case_decide; by subst).
  assert (Huq : forall q, p_state (proc_at (upd_proc p f s) q) <> UNUSED -> p_state (proc_at s q) <> UNUSED)
    by (intros q; rewrite Hat; case_decide; subst; auto).
  split; simpl; auto.
  - intros q. rewrite lookup_alter_is_Some. apply O1.
  - intros q Hq Hqn. rewrite Hat. case_decide; subst; auto.
  - intros q Hq Hqn Huse. rewrite Hpq. auto.
  - intros q1 q2 ? ? ? ? U1 U2. rewrite !Hpq. auto.
Qed.

Lemma table_ok_upd s p f :
  table_ok s -> 0 <= p < NPROC -> proc_ok (k_nextpid s) p (f (proc_at s p)) ->
  p_pid (f (proc_at s p)) = p_pid (proc_at s p) ->
  (p_state (proc_at s p) = UNUSED -> p_state (f (proc_at s p)) = UNUSED) -> table_ok (upd_proc p f s).
Proof.
  intros T Hp Hok Hpid Hu. assert (Hs : is_Some (k_procs s !! p)) by by apply T.
  assert (Hat : forall q, proc_at (upd_proc p f s) q = if decide (q = p) then f (proc_at s q) else proc_at s q)
    by (intros; by apply proc_at_upd).
  assert (Hpq : forall q, p_pid (proc_at (upd_proc p f s) q) = p_pid (proc_at s q))
    by (intros q; rewrite Hat; case_decide; by subst).
  assert (Huq : forall q, p_state (proc_at (upd_proc p f s) q) <> UNUSED -> p_state (proc_at s q) <> UNUSED)
    by (intros q; rewrite Hat; case_decide; subst; auto).
  destruct T as [T1 T2 T3 T4 T5]. split; simpl; auto.
  - intros q. rewrite lookup_alter_is_Some. apply T1.
  - intros q Hq. rewrite Hat. case_decide; subst; auto.
  - intros q1 q2 Hq1 Hq2 U1 U2. rewrite !Hpq. auto.
Qed.

Lemma stable_here P : private_only P -> stable (here me P).
Proof.
  intros HP. split; try (by intros s p (T & _); apply T); try (by intros s (_ & -> & _)).
  - intros s p (T & R & Hpr) Hne Hs.
    assert (Hp : 0 <= p < NPROC) by (apply (running_range s); [apply T|by rewrite Hs]).
    split; [|rewrite proc_at_upd by (by apply T); by rewrite decide_False].
    apply table_ok_upd; try done; [apply proc_ok_wake; [by apply T|done]|by rewrite Hs].
  - intros s p (T & R & Hpr) Hp. split; [apply table_ok_upd; try done; by apply proc_ok_killed, T|].
    rewrite proc_at_upd by (by apply T). case_decide; [|done]. split; [done|]. by eapply HP; [|done].
  - intros s p q (T & R & Hpr) Hp Hpar Hq.
    split; [apply table_ok_upd; try done; apply proc_ok_parent; [by apply T|done|done]|].
    rewrite proc_at_upd by (by apply T). case_decide; [|done]. split; [done|]. by eapply HP; [|done].
Qed.

(** The process itself is on its way out. *)
Lemma stable_but pid X :
  (forall x, X x -> p_state x <> SLEEPING) -> (forall x, X x -> X (pset_killed 1 x)) ->
  (forall x q, X x -> (forall q', q = Some q' -> 0 <= q' < NPROC) -> X (pset_parent q x)) -> stable (but me pid X).
Proof.
  intros Hs Hk Hpa. split; try (by intros s p (O & _); apply O); try (by intros s (_ & HX); apply Hs).
  - intros s p (O & HX) Hne Hsl.
    assert (Hp : 0 <= p < NPROC) by (apply (running_range s); [apply O|by rewrite Hsl]).
    split; [|rewrite proc_at_upd by (by apply (oo_dom _ _ _ O)); by rewrite decide_False].
    apply others_upd_ne; try done; [apply proc_ok_wake; [by apply O|done]|by rewrite Hsl].
  - intros s p B Hp. destruct (decide (p = me)) as [->|Hne]; [by eapply but_upd|]. destruct B as [O HX].
    split; [|rewrite proc_at_upd by (by apply (oo_dom _ _ _ O)); by rewrite decide_False].
    apply others_upd_ne; try done. by apply proc_ok_killed, O.
  - intros s p q B Hp Hpar Hq. destruct (decide (p = me)) as [->|Hne]; [eapply but_upd; eauto|]. destruct B as [O HX].
    split; [|rewrite proc_at_upd by (by apply (oo_dom _ _ _ O)); by rewrite decide_False].
    apply others_upd_ne; try done. apply proc_ok_parent; [by apply O|done|done].
Qed.

(** ** Giving up the processor *)

(** The process has left the state RUNNING. *)
Definition leaving (P : proc -> Prop) (s : kst) : Prop := table_ok s /\ P (proc_at s me).

Lemma runs_sched P : private_only P -> runs me (sched me) (leaving P) (fun _ => here me P).
Proof.
  intros HP w s [T Hp]. unfold sched, interruptible. repeat case_decide; try done. case_bool_decide; [done|]. simpl.
  split; [apply guar_refl|]. split; [done|]. intros w' s' (T' & R & Hpr).
  split; [apply guar_refl|]. split_and!; try done. by eapply HP.
Qed.

Lemma runs_leave P st : st = SLEEPING \/ st = RUNNABLE ->
  (forall x, P x -> st = SLEEPING -> is_Some (p_chan x)) -> (forall x, P x -> P (pset_state st x)) ->
  runs me (setp me (pset_state st)) (here me P) (fun _ => leaving P).
Proof.
  intros Hst Hch HPs. apply runs_modify. intros s (T & R & HP).
  assert (Hme : 0 <= me < NPROC) by (apply (running_range s); [apply T|by rewrite R]).
  assert (Hs : is_Some (k_procs s !! me)) by by apply T. split.
  - intros q Hq _. rewrite proc_at_upd by done. rewrite decide_False by done. split_and!; [done|by left..].
  - split; [|rewrite proc_at_upd by done; rewrite decide_True by done; by apply HPs].
    apply table_ok_upd; try done; [|by rewrite R].
    destruct (to_proc _ T me Hme) as [H1 H2 H3 H4 H5 H6 H7 H8 H9].
    split; simpl; try done; try (by destruct Hst as [->| ->]).
    + intros _. apply H6. by rewrite R.
    + intros Hsl. by eapply Hch.
    + intros _. apply H9. by right; right.
Qed.

(** A change of the process's own public fields. *)
Lemma runs_set_chan P c : private_only P ->
  runs me (setp me (pset_chan c)) (here me P) (fun _ => here me (fun x => P x /\ p_chan x = c)).
Proof.
  intros HP. apply runs_set_me. intros next x [H1 H2 H3 H4 H5 H6 H7 H8 H9] R Hx.
  split_and!; try done; [|by eapply HP; [|done]].
  split; simpl; try done; rewrite R; done.
Qed.

Lemma runs_yield P : private_only P -> runs me (yield me) (here me P) (fun _ => here me P).
Proof.
  intros HP. eapply runs_bind; [apply runs_acquire|]. intros ?.
  eapply runs_bind; [apply (runs_leave P); [by right|done|]|].
  { intros x. by apply HP. }
  intros ?. eapply runs_bind; [by apply runs_sched|]. intros ?. apply runs_release.
Qed.

Lemma runs_psleep P c lk : private_only P -> runs me (psleep me c lk) (here me P) (fun _ => here me P).
Proof.
  intros HP. eapply runs_bind; [apply runs_acquire|]. intros ?.
  eapply runs_bind; [apply runs_release|]. intros ?.
  eapply runs_bind; [by apply runs_set_chan|]. intros ?.
  eapply runs_bind; [apply (runs_leave (fun x => P x /\ p_chan x = Some c)); [by left| |]|].
  { intros x [_ ->] _. by eexists. }
  { intros x [Hx Hc]. split; [by eapply HP; [|done]|done]. }
  intros ?. eapply runs_bind; [eapply runs_pre; [|by apply (runs_sched P)]|].
  { intros s (T & Hx & _). done. }
  intros ?. eapply runs_bind; [by apply runs_set_chan|]. intros ?.
  eapply runs_bind; [apply runs_release|]. intros ?.
  eapply runs_post; [|apply runs_acquire]. by intros ? s (? & ? & ? & _).
Qed.

(** ** Freeing an entry *)

Definition freeable (np : Z) (x : proc) : Prop :=
  ~ alive x /\ p_kstack x = KSTACK np /\ p_ofile x = ∅ /\ p_cwd x = None.

Lemma off_k_mem : off_table k_mem. Proof. done. Qed.
Lemma off_k_files : off_table (k_files me). Proof. done. Qed.

Lemma making_done P np pid X s :
  making me P np pid X s -> (forall x, X x -> proc_ok (k_nextpid s) np x) ->
  (forall x, X x -> p_state x <> UNUSED -> p_pid x = pid) -> here me P s.
Proof.
  intros ((O & HX) & R & HP) Hok Hpid. split; [|done].
  eapply others_table_ok; [done|by apply Hok|by apply Hpid].
Qed.

(** One assignment to the entry: its new contents in terms of the old. *)
Definition after (f : proc -> proc) (X : proc -> Prop) (x : proc) : Prop := exists y, X y /\ x = f y.

Lemma runs_field P np pid f (X : proc -> Prop) :
  me <> np -> (forall x, X x -> ~ alive x) ->
  runs me (setp np f) (making me P np pid X) (fun _ => making me P np pid (after f X)).
Proof. intros Hne Ha. apply runs_set_but; [done|done|]. intros x Hx. by exists x. Qed.

Lemma runs_making_zoom {A} P np pid X (m : M kmem A) : nonblocking m ->
  runs me (zoom k_mem m) (making me P np pid X) (fun _ => making me P np pid X).
Proof. intros Hm. apply runs_zoom_nb; [exact off_k_mem|done|apply making_table]. Qed.

Lemma runs_making_get {A} P np pid X (g : kst -> A) :
  runs me (gets g) (making me P np pid X) (fun _ => making me P np pid X).
Proof. by apply runs_gets. Qed.

Lemma after_dead f X : (forall x, p_state (f x) = p_state x) -> (forall x, X x -> ~ alive x) ->
  forall x, after f X x -> ~ alive x.
Proof. intros Hf HX x (y & Hy & ->). unfold alive. rewrite Hf. by apply HX. Qed.
End safe.

(** Run an assignment, a memory operation or a read on an entry that belongs to
    nobody. *)
Ltac making_step :=
  eapply runs_bind;
    [first [ apply runs_field; [assumption|]
           | apply runs_making_get
           | apply runs_making_zoom; nb
           | apply runs_when; [intros _; apply runs_making_zoom; nb|done] ]|intros ?].

Ltac dead := repeat (apply after_dead; [done|]); try (by intros ? [? _]).

(** The entry an assertion starts from. *)
Ltac unwind :=
  repeat match goal with H : after _ _ _ |- _ => let y := fresh "y" in destruct H as (y & H & ->) end.

Section free.
Context (me : Z).

Lemma runs_freeproc kend P np pid : me <> np ->
  runs me (freeproc kend np) (making me P np pid (freeable np)) (fun _ => here me P).
Proof.
  intros Hne. unfold freeproc, getp.
  do 14 (making_step; [dead..|]).
  eapply runs_post; [|apply runs_field; [done|dead]].
  intros ? s B. eapply making_done; [exact B| |].
  - intros x Hx. unwind. destruct Hx as (_ & Hk & Ho & Hc). split; simpl; try done.
    + intros fd f. by rewrite Ho, lookup_empty.
    + intros [H|[H|H]]; done.
  - intros x (y & _ & ->). done.
Qed.
End free.

Section alloc.
Context (me : Z) (kend trampoline forkret_addr : Z).

(** An unused entry, before a pid is assigned to it. *)
Definition unused_at (P : proc -> Prop) (np : Z) (s : kst) : Prop :=
  here me P s /\ k_nextpid s < 2 ^ 31 - 1 /\ 0 <= np < NPROC /\ p_state (proc_at s np) = UNUSED.

Definition unused_entry (np : Z) (x : proc) : Prop :=
  p_state x = UNUSED /\ blank x /\ p_kstack x = KSTACK np.

Lemma runs_allocpid P np : runs me allocpid (unused_at P np) (fun pid => making me P np pid (unused_entry np)).
Proof.
  eapply runs_bind; [apply runs_acquire|]. intros ?.
  eapply runs_bind; [by apply (runs_gets _ _ _ (fun pid s => unused_at P np s /\ k_nextpid s = pid))|]. intros pid.
  eapply runs_bind.
  { apply (runs_modify _ _ _ (fun _ => making me P np pid (unused_entry np))).
    intros s ((H & Hlt & Hnp & Hu) & Hpid). split; [by apply guar_procs|].
    destruct H as (T & R & HP). pose proof (to_next _ T) as Hn.
    assert (Hs : s32 (k_nextpid s + 1) = pid + 1) by (rewrite s32_small; lia).
    split; [|done]. split; [|split_and!; [done|by apply (to_proc _ T np Hnp)|by apply (to_proc _ T np Hnp)]].
    assert (Hlt' : forall p, 0 <= p < NPROC -> p_state (proc_at s p) <> UNUSED -> 0 < p_pid (proc_at s p) < pid).
    { intros p Hp Hup. rewrite <-Hpid. by apply (to_proc _ T p Hp). }
    destruct T as [T1 T2 T3 T4 T5]. split; simpl; rewrite ?Hs; auto; try lia.
    - intros p Hp _. destruct (T4 p Hp) as [H1 H2 H3 H4 H5 H6 H7 H8 H9]. split; try done.
      intros Hup. specialize (Hlt' p Hp Hup). unfold proc_at in *. simpl in *. lia.
    - intros p Hp _ Hup Heq. specialize (Hlt' p Hp Hup). unfold proc_at in *. simpl in *. lia. }
  intros ?. eapply runs_bind; [apply runs_release|]. intros ?. by apply runs_ret.
Qed.

(** What [allocproc] returns: an entry with a pid, a trapframe and a page table. *)
Record built (np pid : Z) (x : proc) : Prop := {
  bu_state : p_state x = USED; bu_pid : p_pid x = pid; bu_kstack : p_kstack x = KSTACK np;
  bu_ofile : p_ofile x = ∅; bu_cwd : p_cwd x = None; bu_parent : p_parent x = None; bu_chan : p_chan x = None;
  bu_pt : p_pagetable x <> 0; bu_tf : p_trapframe x <> 0 }.

Lemma runs_free_exit {A} P np pid X (a : A) (Q : A -> kst -> Prop) :
  me <> np -> (forall x, X x -> freeable np x) -> (forall s, here me P s -> Q a s) ->
  runs me (freeproc kend np;; release (LkProc np);; mret a) (making me P np pid X) Q.
Proof.
  intros Hne HX HQ. eapply runs_bind.
  { eapply runs_pre; [|by apply (runs_freeproc me kend P np pid)].
    intros s ((O & Hx) & R). split; [split; [done|by apply HX]|done]. }
  intros ?. eapply runs_bind; [apply runs_release|]. intros ?. by apply runs_ret.
Qed.

Lemma runs_allocproc P :
  runs me (allocproc kend trampoline forkret_addr) (fun s => here me P s /\ k_nextpid s < 2 ^ 31 - 1)
    (fun r s => match r with
                | None => here me P s
                | Some np => np <> me /\ exists pid, making me P np pid (built np pid) s
                end).
Proof.
  eapply runs_bind.
  { apply (runs_for_procs me _ (fun s => here me P s /\ k_nextpid s < 2 ^ 31 - 1) (fun np => unused_at P np)).
    intros p Hp. eapply runs_bind; [apply runs_acquire|]. intros ?.
    eapply runs_bind; [by apply (runs_gets _ _ _ (fun st s => (here me P s /\ k_nextpid s < 2 ^ 31 - 1) /\ p_state (proc_at s p) = st))|].
    intros st. case_decide.
    - apply runs_ret. intros s [[? ?] Hst]. by subst.
    - eapply runs_bind; [apply runs_release|]. intros ?. by apply runs_ret; intros s [? _]. }
  intros [np|]; [|by apply runs_ret; intros s [? _]].
  apply (runs_assume _ _ _ _ (me <> np)).
  { intros s ((_ & R & _) & _ & _ & Hu) <-. congruence. }
  intros Hne.
  eapply runs_bind; [apply runs_allocpid|]. intros pid. unfold getp.
  making_step; [intros x (Hu & _) [H|[H|H]]; congruence|].
  making_step; [apply after_dead; [done|]; intros x (Hu & _) [H|[H|H]]; congruence|].
  assert (Hd : forall x, after (pset_state USED) (after (pset_pid pid) (unused_entry np)) x -> ~ alive x).
  { intros x (y & _ & ->) [H|[H|H]]; done. }
  making_step. rename a into tf. making_step; [exact Hd|]. case_match eqn:Etf.
  { apply (runs_free_exit P np pid _ None); [done| |done]. intros x Hx. split; [by refine (after_dead _ _ _ Hd x Hx)|].
    unwind. destruct Hx as (_ & Hb & Hk). split_and!; [done|apply Hb|apply Hb]. }
  making_step. rename a into pt. making_step; [by apply after_dead|]. case_match eqn:Ept.
  { apply (runs_free_exit P np pid _ None); [done| |done].
    intros x Hx. split; [by refine (after_dead _ _ _ (after_dead _ _ _ Hd) x Hx)|].
    unwind. destruct Hx as (_ & Hb & Hk). split_and!; [done|apply Hb|apply Hb]. }
  making_step. making_step; [by do 2 (apply after_dead; [done|])|].
  apply runs_ret. intros s ((O & Hx) & R). split; [done|]. exists pid. split; [|done]. split; [done|].
  zbool. unwind. destruct Hx as (_ & Hb & Hk). destruct Hb. by split.
Qed.
End alloc.
