(* ===== verification/ProcLife.v ===== *)
(** * fork, exit and wait keep the table well formed *)

From S2P Require Import Prelude Machine Sleeplock Mem Layout Kalloc Vm Bio Virtio FsHdr Log Printf Uart Console Fs Pipe File Proc ProcInv ProcSafe.

Section life.
Context (rw : Z -> bool -> M bcache unit) (kend trampoline forkret_addr : Z) (fuel : nat) (me : Z).

(** Reads of the process's own entry, whose value the precondition describes. *)
Lemma runs_making_own {A} P np pid X (g : proc -> A) :
  runs me (getp g me) (making me P np pid X)
    (fun a => making me (fun x => P x /\ g x = a) np pid X).
Proof. by apply runs_gets; intros s (B & R & HP). Qed.

Lemma runs_making_weaken {A} (P P' : proc -> Prop) np pid X (m : M kst A) Q :
  (forall x, P x -> P' x) -> runs me m (making me P' np pid X) Q -> runs me m (making me P np pid X) Q.
Proof. intros H. apply runs_pre. intros s (B & R & HP). split_and!; auto. Qed.

Lemma making_mono (P P' : proc -> Prop) np pid (X X' : proc -> Prop) s :
  (forall x, P x -> P' x) -> (forall x, X x -> X' x) -> making me P np pid X s -> making me P' np pid X' s.
Proof. intros HP HX ((O & Hx) & R & Hp). split_and!; auto. by split; auto. Qed.

(** *** fork *)

(** The entry of the child while its open files are filled in. *)
Definition child (np pid : Z) (x : proc) : Prop :=
  p_state x = USED /\ p_pid x = pid /\ p_kstack x = KSTACK np /\
  (forall fd f, p_ofile x !! fd = Some f -> 0 <= fd < NOFILE) /\ p_parent x = None /\ p_chan x = None /\
  p_pagetable x <> 0 /\ p_trapframe x <> 0.

Lemma child_dead np pid x : child np pid x -> ~ alive x.
Proof. intros (Hs & _) [H|[H|H]]; congruence. Qed.

Lemma runs_fork_files P np pid i k : me <> np -> 0 <= i -> i + Z.of_nat k <= NOFILE ->
  runs me (fork_files me np i k) (making me P np pid (child np pid)) (fun _ => making me P np pid (child np pid)).
Proof.
  intros Hne. revert i. induction k as [|k IH]; intros i Hi Hk; simpl; [by apply runs_ret|].
  eapply runs_bind; [by apply (runs_gets _ _ _ (fun _ => making me P np pid (child np pid)))|]. intros fds.
  eapply runs_bind; [|intros ?; apply IH; lia].
  destruct (fds !! i) as [f|]; [|by apply runs_ret].
  eapply runs_bind.
  { apply (runs_zoom_nb me (k_files me)); [done|nb|apply making_table]. }
  intros g. eapply runs_post; [|apply runs_field; [done|apply child_dead]].
  intros ? s. apply making_mono; [done|]. intros x (y & Hy & ->).
  destruct Hy as (H1 & H2 & H3 & H4 & H5). split_and!; try done; simpl; try apply H5.
  intros fd f'. rewrite lookup_insert. case_decide; [lia|apply H4].
Qed.

Lemma runs_fork P : private_only P ->
  runs me (fork kend trampoline forkret_addr me) (fun s => here me P s /\ k_nextpid s < 2 ^ 31 - 1)
    (fun _ => here me P).
Proof.
  intros HP. eapply runs_bind; [apply runs_allocproc|]. intros [np|]; [|by apply runs_ret].
  apply (runs_assume _ _ _ _ (np <> me)); [by intros s [? _]|]. intros Hnm.
  eapply (runs_exists _ _ _ (fun pid s => making me P np pid (built np pid) s)); [by intros s [_ ?]|]. intros pid.
  assert (Hne : me <> np) by done.
  assert (Hdead : forall x, built np pid x -> ~ alive x) by (intros x [H] [E|[E|E]]; congruence).
  unfold getp. do 4 making_step. case_match.
  { apply runs_free_exit; [done| |done]. intros x Hx. split; [by apply Hdead|]. by destruct Hx. }
  making_step; [done|]. do 4 making_step.
  eapply runs_bind.
  { eapply runs_pre; [|apply (runs_fork_files P np pid 0 (Z.to_nat NOFILE)); [done|done|done]].
    intros s. apply making_mono; [done|]. intros x (y & Hy & ->). destruct Hy as [B1 B2 B3 B4 B5 B6 B7 B8 B9]. split_and!; try done.
    simpl. intros fd f. by rewrite B4, lookup_empty. }
  intros ?. eapply runs_bind; [apply runs_making_get|]. intros cwd. eapply (runs_bind _ _ _ _ (fun _ => making me P np pid
    (fun x => child np pid x /\ is_Some (p_cwd x)))).
  { destruct cwd as [ip|]; [|apply runs_panic].
    eapply runs_bind; [apply (runs_zoom_nb me (k_files me)); [done|nb|apply making_table]|]. intros ip'.
    eapply runs_post; [|apply runs_field; [done|apply child_dead]].
    intros ? s. apply making_mono; [done|]. intros x (y & Hy & ->). split; [done|by eexists]. }
  intros ?. assert (Hcd : forall x, child np pid x /\ is_Some (p_cwd x) -> ~ alive x) by (intros x [? _]; by eapply child_dead).
  making_step. making_step; [exact Hcd|]. making_step.
  eapply runs_bind; [apply runs_release|]. intros ?. eapply runs_bind; [apply runs_acquire|]. intros ?.
  making_step; [by apply after_dead|].
  eapply runs_bind; [apply runs_release|]. intros ?. eapply runs_bind; [apply runs_acquire|]. intros ?.
  making_step; [by do 2 (apply after_dead; [done|])|].
  eapply runs_bind; [apply runs_release|]. intros ?. apply runs_ret. intros s Hs.
  assert (Hme : 0 <= me < NPROC) by (apply (running_range s); [apply Hs|]; by destruct Hs as (_ & -> & _)).
  pose proof (oo_fresh _ _ _ (proj1 (proj1 Hs))) as Hf.
  eapply making_done; [exact Hs| |]; intros x Hx; unwind; destruct Hx as ((H1 & H2 & H3 & H4 & H5 & H6 & H7 & H8) & H9).
  - split; simpl; try done.
    + intros q [= <-]. done.
    + intros _. by rewrite H2.
  - done.
Qed.

(** *** Own memory *)

Lemma runs_own {A} (g : proc -> A) P : runs me (getp g me) (here me P) (fun _ => here me P).
Proof. by apply runs_gets. Qed.

Lemma runs_kmem {A} (m : M kmem A) P : private_only P -> runs me (zoom k_mem m) (here me P) (fun _ => here me P).
Proof. apply runs_zoom. done. Qed.

Lemma runs_files {A} (m : M filest A) P :
  private_only P -> runs me (zoom (k_files me) m) (here me P) (fun _ => here me P).
Proof. apply runs_zoom. done. Qed.

(** Assignments to fields the invariant says nothing about. *)
Lemma runs_set_quiet f :
  (forall x, p_state (f x) = p_state x /\ p_pid (f x) = p_pid x /\ p_kstack (f x) = p_kstack x /\
    p_ofile (f x) = p_ofile x /\ p_parent (f x) = p_parent x /\ p_chan (f x) = p_chan x /\
    p_xstate (f x) = p_xstate x /\ (is_Some (p_cwd x) -> is_Some (p_cwd (f x))) /\ 
    (p_pagetable x <> 0 -> p_pagetable (f x) <> 0) /\ p_trapframe (f x) = p_trapframe x) ->
  runs me (setp me f) (here me (fun _ => True)) (fun _ => here me (fun _ => True)).
Proof.
  intros Hf. apply runs_set_me. intros next x [H1 H2 H3 H4 H5 H6 H7 H8 H9] R _.
  destruct (Hf x) as (E1 & E2 & E3 & E4 & E5 & E6 & E7 & E8 & E9 & E10).
  split_and!; try done; [|congruence]. split; rewrite ?E1, ?E2, ?E3, ?E4, ?E5, ?E6, ?R; try done.
  - rewrite R in H6. apply H6.
  - intros _. destruct H9 as (? & ? & ?); [by right; right|]. rewrite E10. auto.
Qed.

Lemma runs_growproc n : runs me (growproc kend me n) (here me (fun _ => True)) (fun _ => here me (fun _ => True)).
Proof.
  assert (Hs : forall sz, runs me (setp me (pset_sz sz);; mret 0) (here me (fun _ => True)) (fun _ => here me (fun _ => True))).
  { intros sz. eapply runs_bind; [by apply runs_set_quiet|]. intros ?. by apply runs_ret. }
  eapply runs_bind; [apply runs_own|]. intros sz. eapply runs_bind; [apply runs_own|]. intros pt.
  repeat case_match; [| |apply Hs].
  - eapply runs_bind; [by apply runs_kmem|]. intros sz'. case_match; [by apply runs_ret|apply Hs].
  - eapply runs_bind; [by apply runs_kmem|]. intros sz'. apply Hs.
Qed.

(** *** exit *)

(** Descriptors below [fd] are closed. *)
Definition closed_below (fd : Z) (x : proc) : Prop := forall i f, p_ofile x !! i = Some f -> fd <= i.

Lemma closed_private fd : private_only (closed_below fd).
Proof. intros x y H. unfold private in H. injection H as _ _ _ _ _ H _ _. unfold closed_below. by rewrite H. Qed.

Lemma runs_exit_files pid fd k :
  runs me (exit_files rw kend fuel me pid fd k) (here me (closed_below fd))
    (fun _ => here me (closed_below (fd + Z.of_nat k))).
Proof.
  revert fd. induction k as [|k IH]; intros fd; simpl.
  { apply runs_ret. intros s. by rewrite Z.add_0_r. }
  eapply runs_bind.
  { apply (runs_gets _ _ _ (fun fds s => here me (closed_below fd) s /\ p_ofile (proc_at s me) = fds)). done. }
  intros fds. eapply runs_bind; cycle 1.
  { intros ?. eapply runs_post; [|apply IH]. intros ? s. by replace (fd + 1 + Z.of_nat k) with (fd + Z.of_nat (S k)) by lia. }
  destruct (fds !! fd) as [f|] eqn:E.
  - eapply runs_bind.
    { eapply runs_pre; [|apply runs_files, (closed_private fd)]. by intros s [? _]. }
    intros ?. apply runs_set_me. intros next x [H1 H2 H3 H4 H5 H6 H7 H8 H9] R Hc. split_and!; try done.
    + split; simpl; try done; rewrite ?R; try done. intros fd' f'. rewrite lookup_delete_Some. intros [_ ?]. by eapply H3.
    + intros i f' Hi. simpl in Hi. apply lookup_delete_Some in Hi as [Hne Hi]. apply Hc in Hi. lia.
  - apply runs_ret. intros s [(T & R & Hc) Hf]. split_and!; try done. intros i f Hi. pose proof (Hc i f Hi).
    assert (i <> fd) by (intros ->; congruence). lia.
Qed.

(** The process has no files and no directory any more. *)
Definition stripped (pid : Z) (x : proc) : Prop :=
  p_state x = RUNNING /\ p_pid x = pid /\ p_kstack x = KSTACK me /\ p_ofile x = ∅ /\ p_cwd x = None /\
  (forall q, p_parent x = Some q -> 0 <= q < NPROC).

Lemma stable_stripped pid : stable me (but me pid (stripped pid)).
Proof.
  apply stable_but.
  - intros x (R & _). by rewrite R.
  - done.
  - intros x q (H1 & H2 & H3 & H4 & H5 & H6) Hq. by split_and!.
Qed.

Lemma but_mono np pid (X X' : proc -> Prop) s : (forall x, X x -> X' x) -> but np pid X s -> but np pid X' s.
Proof. intros H [O HX]. split; auto. Qed.

Lemma runs_set_but_me pid f (X : proc -> Prop) :
  runs me (setp me f) (but me pid X) (fun _ => but me pid (after f X)).
Proof.
  apply runs_modify. intros s B. split.
  - intros q Hq _. rewrite proc_at_upd by apply (oo_dom _ _ _ (proj1 B)), (oo_range _ _ _ (proj1 B)).
    rewrite decide_False by done. split_and!; [done|by left..].
  - eapply but_upd; [exact B|]. intros x Hx. by exists x.
Qed.

(** The end of [exit]: the children go to init, and the process becomes a zombie. *)
Lemma runs_zombie pid status :
  runs me (acquire LkWait;; reparent me me;; par ← getp p_parent me; wakeup_proc me par;;
    acquire (LkProc me);; setp me (pset_xstate status);; setp me (pset_state ZOMBIE);; release LkWait;;
    sched me;; @panic kst unit "zombie exit") (but me pid (stripped pid)) (fun _ _ => False).
Proof.
  eapply runs_bind; [apply runs_acquire|]. intros ?.
  eapply runs_bind; [apply runs_reparent, stable_stripped|]. intros ?.
  eapply runs_bind; [by apply (runs_gets _ _ _ (fun _ => but me pid (stripped pid)))|]. intros par.
  eapply runs_bind; [apply runs_wakeup_proc, stable_stripped|]. intros ?.
  eapply runs_bind; [apply runs_acquire|]. intros ?.
  eapply runs_bind; [apply runs_set_but_me|]. intros ?. eapply runs_bind; [apply runs_set_but_me|]. intros ?.
  eapply runs_bind; [apply runs_release|]. intros ?.
  eapply (runs_bind _ _ _ _ (fun _ => here me (fun _ => True))); [|intros ?; apply runs_panic].
  eapply runs_pre; [|by apply (runs_sched me (fun _ => True))].
  intros s B. split; [|done]. pose proof (oo_fresh _ _ _ (proj1 B)) as Hf.
  apply (but_mono _ _ _ (fun x => proc_ok (k_nextpid s) me x /\ p_pid x = pid)) in B as [O [Hok Hp]].
  { by eapply others_table_ok. }
  intros x Hx. unwind. destruct Hx as (H1 & H2 & H3 & H4 & H5 & H6). split; [|done].
  split; simpl; try done; [by rewrite H4|by rewrite H2|]. intros [E1|[E1|E1]]; done.
Qed.

Lemma runs_exit status : runs me (exit rw kend fuel me status) (here me (fun _ => True)) (fun _ _ => False).
Proof.
  eapply runs_bind; [by apply (runs_gets _ _ _ (fun _ => here me (fun _ => True)))|]. intros init.
  case_match; [apply runs_panic|]. eapply runs_bind; [apply runs_own|]. intros pid0.
  eapply runs_bind.
  { eapply runs_pre; [|apply (runs_exit_files pid0 0)]. intros s (T & R & _). split_and!; try done.
    intros i f Hi. apply (po_ofile _ _ _ (to_proc _ T me (running_range s me (to_dom _ T) ltac:(by rewrite R))) i f Hi). }
  intros ?. set (E := fun x => p_ofile x = ∅).
  assert (HE : private_only E).
  { intros x y Hp. unfold private in Hp. injection Hp as _ _ _ _ _ Hp _ _. unfold E. by rewrite Hp. }
  eapply (runs_bind _ _ _ _ (fun _ => here me E)).
  { eapply runs_pre; [|by apply runs_files]. intros s (T & R & Hc). split_and!; try done.
    apply map_empty. intros i. destruct (p_ofile (proc_at s me) !! i) as [f|] eqn:Hi; [|done]. exfalso.
    assert (Hme : 0 <= me < NPROC) by (apply (running_range s); [apply T|by rewrite R]).
    pose proof (po_ofile _ _ _ (to_proc _ T me Hme) i f Hi). pose proof (Hc i f Hi). unfold NOFILE in *. lia. }
  intros ?. eapply runs_bind; [apply runs_own|]. intros cwd.
  eapply (runs_bind _ _ _ _ (fun _ => here me E)); [destruct cwd; [by apply runs_files|apply runs_panic]|].
  intros ?. eapply runs_bind; [by apply runs_files|]. intros ?.
  apply (runs_exists _ _ _ (fun pid s => but me pid (fun x => p_state x = RUNNING /\ p_pid x = pid /\ p_kstack x = KSTACK me /\
    p_ofile x = ∅ /\ (forall q, p_parent x = Some q -> 0 <= q < NPROC)) s)).
  { intros s Hs. destruct (here_but _ _ _ Hs) as [O (Hp & Hok & R & He)]. eexists. split; [exact O|]. destruct Hok. by split_and!. }
  intros pid. eapply (runs_bind _ _ _ _ (fun _ => but me pid (stripped pid))).
  { eapply runs_post; [|apply runs_set_but_me]. intros ? s. apply but_mono. intros x (y & (H1 & H2 & H3 & H4 & H5) & ->). by split_and!. }
  intros ?. apply runs_zombie.
Qed.

(** *** wait *)

Lemma zombie_freeable P pp s :
  here me P s -> 0 <= pp < NPROC -> p_state (proc_at s pp) = ZOMBIE ->
  pp <> me /\ making me P pp (p_pid (proc_at s pp)) (freeable pp) s.
Proof.
  intros (T & R & HP) Hpp Hz. split; [by intros ->; congruence|]. split; [|done].
  split; [by apply table_ok_others; [|done|rewrite Hz]|].
  destruct (to_proc _ T pp Hpp) as [H1 H2 H3 H4 H5 H6 H7 H8 H9]. destruct (H7 Hz).
  split_and!; try done. intros [E|[E|E]]; congruence.
Qed.

Lemma runs_wait_scan P addr pp havekids k : private_only P -> 0 <= pp -> pp + Z.of_nat k <= NPROC ->
  runs me (wait_scan kend me addr pp havekids k) (here me P) (fun _ => here me P).
Proof.
  intros HP. revert pp havekids. induction k as [|k IH]; intros pp hk Hp Hk; simpl; [by apply runs_ret|].
  eapply runs_bind; [by apply (runs_gets _ _ _ (fun _ => here me P))|]. intros par.
  case_match; [|apply IH; lia]. eapply runs_bind; [apply runs_acquire|]. intros ?.
  eapply runs_bind; [by apply (runs_gets _ _ _ (fun x s => here me P s /\ proc_at s pp = x))|]. intros x.
  destruct (decide (p_state x = ZOMBIE)) as [Hz|Hz]; cycle 1.
  { eapply (runs_bind _ _ _ _ (fun _ => here me P)); [|intros ?; apply IH; lia].
    eapply runs_pre; [|apply runs_release]. by intros s [? _]. }
  assert (Hrel : forall (v : Z + bool) Q, (forall s, here me P s -> Q v s) ->
    runs me (release (LkProc pp);; release LkWait;; mret v) (here me P) Q).
  { intros v Q HQ. eapply runs_bind; [apply runs_release|]. intros ?.
    eapply runs_bind; [apply runs_release|]. intros ?. by apply runs_ret. }
  set (Z_ := fun s => here me P s /\ p_state (proc_at s pp) = ZOMBIE).
  eapply (runs_bind _ _ _ _ (fun _ => Z_)); [apply runs_gets; by intros s [? <-]|]. intros pt.
  eapply (runs_bind _ _ _ _ (fun _ => Z_)).
  { case_match; [|by apply runs_ret]. apply runs_zoom_nb; [done|nb|]. intros s s' Ht [Hh Hzz].
    split; [exact (here_table me P _ _ Ht Hh)|]. by rewrite (proc_at_table _ _ _ Ht). }
  intros r. case_match; [eapply runs_pre; [|by apply Hrel]; by intros s [? _]|].
  apply (runs_assume _ _ _ _ (pp <> me)).
  { intros s [Hs Hzz]. destruct (zombie_freeable P pp s Hs ltac:(lia) Hzz) as [? _]. done. }
  intros Hne. eapply (runs_bind _ _ _ _ (fun _ => here me P)); [|intros ?; by apply Hrel].
  apply (runs_exists _ _ _ (fun pid => making me P pp pid (freeable pp))).
  { intros s [Hs Hzz]. destruct (zombie_freeable P pp s Hs ltac:(lia) Hzz) as [_ ?]. by eexists. }
  intros pid. by apply runs_freeproc.
Qed.

Lemma runs_wait P addr : private_only P -> runs me (wait kend fuel me addr) (here me P) (fun _ => here me P).
Proof.
  intros HP. eapply runs_bind; [apply runs_acquire|]. intros ?.
  assert (Hst : stable me (here me P)) by by apply stable_here.
  induction fuel as [|k IH]; cbn [wait_loop].
  all: eapply runs_bind; [by apply runs_wait_scan|]; intros [v|hk]; [by apply runs_ret|].
  all: eapply (runs_bind _ _ _ _ (fun _ => here me P));
    [case_match; [by apply runs_ret|by apply runs_killed]|]; intros kl.
  all: case_match; [eapply runs_bind; [apply runs_release|]; intros ?; by apply runs_ret|].
  - apply runs_diverge.
  - eapply runs_bind; [by apply runs_psleep|]. intros ?. apply IH.
Qed.
End life.
