(* ===== verification/Sysarg.v ===== *)
(** * kernel/syscall.c: system call arguments *)

From S2P Require Import Prelude Machine Sleeplock Mem Layout Kalloc Vm Bio Virtio FsHdr Log Printf Uart Console Fs Pipe File Proc.

(** The running process. *)
Section args.
Variable me : Z.

(** A word of the trapframe of the running process. *)
Definition tf_ld (off : Z) : M kst Z :=
  tf ← getp p_trapframe me;
  gets (fun s => ld64 (km_mem (f_mem (k_fs s))) (tf + off)).

Definition tf_st (off v : Z) : M kst unit :=
  tf ← getp p_trapframe me;
  zoom k_mem (on_mem (fun m => st64 m (tf + off) v)).

Definition fetchaddr (addr : Z) : M kst (option Z) :=
  sz ← getp p_sz me;
  if (sz <=? addr) || (sz <? u64 (addr + 8)) then mret None
  else
    pt ← getp p_pagetable me;
    r ← zoom k_mem (copyin pt addr 8);
    if negb (r.1 =? 0) then mret None
    else mret (Some (ld64 (store_bytes ∅ 0 r.2) 0)).

(** The status is the length of the string, or -1; the bytes are what has been
    written to [buf]. *)
Definition fetchstr (addr max : Z) : M kst (Z * list Z) :=
  pt ← getp p_pagetable me;
  r ← zoom k_mem (copyinstr pt addr max);
  if r.1 <? 0 then mret (-1, r.2)
  else mret (Z.of_nat (length r.2) - 1, r.2).

Definition argraw (n : Z) : M kst Z :=
  if (0 <=? n) && (n <=? 5) then tf_ld (TF_A0 + 8 * n) else panic "argraw".

Definition argint (n : Z) : M kst Z := v ← argraw n; mret (s32 v).

Definition argaddr (n : Z) : M kst Z := argraw n.

(** The characters of a string argument, without its NUL, or the error. *)
Definition argstr (n max : Z) : M kst (option (list Z)) :=
  addr ← argaddr n;
  r ← fetchstr addr max;
  if r.1 <? 0 then mret None else mret (Some (take (Z.to_nat r.1) r.2)).
End args.
