(* ===== verification/Sysproc.v ===== *)
(** * kernel/sysproc.c: system calls about processes

    System calls return 64-bit values; -1 is written as such. *)

From S2P Require Import Prelude Machine Sleeplock Mem Layout Kalloc Vm Bio Virtio FsHdr Log Printf Uart Console Fs Pipe File Proc Sysarg.

Section sysproc.
Variable virtio_disk_rw : Z -> bool -> M bcache unit.
Variables kend trampoline forkret_addr : Z.
Variable fuel : nat.
(** The running process. *)
Variable me : Z.
(** What a load from an address that the kernel page table does not map does (the
    trap, see file Trap). *)
Variable kfault : Z -> M kst unit.

Definition sys_exit : M kst Z :=
  n ← argint me 0;
  exit virtio_disk_rw kend fuel me n;;
  mret 0.

Definition sys_getpid : M kst Z := getp p_pid me.

Definition sys_fork : M kst Z := fork kend trampoline forkret_addr me.

Definition sys_wait : M kst Z :=
  p ← argaddr me 0;
  wait kend fuel me p.

Definition sys_sbrk : M kst Z :=
  n ← argint me 0;
  addr ← getp p_sz me;
  r ← growproc kend me n;
  if r <? 0 then mret (-1) else mret addr.

(** [ticks - ticks0 < n] compares as unsigned. *)
Fixpoint sleep_loop (n ticks0 : Z) (k : nat) : M kst Z :=
  t ← gets k_ticks;
  if u32 (t - ticks0) <? u32 n then
    kl ← killed me;
    if negb (kl =? 0) then release LkTicks;; mret (-1)
    else
      match k with
      | O => diverge
      | S k => psleep me ChTicks LkTicks;; sleep_loop n ticks0 k
      end
  else release LkTicks;; mret 0.

Definition sys_sleep : M kst Z :=
  n ← argint me 0;
  acquire LkTicks;;
  ticks0 ← gets k_ticks;
  sleep_loop n ticks0 fuel.

Definition sys_kill : M kst Z :=
  pid ← argint me 0;
  kill pid.

Definition sys_uptime : M kst Z :=
  acquire LkTicks;;
  t ← gets k_ticks;
  release LkTicks;;
  mret t.

(** kernel/string.c: [strlen] of a string of the kernel, or of a null pointer.
    [kvmmake] maps nothing below the PLIC, so the load of the first character
    traps in the second case; it would be executed again if the handler returned. *)
Definition kstrlen (s : option (list Z)) : M kst Z :=
  match s with
  | Some l => mret (Z.of_nat (length (chars l)))
  | None => kfault 0;; diverge
  end.

(** The [n] characters at the start of a string with its NUL. *)
Definition with_nul (n : Z) (s : option (list Z)) : list Z := take (Z.to_nat n) (default [] s ++ [0]).

Definition sys_procname : M kst Z :=
  pid ← argint me 0;
  if pid <? 0 then mret (-1)
  else
    name_ptr ← name pid;
    user_ptr ← argaddr me 1;
    nm ← gets (fun s => (fun pp => p_name (proc_at s pp)) <$> name_ptr);
    n ← kstrlen nm;
    pt ← getp p_pagetable me;
    r ← zoom k_mem (copyout pt user_ptr (with_nul (n + 1) nm));
    if r <? 0 then mret (-1) else mret 1.

Definition sys_state : M kst Z :=
  pid ← argint me 0;
  if pid <? 0 then mret (-1)
  else
    state_ptr ← state pid;
    user_ptr ← argaddr me 1;
    n ← kstrlen (bytes <$> state_ptr);
    pt ← getp p_pagetable me;
    r ← zoom k_mem (copyout pt user_ptr (with_nul (n + 1) (bytes <$> state_ptr)));
    if r <? 0 then mret (-1) else mret 1.

(** The loop of [sys_year] over the process table. *)
Fixpoint year_loop (user_buf size p count : Z) (k : nat) : M kst Z :=
  match k with
  | O => mret count
  | S k =>
      if count <? size then
        x ← getp (fun x => x) p;
        if decide (p_state x = UNUSED) then year_loop user_buf size (p + 1) count k
        else
          pt ← getp p_pagetable me;
          r ← zoom k_mem (copyout pt (u64 (user_buf + 4 * count)) (le_bytes 4 (u32 (p_pid x))));
          if r <? 0 then mret (-1) else year_loop user_buf size (p + 1) (count + 1) k
      else mret count
  end.

Definition sys_year : M kst Z :=
  user_buf ← argaddr me 0;
  user_buf_size ← argint me 1;
  if user_buf_size <=? 0 then mret (-1)
  else year_loop user_buf user_buf_size 0 0 (Z.to_nat NPROC).
End sysproc.
