(* ===== verification/ProcSpec.v ===== *)
(** * kill, wakeup and the calls that look processes up

    What these functions do, exactly, from any state. *)

From S2P Require Import Prelude Machine Sleeplock Mem Layout Kalloc Vm Bio Virtio FsHdr Log Printf Uart Console Fs Pipe File Proc ProcInv Sysarg Sysproc.

(** ** Searches *)

(** The first entry that passes a test. *)
Definition find_proc (t : proc -> bool) (s : kst) : option Z :=
  head (filter (fun p => t (proc_at s p) = true) (seqZ 0 NPROC)).

Lemma proc_loop_find {A} (t : proc -> bool) (body : Z -> M kst (option A)) w s p k :
  (forall q, p <= q < p + Z.of_nat k -> t (proc_at s q) = false -> body q w s = Ret w s None) ->
  (forall q, p <= q < p + Z.of_nat k -> t (proc_at s q) = true -> exists w' s' a, body q w s = Ret w' s' (Some a)) ->
  proc_loop p k body w s =
  match head (filter (fun p => t (proc_at s p) = true) (seqZ p (Z.of_nat k))) with
  | Some q => body q w s
  | None => Ret w s None
  end.
Proof.
  revert p. induction k as [|k IH]; intros p Hf Ht; [done|].
  cbn [proc_loop]. rewrite seqZ_cons by lia. replace (Z.pred (Z.of_nat (S k))) with (Z.of_nat k) by lia.
  destruct (t (proc_at s p)) eqn:E.
  - rewrite filter_cons_True by done. simpl. destruct (Ht p) as (w' & s' & a & Hb); [lia|done|].
    rewrite Hb. by erewrite run_bind by exact Hb.
  - rewrite filter_cons_False by (by rewrite E). erewrite run_bind by (by apply Hf; [lia|]). cbv beta iota.
    apply IH; intros q Hq; [apply Hf|apply Ht]; lia.
Qed.

Lemma for_procs_find {A} (t : proc -> bool) (body : Z -> M kst (option A)) w s :
  (forall q, 0 <= q < NPROC -> t (proc_at s q) = false -> body q w s = Ret w s None) ->
  (forall q, 0 <= q < NPROC -> t (proc_at s q) = true -> exists w' s' a, body q w s = Ret w' s' (Some a)) ->
  for_procs body w s = match find_proc t s with Some q => body q w s | None => Ret w s None end.
Proof.
  intros Hf Ht. unfold for_procs, find_proc. rewrite (proc_loop_find t).
  - by rewrite Z2Nat.id.
  - intros q Hq. apply Hf. unfold NPROC in *. lia.
  - intros q Hq. apply Ht. unfold NPROC in *. lia.
Qed.

Lemma find_proc_Some t s p : find_proc t s = Some p -> 0 <= p < NPROC /\ t (proc_at s p) = true.
Proof.
  unfold find_proc. intros H. apply head_Some_elem_of, list_elem_of_filter in H as [Ht Hp].
  rewrite elem_of_seqZ in Hp. split; [lia|done].
Qed.

(** A search that ends with [found] at the entry it finds. *)
Lemma for_procs_found {A} (t : proc -> bool) (body : Z -> M kst (option A)) w s (found : Z -> res kst (option A)) :
  (forall q, 0 <= q < NPROC -> body q w s = if t (proc_at s q) then found q else Ret w s None) ->
  (forall q, 0 <= q < NPROC -> t (proc_at s q) = true -> exists w' s' a, found q = Ret w' s' (Some a)) ->
  for_procs body w s = match find_proc t s with Some q => found q | None => Ret w s None end.
Proof.
  intros Hb Hf. rewrite (for_procs_find t).
  - destruct (find_proc t s) as [q|] eqn:E; [|done]. apply find_proc_Some in E as [Hq Ht]. by rewrite Hb, Ht.
  - intros q Hq Ht. by rewrite Hb, Ht.
  - intros q Hq Ht. rewrite Hb, Ht by done. auto.
Qed.

(** ** kill *)

Definition kill_entry (x : proc) : proc :=
  let x := pset_killed 1 x in if decide (p_state x = SLEEPING) then pset_state RUNNABLE x else x.

Lemma upd_proc_ext p f g s : f (proc_at s p) = g (proc_at s p) -> upd_proc p f s = upd_proc p g s.
Proof.
  intros H. unfold upd_proc. f_equal. apply map_eq. intros q. destruct (decide (q = p)) as [->|]; [|by rewrite !lookup_alter_ne].
  rewrite !lookup_alter_eq. unfold proc_at in H. destruct (k_procs s !! p); simpl in *; congruence.
Qed.

Lemma upd_proc_upd p f g s : upd_proc p f (upd_proc p g s) = upd_proc p (fun x => f (g x)) s.
Proof. unfold upd_proc. simpl. by rewrite alter_alter_eq. Qed.

(** The run of [kill]. *)
Lemma kill_spec_run pid w s :
  (forall p, LkProc p ∉ held w) -> (forall p, 0 <= p < NPROC -> is_Some (k_procs s !! p)) ->
  kill pid w s =
  match find_proc (fun x => p_pid x =? pid) s with
  | Some p => Ret w (upd_proc p kill_entry s) 0
  | None => Ret w s (-1)
  end.
Proof.
  intros Hw Hd. unfold kill. set (body := fun p : Z => _).
  assert (Hbody : forall p, 0 <= p < NPROC -> body p w s =
    if p_pid (proc_at s p) =? pid then Ret w (upd_proc p kill_entry s) (Some 0) else Ret w s None).
  { intros p Hp. unfold body, getp, setp. rewrite run_acquire, run_gets by done.
    destruct (p_pid (proc_at s p) =? pid); [|by rewrite run_release_acquired].
    rewrite run_modify, run_gets, proc_at_upd, decide_True by auto. simpl.
    case_bool_decide as E; simpl; [rewrite run_modify|rewrite run_bind_ret]; rewrite run_release_acquired, run_ret by done;
      f_equal; rewrite ?upd_proc_upd; apply upd_proc_ext; unfold kill_entry; simpl;
      [by rewrite decide_True|by rewrite decide_False]. }
  pose proof (for_procs_found (fun x => p_pid x =? pid) body w s _ Hbody) as Hrun.
  destruct (find_proc _ s) as [p|]; (erewrite run_bind; [|apply Hrun; by eauto]); done.
Qed.

(** [kill(pid)] marks the first process with that pid as killed, makes it
    runnable if it sleeps, and returns 0; without such a process it changes
    nothing and returns -1.  No lock stays held. *)
Theorem kill_spec pid w s :
  (forall p, LkProc p ∉ held w) -> (forall p, 0 <= p < NPROC -> is_Some (k_procs s !! p)) ->
  kill pid w s =
  match find_proc (fun x => p_pid x =? pid) s with
  | Some p => Ret w (upd_proc p kill_entry s) 0
  | None => Ret w s (-1)
  end.
Proof. apply kill_spec_run. Qed.

(** A process that sleeps, and an unused entry. *)
Definition two_procs (p : Z) : proc :=
  if p =? 0 then
    Proc SLEEPING (Some ChTicks) 0 0 5 None (KSTACK 0) 4096 2147487744 2147491840 (Context_ 0 0 []) ∅ (Some 0) []
  else unused_proc p.

Definition two_kst : kst := set_nextpid 6 (set_procs (zeros NPROC two_procs) (kst0 [])).

Lemma kill_spec_witness :
  kill 5 (World [] [] []) two_kst = Ret (World [] [] []) (upd_proc 0 kill_entry two_kst) 0.
Proof.
  pose proof (kill_spec 5 (World [] [] []) two_kst) as H. simpl held in H.
  rewrite H; [reflexivity| |].
  - intros p. apply not_elem_of_nil.
  - intros p Hp. unfold two_kst. simpl. rewrite lookup_zeros, decide_True by done. by eexists.
Defined.

(** ** What a run that returns leaves *)

Definition post {A} (m : M kst A) (P : kst -> Prop) (Q : A -> kst -> Prop) : Prop :=
  forall w s w' s' a, P s -> m w s = Ret w' s' a -> Q a s'.

Lemma post_bind {A B} (m : M kst A) (f : A -> M kst B) P Q Q' :
  post m P Q -> (forall a, post (f a) (Q a) Q') -> post (m ≫= f) P Q'.
Proof.
  intros Hm Hf w s w' s' b HP H. apply run_bind_inv in H as (w1 & s1 & a & H1 & H2).
  eapply Hf; [|exact H2]. by eapply Hm.
Qed.

Lemma post_ret {A} (a : A) (P : kst -> Prop) (Q : A -> kst -> Prop) : (forall s, P s -> Q a s) -> post (mret a) P Q.
Proof. intros H w s w' s' b HP [= <- <- <-]. auto. Qed.

Lemma post_gets {A} (g : kst -> A) (P : kst -> Prop) : post (gets g) P (fun _ => P).
Proof. intros w s w' s' b HP [= <- <- <-]. auto. Qed.

Lemma post_modify f (P Q : kst -> Prop) : (forall s, P s -> Q (f s)) -> post (modify f) P (fun _ => Q).
Proof. intros H w s w' s' b HP [= <- <- <-]. auto. Qed.

Lemma post_acquire lk P : post (acquire lk) P (fun _ => P).
Proof. intros w s w' s' a HP. unfold acquire. case_decide; [done|]. by intros [= <- <- <-]. Qed.

Lemma post_release lk P : post (release lk) P (fun _ => P).
Proof. intros w s w' s' a HP. unfold release. case_decide; [|done]. by intros [= <- <- <-]. Qed.

Lemma post_zoom {T A} (l : lens kst T) (m : M T A) P : off_table l -> table_only P -> post (zoom l m) P (fun _ => P).
Proof.
  intros Hl HP w s w' s' a Hs. unfold zoom. destruct (m w (view l s)) as [w1 t b| | |]; simpl; try done.
  intros [= <- <- <-]. exact (HP _ _ (Hl t s) Hs).
Qed.

(** ** kill(0) *)

Definition unused (x : proc) : bool := bool_decide (p_state x = UNUSED).

Lemma filter_ext_in {A} (P Q : A -> Prop) `{!forall x, Decision (P x), !forall x, Decision (Q x)} (l : list A) :
  (forall x, x ∈ l -> P x <-> Q x) -> filter P l = filter Q l.
Proof.
  induction l as [|x l IH]; intros HPQ; [done|]. assert (Hl : filter P l = filter Q l) by (apply IH; intros; apply HPQ; by right).
  destruct (decide (P x)) as [Hp|Hp].
  - rewrite !filter_cons_True by (first [done|apply HPQ; [left|done]]). by rewrite Hl.
  - rewrite !filter_cons_False by (first [done|rewrite <-HPQ; [done|left]]). done.
Qed.

Lemma find_proc_ext t t' s s' :
  (forall p, 0 <= p < NPROC -> t (proc_at s p) = t' (proc_at s' p)) -> find_proc t s = find_proc t' s'.
Proof.
  intros H. unfold find_proc. f_equal. apply filter_ext_in. intros p Hp. apply elem_of_seqZ in Hp.
  by rewrite H by lia.
Qed.

(** Entry [np] is marked. *)
Definition marked (np : Z) (s : kst) : Prop := is_Some (k_procs s !! np) /\ p_killed (proc_at s np) = 1.

Lemma marked_table np : table_only (marked np).
Proof.
  intros s s' H [Hs Hk]. unfold marked. rewrite (proc_at_table _ _ _ H). unfold table in H. injection H as -> _ _. done.
Qed.

Lemma post_setp np f : (forall x, p_killed (f x) = p_killed x) -> post (setp np f) (marked np) (fun _ => marked np).
Proof.
  intros Hf. apply post_modify. intros s [Hs Hk]. split; [by apply lookup_alter_is_Some|].
  rewrite proc_at_upd, decide_True by done. by rewrite Hf.
Qed.

(** If [allocproc] finds the entry marked, it returns it marked. *)
Lemma alloc_marked kend trampoline forkret_addr np w s :
  find_proc unused s = Some np -> (forall p, LkProc p ∉ held w) -> marked np s ->
  forall w' s' q, allocproc kend trampoline forkret_addr w s = Ret w' s' (Some q) -> q = np /\ marked np s'.
Proof.
  intros Hf Hw Hm w' s' q H. unfold allocproc in H. apply run_bind_inv in H as (w1 & s1 & r & H1 & H2).
  rewrite (for_procs_found unused _ w s (fun p => Ret (set_held (LkProc p :: held w) w) s (Some p))) in H1; cycle 1.
  { intros p Hp. rewrite run_acquire by done. unfold getp, unused. rewrite run_gets. unfold unused.
    case_decide as E; [by rewrite bool_decide_true|]. rewrite bool_decide_false by done. by rewrite run_release_acquired. }
  { eauto. }
  rewrite Hf in H1. injection H1 as <- <- <-. revert H2.
  match goal with |- ?m _ _ = _ -> _ => assert (Hp : post m (marked np) (fun r s => r = None \/ (r = Some np /\ marked np s))) end.
  { eapply post_bind.
    { unfold allocpid. eapply post_bind; [apply post_acquire|]. intros ?. eapply post_bind; [apply post_gets|]. intros ?.
      eapply post_bind; [apply (post_modify _ _ (marked np)); done|]. intros ?.
      eapply post_bind; [apply post_release|]. intros ?. apply (post_ret _ _ (fun _ => marked np)). done. }
    intros pid. do 2 (eapply post_bind; [by apply post_setp|]; intros ?).
    eapply post_bind; [apply post_zoom; [done|apply marked_table]|]. intros tf.
    eapply post_bind; [by apply post_setp|]. intros ?. case_match.
    { intros wa sa wb sb b _ Hb. left. apply run_bind_inv in Hb as (? & ? & ? & _ & Hb).
      apply run_bind_inv in Hb as (? & ? & ? & _ & Hb). by injection Hb. }
    eapply post_bind; [apply post_zoom; [done|apply marked_table]|]. intros pt.
    eapply post_bind; [by apply post_setp|]. intros ?. case_match.
    { intros wa sa wb sb b _ Hb. left. apply run_bind_inv in Hb as (? & ? & ? & _ & Hb).
      apply run_bind_inv in Hb as (? & ? & ? & _ & Hb). by injection Hb. }
    unfold getp. eapply post_bind; [apply post_gets|]. intros ks.
    eapply post_bind; [by apply post_setp|]. intros ?. apply post_ret. intros s2 Hs. by right. }
  intros H2. destruct (Hp _ _ _ _ _ Hm H2) as [?|[[= ->] ?]]; done.
Qed.

(** C31: [kill(0)] reports success without a process of pid 0: it marks the first
    unused entry of the table.  The mark stays: the next process that
    [allocproc] makes takes just this entry and is killed from the start. *)
Theorem kill_zero_kills_next_child kend trampoline forkret_addr np w s :
  table_ok s -> (forall p, LkProc p ∉ held w) -> find_proc unused s = Some np ->
  exists s1, kill 0 w s = Ret w s1 0 /\
    forall w' s' q, allocproc kend trampoline forkret_addr w s1 = Ret w' s' (Some q) ->
      q = np /\ p_killed (proc_at s' q) = 1.
Proof.
  intros T Hw Hf. pose proof (find_proc_Some _ _ _ Hf) as [Hnp Hu]. apply bool_decide_eq_true in Hu.
  assert (Hs : is_Some (k_procs s !! np)) by by apply T.
  assert (Hfind : find_proc (fun x => p_pid x =? 0) s = Some np).
  { rewrite <-Hf. apply find_proc_ext. intros p Hp. destruct (to_proc _ T p Hp) as [_ _ _ _ H5 H6 _ _ _].
    unfold unused. case_bool_decide as E; [by rewrite (bl_pid _ (H5 E))|]. apply Z.eqb_neq. specialize (H6 E). lia. }
  exists (upd_proc np kill_entry s). split.
  { rewrite kill_spec_run; [by rewrite Hfind|done|]. intros p Hp. by apply T. }
  assert (Hat : forall p, proc_at (upd_proc np kill_entry s) p = if decide (p = np) then pset_killed 1 (proc_at s p) else proc_at s p).
  { intros p. rewrite proc_at_upd by done. case_decide as E; [|done]. subst. unfold kill_entry. simpl.
    rewrite decide_False; [done|]. by rewrite Hu. }
  intros w' s' q Hrun. destruct (alloc_marked kend trampoline forkret_addr np w (upd_proc np kill_entry s)) with (w' := w') (s' := s') (q := q)
    as [-> [_ Hk]]; try done.
  - rewrite <-Hf. apply find_proc_ext. intros p Hp. rewrite Hat. by case_decide.
  - split; [by apply lookup_alter_is_Some|]. rewrite Hat. by rewrite decide_True.
Qed.

(** [two_kst] with six free pages. *)
Definition free_pages : kmem := exec (freerange 2147483648 2147483648 (2147483648 + 6 * PGSIZE)) (World [] [] []) (Kmem ∅ 0).

Definition two_kst_mem : kst := upd k_mem free_pages two_kst.

Lemma two_kst_ok : table_ok two_kst_mem.
Proof.
  apply (table_ok_zeros two_procs); try done.
  - intros p Hp. unfold two_procs. destruct (p =? 0) eqn:E; [zbool; subst|apply unused_proc_ok].
    by split; simpl; try done.
  - intros p q Hp Hq. unfold two_procs. destruct (p =? 0) eqn:E1, (q =? 0) eqn:E2; zbool; try done. by subst.
Qed.

(** Whether a run of [allocproc] returns the entry. *)
Definition returns (q : Z) (r : res kst (option Z)) : bool :=
  match r with Ret _ _ (Some p) => p =? q | _ => false end.

Lemma returns_inv q r : returns q r = true -> exists w s, r = Ret w s (Some q).
Proof. destruct r as [w s [p|]| | |]; try done. simpl. intros H. zbool. subst. by eexists _, _. Qed.

Lemma kill_zero_kills_next_child_witness :
  exists s1 w' s', kill 0 (World [] [] []) two_kst_mem = Ret (World [] [] []) s1 0 /\
    allocproc 2147483648 2147512320 0 (World [] [] []) s1 = Ret w' s' (Some 1) /\
    p_killed (proc_at s' 1) = 1.
Proof.
  destruct (kill_zero_kills_next_child 2147483648 2147512320 0 1 (World [] [] []) two_kst_mem) as (s1 & Hk & Ha).
  - exact two_kst_ok.
  - intros p. apply not_elem_of_nil.
  - vm_compute. reflexivity.
  - assert (Hr : returns 1 (allocproc 2147483648 2147512320 0 (World [] [] []) (exec (kill 0) (World [] [] []) two_kst_mem)) = true)
      by (vm_compute; reflexivity).
    unfold exec in Hr. rewrite Hk in Hr. apply returns_inv in Hr as (w' & s' & Hr).
    exists s1, w', s'. split; [exact Hk|]. split; [exact Hr|]. exact (proj2 (Ha _ _ _ Hr)).
Defined.

(** ** Calls that look a process up *)

Lemma name_run pid w s : LkWait ∉ held w ->
  name pid w s = Ret w s (find_proc (fun x => p_pid x =? pid) s).
Proof.
  intros Hw. unfold name. rewrite run_acquire by done.
  set (w1 := set_held _ w). set (body := fun pp : Z => _).
  pose proof (for_procs_found (fun x => p_pid x =? pid) body w1 s (fun p => Ret w s (Some p))) as Hrun.
  assert (Hb : forall q, 0 <= q < NPROC -> body q w1 s = if p_pid (proc_at s q) =? pid then Ret w s (Some q) else Ret w1 s None).
  { intros q Hq. unfold body, getp. rewrite run_gets. destruct (_ =? pid); [|done].
    unfold w1. by rewrite run_release_acquired. }
  specialize (Hrun Hb). destruct (find_proc _ s) as [p|]; (erewrite run_bind; [|apply Hrun; by eauto]); [done|].
  unfold w1. by rewrite run_release_acquired.
Qed.

Lemma state_run pid w s : LkWait ∉ held w ->
  state pid w s = Ret w s ((fun p => procstate2str (p_state (proc_at s p))) <$> find_proc (fun x => p_pid x =? pid) s).
Proof.
  intros Hw. unfold state. rewrite run_acquire by done.
  set (w1 := set_held _ w). set (body := fun pp : Z => _).
  pose proof (for_procs_found (fun x => p_pid x =? pid) body w1 s
    (fun p => Ret w s (Some (procstate2str (p_state (proc_at s p)))))) as Hrun.
  assert (Hb : forall q, 0 <= q < NPROC -> body q w1 s =
    if p_pid (proc_at s q) =? pid then Ret w s (Some (procstate2str (p_state (proc_at s q)))) else Ret w1 s None).
  { intros q Hq. unfold body, getp. rewrite run_gets. destruct (_ =? pid); [|done].
    unfold w1. by rewrite run_release_acquired. }
  specialize (Hrun Hb). destruct (find_proc _ s) as [p|]; (erewrite run_bind; [|apply Hrun; by eauto]); [done|].
  unfold w1. by rewrite run_release_acquired.
Qed.

(** The value of an argument register. *)
Definition arg_reg (me n : Z) (s : kst) : Z :=
  ld64 (km_mem (view k_mem s)) (p_trapframe (proc_at s me) + (TF_A0 + 8 * n)).

Lemma argraw_run me n w s : 0 <= n <= 5 -> argraw me n w s = Ret w s (arg_reg me n s).
Proof.
  intros Hn. unfold argraw, tf_ld, getp. replace ((0 <=? n) && (n <=? 5)) with true by (symmetry; apply andb_true_intro; lia).
  by rewrite run_gets.
Qed.

Lemma argint_run me n w s : 0 <= n <= 5 -> argint me n w s = Ret w s (s32 (arg_reg me n s)).
Proof. intros Hn. unfold argint. by rewrite (run_bind _ _ _ _ _ _ _ (argraw_run me n w s Hn)). Qed.
