(* ===== verification/Exec.v ===== *)
(** * kernel/exec.c: program images *)

From S2P Require Import Prelude Machine Sleeplock Mem Layout Kalloc Vm Bio Virtio FsHdr Log Printf Uart Console Fs Pipe File Proc Sysarg.

(** kernel/elf.h: [struct elfhdr] and [struct proghdr], the fields in use. *)
Definition ELF_MAGIC : Z := 1179403647.
Definition ELF_PROG_LOAD : Z := 1.
Definition ELFHDR_SIZE : Z := 64.
Definition PROGHDR_SIZE : Z := 56.

Record elfhdr := Elfhdr { elf_magic : Z; elf_entry : Z; elf_phoff : Z; elf_phnum : Z }.

Definition elfhdr_of (bs : list Z) : elfhdr :=
  let m := store_bytes ∅ 0 bs in
  Elfhdr (ld32 m 0) (ld64 m 24) (ld64 m 32) (ld16 m 56).

Record proghdr := Proghdr {
  ph_type : Z; ph_flags : Z; ph_off : Z; ph_vaddr : Z; ph_filesz : Z; ph_memsz : Z }.

Definition proghdr_of (bs : list Z) : proghdr :=
  let m := store_bytes ∅ 0 bs in
  Proghdr (ld32 m 0) (ld32 m 4) (ld64 m 8) (ld64 m 16) (ld64 m 32) (ld64 m 40).

Definition flags2perm (flags : Z) : Z :=
  let perm := if has flags 1 then PTE_X else 0 in
  if has flags 2 then Z.lor perm PTE_W else perm.

(** The loop that sets [last] to what follows the last slash of [path]. *)
Fixpoint basename (last s : list Z) : list Z :=
  match s with
  | [] => last
  | c :: s => basename (if c =? slash then s else last) s
  end.

Section exec.
Variable virtio_disk_rw : Z -> bool -> M bcache unit.
Variables kend trampoline : Z.
Variable fuel : nat.
(** The running process. *)
Variable me : Z.

(** A file system call by the running process: its pid and page table are
    arguments. *)
Definition in_fs {A} (m : Z -> Z -> M fsst A) : M kst A :=
  pid ← getp p_pid me;
  pt ← getp p_pagetable me;
  zoom (k_files me) (zoom fs_of (m pid pt)).

(** One that follows a path: a relative path starts at [cwd], and a null [cwd]
    is a page fault then. *)
Definition in_fs_at {A} (path : list Z) (m : Z -> Z -> Z -> M fsst A) : M kst A :=
  cwd ← getp p_cwd me;
  match cwd with
  | Some cwd => in_fs (fun pid pt => m pid pt cwd)
  | None =>
      if bool_decide (head path = Some slash) then in_fs (fun pid pt => m pid pt 0)
      else panic "kerneltrap"
  end.

Definition k_begin_op : M kst unit := in_fs (fun _ _ => fbegin_op fuel).
Definition k_end_op : M kst unit := in_fs (fun pid _ => fend_op virtio_disk_rw pid fuel).
Definition k_namei (path : list Z) : M kst (option Z) :=
  in_fs_at path (fun pid pt cwd => namei virtio_disk_rw pid fuel pt cwd path).
Definition k_ilock (ip : Z) : M kst unit :=
  in_fs (fun pid _ => ilock virtio_disk_rw pid fuel (Some ip)).
Definition k_iunlockput (ip : Z) : M kst unit :=
  in_fs (fun pid _ => iunlockput virtio_disk_rw pid fuel ip).
Definition k_readi (ip : Z) (dst : iodst) (off n : Z) : M kst (Z * list Z) :=
  in_fs (fun pid pt => readi virtio_disk_rw pid fuel pt ip dst off n).

(** The loop of [loadseg], from [i] on. *)
Fixpoint loadseg_loop (pagetable va ip offset sz i : Z) (k : nat) : M kst Z :=
  if i <? sz then
    match k with
    | O => diverge
    | S k =>
        pa ← zoom k_mem (walkaddr pagetable (u64 (va + i)));
        if pa =? 0 then panic "loadseg: address should exist"
        else
          let n := if sz - i <? PGSIZE then sz - i else PGSIZE in
          r ← k_readi ip (ToKernel pa) (u32 (offset + i)) n;
          if negb (r.1 =? n) then mret (-1)
          else loadseg_loop pagetable va ip offset sz (u32 (i + PGSIZE)) k
    end
  else mret 0.

(** [i] grows by a page at a time. *)
Definition loadseg (pagetable va ip offset sz : Z) : M kst Z :=
  loadseg_loop pagetable va ip offset sz 0 (S (Z.to_nat (sz / PGSIZE))).

(** The loop over the program headers, from [off] on, [k] of them left; the
    result is [sz] and whether all were loaded. *)
Fixpoint exec_load (pagetable ip off sz : Z) (k : nat) : M kst (Z * bool) :=
  match k with
  | O => mret (sz, true)
  | S k =>
      r ← k_readi ip ToLocal (u32 off) PROGHDR_SIZE;
      if negb (r.1 =? PROGHDR_SIZE) then mret (sz, false)
      else
        let ph := proghdr_of r.2 in
        if negb (ph_type ph =? ELF_PROG_LOAD) then
          exec_load pagetable ip (s32 (off + PROGHDR_SIZE)) sz k
        else if ph_memsz ph <? ph_filesz ph then mret (sz, false)
        else if u64 (ph_vaddr ph + ph_memsz ph) <? ph_vaddr ph then mret (sz, false)
        else if negb (ph_vaddr ph mod PGSIZE =? 0) then mret (sz, false)
        else
          sz1 ← zoom k_mem (uvmalloc kend pagetable sz (u64 (ph_vaddr ph + ph_memsz ph)) (flags2perm (ph_flags ph)));
          if sz1 =? 0 then mret (sz, false)
          else
            r ← loadseg pagetable (ph_vaddr ph) ip (u32 (ph_off ph)) (u32 (ph_filesz ph));
            if r <? 0 then mret (sz1, false)
            else exec_load pagetable ip (s32 (off + PROGHDR_SIZE)) sz1 k
  end.

(** The loop that pushes the argument strings, [argv] being the pointers up to
    the null pointer; [None] for [goto bad], else [sp] and [ustack].  The strings
    are shorter than a page. *)
Fixpoint exec_args (pagetable stackbase sp argc : Z) (ustack argv : list Z) : M kst (option (Z * list Z)) :=
  match argv with
  | [] => mret (Some (sp, ustack))
  | a :: argv =>
      if MAXARG <=? argc then mret None
      else
        len ← gets (fun s => strlen (km_mem (f_mem (k_fs s))) a (Z.to_nat PGSIZE));
        match len with
        | None => diverge
        | Some len =>
            let sp := u64 (sp - (len + 1)) in
            let sp := sp - sp mod 16 in
            if sp <? stackbase then mret None
            else
              bs ← gets (fun s => load_bytes (km_mem (f_mem (k_fs s))) a (len + 1));
              r ← zoom k_mem (copyout pagetable sp bs);
              if r <? 0 then mret None
              else exec_args pagetable stackbase sp (argc + 1) (ustack ++ [sp]) argv
        end
  end.

(** [bad:]; a null [pagetable] is 0. *)
Definition exec_bad (pagetable sz : Z) (ip : option Z) : M kst Z :=
  when (negb (pagetable =? 0)) (zoom k_mem (proc_freepagetable kend pagetable sz));;
  (match ip with
   | Some ip => k_iunlockput ip;; k_end_op
   | None => mret tt
   end);;
  mret (-1).

(** What follows the load of the segments: the stack, and the commit to the new
    image. *)
Definition exec_stack (path argv : list Z) (elf : elfhdr) (pagetable sz : Z) : M kst Z :=
  oldsz ← getp p_sz me;
  let sz := PGROUNDUP sz in
  sz1 ← zoom k_mem (uvmalloc kend pagetable sz (u64 (sz + 2 * PGSIZE)) PTE_W);
  if sz1 =? 0 then exec_bad pagetable sz None
  else
    let sz := sz1 in
    zoom k_mem (uvmclear pagetable (u64 (sz - 2 * PGSIZE)));;
    let stackbase := u64 (sz - PGSIZE) in
    r ← exec_args pagetable stackbase sz 0 [] argv;
    match r with
    | None => exec_bad pagetable sz None
    | Some (sp, ustack) =>
        let argc := Z.of_nat (length ustack) in
        let sp := u64 (sp - (argc + 1) * 8) in
        let sp := sp - sp mod 16 in
        if sp <? stackbase then exec_bad pagetable sz None
        else
          r ← zoom k_mem (copyout pagetable sp (mjoin (map (le_bytes 8) (ustack ++ [0]))));
          if r <? 0 then exec_bad pagetable sz None
          else
            tf_st me TF_A1 sp;;
            setp me (fun x => pset_name (safestrcpy_chars (p_name x) (basename path path) 16) x);;
            oldpagetable ← getp p_pagetable me;
            setp me (pset_pagetable pagetable);;
            setp me (pset_sz sz);;
            tf_st me TF_EPC (elf_entry elf);;
            tf_st me TF_SP sp;;
            zoom k_mem (proc_freepagetable kend oldpagetable oldsz);;
            mret argc
    end.

(** [argv]: the addresses of the argument strings. *)
Definition exec (path argv : list Z) : M kst Z :=
  k_begin_op;;
  r ← k_namei path;
  match r with
  | None => k_end_op;; mret (-1)
  | Some ip =>
      k_ilock ip;;
      r ← k_readi ip ToLocal 0 ELFHDR_SIZE;
      if negb (r.1 =? ELFHDR_SIZE) then exec_bad 0 0 (Some ip)
      else
        let elf := elfhdr_of r.2 in
        if negb (elf_magic elf =? ELF_MAGIC) then exec_bad 0 0 (Some ip)
        else
          tf ← getp p_trapframe me;
          pagetable ← zoom k_mem (proc_pagetable kend trampoline tf);
          if pagetable =? 0 then exec_bad 0 0 (Some ip)
          else
            '(sz, ok) ← exec_load pagetable ip (s32 (elf_phoff elf)) 0 (Z.to_nat (elf_phnum elf));
            if negb ok then exec_bad pagetable sz (Some ip)
            else
              k_iunlockput ip;;
              k_end_op;;
              exec_stack path argv elf pagetable sz
  end.
End exec.
