(* ===== verification/Sysfile.v ===== *)
(** * kernel/sysfile.c: file system calls *)

From S2P Require Import Prelude Machine Sleeplock Mem Layout Kalloc Vm Bio Virtio FsHdr Log Printf Uart Console Fs Pipe File Proc Sysarg Exec.

(** kernel/fcntl.h *)
Definition O_RDONLY : Z := 0.
Definition O_WRONLY : Z := 1.
Definition O_RDWR : Z := 2.
Definition O_CREATE : Z := 512.
Definition O_TRUNC : Z := 1024.

Section sysfile.
Variable virtio_disk_rw : Z -> bool -> M bcache unit.
Variables kend trampoline : Z.
Variable lsr : nat -> Z.
Variable fuel : nat.
(** The running process. *)
Variable me : Z.

Abbreviation rw := virtio_disk_rw.

(** Calls into the file layer and the file system by the running process. *)
Definition in_files {A} (m : Z -> Z -> M filest A) : M kst A :=
  pid ← getp p_pid me;
  pt ← getp p_pagetable me;
  zoom (k_files me) (m pid pt).

Definition k_fileclose (f : Z) : M kst unit := in_files (fun pid _ => fileclose rw kend pid fuel f).
Definition k_begin : M kst unit := k_begin_op fuel me.
Definition k_end : M kst unit := k_end_op rw fuel me.
Definition k_lock (ip : Z) : M kst unit := k_ilock rw fuel me ip.
Definition k_unlock (ip : Z) : M kst unit := in_fs me (fun pid _ => iunlock pid (Some ip)).
Definition k_unlockput (ip : Z) : M kst unit := k_iunlockput rw fuel me ip.
Definition k_iput (ip : Z) : M kst unit := in_fs me (fun pid _ => iput rw pid fuel ip).
Definition k_iupdate (ip : Z) : M kst unit := in_fs me (fun pid _ => iupdate rw pid fuel ip).
Definition k_nameiparent (path : list Z) : M kst (option Z * list Z) :=
  in_fs_at me path (fun pid pt cwd => nameiparent rw pid fuel pt cwd path).
Definition k_dirlink (dp : Z) (name : list Z) (inum : Z) : M kst Z :=
  in_fs me (fun pid pt => dirlink rw pid fuel pt dp name inum).
Definition k_dirlookup (dp : Z) (name : list Z) : M kst (option (Z * Z)) :=
  in_fs me (fun pid pt => dirlookup rw pid fuel pt dp name).
Definition k_inode {A} (f : inode -> A) (ip : Z) : M kst A := in_fs me (fun _ _ => geti f ip).
Definition k_seti (ip : Z) (f : inode -> inode) : M kst unit := in_fs me (fun _ _ => seti ip f).

(** [ip->nlink += d], a short. *)
Definition add_nlink (ip d : Z) : M kst unit := k_seti ip (fun x => iset_nlink (s16 (i_nlink x + d)) x).

Definition argfd (n : Z) : M kst (option (Z * Z)) :=
  fd ← argint me n;
  if (fd <? 0) || (NOFILE <=? fd) then mret None
  else
    fds ← getp p_ofile me;
    match fds !! fd with
    | None => mret None
    | Some f => mret (Some (fd, f))
    end.

Fixpoint fdalloc_loop (f fd : Z) (k : nat) : M kst Z :=
  match k with
  | O => mret (-1)
  | S k =>
      fds ← getp p_ofile me;
      match fds !! fd with
      | None => setp me (fun x => pset_ofile (<[fd := f]> (p_ofile x)) x);; mret fd
      | Some _ => fdalloc_loop f (fd + 1) k
      end
  end.

Definition fdalloc (f : Z) : M kst Z := fdalloc_loop f 0 (Z.to_nat NOFILE).

(** [p->ofile[fd] = 0] *)
Definition fdclear (fd : Z) : M kst unit := setp me (fun x => pset_ofile (delete fd (p_ofile x)) x).

Definition sys_dup : M kst Z :=
  r ← argfd 0;
  match r with
  | None => mret (-1)
  | Some (_, f) =>
      fd ← fdalloc f;
      if fd <? 0 then mret (-1)
      else in_files (fun _ _ => filedup f);; mret fd
  end.

Definition sys_read : M kst Z :=
  p ← argaddr me 1;
  n ← argint me 2;
  r ← argfd 0;
  match r with
  | None => mret (-1)
  | Some (_, f) => in_files (fun pid pt => fileread rw me pid fuel pt f p n)
  end.

Definition sys_write : M kst Z :=
  p ← argaddr me 1;
  n ← argint me 2;
  r ← argfd 0;
  match r with
  | None => mret (-1)
  | Some (_, f) => in_files (fun pid pt => filewrite rw me pid fuel pt lsr f p n)
  end.

Definition sys_close : M kst Z :=
  r ← argfd 0;
  match r with
  | None => mret (-1)
  | Some (fd, f) => fdclear fd;; k_fileclose f;; mret 0
  end.

Definition sys_fstat : M kst Z :=
  st ← argaddr me 1;
  r ← argfd 0;
  match r with
  | None => mret (-1)
  | Some (_, f) => in_files (fun pid pt => filestat rw pid fuel pt f st)
  end.

(** [bad:] in [sys_link]. *)
Definition link_bad (ip : Z) : M kst Z :=
  k_lock ip;;
  add_nlink ip (-1);;
  k_iupdate ip;;
  k_unlockput ip;;
  k_end;;
  mret (-1).

Definition sys_link : M kst Z :=
  old ← argstr me 0 MAXPATH;
  match old with
  | None => mret (-1)
  | Some old =>
      new ← argstr me 1 MAXPATH;
      match new with
      | None => mret (-1)
      | Some new =>
          k_begin;;
          r ← k_namei rw fuel me old;
          match r with
          | None => k_end;; mret (-1)
          | Some ip =>
              k_lock ip;;
              t ← k_inode i_type ip;
              if t =? T_DIR then k_unlockput ip;; k_end;; mret (-1)
              else
                add_nlink ip 1;;
                k_iupdate ip;;
                k_unlock ip;;
                '(dp, name) ← k_nameiparent new;
                match (dp : option Z) with
                | None => link_bad ip
                | Some dp =>
                    k_lock dp;;
                    ddev ← k_inode i_dev dp;
                    idev ← k_inode i_dev ip;
                    inum ← k_inode i_inum ip;
                    r ← (if negb (ddev =? idev) then mret (-1) else k_dirlink dp name inum);
                    if r <? 0 then k_unlockput dp;; link_bad ip
                    else
                      k_unlockput dp;;
                      k_iput ip;;
                      k_end;;
                      mret 0
                end
          end
      end
  end.
Fixpoint isdirempty_loop (dp off : Z) (k : nat) : M kst Z :=
  size ← k_inode i_size dp;
  if off <? size then
    match k with
    | O => diverge
    | S k =>
        r ← k_readi rw fuel me dp ToLocal off DIRENT_SIZE;
        if negb (r.1 =? DIRENT_SIZE) then panic "isdirempty: readi"
        else if negb (de_inum r.2 =? 0) then mret 0
        else isdirempty_loop dp (off + DIRENT_SIZE) k
    end
  else mret 1.

Definition isdirempty (dp : Z) : M kst Z :=
  size ← k_inode i_size dp;
  isdirempty_loop dp (2 * DIRENT_SIZE) (S (Z.to_nat (size / DIRENT_SIZE))).

(** [bad:] in [sys_unlink]. *)
Definition unlink_bad (dp : Z) : M kst Z := k_unlockput dp;; k_end;; mret (-1).

Definition sys_unlink : M kst Z :=
  path ← argstr me 0 MAXPATH;
  match path with
  | None => mret (-1)
  | Some path =>
      k_begin;;
      '(dp, name) ← k_nameiparent path;
      match (dp : option Z) with
      | None => k_end;; mret (-1)
      | Some dp =>
          k_lock dp;;
          if (namecmp name (bytes ".") =? 0) || (namecmp name (bytes "..") =? 0) then unlink_bad dp
          else
            r ← k_dirlookup dp name;
            match r with
            | None => unlink_bad dp
            | Some (ip, off) =>
                k_lock ip;;
                nl ← k_inode i_nlink ip;
                if nl <? 1 then panic "unlink: nlink < 1"
                else
                  t ← k_inode i_type ip;
                  e ← (if t =? T_DIR then isdirempty ip else mret 1);
                  if e =? 0 then k_unlockput ip;; unlink_bad dp
                  else
                    n ← in_fs me (fun pid pt =>
                      writei rw pid fuel pt dp (FromLocal (replicate (Z.to_nat DIRENT_SIZE) 0)) off DIRENT_SIZE);
                    if negb (n =? DIRENT_SIZE) then panic "unlink: writei"
                    else
                      when (t =? T_DIR) (add_nlink dp (-1);; k_iupdate dp);;
                      k_unlockput dp;;
                      add_nlink ip (-1);;
                      k_iupdate ip;;
                      k_unlockput ip;;
                      k_end;;
                      mret 0
            end
      end
  end.

(** [fail:] in [create]. *)
Definition create_fail (ip dp : Z) : M kst (option Z) :=
  k_seti ip (iset_nlink 0);;
  k_iupdate ip;;
  k_unlockput ip;;
  k_unlockput dp;;
  mret None.

(** [type], [major] and [minor] are shorts. *)
Definition create (path : list Z) (type major minor : Z) : M kst (option Z) :=
  '(dp, name) ← k_nameiparent path;
  match (dp : option Z) with
  | None => mret None
  | Some dp =>
      k_lock dp;;
      r ← k_dirlookup dp name;
      match r with
      | Some (ip, _) =>
          k_unlockput dp;;
          k_lock ip;;
          t ← k_inode i_type ip;
          if (type =? T_FILE) && ((t =? T_FILE) || (t =? T_DEVICE)) then mret (Some ip)
          else k_unlockput ip;; mret None
      | None =>
          ddev ← k_inode i_dev dp;
          r ← in_fs me (fun pid _ => ialloc rw pid fuel ddev type);
          match r with
          | None => k_unlockput dp;; mret None
          | Some ip =>
              k_lock ip;;
              k_seti ip (fun x => iset_fields (i_type x) (s16 major) (s16 minor) 1 (i_size x) (i_addrs x) x);;
              k_iupdate ip;;
              inum ← k_inode i_inum ip;
              dnum ← k_inode i_inum dp;
              r ← (if type =? T_DIR then
                     r ← k_dirlink ip (bytes ".") inum;
                     if r <? 0 then mret r else k_dirlink ip (bytes "..") dnum
                   else mret 0);
              if r <? 0 then create_fail ip dp
              else
                r ← k_dirlink dp name inum;
                if r <? 0 then create_fail ip dp
                else
                  when (type =? T_DIR) (add_nlink dp 1;; k_iupdate dp);;
                  k_unlockput dp;;
                  mret (Some ip)
          end
      end
  end.
(** The inode that [sys_open] opens, locked. *)
Definition open_inode (path : list Z) (omode : Z) : M kst (option Z) :=
  if has omode O_CREATE then create path T_FILE 0 0
  else
    r ← k_namei rw fuel me path;
    match r with
    | None => mret None
    | Some ip =>
        k_lock ip;;
        t ← k_inode i_type ip;
        if (t =? T_DIR) && negb (omode =? O_RDONLY) then k_unlockput ip;; mret None
        else mret (Some ip)
    end.

(** The file and the descriptor; the file alone is closed again. *)
Definition open_file : M kst (option (Z * Z)) :=
  f ← in_files (fun _ _ => filealloc);
  match f with
  | None => mret None
  | Some f =>
      fd ← fdalloc f;
      if fd <? 0 then k_fileclose f;; mret None else mret (Some (f, fd))
  end.

Definition sys_open : M kst Z :=
  omode ← argint me 1;
  path ← argstr me 0 MAXPATH;
  match path with
  | None => mret (-1)
  | Some path =>
      k_begin;;
      r ← open_inode path omode;
      match r with
      | None => k_end;; mret (-1)
      | Some ip =>
          x ← k_inode (fun x => x) ip;
          if (i_type x =? T_DEVICE) && ((i_major x <? 0) || (NDEV <=? i_major x)) then
            k_unlockput ip;; k_end;; mret (-1)
          else
            r ← open_file;
            match r with
            | None => k_unlockput ip;; k_end;; mret (-1)
            | Some (f, fd) =>
                (if i_type x =? T_DEVICE then
                   in_files (fun _ _ => setf f (fset_type FD_DEVICE);; setf f (fset_major (i_major x)))
                 else in_files (fun _ _ => setf f (fset_type FD_INODE);; setf f (fset_off 0)));;
                in_files (fun _ _ => setf f (fset_ip (Some ip)));;
                in_files (fun _ _ =>
                  setf f (fset_mode (negb (has omode O_WRONLY)) (has omode O_WRONLY || has omode O_RDWR)));;
                when (has omode O_TRUNC && (i_type x =? T_FILE))
                  (in_fs me (fun pid _ => itrunc rw pid fuel ip));;
                k_unlock ip;;
                k_end;;
                mret fd
            end
      end
  end.

(** The end of [sys_mkdir] and [sys_mknod]. *)
Definition created (r : option Z) : M kst Z :=
  match r with
  | None => k_end;; mret (-1)
  | Some ip => k_unlockput ip;; k_end;; mret 0
  end.

Definition sys_mkdir : M kst Z :=
  k_begin;;
  path ← argstr me 0 MAXPATH;
  r ← (match path with None => mret None | Some path => create path T_DIR 0 0 end);
  created r.

Definition sys_mknod : M kst Z :=
  k_begin;;
  major ← argint me 1;
  minor ← argint me 2;
  path ← argstr me 0 MAXPATH;
  r ← (match path with None => mret None | Some path => create path T_DEVICE major minor end);
  created r.

Definition sys_chdir : M kst Z :=
  k_begin;;
  path ← argstr me 0 MAXPATH;
  r ← (match path with None => mret None | Some path => k_namei rw fuel me path end);
  match r with
  | None => k_end;; mret (-1)
  | Some ip =>
      k_lock ip;;
      t ← k_inode i_type ip;
      if negb (t =? T_DIR) then k_unlockput ip;; k_end;; mret (-1)
      else
        k_unlock ip;;
        cwd ← getp p_cwd me;
        (match cwd with Some cwd => k_iput cwd | None => panic "kerneltrap" end);;
        k_end;;
        setp me (pset_cwd (Some ip));;
        mret 0
  end.

(** The loop that fetches the arguments of [exec] into pages of their own: the
    pages, and whether all were fetched. *)
Fixpoint exec_argv (uargv i : Z) (argv : list Z) (k : nat) : M kst (list Z * bool) :=
  match k with
  | O => mret (argv, false)
  | S k =>
      uarg ← fetchaddr me (u64 (uargv + 8 * i));
      match uarg with
      | None => mret (argv, false)
      | Some uarg =>
          if uarg =? 0 then mret (argv, true)
          else
            pg ← zoom k_mem kalloc;
            if pg =? 0 then mret (argv, false)
            else
              r ← fetchstr me uarg PGSIZE;
              zoom k_mem (on_mem (fun m => store_bytes m pg r.2));;
              if r.1 <? 0 then mret (argv ++ [pg], false)
              else exec_argv uargv (i + 1) (argv ++ [pg]) k
      end
  end.

Fixpoint free_pages (pages : list Z) : M kst unit :=
  match pages with
  | [] => mret tt
  | pg :: pages => zoom k_mem (kfree kend pg);; free_pages pages
  end.

Definition sys_exec : M kst Z :=
  uargv ← argaddr me 1;
  path ← argstr me 0 MAXPATH;
  match path with
  | None => mret (-1)
  | Some path =>
      '(argv, ok) ← exec_argv uargv 0 [] (Z.to_nat MAXARG);
      if negb ok then free_pages argv;; mret (-1)
      else
        ret ← exec rw kend trampoline fuel me path argv;
        free_pages argv;;
        mret ret
  end.

Definition sys_pipe : M kst Z :=
  fdarray ← argaddr me 0;
  r ← in_files (fun pid _ => pipealloc rw kend pid fuel);
  match r with
  | None => mret (-1)
  | Some (rf, wf) =>
      fd0 ← fdalloc rf;
      fd1 ← (if fd0 <? 0 then mret (-1) else fdalloc wf);
      if fd1 <? 0 then
        when (0 <=? fd0) (fdclear fd0);;
        k_fileclose rf;;
        k_fileclose wf;;
        mret (-1)
      else
        pt ← getp p_pagetable me;
        r ← zoom k_mem (copyout pt fdarray (le_bytes 4 fd0));
        r ← (if r <? 0 then mret r else zoom k_mem (copyout pt (u64 (fdarray + 4)) (le_bytes 4 fd1)));
        if r <? 0 then
          fdclear fd0;;
          fdclear fd1;;
          k_fileclose rf;;
          k_fileclose wf;;
          mret (-1)
        else mret 0
  end.
End sysfile.
