(* ===== verification/Syscall.v ===== *)
(** * kernel/syscall.c: the system call table *)

From S2P Require Import Prelude Machine Sleeplock Mem Layout Kalloc Vm Bio Virtio FsHdr Log Printf Uart Console Fs Pipe File Proc Sysarg Sysproc Exec Sysfile.

Section syscall.
Variable virtio_disk_rw : Z -> bool -> M bcache unit.
Variables kend trampoline forkret_addr : Z.
Variable lsr : nat -> Z.
Variable fuel : nat.
(** The running process. *)
Variable me : Z.
(** A load from an address that the kernel page table does not map. *)
Variable kfault : Z -> M kst unit.

Abbreviation rw := virtio_disk_rw.

(** [syscalls[]], indexed by the numbers of kernel/syscall.h. *)
Definition syscalls : list (M kst Z) :=
  [ sys_fork kend trampoline forkret_addr me;
    sys_exit rw kend fuel me;
    sys_wait kend fuel me;
    sys_pipe rw kend fuel me;
    sys_read rw fuel me;
    sys_kill me;
    sys_exec rw kend trampoline fuel me;
    sys_fstat rw fuel me;
    sys_chdir rw fuel me;
    sys_dup me;
    sys_getpid me;
    sys_sbrk kend me;
    sys_sleep fuel me;
    sys_uptime;
    sys_open rw kend fuel me;
    sys_write rw lsr fuel me;
    sys_mknod rw fuel me;
    sys_unlink rw fuel me;
    sys_link rw fuel me;
    sys_mkdir rw fuel me;
    sys_close rw kend fuel me;
    sys_year me;
    sys_procname me kfault;
    sys_state me kfault ].

Definition syscall : M kst unit :=
  v ← tf_ld me TF_A7;
  let num := s32 v in
  match (if 0 <? num then syscalls !! Z.to_nat (num - 1) else None) with
  | Some handler =>
      r ← handler;
      tf_st me TF_A0 r
  | None =>
      x ← getp (fun x => x) me;
      printf true (bytes "%d %s: unknown sys call %d" ++ [10])
        [PInt (p_pid x); PStr (Some (chars (p_name x))); PInt num];;
      tf_st me TF_A0 (-1)
  end.
End syscall.
