(* ===== verification/Trap.v ===== *)
(** * kernel/trap.c and kernel/plic.c: traps and interrupts

    The state adds the supervisor registers of the hart and the writes to the
    interrupt controller to the state of the kernel.  A load in a system call
    through a null pointer is a page fault that runs [kerneltrap]; the last part is
    about the calls that make one. *)

From S2P Require Import Prelude Machine Sleeplock Mem Layout Kalloc Vm Bio Virtio FsHdr Log Printf Uart Console Fs Pipe File Proc ProcInv Sysarg Sysproc ProcSpec Exec Sysfile Syscall.

Record csrs := Csrs {
  sstatus : Z; stvec : Z; sepc : Z; scause : Z; stval : Z; r_satp : Z; r_tp : Z; sip : Z }.

Definition w_sstatus x c := Csrs x (stvec c) (sepc c) (scause c) (stval c) (r_satp c) (r_tp c) (sip c).
Definition w_stvec x c := Csrs (sstatus c) x (sepc c) (scause c) (stval c) (r_satp c) (r_tp c) (sip c).
Definition w_sepc x c := Csrs (sstatus c) (stvec c) x (scause c) (stval c) (r_satp c) (r_tp c) (sip c).
Definition w_sip x c := Csrs (sstatus c) (stvec c) (sepc c) (scause c) (stval c) (r_satp c) (r_tp c) x.

Definition SSTATUS_SPP : Z := Z.shiftl 1 8.
Definition SSTATUS_SPIE : Z := Z.shiftl 1 5.
Definition SSTATUS_SIE : Z := Z.shiftl 1 1.

(** [t_plic]: writes to the PLIC, most recent first. *)
Record trapst := Trapst { t_k : kst; t_csr : csrs; t_plic : list (Z * Z) }.

Definition t_kst : lens trapst kst := Lens _ _ t_k (fun k s => Trapst k (t_csr s) (t_plic s)).

Definition csr {A} (f : csrs -> A) : M trapst A := gets (fun s => f (t_csr s)).
Definition csrw (f : csrs -> csrs) : M trapst unit := modify (fun s => Trapst (t_k s) (f (t_csr s)) (t_plic s)).

Definition intr_on : M trapst unit := csrw (fun c => w_sstatus (Z.lor (sstatus c) SSTATUS_SIE) c).
Definition intr_off : M trapst unit := csrw (fun c => w_sstatus (Z.land (sstatus c) (u64 (Z.lnot SSTATUS_SIE))) c).
Definition intr_get : M trapst bool := csr (fun c => has (sstatus c) SSTATUS_SIE).

(** ** kernel/plic.c *)

Definition PLIC_SENABLE (hart : Z) : Z := PLIC + 8320 + hart * 256.
Definition PLIC_SPRIORITY (hart : Z) : Z := PLIC + 2101248 + hart * 8192.
Definition PLIC_SCLAIM (hart : Z) : Z := PLIC + 2101252 + hart * 8192.

Definition plic_write (a v : Z) : M trapst unit :=
  modify (fun s => Trapst (t_k s) (t_csr s) ((a, v) :: t_plic s)).

Definition cpuid : M trapst Z := csr (fun c => s32 (r_tp c)).

Definition plicinit : M trapst unit :=
  plic_write (PLIC + UART0_IRQ * 4) 1;;
  plic_write (PLIC + VIRTIO0_IRQ * 4) 1.

Definition plicinithart : M trapst unit :=
  hart ← cpuid;
  plic_write (PLIC_SENABLE hart) (Z.lor (Z.shiftl 1 UART0_IRQ) (Z.shiftl 1 VIRTIO0_IRQ));;
  plic_write (PLIC_SPRIORITY hart) 0.

Section trap.
Variable virtio_disk_rw : Z -> bool -> M bcache unit.
Variables kend trampoline forkret_addr : Z.
(** The UART's registers, and what the PLIC answers to a claim. *)
Variables lsr rhr : nat -> Z.
Variable plic_read : list (Z * Z) -> Z -> Z.
Variable fuel : nat.
(** Addresses the linker assigns. *)
Variables kernelvec usertrap_addr uservec userret : Z.
(** The address of the load of [s[n]] in [strlen]. *)
Variable strlen_load : Z.

Definition plic_claim : M trapst Z :=
  hart ← cpuid;
  irq ← gets (fun s => plic_read (t_plic s) (PLIC_SCLAIM hart));
  mret (s32 irq).

Definition plic_complete (irq : Z) : M trapst unit :=
  hart ← cpuid;
  plic_write (PLIC_SCLAIM hart) irq.

Definition trapinithart : M trapst unit := csrw (w_stvec kernelvec).

(** [wakeup] when the hart runs process [me] or none. *)
Definition hart_wakeup (me : option Z) (c : chan) : M kst unit := pwakeup (default (-1) me) c.

Definition clockintr (me : option Z) : M kst unit :=
  acquire LkTicks;;
  modify (fun s => set_ticks (u32 (k_ticks s + 1)) s);;
  hart_wakeup me ChTicks;;
  release LkTicks.

(** The interrupts of the two devices, on the state of the kernel. *)
Definition k_uart : lens kst uart :=
  Lens _ _ (fun s => cd_uart (k_dev s)) (fun u s => upd k_condev (upd uart_of u (k_dev s)) s).

Definition k_uartintr : M kst unit := uartintr lsr rhr fuel k_uart (consoleintr k_condev procdump).

Definition k_virtio_disk_intr : M kst unit := zoom k_disk virtio_disk_intr.

Definition devintr (me : option Z) : M trapst Z :=
  cause ← csr scause;
  if has cause (2 ^ 63) && (Z.land cause 255 =? 9) then
    irq ← plic_claim;
    (if irq =? UART0_IRQ then zoom t_kst k_uartintr
     else if irq =? VIRTIO0_IRQ then zoom t_kst k_virtio_disk_intr
     else when (negb (irq =? 0)) (printf true (bytes "unexpected interrupt irq=%d" ++ [10]) [PInt irq]));;
    when (negb (irq =? 0)) (plic_complete irq);;
    mret 1
  else if cause =? 2 ^ 63 + 1 then
    id ← cpuid;
    when (id =? 0) (zoom t_kst (clockintr me));;
    csrw (fun c => w_sip (Z.land (sip c) (u64 (Z.lnot 2))) c);;
    mret 2
  else mret 0.

(** The result is the value [userret] is called with. *)
Definition usertrapret (me : Z) : M trapst Z :=
  intr_off;;
  csrw (w_stvec (TRAMPOLINE + (uservec - trampoline)));;
  ksatp ← csr r_satp;
  zoom t_kst (tf_st me TF_KSATP ksatp);;
  kstack ← zoom t_kst (getp p_kstack me);
  zoom t_kst (tf_st me TF_KSP (kstack + PGSIZE));;
  zoom t_kst (tf_st me TF_KTRAP usertrap_addr);;
  hart ← csr r_tp;
  zoom t_kst (tf_st me TF_KHARTID hart);;
  x ← csr sstatus;
  let x := Z.land x (u64 (Z.lnot SSTATUS_SPP)) in
  let x := Z.lor x SSTATUS_SPIE in
  csrw (w_sstatus x);;
  epc ← zoom t_kst (tf_ld me TF_EPC);
  csrw (w_sepc epc);;
  pt ← zoom t_kst (getp p_pagetable me);
  mret (MAKE_SATP pt).

Definition t_exit (me status : Z) : M trapst unit := zoom t_kst (exit virtio_disk_rw kend fuel me status).

Definition exit_if_killed (me : Z) : M trapst unit :=
  k ← zoom t_kst (killed me);
  when (negb (k =? 0)) (t_exit me (-1)).

(** [me]: the process of the hart, if it runs one. *)
Definition kerneltrap (me : option Z) : M trapst unit :=
  c ← csr (fun c => c);
  if negb (has (sstatus c) SSTATUS_SPP) then panic "kerneltrap: not from supervisor mode"
  else
    on ← intr_get;
    if (on : bool) then panic "kerneltrap: interrupts enabled"
    else
      which_dev ← devintr me;
      if which_dev =? 0 then
        printf true (bytes "scause %p" ++ [10]) [PPtr (scause c)];;
        printf true (bytes "sepc=%p stval=%p" ++ [10]) [PPtr (sepc c); PPtr (stval c)];;
        panic "kerneltrap"
      else
        (match me with
         | Some me =>
             st ← zoom t_kst (getp p_state me);
             when ((which_dev =? 2) && bool_decide (st = RUNNING)) (zoom t_kst (yield me))
         | None => mret tt
         end);;
        csrw (w_sepc (sepc c));;
        csrw (w_sstatus (sstatus c)).

(** A load page fault of the instruction at [pc] in supervisor mode: what the hart does
    to the supervisor registers (the interrupts that were on are off, as [SPIE] says). *)
Definition load_fault (pc a : Z) (c : csrs) : csrs :=
  let st := Z.lor (Z.land (sstatus c) (u64 (Z.lnot (Z.lor SSTATUS_SIE SSTATUS_SPIE)))) SSTATUS_SPP in
  Csrs (Z.lor st (if has (sstatus c) SSTATUS_SIE then SSTATUS_SPIE else 0)) (stvec c) pc 13 a (r_satp c) (r_tp c) (sip c).

(** Code of the trap handler, on the state of the kernel. *)
Fixpoint trapped {A} (r : res trapst A) : res kst A :=
  match r with
  | Ret w t a => Ret w (t_k t) a
  | Panic msg => Panic msg
  | Block c w t k => Block c w (t_k t) (fun w' s' => trapped (k w' (upd t_kst s' t)))
  | Diverge => Diverge
  end.

(** The trap of the fault: [kernelvec] saves the registers and calls [kerneltrap]. *)
Definition kernel_fault (me : Z) (c : csrs) (plic : list (Z * Z)) (a : Z) : M kst unit := fun w s =>
  trapped (kerneltrap (Some me) w (Trapst s (load_fault strlen_load a c) plic)).

Definition usertrap (me : Z) : M trapst Z :=
  st ← csr sstatus;
  if has st SSTATUS_SPP then panic "usertrap: not from user mode"
  else
    csrw (w_stvec kernelvec);;
    epc ← csr sepc;
    zoom t_kst (tf_st me TF_EPC epc);;
    cause ← csr scause;
    which_dev ←
      (if cause =? 8 then
         exit_if_killed me;;
         epc ← zoom t_kst (tf_ld me TF_EPC);
         zoom t_kst (tf_st me TF_EPC (u64 (epc + 4)));;
         intr_on;;
         c ← csr (fun c => c);
         plic ← gets t_plic;
         zoom t_kst (syscall virtio_disk_rw kend trampoline forkret_addr lsr fuel me (kernel_fault me c plic));;
         mret 0
       else
         which_dev ← devintr (Some me);
         if negb (which_dev =? 0) then mret which_dev
         else
           c ← csr (fun c => c);
           pid ← zoom t_kst (getp p_pid me);
           printf true (bytes "usertrap(): unexpected scause %p pid=%d" ++ [10]) [PPtr (scause c); PInt pid];;
           printf true (bytes "            sepc=%p stval=%p" ++ [10]) [PPtr (sepc c); PPtr (stval c)];;
           zoom t_kst (setkilled me);;
           mret 0);
    exit_if_killed me;;
    when (which_dev =? 2) (zoom t_kst (yield me));;
    usertrapret me.

(** kernel/proc.c: the first scheduling of a process comes here. *)
Definition forkret (me : Z) : M trapst Z :=
  release (LkProc me);;
  first ← zoom t_kst (gets k_first);
  when first
    (zoom t_kst (modify (set_first false));;
     pid ← zoom t_kst (getp p_pid me);
     zoom t_kst (zoom (k_files me) (zoom fs_of (fsinit virtio_disk_rw pid fuel ROOTDEV))));;
  usertrapret me.

(** ** A fault in the kernel *)

Lemma load_fault_status pc a c :
  has (sstatus (load_fault pc a c)) SSTATUS_SPP = true /\ has (sstatus (load_fault pc a c)) SSTATUS_SIE = false.
Proof.
  unfold has, load_fault. simpl. split.
  - apply negb_true_iff, Z.eqb_neq. intros H. apply (f_equal (fun x => Z.testbit x 8)) in H. revert H.
    rewrite Z.land_spec, !Z.lor_spec. change (Z.testbit SSTATUS_SPP 8) with true.
    by rewrite andb_true_r, orb_true_r, orb_true_l.
  - apply negb_false_iff, Z.eqb_eq. unfold SSTATUS_SIE at 3. apply Z.bits_inj'. intros i Hi.
    rewrite Z.land_spec, !Z.lor_spec, Z.land_spec, Z.bits_0.
    destruct (decide (i = 1)) as [->|Hne].
    + change (Z.testbit (u64 (Z.lnot (Z.lor SSTATUS_SIE SSTATUS_SPIE))) 1) with false.
      change (Z.testbit SSTATUS_SPP 1) with false. rewrite andb_false_r. by case_match.
    + rewrite Z.shiftl_spec by done. change 1 with (2 ^ 0). rewrite Z.pow2_bits_false by lia. by rewrite andb_false_r.
Qed.

(** The device interrupts are not its cause, so the handler stops the kernel. *)
Lemma kernel_fault_panics me c plic a w s :
  exists msg, kernel_fault me c plic a w s = Panic msg /\ (LkPr ∉ held w -> msg = "kerneltrap").
Proof.
  unfold kernel_fault. set (t := Trapst _ _ _). destruct (load_fault_status strlen_load a c) as [Hp Hi].
  assert (H : exists msg, kerneltrap (Some me) w t = Panic msg /\ (LkPr ∉ held w -> msg = "kerneltrap")).
  2:{ destruct H as (msg & -> & H). by exists msg. }
  unfold kerneltrap, intr_get, csr. rewrite run_gets. change (t_csr t) with (load_fault strlen_load a c). rewrite Hp. cbn [negb].
  rewrite run_gets. change (t_csr t) with (load_fault strlen_load a c). rewrite Hi.
  assert (Hd : devintr (Some me) w t = Ret w t 0) by reflexivity. run_step Hd. cbn [Z.eqb].
  destruct (decide (LkPr ∈ held w)) as [Hin|Hni].
  - exists "acquire". split; [|done]. unfold printf at 1. cbn [when].
    do 2 apply run_bind_panic. unfold when, acquire. by rewrite decide_True.
  - destruct (prints_printf (bytes "scause %p" ++ [10]) [PPtr 13] w t Hni) as (w1 & H1 & E1).
    run_step H1. rewrite <-E1 in Hni.
    destruct (prints_printf (bytes "sepc=%p stval=%p" ++ [10]) [PPtr strlen_load; PPtr a] w1 t Hni) as (w2 & H2 & E2).
    exists "kerneltrap". split; [|done]. by run_step H2.
Qed.
End trap.

(** ** Processes that are not there *)

Lemma with_nul_chars l : with_nul (Z.of_nat (length (chars l)) + 1) (Some l) = chars l ++ [0].
Proof.
  unfold with_nul. simpl. replace (Z.to_nat (Z.of_nat (length (chars l)) + 1)) with (S (length (chars l))) by lia.
  induction l as [|c l IH]; [done|]. simpl. destruct (c =? 0) eqn:E; simpl; [zbool; by subst|]. by rewrite <-IH.
Qed.

Lemma chars_state st : chars (bytes (procstate2str st)) = bytes (procstate2str st).
Proof. by destruct st. Qed.

Section lookups.
Context (me : Z) (kfault : Z -> M kst unit) (w : world) (s : kst) (Hw : LkWait ∉ held w).
Context (Hk : kfault 0 w s = Panic "kerneltrap").

(** The last step of both calls: [str] and its NUL go to the address in the second argument. *)
Definition give (str : list Z) : M kst Z :=
  r ← zoom k_mem (copyout (p_pagetable (proc_at s me)) (arg_reg me 1 s) (str ++ [0]));
  if r <? 0 then mret (-1) else mret 1.

Abbreviation pid := (s32 (arg_reg me 0 s)).
Abbreviation found := (find_proc (fun x => p_pid x =? pid) s).

Lemma sys_procname_run : 0 <= pid ->
  sys_procname me kfault w s =
  match found with
  | Some p => give (chars (p_name (proc_at s p))) w s
  | None => Panic "kerneltrap"
  end.
Proof.
  intros Hp. assert (Hb : pid <? 0 = false) by lia. unfold sys_procname, argaddr.
  rewrite (run_bind _ _ _ _ _ _ _ (argint_run me 0 w s ltac:(lia))), Hb.
  rewrite (run_bind _ _ _ _ _ _ _ (name_run pid w s Hw)), (run_bind _ _ _ _ _ _ _ (argraw_run me 1 w s ltac:(lia))), run_gets.
  destruct found as [p|]; cbn [fmap option_fmap option_map kstrlen].
  - rewrite run_bind_ret. unfold getp. by rewrite run_gets, with_nul_chars.
  - by do 2 apply run_bind_panic.
Qed.

Lemma sys_state_run : 0 <= pid ->
  sys_state me kfault w s =
  match found with
  | Some p => give (bytes (procstate2str (p_state (proc_at s p)))) w s
  | None => Panic "kerneltrap"
  end.
Proof.
  intros Hp. assert (Hb : pid <? 0 = false) by lia. unfold sys_state, argaddr.
  rewrite (run_bind _ _ _ _ _ _ _ (argint_run me 0 w s ltac:(lia))), Hb.
  rewrite (run_bind _ _ _ _ _ _ _ (state_run pid w s Hw)), (run_bind _ _ _ _ _ _ _ (argraw_run me 1 w s ltac:(lia))).
  destruct found as [p|]; cbn [fmap option_fmap option_map kstrlen].
  - rewrite run_bind_ret. unfold getp. by rewrite run_gets, with_nul_chars, chars_state.
  - by do 2 apply run_bind_panic.
Qed.
End lookups.

(** C32: The calls [procname] and [state] with a pid that is not negative but that no
    entry of the table has bring the kernel down: the lookups return a null
    pointer, [strlen] loads from it, and [kerneltrap], which the page fault runs,
    panics.  A negative pid is refused with -1.  If an entry has the pid, the name
    or the state of the first such entry is copied with its NUL to the caller's
    buffer, with result 1, or -1 if [copyout] fails. *)
Theorem unknown_pid_panics lsr rhr plic_read fuel pc c plic me w s :
  LkWait ∉ held w -> LkPr ∉ held w ->
  let fault := kernel_fault lsr rhr plic_read fuel pc me c plic in
  let pid := s32 (arg_reg me 0 s) in
  let found := find_proc (fun x => p_pid x =? pid) s in
  (pid < 0 -> sys_procname me fault w s = Ret w s (-1) /\ sys_state me fault w s = Ret w s (-1)) /\
  (0 <= pid -> found = None ->
   sys_procname me fault w s = Panic "kerneltrap" /\ sys_state me fault w s = Panic "kerneltrap") /\
  (forall p, 0 <= pid -> found = Some p ->
   sys_procname me fault w s = give me s (chars (p_name (proc_at s p))) w s /\
   sys_state me fault w s = give me s (bytes (procstate2str (p_state (proc_at s p)))) w s).
Proof.
  intros Hw Hpr fault pid found.
  assert (Hk : fault 0 w s = Panic "kerneltrap").
  { destruct (kernel_fault_panics lsr rhr plic_read fuel pc me c plic 0 w s) as (msg & H & Hm). by rewrite Hm in H. }
  pose proof (sys_procname_run me fault w s Hw Hk) as Hn. pose proof (sys_state_run me fault w s Hw Hk) as Hs.
  fold pid found in Hn, Hs. split_and!.
  - intros Hp. assert (Hb : pid <? 0 = true) by lia. unfold sys_procname, sys_state.
    rewrite !(run_bind _ _ _ _ _ _ _ (argint_run me 0 w s ltac:(lia))). fold pid. by rewrite Hb.
  - intros Hp Hf. rewrite Hf in Hn, Hs. auto.
  - intros p Hp Hf. rewrite Hf in Hn, Hs. auto.
Qed.

(** The process of [two_kst] asks for the name of process 7, which is not there. *)
Definition asks_seven : kst :=
  upd k_mem (Kmem (st64 ∅ (2147491840 + TF_A0) 7) 0) two_kst.

Lemma unknown_pid_panics_witness :
  let fault := kernel_fault (fun _ => 32) (fun _ => 0) (fun _ _ => 0) 1 2147487000 0 (Csrs 2 0 0 8 0 0 0 0) [] in
  sys_procname 0 fault (World [] [] []) asks_seven = Panic "kerneltrap" /\
  sys_state 0 fault (World [] [] []) asks_seven = Panic "kerneltrap".
Proof.
  destruct (unknown_pid_panics (fun _ => 32) (fun _ => 0) (fun _ _ => 0) 1 2147487000 (Csrs 2 0 0 8 0 0 0 0) [] 0
              (World [] [] []) asks_seven) as (_ & H & _).
  - apply not_elem_of_nil.
  - apply not_elem_of_nil.
  - apply H; [vm_compute; discriminate|vm_compute; reflexivity].
Defined.
