(* ===== verification/SyscallSafe.v ===== *)
(** * System calls keep the process table well formed and processes apart *)

From S2P Require Import Prelude Machine Sleeplock Mem Layout Kalloc Vm Bio BioInv BioSpec BioRefine Virtio FsHdr Log Printf Uart Console Fs Pipe File Proc ProcInv ProcSafe ProcLife Sysarg Sysproc Exec Sysfile Syscall Trap.

Section keeps.
Context (me : Z).

Definition running : kst -> Prop := here me (fun _ => True).

(** From and to a well-formed table with the process running. *)
Definition keeps {A} (m : M kst A) : Prop := runs me m running (fun _ => running).

Lemma keeps_bind {A B} (m : M kst A) (f : A -> M kst B) : keeps m -> (forall a, keeps (f a)) -> keeps (m ≫= f).
Proof. intros Hm Hf. eapply runs_bind; [exact Hm|exact Hf]. Qed.

Lemma keeps_ret {A} (a : A) : keeps (mret a). Proof. by apply runs_ret. Qed.
Lemma keeps_gets {A} (g : kst -> A) : keeps (gets g). Proof. by apply runs_gets. Qed.
Lemma keeps_getp {A} (g : proc -> A) p : keeps (getp g p). Proof. by apply runs_gets. Qed.
Lemma keeps_panic {A} msg : keeps (@panic kst A msg). Proof. apply runs_panic. Qed.
Lemma keeps_diverge {A} : keeps (@diverge kst A). Proof. apply runs_diverge. Qed.
Lemma keeps_acquire lk : keeps (acquire lk). Proof. apply runs_acquire. Qed.
Lemma keeps_release lk : keeps (release lk). Proof. apply runs_release. Qed.
Lemma keeps_kmem {A} (m : M kmem A) : keeps (zoom k_mem m). Proof. by apply runs_kmem. Qed.
Lemma keeps_files {A} (m : M filest A) : keeps (zoom (k_files me) m). Proof. by apply runs_files. Qed.
Lemma keeps_when b m : keeps m -> keeps (when b m). Proof. intros Hm. by apply runs_when. Qed.
Lemma keeps_conschar b : keeps (conschar b).
Proof. intros w s Hs. split; [apply guar_refl|done]. Qed.

Lemma stable_running : stable me running. Proof. by apply stable_here. Qed.
Lemma keeps_killed p : keeps (killed p). Proof. apply runs_killed. Qed.
Lemma keeps_psleep c lk : keeps (psleep me c lk). Proof. by apply runs_psleep. Qed.
Lemma keeps_kill pid : keeps (kill pid). Proof. apply runs_kill, stable_running. Qed.
Lemma keeps_name pid : keeps (name pid). Proof. apply runs_name. Qed.
Lemma keeps_state pid : keeps (state pid). Proof. apply runs_state. Qed.
Lemma keeps_growproc kend n : keeps (growproc kend me n). Proof. apply runs_growproc. Qed.
Lemma keeps_wait kend fuel addr : keeps (wait kend fuel me addr). Proof. by apply runs_wait. Qed.

Lemma keeps_exit rw kend fuel status : keeps (exit rw kend fuel me status).
Proof. eapply runs_post; [|apply runs_exit]. done. Qed.
End keeps.

Create HintDb keeps.
#[export] Hint Resolve keeps_ret keeps_gets keeps_getp keeps_panic keeps_diverge keeps_acquire keeps_release
  keeps_kmem keeps_files keeps_conschar keeps_killed keeps_psleep keeps_kill keeps_name keeps_state
  keeps_growproc keeps_wait keeps_exit : keeps.

Ltac keeps :=
  repeat first
    [ progress intros
    | lazymatch goal with
      | |- keeps _ (match ?x with _ => _ end) => destruct x
      | |- keeps _ (_ ≫= _) => apply keeps_bind
      | |- keeps _ (when _ _) => apply keeps_when
      end
    | solve [auto with keeps] ].

Section handlers.
Context (rw : Z -> bool -> M bcache unit) (kend trampoline forkret_addr : Z) (lsr : nat -> Z) (fuel : nat) (me : Z).
Context (kfault : Z -> M kst unit) (keeps_kfault : forall a, keeps me (kfault a)).

(** ** Arguments *)

Lemma keeps_tf_ld off : keeps me (tf_ld me off). Proof. unfold tf_ld. keeps. Qed.
Lemma keeps_tf_st off v : keeps me (tf_st me off v). Proof. unfold tf_st. keeps. Qed.
Lemma keeps_fetchaddr a : keeps me (fetchaddr me a). Proof. unfold fetchaddr. keeps. Qed.
Lemma keeps_fetchstr a n : keeps me (fetchstr me a n). Proof. unfold fetchstr. keeps. Qed.
Hint Resolve keeps_tf_ld keeps_tf_st keeps_fetchaddr keeps_fetchstr : keeps.
Lemma keeps_argraw n : keeps me (argraw me n). Proof. unfold argraw. keeps. Qed.
Hint Resolve keeps_argraw : keeps.
Lemma keeps_argint n : keeps me (argint me n). Proof. unfold argint. keeps. Qed.
Lemma keeps_argaddr n : keeps me (argaddr me n). Proof. unfold argaddr. keeps. Qed.
Hint Resolve keeps_argint keeps_argaddr : keeps.
Lemma keeps_argstr n m : keeps me (argstr me n m). Proof. unfold argstr. keeps. Qed.
Hint Resolve keeps_argstr : keeps.

(** ** sysproc.c *)

Lemma keeps_sleep_loop n t k : keeps me (sleep_loop me n t k).
Proof. induction k; simpl; keeps. Qed.
Lemma keeps_year_loop b sz p c k : keeps me (year_loop me b sz p c k).
Proof. revert p c. induction k; simpl; keeps. Qed.
Lemma keeps_kstrlen o : keeps me (kstrlen kfault o). Proof. unfold kstrlen. keeps. Qed.
Hint Resolve keeps_sleep_loop keeps_year_loop keeps_kstrlen : keeps.
Lemma keeps_sys_exit : keeps me (sys_exit rw kend fuel me). Proof. unfold sys_exit. keeps. Qed.
Lemma keeps_sys_wait : keeps me (sys_wait kend fuel me). Proof. unfold sys_wait. keeps. Qed.
Lemma keeps_sys_sbrk : keeps me (sys_sbrk kend me). Proof. unfold sys_sbrk. keeps. Qed.
Lemma keeps_sys_sleep : keeps me (sys_sleep fuel me). Proof. unfold sys_sleep. keeps. Qed.
Lemma keeps_sys_kill : keeps me (sys_kill me). Proof. unfold sys_kill. keeps. Qed.
Lemma keeps_sys_uptime : keeps me sys_uptime. Proof. unfold sys_uptime. keeps. Qed.
Lemma keeps_sys_procname : keeps me (sys_procname me kfault). Proof. unfold sys_procname. keeps. Qed.
Lemma keeps_sys_state : keeps me (sys_state me kfault). Proof. unfold sys_state. keeps. Qed.
Lemma keeps_sys_year : keeps me (sys_year me). Proof. unfold sys_year. keeps. Qed.

(** ** exec.c *)

Lemma keeps_set_name f : keeps me (setp me (fun x => pset_name (f x) x)).
Proof. by apply runs_set_quiet. Qed.
Lemma keeps_set_sz sz : keeps me (setp me (pset_sz sz)).
Proof. by apply runs_set_quiet. Qed.
Lemma keeps_set_cwd ip : keeps me (setp me (pset_cwd (Some ip))).
Proof. by apply runs_set_quiet. Qed.
Lemma keeps_set_pagetable pt : pt <> 0 -> keeps me (setp me (pset_pagetable pt)).
Proof. intros Hpt. by apply runs_set_quiet. Qed.
Hint Resolve keeps_set_name keeps_set_sz keeps_set_cwd keeps_set_pagetable : keeps.

Lemma keeps_in_fs {A} (m : Z -> Z -> M fsst A) : keeps me (in_fs me m).
Proof. unfold in_fs. keeps. Qed.
Hint Resolve keeps_in_fs : keeps.
Lemma keeps_in_fs_at {A} path (m : Z -> Z -> Z -> M fsst A) : keeps me (in_fs_at me path m).
Proof. unfold in_fs_at. keeps. Qed.
Hint Resolve keeps_in_fs_at : keeps.
Lemma keeps_k_begin_op : keeps me (k_begin_op fuel me). Proof. apply keeps_in_fs. Qed.
Lemma keeps_k_end_op : keeps me (k_end_op rw fuel me). Proof. apply keeps_in_fs. Qed.
Lemma keeps_k_namei p : keeps me (k_namei rw fuel me p). Proof. apply keeps_in_fs_at. Qed.
Lemma keeps_k_ilock ip : keeps me (k_ilock rw fuel me ip). Proof. apply keeps_in_fs. Qed.
Lemma keeps_k_iunlockput ip : keeps me (k_iunlockput rw fuel me ip). Proof. apply keeps_in_fs. Qed.
Lemma keeps_k_readi ip d o n : keeps me (k_readi rw fuel me ip d o n). Proof. apply keeps_in_fs. Qed.
Hint Resolve keeps_k_begin_op keeps_k_end_op keeps_k_namei keeps_k_ilock keeps_k_iunlockput keeps_k_readi : keeps.

Lemma keeps_loadseg_loop pt va ip off sz i k : keeps me (loadseg_loop rw fuel me pt va ip off sz i k).
Proof. revert i. induction k; simpl; keeps. Qed.
Lemma keeps_loadseg pt va ip off sz : keeps me (loadseg rw fuel me pt va ip off sz).
Proof. apply keeps_loadseg_loop. Qed.
Hint Resolve keeps_loadseg : keeps.
Lemma keeps_exec_load pt ip off sz k : keeps me (exec_load rw kend fuel me pt ip off sz k).
Proof. revert off sz. induction k; cbn [exec_load]; keeps. Qed.
Lemma keeps_exec_args pt base sp argc us argv : keeps me (exec_args pt base sp argc us argv).
Proof. revert sp argc us. induction argv; cbn [exec_args]; keeps. Qed.
Lemma keeps_exec_bad pt sz ip : keeps me (exec_bad rw kend fuel me pt sz ip).
Proof. unfold exec_bad. keeps. Qed.
Hint Resolve keeps_exec_load keeps_exec_args keeps_exec_bad : keeps.
Lemma keeps_exec_stack path argv elf pt sz : pt <> 0 -> keeps me (exec_stack rw kend fuel me path argv elf pt sz).
Proof. intros Hpt. unfold exec_stack. keeps. Qed.
Lemma keeps_exec path argv : keeps me (exec rw kend trampoline fuel me path argv).
Proof.
  unfold exec. apply keeps_bind; [keeps|]. intros ?. apply keeps_bind; [keeps|]. intros [ip|]; [|keeps].
  apply keeps_bind; [keeps|]. intros ?. apply keeps_bind; [keeps|]. intros r. case_match; [keeps|].
  case_match; [keeps|]. apply keeps_bind; [keeps|]. intros tf. apply keeps_bind; [keeps|]. intros pt.
  case_match eqn:E; [keeps|]. zbool. pose proof (keeps_exec_stack path argv). keeps.
Qed.
Hint Resolve keeps_exec : keeps.

(** ** sysfile.c *)

Lemma keeps_in_files {A} (m : Z -> Z -> M filest A) : keeps me (in_files me m).
Proof. unfold in_files. keeps. Qed.
Hint Resolve keeps_in_files : keeps.
Lemma keeps_k_fileclose f : keeps me (k_fileclose rw kend fuel me f). Proof. apply keeps_in_files. Qed.
Lemma keeps_k_begin : keeps me (k_begin fuel me). Proof. apply keeps_k_begin_op. Qed.
Lemma keeps_k_end : keeps me (k_end rw fuel me). Proof. apply keeps_k_end_op. Qed.
Lemma keeps_k_lock ip : keeps me (k_lock rw fuel me ip). Proof. apply keeps_k_ilock. Qed.
Lemma keeps_k_unlock ip : keeps me (k_unlock me ip). Proof. apply keeps_in_fs. Qed.
Lemma keeps_k_unlockput ip : keeps me (k_unlockput rw fuel me ip). Proof. apply keeps_k_iunlockput. Qed.
Lemma keeps_k_iput ip : keeps me (k_iput rw fuel me ip). Proof. apply keeps_in_fs. Qed.
Lemma keeps_k_iupdate ip : keeps me (k_iupdate rw fuel me ip). Proof. apply keeps_in_fs. Qed.
Lemma keeps_k_nameiparent p : keeps me (k_nameiparent rw fuel me p). Proof. apply keeps_in_fs_at. Qed.
Lemma keeps_k_dirlink dp nm n : keeps me (k_dirlink rw fuel me dp nm n). Proof. apply keeps_in_fs. Qed.
Lemma keeps_k_dirlookup dp nm : keeps me (k_dirlookup rw fuel me dp nm). Proof. apply keeps_in_fs. Qed.
Lemma keeps_k_inode {A} (f : inode -> A) ip : keeps me (k_inode me f ip). Proof. apply keeps_in_fs. Qed.
Lemma keeps_k_seti ip f : keeps me (k_seti me ip f). Proof. apply keeps_in_fs. Qed.
Lemma keeps_add_nlink ip d : keeps me (add_nlink me ip d). Proof. apply keeps_k_seti. Qed.
Hint Resolve keeps_k_fileclose keeps_k_begin keeps_k_end keeps_k_lock keeps_k_unlock keeps_k_unlockput keeps_k_iput
  keeps_k_iupdate keeps_k_nameiparent keeps_k_dirlink keeps_k_dirlookup keeps_k_inode keeps_k_seti keeps_add_nlink : keeps.

Lemma keeps_fdclear fd : keeps me (fdclear me fd).
Proof.
  apply runs_set_me. intros next x [H1 H2 H3 H4 H5 H6 H7 H8 H9] R _. split_and!; try done.
  split; simpl; try done; rewrite ?R; try done. intros fd' f'. rewrite lookup_delete_Some. intros [_ ?]. by eapply H3.
Qed.

Lemma keeps_set_fd fd f : 0 <= fd < NOFILE -> keeps me (setp me (fun x => pset_ofile (<[fd := f]> (p_ofile x)) x)).
Proof.
  intros Hfd. apply runs_set_me. intros next x [H1 H2 H3 H4 H5 H6 H7 H8 H9] R _. split_and!; try done.
  split; simpl; try done; rewrite ?R; try done.
  intros fd' f'. rewrite lookup_insert. case_decide; [by subst|apply H3].
Qed.

Lemma keeps_fdalloc f : keeps me (fdalloc me f).
Proof.
  unfold fdalloc. assert (H : forall k fd, 0 <= fd -> fd + Z.of_nat k <= NOFILE -> keeps me (fdalloc_loop me f fd k)).
  { induction k as [|k IH]; intros fd H0 Hk; cbn [fdalloc_loop]; [keeps|]. apply keeps_bind; [keeps|]. intros fds.
    destruct (fds !! fd); [apply IH; lia|]. apply keeps_bind; [apply keeps_set_fd; lia|keeps]. }
  by apply H.
Qed.
Lemma keeps_argfd n : keeps me (argfd me n). Proof. unfold argfd. keeps. Qed.
Hint Resolve keeps_fdclear keeps_fdalloc keeps_argfd : keeps.

Lemma keeps_sys_dup : keeps me (sys_dup me). Proof. unfold sys_dup. keeps. Qed.
Lemma keeps_sys_read : keeps me (sys_read rw fuel me). Proof. unfold sys_read. keeps. Qed.
Lemma keeps_sys_write : keeps me (sys_write rw lsr fuel me). Proof. unfold sys_write. keeps. Qed.
Lemma keeps_sys_close : keeps me (sys_close rw kend fuel me). Proof. unfold sys_close. keeps. Qed.
Lemma keeps_sys_fstat : keeps me (sys_fstat rw fuel me). Proof. unfold sys_fstat. keeps. Qed.
Lemma keeps_sys_link : keeps me (sys_link rw fuel me). Proof. unfold sys_link, link_bad. keeps. Qed.
Lemma keeps_isdirempty dp : keeps me (isdirempty rw fuel me dp).
Proof.
  unfold isdirempty. apply keeps_bind; [keeps|]. intros size. generalize (2 * DIRENT_SIZE).
  generalize (S (Z.to_nat (size / DIRENT_SIZE))). induction n; cbn [isdirempty_loop]; keeps.
Qed.
Hint Resolve keeps_isdirempty : keeps.
Lemma keeps_sys_unlink : keeps me (sys_unlink rw fuel me). Proof. unfold sys_unlink, unlink_bad. keeps. Qed.
Lemma keeps_create p t ma mi : keeps me (create rw fuel me p t ma mi).
Proof. unfold create, create_fail. keeps. Qed.
Hint Resolve keeps_create : keeps.
Lemma keeps_sys_open : keeps me (sys_open rw kend fuel me).
Proof. unfold sys_open, open_inode, open_file. keeps. Qed.
Lemma keeps_sys_mkdir : keeps me (sys_mkdir rw fuel me). Proof. unfold sys_mkdir, created. keeps. Qed.
Lemma keeps_sys_mknod : keeps me (sys_mknod rw fuel me). Proof. unfold sys_mknod, created. keeps. Qed.
Lemma keeps_sys_chdir : keeps me (sys_chdir rw fuel me). Proof. unfold sys_chdir. keeps. Qed.
Lemma keeps_exec_argv u i argv k : keeps me (exec_argv me u i argv k).
Proof. revert i argv. induction k; cbn [exec_argv]; keeps. Qed.
Lemma keeps_free_pages l : keeps me (free_pages kend l).
Proof. induction l; cbn [free_pages]; keeps. Qed.
Hint Resolve keeps_exec_argv keeps_free_pages : keeps.
Lemma keeps_sys_exec : keeps me (sys_exec rw kend trampoline fuel me). Proof. unfold sys_exec. keeps. Qed.
Lemma keeps_sys_pipe : keeps me (sys_pipe rw kend fuel me). Proof. unfold sys_pipe. keeps. Qed.

(** ** The dispatcher *)

Lemma keeps_consputc c : keeps me (consputc c). Proof. unfold consputc. keeps. Qed.
Hint Resolve keeps_consputc : keeps.
Lemma keeps_cputs l : keeps me (cputs l). Proof. induction l; simpl; keeps. Qed.
Hint Resolve keeps_cputs : keeps.
Lemma keeps_printptr x : keeps me (printptr x).
Proof.
  unfold printptr. assert (H : forall k x, keeps me (printptr_loop x k)) by (induction k; cbn [printptr_loop]; keeps).
  generalize 16%nat. keeps.
Qed.
Hint Resolve keeps_printptr : keeps.
Lemma keeps_printf_loop fmt args : keeps me (printf_loop fmt args).
Proof.
  assert (H : forall n fmt args, (length fmt <= n)%nat -> keeps me (printf_loop fmt args)).
  { induction n as [|n IH]; intros [|c fmt'] args' Hl; simpl in Hl; try lia; cbn [printf_loop]; [keeps..|].
    case_match; [apply keeps_bind; [keeps|]; intros ?; apply IH; lia|].
    destruct fmt' as [|c' fmt']; [keeps|]. simpl in Hl. assert (Hl' : (length fmt' <= n)%nat) by lia.
    unfold printint. repeat case_match; keeps. }
  by eapply H.
Qed.
Lemma keeps_printf l fmt args : keeps me (printf l fmt args).
Proof. unfold printf. pose proof keeps_printf_loop. keeps. Qed.

Lemma keeps_sys_fork :
  runs me (sys_fork kend trampoline forkret_addr me) (fun s => running me s /\ k_nextpid s < 2 ^ 31 - 1) (fun _ => running me).
Proof. by apply runs_fork. Qed.

(** Each entry of the table of handlers. *)
Lemma keeps_handlers i h : syscalls rw kend trampoline forkret_addr lsr fuel me kfault !! i = Some h ->
  runs me h (fun s => running me s /\ k_nextpid s < 2 ^ 31 - 1) (fun _ => running me).
Proof.
  assert (H : Forall (keeps me) (tail (syscalls rw kend trampoline forkret_addr lsr fuel me kfault))).
  { unfold syscalls. simpl tail.
    constructor; [apply keeps_sys_exit|]. constructor; [apply keeps_sys_wait|].
    constructor; [apply keeps_sys_pipe|]. constructor; [apply keeps_sys_read|].
    constructor; [apply keeps_sys_kill|]. constructor; [apply keeps_sys_exec|].
    constructor; [apply keeps_sys_fstat|]. constructor; [apply keeps_sys_chdir|].
    constructor; [apply keeps_sys_dup|]. constructor; [apply keeps_getp|].
    constructor; [apply keeps_sys_sbrk|]. constructor; [apply keeps_sys_sleep|].
    constructor; [apply keeps_sys_uptime|]. constructor; [apply keeps_sys_open|].
    constructor; [apply keeps_sys_write|]. constructor; [apply keeps_sys_mknod|].
    constructor; [apply keeps_sys_unlink|]. constructor; [apply keeps_sys_link|].
    constructor; [apply keeps_sys_mkdir|]. constructor; [apply keeps_sys_close|].
    constructor; [apply keeps_sys_year|]. constructor; [apply keeps_sys_procname|].
    constructor; [apply keeps_sys_state|].
    constructor. }
  destruct i as [|i]; [intros [= <-]; exact keeps_sys_fork|]. intros Hi.
  eapply runs_pre; [|eapply (Forall_lookup_1 _ _ i h H Hi)]. by intros s [? _].
Qed.

Lemma runs_syscall :
  runs me (syscall rw kend trampoline forkret_addr lsr fuel me kfault)
    (fun s => running me s /\ k_nextpid s < 2 ^ 31 - 1) (fun _ => running me).
Proof.
  set (P := fun s => running me s /\ k_nextpid s < 2 ^ 31 - 1). unfold syscall. eapply (runs_bind _ _ _ _ (fun _ => P)).
  { unfold tf_ld, getp. eapply (runs_bind _ _ _ _ (fun _ => P)); [by apply runs_gets|]. intros tf. by apply runs_gets. }
  intros v. pose proof keeps_tf_st as Hst. pose proof keeps_printf as Hpr.
  cbv zeta. generalize (keeps_handlers (Z.to_nat (s32 v - 1))).
  generalize (syscalls rw kend trampoline forkret_addr lsr fuel me kfault !! Z.to_nat (s32 v - 1)). intros o Ho.
  assert (Hbad : runs me (x ← getp (fun x => x) me;
      printf true (bytes "%d %s: unknown sys call %d" ++ [10])
        [PInt (p_pid x); PStr (Some (chars (p_name x))); PInt (s32 v)];; tf_st me TF_A0 (-1)) P (fun _ => running me)).
  { eapply runs_pre; [|apply keeps_bind]; [by intros s' [? _]|apply keeps_getp|]. intros x.
    apply keeps_bind; [apply Hpr|]. intros ?. exact (Hst _ _). }
  destruct (0 <? s32 v); [|exact Hbad]. destruct o as [h|]; [|exact Hbad].
  eapply runs_bind; [exact (Ho h eq_refl)|]. intros r. exact (Hst _ _).
Qed.
End handlers.

(** A load through a null pointer stops the kernel. *)
Lemma keeps_kernel_fault lsr rhr plic_read fuel pc me c plic a :
  keeps me (kernel_fault lsr rhr plic_read fuel pc me c plic a).
Proof.
  intros w s _. destruct (kernel_fault_panics lsr rhr plic_read fuel pc me c plic a w s) as (msg & H & _).
  rewrite H. exact I.
Qed.

(** C7: Whatever system call a process makes, with whatever arguments and errors,
    and however often it sleeps inside it: each time it gives up the processor
    and when the call returns the process table is well formed (live processes
    have distinct positive pids, a directory, a page table and a trapframe,
    unused entries are blank, zombies have no files, nobody is half created),
    and since it last got the processor it has not changed the entry of any other
    live process in the table, except that it may have woken it up, marked it
    killed, or given it another parent: its pid, kernel stack, size, page table,
    trapframe, open files, directory, name, saved context, channel and exit status
    are what they were.  (The statement is about the entries of the table, not
    about the contents of the pages they point to.)  A load through a null pointer
    in a call runs [kerneltrap]. *)
Theorem syscall_keeps_table rw kend trampoline forkret_addr lsr rhr plic_read fuel pc c plic me w s :
  running me s -> k_nextpid s < 2 ^ 31 - 1 ->
  safe me s
    (syscall rw kend trampoline forkret_addr lsr fuel me (kernel_fault lsr rhr plic_read fuel pc me c plic) w s)
    (fun _ s' => running me s').
Proof. intros Hs Hn. apply runs_syscall; [apply keeps_kernel_fault|done]. Qed.

(** Two processes: the first calls [kill(2)] and the second, whose pid is 2, sleeps. *)
Definition pair_proc (p : Z) : proc :=
  if p =? 0 then
    Proc RUNNING None 0 0 1 None (KSTACK 0) 4096 2147487744 2147491840 (Context_ 0 0 []) ∅ (Some 0) [115; 104; 0]
  else if p =? 1 then
    Proc SLEEPING (Some ChTicks) 0 0 2 (Some 0) (KSTACK 1) 8192 2147495936 2147500032 (Context_ 7 8 []) {[ 0 := 3 ]} (Some 0) [105; 0]
  else unused_proc p.

Definition pair_kst : kst :=
  upd k_mem (Kmem (st64 (st64 ∅ (2147491840 + TF_A0) 2) (2147491840 + TF_A7) 6) 0)
    (set_nextpid 3 (set_procs (zeros NPROC pair_proc) (kst0 []))).

Lemma pair_running : running 0 pair_kst.
Proof.
  assert (H0 : proc_at pair_kst 0 = pair_proc 0) by (by apply (proc_at_zeros pair_proc)).
  unfold running, here. rewrite H0. split; [|done].
  apply (table_ok_zeros pair_proc); try done.
  - intros p Hp. unfold pair_proc. destruct (p =? 0) eqn:E; [zbool; subst; by split; simpl; try done|].
    destruct (p =? 1) eqn:E1; [zbool; subst|apply unused_proc_ok].
    split; simpl; try done.
    + by intros fd f [<- _]%lookup_singleton_Some.
    + by intros q [= <-].
  - intros p q Hp Hq. unfold pair_proc.
    destruct (p =? 0) eqn:E1, (q =? 0) eqn:E2, (p =? 1) eqn:E3, (q =? 1) eqn:E4; zbool; subst; try done; lia.
Qed.

(** What the call leaves of the second process. *)
Definition woke_second (r : res kst unit) : bool :=
  match r with
  | Ret _ s _ => bool_decide (p_state (proc_at s 1) = RUNNABLE) && (p_killed (proc_at s 1) =? 1)
  | _ => false
  end.

Lemma woke_second_inv r (Q : kst -> Prop) : woke_second r = true -> safe 0 pair_kst r (fun _ => Q) ->
  exists w' s', r = Ret w' s' tt /\ p_state (proc_at s' 1) = RUNNABLE /\ p_killed (proc_at s' 1) = 1 /\
    foreign (proc_at s' 1) = foreign (proc_at pair_kst 1) /\ Q s'.
Proof.
  destruct r as [w' s' []| | |]; try done. simpl. intros [Hst Hk]%andb_true_iff [G HQ].
  apply bool_decide_eq_true in Hst. zbool. exists w', s'. split_and!; try done.
  assert (H1 : proc_at pair_kst 1 = pair_proc 1) by (by apply (proc_at_zeros pair_proc)).
  apply (G 1); [done|]. rewrite H1. by left.
Qed.

Lemma syscall_keeps_table_witness :
  exists w' s',
    syscall plain_rw 2147483648 0 0 (fun _ => 32) 1 0
      (kernel_fault (fun _ => 32) (fun _ => 0) (fun _ _ => 0) 1 0 0 (Csrs 2 0 0 8 0 0 0 0) []) (World [] [] []) pair_kst
    = Ret w' s' tt /\ p_state (proc_at s' 1) = RUNNABLE /\ p_killed (proc_at s' 1) = 1 /\
    foreign (proc_at s' 1) = foreign (proc_at pair_kst 1) /\ running 0 s'.
Proof.
  apply (woke_second_inv _ (running 0)); [vm_compute; reflexivity|].
  apply (syscall_keeps_table plain_rw 2147483648 0 0 (fun _ => 32) (fun _ => 0) (fun _ _ => 0) 1 0
           (Csrs 2 0 0 8 0 0 0 0) [] 0 (World [] [] []) pair_kst).
  - exact pair_running.
  - vm_compute. reflexivity.
Defined.
