(* ===== verification/Asm.v ===== *)
(** * The assembly code of the kernel

    kernel/trampoline.S, kernel/kernelvec.S and kernel/swtch.S as lists of
    instructions, on a hart with its registers, its control and status registers and
    memory.  What is shown is that they save and restore what they have to. *)

From S2P Require Import Prelude Mem Layout.

(** ** A hart *)

Inductive reg :=
  | RA | SP | GP | TP | T0 | T1 | T2 | S0 | S1
  | A0 | A1 | A2 | A3 | A4 | A5 | A6 | A7
  | S2 | S3 | S4 | S5 | S6 | S7 | S8 | S9 | S10 | S11 | T3 | T4 | T5 | T6.

#[export] Instance reg_eq_dec : EqDecision reg.
Proof. solve_decision. Defined.

Inductive csrid :=
  | Mstatus | Mepc | Mtvec | Mscratch | Medeleg | Mideleg | Mie | Mip | Mhartid | Mcounteren | Time | Pmpcfg0 | Pmpaddr0
  | Sstatus | Sie | Sip | Stvec | Sepc | Scause | Stval | Sscratch | Satp.

#[export] Instance csrid_eq_dec : EqDecision csrid.
Proof. solve_decision. Defined.

Inductive priv := PrvU | PrvS | PrvM.

(** [h_deleg] and [h_edeleg]: the interrupts and the exceptions that this hart can delegate. *)
Record hart := Hart {
  h_reg : reg -> Z; h_csr : csrid -> Z; h_mem : mem; h_prv : priv; h_pc : Z; h_deleg : Z; h_edeleg : Z }.

Definition set_hreg r v h := Hart (fun r' => if decide (r' = r) then u64 v else h_reg h r') (h_csr h) (h_mem h) (h_prv h) (h_pc h) (h_deleg h) (h_edeleg h).
Definition set_hcsr c v h := Hart (h_reg h) (fun c' => if decide (c' = c) then u64 v else h_csr h c') (h_mem h) (h_prv h) (h_pc h) (h_deleg h) (h_edeleg h).
Definition set_hmem m h := Hart (h_reg h) (h_csr h) m (h_prv h) (h_pc h) (h_deleg h) (h_edeleg h).
Definition set_hprv p h := Hart (h_reg h) (h_csr h) (h_mem h) p (h_pc h) (h_deleg h) (h_edeleg h).
Definition set_hpc a h := Hart (h_reg h) (h_csr h) (h_mem h) (h_prv h) a (h_deleg h) (h_edeleg h).

(** The supervisor's status register is a view of the machine's, and its interrupt
    registers are views of the machine's at the interrupts that are delegated. *)
Definition SSTATUS_MASK : Z := 0x80000003000DE762.
Definition SSIP : Z := 2.

Definition masked (old new mask : Z) : Z := Z.lor (Z.land old (Z.lnot mask)) (Z.land new mask).

Definition csr_read (c : csrid) (h : hart) : Z :=
  match c with
  | Sstatus => Z.land (h_csr h Mstatus) SSTATUS_MASK
  | Sie => Z.land (h_csr h Mie) (h_csr h Mideleg)
  | Sip => Z.land (h_csr h Mip) (h_csr h Mideleg)
  | _ => h_csr h c
  end.

(** Of the pending interrupts, only the software interrupt can be written. *)
Definition csr_write (c : csrid) (x : Z) (h : hart) : hart :=
  match c with
  | Sstatus => set_hcsr Mstatus (masked (h_csr h Mstatus) x SSTATUS_MASK) h
  | Sie => set_hcsr Mie (masked (h_csr h Mie) x (h_csr h Mideleg)) h
  | Sip => set_hcsr Mip (masked (h_csr h Mip) x (Z.land SSIP (h_csr h Mideleg))) h
  | Mideleg => set_hcsr Mideleg (Z.land x (h_deleg h)) h
  | Medeleg => set_hcsr Medeleg (Z.land x (h_edeleg h)) h
  | Mhartid | Time => h
  | _ => set_hcsr c x h
  end.

(** [mret] and [sret]. *)
Definition MSTATUS_MPP : Z := Z.shiftl 3 11.
Definition bit_to (b : bool) (i x : Z) : Z := if b then Z.setbit x i else Z.clearbit x i.

(** The privilege that [mret] goes to. *)
Definition mpp_priv (st : Z) : priv :=
  let mpp := Z.land (Z.shiftr st 11) 3 in
  if mpp =? 3 then PrvM else if mpp =? 1 then PrvS else PrvU.

Definition mret_ (h : hart) : hart :=
  let st := h_csr h Mstatus in
  let prv := mpp_priv st in
  let st := Z.land (bit_to true 7 (bit_to (Z.testbit st 7) 3 st)) (Z.lnot MSTATUS_MPP) in
  set_hpc (h_csr h Mepc) (set_hprv prv (set_hcsr Mstatus st h)).

Definition sret_ (h : hart) : hart :=
  let st := h_csr h Mstatus in
  let prv := if Z.testbit st 8 then PrvS else PrvU in
  let st := Z.clearbit (bit_to true 5 (bit_to (Z.testbit st 5) 1 st)) 8 in
  set_hpc (h_csr h Sepc) (set_hprv prv (set_hcsr Mstatus st h)).

(** ** Instructions *)

Inductive instr :=
  | Sd (rs : reg) (off : Z) (rb : reg)
  | Ld (rd : reg) (off : Z) (rb : reg)
  | Li (rd : reg) (imm : Z)
  | Addi (rd rs : reg) (imm : Z)
  | Add (rd rs rs' : reg)
  | Mul (rd rs rs' : reg)
  | Csrrw (rd : reg) (c : csrid) (rs : reg)
  | Csrw (c : csrid) (rs : reg)
  | Csrr (rd : reg) (c : csrid)
  | SfenceVma
  | Jr (rs : reg)
  | Mret
  | Sret.

Section exec.
(** Address translation: the physical address of a virtual one, by [satp]. *)
Variable va2pa : Z -> Z -> Z.

Definition paddr (h : hart) (a : Z) : Z :=
  match h_prv h with PrvM => u64 a | _ => va2pa (h_csr h Satp) (u64 a) end.

Definition exec1 (i : instr) (h : hart) : hart :=
  match i with
  | Sd rs off rb => set_hmem (st64 (h_mem h) (paddr h (h_reg h rb + off)) (h_reg h rs)) h
  | Ld rd off rb => set_hreg rd (ld64 (h_mem h) (paddr h (h_reg h rb + off))) h
  | Li rd imm => set_hreg rd imm h
  | Addi rd rs imm => set_hreg rd (h_reg h rs + imm) h
  | Add rd rs rs' => set_hreg rd (h_reg h rs + h_reg h rs') h
  | Mul rd rs rs' => set_hreg rd (h_reg h rs * h_reg h rs') h
  | Csrrw rd c rs => set_hreg rd (csr_read c h) (csr_write c (h_reg h rs) h)
  | Csrw c rs => csr_write c (h_reg h rs) h
  | Csrr rd c => set_hreg rd (csr_read c h) h
  | SfenceVma => h
  | Jr rs => set_hpc (h_reg h rs) h
  | Mret => mret_ h
  | Sret => sret_ h
  end.

Fixpoint exec (l : list instr) (h : hart) : hart :=
  match l with
  | [] => h
  | i :: l => exec l (exec1 i h)
  end.

(** ** The code *)

Definition uservec_code : list instr := [
  Csrw Sscratch A0;
  Li A0 TRAPFRAME;
  Sd RA 40 A0; Sd SP 48 A0; Sd GP 56 A0; Sd TP 64 A0; Sd T0 72 A0; Sd T1 80 A0; Sd T2 88 A0; Sd S0 96 A0;
  Sd S1 104 A0; Sd A1 120 A0; Sd A2 128 A0; Sd A3 136 A0; Sd A4 144 A0; Sd A5 152 A0; Sd A6 160 A0; Sd A7 168 A0;
  Sd S2 176 A0; Sd S3 184 A0; Sd S4 192 A0; Sd S5 200 A0; Sd S6 208 A0; Sd S7 216 A0; Sd S8 224 A0; Sd S9 232 A0;
  Sd S10 240 A0; Sd S11 248 A0; Sd T3 256 A0; Sd T4 264 A0; Sd T5 272 A0; Sd T6 280 A0;
  Csrr T0 Sscratch;
  Sd T0 112 A0;
  Ld SP 8 A0;
  Ld TP 32 A0;
  Ld T0 16 A0;
  Ld T1 0 A0;
  SfenceVma;
  Csrw Satp T1;
  SfenceVma;
  Jr T0].

Definition userret_code : list instr := [
  SfenceVma;
  Csrw Satp A0;
  SfenceVma;
  Li A0 TRAPFRAME;
  Ld RA 40 A0; Ld SP 48 A0; Ld GP 56 A0; Ld TP 64 A0; Ld T0 72 A0; Ld T1 80 A0; Ld T2 88 A0; Ld S0 96 A0;
  Ld S1 104 A0; Ld A1 120 A0; Ld A2 128 A0; Ld A3 136 A0; Ld A4 144 A0; Ld A5 152 A0; Ld A6 160 A0; Ld A7 168 A0;
  Ld S2 176 A0; Ld S3 184 A0; Ld S4 192 A0; Ld S5 200 A0; Ld S6 208 A0; Ld S7 216 A0; Ld S8 224 A0; Ld S9 232 A0;
  Ld S10 240 A0; Ld S11 248 A0; Ld T3 256 A0; Ld T4 264 A0; Ld T5 272 A0; Ld T6 280 A0;
  Ld A0 112 A0;
  Sret].

Definition swtch_code : list instr := [
  Sd RA 0 A0; Sd SP 8 A0; Sd S0 16 A0; Sd S1 24 A0; Sd S2 32 A0; Sd S3 40 A0; Sd S4 48 A0; Sd S5 56 A0;
  Sd S6 64 A0; Sd S7 72 A0; Sd S8 80 A0; Sd S9 88 A0; Sd S10 96 A0; Sd S11 104 A0;
  Ld RA 0 A1; Ld SP 8 A1; Ld S0 16 A1; Ld S1 24 A1; Ld S2 32 A1; Ld S3 40 A1; Ld S4 48 A1; Ld S5 56 A1;
  Ld S6 64 A1; Ld S7 72 A1; Ld S8 80 A1; Ld S9 88 A1; Ld S10 96 A1; Ld S11 104 A1;
  Jr RA].

Definition timervec_code : list instr := [
  Csrrw A0 Mscratch A0;
  Sd A1 0 A0; Sd A2 8 A0; Sd A3 16 A0;
  Ld A1 24 A0; Ld A2 32 A0; Ld A3 0 A1; Add A3 A3 A2; Sd A3 0 A1;
  Li A1 2; Csrw Sip A1;
  Ld A3 16 A0; Ld A2 8 A0; Ld A1 0 A0;
  Csrrw A0 Mscratch A0;
  Mret].

Definition kernelvec_save : list instr := [
  Addi SP SP (-256);
  Sd RA 0 SP; Sd SP 8 SP; Sd GP 16 SP; Sd TP 24 SP; Sd T0 32 SP; Sd T1 40 SP; Sd T2 48 SP; Sd S0 56 SP;
  Sd S1 64 SP; Sd A0 72 SP; Sd A1 80 SP; Sd A2 88 SP; Sd A3 96 SP; Sd A4 104 SP; Sd A5 112 SP; Sd A6 120 SP;
  Sd A7 128 SP; Sd S2 136 SP; Sd S3 144 SP; Sd S4 152 SP; Sd S5 160 SP; Sd S6 168 SP; Sd S7 176 SP; Sd S8 184 SP;
  Sd S9 192 SP; Sd S10 200 SP; Sd S11 208 SP; Sd T3 216 SP; Sd T4 224 SP; Sd T5 232 SP; Sd T6 240 SP].

Definition kernelvec_restore : list instr := [
  Ld RA 0 SP; Ld SP 8 SP; Ld GP 16 SP; Ld T0 32 SP; Ld T1 40 SP; Ld T2 48 SP; Ld S0 56 SP;
  Ld S1 64 SP; Ld A0 72 SP; Ld A1 80 SP; Ld A2 88 SP; Ld A3 96 SP; Ld A4 104 SP; Ld A5 112 SP; Ld A6 120 SP;
  Ld A7 128 SP; Ld S2 136 SP; Ld S3 144 SP; Ld S4 152 SP; Ld S5 160 SP; Ld S6 168 SP; Ld S7 176 SP; Ld S8 184 SP;
  Ld S9 192 SP; Ld S10 200 SP; Ld S11 208 SP; Ld T3 216 SP; Ld T4 224 SP; Ld T5 232 SP; Ld T6 240 SP;
  Addi SP SP 256;
  Sret].

(** [kerneltrap] is what the call of the C function does to the hart. *)
Definition kernelvec (kerneltrap : hart -> hart) (h : hart) : hart :=
  exec kernelvec_restore (kerneltrap (exec kernelvec_save h)).
End exec.

(** ** Register areas

    The save and the restore sequences, by the slots they use.  [frame_slots] are the
    registers of struct trapframe, and [context_slots] those of struct context. *)

Definition saves (b : reg) (l : list (reg * Z)) : list instr := (fun '(r, o) => Sd r o b) <$> l.
Definition loads (b : reg) (l : list (reg * Z)) : list instr := (fun '(r, o) => Ld r o b) <$> l.

Definition frame_slots : list (reg * Z) := [
  (RA, 40); (SP, 48); (GP, 56); (TP, 64); (T0, 72); (T1, 80); (T2, 88); (S0, 96); (S1, 104);
  (A0, 112); (A1, 120); (A2, 128); (A3, 136); (A4, 144); (A5, 152); (A6, 160); (A7, 168);
  (S2, 176); (S3, 184); (S4, 192); (S5, 200); (S6, 208); (S7, 216); (S8, 224); (S9, 232);
  (S10, 240); (S11, 248); (T3, 256); (T4, 264); (T5, 272); (T6, 280)].

Definition context_slots : list (reg * Z) := [
  (RA, 0); (SP, 8); (S0, 16); (S1, 24); (S2, 32); (S3, 40); (S4, 48); (S5, 56);
  (S6, 64); (S7, 72); (S8, 80); (S9, 88); (S10, 96); (S11, 104)].

(** Slots of eight bytes, in [n] bytes, apart from each other. *)
Definition slots_ok (n : Z) (l : list (reg * Z)) : bool :=
  bool_decide (NoDup l.*2) && forallb (fun '(_, o) => (0 <=? o) && (o + 8 <=? n) && (o mod 8 =? 0)) l.

Definition save_mem (l : list (reg * Z)) (f : reg -> Z) (pa : Z) (m : mem) : mem :=
  foldl (fun m '(r, o) => st64 m (pa + o) (f r)) m l.

(** The slots of [l] at [pa] hold the registers [f]. *)
Definition held (m : mem) (pa : Z) (l : list (reg * Z)) (f : reg -> Z) : Prop :=
  forall r o, (r, o) ∈ l -> ld64 m (pa + o) = f r.

Lemma slots_ok_cons n r o l :
  slots_ok n ((r, o) :: l) = true ->
  0 <= o /\ o + 8 <= n /\ slots_ok n l = true /\ forall r' o', (r', o') ∈ l -> o + 8 <= o' \/ o' + 8 <= o.
Proof.
  unfold slots_ok. rewrite !andb_true_iff, !bool_decide_eq_true, !forallb_forall. intros [Hnd Hl].
  apply NoDup_cons in Hnd as [Hni Hnd].
  pose proof (Hl (r, o) (or_introl eq_refl)) as Ho. simpl in Ho. rewrite !andb_true_iff in Ho.
  split_and!; [lia..|done| |].
  { intros x Hx. apply Hl. by right. }
  intros r' o' Hin. assert (o <> o') by (intros ->; apply Hni, list_elem_of_fmap; by exists (r', o')).
  specialize (Hl (r', o') (or_intror (proj1 (list_elem_of_In _ _) Hin))). simpl in Hl. rewrite !andb_true_iff in Hl.
  Z.to_euclidean_division_equations; lia.
Qed.

Lemma slots_ok_in n l r o : slots_ok n l = true -> (r, o) ∈ l -> 0 <= o /\ o + 8 <= n.
Proof.
  induction l as [|[r' o'] l IH]; intros H Hin; [by apply elem_of_nil in Hin|].
  apply slots_ok_cons in H as (? & ? & H & _). apply elem_of_cons in Hin as [[= -> ->]|Hin]; [lia|by apply IH].
Qed.

Lemma save_mem_other l f pa m a :
  (forall r o, (r, o) ∈ l -> a + 8 <= pa + o \/ pa + o + 8 <= a) -> ld64 (save_mem l f pa m) a = ld64 m a.
Proof.
  revert m. induction l as [|[r o] l IH]; intros m H; [done|]. simpl.
  rewrite IH by (intros; eapply H; by right). apply ld64_st64_other. destruct (H r o ltac:(by left)); lia.
Qed.

Lemma save_mem_held n l f pa m :
  slots_ok n l = true -> (forall r, is_u64 (f r)) -> held (save_mem l f pa m) pa l f.
Proof.
  intros Hl Hf r o. revert m. induction l as [|[r' o'] l IH]; intros m Hin; [by apply elem_of_nil in Hin|].
  apply slots_ok_cons in Hl as (_ & _ & Hl & Hap). simpl. apply elem_of_cons in Hin as [[= -> ->]|Hin]; [|by apply IH].
  rewrite save_mem_other by (intros ? ? Hin; destruct (Hap _ _ Hin); lia). apply ld64_st64_same, Hf.
Qed.

Lemma save_mem_out n l f pa m a :
  slots_ok n l = true -> a + 8 <= pa \/ pa + n <= a -> ld64 (save_mem l f pa m) a = ld64 m a.
Proof. intros Hl Ha. apply save_mem_other. intros r o Hin. destruct (slots_ok_in _ _ _ _ Hl Hin). lia. Qed.

(** What a sequence of loads leaves of a hart. *)
Record only_regs (h h' : hart) : Prop := {
  or_csr : h_csr h' = h_csr h;
  or_mem : h_mem h' = h_mem h;
  or_prv : h_prv h' = h_prv h;
  or_pc : h_pc h' = h_pc h;
  or_deleg : h_deleg h' = h_deleg h;
  or_edeleg : h_edeleg h' = h_edeleg h }.

Section areas.
Variable va2pa : Z -> Z -> Z.
Abbreviation run := (exec va2pa).

(** The [n] bytes at the address in [b] are the [n] bytes at [pa] of memory. *)
Definition area (h : hart) (b : reg) (pa n : Z) : Prop :=
  forall o, 0 <= o < n -> paddr va2pa h (h_reg h b + o) = pa + o.

Lemma exec_app l l' h : run (l ++ l') h = run l' (run l h).
Proof. revert h. induction l as [|i l IH]; intros h; [done|]. apply IH. Qed.

Lemma exec_saves b pa n l h :
  area h b pa n -> slots_ok n l = true -> run (saves b l) h = set_hmem (save_mem l (h_reg h) pa (h_mem h)) h.
Proof.
  revert h. induction l as [|[r o] l IH]; intros h Ha Hl; [by destruct h|].
  apply slots_ok_cons in Hl as (? & ? & Hl & _). simpl. rewrite IH; [|exact Ha|done].
  unfold set_hmem. simpl. by rewrite Ha by lia.
Qed.

Lemma exec_loads b pa n l g h :
  area h b pa n -> slots_ok n l = true -> (forall r, is_u64 (g r)) -> held (h_mem h) pa l g ->
  (b ∈ l.*1 -> g b = h_reg h b) ->
  only_regs h (run (loads b l) h) /\
  forall r, h_reg (run (loads b l) h) r = if decide (r ∈ l.*1) then g r else h_reg h r.
Proof.
  revert h. induction l as [|[r o] l IH]; intros h Ha Hl Hg Hm Hb; [split; [by split|done]|].
  apply slots_ok_cons in Hl as (? & ? & Hl & _). simpl.
  assert (Hv : ld64 (h_mem h) (paddr va2pa h (h_reg h b + o)) = g r) by (rewrite Ha by lia; apply Hm; by left).
  rewrite Hv. set (h1 := set_hreg r (g r) h).
  assert (Hr1 : forall r', h_reg h1 r' = if decide (r' = r) then g r else h_reg h r').
  { intros r'. unfold h1. simpl. by rewrite (u64_small (g r)) by apply Hg. }
  assert (Hb1 : h_reg h1 b = h_reg h b).
  { rewrite Hr1. case_decide as E; [|done]. subst r. apply Hb. by left. }
  destruct (IH h1) as [[] HR]; [|done|done| | |].
  { intros o' Ho'. rewrite <- (Ha o' Ho'), Hb1. done. }
  { intros r' o' Hin. apply Hm. by right. }
  { intros Hin. rewrite Hb1. apply Hb. by right. }
  split; [by split|]. intros r'. rewrite HR, Hr1. repeat case_decide; set_solver.
Qed.

Lemma area_set_hreg h b pa n r v : r <> b -> area h b pa n -> area (set_hreg r v h) b pa n.
Proof. intros Hr Ha o Ho. rewrite <- (Ha o Ho). unfold paddr. simpl. by rewrite decide_False by congruence. Qed.

Lemma exec_ld h b pa n rd o l :
  area h b pa n -> 0 <= o < n -> run (Ld rd o b :: l) h = run l (set_hreg rd (ld64 (h_mem h) (pa + o)) h).
Proof. intros Ha Ho. simpl. by rewrite Ha. Qed.

Lemma exec_sd h b pa n rs o l :
  area h b pa n -> 0 <= o < n -> run (Sd rs o b :: l) h = run l (set_hmem (st64 (h_mem h) (pa + o) (h_reg h rs)) h).
Proof. intros Ha Ho. simpl. by rewrite Ha. Qed.
End areas.

(** One load or store of a sequence, at an area of the context. *)
Ltac area_solve :=
  repeat match goal with |- area _ (set_hreg _ _ _) _ _ _ => apply area_set_hreg; [discriminate|] end; eassumption.
Ltac exec_mem := first [erewrite exec_ld; [|area_solve|lia] | erewrite exec_sd; [|area_solve|lia]].

(** ** What the code does *)

Record hart_ok (h : hart) : Prop := {
  hart_ok_reg : forall r, is_u64 (h_reg h r);
  hart_ok_csr : forall c, is_u64 (h_csr h c) }.

Definition user_slots : list (reg * Z) := filter (fun x => x.1 <> A0) frame_slots.

Lemma user_slots_frame r o : (r, o) ∈ user_slots <-> r <> A0 /\ (r, o) ∈ frame_slots.
Proof. unfold user_slots. by rewrite list_elem_of_filter. Qed.

Lemma frame_slots_total r : r ∈ frame_slots.*1.
Proof. destruct r; vm_compute; set_solver. Qed.

Lemma user_slots_total r : r ∈ user_slots.*1 <-> r <> A0.
Proof.
  rewrite list_elem_of_fmap. split.
  - intros ([r' o] & -> & Hin). by apply user_slots_frame in Hin as [? _].
  - intros Hr. destruct (proj1 (list_elem_of_fmap _ _ _) (frame_slots_total r)) as ([r' o] & -> & Hin).
    exists (r', o). split; [done|]. by apply user_slots_frame.
Qed.

Lemma frame_slots_a0 : (A0, 112) ∈ frame_slots.
Proof. do 9 right. left. Qed.

Lemma frame_slots_ok : slots_ok 288 frame_slots = true.
Proof. reflexivity. Qed.

Lemma user_slots_ok : slots_ok 288 user_slots = true.
Proof. reflexivity. Qed.

Lemma frame_slots_all (P : reg -> Z -> bool) r o :
  forallb (fun x => P x.1 x.2) frame_slots = true -> (r, o) ∈ frame_slots -> P r o = true.
Proof. rewrite forallb_forall. intros H Hin%list_elem_of_In. exact (H (r, o) Hin). Qed.

Lemma frame_slots_low r o : (r, o) ∈ frame_slots -> 40 <= o.
Proof. intros Hin. by apply Z.leb_le, (frame_slots_all (fun _ o => 40 <=? o) r o). Qed.

Lemma frame_slots_apart r o :
  (r, o) ∈ frame_slots -> if decide (r = A0) then o = 112 else o + 8 <= 112 \/ 112 + 8 <= o.
Proof.
  intros Hin. pose (P := fun (r : reg) o => if decide (r = A0) then o =? 112 else (o + 8 <=? 112) || (120 <=? o)).
  assert (H : P r o = true) by (by apply frame_slots_all). unfold P in H. case_decide; lia.
Qed.

Lemma is_u64_set r v h r' : hart_ok h -> is_u64 (h_reg (set_hreg r v h) r').
Proof. intros H. simpl. case_decide; [apply u64_range|apply H]. Qed.

Section trampoline.
Variable va2pa : Z -> Z -> Z.
Abbreviation run := (exec va2pa).

(** [satp] maps the trapframe's address to [tf]. *)
Definition trapframe_at (satp tf : Z) : Prop :=
  forall o, 0 <= o < 288 -> va2pa satp (TRAPFRAME + o) = tf + o.

Lemma trapframe_area h satp tf :
  h_prv h = PrvS -> h_csr h Satp = satp -> h_reg h A0 = TRAPFRAME -> trapframe_at satp tf -> area va2pa h A0 tf 288.
Proof.
  intros Hp Hs Ha Ht o Ho. unfold paddr. rewrite Hp, Hs, Ha, u64_small; [by apply Ht|].
  change TRAPFRAME with 274877898752. lia.
Qed.

(** After the registers but [a0] are saved: [a0] itself, and the kernel's registers. *)
Definition uservec_leave : list instr := [
  Csrr T0 Sscratch; Sd T0 112 A0; Ld SP 8 A0; Ld TP 32 A0; Ld T0 16 A0; Ld T1 0 A0; SfenceVma; Csrw Satp T1; SfenceVma; Jr T0].

Lemma uservec_split :
  uservec_code = [Csrw Sscratch A0; Li A0 TRAPFRAME] ++ saves A0 user_slots ++ uservec_leave.
Proof. vm_compute. reflexivity. Qed.

Lemma uservec_leave_run h tf :
  area va2pa h A0 tf 288 ->
  let m := st64 (h_mem h) (tf + 112) (u64 (h_csr h Sscratch)) in
  let h1 := run uservec_leave h in
  h_mem h1 = m /\ h_reg h1 SP = u64 (ld64 m (tf + 8)) /\ h_reg h1 TP = u64 (ld64 m (tf + 32)) /\
  h_pc h1 = u64 (ld64 m (tf + 16)) /\ h_csr h1 Satp = u64 (u64 (ld64 m (tf + 0))) /\ h_prv h1 = h_prv h.
Proof.
  intros Ha m h1. unfold h1, uservec_leave.
  change (run (Csrr T0 Sscratch :: ?l) h) with (run l (set_hreg T0 (h_csr h Sscratch) h)).
  assert (Ha1 : area va2pa (set_hreg T0 (h_csr h Sscratch) h) A0 tf 288) by area_solve.
  exec_mem.
  set (h2 := set_hmem _ _). assert (Ha2 : area va2pa h2 A0 tf 288) by exact Ha1.
  do 4 exec_mem. by split_and!.
Qed.

#[local] Opaque frame_slots user_slots uservec_leave save_mem.

(** [uservec] leaves the user's registers in the trapframe, and takes the kernel's
    stack, hart and page table from it. *)
Lemma uservec_run h tf :
  hart_ok h -> h_prv h = PrvS -> trapframe_at (h_csr h Satp) tf ->
  let h1 := run uservec_code h in
  held (h_mem h1) tf frame_slots (h_reg h) /\
  (forall a, a + 8 <= tf + 40 \/ tf + 288 <= a -> ld64 (h_mem h1) a = ld64 (h_mem h) a) /\
  h_reg h1 SP = u64 (ld64 (h_mem h) (tf + 8)) /\
  h_reg h1 TP = u64 (ld64 (h_mem h) (tf + 32)) /\
  h_pc h1 = u64 (ld64 (h_mem h) (tf + 16)) /\
  h_csr h1 Satp = u64 (ld64 (h_mem h) tf) /\
  h_prv h1 = PrvS.
Proof.
  intros Hok Hp Htf h1.
  set (ha := set_hreg A0 TRAPFRAME (set_hcsr Sscratch (h_reg h A0) h)).
  assert (Ha : area va2pa ha A0 tf 288) by (by apply (trapframe_area ha (h_csr h Satp))).
  pose proof (exec_saves va2pa A0 tf 288 user_slots ha Ha user_slots_ok) as Hs.
  set (hs := set_hmem _ _) in Hs.
  assert (E : h1 = run uservec_leave hs) by (unfold h1; rewrite uservec_split, 2!exec_app; change (run [Csrw Sscratch A0; Li A0 TRAPFRAME] h) with ha; by rewrite Hs).
  destruct (uservec_leave_run hs tf Ha) as (Hm & Hsp & Htp & Hpc & Hsatp & Hpv).
  rewrite <- E in Hm, Hsp, Htp, Hpc, Hsatp, Hpv.
  change (u64 (h_csr hs Sscratch)) with (u64 (u64 (h_reg h A0))) in *.
  assert (Eu : u64 (u64 (h_reg h A0)) = h_reg h A0) by (by rewrite !u64_small by (apply Hok || apply u64_range)).
  rewrite Eu in Hm, Hsp, Htp, Hpc, Hsatp.
  set (m := st64 _ _ _) in *.
  assert (Hout : forall a, a + 8 <= tf + 40 \/ tf + 288 <= a -> ld64 m a = ld64 (h_mem h) a).
  { intros a Hr. unfold m. rewrite ld64_st64_other by lia. apply save_mem_other.
    intros r o Hin. destruct (slots_ok_in _ _ _ _ user_slots_ok Hin).
    apply user_slots_frame in Hin as [_ Hin%frame_slots_low]. lia. }
  rewrite Hm, Hsp, Htp, Hpc, Hsatp, Hpv, !Hout, Z.add_0_r by lia.
  split_and!; [|exact Hout|reflexivity..|apply u64_small, u64_range|exact Hp].
  intros r o Hin. pose proof (frame_slots_apart r o Hin) as Hap. unfold m.
  case_decide as Hr; [rewrite Hr, Hap; apply ld64_st64_same, Hok|]. rewrite ld64_st64_other by lia.
  pose proof (proj2 (user_slots_frame r o) (conj Hr Hin)) as Hin'.
  assert (Hu : forall r', is_u64 (h_reg ha r')) by (intros r'; exact (is_u64_set A0 TRAPFRAME h r' Hok)).
  etransitivity; [exact (save_mem_held 288 user_slots (h_reg ha) tf (h_mem ha) user_slots_ok Hu r o Hin')|].
  unfold ha. simpl. by rewrite decide_False.
Qed.
Lemma userret_split :
  userret_code = [SfenceVma; Csrw Satp A0; SfenceVma; Li A0 TRAPFRAME] ++ loads A0 user_slots ++ [Ld A0 112 A0; Sret].
Proof. vm_compute. reflexivity. Qed.

(** [userret] makes the registers those of the trapframe of the page table in [a0]. *)
Lemma userret_run h tf g :
  h_prv h = PrvS -> is_u64 (h_reg h A0) -> trapframe_at (h_reg h A0) tf ->
  (forall r, is_u64 (g r)) -> held (h_mem h) tf frame_slots g ->
  let h1 := run userret_code h in
  (forall r, h_reg h1 r = g r) /\ h_pc h1 = h_csr h Sepc /\
  h_prv h1 = (if Z.testbit (h_csr h Mstatus) 8 then PrvS else PrvU) /\
  h_csr h1 Satp = h_reg h A0 /\ h_mem h1 = h_mem h.
Proof.
  intros Hp Hs Htf Hg Hm h1.
  set (ha := set_hreg A0 TRAPFRAME (set_hcsr Satp (h_reg h A0) h)).
  assert (Ha : area va2pa ha A0 tf 288).
  { apply (trapframe_area ha (h_reg h A0)); [exact Hp| |reflexivity|exact Htf]. by apply u64_small. }
  assert (Hm' : held (h_mem ha) tf user_slots g).
  { intros r o Hin. apply Hm. by apply user_slots_frame. }
  destruct (exec_loads va2pa A0 tf 288 user_slots g ha Ha user_slots_ok Hg Hm') as [[Oc Om Op Opc _ _] Hr].
  { intros Hin. by apply user_slots_total in Hin. }
  set (hl := run (loads A0 user_slots) ha) in *.
  assert (Hl : area va2pa hl A0 tf 288).
  { intros o Ho. rewrite <- (Ha o Ho). unfold paddr. by rewrite Op, Oc, (Hr A0), decide_False by (intros Hin; by apply user_slots_total in Hin). }
  assert (E : h1 = sret_ (set_hreg A0 (ld64 (h_mem hl) (tf + 112)) hl)).
  { unfold h1. rewrite userret_split, 2!exec_app.
    change (run [SfenceVma; Csrw Satp A0; SfenceVma; Li A0 TRAPFRAME] h) with ha. fold hl. by exec_mem. }
  assert (H112 : u64 (ld64 (h_mem h) (tf + 112)) = g A0).
  { rewrite (Hm A0 112); [by apply u64_small, Hg|exact frame_slots_a0]. }
  rewrite E. unfold sret_. simpl. rewrite Om, Oc. simpl. rewrite (u64_small (h_reg h A0)) by exact Hs.
  split_and!; [|reflexivity..]. intros r. case_decide as Hr0; [by rewrite Hr0, H112|].
  rewrite Hr, decide_True; [reflexivity|]. by apply user_slots_total.
Qed.

(** C9: A trap from user space and the return from it are invisible to the program: [uservec]
    saves all 31 registers in the trapframe's fields and enters the kernel on its stack
    and page table, and [userret] on any hart restores them all from what the kernel left
    there, so that only [a0], where a system call's result goes, can differ. *)
Theorem trap_roundtrip h h2 tf ret :
  hart_ok h -> h_prv h = PrvS -> trapframe_at (h_csr h Satp) tf ->
  let h1 := run uservec_code h in
  h_prv h2 = PrvS -> h_reg h2 A0 = h_csr h Satp -> Z.testbit (h_csr h2 Mstatus) 8 = false ->
  (forall r o, r <> A0 -> (r, o) ∈ frame_slots -> ld64 (h_mem h2) (tf + o) = ld64 (h_mem h1) (tf + o)) ->
  is_u64 ret -> ld64 (h_mem h2) (tf + 112) = ret ->
  let h3 := run userret_code h2 in
  (held (h_mem h1) tf frame_slots (h_reg h) /\
   (forall a, a + 8 <= tf + 40 \/ tf + 288 <= a -> ld64 (h_mem h1) a = ld64 (h_mem h) a) /\
   h_reg h1 SP = u64 (ld64 (h_mem h) (tf + 8)) /\ h_reg h1 TP = u64 (ld64 (h_mem h) (tf + 32)) /\
   h_pc h1 = u64 (ld64 (h_mem h) (tf + 16)) /\ h_csr h1 Satp = u64 (ld64 (h_mem h) tf) /\ h_prv h1 = PrvS) /\
  (forall r, h_reg h3 r = if decide (r = A0) then ret else h_reg h r) /\
  h_pc h3 = h_csr h2 Sepc /\ h_prv h3 = PrvU /\ h_csr h3 Satp = h_csr h Satp /\ h_mem h3 = h_mem h2.
Proof.
  intros Hok Hp Htf h1 Hp2 Ha2 Hspp Hsame Hret Hr h3.
  pose proof (uservec_run h tf Hok Hp Htf) as H1. split; [exact H1|]. destruct H1 as [Hheld _].
  pose (g := fun r => if decide (r = A0) then ret else h_reg h r).
  destruct (userret_run h2 tf g) as (R & Epc & Epv & Es & Em); [exact Hp2| | | | |].
  - rewrite Ha2. apply Hok.
  - rewrite Ha2. exact Htf.
  - intros r. unfold g. case_decide; [exact Hret|apply Hok].
  - intros r o Hin. unfold g. pose proof (frame_slots_apart r o Hin) as Hap. case_decide; [by rewrite Hap|].
    rewrite (Hsame r o) by done. by apply Hheld.
  - rewrite Hspp in Epv. rewrite Ha2 in Es. by split_and!.
Qed.
End trampoline.

(** ** swtch *)

Section switch.
Variable va2pa : Z -> Z -> Z.
Abbreviation run := (exec va2pa).

Lemma context_slots_ok : slots_ok 112 context_slots = true.
Proof. reflexivity. Qed.

Lemma swtch_split : swtch_code = saves A0 context_slots ++ loads A1 context_slots ++ [Jr RA].
Proof. reflexivity. Qed.

(** The registers that the calling convention makes the callee keep, with [ra] and [sp]. *)
Definition switched (r : reg) : Prop := r ∈ context_slots.*1.

#[export] Instance switched_dec r : Decision (switched r).
Proof. unfold switched. apply _. Defined.

#[local] Opaque context_slots save_mem.

Lemma swtch_run h old new g :
  hart_ok h -> area va2pa h A0 old 112 -> area va2pa h A1 new 112 -> old + 112 <= new \/ new + 112 <= old ->
  (forall r, is_u64 (g r)) -> held (h_mem h) new context_slots g ->
  let h1 := run swtch_code h in
  held (h_mem h1) old context_slots (h_reg h) /\
  (forall a, a + 8 <= old \/ old + 112 <= a -> ld64 (h_mem h1) a = ld64 (h_mem h) a) /\
  (forall r, h_reg h1 r = if decide (switched r) then g r else h_reg h r) /\
  h_pc h1 = g RA /\ h_csr h1 = h_csr h /\ h_prv h1 = h_prv h.
Proof.
  intros Hok Ho Hn Hap Hg Hm h1.
  pose proof (exec_saves va2pa A0 old 112 context_slots h Ho context_slots_ok) as Hs. set (hs := set_hmem _ _) in Hs.
  assert (Hout : forall a, a + 8 <= old \/ old + 112 <= a -> ld64 (h_mem hs) a = ld64 (h_mem h) a).
  { intros a Ha. apply (save_mem_out 112); [exact context_slots_ok|exact Ha]. }
  assert (Hm' : held (h_mem hs) new context_slots g).
  { intros r o Hin. destruct (slots_ok_in _ _ _ _ context_slots_ok Hin). rewrite Hout by lia. by apply Hm. }
  destruct (exec_loads va2pa A1 new 112 context_slots g hs Hn context_slots_ok Hg Hm') as [[Oc Om Op Opc _ _] Hr].
  { intros Hin. exfalso. revert Hin. change (~ switched A1). by apply (bool_decide_unpack _). }
  set (hl := run (loads A1 context_slots) hs) in *.
  assert (E : h1 = set_hpc (h_reg hl RA) hl) by (unfold h1; rewrite swtch_split, 2!exec_app, Hs; reflexivity).
  rewrite E. simpl. rewrite Om, Oc, Op. split_and!; [|exact Hout|exact Hr| |reflexivity..].
  - apply (save_mem_held 112); [exact context_slots_ok|apply Hok].
  - rewrite (Hr RA), decide_True; [reflexivity|]. change (switched RA). by apply (bool_decide_unpack _).
Qed.

(** C21: A call of swtch returns, with the caller's stack and callee-saved registers, when any
    hart later switches to the context it saved, if nobody wrote it in between; the hart's
    own [tp] and page table stay. *)
Theorem swtch_returns h h2 old new old2 g :
  hart_ok h -> area va2pa h A0 old 112 -> area va2pa h A1 new 112 -> old + 112 <= new \/ new + 112 <= old ->
  (forall r, is_u64 (g r)) -> held (h_mem h) new context_slots g ->
  let h1 := run swtch_code h in
  hart_ok h2 -> area va2pa h2 A0 old2 112 -> area va2pa h2 A1 old 112 -> old2 + 112 <= old \/ old + 112 <= old2 ->
  (forall o, 0 <= o < 112 -> ld64 (h_mem h2) (old + o) = ld64 (h_mem h1) (old + o)) ->
  let h3 := run swtch_code h2 in
  (h_pc h1 = g RA /\ forall r, h_reg h1 r = if decide (switched r) then g r else h_reg h r) /\
  h_pc h3 = h_reg h RA /\
  (forall r, switched r -> h_reg h3 r = h_reg h r) /\
  h_reg h3 TP = h_reg h2 TP /\ h_csr h3 Satp = h_csr h2 Satp /\
  (forall a, a + 8 <= old2 \/ old2 + 112 <= a -> ld64 (h_mem h3) a = ld64 (h_mem h2) a).
Proof.
  intros Hok Ho Hn Hap Hg Hm h1 Hok2 Ho2 Hn2 Hap2 Hsame h3.
  destruct (swtch_run h old new g) as (Hheld & _ & Hr & Hpc & _); [done..|]. fold h1 in Hheld, Hr, Hpc.
  destruct (swtch_run h2 old2 old (h_reg h)) as (_ & Hout & Hr2 & Hpc2 & Hc2 & _); [exact Hok2|exact Ho2|exact Hn2|lia|apply Hok| |].
  { intros r o Hin. destruct (slots_ok_in _ _ _ _ context_slots_ok Hin). rewrite Hsame by lia. by apply Hheld. }
  fold h3 in Hout, Hr2, Hpc2, Hc2. split_and!; [exact Hpc|exact Hr|exact Hpc2| | |by rewrite Hc2|exact Hout].
  - intros r Hsw. by rewrite Hr2, decide_True.
  - rewrite Hr2, decide_False; [reflexivity|]. by apply (bool_decide_unpack _).
Qed.
End switch.

(** ** kernelvec *)

Section kernel.
Variable va2pa : Z -> Z -> Z.
Abbreviation run := (exec va2pa).

(** The frame that [kernelvec] makes on the kernel's stack. *)
Definition stack_slots : list (reg * Z) := [
  (RA, 0); (SP, 8); (GP, 16); (TP, 24); (T0, 32); (T1, 40); (T2, 48); (S0, 56); (S1, 64);
  (A0, 72); (A1, 80); (A2, 88); (A3, 96); (A4, 104); (A5, 112); (A6, 120); (A7, 128);
  (S2, 136); (S3, 144); (S4, 152); (S5, 160); (S6, 168); (S7, 176); (S8, 184); (S9, 192);
  (S10, 200); (S11, 208); (T3, 216); (T4, 224); (T5, 232); (T6, 240)].

Definition restored_slots : list (reg * Z) := filter (fun x => x.1 <> TP) stack_slots.

Lemma stack_slots_ok : slots_ok 256 stack_slots = true.
Proof. reflexivity. Qed.

Lemma restored_slots_ok : slots_ok 256 restored_slots = true.
Proof. reflexivity. Qed.

Lemma restored_slots_stack r o : (r, o) ∈ restored_slots -> (r, o) ∈ stack_slots.
Proof. unfold restored_slots. rewrite list_elem_of_filter. by intros [_ ?]. Qed.

Lemma restored_total r : r ∈ restored_slots.*1 <-> r <> TP.
Proof.
  assert (E : bool_decide (r ∈ restored_slots.*1) = bool_decide (r <> TP)) by (by destruct r).
  by rewrite <- (bool_decide_eq_true (r ∈ _)), E, bool_decide_eq_true.
Qed.

(** [sret] puts the saved interrupt enable back. *)
Lemma sret_sie h : Z.testbit (h_csr (sret_ h) Mstatus) 1 = Z.testbit (h_csr h Mstatus) 5.
Proof.
  unfold sret_. cbn [h_csr set_hpc set_hprv set_hcsr]. rewrite decide_True by reflexivity. unfold u64.
  rewrite Z.mod_pow2_bits_low, Z.clearbit_neq by lia. unfold bit_to at 1. rewrite Z.setbit_neq by lia. unfold bit_to. destruct (Z.testbit _ 5); [by apply Z.setbit_eq|apply Z.clearbit_eq].
Qed.

Lemma kernelvec_save_split : kernelvec_save = [Addi SP SP (-256)] ++ saves SP stack_slots.
Proof. reflexivity. Qed.

Lemma kernelvec_restore_split : kernelvec_restore = loads SP restored_slots ++ [Addi SP SP 256; Sret].
Proof. vm_compute. reflexivity. Qed.

#[local] Opaque stack_slots restored_slots save_mem.

(** C20: A trap in the kernel is invisible to the code it interrupts, if the C function
    keeps its stack pointer and the frame above it, as the calling convention says:
    [kernelvec] returns to the interrupted instruction with every register as it was
    but [tp], which is the hart's that the code now runs on. *)
Theorem kernelvec_transparent (kerneltrap : hart -> hart) h frame :
  hart_ok h ->
  area va2pa (set_hreg SP (h_reg h SP - 256) h) SP frame 256 ->
  let hs := run kernelvec_save h in
  let hk := kerneltrap hs in
  h_reg hk SP = h_reg hs SP -> area va2pa hk SP frame 256 ->
  (forall o, 0 <= o < 256 -> ld64 (h_mem hk) (frame + o) = ld64 (h_mem hs) (frame + o)) ->
  let h1 := kernelvec va2pa kerneltrap h in
  (forall r, h_reg h1 r = if decide (r = TP) then h_reg hk TP else h_reg h r) /\
  h_pc h1 = h_csr hk Sepc /\
  h_prv h1 = (if Z.testbit (h_csr hk Mstatus) 8 then PrvS else PrvU) /\
  Z.testbit (h_csr h1 Mstatus) 1 = Z.testbit (h_csr hk Mstatus) 5 /\
  h_mem h1 = h_mem hk.
Proof.
  intros Hok Ha hs hk Hsp Hak Hsame h1. set (ha := set_hreg SP (h_reg h SP - 256) h).
  assert (Hg : forall r, is_u64 (h_reg ha r)) by (intros r; exact (is_u64_set SP _ h r Hok)).
  assert (Es : hs = set_hmem (save_mem stack_slots (h_reg ha) frame (h_mem ha)) ha).
  { unfold hs. rewrite kernelvec_save_split, exec_app.
    exact (exec_saves va2pa SP frame 256 stack_slots ha Ha stack_slots_ok). }
  assert (Hm : held (h_mem hk) frame restored_slots (h_reg ha)).
  { intros r o Hin%restored_slots_stack. destruct (slots_ok_in _ _ _ _ stack_slots_ok Hin).
    rewrite Hsame by lia. rewrite Es. by apply (save_mem_held 256 stack_slots). }
  assert (Hs : h_reg hs SP = h_reg ha SP) by (by rewrite Es).
  destruct (exec_loads va2pa SP frame 256 restored_slots (h_reg ha) hk Hak restored_slots_ok Hg Hm) as [[Oc Om Op Opc _ _] Hr].
  { intros _. by rewrite Hsp, Hs. }
  set (hl := run (loads SP restored_slots) hk) in *.
  assert (E : h1 = sret_ (set_hreg SP (h_reg hl SP + 256) hl)).
  { unfold h1, kernelvec. fold hs. fold hk. by rewrite kernelvec_restore_split, exec_app. }
  assert (Hr' : forall r, h_reg hl r = if decide (r = TP) then h_reg hk TP else h_reg ha r).
  { intros r. rewrite Hr. pose proof (restored_total r). repeat case_decide; subst; tauto || reflexivity. }
  assert (Hsp1 : u64 (h_reg hl SP + 256) = h_reg h SP).
  { rewrite (Hr' SP), decide_False by discriminate. unfold ha. simpl. unfold u64. rewrite Zplus_mod_idemp_l, Z.sub_add.
    apply Z.mod_small, Hok. }
  rewrite E, sret_sie. simpl. rewrite Oc, Om. split_and!; [|reflexivity..].
  intros r. case_decide as Er; [by rewrite Er, Hsp1|]. rewrite Hr'. case_decide; [reflexivity|]. unfold ha. simpl. by rewrite decide_False.
Qed.
End kernel.

(** ** timervec *)

Section timer.
Variable va2pa : Z -> Z -> Z.
Abbreviation run := (exec va2pa).

Definition timer_slots : list (reg * Z) := [(A1, 0); (A2, 8); (A3, 16)].

(** Between the save and the restore: the next interrupt's time, and the software interrupt. *)
Definition timer_work : list instr :=
  [Ld A1 24 A0; Ld A2 32 A0; Ld A3 0 A1; Add A3 A3 A2; Sd A3 0 A1; Li A1 2; Csrw Sip A1].

Lemma machine_area h b pa n : h_prv h = PrvM -> h_reg h b = pa -> 0 <= pa -> pa + n <= 2 ^ 64 -> area va2pa h b pa n.
Proof. intros Hp Hb H0 Hn o Ho. unfold paddr. rewrite Hp, Hb. apply u64_small. lia. Qed.

Lemma timer_work_run h sc cmp iv :
  h_prv h = PrvM -> area va2pa h A0 sc 40 -> mem_ok (h_mem h) ->
  ld64 (h_mem h) (sc + 24) = cmp -> ld64 (h_mem h) (sc + 32) = iv -> cmp + 8 <= 2 ^ 64 ->
  let h1 := run timer_work h in
  h_mem h1 = st64 (h_mem h) cmp (u64 (ld64 (h_mem h) cmp + iv)) /\
  (forall r, r <> A1 -> r <> A2 -> r <> A3 -> h_reg h1 r = h_reg h r) /\
  h_csr h1 = h_csr (csr_write Sip 2 h) /\ h_prv h1 = PrvM /\ h_pc h1 = h_pc h.
Proof.
  intros Hp Ha Hm Hc Hi Hle. pose proof (ld64_range _ (sc + 24) Hm) as Rc. pose proof (ld64_range _ (sc + 32) Hm) as Ri.
  rewrite Hc in Rc. rewrite Hi in Ri. cbv zeta. unfold timer_work. do 2 exec_mem.
  set (h2 := set_hreg A2 _ _).
  assert (Ha1 : area va2pa h2 A1 cmp 8).
  { apply machine_area; [exact Hp| |lia|exact Hle]. unfold h2. simpl. rewrite Hc. by apply u64_small. }
  exec_mem. rewrite Z.add_0_r. set (h3 := set_hreg A3 _ _).
  change (run (Add A3 A3 A2 :: ?l) h3) with (run l (set_hreg A3 (h_reg h3 A3 + h_reg h3 A2) h3)).
  assert (Ha2 : area va2pa (set_hreg A3 (h_reg h3 A3 + h_reg h3 A2) h3) A1 cmp 8) by (unfold h3; area_solve).
  exec_mem. rewrite Z.add_0_r.
  assert (E : u64 (u64 (ld64 (h_mem h) cmp) + u64 (ld64 (h_mem h) (sc + 32))) = u64 (ld64 (h_mem h) cmp + iv)).
  { rewrite Hi. unfold u64. by rewrite <- Zplus_mod. }
  split_and!; [simpl; by rewrite E| |reflexivity|exact Hp|reflexivity].
  intros r H1 H2 H3. simpl. by rewrite !decide_False.
Qed.

Lemma mem_ok_save_mem l f pa m : mem_ok m -> mem_ok (save_mem l f pa m).
Proof. revert m. induction l as [|[r o] l IH]; intros m Hm; [exact Hm|]. simpl. apply IH. by apply mem_ok_st64. Qed.

(** The write to [sip] raises the software interrupt, and it only. *)
Lemma sip_raised h i :
  Z.testbit (h_csr h Mideleg) 1 = true -> 0 <= i < 64 ->
  Z.testbit (h_csr (csr_write Sip 2 h) Mip) i = (i =? 1) || Z.testbit (h_csr h Mip) i.
Proof.
  intros Hd Hi. cbn [csr_write h_csr set_hcsr]. rewrite decide_True by reflexivity. unfold u64, masked, SSIP.
  rewrite Z.mod_pow2_bits_low, Z.lor_spec, !Z.land_spec, Z.lnot_spec, Z.land_spec by lia.
  change (Z.testbit 2 i) with (Z.testbit (2 ^ 1) i). rewrite Z.pow2_bits_eqb by lia. rewrite (Z.eqb_sym 1 i).
  destruct (Z.eqb_spec i 1) as [->|Hn]; [rewrite Hd|]; simpl; by rewrite ?orb_true_r, ?andb_true_r, ?orb_false_r.
Qed.

#[local] Opaque save_mem.

(** What is between the two exchanges with [mscratch]. *)
Definition timer_body : list instr := saves A0 timer_slots ++ timer_work ++ loads A0 (reverse timer_slots).

Lemma timervec_split : timervec_code = [Csrrw A0 Mscratch A0] ++ timer_body ++ [Csrrw A0 Mscratch A0; Mret].
Proof. reflexivity. Qed.

Lemma timer_body_run h sc cmp iv :
  (forall r, is_u64 (h_reg h r)) -> mem_ok (h_mem h) -> h_prv h = PrvM -> h_reg h A0 = sc -> sc + 40 <= 2 ^ 64 ->
  ld64 (h_mem h) (sc + 24) = cmp -> ld64 (h_mem h) (sc + 32) = iv -> cmp + 8 <= 2 ^ 64 ->
  cmp + 8 <= sc \/ sc + 40 <= cmp ->
  let h1 := run timer_body h in
  (forall r, h_reg h1 r = h_reg h r) /\ h_csr h1 = h_csr (csr_write Sip 2 h) /\
  ld64 (h_mem h1) cmp = u64 (ld64 (h_mem h) cmp + iv) /\
  (forall a, a + 8 <= cmp \/ cmp + 8 <= a -> a + 8 <= sc \/ sc + 24 <= a -> ld64 (h_mem h1) a = ld64 (h_mem h) a).
Proof.
  intros Hg Hm Hp Hsc Hle Hc Hi Hlec Hap h1. pose proof (Hg A0) as Rs. rewrite Hsc in Rs.
  assert (Ha0 : area va2pa h A0 sc 40) by (apply machine_area; [exact Hp|exact Hsc|apply Rs|exact Hle]).
  pose proof (exec_saves va2pa A0 sc 40 timer_slots h Ha0 eq_refl) as Hs. set (hs := set_hmem _ _) in Hs.
  assert (Hout : forall a, a + 8 <= sc \/ sc + 24 <= a -> ld64 (h_mem hs) a = ld64 (h_mem h) a)
    by (intros a Ha; by apply (save_mem_out 24)).
  destruct (timer_work_run hs sc cmp iv) as (Wm & Wr & Wc & Wp & Wpc);
    [exact Hp|exact Ha0|by apply mem_ok_save_mem|rewrite Hout by lia; exact Hc|rewrite Hout by lia; exact Hi|exact Hlec|].
  rewrite Hout in Wm by lia. set (hw := run timer_work hs) in *.
  assert (Haw : area va2pa hw A0 sc 40).
  { apply machine_area; [exact Wp| |apply Rs|exact Hle]. by rewrite Wr by discriminate. }
  assert (Hmw : held (h_mem hw) sc (reverse timer_slots) (h_reg h)).
  { intros r o Hin. apply elem_of_reverse in Hin. assert (0 <= o /\ o + 8 <= 24) by (by apply (slots_ok_in 24 timer_slots r)).
    rewrite Wm, ld64_st64_other by lia. by apply (save_mem_held 40 timer_slots). }
  destruct (exec_loads va2pa A0 sc 40 (reverse timer_slots) (h_reg h) hw Haw eq_refl Hg Hmw) as [[Oc Om _ _ _ _] Hr].
  { intros Hin. exfalso. revert Hin. by apply (bool_decide_unpack _). }
  assert (E : h1 = run (loads A0 (reverse timer_slots)) hw) by (unfold h1, timer_body; by rewrite 2!exec_app, Hs).
  rewrite E, Oc, Om, Wc, Wm. split_and!; [|reflexivity| |].
  - intros r. rewrite Hr. case_decide as Hin; [reflexivity|].
    rewrite Wr by (intros ->; apply Hin; by apply (bool_decide_unpack _)). reflexivity.
  - apply ld64_st64_same, u64_range.
  - intros a H1 H2. rewrite ld64_st64_other by lia. by apply Hout.
Qed.

Lemma timer_leave_run h :
  let h1 := run [Csrrw A0 Mscratch A0; Mret] h in
  (forall r, h_reg h1 r = if decide (r = A0) then u64 (h_csr h Mscratch) else h_reg h r) /\
  h_csr h1 Mscratch = u64 (h_reg h A0) /\ h_csr h1 Mip = h_csr h Mip /\ h_mem h1 = h_mem h /\ h_pc h1 = h_csr h Mepc /\
  h_prv h1 = mpp_priv (h_csr h Mstatus) /\
  h_csr h1 Mstatus = h_csr (mret_ h) Mstatus /\
  (forall c, c <> Mstatus -> c <> Mscratch -> h_csr h1 c = h_csr h c).
Proof. split_and!; try reflexivity. intros c H1 H2. simpl. by rewrite !decide_False. Qed.

(** With the scratch area that timerinit makes, [timervec] adds the interval to the hart's
    MTIMECMP, raises a supervisor software interrupt and leaves every register, [mscratch]
    and all other memory but its save area as they were. *)
Lemma timervec_run h sc cmp iv :
  hart_ok h -> mem_ok (h_mem h) -> h_prv h = PrvM -> h_csr h Mscratch = sc -> sc + 40 <= 2 ^ 64 ->
  ld64 (h_mem h) (sc + 24) = cmp -> ld64 (h_mem h) (sc + 32) = iv -> cmp + 8 <= 2 ^ 64 ->
  cmp + 8 <= sc \/ sc + 40 <= cmp -> Z.testbit (h_csr h Mideleg) 1 = true ->
  let h1 := run timervec_code h in
  (forall r, h_reg h1 r = h_reg h r) /\
  h_csr h1 Mscratch = sc /\
  ld64 (h_mem h1) cmp = u64 (ld64 (h_mem h) cmp + iv) /\
  (forall a, a + 8 <= cmp \/ cmp + 8 <= a -> a + 8 <= sc \/ sc + 24 <= a -> ld64 (h_mem h1) a = ld64 (h_mem h) a) /\
  (forall i, 0 <= i < 64 -> Z.testbit (h_csr h1 Mip) i = (i =? 1) || Z.testbit (h_csr h Mip) i) /\
  h_pc h1 = h_csr h Mepc /\ h_prv h1 = mpp_priv (h_csr h Mstatus) /\ h_csr h1 Mstatus = h_csr (mret_ h) Mstatus /\
  (forall c, c <> Mstatus -> c <> Mscratch -> c <> Mip -> h_csr h1 c = h_csr h c).
Proof.
  intros Hok Hm Hp Hsc Hle Hc Hi Hlec Hap Hd h1. pose proof (hart_ok_csr h Hok Mscratch) as Rs. rewrite Hsc in Rs.
  set (h0 := set_hreg A0 sc (set_hcsr Mscratch (h_reg h A0) h)).
  destruct (timer_body_run h0 sc cmp iv) as (Br & Bc & Bm & Bo);
    [intros r; exact (is_u64_set A0 sc h r Hok)|exact Hm|exact Hp|by apply u64_small|exact Hle|exact Hc|exact Hi|exact Hlec|exact Hap|].
  set (hb := run timer_body h0) in *.
  assert (E : h1 = run [Csrrw A0 Mscratch A0; Mret] hb).
  { unfold h1. rewrite timervec_split, 2!exec_app.
    change (run [Csrrw A0 Mscratch A0] h) with (set_hreg A0 (h_csr h Mscratch) (set_hcsr Mscratch (h_reg h A0) h)).
    rewrite Hsc. reflexivity. }
  destruct (timer_leave_run hb) as (Lr & Ls & Li & Lm & Lpc & Lp & Lst & Lc). rewrite <- E in Lr, Ls, Li, Lm, Lpc, Lp, Lst, Lc.
  rewrite Ls, Li, Lm, Lpc, Lp, Br, Bc. split_and!; [| |exact Bm|exact Bo| |reflexivity|reflexivity| |].
  - intros r. rewrite Lr, Br, Bc. unfold h0. simpl. case_decide as Er; [|reflexivity].
    rewrite Er, !u64_small; [reflexivity|apply Hok|apply u64_range].
  - unfold h0. simpl. by rewrite !u64_small by (exact Rs || apply u64_range).
  - intros i Hi'. exact (sip_raised h i Hd Hi').
  - rewrite Lst. unfold mret_. cbn [h_csr set_hpc set_hprv set_hcsr]. by rewrite Bc.
  - intros c H1 H2 H3. rewrite Lc, Bc by done. simpl. by rewrite !decide_False.
Qed.
End timer.

(** ** On concrete harts *)

(** The page table 9 has the trapframe's page at 0x87f00000; others map addresses to themselves. *)
Definition demo_va2pa (satp a : Z) : Z := if satp =? 9 then a - TRAPFRAME + 0x87f00000 else a.

Definition demo_regs (r : reg) : Z :=
  match r with
  | RA => 0x80001234 | SP => 0x80009000 | TP => 2 | A0 => 0x80010000 | A1 => 0x80020000 | A2 => 33 | S0 => 44 | T6 => 55
  | _ => 7
  end.

Definition demo_hart (satp : Z) (prv : priv) (m : mem) : hart :=
  Hart demo_regs (fun c => match c with Satp => satp | Mscratch => 0x80030000 | Mideleg => 2 | Mepc => 0x80001000 | _ => 0 end) m prv 0 0 0.

Lemma demo_hart_ok satp prv m : is_u64 satp -> hart_ok (demo_hart satp prv m).
Proof. intros H. split; [intros []; vm_compute; split; congruence|]. intros []; try exact H; vm_compute; split; congruence. Qed.

Lemma demo_area satp prv m r v n :
  (satp =? 9) = false -> h_reg (demo_hart satp prv m) r = v -> 0 <= v -> v + n <= 2 ^ 64 ->
  area demo_va2pa (demo_hart satp prv m) r v n.
Proof.
  intros Hs Hr H0 Hn o Ho. unfold paddr. rewrite Hr. cbn [h_prv h_csr demo_hart].
  destruct prv; unfold demo_va2pa; rewrite ?Hs; apply u64_small; lia.
Qed.

(** The kernel leaves 42 as the result of a system call. *)
Definition demo_kernel : hart :=
  Hart (fun r => if decide (r = A0) then 9 else 0) (fun c => if decide (c = Sepc) then 0x1000 else 0)
    (st64 (h_mem (exec demo_va2pa uservec_code (demo_hart 9 PrvS ∅))) (0x87f00000 + 112) 42) PrvS 0 0 0.

Lemma trap_roundtrip_witness :
  (forall r, h_reg (exec demo_va2pa userret_code demo_kernel) r = if decide (r = A0) then 42 else demo_regs r) /\
  h_pc (exec demo_va2pa userret_code demo_kernel) = 0x1000.
Proof.
  destruct (trap_roundtrip demo_va2pa (demo_hart 9 PrvS ∅) demo_kernel 0x87f00000 42) as (_ & Hr & Hpc & _).
  - by apply demo_hart_ok.
  - reflexivity.
  - intros o Ho. unfold demo_va2pa. simpl. lia.
  - reflexivity.
  - reflexivity.
  - reflexivity.
  - intros r o Hr Hin. pose proof (frame_slots_apart r o Hin) as Hap. rewrite decide_False in Hap by done.
    apply ld64_st64_other. lia.
  - done.
  - by apply ld64_st64_same.
  - split; [exact Hr|exact Hpc].
Defined.

(** A hart that switches from the context at [a0] to the one at [a1] and back. *)
Definition demo_left : mem := h_mem (exec demo_va2pa swtch_code (demo_hart 8 PrvS ∅)).

Definition demo_back (m : mem) : hart :=
  Hart (fun r => match r with A0 => 0x80020000 | A1 => 0x80010000 | TP => 5 | _ => 1 end)
    (fun c => match c with Satp => 8 | _ => 0 end) m PrvS 0 0 0.

Lemma demo_back_mem m : h_mem (demo_back m) = m.
Proof. reflexivity. Qed.

Lemma swtch_returns_witness :
  h_pc (exec demo_va2pa swtch_code (demo_back demo_left)) = 0x80001234 /\
  (forall r, switched r -> h_reg (exec demo_va2pa swtch_code (demo_back demo_left)) r = demo_regs r) /\
  h_reg (exec demo_va2pa swtch_code (demo_back demo_left)) TP = 5.
Proof.
  destruct (swtch_returns demo_va2pa (demo_hart 8 PrvS ∅) (demo_back demo_left) 0x80010000 0x80020000 0x80020000 (fun _ => 0))
    as (_ & Hpc & Hr & Htp & _).
  - by apply demo_hart_ok.
  - by apply demo_area.
  - by apply demo_area.
  - lia.
  - done.
  - intros r o Hin. reflexivity.
  - split; [intros []; vm_compute; split; congruence|intros []; vm_compute; split; congruence].
  - intros o Ho. apply u64_small. simpl. lia.
  - intros o Ho. apply u64_small. simpl. lia.
  - lia.
  - intros o Ho. by rewrite demo_back_mem.
  - split_and!; [exact Hpc|exact Hr|exact Htp].
Defined.

(** A C function that uses [a0], on a process that moves to hart 5. *)
Definition demo_kerneltrap (h : hart) : hart := set_hreg TP 5 (set_hreg A0 0 h).

Lemma demo_kerneltrap_mem h : h_mem (demo_kerneltrap h) = h_mem h.
Proof. reflexivity. Qed.

Lemma kernelvec_transparent_witness :
  hart_ok (demo_hart 8 PrvS ∅) /\
  forall r, h_reg (kernelvec demo_va2pa demo_kerneltrap (demo_hart 8 PrvS ∅)) r = if decide (r = TP) then 5 else demo_regs r.
Proof.
  assert (Hok : hart_ok (demo_hart 8 PrvS ∅)) by (by apply demo_hart_ok). split; [exact Hok|].
  destruct (kernelvec_transparent demo_va2pa demo_kerneltrap (demo_hart 8 PrvS ∅) 0x80008f00) as [Hr _].
  - exact Hok.
  - intros o Ho. apply u64_small. simpl. lia.
  - reflexivity.
  - intros o Ho. apply u64_small. simpl. lia.
  - intros o Ho. by rewrite demo_kerneltrap_mem.
  - exact Hr.
Defined.
