(* ===== verification/Boot.v ===== *)
(** * Booting a hart: kernel/entry.S, kernel/start.c and kernel/main.c

    The accessors of kernel/riscv.h on a hart of file Asm, the code that runs in machine
    mode, and the order in which the harts initialise the kernel.  The addresses of
    [main], [timervec], [timer_scratch] and [stack0], which the linker chooses, are
    parameters. *)

From S2P Require Import Prelude Mem Layout Spinlock Asm.

(** ** kernel/riscv.h *)

Definition MSTATUS_MPP_MASK : Z := Z.shiftl 3 11.
Definition MSTATUS_MPP_S : Z := Z.shiftl 1 11.
Definition MSTATUS_MIE : Z := Z.shiftl 1 3.
Definition SIE_SEIE : Z := Z.shiftl 1 9.
Definition SIE_STIE : Z := Z.shiftl 1 5.
Definition SIE_SSIE : Z := Z.shiftl 1 1.
Definition MIE_MTIE : Z := Z.shiftl 1 7.

Definition r_mhartid (h : hart) : Z := csr_read Mhartid h.
Definition r_mstatus (h : hart) : Z := csr_read Mstatus h.
Definition w_mstatus (x : Z) (h : hart) : hart := csr_write Mstatus x h.
Definition w_mepc (x : Z) (h : hart) : hart := csr_write Mepc x h.
Definition r_sie (h : hart) : Z := csr_read Sie h.
Definition w_sie (x : Z) (h : hart) : hart := csr_write Sie x h.
Definition r_mie (h : hart) : Z := csr_read Mie h.
Definition w_mie (x : Z) (h : hart) : hart := csr_write Mie x h.
Definition w_medeleg (x : Z) (h : hart) : hart := csr_write Medeleg x h.
Definition w_mideleg (x : Z) (h : hart) : hart := csr_write Mideleg x h.
Definition w_mtvec (x : Z) (h : hart) : hart := csr_write Mtvec x h.
Definition w_pmpcfg0 (x : Z) (h : hart) : hart := csr_write Pmpcfg0 x h.
Definition w_pmpaddr0 (x : Z) (h : hart) : hart := csr_write Pmpaddr0 x h.
Definition w_satp (x : Z) (h : hart) : hart := csr_write Satp x h.
Definition w_mscratch (x : Z) (h : hart) : hart := csr_write Mscratch x h.
Definition w_tp (x : Z) (h : hart) : hart := set_hreg TP x h.

Definition r_sstatus (h : hart) : Z := csr_read Sstatus h.
Definition w_sstatus (x : Z) (h : hart) : hart := csr_write Sstatus x h.
Definition r_sip (h : hart) : Z := csr_read Sip h.
Definition w_sip (x : Z) (h : hart) : hart := csr_write Sip x h.
Definition r_sepc (h : hart) : Z := csr_read Sepc h.
Definition w_sepc (x : Z) (h : hart) : hart := csr_write Sepc x h.
Definition r_medeleg (h : hart) : Z := csr_read Medeleg h.
Definition r_mideleg (h : hart) : Z := csr_read Mideleg h.
Definition r_stvec (h : hart) : Z := csr_read Stvec h.
Definition w_stvec (x : Z) (h : hart) : hart := csr_write Stvec x h.
Definition r_satp (h : hart) : Z := csr_read Satp h.
Definition r_scause (h : hart) : Z := csr_read Scause h.
Definition r_stval (h : hart) : Z := csr_read Stval h.
Definition r_mcounteren (h : hart) : Z := csr_read Mcounteren h.
Definition w_mcounteren (x : Z) (h : hart) : hart := csr_write Mcounteren x h.
Definition r_time (h : hart) : Z := csr_read Time h.
Definition r_sp (h : hart) : Z := h_reg h SP.
Definition r_tp (h : hart) : Z := h_reg h TP.
Definition r_ra (h : hart) : Z := h_reg h RA.

Definition SSTATUS_SIE : Z := Z.shiftl 1 1.

Definition intr_on (h : hart) : hart := w_sstatus (Z.lor (r_sstatus h) SSTATUS_SIE) h.
Definition intr_off (h : hart) : hart := w_sstatus (Z.land (r_sstatus h) (Z.lnot SSTATUS_SIE)) h.
Definition intr_get (h : hart) : bool := negb (Z.land (r_sstatus h) SSTATUS_SIE =? 0).

(** kernel/memlayout.h *)
Definition CLINT : Z := 0x2000000.
Definition CLINT_MTIMECMP (hartid : Z) : Z := CLINT + 0x4000 + 8 * hartid.
Definition CLINT_MTIME : Z := CLINT + 0xBFF8.

(** ** Machine mode *)

Section boot.
Variables main timervec timer_scratch stack0 : Z.

Definition entry_code : list instr := [
  Li SP stack0; Li A0 (1024 * 4); Csrr A1 Mhartid; Addi A1 A1 1; Mul A0 A0 A1; Add SP SP A0].

(** [*(uint64* )a = v], in machine mode. *)
Definition poke (a v : Z) (h : hart) : hart := set_hmem (st64 (h_mem h) a (u64 v)) h.

Definition timerinit (h : hart) : hart :=
  let id := s32 (r_mhartid h) in
  let interval := 1000000 in
  let h := poke (CLINT_MTIMECMP id) (ld64 (h_mem h) CLINT_MTIME + interval) h in
  let scratch := timer_scratch + 40 * id in
  let h := poke (scratch + 24) (CLINT_MTIMECMP id) h in
  let h := poke (scratch + 32) interval h in
  let h := w_mscratch scratch h in
  let h := w_mtvec timervec h in
  let h := w_mstatus (Z.lor (r_mstatus h) MSTATUS_MIE) h in
  w_mie (Z.lor (r_mie h) MIE_MTIE) h.

Definition start (h : hart) : hart :=
  let x := r_mstatus h in
  let x := Z.land x (Z.lnot MSTATUS_MPP_MASK) in
  let x := Z.lor x MSTATUS_MPP_S in
  let h := w_mstatus x h in
  let h := w_mepc main h in
  let h := w_satp 0 h in
  let h := w_medeleg 0xffff h in
  let h := w_mideleg 0xffff h in
  let h := w_sie (Z.lor (Z.lor (Z.lor (r_sie h) SIE_SEIE) SIE_STIE) SIE_SSIE) h in
  let h := w_pmpaddr0 0x3fffffffffffff h in
  let h := w_pmpcfg0 0xf h in
  let h := timerinit h in
  let id := s32 (r_mhartid h) in
  let h := w_tp id h in
  mret_ h.

(** [start] never returns to [_entry]: its [mret] goes to [main]. *)
Definition entry (va2pa : Z -> Z -> Z) (h : hart) : hart := start (exec va2pa entry_code h).

(** ** The state of a booted hart *)

(** A machine timer interrupt, as the hardware takes it below machine mode. *)
Definition priv_bits (p : priv) : Z := match p with PrvU => 0 | PrvS => 1 | PrvM => 3 end.

Definition mtimer_trap (h : hart) : hart :=
  let st := h_csr h Mstatus in
  let st := bit_to false 3 (bit_to (Z.testbit st 3) 7 st) in
  let st := Z.lor (Z.land st (Z.lnot MSTATUS_MPP)) (Z.shiftl (priv_bits (h_prv h)) 11) in
  set_hpc (h_csr h Mtvec) (set_hprv PrvM (set_hcsr Mepc (h_pc h) (set_hcsr Mstatus st h))).

(** Region 0 of the memory protection, as an upper bound. *)
Definition pmp_allows (h : hart) (a : Z) : bool :=
  (Z.land (h_csr h Pmpcfg0) 31 =? 15) && (a <? 4 * h_csr h Pmpaddr0).

(** Hart [id] takes a timer interrupt in machine mode, at [timervec], and [timervec]'s
    scratch area is what it expects. *)
Record timer_ready (id : Z) (h : hart) : Prop := {
  tr_mie : Z.testbit (h_csr h Mie) 7 = true;
  tr_mtip : Z.testbit (h_csr h Mideleg) 7 = false;
  tr_ssip : Z.testbit (h_csr h Mideleg) 1 = true;
  tr_mtvec : h_csr h Mtvec = timervec;
  tr_mscratch : h_csr h Mscratch = timer_scratch + 40 * id;
  tr_mtimecmp : ld64 (h_mem h) (timer_scratch + 40 * id + 24) = CLINT_MTIMECMP id;
  tr_interval : ld64 (h_mem h) (timer_scratch + 40 * id + 32) = 1000000 }.

Record booted (id : Z) (h : hart) : Prop := {
  bt_prv : h_prv h = PrvS;
  bt_pc : h_pc h = main;
  bt_tp : h_reg h TP = id;
  bt_sp : h_reg h SP = stack0 + 4096 * (id + 1);
  bt_satp : h_csr h Satp = 0;
  bt_medeleg : forall i, 0 <= i < 16 -> Z.testbit (h_csr h Medeleg) i = Z.testbit (h_edeleg h) i;
  bt_sie : forall i, i ∈ [1; 5; 9] -> Z.testbit (csr_read Sie h) i = true;
  bt_pmp : forall a, a < PHYSTOP -> pmp_allows h a = true;
  bt_timer : timer_ready id h }.

(** ** Bits *)

Lemma u64_testbit x i : 0 <= i < 64 -> Z.testbit (u64 x) i = Z.testbit x i.
Proof. intros. unfold u64. apply Z.mod_pow2_bits_low. lia. Qed.

Lemma masked_testbit o n m i : 0 <= i -> Z.testbit (masked o n m) i = if Z.testbit m i then Z.testbit n i else Z.testbit o i.
Proof.
  intros Hi. unfold masked. rewrite Z.lor_spec, !Z.land_spec, Z.lnot_spec by lia.
  destruct (Z.testbit m i); simpl; by rewrite ?andb_true_r, ?andb_false_r, ?orb_false_r.
Qed.

Lemma mpp_priv_bits st :
  mpp_priv st = match Z.testbit st 11, Z.testbit st 12 with true, true => PrvM | true, false => PrvS | _, _ => PrvU end.
Proof.
  assert (E : Z.land (Z.shiftr st 11) 3 = Z.b2z (Z.testbit st 11) + 2 * Z.b2z (Z.testbit st 12)).
  { rewrite (Z.land_ones _ 2), Z.shiftr_div_pow2 by lia.
    rewrite !Z.testbit_spec' by lia. change (2 ^ 12) with (2 ^ 11 * 2). rewrite <- Z.div_div by lia.
    change (2 ^ 2) with 4. Z.to_euclidean_division_equations. lia. }
  unfold mpp_priv. rewrite E. by destruct (Z.testbit st 11), (Z.testbit st 12).
Qed.

(** The bits of a combination of words, with those of constants evaluated. *)
Ltac bits :=
  repeat progress rewrite ?u64_testbit, ?masked_testbit, ?Z.lor_spec, ?Z.land_spec, ?Z.lnot_spec by lia;
  repeat match goal with
  | |- context [Z.testbit ?c ?i] =>
      let b := eval vm_compute in (Z.testbit c i) in
      match b with true => idtac | false => idtac end; change (Z.testbit c i) with b
  end.

Lemma intr_get_bit h : intr_get h = Z.testbit (h_csr h Mstatus) 1.
Proof.
  unfold intr_get, r_sstatus, csr_read, SSTATUS_SIE. rewrite <- Z.land_assoc. change (Z.land SSTATUS_MASK (Z.shiftl 1 1)) with (2 ^ 1).
  destruct (Z.testbit (h_csr h Mstatus) 1) eqn:E.
  - destruct (Z.eqb_spec (Z.land (h_csr h Mstatus) (2 ^ 1)) 0) as [H|]; [|done].
    apply (f_equal (fun x => Z.testbit x 1)) in H. rewrite Z.land_spec, E in H. done.
  - assert (Z.land (h_csr h Mstatus) (2 ^ 1) = 0) as ->; [|done]. apply Z.bits_inj'. intros i Hi.
    rewrite Z.land_spec, Z.pow2_bits_eqb, Z.bits_0 by lia. destruct (Z.eqb_spec 1 i) as [<-|]; [by rewrite E|apply andb_false_r].
Qed.

(** Turning interrupts on or off changes this bit of the machine's status and no other. *)
Lemma intr_set_bits (b : bool) h i :
  0 <= i < 64 ->
  Z.testbit (h_csr (if b then intr_on h else intr_off h) Mstatus) i = if i =? 1 then b else Z.testbit (h_csr h Mstatus) i.
Proof.
  intros Hi. assert (H1 : Z.testbit SSTATUS_SIE i = (i =? 1)).
  { change SSTATUS_SIE with (2 ^ 1). rewrite Z.pow2_bits_eqb by lia. apply Z.eqb_sym. }
  assert (Hm : i = 1 -> Z.testbit SSTATUS_MASK i = true) by (by intros ->).
  destruct b; unfold intr_on, intr_off, w_sstatus, r_sstatus; cbn [csr_write csr_read h_csr set_hcsr];
    rewrite decide_True, u64_testbit, masked_testbit by (done || lia);
    rewrite ?Z.lor_spec, ?Z.land_spec, ?Z.lnot_spec, ?H1, ?Z.land_spec by lia;
    (destruct (Z.eqb_spec i 1) as [E|]; [rewrite Hm by exact E|destruct (Z.testbit SSTATUS_MASK i)]); simpl;
    by rewrite ?orb_true_r, ?orb_false_r, ?andb_false_r, ?andb_true_r.
Qed.

Lemma trap_mret_priv h : h_prv h <> PrvM -> mpp_priv (h_csr (mtimer_trap h) Mstatus) = h_prv h.
Proof.
  intros Hp. rewrite mpp_priv_bits. unfold mtimer_trap. cbn [h_csr set_hpc set_hprv set_hcsr].
  rewrite decide_False, decide_True by done. bits. rewrite !andb_false_r. by destruct (h_prv h).
Qed.

(** ** From reset to main *)

(** Where the linker puts the kernel's data. *)
Record linked : Prop := {
  lk_main : is_u64 main;
  lk_timervec : is_u64 timervec;
  lk_scratch : KERNBASE <= timer_scratch /\ timer_scratch + 40 * NCPU <= PHYSTOP;
  lk_stack : KERNBASE <= stack0 /\ stack0 + 4096 * NCPU <= PHYSTOP }.

(** A hart at reset: the supervisor's interrupts can be delegated, the machine's timer
    interrupt cannot. *)
Record at_reset (id : Z) (h : hart) : Prop := {
  rs_hartid : h_csr h Mhartid = id;
  rs_prv : h_prv h = PrvM;
  rs_deleg : forall i, i ∈ [1; 5; 9] -> Z.testbit (h_deleg h) i = true;
  rs_nodeleg : Z.testbit (h_deleg h) 7 = false }.

Lemma NCPU_val : NCPU = 8.
Proof. reflexivity. Qed.

Lemma PHYSTOP_val : PHYSTOP = 0x88000000.
Proof. reflexivity. Qed.

(** Runs the code, with arithmetic and memory left as they are. *)
Ltac run_start h :=
  destruct h; lazy -[u64 s32 masked Z.lor Z.land Z.lnot Z.shiftl Z.testbit Z.eqb Z.pow Z.ones Z.add Z.mul st64 ld64 mpp_priv orb andb].

Lemma start_prv h : h_prv (start h) = PrvS.
Proof. run_start h. rewrite mpp_priv_bits. bits. by rewrite !andb_false_r. Qed.

Lemma start_mideleg h i : 0 <= i < 16 -> Z.testbit (h_csr (start h) Mideleg) i = Z.testbit (h_deleg h) i.
Proof.
  intros Hi. run_start h. change 65535 with (Z.ones 16).
  rewrite u64_testbit, Z.land_spec, Z.ones_spec_low by lia. reflexivity.
Qed.

Lemma start_mie h i :
  0 <= i < 16 ->
  Z.testbit (h_csr (start h) Mie) i =
  (i =? 7) || Z.testbit (h_csr h Mie) i || Z.testbit (h_deleg h) i && ((i =? 1) || (i =? 5) || (i =? 9)).
Proof.
  intros Hi. run_start h. change 65535 with (Z.ones 16).
  rewrite !u64_testbit, Z.lor_spec, u64_testbit, masked_testbit, !Z.lor_spec, Z.land_spec, u64_testbit, Z.land_spec, Z.ones_spec_low by lia.
  rewrite !Z.shiftl_1_l, !Z.pow2_bits_eqb, !(Z.eqb_sym _ i) by lia.
  destruct (Z.testbit h_deleg i), (Z.testbit (h_csr Mie) i), (i =? 1), (i =? 5), (i =? 7), (i =? 9); reflexivity.
Qed.

(** The memory that [start] writes. *)
Lemma start_mem h :
  let id := s32 (h_csr h Mhartid) in
  h_mem (start h) =
  st64 (st64 (st64 (h_mem h) (CLINT_MTIMECMP id) (u64 (ld64 (h_mem h) CLINT_MTIME + 1000000)))
    (timer_scratch + 40 * id + 24) (u64 (CLINT_MTIMECMP id))) (timer_scratch + 40 * id + 32) (u64 1000000).
Proof. run_start h. reflexivity. Qed.

Lemma start_csrs h :
  h_pc (start h) = u64 main /\ h_reg (start h) TP = u64 (s32 (h_csr h Mhartid)) /\ h_reg (start h) SP = h_reg h SP /\
  h_csr (start h) Satp = 0 /\ h_csr (start h) Medeleg = u64 (Z.land 0xffff (h_edeleg h)) /\ h_csr (start h) Mtvec = u64 timervec /\
  h_csr (start h) Mscratch = u64 (timer_scratch + 40 * s32 (h_csr h Mhartid)) /\
  h_csr (start h) Pmpcfg0 = 0xf /\ h_csr (start h) Pmpaddr0 = 0x3fffffffffffff.
Proof. run_start h. by split_and!. Qed.

Lemma entry_run va2pa id h :
  0 <= id < NCPU -> linked -> h_csr h Mhartid = id ->
  let h1 := exec va2pa entry_code h in
  h_reg h1 SP = stack0 + 4096 * (id + 1) /\ h_csr h1 = h_csr h /\ h_mem h1 = h_mem h /\ h_deleg h1 = h_deleg h.
Proof.
  intros Hid [_ _ _ [H0 H1]] Hh. rewrite NCPU_val in *. rewrite PHYSTOP_val in H1. unfold KERNBASE in H0.
  split_and!; [|reflexivity..]. destruct h; simpl in Hh. lazy -[u64 Z.add Z.mul]. rewrite Hh.
  rewrite (u64_small id), (u64_small (id + 1)), (u64_small stack0), (u64_small (1024 * 4)), (u64_small (1024 * 4 * (id + 1))), u64_small by lia. lia.
Qed.

#[local] Strategy opaque [start exec].

Lemma s32_id id : 0 <= id < NCPU -> s32 id = id.
Proof. rewrite NCPU_val. intros H. apply s32_small. lia. Qed.

(** C19: Every hart that starts at [_entry] reaches main in supervisor mode on a stack of its
    own, with its number in [tp], paging off, memory protection open up to PHYSTOP,
    exceptions delegated and the supervisor's external, timer and software interrupts
    enabled in [sie], and with its timer interrupt set up: [timervec]'s scratch area holds
    the hart's own MTIMECMP and the interval, and the first interrupt is one interval away.
    The stack pointer is [stack0 + (hartid + 1) * 4096], the top of the hart's page of [stack0]
    (the comment in entry.S says [stack0 + hartid * 4096], which is its bottom). *)
Theorem hart_boots va2pa id h :
  0 <= id < NCPU -> linked -> at_reset id h ->
  let h1 := entry va2pa h in
  booted id h1 /\
  ld64 (h_mem h1) (CLINT_MTIMECMP id) = u64 (ld64 (h_mem h) CLINT_MTIME + 1000000) /\
  (forall a, a + 8 <= CLINT_MTIMECMP id \/ CLINT_MTIMECMP id + 8 <= a ->
    a + 8 <= timer_scratch + 40 * id + 24 \/ timer_scratch + 40 * id + 40 <= a -> ld64 (h_mem h1) a = ld64 (h_mem h) a).
Proof.
  intros Hid Hl [Rh Rp Rd Rn] h1. pose proof (entry_run va2pa id h Hid Hl Rh) as (Esp & Ec & Em & Ed).
  unfold h1, entry. set (h0 := exec va2pa entry_code h) in *.
  destruct (start_csrs h0) as (Spc & Stp & Ssp & Ssatp & Smed & Smt & Sms & Scfg & Saddr).
  pose proof (start_mem h0) as Sm. cbv zeta in Sm. rewrite Ec, Rh, s32_id in Stp, Sms, Sm by exact Hid. rewrite Em in Sm.
  destruct Hl as [Lm Lt [Ls0 Ls1] _]. rewrite PHYSTOP_val in Ls1. rewrite NCPU_val in Hid, Ls1. unfold KERNBASE in Ls0.
  assert (Hcmp : CLINT_MTIMECMP id = 0x2004000 + 8 * id) by (unfold CLINT_MTIMECMP, CLINT; lia).
  split; [split|].
  - apply start_prv.
  - rewrite Spc. by apply u64_small.
  - rewrite Stp. apply u64_small. lia.
  - by rewrite Ssp.
  - exact Ssatp.
  - intros i Hi. rewrite Smed. change 0xffff with (Z.ones 16).
    rewrite u64_testbit, Z.land_spec, Z.ones_spec_low by lia. reflexivity.
  - intros i Hi. assert (0 <= i < 16) by (repeat (apply elem_of_cons in Hi as [->|Hi]; [lia|]); by apply elem_of_nil in Hi).
    unfold csr_read. rewrite Z.land_spec, start_mideleg, start_mie, Ed, (Rd i Hi) by lia.
    repeat (apply elem_of_cons in Hi as [->|Hi]; [by rewrite !orb_true_r|]). by apply elem_of_nil in Hi.
  - intros a Ha. unfold pmp_allows. rewrite Scfg, Saddr. rewrite PHYSTOP_val in Ha. simpl. lia.
  - split.
    + by rewrite start_mie by lia.
    + rewrite start_mideleg, Ed by lia. exact Rn.
    + rewrite start_mideleg, Ed by lia. apply Rd. set_solver.
    + rewrite Smt. by apply u64_small.
    + rewrite Sms. apply u64_small. lia.
    + rewrite Sm, ld64_st64_other, ld64_st64_same by (lia || apply u64_range). apply u64_small. lia.
    + rewrite Sm. by apply ld64_st64_same.
  - split.
    + rewrite Sm, !ld64_st64_other, ld64_st64_same by (lia || apply u64_range). reflexivity.
    + intros a H1 H2. rewrite Sm, !ld64_st64_other by lia. reflexivity.
Qed.

Lemma trap_csr h c : c <> Mepc -> c <> Mstatus -> h_csr (mtimer_trap h) c = h_csr h c.
Proof. intros H1 H2. unfold mtimer_trap. cbn [h_csr set_hpc set_hprv set_hcsr]. by rewrite !decide_False. Qed.

Lemma trap_ok h : hart_ok h -> is_u64 (h_pc h) -> hart_ok (mtimer_trap h).
Proof.
  intros [Hr Hc] Hpc. split; [exact Hr|]. intros c. unfold mtimer_trap. cbn [h_csr set_hpc set_hprv set_hcsr].
  repeat case_decide; apply u64_range || apply Hc.
Qed.

Lemma bit_to_testbit b j x i : 0 <= i -> 0 <= j -> Z.testbit (bit_to b j x) i = if i =? j then b else Z.testbit x i.
Proof.
  intros Hi Hj. unfold bit_to. destruct b.
  - rewrite Z.setbit_eqb, (Z.eqb_sym j) by exact Hj. by destruct (i =? j).
  - rewrite Z.clearbit_eqb, (Z.eqb_sym j). destruct (i =? j); [apply andb_false_r|apply andb_true_r].
Qed.

Lemma MPP_testbit i : 0 <= i -> i <> 11 -> i <> 12 -> Z.testbit MSTATUS_MPP i = false.
Proof.
  intros Hi H1 H2. unfold MSTATUS_MPP. rewrite Z.shiftl_spec by lia. change 3 with (Z.ones 2).
  destruct (Z.ltb_spec i 11); [by apply Z.testbit_neg_r; lia|]. by apply Z.ones_spec_high; lia.
Qed.

Lemma priv_testbit p i : 0 <= i -> i <> 11 -> i <> 12 -> Z.testbit (Z.shiftl (priv_bits p) 11) i = false.
Proof.
  intros Hi H1 H2. rewrite Z.shiftl_spec by lia. destruct (Z.ltb_spec i 11); [by apply Z.testbit_neg_r; lia|].
  destruct p; [apply Z.bits_0|change (priv_bits PrvS) with (Z.ones 1)|change (priv_bits PrvM) with (Z.ones 2)]; apply Z.ones_spec_high; lia.
Qed.

(** The trap and the return from it change no bit of the status register but those that
    keep the mode and the interrupt enable of before the trap. *)
Lemma trap_mret_status h i :
  0 <= i < 64 -> i <> 7 -> i <> 11 -> i <> 12 ->
  Z.testbit (h_csr (mret_ (mtimer_trap h)) Mstatus) i = Z.testbit (h_csr h Mstatus) i.
Proof.
  intros Hi H7 H11 H12. unfold mret_, mtimer_trap. cbn [h_csr set_hpc set_hprv set_hcsr].
  destruct (decide (Mstatus = Mstatus)) as [_|]; [|congruence]. destruct (decide (Mstatus = Mepc)) as [|_]; [congruence|].
  set (st := u64 (Z.lor _ _)).
  assert (Hst : forall j, 0 <= j < 64 -> j <> 11 -> j <> 12 ->
    Z.testbit st j = if j =? 3 then false else if j =? 7 then Z.testbit (h_csr h Mstatus) 3 else Z.testbit (h_csr h Mstatus) j).
  { intros j Hj Ha Hb. unfold st. rewrite u64_testbit, Z.lor_spec, Z.land_spec, Z.lnot_spec, MPP_testbit, priv_testbit by lia.
    rewrite !bit_to_testbit by lia. by rewrite andb_true_r, orb_false_r. }
  rewrite u64_testbit, Z.land_spec, Z.lnot_spec, MPP_testbit, andb_true_r, !bit_to_testbit by lia.
  rewrite (proj2 (Z.eqb_neq i 7)) by exact H7. rewrite !Hst by lia. change (7 =? 3) with false. change (7 =? 7) with true. cbv iota.
  destruct (Z.eqb_spec i 3) as [->|]; [reflexivity|]. by rewrite (proj2 (Z.eqb_neq i 7)).
Qed.

Lemma trap_mret_sstatus h h1 :
  h_csr h1 Mstatus = h_csr (mret_ (mtimer_trap h)) Mstatus -> csr_read Sstatus h1 = csr_read Sstatus h.
Proof.
  intros E. cbn [csr_read]. apply Z.bits_inj'. intros i Hi. rewrite !Z.land_spec.
  destruct (Z.testbit SSTATUS_MASK i) eqn:Em; [|by rewrite !andb_false_r]. rewrite E.
  rewrite trap_mret_status; [reflexivity| |by intros ->..]. split; [exact Hi|]. apply Z.nle_gt. intros Hge.
  rewrite Z.bits_above_log2 in Em; [discriminate|done|]. apply Z.lt_le_trans with 64; [reflexivity|exact Hge].
Qed.

(** C18: A timer interrupt is invisible to the code it interrupts, in the kernel or in user
    space, on a hart set up as [start] leaves it: [timervec] adds the interval to the
    hart's own MTIMECMP, raises a supervisor software interrupt for devintr, and returns to
    the interrupted instruction and mode with every register as it was, with every control
    and status register as it was but [mepc], [mip] and the bits of [mstatus] that belong to
    machine mode, with no other interrupt raised or lost, and with no memory written but
    its save area; and the hart is ready for the next one. *)
Theorem timer_tick va2pa id h :
  0 <= id < NCPU -> linked -> hart_ok h -> is_u64 (h_pc h) -> mem_ok (h_mem h) -> h_prv h <> PrvM -> timer_ready id h ->
  let h1 := exec va2pa timervec_code (mtimer_trap h) in
  (forall r, h_reg h1 r = h_reg h r) /\ h_pc h1 = h_pc h /\ h_prv h1 = h_prv h /\
  ld64 (h_mem h1) (CLINT_MTIMECMP id) = u64 (ld64 (h_mem h) (CLINT_MTIMECMP id) + 1000000) /\
  (forall i, 0 <= i < 64 -> Z.testbit (csr_read Sip h1) i = (i =? 1) || Z.testbit (csr_read Sip h) i) /\
  (forall c, c ∉ [Mstatus; Mepc; Mip; Sip] -> csr_read c h1 = csr_read c h) /\
  (forall i, 0 <= i < 64 -> i ∉ [7; 11; 12] -> Z.testbit (csr_read Mstatus h1) i = Z.testbit (csr_read Mstatus h) i) /\
  (forall a, a + 8 <= CLINT_MTIMECMP id \/ CLINT_MTIMECMP id + 8 <= a ->
    a + 8 <= timer_scratch + 40 * id \/ timer_scratch + 40 * id + 24 <= a -> ld64 (h_mem h1) a = ld64 (h_mem h) a) /\
  timer_ready id h1.
Proof.
  intros Hid [_ _ [L0 L1] _] Hok Hpc Hm Hp [T1 T2 T3 T4 T5 T6 T7]. cbv zeta.
  rewrite PHYSTOP_val in L1. rewrite NCPU_val in Hid, L1. unfold KERNBASE in L0.
  assert (Hcmp : CLINT_MTIMECMP id = 0x2004000 + 8 * id) by (unfold CLINT_MTIMECMP, CLINT; lia).
  destruct (timervec_run va2pa (mtimer_trap h) (timer_scratch + 40 * id) (CLINT_MTIMECMP id) 1000000)
    as (Hr & Hs & Hc & Ho & Hip & Hpc' & Hprv & Hst & Hcsr);
    [by apply trap_ok|exact Hm|reflexivity|by rewrite trap_csr|lia|exact T6|exact T7|lia|lia|by rewrite trap_csr|].
  assert (Hmepc : h_csr (mtimer_trap h) Mepc = h_pc h) by (transitivity (u64 (h_pc h)); [reflexivity|by apply u64_small]).
  rewrite trap_mret_priv in Hprv by exact Hp. rewrite Hmepc in Hpc'. set (h1 := exec _ _ _) in *.
  assert (Hsame : forall c, c <> Mstatus -> c <> Mepc -> c <> Mip -> h_csr h1 c = h_csr h c).
  { intros c H1 H2 H3. destruct (decide (c = Mscratch)) as [->|H4]; [exact (eq_trans Hs (eq_sym T5))|].
    rewrite Hcsr by assumption. by apply trap_csr. }
  split_and!; [exact Hr|exact Hpc'|exact Hprv|exact Hc| | | |exact Ho|].
  - intros i Hi. cbn [csr_read]. rewrite !Z.land_spec, Hip, Hsame, trap_csr by (exact Hi || discriminate).
    destruct (Z.eqb_spec i 1) as [->|]; [by rewrite T3|reflexivity].
  - intros c Hn. rewrite !not_elem_of_cons in Hn. destruct Hn as (H1 & H2 & H3 & H4 & _).
    destruct c; cbn [csr_read]; try (rewrite ?Hsame by discriminate; reflexivity);
      [congruence|congruence|congruence|exact (trap_mret_sstatus h h1 Hst)|congruence].
  - intros i Hi Hn. rewrite !not_elem_of_cons in Hn. destruct Hn as (H1 & H2 & H3 & _).
    cbn [csr_read]. rewrite Hst. by apply trap_mret_status.
  - split; rewrite ?Hsame by discriminate; [exact T1|exact T2|exact T3|exact T4|exact T5| |].
    + rewrite Ho by lia. exact T6.
    + rewrite Ho by lia. exact T7.
Qed.
End boot.

(** ** On concrete harts *)

Definition demo_reset (id : Z) : hart :=
  Hart (fun _ => 0) (fun c => match c with Mhartid => id | _ => 0 end) ∅ PrvM 0x80000000 0x222 0xb7ff.

Lemma demo_linked : linked 0x80001000 0x80002000 0x80020000 0x80010000.
Proof. split; vm_compute; intuition congruence. Qed.

Lemma hart_boots_witness :
  booted 0x80001000 0x80002000 0x80020000 0x80010000 3 (entry 0x80001000 0x80002000 0x80020000 0x80010000 demo_va2pa (demo_reset 3)).
Proof.
  apply (hart_boots 0x80001000 0x80002000 0x80020000 0x80010000 demo_va2pa 3 (demo_reset 3)).
  - rewrite NCPU_val. lia.
  - exact demo_linked.
  - split; [reflexivity|reflexivity| |reflexivity].
    intros i Hi. repeat (apply elem_of_cons in Hi as [->|Hi]; [reflexivity|]). by apply elem_of_nil in Hi.
Defined.

(** Hart 3 in user mode, with the timer as [start] leaves it. *)
Definition demo_ticking : hart :=
  Hart demo_regs
    (fun c => match c with Mie => 128 | Mideleg => 0x222 | Mtvec => 0x80002000 | Mscratch => 0x80020078 | _ => 0 end)
    (st64 (st64 (st64 ∅ 0x80020090 0x2004018) 0x80020098 1000000) 0x2004018 5000) PrvU 0x1004 0x222 0xb7ff.

Lemma timer_tick_witness :
  let h1 := exec demo_va2pa timervec_code (mtimer_trap demo_ticking) in
  (forall r, h_reg h1 r = demo_regs r) /\ h_pc h1 = 0x1004 /\ h_prv h1 = PrvU /\ ld64 (h_mem h1) 0x2004018 = 1005000.
Proof.
  destruct (timer_tick 0x80001000 0x80002000 0x80020000 0x80010000 demo_va2pa 3 demo_ticking) as (Hr & Hpc & Hp & Hc & _).
  - rewrite NCPU_val. lia.
  - exact demo_linked.
  - split; [intros []; vm_compute; split; congruence|intros []; vm_compute; split; congruence].
  - vm_compute. split; congruence.
  - apply mem_ok_st64, mem_ok_st64, mem_ok_st64, mem_ok_empty.
  - discriminate.
  - split; vm_compute; reflexivity.
  - split_and!; [exact Hr|exact Hpc|exact Hp|]. etransitivity; [exact Hc|]. vm_compute. reflexivity.
Defined.

(** ** uartinit of kernel/uart.c

    The device's registers, as the 16550 has them: while the top bit of the line control
    register is set, registers 0 and 1 are the divisor of the baud rate. *)

Definition IER : Z := 1.
Definition IER_RX_ENABLE : Z := Z.shiftl 1 0.
Definition IER_TX_ENABLE : Z := Z.shiftl 1 1.
Definition FCR : Z := 2.
Definition FCR_FIFO_ENABLE : Z := Z.shiftl 1 0.
Definition FCR_FIFO_CLEAR : Z := Z.shiftl 3 1.
Definition LCR : Z := 3.
Definition LCR_EIGHT_BITS : Z := Z.shiftl 3 0.
Definition LCR_BAUD_LATCH : Z := Z.shiftl 1 7.

Record uregs := Uregs { ier : Z; fcr : Z; lcr : Z; divisor_lsb : Z; divisor_msb : Z; sent : list Z }.

Definition WriteReg (reg v : Z) (u : uregs) : uregs :=
  let latch := Z.testbit (lcr u) 7 in
  if reg =? 0 then
    if latch then Uregs (ier u) (fcr u) (lcr u) v (divisor_msb u) (sent u)
    else Uregs (ier u) (fcr u) (lcr u) (divisor_lsb u) (divisor_msb u) (sent u ++ [v])
  else if reg =? IER then
    if latch then Uregs (ier u) (fcr u) (lcr u) (divisor_lsb u) v (sent u)
    else Uregs v (fcr u) (lcr u) (divisor_lsb u) (divisor_msb u) (sent u)
  else if reg =? FCR then Uregs (ier u) v (lcr u) (divisor_lsb u) (divisor_msb u) (sent u)
  else if reg =? LCR then Uregs (ier u) (fcr u) v (divisor_lsb u) (divisor_msb u) (sent u)
  else u.

Definition uartinit (u : uregs) : uregs * spinlock :=
  let u := WriteReg IER 0x00 u in
  let u := WriteReg LCR LCR_BAUD_LATCH u in
  let u := WriteReg 0 0x03 u in
  let u := WriteReg 1 0x00 u in
  let u := WriteReg LCR LCR_EIGHT_BITS u in
  let u := WriteReg FCR (Z.lor FCR_FIFO_ENABLE FCR_FIFO_CLEAR) u in
  let u := WriteReg IER (Z.lor IER_TX_ENABLE IER_RX_ENABLE) u in
  (u, initlock "uart").

(** 38.4K baud, eight bits, both interrupts, and nothing sent. *)
Lemma uartinit_run u :
  Z.testbit (lcr u) 7 = false -> uartinit u = (Uregs 3 7 3 3 0 (sent u), Spinlock.Spinlock 0 "uart" None).
Proof.
  intros H. assert (E : WriteReg IER 0 u = Uregs 0 (fcr u) (lcr u) (divisor_lsb u) (divisor_msb u) (sent u)).
  { unfold WriteReg. rewrite H. reflexivity. }
  unfold uartinit. cbv zeta. rewrite E. vm_compute. reflexivity.
Qed.

(** ** kernel/main.c

    Each hart runs [main]; a call is two operations, its beginning and its end, so that
    calls of different harts overlap.  [scheduler] does not return.  Because of the two
    [__sync_synchronize], [started] is read and written as in one memory. *)

Inductive call :=
  | Consoleinit | Printfinit | Kprintf (fmt : string) | Kinit | Kvminit | Kvminithart | Procinit | Trapinit
  | Trapinithart | Plicinit | Plicinithart | Binit | Iinit | Fileinit | Virtio_disk_init | Userinit | Scheduler.

Inductive op := Begin (c : call) | End (c : call) | WhileNotStarted | Synchronize | SetStarted.

#[export] Instance call_eq_dec : EqDecision call.
Proof. solve_decision. Defined.

#[export] Instance op_eq_dec : EqDecision op.
Proof. solve_decision. Defined.

Definition Call (c : call) : list op := [Begin c; End c].

Definition main_body (cpuid : nat) : list op :=
  (if Nat.eqb cpuid 0 then
    Call Consoleinit ++
    Call Printfinit ++
    Call (Kprintf "\n") ++
    Call (Kprintf "xv6 kernel is booting\n") ++
    Call (Kprintf "\n") ++
    Call Kinit ++
    Call Kvminit ++
    Call Kvminithart ++
    Call Procinit ++
    Call Trapinit ++
    Call Trapinithart ++
    Call Plicinit ++
    Call Plicinithart ++
    Call Binit ++
    Call Iinit ++
    Call Fileinit ++
    Call Virtio_disk_init ++
    Call Userinit ++
    [Synchronize; SetStarted]
  else
    [WhileNotStarted; Synchronize] ++
    Call (Kprintf "hart %d starting\n") ++
    Call Kvminithart ++
    Call Trapinithart ++
    Call Plicinithart) ++
  [Begin Scheduler].

(** The harts' remaining operations, [started], and what has happened so far. *)
Record bootst := Bootst { todo : nat -> list op; started : Z; events : list (nat * op) }.

Definition advance (id : nat) (k : list op) (st : Z) (ev : list (nat * op)) (s : bootst) : bootst :=
  Bootst (fun i => if decide (i = id) then k else todo s i) st (events s ++ ev) .

Definition hart_step (id : nat) (s : bootst) : option bootst :=
  match todo s id with
  | [] => None
  | WhileNotStarted :: k => if started s =? 0 then Some s else Some (advance id k (started s) [] s)
  | Synchronize :: k => Some (advance id k (started s) [] s)
  | SetStarted :: k => Some (advance id k 1 [] s)
  | o :: k => Some (advance id k (started s) [(id, o)] s)
  end.

Definition power_on : bootst := Bootst main_body 0 [].

Definition harts : nat := Z.to_nat NCPU.

Inductive booting : bootst -> Prop :=
  | booting_on : booting power_on
  | booting_step id s s' : (id < harts)%nat -> booting s -> hart_step id s = Some s' -> booting s'.

(** ** The order of the calls *)

Definition is_call (o : op) : bool := match o with Begin _ | End _ => true | _ => false end.

(** What hart [id] did. *)
Definition did (id : nat) (l : list (nat * op)) : list op := (filter (fun x => x.1 = id) l).*2.

Record boot_inv (s : bootst) : Prop := {
  bi_done : forall id, exists done, main_body id = done ++ todo s id /\ filter is_call done = did id (events s);
  bi_started : started s = (if decide (SetStarted ∈ todo s 0%nat) then 0 else 1);
  bi_waiting : forall id, id <> 0%nat -> started s = 0 -> todo s id = main_body id }.

Lemma did_app id l l' : did id (l ++ l') = did id l ++ did id l'.
Proof. unfold did. by rewrite filter_app, fmap_app. Qed.

Lemma did_elem id o l : o ∈ did id l -> (id, o) ∈ l.
Proof. unfold did. rewrite list_elem_of_fmap. intros ([i o'] & -> & Hin). apply list_elem_of_filter in Hin as [<- Hin]. exact Hin. Qed.

Lemma boot_inv_init : boot_inv power_on.
Proof.
  split; [|reflexivity|reflexivity]. intros id. exists []. split; reflexivity.
Qed.

Lemma split_unique {A} (x : A) l1 l2 k1 k2 :
  l1 ++ x :: l2 = k1 ++ x :: k2 -> x ∉ k1 -> x ∉ k2 -> l1 = k1 /\ l2 = k2.
Proof.
  revert k1. induction l1 as [|y l1 IH]; intros [|z k1] E H1 H2; simplify_eq/=; [done|set_solver|exfalso; set_solver|].
  destruct (IH k1) as [-> ->]; [done|set_solver|done|done].
Qed.

(** The calls of hart 0 before [started] is set. *)
Definition boot_ops : list op := take 37 (main_body 0).

Lemma main_body_0 : main_body 0 = boot_ops ++ [SetStarted; Begin Scheduler].
Proof. reflexivity. Qed.

Lemma main_body_other id : id <> 0%nat -> main_body id = WhileNotStarted :: tail (main_body 1).
Proof. by destruct id. Qed.

Lemma not_in_boot_ops : SetStarted ∉ boot_ops /\ WhileNotStarted ∉ main_body 0.
Proof. split; by apply (bool_decide_unpack _). Qed.

Lemma not_in_other : SetStarted ∉ main_body 1 /\ WhileNotStarted ∉ tail (main_body 1).
Proof. split; by apply (bool_decide_unpack _). Qed.

#[local] Opaque main_body boot_ops.

Lemma set_started_last d k : main_body 0 = d ++ SetStarted :: k -> d = boot_ops /\ k = [Begin Scheduler].
Proof.
  rewrite main_body_0. intros E. apply eq_sym, split_unique in E as [-> ->]; [done|apply not_in_boot_ops|].
  by apply (bool_decide_unpack _).
Qed.

(** A step that does not spin. *)
Lemma advance_inv id o k s st :
  boot_inv s -> todo s id = o :: k ->
  st = (if decide (o = SetStarted) then 1 else started s) -> (o = WhileNotStarted -> started s <> 0) ->
  boot_inv (advance id k st (if is_call o then [(id, o)] else []) s).
Proof.
  intros [Hd Hs Hw] Ht -> Hns. destruct (Hd id) as (done & Hm & Hf). rewrite Ht in Hm.
  assert (Hid : o = SetStarted -> id = 0%nat).
  { intros ->. destruct (decide (id = 0%nat)); [done|]. exfalso. apply (proj1 not_in_other).
    rewrite (main_body_other 1), <- (main_body_other id), Hm by done. set_solver. }
  split.
  - intros i. cbn [todo events advance]. destruct (decide (i = id)) as [->|Hi].
    + exists (done ++ [o]). split; [by rewrite <- app_assoc|]. rewrite filter_app, did_app, Hf. f_equal.
      destruct o; cbn [is_call]; unfold did; rewrite ?filter_cons_True by done; done.
    + destruct (Hd i) as (d & Hm' & Hf'). exists d. split; [done|]. rewrite did_app, <- Hf'.
      destruct (is_call o); unfold did; rewrite ?filter_cons_False by (simpl; congruence); by rewrite app_nil_r.
  - cbn [todo started advance]. destruct (decide (0%nat = id)) as [<-|Hi].
    + rewrite Hs, Ht. destruct (decide (o = SetStarted)) as [->|Ho].
      * apply set_started_last in Hm as [_ ->]. reflexivity.
      * repeat case_decide; set_solver.
    + rewrite decide_False by (intros ->; by apply Hi, eq_sym, Hid). exact Hs.
  - intros i Hi. cbn [todo started advance]. destruct (decide (o = SetStarted)) as [->|Ho]; [done|]. intros H0.
    destruct (decide (i = id)) as [->|]; [|by apply Hw]. exfalso.
    rewrite (Hw id), main_body_other in Ht by done. simplify_eq. by apply Hns.
Qed.

Lemma hart_step_cases id s s' :
  hart_step id s = Some s' ->
  exists o k, todo s id = o :: k /\
  ((o = WhileNotStarted /\ started s = 0 /\ s' = s) \/
   ((o = WhileNotStarted -> started s <> 0) /\
    s' = advance id k (if decide (o = SetStarted) then 1 else started s) (if is_call o then [(id, o)] else []) s)).
Proof.
  unfold hart_step. destruct (todo s id) as [|o k]; [done|]. intros H. exists o, k. split; [done|].
  destruct o; simplify_eq; try (right; done). destruct (Z.eqb_spec (started s) 0); simplify_eq; [by left|by right].
Qed.

Lemma booting_inv s : booting s -> boot_inv s.
Proof.
  induction 1 as [|id s s' Hid Hb IH Hs]; [exact boot_inv_init|].
  apply hart_step_cases in Hs as (o & k & Ht & [(_ & _ & ->)|[Hn ->]]); [done|]. by apply advance_inv.
Qed.

(** After [started] is set, hart 0 has finished all its calls. *)
Lemma started_done s o : boot_inv s -> started s <> 0 -> o ∈ boot_ops -> is_call o = true -> (0%nat, o) ∈ events s.
Proof.
  intros [Hd Hs _] H1 Ho Hc. rewrite Hs in H1. case_decide as Hn; [done|].
  destruct (Hd 0%nat) as (done & Hm & Hf). apply did_elem. rewrite <- Hf. apply list_elem_of_filter. split; [by rewrite Hc|].
  assert (Hin : SetStarted ∈ done).
  { assert (H : SetStarted ∈ main_body 0) by (rewrite main_body_0; apply elem_of_app; right; left). rewrite Hm in H.
    apply elem_of_app in H as [H|H]; [exact H|contradiction]. }
  apply list_elem_of_split in Hin as (d1 & d2 & ->).
  rewrite <- app_assoc in Hm. simpl in Hm. apply set_started_last in Hm as [-> _]. apply elem_of_app. by left.
Qed.

(** A call of another hart is after every call of hart 0 before [started]. *)
Definition ordered (l : list (nat * op)) : Prop :=
  forall l1 id o l2 o0, l = l1 ++ (id, o) :: l2 -> id <> 0%nat -> o0 ∈ boot_ops -> is_call o0 = true -> (0%nat, o0) ∈ l1.

Lemma ordered_snoc l id o :
  ordered l -> (id <> 0%nat -> forall o0, o0 ∈ boot_ops -> is_call o0 = true -> (0%nat, o0) ∈ l) -> ordered (l ++ [(id, o)]).
Proof.
  intros Hl Hn l1 id' o' l2 o0 E Hid Ho Hc. destruct l2 as [|x l2 _] using rev_ind.
  - apply app_inj_tail in E as [-> [= -> ->]]. by apply Hn.
  - rewrite app_comm_cons, app_assoc in E. apply app_inj_tail in E as [-> _]. by eapply Hl.
Qed.

Lemma booting_ordered s : booting s -> ordered (events s).
Proof.
  induction 1 as [|id s s' Hid Hb IH Hs]; [intros [|] ? ? ? ? [=]|].
  apply hart_step_cases in Hs as (o & k & Ht & [(_ & _ & ->)|[Hn ->]]); [done|].
  cbn [events advance]. destruct (is_call o) eqn:Hc; [|by rewrite app_nil_r]. apply ordered_snoc; [done|].
  intros Hi o0 Ho Hc0. pose proof (booting_inv s Hb) as HI. apply started_done; [done| |done|done].
  intros H0. rewrite (bi_waiting s HI id Hi H0), main_body_other in Ht by done. by simplify_eq.
Qed.

(** ** Progress *)

Definition boot_step (s s' : bootst) : Prop := exists id, (id < harts)%nat /\ hart_step id s = Some s'.

Definition remaining (s : bootst) : nat := sum_list_with (fun i => length (todo s i)) (seq 0 harts).

Lemma sum_list_with_ext {A} (f g : A -> nat) l : (forall x, x ∈ l -> f x = g x) -> sum_list_with f l = sum_list_with g l.
Proof. induction l as [|x l IH]; intros H; [done|]. simpl. rewrite (H x), IH; [done| |by left]. intros y Hy. apply H. by right. Qed.

Lemma remaining_advance id o k st ev s :
  (id < harts)%nat -> todo s id = o :: k -> remaining s = S (remaining (advance id k st ev s)).
Proof.
  intros Hid Ht. unfold remaining. assert (Hin : id ∈ seq 0 harts) by (apply elem_of_seq; lia).
  apply list_elem_of_split in Hin as (l1 & l2 & E). pose proof (NoDup_seq 0 harts) as Hnd. rewrite E in Hnd |- *.
  apply NoDup_app in Hnd as (_ & Hn1 & [Hn2 _]%NoDup_cons).
  rewrite !sum_list_with_app. cbn [sum_list_with todo advance]. rewrite Ht, decide_True by done. simpl (length (o :: k)).
  rewrite (sum_list_with_ext (fun i => length (if decide (i = id) then k else todo s i)) (fun i => length (todo s i)) l1),
    (sum_list_with_ext (fun i => length (if decide (i = id) then k else todo s i)) (fun i => length (todo s i)) l2); [lia| |].
  - intros x Hx. rewrite decide_False; [done|]. intros ->. contradiction.
  - intros x Hx. rewrite decide_False; [done|]. intros ->. apply (Hn1 id Hx). by left.
Qed.

Lemma hart_advances id s :
  (id < harts)%nat -> todo s id <> [] -> (forall k, todo s id = WhileNotStarted :: k -> started s <> 0) ->
  exists s', boot_step s s' /\ remaining s = S (remaining s').
Proof.
  intros Hid Hne Hw. destruct (todo s id) as [|o k] eqn:Ht; [done|].
  assert (Hst : exists st ev, hart_step id s = Some (advance id k st ev s)).
  { unfold hart_step. rewrite Ht. destruct o; eauto. rewrite (proj2 (Z.eqb_neq _ _)) by (by eapply Hw). eauto. }
  destruct Hst as (st & ev & Hst). exists (advance id k st ev s). split; [by exists id|]. by eapply remaining_advance.
Qed.

Lemma boot_progress s id :
  boot_inv s -> (id < harts)%nat -> todo s id <> [] -> exists s', boot_step s s' /\ remaining s = S (remaining s').
Proof.
  intros HI Hid Hne. destruct (decide (todo s 0%nat = [])) as [H0|H0].
  - apply (hart_advances id); [done|done|]. intros k _. rewrite (bi_started s HI), H0. by rewrite decide_False by apply not_elem_of_nil.
  - apply (hart_advances 0); [by vm_compute; lia|done|]. intros k Hk. destruct (bi_done s HI 0%nat) as (d & Hm & _).
    rewrite Hk in Hm. exfalso. apply (proj2 not_in_boot_ops). rewrite Hm. apply elem_of_app. right. left.
Qed.

(** C17: However the harts interleave, the kernel is initialised before any other hart than 0 uses
    it: each hart does its calls in the order of main, no other hart begins a call before
    every call of hart 0 up to userinit has ended, and from every state the harts can all
    reach the scheduler. *)
Theorem boot_order s :
  booting s ->
  (forall id, exists done, main_body id = done ++ todo s id /\ filter is_call done = did id (events s)) /\
  ordered (events s) /\
  exists s', rtc boot_step s s' /\ forall id, (id < harts)%nat -> todo s' id = [].
Proof.
  intros Hb. split_and!; [apply (bi_done s (booting_inv s Hb))|by apply booting_ordered|].
  remember (remaining s) as n eqn:Hn. revert s Hb Hn. induction n as [|n IH]; intros s Hb Hn.
  all: destruct (decide (Forall (fun id => todo s id = []) (seq 0 harts))) as [HF|HF];
    [exists s; split; [done|]; intros id Hid; rewrite Forall_forall in HF; apply HF, elem_of_seq; lia|].
  all: apply not_Forall_Exists, Exists_exists in HF as (id & Hin & Hne); [|apply _]; apply elem_of_seq in Hin.
  all: destruct (boot_progress s id (booting_inv s Hb)) as (s1 & (i & Hi & Hs) & Hr); [lia|exact Hne|].
  - congruence.
  - destruct (IH s1) as (s' & Hs' & Hfin); [by eapply booting_step|congruence|].
    exists s'. split; [|done]. eapply rtc_l; [by exists i|done].
Qed.

(** A schedule: which hart does the next operation. *)
Fixpoint run_harts (l : list nat) (s : bootst) : option bootst :=
  match l with
  | [] => Some s
  | id :: l => s ← hart_step id s; run_harts l s
  end.

Lemma run_harts_booting l s s' : Forall (fun id => id < harts)%nat l -> booting s -> run_harts l s = Some s' -> booting s'.
Proof.
  revert s. induction l as [|id l IH]; intros s Hl Hb H; simpl in H; [by simplify_eq|].
  apply Forall_cons in Hl as [Hid Hl]. destruct (hart_step id s) as [s1|] eqn:E; [|done]. by apply (IH s1); [|eapply booting_step|].
Qed.

(** Hart 1 spins once, then hart 0 initialises the kernel, then hart 1 begins to print. *)
Definition demo_schedule : list nat := 1%nat :: replicate 38 0%nat ++ [1; 1; 1]%nat.

Definition demo_booting : bootst := default power_on (run_harts demo_schedule power_on).

Lemma boot_order_witness :
  (0%nat, End Userinit) ∈ take 36 (events demo_booting) /\
  drop 36 (events demo_booting) = [(1%nat, Begin (Kprintf "hart %d starting\n"))] /\
  exists s', rtc boot_step demo_booting s' /\ forall id, (id < harts)%nat -> todo s' id = [].
Proof.
  assert (E : drop 36 (events demo_booting) = [(1%nat, Begin (Kprintf "hart %d starting\n"))]) by (vm_compute; reflexivity).
  destruct (boot_order demo_booting) as (_ & Ho & Hp).
  - apply (run_harts_booting demo_schedule power_on); [|exact booting_on|vm_compute; reflexivity].
    apply (bool_decide_unpack _). vm_compute. exact I.
  - split_and!; [|exact E|exact Hp].
    apply (Ho (take 36 (events demo_booting)) 1%nat (Begin (Kprintf "hart %d starting\n")) []);
      [rewrite <- E; symmetry; apply take_drop|discriminate| |reflexivity].
    apply (bool_decide_unpack _). vm_compute. exact I.
Defined.
