(* ===== verification/User.v ===== *)
(** * User programs: the system-call interface, user/ulib.c and user/printf.c

    A user program is a computation on the state [S] of everything outside the
    process; it reaches that state through the system calls of user/user.h,
    which the record [os] collects.  The kernel behind them is modelled in the
    other files.  A run returns, ends in [exit], or needs more rounds of a loop
    than it was given. *)

From S2P Require Import Prelude Mem Printf FsHdr.

Inductive ures (S A : Type) :=
  | URet (s : S) (a : A)
  | UExit (s : S) (status : Z)
  | UFuel.
Arguments URet {S A}.
Arguments UExit {S A}.
Arguments UFuel {S A}.

Definition U (S A : Type) : Type := S -> ures S A.

Definition ubind_res {S A B} (r : ures S A) (f : A -> U S B) : ures S B :=
  match r with
  | URet s a => f a s
  | UExit s st => UExit s st
  | UFuel => UFuel
  end.

#[export] Instance U_ret S : MRet (U S) := fun A a s => URet s a.
#[export] Instance U_bind S : MBind (U S) := fun A B f m s => ubind_res (m s) f.

Lemma ubind_run {S A B} (m : U S A) (f : A -> U S B) s : (m ≫= f) s = ubind_res (m s) f.
Proof. reflexivity. Qed.

Definition exit {S A} (status : Z) : U S A := fun s => UExit s status.

Definition more_fuel {S A} : U S A := fun _ => UFuel.

Definition uwhen {S} (b : bool) (m : U S unit) : U S unit := if b then m else mret tt.

(** [struct stat], and the arguments and results of the system calls.  Buffers
    are lists of bytes, strings lists of characters without the NUL.  [fork] is
    given what the child does when the call returns 0 in it; a successful
    [exec] does not return, and ends the run of the program. *)
Record ustat := Ustat { us_dev : Z; us_ino : Z; us_type : Z; us_nlink : Z; us_size : Z }.

Record os (S : Type) := Os {
  os_read : Z -> Z -> U S (Z * list Z);
  os_write : Z -> list Z -> U S Z;
  os_open : list Z -> Z -> U S Z;
  os_close : Z -> U S Z;
  os_fork : U S unit -> U S Z;
  os_exec : list Z -> list (list Z) -> U S Z;
  os_wait : U S Z;
  os_pipe : U S (Z * (Z * Z));
  os_dup : Z -> U S Z;
  os_fstat : Z -> U S (Z * ustat);
  os_mknod : list Z -> Z -> Z -> U S Z;
  os_mkdir : list Z -> U S Z;
  os_unlink : list Z -> U S Z;
  os_link : list Z -> list Z -> U S Z;
  os_chdir : list Z -> U S Z;
  os_kill : Z -> U S Z;
  os_sleep : Z -> U S Z;
  os_year : Z -> U S (Z * list Z);
  os_state : Z -> U S (Z * list Z);
  os_procname : Z -> U S (Z * list Z) }.
Arguments os_read {S}.
Arguments os_write {S}.
Arguments os_open {S}.
Arguments os_close {S}.
Arguments os_fork {S}.
Arguments os_exec {S}.
Arguments os_wait {S}.
Arguments os_pipe {S}.
Arguments os_dup {S}.
Arguments os_fstat {S}.
Arguments os_mknod {S}.
Arguments os_mkdir {S}.
Arguments os_unlink {S}.
Arguments os_link {S}.
Arguments os_chdir {S}.
Arguments os_kill {S}.
Arguments os_sleep {S}.
Arguments os_year {S}.
Arguments os_state {S}.
Arguments os_procname {S}.

(** ** user/ulib.c *)

(** The string at the start of a buffer. *)
Fixpoint cstring (b : list Z) : list Z :=
  match b with
  | [] => []
  | c :: b => if c =? 0 then [] else c :: cstring b
  end.

Module ulib.
(** Buffers that hold strings: what lies beyond the end of the list is NUL. *)
Fixpoint strcmp (p q : list Z) : Z :=
  match p, q with
  | c :: p', d :: q' => if negb (c =? 0) && (c =? d) then strcmp p' q' else c - d
  | c :: _, [] => c
  | [], d :: _ => - d
  | [], [] => 0
  end.

Fixpoint strlen (s : list Z) : Z :=
  match s with
  | [] => 0
  | c :: s => if c =? 0 then 0 else 1 + strlen s
  end.

(** The rest of the buffer from the first [c] before the NUL on. *)
Fixpoint strchr (s : list Z) (c : Z) : option (list Z) :=
  match s with
  | [] => None
  | d :: s' => if d =? 0 then None else if d =? c then Some s else strchr s' c
  end.

Definition is_digit (c : Z) : bool := (48 <=? c) && (c <=? 57).

(** [n*10 + *s++ - '0'] on an [int]. *)
Fixpoint atoi_loop (n : Z) (s : list Z) : Z :=
  match s with
  | c :: s => if is_digit c then atoi_loop (s32 (n * 10 + c - 48)) s else n
  | [] => n
  end.

Definition atoi (s : list Z) : Z := atoi_loop 0 s.

(** Memory. *)
Fixpoint strcpy (m : mem) (s t : Z) (fuel : nat) : option mem :=
  match fuel with
  | O => None
  | S fuel =>
      let c := ld8 m t in
      let m := st8 m s c in
      if c =? 0 then Some m else strcpy m (s + 1) (t + 1) fuel
  end.

Fixpoint memset_loop (m : mem) (cdst c i : Z) (n : nat) : mem :=
  match n with
  | O => m
  | S n => memset_loop (st8 m (cdst + i) c) cdst c (i + 1) n
  end.

Definition memset (m : mem) (dst c n : Z) : mem := memset_loop m dst c 0 (Z.to_nat n).

Fixpoint move_up (m : mem) (dst src : Z) (n : nat) : mem :=
  match n with
  | O => m
  | S n => move_up (st8 m dst (ld8 m src)) (dst + 1) (src + 1) n
  end.

Fixpoint move_down (m : mem) (dst src : Z) (n : nat) : mem :=
  match n with
  | O => m
  | S n => move_down (st8 m (dst - 1) (ld8 m (src - 1))) (dst - 1) (src - 1) n
  end.

Definition memmove (m : mem) (vdst vsrc n : Z) : mem :=
  if vdst <? vsrc then move_up m vdst vsrc (Z.to_nat n)
  else move_down m (vdst + n) (vsrc + n) (Z.to_nat n).

Fixpoint memcmp_loop (m : mem) (p1 p2 : Z) (n : nat) : Z :=
  match n with
  | O => 0
  | S n => if negb (ld8 m p1 =? ld8 m p2) then ld8 m p1 - ld8 m p2 else memcmp_loop m (p1 + 1) (p2 + 1) n
  end.

Definition memcmp (m : mem) (s1 s2 n : Z) : Z := memcmp_loop m s1 s2 (Z.to_nat n).

Definition memcpy (m : mem) (dst src n : Z) : mem := memmove m dst src n.
End ulib.

Lemma strchr_In toks c :
  0 ∉ toks -> match ulib.strchr toks c with Some _ => true | None => false end = bool_decide (c ∈ toks).
Proof.
  induction toks as [|d toks IH]; intros H0; cbn; [done|].
  apply not_elem_of_cons in H0 as [Hd H0]. rewrite (proj2 (Z.eqb_neq d 0)) by congruence.
  destruct (Z.eqb_spec d c) as [->|Hn].
  - symmetry. apply bool_decide_eq_true. set_solver.
  - rewrite IH by done. apply bool_decide_ext. set_solver.
Qed.

Section ulib_sys.
Context {S : Type} (sys : os S).

(** The loop of [gets]: the characters before the NUL. *)
Fixpoint gets_loop (i max : Z) (got : list Z) (k : nat) : U S (list Z) :=
  if i + 1 <? max then
    match k with
    | O => more_fuel
    | Datatypes.S k =>
        r ← os_read sys 0 1;
        if r.1 <? 1 then mret got
        else
          let c := nth 0 r.2 0 in
          if (c =? 10) || (c =? 13) then mret (got ++ [c])
          else gets_loop (i + 1) max (got ++ [c]) k
    end
  else mret got.

Definition gets (max : Z) : U S (list Z) := gets_loop 0 max [] (Z.to_nat max).

Definition stat (n : list Z) : U S (Z * ustat) :=
  fd ← os_open sys n 0;
  if fd <? 0 then mret (-1, Ustat 0 0 0 0 0)
  else
    r ← os_fstat sys fd;
    os_close sys fd;;
    mret r.

(** ** user/printf.c *)

Definition putc (fd c : Z) : U S unit := os_write sys fd [u8 c];; mret tt.

Fixpoint putcs (fd : Z) (cs : list Z) : U S unit :=
  match cs with
  | [] => mret tt
  | c :: cs => putc fd c;; putcs fd cs
  end.
End ulib_sys.

Definition udigits : list Z := bytes "0123456789ABCDEF".

(** The [do ... while]: a 32-bit number has at most 32 digits. *)
Fixpoint uprintint_loop (x base : Z) (k : nat) : list Z :=
  match k with
  | O => []
  | S k =>
      nth (Z.to_nat (x mod base)) udigits 0 ::
        (if x / base =? 0 then [] else uprintint_loop (x / base) base k)
  end.

(** What [printint] puts in [buf]; [xx] is an [int]. *)
Definition uprintint_buf (xx base : Z) (sgn : bool) : list Z :=
  let neg := sgn && (xx <? 0) in
  let x := if neg then u32 (- xx) else u32 xx in
  uprintint_loop x base 32 ++ (if neg then [45] else []).

(** The digits of [printptr]. *)
Fixpoint uprintptr_loop (x : Z) (k : nat) : list Z :=
  match k with
  | O => []
  | S k => nth (Z.to_nat (Z.shiftr x 60)) udigits 0 :: uprintptr_loop (u64 (Z.shiftl x 4)) k
  end.

(** Arguments: an integer or pointer, or a string (null is [None]).  The
    callers pass one argument of the right kind per conversion. *)
Inductive uarg := UInt (x : Z) | UStr (s : option (list Z)).

Definition va_int (ap : list uarg) : Z := match ap with UInt x :: _ => x | _ => 0 end.
Definition va_str (ap : list uarg) : list Z := match ap with UStr (Some s) :: _ => s | _ => bytes "(null)" end.

Section printf.
Context {S : Type} (sys : os S).

Definition uprintint (fd xx base : Z) (sgn : bool) : U S unit :=
  putcs sys fd (rev (uprintint_buf xx base sgn)).

Definition uprintptr (fd x : Z) : U S unit :=
  putc sys fd 48;; putc sys fd 120;; putcs sys fd (uprintptr_loop x 16).

(** The loop over the format; [state] is true after a [%]. *)
Fixpoint vprintf_loop (fd : Z) (fmt : list Z) (state : bool) (ap : list uarg) : U S unit :=
  match fmt with
  | [] => mret tt
  | c :: fmt =>
      if negb state then
        if c =? 37 then vprintf_loop fd fmt true ap
        else putc sys fd c;; vprintf_loop fd fmt false ap
      else if c =? 100 then uprintint fd (s32 (va_int ap)) 10 true;; vprintf_loop fd fmt false (tail ap)
      else if c =? 108 then uprintint fd (s32 (va_int ap)) 10 false;; vprintf_loop fd fmt false (tail ap)
      else if c =? 120 then uprintint fd (s32 (va_int ap)) 16 false;; vprintf_loop fd fmt false (tail ap)
      else if c =? 112 then uprintptr fd (va_int ap);; vprintf_loop fd fmt false (tail ap)
      else if c =? 115 then putcs sys fd (va_str ap);; vprintf_loop fd fmt false (tail ap)
      else if c =? 99 then putc sys fd (va_int ap);; vprintf_loop fd fmt false (tail ap)
      else if c =? 37 then putc sys fd c;; vprintf_loop fd fmt false ap
      else putc sys fd 37;; putc sys fd c;; vprintf_loop fd fmt false ap
  end.

Definition vprintf (fd : Z) (fmt : list Z) (ap : list uarg) : U S unit := vprintf_loop fd fmt false ap.

Definition fprintf (fd : Z) (fmt : list Z) (ap : list uarg) : U S unit := vprintf fd fmt ap.

Definition uprintf (fmt : list Z) (ap : list uarg) : U S unit := vprintf 1 fmt ap.
End printf.

(** ** Numbers survive printing and [atoi] *)

Lemma uprintint_loop_digs x base k :
  uprintint_loop x base k = map (fun d => nth (Z.to_nat d) udigits 0) (digs x base k).
Proof. revert x. induction k as [|k IH]; intros x; cbn; [done|]. f_equal. destruct (_ =? 0); [done|apply IH]. Qed.

Lemma uprintint_buf_digits xx base sgn :
  - 2 ^ 31 <= xx < 2 ^ 31 ->
  uprintint_buf xx base sgn =
    map (fun d => nth (Z.to_nat d) udigits 0) (digits_of xx base sgn) ++ (if sgn && (xx <? 0) then [45] else []).
Proof.
  intros Hx. unfold uprintint_buf, digits_of.
  by rewrite (proj1 (magnitude_u32 xx sgn Hx)), uprintint_loop_digs.
Qed.

Lemma udigit d : 0 <= d < 10 -> nth (Z.to_nat d) udigits 0 = 48 + d.
Proof.
  intros Hd. assert (d = 0 \/ d = 1 \/ d = 2 \/ d = 3 \/ d = 4 \/ d = 5 \/ d = 6 \/ d = 7 \/ d = 8 \/ d = 9) by lia.
  by repeat destruct_or?; subst.
Qed.

Lemma number_nonneg base ds : 0 <= base -> Forall (fun d => 0 <= d < base) ds -> 0 <= number base ds.
Proof. intros Hb. induction 1; cbn; [lia|]. unfold number in *. nia. Qed.

Lemma atoi_digits ds rest :
  Forall (fun d => 0 <= d < 10) ds -> number 10 ds < 2 ^ 31 ->
  ulib.atoi_loop 0 (rev (map (fun d => nth (Z.to_nat d) udigits 0) ds) ++ rest) = ulib.atoi_loop (number 10 ds) rest.
Proof.
  revert rest. induction ds as [|d ds IH]; intros rest Hf Hlt; [done|].
  apply Forall_cons in Hf as [Hd Hf]. cbn [map rev]. rewrite <- app_assoc.
  pose proof (number_nonneg 10 ds ltac:(lia) Hf). cbn [number foldr] in Hlt. fold (number 10 ds) in Hlt.
  rewrite IH by (done || lia). rewrite udigit by done. cbn [app ulib.atoi_loop].
  unfold ulib.is_digit. rewrite (proj2 (Z.leb_le 48 _)), (proj2 (Z.leb_le _ 57)) by lia. cbn [andb].
  rewrite s32_small by lia. f_equal. cbn. fold (number 10 ds). lia.
Qed.

(** [atoi] of user/ulib.c reads back what [printf("%d")] of user/printf.c
    prints: every non-negative [int], in front of whatever does not continue
    the number. *)
Theorem atoi_printint x rest :
  0 <= x < 2 ^ 31 -> (forall c, head rest = Some c -> ulib.is_digit c = false) ->
  ulib.atoi (rev (uprintint_buf x 10 true) ++ rest) = x.
Proof.
  intros Hx Hr. unfold ulib.atoi. rewrite uprintint_buf_digits by lia.
  rewrite (proj2 (Z.ltb_ge x 0)), andb_false_r, app_nil_r by lia.
  destruct (digits_of_spec x 10 true ltac:(lia) ltac:(lia)) as (Hf & Hn & _).
  cbn [magnitude] in Hn. rewrite Z.abs_eq in Hn by lia.
  rewrite atoi_digits by (done || lia). rewrite Hn.
  destruct rest as [|c rest]; cbn; [done|]. by rewrite Hr.
Qed.

Lemma atoi_printint_witness : ulib.atoi (rev (uprintint_buf 2147483647 10 true) ++ [32]) = 2147483647.
Proof. apply (atoi_printint 2147483647 [32]); [lia|]. intros c [= <-]. reflexivity. Defined.
