(* ===== verification/Grep.v ===== *)
(** * user/grep.c: the regular-expression matcher and the line filter

    The matcher of Kernighan and Pike on strings, proved equal to the language
    the pattern denotes; and the loop that cuts the input into lines, proved to
    print the matching lines whatever the sizes of the reads. *)

From S2P Require Import Prelude Mem Printf User.

(** The [do ... while] of [matchstar]; [rest] is [matchhere(re, _)]. *)
Fixpoint matchstar (rest : list Z -> bool) (c : Z) (text : list Z) : bool :=
  rest text ||
  match text with
  | [] => false
  | x :: text => if (x =? c) || (c =? 46) then matchstar rest c text else false
  end.

Fixpoint matchhere (re text : list Z) {struct re} : bool :=
  match re with
  | [] => true
  | c :: re1 =>
      let single :=
        if (c =? 36) && bool_decide (re1 = []) then bool_decide (text = [])
        else match text with
             | [] => false
             | x :: text => if (c =? 46) || (c =? x) then matchhere re1 text else false
             end in
      match re1 with
      | d :: re2 => if d =? 42 then matchstar (matchhere re2) c text else single
      | [] => single
      end
  end.

Fixpoint match_loop (re text : list Z) : bool :=
  matchhere re text || match text with [] => false | _ :: text => match_loop re text end.

Definition matchre (re text : list Z) : bool :=
  match re with
  | c :: re' => if c =? 94 then matchhere re' text else match_loop re text
  | [] => match_loop re text
  end.

Section grep.
Context {S : Type} (sys : os S).

(** The lines of the buffer from [p] on; what follows the last newline stays. *)
Fixpoint grep_lines (pattern p : list Z) (k : nat) : U S (list Z) :=
  match k with
  | O => more_fuel
  | Datatypes.S k =>
      match ulib.strchr p 10 with
      | None => mret p
      | Some q =>
          let line := take (length p - length q) p in
          uwhen (matchre pattern line) (os_write sys 1 (line ++ [10]);; mret tt);;
          grep_lines pattern (tail q) k
      end
  end.

(** [held] is [buf[0..m)].  Every read but the last gives at least a byte. *)
Fixpoint grep_loop (pattern : list Z) (fd : Z) (held : list Z) (k : nat) : U S unit :=
  match k with
  | O => more_fuel
  | Datatypes.S k =>
      r ← os_read sys fd (1024 - Z.of_nat (length held) - 1);
      if 0 <? r.1 then
        let b := held ++ take (Z.to_nat r.1) r.2 in
        held ← grep_lines pattern b (Datatypes.S (length b));
        grep_loop pattern fd held k
      else mret tt
  end.

Definition grep (fuel : nat) (pattern : list Z) (fd : Z) : U S unit := grep_loop pattern fd [] fuel.

Fixpoint grep_files (fuel : nat) (pattern : list Z) (argv : list (list Z)) : U S unit :=
  match argv with
  | [] => exit 0
  | a :: argv =>
      fd ← os_open sys a 0;
      if fd <? 0 then
        uprintf sys (bytes "grep: cannot open %s
") [UStr (Some a)];;
        exit 1
      else
        grep fuel pattern fd;;
        os_close sys fd;;
        grep_files fuel pattern argv
  end.

Definition grep_main (fuel : nat) (argv : list (list Z)) : U S unit :=
  match argv with
  | _ :: pattern :: [] => grep fuel pattern 0;; exit 0
  | _ :: pattern :: files => grep_files fuel pattern files
  | _ => fprintf sys 2 (bytes "usage: grep pattern [file ...]
") [];; exit 1
  end.
End grep.

(** ** The language of a pattern *)

Inductive item := One (c : Z) | Star (c : Z).

(** The items of a pattern, and whether it ends in the anchor [$]. *)
Fixpoint items (re : list Z) : list item * bool :=
  match re with
  | [] => ([], false)
  | c :: re1 =>
      let single := if (c =? 36) && bool_decide (re1 = []) then ([], true)
                    else let r := items re1 in (One c :: r.1, r.2) in
      match re1 with
      | d :: re2 => if d =? 42 then let r := items re2 in (Star c :: r.1, r.2) else single
      | [] => single
      end
  end.

Definition fits (c x : Z) : Prop := c = 46 \/ c = x.

Inductive denotes : list item -> list Z -> Prop :=
  | denotes_nil : denotes [] []
  | denotes_one c x its s : fits c x -> denotes its s -> denotes (One c :: its) (x :: s)
  | denotes_stop c its s : denotes its s -> denotes (Star c :: its) s
  | denotes_more c x its s : fits c x -> denotes (Star c :: its) s -> denotes (Star c :: its) (x :: s).

(** [text] starts with a string of the pattern, up to its end if anchored. *)
Definition starts (p : list item * bool) (text : list Z) : Prop :=
  exists mid post, text = mid ++ post /\ denotes p.1 mid /\ (p.2 = true -> post = []).

Definition anchored (re : list Z) : bool := bool_decide (head re = Some 94).

Definition body (re : list Z) : list Z := if anchored re then tail re else re.

(** Some substring is in the language; the first one if the pattern is
    anchored by [^]. *)
Definition occurs (re text : list Z) : Prop :=
  exists pre rest, text = pre ++ rest /\ starts (items (body re)) rest /\ (anchored re = true -> pre = []).

(** ** The matcher decides the language *)

Lemma starts_nil its b : starts (its, b) [] <-> denotes its [].
Proof.
  split.
  - intros (mid & post & He & Hd & _). symmetry in He. apply app_eq_nil in He as [-> ->]. exact Hd.
  - intros Hd. exists [], []. auto.
Qed.

Lemma starts_one c its b text :
  starts (One c :: its, b) text <->
  match text with [] => False | x :: text => fits c x /\ starts (its, b) text end.
Proof.
  split.
  - intros (mid & post & -> & Hd & Hb). cbn in Hd. inversion Hd; subst. cbn.
    split; [done|]. eexists _, _. eauto.
  - destruct text as [|x text]; [done|]. intros (Hf & mid & post & -> & Hd & Hb).
    exists (x :: mid), post. split_and!; [done| |done]. by constructor.
Qed.

Lemma starts_star c its b text :
  starts (Star c :: its, b) text <->
  starts (its, b) text \/
  match text with [] => False | x :: text => fits c x /\ starts (Star c :: its, b) text end.
Proof.
  split.
  - intros (mid & post & -> & Hd & Hb). cbn in Hd. inversion Hd; subst.
    + left. eexists _, _. eauto.
    + right. cbn. split; [done|]. eexists _, _. eauto.
  - intros [(mid & post & -> & Hd & Hb)|Hm].
    + exists mid, post. split_and!; [done|by constructor|done].
    + destruct text as [|x text]; [done|]. destruct Hm as (Hf & mid & post & -> & Hd & Hb).
      exists (x :: mid), post. split_and!; [done|by apply denotes_more|done].
Qed.

Lemma matchstar_spec rest c its b text :
  (forall t, rest t = true <-> starts (its, b) t) ->
  matchstar rest c text = true <-> starts (Star c :: its, b) text.
Proof.
  intros Hr. induction text as [|x text IH]; cbn [matchstar];
    rewrite orb_true_iff, Hr, starts_star; [intuition done|].
  apply or_iff_compat_l. rewrite <- IH. unfold fits.
  destruct (Z.eqb_spec x c), (Z.eqb_spec c 46); cbn; intuition (congruence || done).
Qed.

Lemma items_single c re1 :
  (forall re2, re1 <> 42 :: re2) ->
  items (c :: re1) = if (c =? 36) && bool_decide (re1 = []) then ([], true)
                     else (One c :: (items re1).1, (items re1).2).
Proof.
  intros Hn. destruct re1 as [|d re2]; [done|].
  change (items (c :: d :: re2)) with
    (if d =? 42 then (Star c :: (items re2).1, (items re2).2)
     else if (c =? 36) && bool_decide (d :: re2 = []) then ([], true)
          else (One c :: (items (d :: re2)).1, (items (d :: re2)).2)).
  destruct (Z.eqb_spec d 42) as [->|]; [by destruct (Hn re2)|done].
Qed.

Lemma matchhere_single c re1 text :
  (forall re2, re1 <> 42 :: re2) ->
  matchhere (c :: re1) text =
    if (c =? 36) && bool_decide (re1 = []) then bool_decide (text = [])
    else match text with
         | [] => false
         | x :: text => if (c =? 46) || (c =? x) then matchhere re1 text else false
         end.
Proof.
  intros Hn. destruct re1 as [|d re2]; [done|].
  change (matchhere (c :: d :: re2) text) with
    (if d =? 42 then matchstar (matchhere re2) c text
     else if (c =? 36) && bool_decide (d :: re2 = []) then bool_decide (text = [])
          else match text with
               | [] => false
               | x :: text => if (c =? 46) || (c =? x) then matchhere (d :: re2) text else false
               end).
  destruct (Z.eqb_spec d 42) as [->|]; [by destruct (Hn re2)|done].
Qed.

Lemma starts_end text : starts ([], true) text <-> text = [].
Proof.
  split.
  - intros (mid & post & -> & Hd & Hb). cbn in *. inversion Hd; subst. by rewrite Hb.
  - intros ->. exists [], []. split_and!; [done|constructor|done].
Qed.

Lemma matchhere_spec_n n re text :
  (length re <= n)%nat -> matchhere re text = true <-> starts (items re) text.
Proof.
  revert re text. induction n as [|n IH]; intros [|c re1] text Hn; cbn in Hn; try lia.
  1,2: split; [intros _; exists [], text; split_and!; [done|constructor|done]|done].
  assert ((exists re2, re1 = 42 :: re2) \/ forall re2, re1 <> 42 :: re2) as [[re2 ->]|Hne].
  { destruct re1 as [|d re2]; [by right|]. destruct (decide (d = 42)) as [->|]; [eauto|right; congruence]. }
  - cbn [matchhere items]. rewrite Z.eqb_refl. cbn in Hn.
    apply matchstar_spec. intros t. rewrite IH by lia. by destruct (items re2).
  - rewrite matchhere_single, items_single by done.
    destruct ((c =? 36) && bool_decide (re1 = [])); [by rewrite bool_decide_eq_true, starts_end|].
    rewrite starts_one. destruct text as [|x text]; [done|].
    specialize (IH re1 text ltac:(lia)). destruct (items re1). cbn [fst snd].
    rewrite <- IH. unfold fits.
    destruct (Z.eqb_spec c 46), (Z.eqb_spec c x); cbn; intuition (congruence || done).
Qed.

Lemma matchhere_spec re text : matchhere re text = true <-> starts (items re) text.
Proof. by apply (matchhere_spec_n (length re)). Qed.

Lemma match_loop_spec re text :
  match_loop re text = true <-> exists pre rest, text = pre ++ rest /\ starts (items re) rest.
Proof.
  induction text as [|x text IH]; cbn [match_loop]; rewrite orb_true_iff, matchhere_spec.
  - split; [intros [H|]; [by exists [], []|done]|].
    intros (pre & rest & He & H). symmetry in He. apply app_eq_nil in He as [-> ->]. by left.
  - rewrite IH. split.
    + intros [H|(pre & rest & -> & H)]; [by exists [], (x :: text)|by exists (x :: pre), rest].
    + intros ([|y pre] & rest & He & H); cbn in He.
      * left. by subst.
      * simplify_eq. right. eauto.
Qed.

(** C33: [match] of grep.c decides the language of the pattern: it returns 1
    exactly when some substring of the line (one at its start, for a pattern
    that begins with [^]; one that reaches its end, for a pattern that ends in
    [$]) is a sequence of the pattern's items, a character, [.], or either of
    them starred. *)
Theorem match_decides re text : matchre re text = true <-> occurs re text.
Proof.
  unfold occurs, body, anchored. destruct re as [|c re]; cbn [matchre head tail].
  - rewrite match_loop_spec. rewrite bool_decide_eq_false_2 by done. naive_solver.
  - destruct (Z.eqb_spec c 94) as [->|].
    + rewrite bool_decide_eq_true_2, matchhere_spec by done. split.
      * intros. by exists [], text.
      * intros (pre & rest & -> & H & ->); done.
    + rewrite bool_decide_eq_false_2 by congruence. rewrite match_loop_spec. naive_solver.
Qed.

(** ** The filter prints the matching lines

    [fd] gives a stream in pieces of any size, an empty one only at its end,
    and descriptor 1 takes what is written to it. *)

Class Stream {S} (sys : os S) (fd : Z) (inp out : S -> list Z) := {
  stream_read s n : 0 < n -> exists s' data,
    os_read sys fd n s = URet s' (Z.of_nat (length data), data) /\ Z.of_nat (length data) <= n /\
    inp s = data ++ inp s' /\ (data = [] -> inp s = []) /\ out s' = out s;
  stream_write s bs : exists s',
    os_write sys 1 bs s = URet s' (Z.of_nat (length bs)) /\ out s' = out s ++ bs /\ inp s' = inp s }.

Definition unlines (ls : list (list Z)) (tl : list Z) : list Z := concat ((fun l => l ++ [10]) <$> ls) ++ tl.

(** A line that fits in [buf] with its newline and the NUL. *)
Definition short_line (l : list Z) : Prop := 10 ∉ l /\ 0 ∉ l /\ (length l < 1023)%nat.

Definition grepped (pattern : list Z) (ls : list (list Z)) : list Z :=
  unlines (filter (fun l => matchre pattern l = true) ls) [].

Lemma unlines_cons l ls tl : unlines (l :: ls) tl = l ++ 10 :: unlines ls tl.
Proof. unfold unlines. cbn. by rewrite <- !app_assoc. Qed.

Lemma unlines_app ls1 ls2 tl : unlines (ls1 ++ ls2) tl = unlines ls1 [] ++ unlines ls2 tl.
Proof. unfold unlines. by rewrite fmap_app, concat_app, app_nil_r, app_assoc. Qed.

Lemma grepped_cons pattern l ls :
  grepped pattern (l :: ls) = (if matchre pattern l then l ++ [10] else []) ++ grepped pattern ls.
Proof.
  unfold grepped. rewrite filter_cons. destruct (matchre pattern l).
  - rewrite decide_True, unlines_cons by done. by rewrite <- app_assoc.
  - by rewrite decide_False.
Qed.

Lemma grepped_app pattern ls1 ls2 : grepped pattern (ls1 ++ ls2) = grepped pattern ls1 ++ grepped pattern ls2.
Proof. unfold grepped. by rewrite filter_app, unlines_app. Qed.

Lemma strchr_none s c : c ∉ s -> ulib.strchr s c = None.
Proof.
  induction s as [|d s IH]; intros Hn; cbn; [done|].
  apply not_elem_of_cons in Hn as [Hd Hs]. destruct (d =? 0); [done|].
  rewrite (proj2 (Z.eqb_neq d c)) by congruence. by apply IH.
Qed.

Lemma strchr_app l c s : c <> 0 -> c ∉ l -> 0 ∉ l -> ulib.strchr (l ++ c :: s) c = Some (c :: s).
Proof.
  intros Hc. induction l as [|d l IH]; intros Hn H0; cbn.
  - by rewrite (proj2 (Z.eqb_neq c 0)), Z.eqb_refl by done.
  - apply not_elem_of_cons in Hn as [Hd Hs], H0 as [Hd0 Hs0].
    rewrite (proj2 (Z.eqb_neq d 0)), (proj2 (Z.eqb_neq d c)) by congruence. by apply IH.
Qed.

Lemma short_prefix b r : short_line (b ++ r) -> short_line b.
Proof. intros (? & ? & Hl). rewrite length_app in Hl. split_and!; [set_solver|set_solver|lia]. Qed.

(** A piece of a line and more is all of the line, or the piece is in it. *)
Lemma app_cut (b r l m : list Z) c :
  b ++ r = l ++ c :: m -> (exists b', b = l ++ c :: b' /\ b' ++ r = m) \/ (exists l', l = b ++ l').
Proof.
  revert l. induction b as [|x b IH]; intros [|y l] He; cbn in He.
  - right. by exists [].
  - right. by exists (y :: l).
  - left. exists b. by simplify_eq.
  - injection He as -> He. destruct (IH l He) as [(b' & -> & <-)|(l' & ->)]; [left; by exists b'|right; by exists l'].
Qed.

Section filter.
Context {S : Type} {sys : os S} {fd : Z} {inp out : S -> list Z} `{!Stream sys fd inp out}.

Lemma write_matching pattern l s :
  exists s', uwhen (matchre pattern l) (os_write sys 1 (l ++ [10]);; mret tt) s = URet s' tt /\
    inp s' = inp s /\ out s' = out s ++ (if matchre pattern l then l ++ [10] else []).
Proof.
  destruct (matchre pattern l); cbn.
  - destruct (stream_write s (l ++ [10])) as (s' & Hw & Ho & Hi).
    exists s'. by rewrite ubind_run, Hw.
  - exists s. by rewrite app_nil_r.
Qed.

Lemma grep_lines_run pattern tl rest k ls b s :
  Forall short_line (tl :: ls) -> b ++ rest = unlines ls tl -> (length b < k)%nat ->
  exists s' ls1 ls2 h, grep_lines sys pattern b k s = URet s' h /\ ls = ls1 ++ ls2 /\
    h ++ rest = unlines ls2 tl /\ short_line h /\ inp s' = inp s /\ out s' = out s ++ grepped pattern ls1.
Proof.
  revert k b s. induction ls as [|l ls IH]; intros [|k] b s Hs He Hk; try lia.
  - apply Forall_cons in Hs as [Ht _]. exists s, [], [], b. cbn in He.
    assert (short_line b) as Hb.
    { eapply short_prefix. unfold unlines in He. cbn in He. by rewrite He. }
    cbn [grep_lines]. rewrite strchr_none by apply Hb. split_and!; try done. symmetry. apply app_nil_r.
  - apply Forall_cons in Hs as [Ht [Hl Hs]%Forall_cons]. rewrite unlines_cons in He.
    destruct (app_cut _ _ _ _ _ He) as [(b' & -> & Hb')|(l' & ->)].
    + rewrite length_app in Hk. cbn in Hk. cbn [grep_lines].
      destruct Hl as (Hn & H0 & _). rewrite strchr_app by done.
      rewrite length_app, Nat.add_sub, take_app_length. cbn [tail].
      destruct (write_matching pattern l s) as (s1 & Hw & Hi1 & Ho1).
      destruct (IH k b' s1 ltac:(by constructor) Hb' ltac:(lia)) as (s' & ls1 & ls2 & h & Hr & -> & Hh & Hsh & Hi & Ho).
      exists s', (l :: ls1), ls2, h. rewrite ubind_run, Hw. cbn [ubind_res].
      split_and!; [done|done|done|done|congruence|]. by rewrite Ho, Ho1, grepped_cons, app_assoc.
    + exists s, [], ((b ++ l') :: ls), b. apply short_prefix in Hl as Hb.
      cbn [grep_lines]. rewrite strchr_none by apply Hb. rewrite unlines_cons.
      split_and!; try done. symmetry. apply app_nil_r.
Qed.

Lemma grep_loop_run pattern tl k ls held s :
  Forall short_line (tl :: ls) -> held ++ inp s = unlines ls tl -> short_line held ->
  (length (inp s) < k)%nat ->
  exists s', grep_loop sys pattern fd held k s = URet s' tt /\ inp s' = [] /\ out s' = out s ++ grepped pattern ls.
Proof.
  revert ls held s. induction k as [|k IH]; intros ls held s Hs He Hh Hk; [lia|].
  destruct Hh as (Hh10 & Hh0 & Hhl). cbn [grep_loop].
  destruct (stream_read s (1024 - Z.of_nat (length held) - 1)) as (s1 & data & Hr & Hn & Hi & Hend & Ho); [lia|].
  rewrite ubind_run, Hr. cbn [ubind_res fst snd].
  destruct data as [|x data].
  - cbn. exists s1. specialize (Hend eq_refl). rewrite Hend in *. cbn in Hi.
    destruct ls as [|l ls]; [split_and!; [done|done|rewrite Ho; symmetry; apply app_nil_r]|].
    rewrite unlines_cons, app_nil_r in He. set_solver.
  - rewrite (proj2 (Z.ltb_lt 0 _)) by (cbn; lia). rewrite Nat2Z.id, firstn_all.
    set (b := held ++ x :: data) in *.
    destruct (grep_lines_run pattern tl (inp s1) (Datatypes.S (length b)) ls b s1)
      as (s2 & ls1 & ls2 & h & Hg & -> & Hh & Hsh & Hi2 & Ho2); [done| |lia|].
    { unfold b. by rewrite <- app_assoc, <- Hi. }
    rewrite ubind_run, Hg. cbn [ubind_res].
    destruct (IH ls2 h s2) as (s' & Hl & Hi' & Ho'); [| |done| |].
    + apply Forall_cons in Hs as [? [? ?]%Forall_app]. by constructor.
    + by rewrite Hi2.
    + rewrite Hi2. rewrite Hi, length_app in Hk. cbn in Hk. lia.
    + exists s'. rewrite Ho', Ho2, Ho, grepped_app, app_assoc. done.
Qed.

(** C34: The filter of grep.c: on an input whose lines fit in the buffer, in
    whatever pieces [read] delivers it, [grep] ends, has read all of it, and
    has written exactly the lines that match, in order; an unterminated last
    line is not printed. *)
Theorem grep_prints_matching pattern ls tl fuel s :
  Forall short_line (tl :: ls) -> inp s = unlines ls tl -> (length (inp s) < fuel)%nat ->
  exists s', grep sys fuel pattern fd s = URet s' tt /\ inp s' = [] /\ out s' = out s ++ grepped pattern ls.
Proof.
  intros Hs He Hk. apply (grep_loop_run pattern tl); try done.
  split_and!; [set_solver|set_solver|cbn; lia].
Qed.
End filter.

(** A stream that comes three bytes at a time. *)
Definition three_os : os (list Z * list Z) :=
  let no2 {A B} (_ : A) (_ : B) := mret (-1) in
  let no {A} (_ : A) := mret (-1) in
  Os _ (fun _ n s => let d := take (Z.to_nat (Z.min 3 n)) s.1 in
                     URet (drop (length d) s.1, s.2) (Z.of_nat (length d), d))
       (fun _ bs s => URet (s.1, s.2 ++ bs) (Z.of_nat (length bs)))
       no2 no no no2 (mret (-1)) (mret (-1, (0, 0))) no (fun _ => mret (-1, Ustat 0 0 0 0 0))
       (fun _ _ _ => mret (-1)) no no no2 no no no
       (fun _ => mret (-1, [])) (fun _ => mret (-1, [])) (fun _ => mret (-1, [])).

#[export] Instance three_stream : Stream three_os 0 fst snd.
Proof.
  split.
  - intros [i o] n Hn. eexists _, _. split_and!; [reflexivity| | | |done].
    + rewrite length_take. lia.
    + cbn. rewrite length_take, <- (take_drop (Z.to_nat (Z.min 3 n)) i) at 1. f_equal.
      destruct (Nat.le_ge_cases (Z.to_nat (Z.min 3 n)) (length i)); [by rewrite Nat.min_l|].
      by rewrite !drop_ge by lia.
    + cbn. destruct i as [|x i]; [done|]. destruct (Z.to_nat (Z.min 3 n)) eqn:?; [lia|done].
  - intros s bs. eexists. split_and!; reflexivity.
Qed.

Lemma grep_prints_matching_witness :
  exists s', grep three_os 20 (bytes "b.*d$") 0 (unlines [bytes "abcd"; bytes "bcde"; bytes "bd"] (bytes "d"), []) = URet s' tt /\
    s'.1 = [] /\ s'.2 = unlines [bytes "abcd"; bytes "bd"] [].
Proof.
  apply (grep_prints_matching (inp := fst) (out := snd) (bytes "b.*d$") [bytes "abcd"; bytes "bcde"; bytes "bd"] (bytes "d") 20).
  - unfold short_line. repeat (apply Forall_cons; split; [split_and!; [set_solver|set_solver|cbn; lia]|]). by apply Forall_nil.
  - reflexivity.
  - cbn. lia.
Defined.
