(* ===== verification/Uprogs.v ===== *)
(** * The small user programs

    cat, echo, wc, ls, ps, kill, ln, mkdir, rm, hello, init, zombie, forktest
    and stressfs over the system calls; [wc] and [cat] are proved right on
    streams that come in pieces of any size. *)

From S2P Require Import Prelude Mem Printf FsHdr Console Fs Proc Sysfile User Grep.

Definition newline : list Z := [10].

Section programs.
Context {S : Type} (sys : os S).

(** ** user/cat.c *)

(** Each read but the last gives at least a byte. *)
Fixpoint cat_loop (fd : Z) (k : nat) : U S Z :=
  match k with
  | O => more_fuel
  | Datatypes.S k =>
      r ← os_read sys fd 512;
      if 0 <? r.1 then
        w ← os_write sys 1 (take (Z.to_nat r.1) r.2);
        if negb (w =? r.1) then
          fprintf sys 2 (bytes "cat: write error" ++ newline) [];;
          exit 1
        else cat_loop fd k
      else mret r.1
  end.

Definition cat (fuel : nat) (fd : Z) : U S unit :=
  n ← cat_loop fd fuel;
  if n <? 0 then
    fprintf sys 2 (bytes "cat: read error" ++ newline) [];;
    exit 1
  else mret tt.

Fixpoint cat_files (fuel : nat) (argv : list (list Z)) : U S unit :=
  match argv with
  | [] => exit 0
  | a :: argv =>
      fd ← os_open sys a 0;
      if fd <? 0 then
        fprintf sys 2 (bytes "cat: cannot open %s" ++ newline) [UStr (Some a)];;
        exit 1
      else
        cat fuel fd;;
        os_close sys fd;;
        cat_files fuel argv
  end.

Definition cat_main (fuel : nat) (argv : list (list Z)) : U S unit :=
  match tail argv with
  | [] => cat fuel 0;; exit 0
  | files => cat_files fuel files
  end.

(** ** user/echo.c *)

Fixpoint echo_loop (argv : list (list Z)) : U S unit :=
  match argv with
  | [] => exit 0
  | a :: argv =>
      os_write sys 1 a;;
      os_write sys 1 (if bool_decide (argv = []) then newline else [32]);;
      echo_loop argv
  end.

Definition echo_main (argv : list (list Z)) : U S unit := echo_loop (tail argv).

(** ** user/wc.c *)

(** The [for] over a buffer: lines, words, characters, and whether the last
    character was in a word; the counters are [int]s. *)
Fixpoint wc_count (buf : list Z) (l w c : Z) (inword : bool) : Z * Z * Z * bool :=
  match buf with
  | [] => (l, w, c, inword)
  | x :: buf =>
      let c := s32 (c + 1) in
      let l := if x =? 10 then s32 (l + 1) else l in
      match ulib.strchr [32; 13; 9; 10; 11] x with
      | Some _ => wc_count buf l w c false
      | None => if inword then wc_count buf l w c true else wc_count buf l (s32 (w + 1)) c true
      end
  end.

Fixpoint wc_loop (fd l w c : Z) (inword : bool) (k : nat) : U S (Z * Z * Z * Z) :=
  match k with
  | O => more_fuel
  | Datatypes.S k =>
      r ← os_read sys fd 512;
      if 0 <? r.1 then
        let '(l, w, c, inword) := wc_count (take (Z.to_nat r.1) r.2) l w c inword in
        wc_loop fd l w c inword k
      else mret (l, w, c, r.1)
  end.

Definition wc (fuel : nat) (fd : Z) (name : list Z) : U S unit :=
  r ← wc_loop fd 0 0 0 false fuel;
  let '(l, w, c, n) := r in
  if n <? 0 then
    uprintf sys (bytes "wc: read error" ++ newline) [];;
    exit 1
  else uprintf sys (bytes "%d %d %d %s" ++ newline) [UInt l; UInt w; UInt c; UStr (Some name)].

Fixpoint wc_files (fuel : nat) (argv : list (list Z)) : U S unit :=
  match argv with
  | [] => exit 0
  | a :: argv =>
      fd ← os_open sys a 0;
      if fd <? 0 then
        uprintf sys (bytes "wc: cannot open %s" ++ newline) [UStr (Some a)];;
        exit 1
      else
        wc fuel fd a;;
        os_close sys fd;;
        wc_files fuel argv
  end.

Definition wc_main (fuel : nat) (argv : list (list Z)) : U S unit :=
  match tail argv with
  | [] => wc fuel 0 [];; exit 0
  | files => wc_files fuel files
  end.

(** ** user/ls.c *)

(** The loop that walks back from the NUL to the last slash. *)
Fixpoint last_elem (path got : list Z) : list Z :=
  match path with
  | [] => got
  | c :: path => last_elem path (if c =? 47 then path else got)
  end.

Definition fmtname (path : list Z) : list Z :=
  let p := last_elem path path in
  if DIRSIZ <=? ulib.strlen p then p else p ++ replicate (Z.to_nat (DIRSIZ - ulib.strlen p)) 32.

Fixpoint ls_entries (fd : Z) (path : list Z) (k : nat) : U S unit :=
  match k with
  | O => more_fuel
  | Datatypes.S k =>
      r ← os_read sys fd DIRENT_SIZE;
      if r.1 =? DIRENT_SIZE then
        let inum := nth 0 r.2 0 + 256 * nth 1 r.2 0 in
        if inum =? 0 then ls_entries fd path k
        else
          let buf := path ++ 47 :: cstring (take (Z.to_nat DIRSIZ) (drop 2 r.2)) in
          st ← stat sys buf;
          if st.1 <? 0 then
            uprintf sys (bytes "ls: cannot stat %s" ++ newline) [UStr (Some buf)];;
            ls_entries fd path k
          else
            uprintf sys (bytes "%s %d %d %d" ++ newline)
              [UStr (Some (fmtname buf)); UInt (us_type st.2); UInt (us_ino st.2); UInt (us_size st.2)];;
            ls_entries fd path k
      else mret tt
  end.

Definition ls (fuel : nat) (path : list Z) : U S unit :=
  fd ← os_open sys path 0;
  if fd <? 0 then fprintf sys 2 (bytes "ls: cannot open %s" ++ newline) [UStr (Some path)]
  else
    st ← os_fstat sys fd;
    if st.1 <? 0 then
      fprintf sys 2 (bytes "ls: cannot stat %s" ++ newline) [UStr (Some path)];;
      os_close sys fd;;
      mret tt
    else
      (if (us_type st.2 =? T_DEVICE) || (us_type st.2 =? T_FILE) then
         uprintf sys (bytes "%s %d %d %l" ++ newline)
           [UStr (Some (fmtname path)); UInt (us_type st.2); UInt (us_ino st.2); UInt (us_size st.2)]
       else if us_type st.2 =? T_DIR then
         if 512 <? ulib.strlen path + 1 + DIRSIZ + 1 then uprintf sys (bytes "ls: path too long" ++ newline) []
         else ls_entries fd path fuel
       else mret tt);;
      os_close sys fd;;
      mret tt.

Fixpoint ls_paths (fuel : nat) (argv : list (list Z)) : U S unit :=
  match argv with
  | [] => exit 0
  | a :: argv => ls fuel a;; ls_paths fuel argv
  end.

Definition ls_main (fuel : nat) (argv : list (list Z)) : U S unit :=
  match tail argv with
  | [] => ls fuel (bytes ".");; exit 0
  | paths => ls_paths fuel paths
  end.
End programs.

(** ** user/ps.c *)

Definition string_state_to_int (stateStr : list Z) : Z :=
  if ulib.strcmp stateStr (bytes "UNUSED") =? 0 then 0
  else if ulib.strcmp stateStr (bytes "USED") =? 0 then 1
  else if ulib.strcmp stateStr (bytes "SLEEPING") =? 0 then 2
  else if ulib.strcmp stateStr (bytes "RUNNABLE") =? 0 then 3
  else if ulib.strcmp stateStr (bytes "RUNNING") =? 0 then 4
  else if ulib.strcmp stateStr (bytes "ZOMBIE") =? 0 then 5
  else -1.

Section programs2.
Context {S : Type} (sys : os S).

(** [pids] is what is left of [pid_array]; [n] is [num_pids - i]. *)
Fixpoint ps_loop (pids : list Z) (n : nat) : U S unit :=
  match n with
  | O => exit 0
  | Datatypes.S n =>
      let pid := nth 0 pids 0 in
      stateStr ← os_state sys pid;
      nameStr ← os_procname sys pid;
      uprintf sys (bytes "%s ") [UStr (Some nameStr.2)];;
      uprintf sys (bytes "(%d):") [UInt pid];;
      uprintf sys (bytes " %d" ++ newline) [UInt (string_state_to_int stateStr.2)];;
      ps_loop (tail pids) n
  end.

Definition ps_main : U S unit :=
  r ← os_year sys 100;
  let num_pids := s32 r.1 in
  if num_pids <? 0 then
    uprintf sys (bytes "Error in sys_year" ++ newline) [];;
    exit 0
  else ps_loop r.2 (Z.to_nat num_pids).

(** ** user/kill.c, ln.c, mkdir.c, rm.c *)

Fixpoint kill_loop (argv : list (list Z)) : U S unit :=
  match argv with
  | [] => exit 0
  | a :: argv => os_kill sys (ulib.atoi a);; kill_loop argv
  end.

Definition kill_main (argv : list (list Z)) : U S unit :=
  match tail argv with
  | [] => fprintf sys 2 (bytes "usage: kill pid..." ++ newline) [];; exit 1
  | pids => kill_loop pids
  end.

Definition ln_main (argv : list (list Z)) : U S unit :=
  match argv with
  | [_; old; new] =>
      r ← os_link sys old new;
      uwhen (r <? 0) (fprintf sys 2 (bytes "link %s %s: failed" ++ newline) [UStr (Some old); UStr (Some new)]);;
      exit 0
  | _ => fprintf sys 2 (bytes "Usage: ln old new" ++ newline) [];; exit 1
  end.

Fixpoint mkdir_loop (argv : list (list Z)) : U S unit :=
  match argv with
  | [] => exit 0
  | a :: argv =>
      r ← os_mkdir sys a;
      if r <? 0 then fprintf sys 2 (bytes "mkdir: %s failed to create" ++ newline) [UStr (Some a)];; exit 0
      else mkdir_loop argv
  end.

Definition mkdir_main (argv : list (list Z)) : U S unit :=
  match tail argv with
  | [] => fprintf sys 2 (bytes "Usage: mkdir files..." ++ newline) [];; exit 1
  | files => mkdir_loop files
  end.

Fixpoint rm_loop (argv : list (list Z)) : U S unit :=
  match argv with
  | [] => exit 0
  | a :: argv =>
      r ← os_unlink sys a;
      if r <? 0 then fprintf sys 2 (bytes "rm: %s failed to delete" ++ newline) [UStr (Some a)];; exit 0
      else rm_loop argv
  end.

Definition rm_main (argv : list (list Z)) : U S unit :=
  match tail argv with
  | [] => fprintf sys 2 (bytes "Usage: rm files..." ++ newline) [];; exit 1
  | files => rm_loop files
  end.

(** ** user/hello.c, with [_main] of ulib.c, which ignores what [main] returns *)

Definition hello_main (argv : list (list Z)) : U S unit :=
  match tail argv with
  | [] => uprintf sys (bytes "Hello World" ++ newline) []
  | a :: _ => uprintf sys (newline ++ bytes "Hello %s, nice to meet you!" ++ newline) [UStr (Some a)]
  end;;
  exit 0.

(** ** user/init.c *)

(** The inner loop: wait until the shell [pid] has exited. *)
Fixpoint init_wait (pid : Z) (k : nat) : U S unit :=
  match k with
  | O => more_fuel
  | Datatypes.S k =>
      wpid ← os_wait sys;
      if wpid =? pid then mret tt
      else if wpid <? 0 then uprintf sys (bytes "init: wait returned an error" ++ newline) [];; exit 1
      else init_wait pid k
  end.

Fixpoint init_loop (k : nat) : U S unit :=
  match k with
  | O => more_fuel
  | Datatypes.S k =>
      uprintf sys (bytes "init: starting sh" ++ newline) [];;
      pid ← os_fork sys (os_exec sys (bytes "sh") [bytes "sh"];;
                         uprintf sys (bytes "init: exec sh failed" ++ newline) [];;
                         exit 1);
      if pid <? 0 then uprintf sys (bytes "init: fork failed" ++ newline) [];; exit 1
      else init_wait pid k;; init_loop k
  end.

Definition init_main (fuel : nat) : U S unit :=
  fd ← os_open sys (bytes "console") O_RDWR;
  uwhen (fd <? 0) (os_mknod sys (bytes "console") CONSOLE 0;; os_open sys (bytes "console") O_RDWR;; mret tt);;
  os_dup sys 0;;
  os_dup sys 0;;
  init_loop fuel.

(** ** user/zombie.c *)

Definition zombie_main : U S unit :=
  pid ← os_fork sys (exit 0);
  uwhen (0 <? pid) (os_sleep sys 5;; mret tt);;
  exit 0.

(** ** user/forktest.c *)

Definition print (s : list Z) : U S unit := os_write sys 1 s;; mret tt.

(** The number of successful forks, out of at most [k]. *)
Fixpoint forktest_fork (n : Z) (k : nat) : U S Z :=
  match k with
  | O => mret n
  | Datatypes.S k =>
      pid ← os_fork sys (exit 0);
      if pid <? 0 then mret n else forktest_fork (n + 1) k
  end.

Fixpoint forktest_wait (n : nat) : U S unit :=
  match n with
  | O => mret tt
  | Datatypes.S n =>
      r ← os_wait sys;
      if r <? 0 then print (bytes "wait stopped early" ++ newline);; exit 1 else forktest_wait n
  end.

Definition forktest : U S unit :=
  print (bytes "fork test" ++ newline);;
  n ← forktest_fork 0 (Z.to_nat 1000);
  if n =? 1000 then
    print (bytes "fork claimed to work N times!" ++ newline);;
    exit 1
  else
    forktest_wait (Z.to_nat n);;
    r ← os_wait sys;
    if negb (r =? -1) then
      print (bytes "wait got too many" ++ newline);;
      exit 1
    else print (bytes "fork test OK" ++ newline).

Definition forktest_main : U S unit := forktest;; exit 0.

(** ** user/stressfs.c *)

Fixpoint stress_writes (fd : Z) (data : list Z) (n : nat) : U S unit :=
  match n with
  | O => mret tt
  | Datatypes.S n => os_write sys fd data;; stress_writes fd data n
  end.

Fixpoint stress_reads (fd : Z) (n : nat) : U S unit :=
  match n with
  | O => mret tt
  | Datatypes.S n => os_read sys fd 512;; stress_reads fd n
  end.

(** What each process does with its number. *)
Definition stress_body (i : Z) : U S unit :=
  uprintf sys (bytes "write %d" ++ newline) [UInt i];;
  let path := bytes "stressfs" ++ [48 + i] in
  fd ← os_open sys path (Z.lor O_CREATE O_RDWR);
  stress_writes fd (replicate (Z.to_nat 512) 97) 20;;
  os_close sys fd;;
  uprintf sys (bytes "read" ++ newline) [];;
  fd ← os_open sys path O_RDONLY;
  stress_reads fd 20;;
  os_close sys fd;;
  os_wait sys;;
  exit 0.

(** The loop of forks: the child goes on with it. *)
Fixpoint stress_forks (i : Z) (k : nat) : U S unit :=
  match k with
  | O => stress_body i
  | Datatypes.S k =>
      pid ← os_fork sys (stress_forks (i + 1) k);
      if 0 <? pid then stress_body i else stress_forks (i + 1) k
  end.

Definition stressfs_main : U S unit :=
  uprintf sys (bytes "stressfs starting" ++ newline) [];;
  stress_forks 0 4.
End programs2.

(** ** [ps] undoes what the kernel prints for a state *)

Lemma ps_state st :
  string_state_to_int (bytes (procstate2str st)) =
    match st with UNUSED => 0 | USED => 1 | SLEEPING => 2 | RUNNABLE => 3 | RUNNING => 4 | ZOMBIE => 5 end.
Proof. by destruct st. Qed.

(** ** [wc] counts *)

Definition blank (c : Z) : bool := bool_decide (c ∈ [32; 13; 9; 10; 11]).

(** The words of a text. *)
Fixpoint split_words (l : list Z) : list (list Z) :=
  match l with
  | [] => []
  | x :: l =>
      if blank x then split_words l
      else match l with
           | [] => [[x]]
           | y :: _ =>
               if blank y then [x] :: split_words l
               else match split_words l with
                    | w :: ws => (x :: w) :: ws
                    | [] => [[x]]
                    end
           end
  end.

Definition count_lines (l : list Z) : nat := length (filter (fun c => c = 10) l).

(** A word that begins before the text is not counted again. *)
Definition goes_on (inword : bool) (l : list Z) : Z :=
  match l with x :: _ => if inword && negb (blank x) then 1 else 0 | [] => 0 end.

Definition ends_in (inword : bool) (l : list Z) : bool :=
  match last l with Some x => negb (blank x) | None => inword end.

Lemma split_words_cons x l :
  blank x = false -> Z.of_nat (length (split_words (x :: l))) = Z.of_nat (length (split_words l)) + 1 - goes_on true l.
Proof.
  intros Hx. cbn [split_words]. rewrite Hx. destruct l as [|y l]; [done|]. unfold goes_on. cbn [andb].
  destruct (blank y) eqn:Hy; [cbn [length negb]; lia|]. cbn [negb].
  destruct (split_words (y :: l)) eqn:Hs; [|cbn [length]; lia].
  exfalso. cbn [split_words] in Hs. rewrite Hy in Hs.
  destruct l as [|z l]; [done|]. destruct (blank z); [done|]. by destruct (split_words (z :: l)).
Qed.

Lemma blank_strchr x :
  match ulib.strchr [32; 13; 9; 10; 11] x with Some _ => true | None => false end = blank x.
Proof.
  apply strchr_In. set_solver.
Qed.

Lemma quad_eq {A} (a b c a' b' c' : Z) (d d' : A) : a = a' -> b = b' -> c = c' -> d = d' -> (a, b, c, d) = (a', b', c', d').
Proof. by intros -> -> -> ->. Qed.

Lemma wc_count_spec buf l w c inword :
  0 <= l -> 0 <= w -> 0 <= c ->
  l + Z.of_nat (length buf) < 2 ^ 31 -> w + Z.of_nat (length buf) < 2 ^ 31 -> c + Z.of_nat (length buf) < 2 ^ 31 ->
  wc_count buf l w c inword =
    (l + Z.of_nat (count_lines buf), w + Z.of_nat (length (split_words buf)) - goes_on inword buf,
     c + Z.of_nat (length buf), ends_in inword buf).
Proof.
  revert l w c inword. induction buf as [|x buf IH]; intros l w c inword Hl Hw Hc Hlb Hwb Hcb.
  { cbn. apply quad_eq; [lia|lia|lia|done]. }
  assert (ends_in inword (x :: buf) = ends_in (negb (blank x)) buf) as Hend.
  { unfold ends_in. rewrite last_cons. by destruct (last buf). }
  assert (Z.of_nat (count_lines (x :: buf)) = Z.of_nat (count_lines buf) + (if x =? 10 then 1 else 0)) as Hcl.
  { unfold count_lines. rewrite filter_cons. destruct (Z.eqb_spec x 10); [rewrite decide_True by done|rewrite decide_False by done]; cbn [length]; lia. }
  cbn [wc_count]. pose proof (blank_strchr x) as Hbl. cbn [length] in *. rewrite Hend, Hcl.
  assert (s32 (c + 1) = c + 1) as -> by (apply s32_small; lia).
  assert ((if x =? 10 then s32 (l + 1) else l) = l + (if x =? 10 then 1 else 0)) as ->.
  { destruct (x =? 10); [apply s32_small|]; lia. }
  destruct (ulib.strchr _ x) eqn:Hs; rewrite <- Hbl in Hend |- *; unfold goes_on at 1; rewrite <- Hbl; cbn [negb andb].
  - rewrite IH by (destruct (x =? 10); lia). rewrite andb_false_r.
    assert (length (split_words (x :: buf)) = length (split_words buf)) as -> by (cbn [split_words]; by rewrite <- Hbl).
    assert (goes_on false buf = 0) as -> by by destruct buf.
    apply quad_eq; [lia|lia|lia|done].
  - rewrite andb_true_r. pose proof (split_words_cons x buf (eq_sym Hbl)) as Hsw.
    destruct inword; [|rewrite s32_small by lia]; rewrite IH by (destruct (x =? 10); lia); (apply quad_eq; [lia| |lia|done]);
      destruct buf; cbn [goes_on andb] in *; lia.
Qed.

Lemma wc_count_app a b l w c i :
  wc_count (a ++ b) l w c i = let '(l, w, c, i) := wc_count a l w c i in wc_count b l w c i.
Proof.
  revert l w c i. induction a as [|x a IH]; intros l w c i; [done|]. cbn [app wc_count].
  destruct (ulib.strchr _ x); [|destruct i]; apply IH.
Qed.

Section streams.
Context {S : Type} {sys : os S} {fd : Z} {inp out : S -> list Z} `{!Stream sys fd inp out}.

Lemma wc_loop_run k l w c i s :
  (length (inp s) < k)%nat ->
  exists s', wc_loop sys fd l w c i k s =
      (let '(l, w, c, _) := wc_count (inp s) l w c i in URet s' (l, w, c, 0)) /\
    inp s' = [] /\ out s' = out s.
Proof.
  revert l w c i s. induction k as [|k IH]; intros l w c i s Hk; [lia|]. cbn [wc_loop].
  destruct (stream_read s 512) as (s1 & data & Hr & _ & Hi & Hend & Ho); [lia|].
  rewrite ubind_run, Hr. cbn [ubind_res fst snd]. rewrite Hi, wc_count_app.
  destruct data as [|x data].
  - cbn. specialize (Hend eq_refl). rewrite Hi in Hend. cbn in Hend. rewrite Hend. exists s1. done.
  - rewrite (proj2 (Z.ltb_lt 0 _)) by (cbn; lia). rewrite Nat2Z.id, firstn_all.
    destruct (wc_count (x :: data) l w c i) as [[[l1 w1] c1] i1].
    destruct (IH l1 w1 c1 i1 s1) as (s' & Hl & Hi' & Ho').
    { rewrite Hi, length_app in Hk. cbn in Hk. lia. }
    exists s'. rewrite Ho', Ho. done.
Qed.

(** [wc] counts right: whatever the sizes of the reads, a word that spans
    two of them included, the numbers it prints are those of the newlines, of
    the words and of the characters of the input, as long as an [int] can hold
    them. *)
Theorem wc_counts fuel s :
  Z.of_nat (length (inp s)) < 2 ^ 31 -> (length (inp s) < fuel)%nat ->
  exists s', wc_loop sys fd 0 0 0 false fuel s =
      URet s' (Z.of_nat (count_lines (inp s)), Z.of_nat (length (split_words (inp s))), Z.of_nat (length (inp s)), 0) /\
    inp s' = [] /\ out s' = out s.
Proof.
  intros Hlen Hk. destruct (wc_loop_run fuel 0 0 0 false s Hk) as (s' & Hr & Hi & Ho).
  exists s'. split; [|done]. rewrite Hr, wc_count_spec by lia.
  assert (goes_on false (inp s) = 0) as -> by (by destruct (inp s)). by rewrite Z.sub_0_r, !Z.add_0_l.
Qed.

Lemma cat_loop_run k s :
  (length (inp s) < k)%nat ->
  exists s', cat_loop sys fd k s = URet s' 0 /\ inp s' = [] /\ out s' = out s ++ inp s.
Proof.
  revert s. induction k as [|k IH]; intros s Hk; [lia|]. cbn [cat_loop].
  destruct (stream_read s 512) as (s1 & data & Hr & _ & Hi & Hend & Ho); [lia|].
  rewrite ubind_run, Hr. cbn [ubind_res fst snd]. destruct data as [|x data].
  - rewrite (proj2 (Z.ltb_ge 0 _)) by (cbn; lia). specialize (Hend eq_refl).
    rewrite Hend, app_nil_r. rewrite Hi in Hend. exists s1. done.
  - rewrite (proj2 (Z.ltb_lt 0 _)) by (cbn; lia). rewrite Nat2Z.id, firstn_all.
    destruct (stream_write s1 (x :: data)) as (s2 & Hw & Ho2 & Hi2).
    rewrite ubind_run, Hw. cbn [ubind_res]. rewrite Z.eqb_refl. cbn [negb].
    destruct (IH s2) as (s' & Hl & Hi' & Ho').
    { rewrite Hi2. rewrite Hi, length_app in Hk. cbn in Hk. lia. }
    exists s'. split_and!; [done|done|]. by rewrite Ho', Ho2, Ho, Hi2, Hi, app_assoc.
Qed.

(** [cat] copies the whole stream. *)
Lemma cat_copies fuel s :
  (length (inp s) < fuel)%nat ->
  exists s', cat sys fuel fd s = URet s' tt /\ inp s' = [] /\ out s' = out s ++ inp s.
Proof.
  intros Hk. destruct (cat_loop_run fuel s Hk) as (s' & Hl & Hi & Ho). exists s'.
  unfold cat. rewrite ubind_run, Hl. done.
Qed.
End streams.

Lemma wc_counts_witness :
  exists s', wc_loop three_os 0 0 0 0 false 30 (bytes "one  two" ++ [10] ++ bytes "three" ++ [10], []) = URet s' (2, 3, 15, 0) /\
    s'.1 = [] /\ s'.2 = [].
Proof.
  apply (wc_counts (inp := fst) (out := snd) 30 (bytes "one  two" ++ [10] ++ bytes "three" ++ [10], [])); cbn; lia.
Defined.
