(* ===== verification/Grind.v ===== *)
(** * user/grind.c: random system calls

    The random number generator, the 22 kinds of operations that [go] chooses from, and
    the processes that run them, over the system calls of file User.  [sbrk], [getpid]
    and the status that [wait] stores are given here; [junk] is the value of a local
    variable that is not initialised. *)

From S2P Require Import Prelude Printf Sysfile User.

(** ** The generator *)

(** [unsigned long *ctx]; [hi], [lo] and [x] are [long].  The new context and the result. *)
Definition do_rand (ctx : Z) : Z * Z :=
  let x := s64 (u64 (ctx mod 0x7ffffffe + 1)) in
  let hi := Z.quot x 127773 in
  let lo := Z.rem x 127773 in
  let x := s64 (s64 (16807 * lo) - s64 (2836 * hi)) in
  let x := if x <? 0 then s64 (x + 0x7fffffff) else x in
  let x := s64 (x - 1) in
  (u64 x, s32 x).

Definition rand (rand_next : Z) : Z * Z := do_rand rand_next.

(** ** The operations *)

Section grind.
Context {S : Type} (sys : os S).
Variable sbrk : Z -> U S Z.
Variable getpid : U S Z.
(** [wait(&st)], with the value of [st] before the call. *)
Variable wait_status : Z -> U S (Z * Z).
Variable junk : Z.

Abbreviation path s := (bytes s).
Definition O_NEW : Z := Z.lor O_CREATE O_RDWR.

(** [printf(s); exit(st)], and the same on standard error. *)
Definition fail {A} (msg : string) (st : Z) : U S A := uprintf sys (bytes msg ++ [10]) [];; exit st.
Definition efail {A} (msg : string) (st : Z) : U S A := fprintf sys 2 (bytes msg ++ [10]) [];; exit st.

Definition open_close (p : list Z) : U S unit :=
  fd ← os_open sys p O_NEW;
  os_close sys fd;;
  mret tt.

(** [int pid = fork(); if(pid == 0){ child } else if(pid < 0){ fail }] *)
Definition fork_or_fail (child : U S unit) : U S Z :=
  pid ← os_fork sys child;
  if pid <? 0 then fail "grind: fork failed" 1 else mret pid.

(** [fork();], after which both processes go on with [k]. *)
Definition fork_both (k : U S unit) : U S unit := os_fork sys k;; k.

Definition go_16 (break0 : Z) : U S unit :=
  b ← sbrk 0;
  uwhen (break0 <? b) (b ← sbrk 0; sbrk (s32 (- (b - break0)));; mret tt).

Definition go_17 : U S unit :=
  pid ← fork_or_fail (open_close (path "a");; exit 0);
  r ← os_chdir sys (path "../grindir/..");
  if negb (r =? 0) then fail "grind: chdir failed" 1
  else os_kill sys pid;; os_wait sys;; mret tt.

Definition go_19 : U S unit :=
  r ← os_pipe sys;
  if r.1 <? 0 then fail "grind: pipe failed" 1
  else
    let fds := r.2 in
    fork_or_fail (fork_both (fork_both (
      w ← os_write sys fds.2 (bytes "x");
      uwhen (negb (w =? 1)) (uprintf sys (bytes "grind: pipe write failed" ++ [10]) []);;
      n ← os_read sys fds.1 1;
      uwhen (negb (n.1 =? 1)) (uprintf sys (bytes "grind: pipe read failed" ++ [10]) []);;
      exit 0)));;
    os_close sys fds.1;;
    os_close sys fds.2;;
    os_wait sys;;
    mret tt.

Definition go_20 : U S unit :=
  fork_or_fail (
    os_unlink sys (path "a");;
    os_mkdir sys (path "a");;
    os_chdir sys (path "a");;
    os_unlink sys (path "../a");;
    os_open sys (path "x") O_NEW;;
    os_unlink sys (path "x");;
    exit 0);;
  os_wait sys;;
  mret tt.

Definition go_21 : U S unit :=
  os_unlink sys (path "c");;
  fd1 ← os_open sys (path "c") O_NEW;
  if fd1 <? 0 then fail "grind: create c failed" 1
  else
    w ← os_write sys fd1 (bytes "x");
    if negb (w =? 1) then fail "grind: write c failed" 1
    else
      r ← os_fstat sys fd1;
      if negb (r.1 =? 0) then fail "grind: fstat failed" 1
      else
        let st := r.2 in
        if negb (us_size st =? 1) then
          uprintf sys (bytes "grind: fstat reports wrong size %d" ++ [10]) [UInt (s32 (us_size st))];; exit 1
        else if 200 <? us_ino st then
          uprintf sys (bytes "grind: fstat reports crazy i-number %d" ++ [10]) [UInt (us_ino st)];; exit 1
        else
          os_close sys fd1;;
          os_unlink sys (path "c");;
          mret tt.

(** The two ends of [echo hi | cat]. *)
Definition go_22_echo (aa bb : Z * Z) : U S unit :=
  os_close sys bb.1;;
  os_close sys bb.2;;
  os_close sys aa.1;;
  os_close sys 1;;
  d ← os_dup sys aa.2;
  if negb (d =? 1) then efail "grind: dup failed" 1
  else
    os_close sys aa.2;;
    os_exec sys (path "grindir/../echo") [bytes "echo"; bytes "hi"];;
    efail "grind: echo: not found" 2.

Definition go_22_cat (aa bb : Z * Z) : U S unit :=
  os_close sys aa.2;;
  os_close sys bb.1;;
  os_close sys 0;;
  d ← os_dup sys aa.1;
  if negb (d =? 0) then efail "grind: dup failed" 4
  else
    os_close sys aa.1;;
    os_close sys 1;;
    d ← os_dup sys bb.2;
    if negb (d =? 1) then efail "grind: dup failed" 5
    else
      os_close sys bb.2;;
      os_exec sys (path "/cat") [bytes "cat"];;
      efail "grind: cat: not found" 6.

(** [read(fd, &buf[i], 1)] *)
Definition read_at (fd : Z) (buf : list Z) (i : nat) : U S (list Z) :=
  r ← os_read sys fd 1;
  mret (if 0 <? r.1 then <[i := nth 0 r.2 0]> buf else buf).

Definition go_22 : U S unit :=
  r ← os_pipe sys;
  if r.1 <? 0 then efail "grind: pipe failed" 1
  else
    let aa := r.2 in
    r ← os_pipe sys;
    if r.1 <? 0 then efail "grind: pipe failed" 1
    else
      let bb := r.2 in
      pid1 ← os_fork sys (go_22_echo aa bb);
      if pid1 <? 0 then efail "grind: fork failed" 3
      else
        pid2 ← os_fork sys (go_22_cat aa bb);
        if pid2 <? 0 then efail "grind: fork failed" 7
        else
          os_close sys aa.1;;
          os_close sys aa.2;;
          os_close sys bb.2;;
          let buf := [0; 0; 0; 0] in
          buf ← read_at bb.1 buf 0;
          buf ← read_at bb.1 buf 1;
          buf ← read_at bb.1 buf 2;
          os_close sys bb.1;;
          w1 ← wait_status junk;
          w2 ← wait_status junk;
          let st1 := w1.2 in
          let st2 := w2.2 in
          if negb (st1 =? 0) || negb (st2 =? 0) || negb (ulib.strcmp buf (bytes "hi" ++ [10]) =? 0) then
            uprintf sys (bytes "grind: exec pipeline failed %d %d " ++ [34] ++ bytes "%s" ++ [34; 10])
              [UInt st1; UInt st2; UStr (Some (cstring buf))];;
            exit 1
          else mret tt.

(** One round of [go]: the file descriptor and the buffer after it.  [write] and [read] are
    given the 999 bytes of [buf]. *)
Definition go_op (what fd : Z) (buf : list Z) (break0 : Z) : U S (Z * list Z) :=
  let keep (m : U S unit) : U S (Z * list Z) := m;; mret (fd, buf) in
  if what =? 1 then keep (open_close (path "grindir/../a"))
  else if what =? 2 then keep (open_close (path "grindir/../grindir/../b"))
  else if what =? 3 then keep (os_unlink sys (path "grindir/../a");; mret tt)
  else if what =? 4 then keep (
    r ← os_chdir sys (path "grindir");
    if negb (r =? 0) then fail "grind: chdir grindir failed" 1
    else os_unlink sys (path "../b");; os_chdir sys (path "/");; mret tt)
  else if what =? 5 then
    os_close sys fd;; fd ← os_open sys (path "/grindir/../a") O_NEW; mret (fd, buf)
  else if what =? 6 then
    os_close sys fd;; fd ← os_open sys (path "/./grindir/./../b") O_NEW; mret (fd, buf)
  else if what =? 7 then keep (os_write sys fd buf;; mret tt)
  else if what =? 8 then
    r ← os_read sys fd 999; mret (fd, if 0 <? r.1 then r.2 ++ drop (length r.2) buf else buf)
  else if what =? 9 then keep (
    os_mkdir sys (path "grindir/../a");; open_close (path "a/../a/./a");; os_unlink sys (path "a/a");; mret tt)
  else if what =? 10 then keep (
    os_mkdir sys (path "/../b");; open_close (path "grindir/../b/b");; os_unlink sys (path "b/b");; mret tt)
  else if what =? 11 then keep (
    os_unlink sys (path "b");; os_link sys (path "../grindir/./../a") (path "../b");; mret tt)
  else if what =? 12 then keep (
    os_unlink sys (path "../grindir/../a");; os_link sys (path ".././b") (path "/grindir/../a");; mret tt)
  else if what =? 13 then keep (fork_or_fail (exit 0);; os_wait sys;; mret tt)
  else if what =? 14 then keep (fork_or_fail (fork_both (fork_both (exit 0)));; os_wait sys;; mret tt)
  else if what =? 15 then keep (sbrk 6011;; mret tt)
  else if what =? 16 then keep (go_16 break0)
  else if what =? 17 then keep go_17
  else if what =? 18 then keep (
    fork_or_fail (pid ← getpid; os_kill sys pid;; exit 0);; os_wait sys;; mret tt)
  else if what =? 19 then keep go_19
  else if what =? 20 then keep go_20
  else if what =? 21 then keep go_21
  else if what =? 22 then keep go_22
  else mret (fd, buf).

(** What a round starts with. *)
Record goer := Goer { g_iters : Z; g_rand : Z; g_fd : Z; g_buf : list Z }.

Definition go_round (which_child break0 : Z) (g : goer) : U S goer :=
  let iters := u64 (g_iters g + 1) in
  uwhen (iters mod 500 =? 0)
    (os_write sys 1 (if negb (which_child =? 0) then bytes "B" else bytes "A");; mret tt);;
  let r := rand (g_rand g) in
  let what := Z.rem r.2 23 in
  st ← go_op what (g_fd g) (g_buf g) break0;
  mret (Goer iters r.1 st.1 st.2).

(** [while(1)], for [k] rounds. *)
Fixpoint go_loop (which_child break0 : Z) (g : goer) (k : nat) : U S unit :=
  match k with
  | O => more_fuel
  | Datatypes.S k =>
      g ← go_round which_child break0 g;
      go_loop which_child break0 g k
  end.

Definition go (fuel : nat) (which_child rand_next : Z) : U S unit :=
  break0 ← sbrk 0;
  os_mkdir sys (path "grindir");;
  r ← os_chdir sys (path "grindir");
  if negb (r =? 0) then fail "grind: chdir grindir failed" 1
  else
    os_chdir sys (path "/");;
    go_loop which_child break0 (Goer 0 rand_next (-1) (replicate 999 0)) fuel.

Definition iter (fuel : nat) (rand_next : Z) : U S unit :=
  os_unlink sys (path "a");;
  os_unlink sys (path "b");;
  pid1 ← os_fork sys (go fuel 0 (Z.lxor rand_next 31);; exit 0);
  if pid1 <? 0 then fail "grind: fork failed" 1
  else
    pid2 ← os_fork sys (go fuel 1 (Z.lxor rand_next 7177);; exit 0);
    if pid2 <? 0 then fail "grind: fork failed" 1
    else
      w1 ← wait_status (-1);
      uwhen (negb (w1.2 =? 0)) (os_kill sys pid1;; os_kill sys pid2;; mret tt);;
      w2 ← wait_status (-1);
      exit 0.

(** [while(1)] of main, for [k] rounds; [fuel] is what [go] has. *)
Fixpoint grind_main (fuel : nat) (rand_next : Z) (k : nat) : U S unit :=
  match k with
  | O => more_fuel
  | Datatypes.S k =>
      pid ← os_fork sys (iter fuel rand_next;; exit 0);
      uwhen (0 <? pid) (os_wait sys;; mret tt);;
      os_sleep sys 20;;
      grind_main fuel (u64 (rand_next + 1)) k
  end.
End grind.

(** ** What the generator computes *)

(** The product that would not fit in 31 bits, by the two parts of [x]. *)
Lemma schrage x :
  0 < x < 2 ^ 31 - 1 ->
  let y := 16807 * (x mod 127773) - 2836 * (x / 127773) in
  - (2 ^ 31 - 1) < y < 2 ^ 31 - 1 /\ y mod (2 ^ 31 - 1) = 16807 * x mod (2 ^ 31 - 1).
Proof.
  intros Hx y. pose proof (Z.div_mod x 127773 ltac:(lia)). pose proof (Z.mod_pos_bound x 127773 ltac:(lia)).
  assert (0 <= x / 127773 < 16808) by (split; [apply Z.div_pos; lia|apply Z.div_lt_upper_bound; lia]).
  split; [unfold y; lia|].
  replace y with (16807 * x + (- (x / 127773)) * (2 ^ 31 - 1)) by (unfold y; lia). apply Z_mod_plus_full.
Qed.

(** 2^31 - 1 does not divide it. *)
Lemma product_nonzero x : 0 < x < 2 ^ 31 - 1 -> 16807 * x mod (2 ^ 31 - 1) <> 0.
Proof.
  intros Hx H0. apply Z.mod_divide in H0; [|lia]. apply Z.gauss in H0; [|reflexivity]. apply Z.divide_pos_le in H0; lia.
Qed.

(** C39: do_rand computes Park and Miller's generator: with x in [1, 2^31 - 2] from the
    context, the new context is 16807 x mod (2^31 - 1) less one, computed without an
    overflow of [long]; it is between 0 and 2^31 - 3, it is the result, and as an [int]
    it is not negative, so that rand() % 23 chooses one of the operations. *)
Theorem do_rand_spec ctx :
  is_u64 ctx ->
  let x := ctx mod (2 ^ 31 - 2) + 1 in
  let y := 16807 * x mod (2 ^ 31 - 1) - 1 in
  do_rand ctx = (y, y) /\ 0 <= y <= 2 ^ 31 - 3 /\ 0 <= Z.rem y 23 <= 22.
Proof.
  intros Hc x y. pose proof (Z.mod_pos_bound ctx (2 ^ 31 - 2) ltac:(lia)) as Hm. fold x in Hm.
  assert (Hx : 0 < x < 2 ^ 31 - 1) by (unfold x; lia).
  destruct (schrage x Hx) as [Hr He]. pose proof (product_nonzero x Hx) as Hnz.
  pose proof (Z.mod_pos_bound (16807 * x) (2 ^ 31 - 1) ltac:(lia)) as Hb.
  pose proof (Z.div_mod x 127773 ltac:(lia)). pose proof (Z.mod_pos_bound x 127773 ltac:(lia)).
  set (z := 16807 * (x mod 127773) - 2836 * (x / 127773)) in *.
  assert (Hz : (if z <? 0 then z + (2 ^ 31 - 1) else z) = y + 1).
  { unfold y. rewrite <- He. destruct (Z.ltb_spec z 0).
    - rewrite <- (Z_mod_plus_full z 1). rewrite Z.mod_small; lia.
    - rewrite Z.mod_small; lia. }
  assert (0 <= x / 127773 < 16808) by (split; [apply Z.div_pos; lia|apply Z.div_lt_upper_bound; lia]).
  assert (Hy : 0 <= y <= 2 ^ 31 - 3) by (unfold y; lia).
  split_and!; [|lia..|rewrite Z.rem_mod_nonneg by lia; pose proof (Z.mod_pos_bound y 23 ltac:(lia)); lia|
    rewrite Z.rem_mod_nonneg by lia; pose proof (Z.mod_pos_bound y 23 ltac:(lia)); lia].
  unfold do_rand. cbv zeta. change 0x7ffffffe with (2 ^ 31 - 2). change 0x7fffffff with (2 ^ 31 - 1). fold x.
  rewrite (u64_small x), (s64_small x) by lia. rewrite Z.quot_div_nonneg, Z.rem_mod_nonneg by lia.
  rewrite (s64_small (16807 * _)), (s64_small (2836 * _)) by lia. fold z. rewrite (s64_small z) by lia.
  replace (if z <? 0 then s64 (z + (2 ^ 31 - 1)) else z) with (y + 1); [|rewrite <- Hz; destruct (Z.ltb_spec z 0); [symmetry; apply s64_small; lia|reflexivity]].
  replace (y + 1 - 1) with y by lia. rewrite s64_small, u64_small, s32_small by lia. reflexivity.
Qed.

Lemma do_rand_spec_witness : do_rand 1 = (33613, 33613) /\ is_u64 1.
Proof.
  assert (H1 : is_u64 1) by (unfold is_u64; lia). split; [|exact H1].
  exact (proj1 (do_rand_spec 1 H1)).
Defined.
