(* ===== verification/Umalloc.v ===== *)
(** * user/umalloc.c: the memory allocator of user programs

    The allocator of Kernighan and Ritchie on the memory of the process: a
    ring of free blocks in address order, threaded through their headers.  A
    header is a union of 16 bytes with a pointer at offset 0 and a [uint] size,
    in headers, at offset 8. *)

From S2P Require Import Prelude Mem.

Definition HEADER : Z := 16.

(** Memory, [freep], and the break that [sbrk] moves. *)
Record heap := Heap { h_mem : mem; h_freep : Z; h_brk : Z }.

Definition get_ptr (m : mem) (p : Z) : Z := ld64 m p.
Definition get_size (m : mem) (p : Z) : Z := ld32 m (p + 8).
Definition set_ptr (m : mem) (p v : Z) : mem := st64 m p v.
Definition set_size (m : mem) (p v : Z) : mem := st32 m (p + 8) (u32 v).

(** The address of [p + n] headers. *)
Definition hdr_add (p n : Z) : Z := u64 (p + n * HEADER).

Section umalloc.
(** The address of the static variable [base]; whether the kernel can grow the
    process by so many bytes. *)
Context (base : Z) (avail : Z -> Z -> bool).

(** The system call ([sys_sbrk] and [growproc] of the kernel), as the user sees
    it: the old break, or -1.  A shrink below 0 is none. *)
Definition sbrk (n : Z) (h : heap) : heap * Z :=
  let at_brk b := Heap (h_mem h) (h_freep h) b in
  if 0 <? n then if avail (h_brk h) n then (at_brk (h_brk h + n), h_brk h) else (h, -1)
  else if n <? 0 then (at_brk (if h_brk h <=? u64 (h_brk h + n) then h_brk h else u64 (h_brk h + n)), h_brk h)
  else (h, h_brk h).

(** The [for] of [free]: the free block after which [bp] belongs. *)
Fixpoint free_find (m : mem) (bp p : Z) (k : nat) : option Z :=
  let next := get_ptr m p in
  if (p <? bp) && (bp <? next) then Some p
  else if (next <=? p) && ((p <? bp) || (bp <? next)) then Some p
  else match k with
       | O => None
       | S k => free_find m bp next k
       end.

Definition join_next (m : mem) (bp p : Z) : mem :=
  if hdr_add bp (get_size m bp) =? get_ptr m p then
    let m := set_size m bp (get_size m bp + get_size m (get_ptr m p)) in
    set_ptr m bp (get_ptr m (get_ptr m p))
  else set_ptr m bp (get_ptr m p).

Definition join_prev (m : mem) (bp p : Z) : mem :=
  if hdr_add p (get_size m p) =? bp then
    let m := set_size m p (get_size m p + get_size m bp) in
    set_ptr m p (get_ptr m bp)
  else set_ptr m p bp.

(** [fuel] is for the search, which goes at most once around the ring. *)
Definition free (fuel : nat) (ap : Z) (h : heap) : option heap :=
  let bp := ap - HEADER in
  p ← free_find (h_mem h) bp (h_freep h) fuel;
  Some (Heap (join_prev (join_next (h_mem h) bp p) bp p) p (h_brk h)).

(** [sbrk] takes an [int]. *)
Definition morecore (fuel : nat) (nu : Z) (h : heap) : option (heap * Z) :=
  let nu := if nu <? 4096 then 4096 else nu in
  let (h, p) := sbrk (s32 (nu * HEADER)) h in
  if p =? -1 then Some (h, 0)
  else
    let h := Heap (set_size (h_mem h) p nu) (h_freep h) (h_brk h) in
    h ← free fuel (hdr_add p 1) h;
    Some (h, h_freep h).

(** [p->s.size >= nunits]: take the block, or its end. *)
Definition carve (m : mem) (prevp p nunits : Z) : mem * Z :=
  if get_size m p =? nunits then (set_ptr m prevp (get_ptr m p), p)
  else
    let m := set_size m p (get_size m p - nunits) in
    let p := hdr_add p (get_size m p) in
    (set_size m p nunits, p).

Fixpoint malloc_loop (fuel : nat) (nunits prevp p : Z) (h : heap) (k : nat) : option (heap * Z) :=
  if nunits <=? get_size (h_mem h) p then
    let (m, p) := carve (h_mem h) prevp p nunits in
    Some (Heap m prevp (h_brk h), hdr_add p 1)
  else
    match k with
    | O => None
    | S k =>
        if p =? h_freep h then
          r ← morecore fuel nunits h;
          let (h, p) := r : heap * Z in
          if p =? 0 then Some (h, 0) else malloc_loop fuel nunits p (get_ptr (h_mem h) p) h k
        else malloc_loop fuel nunits p (get_ptr (h_mem h) p) h k
    end.

Definition units (nbytes : Z) : Z := u32 ((nbytes + HEADER - 1) / HEADER + 1).

Definition malloc (fuel : nat) (nbytes : Z) (h : heap) : option (heap * Z) :=
  let h := if h_freep h =? 0 then Heap (set_size (set_ptr (h_mem h) base base) base 0) base (h_brk h) else h in
  malloc_loop fuel (units nbytes) (h_freep h) (get_ptr (h_mem h) (h_freep h)) h fuel.
End umalloc.
