(* ===== verification/UmallocSpec.v ===== *)
(** * The user allocator never hands out memory twice

    The free list of user/umalloc.c as a ring of blocks in address order; what
    [free] and [malloc] do to it; and the safety of any sequence of calls of
    them with stores of the client into its blocks in between. *)

From Stdlib Require Import Sorted.
From S2P Require Import Prelude Mem Umalloc.

(** Headers at different places. *)
Definition hapart (a b : Z) : Prop := a + 16 <= b \/ b + 16 <= a.

Lemma ptr_set_ptr m a v : 0 <= v < 2 ^ 64 -> get_ptr (set_ptr m a v) a = v.
Proof. apply ld64_st64_same. Qed.

Lemma ptr_set_ptr_ne m a b v : hapart a b -> get_ptr (set_ptr m a v) b = get_ptr m b.
Proof. unfold hapart. intros. apply ld64_st64_other. lia. Qed.

Lemma size_set_ptr m a b v : a = b \/ hapart a b -> get_size (set_ptr m a v) b = get_size m b.
Proof. unfold hapart. intros. apply ld_le_st_le_other. lia. Qed.

Lemma size_set_size m a v : 0 <= v < 2 ^ 32 -> get_size (set_size m a v) a = v.
Proof. intros. unfold get_size, set_size. rewrite u32_small by done. by apply ld32_st32_same. Qed.

Lemma size_set_size_ne m a b v : hapart a b -> get_size (set_size m a v) b = get_size m b.
Proof. unfold hapart. intros. apply ld32_st32_other. lia. Qed.

Lemma ptr_set_size m a b v : a = b \/ hapart a b -> get_ptr (set_size m a v) b = get_ptr m b.
Proof. unfold hapart. intros. apply ld_le_st_le_other. lia. Qed.

Definition same_header (m m' : mem) (a : Z) : Prop := get_ptr m' a = get_ptr m a /\ get_size m' a = get_size m a.

(** ** Rings *)

Notation block := (Z * Z)%type.

Definition next_addr (l : list block) (e : Z) : Z := match l with [] => e | (b, _) :: _ => b end.

(** Blocks linked in order, the last one to [e]. *)
Fixpoint ring (m : mem) (l : list block) (e : Z) : Prop :=
  match l with
  | [] => True
  | (a, s) :: l => get_size m a = s /\ get_ptr m a = next_addr l e /\ ring m l e
  end.

Lemma next_addr_app l1 l2 e : next_addr (l1 ++ l2) e = next_addr l1 (next_addr l2 e).
Proof. by destruct l1 as [|[]]. Qed.

Lemma ring_app m l1 l2 e : ring m (l1 ++ l2) e <-> ring m l1 (next_addr l2 e) /\ ring m l2 e.
Proof.
  induction l1 as [|[a s] l1 IH]; cbn [app ring]; [naive_solver|]. rewrite next_addr_app, IH. naive_solver.
Qed.

Lemma ring_frame m m' l e : (forall x, x ∈ l -> same_header m m' x.1) -> ring m l e -> ring m' l e.
Proof.
  induction l as [|[a s] l IH]; intros Hs; cbn [ring]; [done|]. intros (? & ? & ?).
  destruct (Hs (a, s) ltac:(left)) as [Hp Hz]. cbn in *. split_and!; [congruence|congruence|].
  apply IH; [|done]. intros x Hx. apply Hs. by right.
Qed.

(** The end of a block; the ring's anchor has a header only. *)
Definition ext (x : block) : Z := x.1 + 16 * Z.max 1 x.2.

Definition before (x y : block) : Prop := ext x <= y.1.

Definition bapart (x y : block) : Prop := before x y \/ before y x.

Lemma before_lt x y : before x y -> x.1 + 16 <= y.1.
Proof. unfold before, ext. lia. Qed.

Lemma bapart_hapart x y : bapart x y -> hapart x.1 y.1.
Proof. intros [H%before_lt|H%before_lt]; [by left|by right]. Qed.

Notation sorted := (StronglySorted before).

Lemma sorted_app l1 l2 : sorted (l1 ++ l2) <-> sorted l1 /\ sorted l2 /\ (forall x y, x ∈ l1 -> y ∈ l2 -> before x y).
Proof.
  induction l1 as [|a l1 IH]; cbn [app].
  - split; [intros; split_and!; [constructor|done|set_solver]|naive_solver].
  - split.
    + inversion 1 as [|? ? Hs Hf]; subst. apply IH in Hs as (H1 & H2 & H3). rewrite Forall_app in Hf. destruct Hf as [Hf1 Hf2].
      split_and!; [by constructor|done|]. intros x y [->|Hx]%elem_of_cons Hy; [|by apply H3].
      rewrite Forall_forall in Hf2. by apply Hf2.
    + intros (Hs & H2 & H3). inversion Hs as [|? ? H1 Hf]; subst. constructor; [apply IH; set_solver|].
      apply Forall_app. split; [done|]. apply Forall_forall. intros y Hy. apply H3; [left|done].
Qed.

(** A block apart from all of a sorted list has its place in it. *)
Lemma sorted_place l b :
  sorted l -> (forall x, x ∈ l -> bapart x b) ->
  exists l1 l2, l = l1 ++ l2 /\ (forall x, x ∈ l1 -> before x b) /\ (forall y, y ∈ l2 -> before b y).
Proof.
  induction 1 as [|a l Hs IH Hf]; intros Hb; [exists [], []; set_solver|].
  destruct (Hb a ltac:(left)) as [Ha|Ha].
  - destruct IH as (l1 & l2 & -> & H1 & H2); [set_solver|]. exists (a :: l1), l2. split_and!; [done|set_solver|done].
  - exists [], (a :: l). split_and!; [done|set_solver|]. intros y [->|Hy]%elem_of_cons; [done|].
    rewrite Forall_forall in Hf. specialize (Hf y Hy). unfold before, ext in *. lia.
Qed.

(** ** The invariant *)

Section heap.
Context (base lo lim : Z) (avail : Z -> Z -> bool).
Context (Hbase : 0 < base) (Hlo : base + 16 <= lo) (Hlim : lim < 2 ^ 36).
Context (Havail : forall b n, avail b n = true -> b + n <= lim).

Definition block_in (brk : Z) (x : block) : Prop := lo <= x.1 /\ 1 <= x.2 /\ ext x <= brk.

(** [N] is the ring, in address order from [base]; [al] maps the allocated
    blocks to their sizes. *)
Record heap_ok (h : heap) (N : list block) (al : gmap Z Z) : Prop := {
  hk_head : exists fl, N = (base, 0) :: fl /\ Forall (block_in (h_brk h)) fl;
  hk_ring : ring (h_mem h) N base;
  hk_sorted : sorted N;
  hk_al a s : al !! a = Some s -> block_in (h_brk h) (a, s) /\ get_size (h_mem h) a = s;
  hk_apart x a s : x ∈ N -> al !! a = Some s -> bapart x (a, s);
  hk_pair a s b t : al !! a = Some s -> al !! b = Some t -> a <> b -> bapart (a, s) (b, t);
  hk_freep : h_freep h ∈ N.*1;
  hk_brk : lo <= h_brk h <= lim }.

Lemma block_in_mono b b' x : b <= b' -> block_in b x -> block_in b' x.
Proof. unfold block_in. intuition lia. Qed.

Lemma hk_base h N al x : heap_ok h N al -> x ∈ N -> base <= x.1 /\ ext x <= h_brk h.
Proof.
  intros Hk Hx. destruct (hk_head _ _ _ Hk) as (fl & -> & Hf). pose proof (hk_brk _ _ _ Hk).
  apply elem_of_cons in Hx as [->|Hx]; [unfold ext; cbn; lia|].
  rewrite Forall_forall in Hf. destruct (Hf x Hx) as (? & ? & ?). lia.
Qed.

Lemma hdr_add_small p n : 0 <= p + n * 16 < 2 ^ 64 -> hdr_add p n = p + 16 * n.
Proof. intros. unfold hdr_add, HEADER. rewrite u64_small by lia. lia. Qed.

(** ** The search of [free] *)

Lemma find_front m bp A p u C k :
  ring m (A ++ (p, u) :: C) base -> sorted (A ++ (p, u) :: C) -> base <= p ->
  (forall x, x ∈ A -> x.1 < bp) -> p < bp -> (forall y, y ∈ C -> bp < y.1) -> base <= bp ->
  (length A <= k)%nat -> free_find m bp (next_addr (A ++ [(p, u)]) base) k = Some p.
Proof.
  intros Hr Hs Hp HA Hpb HC Hbb. revert k Hr Hs HA. induction A as [|[a s] A IH]; intros k Hr Hs HA Hk.
  - cbn [app next_addr ring] in *. destruct Hr as (_ & Hn & _).
    assert (free_find m bp p k = if (p <? bp) && (bp <? get_ptr m p) then Some p
      else if (get_ptr m p <=? p) && ((p <? bp) || (bp <? get_ptr m p)) then Some p
      else match k with O => None | S k => free_find m bp (get_ptr m p) k end) as -> by by destruct k.
    rewrite (proj2 (Z.ltb_lt p bp)) by done. cbn [andb orb]. rewrite andb_true_r.
    destruct (Z.ltb_spec bp (get_ptr m p)); [done|].
    destruct C as [|[c t] C]; cbn [next_addr] in Hn.
    + by rewrite Hn, (proj2 (Z.leb_le base p)).
    + specialize (HC (c, t) ltac:(left)). cbn in HC. lia.
  - cbn [app next_addr ring length] in *. destruct Hr as (_ & Hn & Hr). destruct k as [|k]; [lia|]. cbn [free_find].
    inversion Hs as [|? ? Hs' Hf]; subst.
    assert (next_addr (A ++ (p, u) :: C) base = next_addr (A ++ [(p, u)]) base) as He by (by rewrite !next_addr_app).
    assert (exists z, z ∈ A ++ [(p, u)] /\ next_addr (A ++ [(p, u)]) base = z.1) as (z & Hz & Hzn).
    { destruct A as [|z A]; [exists (p, u); split; [left|done]|exists z; split; [left|by destruct z]]. }
    assert (a < z.1 < bp).
    { assert (z ∈ A ++ (p, u) :: C) as Hz' by set_solver. rewrite Forall_forall in Hf. specialize (Hf z Hz').
      apply before_lt in Hf. cbn in Hf. split; [lia|]. apply elem_of_app in Hz as [Hz|Hz]; [apply HA; by right|].
      apply list_elem_of_singleton in Hz as ->. done. }
    rewrite Hn, He, Hzn. rewrite (proj2 (Z.ltb_ge bp z.1)), (proj2 (Z.leb_gt z.1 a)), andb_false_r by lia. cbn [andb].
    rewrite <- Hzn. apply IH; [done|done|intros; apply HA; by right|lia].
Qed.

Lemma find_wrap m bp B k k0 R :
  B <> [] -> ring m B base -> sorted B -> (forall y, y ∈ B -> bp < y.1) -> (forall y, y ∈ B -> base <= y.1) -> base <= bp ->
  (forall k', (k0 <= k')%nat -> free_find m bp base k' = Some R) -> (length B + k0 <= k)%nat ->
  free_find m bp (next_addr B base) k = Some R.
Proof.
  revert k. induction B as [|[a s] B IH]; intros k Hne Hr Hs Hb Hbase' Hbb Hfront Hk; [done|].
  cbn [next_addr ring length] in *. destruct Hr as (_ & Hn & Hr). destruct k as [|k]; [lia|]. cbn [free_find].
  inversion Hs as [|? ? Hs' Hf]; subst. pose proof (Hb (a, s) ltac:(left)) as Ha. cbn in Ha.
  rewrite (proj2 (Z.ltb_ge a bp)) by lia. cbn [andb orb]. rewrite Hn. destruct B as [|[c t] B].
  - cbn [next_addr]. rewrite (proj2 (Z.ltb_ge bp base)), andb_false_r by lia. apply Hfront. lia.
  - cbn [next_addr]. rewrite Forall_forall in Hf. specialize (Hf (c, t) ltac:(left)). apply before_lt in Hf. cbn in Hf.
    rewrite (proj2 (Z.leb_gt c a)) by lia. cbn [andb].
    apply (IH k); [done|done|done|intros; apply Hb; by right|intros; apply Hbase'; by right|done|done|lia].
Qed.

(** Wherever [freep] points, the search finds the free block before [bp]. *)
Lemma free_find_ok m N A p u C bp fp k :
  N = A ++ (p, u) :: C -> next_addr N base = base -> ring m N base -> sorted N -> (forall x, x ∈ N -> base <= x.1) ->
  (forall x, x ∈ A ++ [(p, u)] -> before x (bp, 1)) -> (forall y, y ∈ C -> bp < y.1) ->
  fp ∈ N.*1 -> (length N <= k)%nat -> free_find m bp fp k = Some p.
Proof.
  intros HN Hhd Hr Hs Hb HA HC Hfp Hk.
  assert (forall x, x ∈ A ++ [(p, u)] -> x.1 < bp) as HA' by (intros x Hx; specialize (HA x Hx); apply before_lt in HA; cbn in HA; lia).
  assert (p < bp) by (apply (HA' (p, u)); set_solver).
  assert (base <= p) by (apply (Hb (p, u)); subst; set_solver).
  assert (forall k', (length A <= k')%nat -> free_find m bp base k' = Some p) as Hfront.
  { intros k' Hk'. rewrite <- Hhd at 1. rewrite HN, next_addr_app.
    change (next_addr ((p, u) :: C) base) with (next_addr [(p, u)] base). rewrite <- next_addr_app.
    apply (find_front m bp A p u C); subst; try done; [|lia]. intros; apply HA'; set_solver. }
  apply list_elem_of_fmap in Hfp as (x & -> & Hx). subst N. apply elem_of_app in Hx as [Hx|[->|Hx]%elem_of_cons].
  - apply list_elem_of_split in Hx as (A1 & A2 & ->). rewrite <- app_assoc in Hr, Hs. cbn [app] in Hr, Hs.
    apply ring_app in Hr as [_ Hr]. apply sorted_app in Hs as (_ & Hs & _).
    destruct x as [a s]. apply (find_front m bp ((a, s) :: A2) p u C); try done; [|lia|].
    + intros; apply HA'; set_solver.
    + rewrite !length_app in Hk. cbn [length] in *. lia.
  - apply ring_app in Hr as [_ Hr]. apply sorted_app in Hs as (_ & Hs & _).
    apply (find_front m bp [] p u C k Hr Hs); [done| |done|done|lia|cbn; lia].
    intros x Hx. by apply not_elem_of_nil in Hx.
  - apply list_elem_of_split in Hx as (C1 & C2 & ->). destruct x as [a s].
    replace (A ++ (p, u) :: C1 ++ (a, s) :: C2) with ((A ++ (p, u) :: C1) ++ (a, s) :: C2) in * by by rewrite <- app_assoc.
    apply ring_app in Hr as [_ Hr]. apply sorted_app in Hs as (_ & Hs & _).
    apply (find_wrap m bp ((a, s) :: C2) k (length A)); try done; try lia.
    + intros; apply HC; set_solver.
    + intros; apply Hb; set_solver.
    + rewrite !length_app in Hk. cbn [length] in *. lia.
Qed.

(** ** The two joins *)

Lemma join_next_spec m bp p s C brk :
  hapart bp p -> get_ptr m p = next_addr C base -> get_size m bp = s -> 1 <= s -> base < bp -> ext (bp, s) <= brk -> brk < 2 ^ 36 ->
  (forall y, y ∈ C -> before (bp, s) y /\ ext y <= brk /\ 1 <= y.2) -> ring m C base ->
  exists s' C', 
    (C' = C /\ s' = s \/ exists c t, C = (c, t) :: C' /\ s' = s + t /\ bp + 16 * s = c) /\
    get_size (join_next m bp p) bp = s' /\ get_ptr (join_next m bp p) bp = next_addr C' base /\
    (forall a, hapart bp a -> same_header m (join_next m bp p) a).
Proof.
  intros Hap Hp Hs Hs1 Hbp Hext Hbrk HC Hr. unfold join_next. rewrite Hp, Hs. unfold ext in Hext. cbn [fst snd] in Hext.
  rewrite hdr_add_small by lia. destruct C as [|[c t] C]; cbn [next_addr].
  - rewrite (proj2 (Z.eqb_neq _ _)) by lia. exists s, []. split_and!; [by left| | |].
    + rewrite size_set_ptr by by left. done.
    + rewrite ptr_set_ptr by lia. done.
    + intros a Ha. split; [by rewrite ptr_set_ptr_ne|by rewrite size_set_ptr by by right].
  - destruct (HC (c, t) ltac:(left)) as (Hb & He & Ht). cbn in Ht. unfold before, ext in Hb, He. cbn [fst snd] in Hb, He.
    cbn [ring] in Hr. destruct Hr as (Hct & Hcn & _).
    assert (0 <= next_addr C base < 2 ^ 64).
    { destruct C as [|[d v] C]; cbn [next_addr]; [lia|]. destruct (HC (d, v) ltac:(right; left)) as (Hb' & He' & _).
      unfold before, ext in Hb', He'. cbn in Hb', He'. lia. }
    destruct (Z.eqb_spec (bp + 16 * s) c) as [Hc|Hc].
    + exists (s + t), C. assert (hapart bp c) by (left; lia). split_and!; [right; by exists c, t| | |].
      * rewrite size_set_ptr by by left. rewrite Hct, size_set_size by lia. done.
      * assert (forall v, get_ptr (set_size m bp v) (get_ptr (set_size m bp v) p) = next_addr C base) as Hn.
        { intros v. rewrite (ptr_set_size m bp p) by by right. rewrite Hp. cbn [next_addr].
          by rewrite ptr_set_size by by right. }
        by rewrite Hn, ptr_set_ptr.
      * intros a Ha. split; [rewrite ptr_set_ptr_ne by done; by rewrite ptr_set_size by by right|].
        rewrite size_set_ptr by by right. by rewrite size_set_size_ne.
    + exists s, ((c, t) :: C). split_and!; [by left| | |].
      * rewrite size_set_ptr by by left. done.
      * rewrite ptr_set_ptr by lia. done.
      * intros a Ha. split; [by rewrite ptr_set_ptr_ne|by rewrite size_set_ptr by by right].
Qed.

Lemma join_prev_spec m bp s p u n :
  get_size m bp = s -> get_ptr m bp = n -> get_size m p = u -> 0 <= u -> 1 <= s -> 0 <= n < 2 ^ 64 ->
  before (p, u) (bp, s) -> 0 <= p -> bp + 16 * s < 2 ^ 36 ->
  (p + 16 * u = bp /\ get_size (join_prev m bp p) p = u + s /\ get_ptr (join_prev m bp p) p = n \/
   get_size (join_prev m bp p) p = u /\ get_ptr (join_prev m bp p) p = bp /\ same_header m (join_prev m bp p) bp) /\
  (forall a, hapart p a -> same_header m (join_prev m bp p) a).
Proof.
  intros Hs Hn Hu Hu0 Hs1 Hn64 Hb Hp Hlt. unfold before, ext in Hb. cbn [fst snd] in Hb.
  assert (hapart p bp) by (left; lia). unfold join_prev. rewrite Hs, Hu, hdr_add_small by lia.
  destruct (Z.eqb_spec (p + 16 * u) bp) as [He|He].
  - split; [left; split_and!; [done| |]|].
    + rewrite size_set_ptr by by left. by rewrite size_set_size by lia.
    + rewrite ptr_set_size by by right. by rewrite Hn, ptr_set_ptr.
    + intros a Ha. split; [rewrite ptr_set_ptr_ne by done; by rewrite ptr_set_size by by right|].
      rewrite size_set_ptr by by right. by rewrite size_set_size_ne.
  - split; [right; split_and!; [| |split]|].
    + by rewrite size_set_ptr by by left.
    + by rewrite ptr_set_ptr by lia.
    + by rewrite ptr_set_ptr_ne.
    + by rewrite size_set_ptr by by right.
    + intros a Ha. split; [by rewrite ptr_set_ptr_ne|by rewrite size_set_ptr by by right].
Qed.

(** A property of blocks that two neighbours pass on when they are joined. *)
Definition joins (P : block -> Prop) : Prop :=
  forall a s t, 1 <= s -> 1 <= t -> P (a, s) -> P (a + 16 * s, t) -> P (a, s + t).

Lemma joins_apart z : joins (fun x => bapart x z).
Proof. intros a s t Hs Ht. unfold bapart, before, ext. cbn [fst snd]. lia. Qed.

Lemma joins_in brk : joins (block_in brk).
Proof. intros a s t Hs Ht. unfold block_in, ext. cbn [fst snd]. lia. Qed.

(** What the first join makes of the block and the list behind it. *)
Lemma join_next_list m bp p s C brk :
  hapart bp p -> get_ptr m p = next_addr C base -> get_size m bp = s -> 1 <= s -> base < bp -> ext (bp, s) <= brk -> brk < 2 ^ 36 ->
  (forall y, y ∈ C -> before (bp, s) y /\ ext y <= brk /\ 1 <= y.2) -> ring m C base -> sorted C ->
  exists s' C',
    get_size (join_next m bp p) bp = s' /\ get_ptr (join_next m bp p) bp = next_addr C' base /\
    (forall a, hapart bp a -> same_header m (join_next m bp p) a) /\
    s <= s' /\ ext (bp, s') <= brk /\ 0 <= next_addr C' base < 2 ^ 64 /\
    (forall y, y ∈ C' -> y ∈ C) /\ (length C' <= length C)%nat /\ sorted ((bp, s') :: C') /\ ring m C' base /\
    (forall P, joins P -> Forall P ((bp, s) :: C) -> Forall P ((bp, s') :: C')).
Proof.
  intros Hap Hp Hs Hs1 Hbp Hext Hbrk HC Hr HsC.
  destruct (join_next_spec m bp p s C brk) as (s' & C' & Hcase & Hsz1 & Hpt1 & Hfr1); try done.
  exists s', C'. split; [done|]. split; [done|]. split; [done|].
  destruct Hcase as [[-> ->]|(c & t & -> & -> & Hadj)].
  - split_and!; [lia|done| | |done|done| |done|done].
    + destruct C as [|[d v] C]; cbn [next_addr]; [unfold ext in Hext; cbn [fst snd] in Hext; lia|].
      destruct (HC (d, v) ltac:(left)) as (Hb & He & _). unfold before, ext in Hb, He. cbn in Hb, He. lia.
    + destruct C as [|[d v] C]; cbn [next_addr]; [unfold ext in Hext; cbn [fst snd] in Hext; lia|].
      destruct (HC (d, v) ltac:(left)) as (Hb & He & _). unfold before, ext in Hb, He. cbn in Hb, He. lia.
    + constructor; [done|]. apply Forall_forall. intros y Hy. by apply HC.
  - destruct (HC (c, t) ltac:(left)) as (Hb & He & Ht). inversion HsC as [|? ? Hs2 Hct]; subst.
    assert (0 <= next_addr C' base < 2 ^ 64).
    { destruct C' as [|[d v] C']; cbn [next_addr]; [unfold ext in Hext; cbn [fst snd] in Hext; lia|].
      destruct (HC (d, v) ltac:(right; left)) as (Hb2 & He2 & _). unfold before, ext in Hb2, He2. cbn in Hb2, He2. lia. }
    unfold before, ext in *. cbn [fst snd] in *. split_and!; [lia|lia|lia|lia|set_solver|cbn; lia| |apply Hr|].
    + constructor; [done|]. eapply Forall_impl; [exact Hct|]. intros y. cbn [fst snd]. lia.
    + intros P HP HF. apply Forall_cons in HF as [Hx HF]. apply Forall_cons in HF as [Hy HF].
      constructor; [|done]. by apply HP.
Qed.

(** [free] turns the ring with the block put in into a ring of joined blocks. *)
Lemma free_ring m A p u C bp s brk :
  let N := A ++ (p, u) :: C in
  ring m N base -> sorted N -> (forall x, x ∈ N -> base <= x.1 /\ ext x <= brk) -> brk < 2 ^ 36 ->
  0 <= u -> (forall x, x ∈ C -> 1 <= x.2) ->
  get_size m bp = s -> 1 <= s -> ext (bp, s) <= brk ->
  (forall x, x ∈ A ++ [(p, u)] -> before x (bp, s)) -> (forall y, y ∈ C -> before (bp, s) y) ->
  exists u' D, ring (join_prev (join_next m bp p) bp p) (A ++ (p, u') :: D) base /\ sorted (A ++ (p, u') :: D) /\
    (u = 0 -> u' = u) /\ (length D <= S (length C))%nat /\ (exists x, x ∈ (p, u') :: D /\ s <= x.2) /\
    (forall a, hapart bp a -> hapart p a -> same_header m (join_prev (join_next m bp p) bp p) a) /\
    (forall P, joins P -> Forall P ((p, u) :: (bp, s) :: C) -> Forall P ((p, u') :: D)).
Proof.
  intros N Hr Hs Hb Hbrk Hu HC1 Hsz Hs1 Hext HA HC. unfold N in *.
  apply ring_app in Hr as [HrA (Hpu & Hpn & HrC)]. apply sorted_app in Hs as (HsA & HsC & HAC).
  inversion HsC as [|? ? HsC' HpC]; subst. rewrite Forall_forall in HpC.
  assert (before (p, get_size m p) (bp, get_size m bp)) as Hpb by (apply HA; set_solver).
  destruct (Hb (p, get_size m p) ltac:(set_solver)) as [Hbp _]. pose proof (before_lt _ _ Hpb) as Hlt. cbn in Hbp, Hlt.
  destruct (join_next_list m bp p (get_size m bp) C brk)
    as (s' & C' & Hsz1 & Hpt1 & Hfr1 & Hss' & Hext' & Hn64 & HC' & HlC & Hs' & HrC' & HP1); try done; [by right|lia| |].
  { intros y Hy. split_and!; [by apply HC|apply Hb; set_solver|by apply HC1]. }
  set (m1 := join_next m bp p) in *.
  destruct (join_prev_spec m1 bp s' p (get_size m p) (next_addr C' base)) as [Hj Hfr2];
    [done|done|by apply Hfr1; right|done|lia|done|exact Hpb|lia|unfold ext in Hext'; cbn [fst snd] in Hext'; lia|].
  set (m2 := join_prev m1 bp p) in *.
  assert (forall a, hapart bp a -> hapart p a -> same_header m m2 a) as Hfr.
  { intros a Hba Hpa2. destruct (Hfr1 a Hba), (Hfr2 a Hpa2). split; congruence. }
  assert (forall y, y ∈ A ++ C' -> same_header m m2 y.1) as HfrN.
  { intros y Hy. apply Hfr; apply elem_of_app in Hy as [Hy|Hy].
    - right. apply (before_lt y (bp, get_size m bp)). apply HA. set_solver.
    - left. apply (before_lt (bp, get_size m bp) y). by apply HC, HC'.
    - right. apply (before_lt y (p, get_size m p)). apply HAC; [done|left].
    - left. apply (before_lt (p, get_size m p) y). by apply HpC, HC'. }
  assert (ring m2 A p) as HrA2 by (eapply ring_frame; [|exact HrA]; intros; apply HfrN; set_solver).
  assert (ring m2 C' base) as HrC2 by (eapply ring_frame; [|exact HrC']; intros; apply HfrN; set_solver).
  assert (forall v x y, x ∈ A -> y ∈ (p, v) :: C' -> before x y) as HAC2.
  { intros v x y Hx [->|Hy]%elem_of_cons; [apply (HAC x (p, get_size m p)); [done|left]|]. apply HAC; [done|]. right. by apply HC'. }
  destruct Hj as [(Hadj & Hz & Hn)|(Hz & Hn & Hsame1 & Hsame2)].
  - exists (get_size m p + s'), C'. split_and!; [|apply sorted_app; split_and!; [done| |by apply HAC2]|lia|lia| |done|].
    + apply ring_app. split; [done|]. by split_and!.
    + inversion Hs' as [|? ? Hs3 Hf3]; subst. constructor; [done|].
      eapply Forall_impl; [exact Hf3|]. intros y. unfold before, ext. cbn [fst snd]. lia.
    + exists (p, get_size m p + s'). split; [left|cbn [snd]; lia].
    + intros P HP HF. apply Forall_cons in HF as [Hp0 HF]. apply (HP1 P HP) in HF. apply Forall_cons in HF as [Hb0 HF].
      constructor; [|done]. apply HP; [lia|lia|done|by rewrite Hadj].
  - exists (get_size m p), ((bp, s') :: C'). split_and!; [|apply sorted_app; split_and!; [done| |]|done|cbn [length]; lia| |done|].
    + apply ring_app. split; [done|]. cbn [ring next_addr]. split_and!; [done|done|congruence|congruence|done].
    + constructor; [done|]. constructor; [done|]. apply Forall_forall. intros y Hy. by apply HpC, HC'.
    + intros x y Hx Hy. destruct (decide (y = (bp, s'))) as [->|]; [apply (HA x); set_solver|].
      apply (HAC2 (get_size m p)); [done|set_solver].
    + exists (bp, s'). split; [right; left|done].
    + intros P HP HF. apply Forall_cons in HF as [Hp0 HF]. constructor; [done|]. by apply (HP1 P HP).
Qed.

(** ** [free] *)

Lemma heap_split h N al bp s :
  heap_ok h N al -> al !! bp = Some s ->
  exists A p u C, N = A ++ (p, u) :: C /\ (forall x, x ∈ A ++ [(p, u)] -> before x (bp, s)) /\
    (forall y, y ∈ C -> before (bp, s) y) /\ 0 <= u /\ (forall x, x ∈ C -> 1 <= x.2).
Proof.
  intros Hk Hal. destruct (sorted_place N (bp, s) (hk_sorted _ _ _ Hk)) as (l1 & C & HN & H1 & H2).
  { intros x Hx. by eapply hk_apart. }
  destruct (hk_head _ _ _ Hk) as (fl & Hfl & Hf). destruct (hk_al _ _ _ Hk bp s Hal) as [(Hb1 & _) _]. cbn in Hb1.
  destruct (decide (l1 = [])) as [->|Hne].
  { exfalso. cbn in HN. subst C. specialize (H2 (base, 0)). rewrite Hfl in H2. specialize (H2 ltac:(left)).
    apply before_lt in H2. cbn in H2. lia. }
  destruct (exists_last Hne) as (A & [p u] & ->). exists A, p, u, C. rewrite <- app_assoc in HN.
  assert (forall x, x ∈ N -> 0 <= x.2) as Hpos.
  { intros x Hx. rewrite Hfl in Hx. apply elem_of_cons in Hx as [->|Hx]; [done|].
    rewrite Forall_forall in Hf. destruct (Hf x Hx). lia. }
  split_and!; [done|done|done|apply (Hpos (p, u)); subst; set_solver|].
  intros x Hx. assert (x ∈ fl) as Hx'.
  { assert (x ∈ N) as HxN by (subst; set_solver). rewrite Hfl in HxN. apply elem_of_cons in HxN as [->|]; [|done].
    specialize (H2 _ Hx). apply before_lt in H2. cbn in H2. lia. }
  rewrite Forall_forall in Hf. by destruct (Hf x Hx') as (_ & ? & _).
Qed.

Lemma free_ok fuel h N al bp s :
  heap_ok h N al -> al !! bp = Some s -> (length N <= fuel)%nat ->
  exists h' N', free fuel (bp + 16) h = Some h' /\ heap_ok h' N' (delete bp al) /\
    (length N' <= S (length N))%nat /\ h_brk h' = h_brk h /\ exists x, x ∈ N' /\ s <= x.2.
Proof.
  intros Hk Hal Hf. destruct (heap_split h N al bp s Hk Hal) as (A & p & u & C & -> & HA & HC & Hu & HC1).
  destruct (hk_al _ _ _ Hk bp s Hal) as [(Hb1 & Hs1 & Hext) Hsz]. cbn [fst snd] in Hb1, Hs1.
  destruct (hk_head _ _ _ Hk) as (fl & Hfl & Hff). pose proof (hk_brk _ _ _ Hk) as Hbrk.
  destruct (free_ring (h_mem h) A p u C bp s (h_brk h)) as (u' & D & Hr & Hs & Hu0 & Hlen & Hx & Hfr & HP); try done.
  { apply Hk. } { apply Hk. } { intros x Hx. by eapply hk_base. } { lia. }
  unfold free. replace (bp + 16 - HEADER) with bp by (unfold HEADER; lia).
  rewrite (free_find_ok (h_mem h) _ A p u C bp (h_freep h) fuel eq_refl);
    [|by rewrite Hfl|apply Hk|apply Hk|intros x Hx'; by eapply hk_base| | |apply Hk|done].
  2:{ intros x Hx'. apply (HA x Hx'). } 2:{ intros y Hy. specialize (HC y Hy). apply before_lt in HC. cbn in HC. lia. }
  cbn [mbind option_bind]. eexists _, (A ++ (p, u') :: D). split; [done|]. split; [|split_and!; [|done|]].
  - assert (exists fl', A ++ (p, u') :: D = (base, 0) :: fl') as (fl' & Hfl').
    { destruct A as [|a A]; cbn [app] in *; [|exists (A ++ (p, u') :: D); by simplify_eq].
      exists D. simplify_eq. by rewrite Hu0. }
    constructor; cbn [h_mem h_freep h_brk].
    + exists fl'. split; [done|]. apply Forall_forall. intros x Hx'. rewrite Hfl' in Hs.
      inversion Hs as [|? ? _ Hb']; subst. rewrite Forall_forall in Hb'. specialize (Hb' x Hx'). apply before_lt in Hb'. cbn in Hb'.
      assert (Forall (fun x => x = (base, 0) \/ block_in (h_brk h) x) (A ++ (p, u') :: D)) as Hall.
      { assert (Forall (fun x => x = (base, 0) \/ block_in (h_brk h) x) (A ++ (p, u) :: C)) as H0.
        { rewrite Hfl. constructor; [by left|]. eapply Forall_impl; [exact Hff|]. by right. }
        apply Forall_app in H0 as [HA0 HC0]. apply Forall_app. split; [done|]. apply HP.
        - intros a s0 t Hs0 Ht [[= -> ->]|Ha] [[= Hb0 ->]|Hb0]; try lia. right. by apply joins_in.
        - apply Forall_cons in HC0 as [? ?]. constructor; [done|]. constructor; [by right|done]. }
      rewrite Hfl', Forall_forall in Hall. destruct (Hall x ltac:(by right)) as [->|]; [cbn in Hb'; lia|done].
    + done.
    + done.
    + intros a t Ha. apply lookup_delete_Some in Ha as [Hne Ha]. destruct (hk_al _ _ _ Hk a t Ha) as [Hin Hsz'].
      split; [done|]. rewrite <- Hsz'. apply Hfr.
      * apply (bapart_hapart (bp, s) (a, t)). by eapply hk_pair.
      * apply (bapart_hapart (p, u) (a, t)). eapply hk_apart; [done|set_solver|done].
    + intros x a t Hx' Ha. apply lookup_delete_Some in Ha as [Hne Ha].
      assert (Forall (fun x => bapart x (a, t)) (A ++ (p, u) :: C)) as H0 by (apply Forall_forall; intros; by eapply hk_apart).
      apply Forall_app in H0 as [HA0 HC0]. apply Forall_cons in HC0 as [Hp0 HC0].
      assert (Forall (fun x => bapart x (a, t)) ((p, u') :: D)) as HD.
      { apply HP; [apply joins_apart|]. constructor; [done|]. constructor; [by eapply hk_pair|done]. }
      rewrite Forall_forall in HA0, HD. apply elem_of_app in Hx' as [Hx'|Hx']; [by apply HA0|by apply HD].
    + intros a t b0 t' Ha Hb'. apply lookup_delete_Some in Ha as [_ Ha], Hb' as [_ Hb']. by apply (hk_pair _ _ _ Hk).
    + rewrite fmap_app. set_solver.
    + done.
  - rewrite !length_app. cbn [length]. lia.
  - destruct Hx as (x & Hx & Hxs). exists x. split; [set_solver|done].
Qed.

(** ** [morecore] *)

(** A new block above the old break. *)
Lemma heap_grow h N al nu :
  heap_ok h N al -> 1 <= nu < 2 ^ 32 -> h_brk h + 16 * nu <= lim ->
  heap_ok (Heap (set_size (h_mem h) (h_brk h) nu) (h_freep h) (h_brk h + 16 * nu)) N (<[h_brk h := nu]> al) /\
  al !! h_brk h = None.
Proof.
  intros Hk Hnu Hl. pose proof (hk_brk _ _ _ Hk) as Hbrk.
  assert (forall x, x ∈ N -> x.1 + 16 <= h_brk h) as HN.
  { intros x Hx. destruct (hk_base _ _ _ _ Hk Hx) as [_ He]. unfold ext in He. lia. }
  assert (forall a s, al !! a = Some s -> a + 16 <= h_brk h /\ before (a, s) (h_brk h, nu)) as Hal.
  { intros a s Ha. destruct (hk_al _ _ _ Hk a s Ha) as [(_ & _ & He) _]. unfold before, ext in *. cbn [fst snd] in *. lia. }
  split.
  2:{ destruct (al !! h_brk h) as [s|] eqn:Ha; [|done]. destruct (Hal _ _ Ha). lia. }
  constructor; cbn [h_mem h_freep h_brk].
  - destruct (hk_head _ _ _ Hk) as (fl & -> & Hf). exists fl. split; [done|].
    eapply Forall_impl; [exact Hf|]. intros x. apply block_in_mono. lia.
  - eapply ring_frame; [|apply Hk]. intros x Hx. specialize (HN x Hx).
    split; [by rewrite ptr_set_size by (right; right; lia)|by rewrite size_set_size_ne by (right; lia)].
  - apply Hk.
  - intros a s [[<- <-]|[Hne Ha]]%lookup_insert_Some.
    + split; [|by apply size_set_size; lia]. unfold block_in, ext. cbn [fst snd]. lia.
    + destruct (hk_al _ _ _ Hk a s Ha) as [Hin Hs]. split; [eapply block_in_mono; [|exact Hin]; lia|].
      rewrite size_set_size_ne; [done|]. right. by apply (Hal a s).
  - intros x a s Hx [[<- <-]|[Hne Ha]]%lookup_insert_Some; [|by eapply hk_apart].
    left. by apply (hk_base _ _ _ _ Hk Hx).
  - intros a s b t [[<- <-]|[Hne Ha]]%lookup_insert_Some [[<- <-]|[Hne' Hb]]%lookup_insert_Some Hab; [done| | |by apply (hk_pair _ _ _ Hk)].
    + right. by apply Hal.
    + left. by apply Hal.
  - apply Hk.
  - lia.
Qed.

Lemma freep_pos h N al : heap_ok h N al -> h_freep h <> 0.
Proof.
  intros Hk. pose proof (hk_freep _ _ _ Hk) as Hf. apply list_elem_of_fmap in Hf as (x & -> & Hx).
  destruct (hk_base _ _ _ _ Hk Hx). lia.
Qed.

(** The bytes that [morecore] asks [sbrk] for. *)
Definition asked (nu : Z) : Z := 16 * Z.max 4096 nu.

Lemma morecore_ok fuel nu h N al :
  heap_ok h N al -> 1 <= nu -> nu * 16 < 2 ^ 31 -> (length N <= fuel)%nat ->
  avail (h_brk h) (asked nu) = false /\ morecore avail fuel nu h = Some (h, 0) \/
  exists h' N', morecore avail fuel nu h = Some (h', h_freep h') /\ heap_ok h' N' al /\
    (length N' <= S (length N))%nat /\ exists x, x ∈ N' /\ nu <= x.2.
Proof.
  intros Hk Hnu Hlt Hf. unfold morecore. set (nu' := if nu <? 4096 then 4096 else nu).
  assert (nu <= nu' /\ 1 <= nu' /\ nu' * 16 < 2 ^ 31) as (Hle & Hnu1 & Hnu').
  { unfold nu'. destruct (Z.ltb_spec nu 4096); lia. }
  unfold HEADER. rewrite s32_small by lia. unfold sbrk. rewrite (proj2 (Z.ltb_lt 0 _)) by lia.
  pose proof (hk_brk _ _ _ Hk) as Hbrk.
  assert (asked nu = nu' * 16) as -> by (unfold asked, nu'; destruct (Z.ltb_spec nu 4096); lia).
  destruct (avail (h_brk h) (nu' * 16)) eqn:Ha; [right|left; by split].
  rewrite (proj2 (Z.eqb_neq (h_brk h) (-1))) by lia. cbn [h_mem h_freep h_brk].
  apply Havail in Ha as Hl.
  destruct (heap_grow h N al nu' Hk) as [Hk' Hnone]; [lia|lia|].
  replace (nu' * 16) with (16 * nu') in * by lia. rewrite hdr_add_small by lia.
  destruct (free_ok fuel _ N _ (h_brk h) nu' Hk') as (h' & N' & Hfree & Hk2 & Hlen & _ & x & Hx & Hxs);
    [by rewrite lookup_insert_eq|done|].
  rewrite Z.mul_1_r, Hfree. cbn [mbind option_bind]. exists h', N'. rewrite delete_insert_id in Hk2 by done.
  split_and!; [done|done|done|]. exists x. split; [done|lia].
Qed.

(** ** Taking a block *)

(** The two parts of a block that is split. *)
Lemma bapart_tail p t n z : 1 <= n <= t -> bapart (p, t) z -> bapart (p + 16 * (t - n), n) z.
Proof. unfold bapart, before, ext. cbn [fst snd]. lia. Qed.

Lemma bapart_front p t n z : 1 <= n < t -> bapart (p, t) z -> bapart (p, t - n) z.
Proof. unfold bapart, before, ext. cbn [fst snd]. lia. Qed.

Lemma bapart_sym x y : bapart x y -> bapart y x.
Proof. unfold bapart. tauto. Qed.

(** The free blocks when [n] headers of [(p, t)] are taken. *)
Definition taken (A : list block) (x : block) (p t n : Z) (C : list block) : list block :=
  if t =? n then A ++ x :: C else A ++ x :: (p, t - n) :: C.

Lemma taken_elem A x p t n C y :
  1 <= n <= t -> y ∈ taken A x p t n C -> y ∈ A ++ x :: C \/ y = (p, t - n) /\ 1 <= n < t.
Proof.
  unfold taken. intros Hn. destruct (Z.eqb_spec t n); [by left|]. intros [Hy|[Hy|[->|Hy]%elem_of_cons]%elem_of_cons]%elem_of_app.
  - left. apply elem_of_app. by left.
  - left. subst. apply elem_of_app. right. left.
  - right. split; [done|lia].
  - left. apply elem_of_app. right. by right.
Qed.

Lemma taken_sorted A x p t n C : 1 <= n <= t -> sorted (A ++ x :: (p, t) :: C) -> sorted (taken A x p t n C).
Proof.
  intros Hn Hs. apply sorted_app in Hs as (HsA & Hsq & HAq). inversion Hsq as [|? ? Hsp Hq]; subst.
  inversion Hsp as [|? ? HsC HpC]; subst. apply Forall_cons in Hq as [Hxp Hq]. unfold taken. destruct (Z.eqb_spec t n).
  - apply sorted_app. split_and!; [done|by constructor|]. intros y z Hy [->|Hz]%elem_of_cons; apply HAq; try done; [left|by right; right].
  - apply sorted_app. split_and!; [done| |].
    + constructor; [constructor; [done|]|by constructor]. eapply Forall_impl; [exact HpC|].
      intros y. unfold before, ext. cbn [fst snd]. lia.
    + intros y z Hy [->|[->|Hz]%elem_of_cons]%elem_of_cons; [apply HAq; [done|left]| |apply HAq; [done|by right; right]].
      apply (HAq y (p, t)); [done|]. right. left.
Qed.

Lemma taken_head h A x p t n C al :
  heap_ok h (A ++ x :: (p, t) :: C) al -> 1 <= n <= t -> base < p ->
  block_in (h_brk h) (p, t) /\ exists fl, taken A x p t n C = (base, 0) :: fl /\ Forall (block_in (h_brk h)) fl.
Proof.
  intros Hk Hn Hp. destruct (hk_head _ _ _ Hk) as (fl & Hfl & Hff).
  assert (forall l, Forall (block_in (h_brk h)) ((p, t) :: l) ->
    block_in (h_brk h) (p, t) /\ Forall (block_in (h_brk h)) (if t =? n then l else (p, t - n) :: l)) as Hcut.
  { intros l [Hx Hl]%Forall_cons. split; [done|]. destruct (Z.eqb_spec t n); [done|]. constructor; [|done].
    unfold block_in, ext in *. cbn [fst snd] in *. lia. }
  destruct A as [|a A]; cbn [app] in Hfl.
  - injection Hfl as -> <-. apply Hcut in Hff as [Hx Hl]. split; [done|]. eexists. split; [|exact Hl].
    unfold taken. by destruct (t =? n).
  - injection Hfl as -> <-. apply Forall_app in Hff as [HfA Hff]. apply Forall_cons in Hff as [Hfx Hff].
    apply Hcut in Hff as [Hx' Hl]. split; [done|]. exists (A ++ x :: (if t =? n then C else (p, t - n) :: C)).
    split; [unfold taken; by destruct (t =? n)|]. apply Forall_app. split; [done|]. by constructor.
Qed.

(** A free block, or its end, becomes an allocated one; [q] is the free block
    before it. *)
Lemma heap_take h m' A q v p t C al p' n :
  heap_ok h (A ++ (q, v) :: (p, t) :: C) al -> 1 <= n <= t -> base < p -> p' = p + 16 * (t - n) ->
  ring m' (taken A (q, v) p t n C) base -> get_size m' p' = n ->
  (forall a, hapart p a -> hapart q a -> hapart p' a -> same_header (h_mem h) m' a) ->
  heap_ok (Heap m' q (h_brk h)) (taken A (q, v) p t n C) (<[p' := n]> al).
Proof.
  intros Hk Hn Hp Hp' Hr Hsz Hfr. destruct (taken_head h A (q, v) p t n C al Hk Hn Hp) as [Hpin Hhead].
  assert (forall a s, al !! a = Some s -> bapart (p, t) (a, s)) as Hpal.
  { intros a s Ha. eapply hk_apart; [done| |done]. apply elem_of_app. right. right. left. }
  assert (forall x, x ∈ A ++ (q, v) :: C -> bapart x (p, t)) as Hnp.
  { pose proof (hk_sorted _ _ _ Hk) as Hs. apply sorted_app in Hs as (_ & Hsq & HAq).
    inversion Hsq as [|? ? Hsp Hq]; subst. inversion Hsp as [|? ? _ HpC]; subst. rewrite Forall_forall in Hq, HpC.
    intros x [Hx|[->|Hx]%elem_of_cons]%elem_of_app; [left; apply HAq; [done|right; left]|left; apply Hq; left|right; by apply HpC]. }
  constructor; cbn [h_mem h_freep h_brk]; [done|done|apply taken_sorted; [done|apply Hk]| | | | |apply Hk].
  - intros a s [[<- <-]|[Hne Ha]]%lookup_insert_Some.
    + split; [|done]. subst p'. unfold block_in, ext in *. cbn [fst snd] in *. lia.
    + destruct (hk_al _ _ _ Hk a s Ha) as [Hin Hs']. split; [done|]. rewrite <- Hs'. apply Hfr.
      * apply (bapart_hapart (p, t) (a, s)). by apply Hpal.
      * apply (bapart_hapart (q, v) (a, s)). eapply hk_apart; [done| |done]. apply elem_of_app. right. left.
      * subst p'. apply (bapart_hapart (_, n) (a, s)). by apply bapart_tail, Hpal.
  - intros x a s Hx Ha. apply taken_elem in Hx; [|done]. subst p'.
    apply lookup_insert_Some in Ha as [[<- <-]|[Hne Ha]]; destruct Hx as [Hx|[-> Hlt]].
    + apply bapart_sym, bapart_tail; [done|]. by apply bapart_sym, Hnp.
    + left. unfold before, ext. cbn [fst snd]. lia.
    + eapply hk_apart; [done| |done]. apply elem_of_app in Hx as [Hx|[->|Hx]%elem_of_cons]; apply elem_of_app; [by left|right; left|right; by right; right].
    + by apply bapart_front, Hpal.
  - intros a s b t' Ha Hb Hab. subst p'.
    apply lookup_insert_Some in Ha as [[<- <-]|[Hne Ha]]; apply lookup_insert_Some in Hb as [[<- <-]|[Hne' Hb]]; [done| | |by apply (hk_pair _ _ _ Hk)].
    + by apply bapart_tail, Hpal.
    + by apply bapart_sym, bapart_tail, Hpal.
  - unfold taken. destruct (t =? n); rewrite fmap_app; apply elem_of_app; right; left.
Qed.

Lemma carve_ok h A q v p t C al n :
  heap_ok h (A ++ (q, v) :: (p, t) :: C) al -> 1 <= n <= t -> base < p ->
  let (m', p') := carve (h_mem h) q p n in
  p' = p + 16 * (t - n) /\ heap_ok (Heap m' q (h_brk h)) (taken A (q, v) p t n C) (<[p' := n]> al).
Proof.
  intros Hk Hn Hp. destruct (taken_head h A (q, v) p t n C al Hk Hn Hp) as [(Hplo & _ & Hpe) _].
  pose proof (hk_brk _ _ _ Hk) as Hbrk. pose proof (hk_ring _ _ _ Hk) as Hr. pose proof (hk_sorted _ _ _ Hk) as Hs.
  apply ring_app in Hr as [HrA (Hqv & Hqn & Hpt & Hpn & HrC)].
  apply sorted_app in Hs as (_ & Hsq & HAq). inversion Hsq as [|? ? Hsp Hq]; subst. inversion Hsp as [|? ? _ HpC]; subst.
  rewrite Forall_forall in Hq, HpC. unfold ext in Hpe. cbn [fst snd next_addr] in *.
  set (t := get_size (h_mem h) p) in *. set (v := get_size (h_mem h) q) in *.
  assert (q + 16 <= p) as Hqp' by (apply (before_lt (q, v) (p, t)); apply Hq; left).
  assert (hapart q p) as Hqp by by left.
  assert (forall x, x ∈ A ++ C -> hapart q x.1 /\ before x (p, t) \/ hapart q x.1 /\ before (p, t) x) as HAC.
  { intros x [Hx|Hx]%elem_of_app.
    - left. split; [right; apply (before_lt x (q, v)); apply HAq; [done|left]|apply HAq; [done|right; left]].
    - right. split; [left; apply (before_lt (q, v) x); apply Hq; by right|by apply HpC]. }
  assert (0 <= next_addr C base < 2 ^ 64) as Hn64.
  { destruct C as [|[d w] C]; cbn [next_addr]; [lia|]. destruct (hk_base _ _ _ (d, w) Hk) as [Hd1 Hd2].
    - apply elem_of_app. right. right. right. left.
    - unfold ext in Hd2. cbn [fst snd] in *. lia. }
  assert (forall m', (forall x, x ∈ A ++ C -> same_header (h_mem h) m' x.1) -> ring m' A q /\ ring m' C base) as Hring.
  { intros m' Hm. split; [eapply ring_frame; [|exact HrA]|eapply ring_frame; [|exact HrC]]; intros; apply Hm, elem_of_app; auto. }
  unfold carve. fold t. destruct (Z.eqb_spec t n) as [He|He].
  - split; [lia|]. eapply heap_take; [done|done|done|lia| | |]; unfold taken; rewrite ?(proj2 (Z.eqb_eq t n) He).
    + destruct (Hring (set_ptr (h_mem h) q (get_ptr (h_mem h) p))) as [H1 H2].
      { intros x Hx. split; [rewrite ptr_set_ptr_ne|rewrite size_set_ptr]; [done| |done|right]; by destruct (HAC x Hx) as [[]|[]]. }
      apply ring_app. split; [done|]. cbn [ring]. rewrite size_set_ptr by by left. rewrite Hpn, ptr_set_ptr by done.
      split_and!; [done|done|by rewrite <- Hpn].
    + rewrite size_set_ptr by by right. done.
    + intros a _ Ha _. split; [by rewrite ptr_set_ptr_ne|by rewrite size_set_ptr by by right].
  - rewrite size_set_size by lia. rewrite hdr_add_small by lia. set (p' := p + 16 * (t - n)). split; [done|].
    assert (hapart p p') by (left; unfold p'; lia).
    assert (forall a, hapart p a -> hapart p' a -> same_header (h_mem h) (set_size (set_size (h_mem h) p (t - n)) p' n) a) as Hfr.
    { intros a Ha Ha'. split; [by rewrite !ptr_set_size by by right|by rewrite !size_set_size_ne]. }
    eapply heap_take; [done|done|done|done| | |]; unfold taken; rewrite ?(proj2 (Z.eqb_neq t n) He).
    + destruct (Hring (set_size (set_size (h_mem h) p (t - n)) p' n)) as [H1 H2].
      { intros x Hx. apply Hfr; destruct (HAC x Hx) as [[_ Hb]|[_ Hb]]; unfold before, ext, hapart, p' in *; cbn [fst snd] in *; lia. }
      destruct (Hfr q) as [Hq1 Hq2]; [destruct Hqp; [by right|by left]|unfold hapart, p' in *; lia|].
      apply ring_app. split; [done|]. cbn [ring next_addr]. split_and!; [done|congruence| | |done].
      * rewrite size_set_size_ne by (destruct H; [by right|by left]). by apply size_set_size; lia.
      * rewrite !ptr_set_size; [done|by left|right]. destruct H; [by right|by left].
    + apply size_set_size. lia.
    + intros a Ha _ Ha'. by apply Hfr.
Qed.

(** ** The search of [malloc] *)

Definition last_addr (a : Z) (l : list block) : Z := match last l with Some x => x.1 | None => a end.

Lemma last_addr_cons a x l : last_addr a (x :: l) = last_addr x.1 l.
Proof. unfold last_addr. rewrite last_cons. by destruct (last l). Qed.

Lemma malloc_walk fuel h n L1 p t L2 e prevp k :
  ring (h_mem h) (L1 ++ (p, t) :: L2) e -> (forall x, x ∈ L1 -> x.2 < n /\ x.1 <> h_freep h) -> (length L1 <= k)%nat ->
  malloc_loop avail fuel n prevp (next_addr (L1 ++ (p, t) :: L2) e) h k =
    malloc_loop avail fuel n (last_addr prevp L1) p h (k - length L1).
Proof.
  revert prevp k. induction L1 as [|[a s] L1 IH]; intros prevp k Hr HL Hk.
  { cbn [app next_addr length]. by rewrite Nat.sub_0_r. }
  cbn [app next_addr length ring] in *. destruct Hr as (Hs & Hn & Hr). destruct k as [|k]; [lia|].
  destruct (HL (a, s) ltac:(left)) as [Hsn Hne]. cbn [fst snd] in Hsn, Hne.
  assert (malloc_loop avail fuel n prevp a h (S k) = malloc_loop avail fuel n a (get_ptr (h_mem h) a) h k) as ->.
  { cbn [malloc_loop]. rewrite (proj2 (Z.leb_gt n _)) by lia. by rewrite (proj2 (Z.eqb_neq a _)). }
  rewrite Hn, IH; [|done|intros; apply HL; by right|lia]. by rewrite last_addr_cons.
Qed.

Lemma first_big (n : Z) (L : list block) :
  (forall x, x ∈ L -> x.2 < n) \/ exists L1 p t L2, L = L1 ++ (p, t) :: L2 /\ n <= t /\ forall x, x ∈ L1 -> x.2 < n.
Proof.
  induction L as [|[a s] L IH]; [left; set_solver|]. destruct (Z.lt_ge_cases s n) as [Hs|Hs].
  - destruct IH as [IH|(L1 & p & t & L2 & -> & Ht & HL)].
    + left. intros x [->|Hx]%elem_of_cons; [done|by apply IH].
    + right. exists ((a, s) :: L1), p, t, L2. split_and!; [done|done|]. intros x [->|Hx]%elem_of_cons; [done|by apply HL].
  - right. exists [], a, s, L. split_and!; [done|done|set_solver].
Qed.

(** The ring read from behind [freep]. *)
Lemma rotate h N al :
  heap_ok h N al -> exists X w Y, N = X ++ (h_freep h, w) :: Y /\ next_addr (X ++ [(h_freep h, w)]) base = base /\
    ring (h_mem h) (Y ++ X ++ [(h_freep h, w)]) (get_ptr (h_mem h) (h_freep h)) /\
    get_ptr (h_mem h) (h_freep h) = next_addr (Y ++ X ++ [(h_freep h, w)]) base.
Proof.
  intros Hk. pose proof (hk_freep _ _ _ Hk) as Hf. apply list_elem_of_fmap in Hf as ([f w] & Hfe & Hx). cbn in Hfe. rewrite Hfe in *.
  apply list_elem_of_split in Hx as (X & Y & ->). exists X, w, Y. split; [done|].
  destruct (hk_head _ _ _ Hk) as (fl & Hfl & _). pose proof (hk_ring _ _ _ Hk) as Hr.
  apply ring_app in Hr as [HrX (Hs & Hn & HrY)]. cbn [next_addr] in HrX.
  assert (next_addr (X ++ [(f, w)]) base = base) as Hhd.
  { destruct X as [|x X]; cbn [app] in *; [by injection Hfl as -> ->|injection Hfl as -> _; done]. }
  assert (get_ptr (h_mem h) f = next_addr (Y ++ X ++ [(f, w)]) base) as Hp.
  { rewrite Hn, next_addr_app. by rewrite Hhd. }
  split_and!; [done| |done]. apply ring_app. split; [|apply ring_app; split; [done|]].
  - assert (forall l (x : block) e e', next_addr (l ++ [x]) e = next_addr (l ++ [x]) e') as Hany by by intros [|[]] [] ? ?.
    by rewrite (Hany _ _ _ base), Hhd.
  - by split_and!.
Qed.

(** The block before the one that was found, in address order. *)
Lemma rotate_pred X f w Y L1 p t L2 :
  next_addr (X ++ [(f, w)]) base = base -> p <> base -> Y ++ X ++ [(f, w)] = L1 ++ (p, t) :: L2 ->
  exists A v C, X ++ (f, w) :: Y = A ++ (last_addr f L1, v) :: (p, t) :: C.
Proof.
  intros Hhd Hp He.
  assert (forall l x (z : block), exists B u, x :: l = B ++ [(last_addr x.1 l, u)]) as Hlast.
  { intros l x z. destruct (exists_last (l := x :: l)) as (B & [a u] & Hx); [done|]. exists B, u. rewrite Hx.
    repeat f_equal. unfold last_addr. apply (f_equal last) in Hx. rewrite last_cons, last_snoc in Hx.
    destruct (last l); by simplify_eq. }
  apply app_eq_inv in He as [(k & -> & Hk)|(k & -> & Hk)].
  - destruct k as [|y k]; cbn [app] in Hk.
    + exfalso. destruct X as [|[x1 x2] X]; simplify_eq/=.
    + injection Hk as <- _. destruct (Hlast L1 (f, w) (f, w)) as (B & u & HB). exists (X ++ B), u, k.
      rewrite <- app_assoc. f_equal. change ((f, w) :: L1 ++ (p, t) :: k) with (((f, w) :: L1) ++ (p, t) :: k).
      rewrite HB, <- app_assoc. done.
  - destruct k as [|y k]; cbn [app] in Hk.
    + exfalso. destruct X as [|[x1 x2] X]; simplify_eq/=.
    + assert (last_addr f (Y ++ y :: k) = last_addr y.1 k) as ->.
      { unfold last_addr. rewrite last_app, last_cons. by destruct (last k). }
      destruct (Hlast k y y) as (B & u & HB).
      assert (X ++ (f, w) :: Y = (y :: k) ++ (p, t) :: L2 ++ Y) as ->.
      { rewrite (cons_middle (f, w) X Y), app_assoc, Hk. cbn [app]. by rewrite <- app_assoc. }
      exists B, u, (L2 ++ Y). by rewrite HB, <- app_assoc.
Qed.

Lemma snoc_prefix {A} (l L1 L2 : list A) x y : l ++ [x] = L1 ++ y :: L2 -> forall z, z ∈ L1 -> z ∈ l.
Proof.
  intros He z Hz. apply app_eq_inv in He as [(k & -> & _)|(k & -> & Hk)]; [set_solver|].
  destruct k as [|a [|]]; simplify_eq/=. by rewrite app_nil_r in Hz.
Qed.

Lemma next_addr_any l x l' e e' : next_addr (l ++ x :: l') e = next_addr (l ++ x :: l') e'.
Proof. by destruct l as [|[]], x. Qed.

Lemma sorted_ne X f w Y x : sorted (X ++ (f, w) :: Y) -> x ∈ Y ++ X -> x.1 <> f.
Proof.
  intros Hs Hx. apply sorted_app in Hs as (_ & Hs2 & Hs3).
  inversion Hs2 as [|? ? _ Hf]; subst. rewrite Forall_forall in Hf. apply elem_of_app in Hx as [Hx|Hx].
  - specialize (Hf x Hx). apply before_lt in Hf. cbn in Hf. lia.
  - specialize (Hs3 x (f, w) Hx ltac:(left)). apply before_lt in Hs3. cbn in Hs3. lia.
Qed.

(** The walk comes to a block that is large enough and takes it. *)
Lemma malloc_found fuel h N al n k X w Y L1 p t L2 :
  heap_ok h N al -> 1 <= n <= t -> N = X ++ (h_freep h, w) :: Y -> next_addr (X ++ [(h_freep h, w)]) base = base ->
  ring (h_mem h) (L1 ++ (p, t) :: L2) (get_ptr (h_mem h) (h_freep h)) ->
  get_ptr (h_mem h) (h_freep h) = next_addr (L1 ++ (p, t) :: L2) base ->
  Y ++ X ++ [(h_freep h, w)] = L1 ++ (p, t) :: L2 -> (forall x, x ∈ L1 -> x.2 < n) -> (length L1 <= k)%nat ->
  exists h' N' p', malloc_loop avail fuel n (h_freep h) (get_ptr (h_mem h) (h_freep h)) h k = Some (h', p' + 16) /\
    al !! p' = None /\ heap_ok h' N' (<[p' := n]> al) /\ (length N' <= length N)%nat.
Proof.
  intros Hk Hn HN Hhd Hr Hp HL1 Hs1 Hlen. set (f := h_freep h) in *.
  assert (base < p) as Hpb.
  { destruct (hk_head _ _ _ Hk) as (fl & Hfl & Hff).
    assert ((p, t) ∈ N) as HpN by (assert ((p, t) ∈ Y ++ X ++ [(f, w)]) by (rewrite HL1; set_solver); rewrite HN; set_solver).
    rewrite Hfl in HpN. apply elem_of_cons in HpN as [[= -> ->]|HpN]; [lia|].
    rewrite Forall_forall in Hff. destruct (Hff _ HpN) as (Hlo' & _). cbn in Hlo'. lia. }
  destruct (rotate_pred X f w Y L1 p t L2 Hhd) as (A & v & C & HNA); [lia|done|].
  pose proof (hk_sorted _ _ _ Hk) as Hs. rewrite HN in Hs. rewrite HN, HNA in Hk.
  pose proof (carve_ok h A (last_addr f L1) v p t C al n Hk ltac:(lia) Hpb) as Hc.
  destruct (carve (h_mem h) (last_addr f L1) p n) as [m' p'] eqn:Hcv. destruct Hc as [Hp' Hk'].
  exists (Heap m' (last_addr f L1) (h_brk h)), (taken A (last_addr f L1, v) p t n C), p'. split_and!; [| |done|].
  - rewrite Hp at 1. rewrite (next_addr_any L1 (p, t) L2 base (get_ptr (h_mem h) f)).
    rewrite (malloc_walk fuel h n L1 p t L2 (get_ptr (h_mem h) f)); [|done| |done].
    + apply ring_app in Hr as [_ (Ht & _)].
      assert (forall k, malloc_loop avail fuel n (last_addr f L1) p h k = Some (Heap m' (last_addr f L1) (h_brk h), hdr_add p' 1)) as ->.
      { intros k0. destruct k0; cbn [malloc_loop]; rewrite (proj2 (Z.leb_le n _)) by lia; by rewrite Hcv. }
      destruct (hk_al _ _ _ Hk' p' n) as [(Hlo' & _ & He') _]; [by rewrite lookup_insert_eq|].
      pose proof (hk_brk _ _ _ Hk). unfold ext in He'. cbn [fst snd h_brk] in *.
      rewrite hdr_add_small by lia. by rewrite Z.mul_1_r.
    + intros x Hx. split; [by apply Hs1|]. eapply sorted_ne; [exact Hs|].
      rewrite app_assoc in HL1. by eapply snoc_prefix.
  - destruct (al !! p') as [s|] eqn:Ha; [|done]. exfalso. pose proof (hk_apart _ _ _ Hk (p, t) p' s) as Hap.
    destruct Hap as [Hap|Hap]; [apply elem_of_app; right; right; left|done| |]; unfold before, ext in Hap; cbn [fst snd] in Hap; lia.
  - rewrite HN, HNA. unfold taken. destruct (t =? n); rewrite !length_app; cbn [length]; lia.
Qed.

(** One time around the ring finds a block that is large enough and takes it,
    or comes to [freep], where [morecore] is called. *)
Lemma malloc_pass fuel h N al n k :
  heap_ok h N al -> 1 <= n -> (length N <= k)%nat ->
  (exists h' N' p, malloc_loop avail fuel n (h_freep h) (get_ptr (h_mem h) (h_freep h)) h k = Some (h', p + 16) /\
     al !! p = None /\ heap_ok h' N' (<[p := n]> al) /\ (length N' <= length N)%nat) \/
  (forall x, x ∈ N -> x.2 < n) /\
  exists prevp k', (S k' + length N = S k)%nat /\ get_size (h_mem h) (h_freep h) < n /\
    malloc_loop avail fuel n (h_freep h) (get_ptr (h_mem h) (h_freep h)) h k = malloc_loop avail fuel n prevp (h_freep h) h (S k').
Proof.
  intros Hk Hn Hlen. destruct (rotate h N al Hk) as (X & w & Y & HN & Hhd & Hr & Hp).
  assert (length (Y ++ X ++ [(h_freep h, w)]) = length N) as HL by (subst N; rewrite !length_app; cbn [length]; lia).
  destruct (first_big n (Y ++ X ++ [(h_freep h, w)])) as [Hsmall|(L1 & p & t & L2 & HL1 & Ht & Hs1)].
  - right. set (f := h_freep h) in *. rewrite app_assoc in Hr, Hp, HL, Hsmall. rewrite length_app in HL. cbn [length] in HL.
    split; [intros x Hx; apply Hsmall; subst N; set_solver|].
    exists (last_addr f (Y ++ X)), (k - length N)%nat. split; [lia|].
    assert (get_size (h_mem h) f = w) as Hfw by (by apply ring_app in Hr as [_ (Hr & _)]).
    split; [rewrite Hfw; apply (Hsmall (f, w)); set_solver|].
    rewrite Hp at 1. rewrite (next_addr_any (Y ++ X) (f, w) [] base (get_ptr (h_mem h) f)).
    rewrite (malloc_walk fuel h n (Y ++ X) f w [] (get_ptr (h_mem h) f)); [|done| |lia].
    + f_equal. lia.
    + intros x Hx. split; [apply Hsmall; set_solver|]. apply (sorted_ne X f w Y); [|done]. rewrite <- HN. apply Hk.
  - left. eapply malloc_found; try done; [by rewrite <- HL1|by rewrite <- HL1|].
    rewrite HL1, length_app in HL. cbn [length] in HL. lia.
Qed.

(** ** [malloc] *)

(** Before the first call there is no ring. *)
Definition alive (h : heap) (al : gmap Z Z) : Prop :=
  h_freep h = 0 /\ al = ∅ /\ lo <= h_brk h <= lim \/ exists N, heap_ok h N al.

Lemma heap_first h :
  lo <= h_brk h <= lim -> heap_ok (Heap (set_size (set_ptr (h_mem h) base base) base 0) base (h_brk h)) [(base, 0)] ∅.
Proof.
  intros Hb. constructor; cbn [h_mem h_freep h_brk].
  - exists []. split; [done|by apply Forall_nil].
  - cbn [ring next_addr]. rewrite size_set_size, ptr_set_size, ptr_set_ptr by (lia || by left). done.
  - repeat constructor.
  - intros a s Ha. by rewrite lookup_empty in Ha.
  - intros x a s _ Ha. by rewrite lookup_empty in Ha.
  - intros a s b t Ha. by rewrite lookup_empty in Ha.
  - left.
  - done.
Qed.

Definition max_bytes : Z := 2 ^ 31 - 32.

Lemma units_bound nbytes : 0 <= nbytes <= max_bytes -> 1 <= units nbytes /\ units nbytes * 16 < 2 ^ 31 /\ nbytes + 16 <= 16 * units nbytes.
Proof.
  unfold max_bytes, units, HEADER. intros Hn. pose proof (Z.div_mod (nbytes + 16 - 1) 16 ltac:(lia)) as Hd.
  pose proof (Z.mod_pos_bound (nbytes + 16 - 1) 16 ltac:(lia)). rewrite u32_small; lia.
Qed.

Lemma malloc_ring fuel n h N al :
  heap_ok h N al -> 1 <= n -> n * 16 < 2 ^ 31 -> (2 * length N + 2 <= fuel)%nat ->
  exists h' r, malloc_loop avail fuel n (h_freep h) (get_ptr (h_mem h) (h_freep h)) h fuel = Some (h', r) /\
    (r = 0 /\ (exists N', heap_ok h' N' al) /\ avail (h_brk h) (asked n) = false /\ (forall x, x ∈ N -> x.2 < n) \/
     exists p, r = p + 16 /\ al !! p = None /\ exists N', heap_ok h' N' (<[p := n]> al)).
Proof.
  intros Hk Hn Hlt Hf. destruct (malloc_pass fuel h N al n fuel Hk Hn) as [(h' & N' & p & Hr & Hp & Hk' & _)|(Hsm & prevp & k' & Hk' & Hfs & Hr)]; [lia| |].
  { exists h', (p + 16). split; [done|]. right. eauto. }
  rewrite Hr. cbn [malloc_loop]. rewrite (proj2 (Z.leb_gt n _)), Z.eqb_refl by done.
  destruct (morecore_ok fuel n h N al Hk Hn Hlt) as [[Hc Hm]|(h2 & N2 & Hm & Hk2 & Hl2 & x & Hx & Hxn)]; [lia| |]; rewrite Hm; cbn [mbind option_bind].
  { exists h, 0. split; [done|]. left. split_and!; [done|by exists N|done|done]. }
  rewrite (proj2 (Z.eqb_neq _ 0) (freep_pos _ _ _ Hk2)).
  destruct (malloc_pass fuel h2 N2 al n k' Hk2 Hn) as [(h' & N' & p & Hr' & Hp & Hk3 & _)|[Hsm2 _]]; [lia| |].
  - exists h', (p + 16). split; [done|]. right. eauto.
  - specialize (Hsm2 x Hx). lia.
Qed.

(** No free block has [n] headers; before the first call there is none. *)
Definition none_free (h : heap) (al : gmap Z Z) (n : Z) : Prop :=
  h_freep h = 0 \/ exists N, heap_ok h N al /\ forall x, x ∈ N -> x.2 < n.

Lemma malloc_ok nbytes h al :
  alive h al -> 0 <= nbytes <= max_bytes -> exists f0, forall fuel, (f0 <= fuel)%nat ->
  exists h' r, malloc base avail fuel nbytes h = Some (h', r) /\
    (r = 0 /\ alive h' al /\ avail (h_brk h) (asked (units nbytes)) = false /\ none_free h al (units nbytes) \/
     exists p, r = p + 16 /\ al !! p = None /\ alive h' (<[p := units nbytes]> al)).
Proof.
  intros Ha Hn. destruct (units_bound nbytes Hn) as (Hu1 & Hu2 & _).
  assert (forall h1 N, heap_ok h1 N al -> h_brk h1 = h_brk h ->
    ((forall x, x ∈ N -> x.2 < units nbytes) -> none_free h al (units nbytes)) -> forall fuel, (2 * length N + 2 <= fuel)%nat ->
    exists h' r, malloc_loop avail fuel (units nbytes) (h_freep h1) (get_ptr (h_mem h1) (h_freep h1)) h1 fuel = Some (h', r) /\
    (r = 0 /\ alive h' al /\ avail (h_brk h) (asked (units nbytes)) = false /\ none_free h al (units nbytes) \/
     exists p, r = p + 16 /\ al !! p = None /\ alive h' (<[p := units nbytes]> al))) as Hrun.
  { intros h1 N Hk Hb Hnf fuel Hf. destruct (malloc_ring fuel (units nbytes) h1 N al Hk Hu1 Hu2 Hf) as (h' & r & Hr & Hcase).
    exists h', r. split; [done|]. rewrite Hb in Hcase. destruct Hcase as [(? & ? & ? & ?)|(p & ? & ? & ?)]; [left|right; exists p]; unfold alive; auto. }
  unfold malloc. destruct Ha as [(Hf0 & -> & Hb)|[N Hk]].
  - rewrite Hf0, Z.eqb_refl. exists 4%nat. intros fuel Hf. apply (Hrun _ _ (heap_first h Hb)); [done|by left|done].
  - rewrite (proj2 (Z.eqb_neq _ 0) (freep_pos _ _ _ Hk)). exists (2 * length N + 2)%nat. intros fuel Hf.
    apply (Hrun h N); [done|done| |done]. intros Hsm. right. by exists N.
Qed.
End heap.

(** ** More fuel changes nothing *)

Lemma free_find_mono m bp p k k' q : (k <= k')%nat -> free_find m bp p k = Some q -> free_find m bp p k' = Some q.
Proof.
  revert p k'. induction k as [|k IH]; intros p k' Hk; destruct k' as [|k']; cbn [free_find];
    try lia; try done; repeat case_match; try done. apply IH. lia.
Qed.

Lemma free_mono fuel fuel' ap h h' : (fuel <= fuel')%nat -> free fuel ap h = Some h' -> free fuel' ap h = Some h'.
Proof.
  intros Hf. unfold free. intros (p & Hp & Hr)%bind_Some. by rewrite (free_find_mono _ _ _ _ _ _ Hf Hp).
Qed.

Lemma morecore_mono avail fuel fuel' nu h r :
  (fuel <= fuel')%nat -> morecore avail fuel nu h = Some r -> morecore avail fuel' nu h = Some r.
Proof.
  intros Hf. unfold morecore. destruct (sbrk _ _ _) as [h1 p]. destruct (p =? -1); [done|].
  intros (h2 & Hh & Hr)%bind_Some. by rewrite (free_mono _ _ _ _ _ Hf Hh).
Qed.

Lemma malloc_loop_mono avail fuel fuel' n prevp p h k k' r :
  (fuel <= fuel')%nat -> (k <= k')%nat ->
  malloc_loop avail fuel n prevp p h k = Some r -> malloc_loop avail fuel' n prevp p h k' = Some r.
Proof.
  intros Hf. revert prevp p h k'. induction k as [|k IH]; intros prevp p h k' Hk; destruct k' as [|k']; cbn [malloc_loop];
    try lia; destruct (_ <=? _); try done.
  destruct (p =? h_freep h); [|apply IH; lia]. intros ([h2 p2] & Hm & Hr)%bind_Some.
  rewrite (morecore_mono _ _ _ _ _ _ Hf Hm). cbn [mbind option_bind]. destruct (p2 =? 0); [done|]. apply IH; [lia|done].
Qed.

Lemma malloc_mono base avail fuel fuel' n h r :
  (fuel <= fuel')%nat -> malloc base avail fuel n h = Some r -> malloc base avail fuel' n h = Some r.
Proof. intros Hf. unfold malloc. by apply malloc_loop_mono. Qed.
