(* ===== verification/UmallocTheorems.v ===== *)
(** * Safety of the user allocator, and what its arithmetic does to huge requests *)

From S2P Require Import Prelude Mem Umalloc UmallocSpec.

Section client.
Context (base lo lim : Z) (avail : Z -> Z -> bool).
Context (Hbase : 0 < base) (Hlo : base + 16 <= lo) (Hlim : lim < 2 ^ 36).
Context (Havail : forall b n, avail b n = true -> b + n <= lim).

(** What a program does with its heap: it allocates, it frees what it was given,
    and it writes into the bytes it was given.  [al] maps the headers of the
    blocks it holds to their sizes in headers. *)
Inductive heap_step : heap * gmap Z Z -> heap * gmap Z Z -> Prop :=
  | step_malloc fuel n h al h' p :
      0 <= n <= max_bytes -> malloc base avail fuel n h = Some (h', p + 16) -> p + 16 <> 0 ->
      heap_step (h, al) (h', <[p := units n]> al)
  | step_no_memory fuel n h al h' :
      0 <= n <= max_bytes -> malloc base avail fuel n h = Some (h', 0) -> heap_step (h, al) (h', al)
  | step_free fuel a s h al h' :
      al !! a = Some s -> free fuel (a + 16) h = Some h' -> heap_step (h, al) (h', delete a al)
  | step_store m' h al :
      (forall b, (forall a s, al !! a = Some s -> ~ (a + 16 <= b < a + 16 * s)) -> ld8 m' b = ld8 (h_mem h) b) ->
      heap_step (h, al) (Heap m' (h_freep h) (h_brk h), al).

Notation alive := (alive base lo lim).

Lemma malloc_sound fuel n h al h' r :
  alive h al -> 0 <= n <= max_bytes -> malloc base avail fuel n h = Some (h', r) ->
  r = 0 /\ alive h' al \/ exists p, r = p + 16 /\ alive h' (<[p := units n]> al).
Proof.
  intros Ha Hn Hm. destruct (malloc_ok base lo lim avail Hbase Hlo Hlim Havail n h al Ha Hn) as (f0 & Hf).
  destruct (Hf (Nat.max f0 fuel) ltac:(lia)) as (h2 & r2 & Hm2 & Hcase).
  rewrite (malloc_mono _ _ fuel (Nat.max f0 fuel) _ _ _ ltac:(lia) Hm) in Hm2. simplify_eq.
  destruct Hcase as [(? & ? & _)|(p & ? & _ & ?)]; [by left|right; eauto].
Qed.

Lemma same_header_bytes m m' a : (forall b, a <= b < a + 16 -> ld8 m' b = ld8 m b) -> same_header m m' a.
Proof.
  intros H. split; [apply (ld_le_ext 8)|apply (ld_le_ext 4)]; intros b Hb; apply H; lia.
Qed.

Lemma step_alive h al h' al' : alive h al -> heap_step (h, al) (h', al') -> alive h' al'.
Proof.
  intros Ha Hs. inversion Hs as [fuel n ? ? ? p Hn Hm H0|fuel n ? ? ? Hn Hm|fuel a s ? ? ? Hal Hf|m' ? ? Hst]; subst.
  - destruct (malloc_sound _ _ _ _ _ _ Ha Hn Hm) as [[? _]|(q & Hq & Hk)]; [done|]. by replace p with q by lia.
  - destruct (malloc_sound _ _ _ _ _ _ Ha Hn Hm) as [[_ ?]|(q & Hq & Hk)]; [done|]. exfalso.
    destruct Hk as [(_ & Hk & _)|[N Hk]]; [by apply insert_non_empty in Hk|].
    destruct (hk_al _ _ _ _ _ _ Hk q (units n)) as [(Hq1 & _) _]; [by rewrite lookup_insert_eq|]. cbn in Hq1. lia.
  - right. destruct Ha as [(_ & -> & _)|[N Hk]]; [by rewrite lookup_empty in Hal|].
    destruct (free_ok base lo lim avail Hbase Hlo Hlim Havail (Nat.max fuel (length N)) h N al a s Hk Hal ltac:(lia)) as (h2 & N' & Hf2 & Hk2 & _).
    rewrite (free_mono fuel (Nat.max fuel (length N)) _ _ _ ltac:(lia) Hf) in Hf2. simplify_eq. by exists N'.
  - destruct Ha as [(? & -> & ?)|[N Hk]]; [by left|right]. exists N.
    assert (forall x, (forall a s, al' !! a = Some s -> a = x \/ bapart (x, 1) (a, s)) -> same_header (h_mem h) m' x) as Hsame.
    { intros x Hx. apply same_header_bytes. intros b Hb. apply Hst. intros a s Has Hin.
      destruct (Hx a s Has) as [->|Hap]; [lia|]. destruct (hk_al _ _ _ _ _ _ Hk a s Has) as [(_ & Hs1 & _) _].
      unfold bapart, before, ext in Hap. cbn [fst snd] in *. lia. }
    destruct Hk as [Hhead Hring Hsorted Hal Hapart Hpair Hfreep Hbrk]. constructor; cbn [h_mem h_freep h_brk]; try done.
    + eapply ring_frame; [|exact Hring]. intros x Hx. apply Hsame. intros a s Has. right.
      specialize (Hapart x a s Hx Has). unfold bapart, before, ext in *. cbn [fst snd] in *. lia.
    + intros a s Has. destruct (Hal a s Has) as [Hin Hsz]. split; [done|]. rewrite <- Hsz. apply Hsame.
      intros a' s' Has'. destruct (decide (a' = a)) as [|Hne]; [by left|]. right.
      specialize (Hpair a s a' s' Has Has' ltac:(congruence)). unfold bapart, before, ext in *. cbn [fst snd] in *. lia.
Qed.

Lemma steps_alive x y : rtc heap_step x y -> alive x.1 x.2 -> alive y.1 y.2.
Proof.
  induction 1 as [|[h al] [h' al'] y Hs _ IH]; [done|]. intros Ha. apply IH. by eapply step_alive.
Qed.

(** C27: Over any sequence of [malloc], [free] and stores into allocated bytes,
    from the empty heap: the blocks of the program lie between its data and its
    break and do not overlap; each of them can be freed; and the next [malloc]
    of up to [max_bytes] bytes ends, with a pointer to that many bytes that are
    in none of the blocks, nor in their headers; it ends with 0 only if no free
    block is large enough and [sbrk] refuses the bytes that [morecore] asks for,
    those of [n] and its header, or 64K if that is more. *)
Theorem malloc_safe m0 brk0 h al n :
  lo <= brk0 <= lim -> rtc heap_step (Heap m0 0 brk0, ∅) (h, al) -> 0 <= n <= max_bytes ->
  (forall a s, al !! a = Some s -> lo <= a /\ a + 16 * s <= h_brk h /\
     exists f0, forall fuel, (f0 <= fuel)%nat -> exists h', free fuel (a + 16) h = Some h') /\
  (forall a s b t, al !! a = Some s -> al !! b = Some t -> a <> b -> a + 16 * s <= b \/ b + 16 * t <= a) /\
  exists f0, forall fuel, (f0 <= fuel)%nat -> exists h' r, malloc base avail fuel n h = Some (h', r) /\
    (r = 0 /\ avail (h_brk h) (asked (units n)) = false /\ none_free base lo lim h al (units n) \/
     lo + 16 <= r /\ r + n <= h_brk h' /\
     forall a s, al !! a = Some s -> a + 16 * s <= r - 16 \/ r + n <= a).
Proof.
  intros Hb Hsteps Hn. pose proof (steps_alive _ _ Hsteps) as Ha. cbn [fst snd] in Ha.
  specialize (Ha (or_introl (conj eq_refl (conj eq_refl Hb)))). split; [|split].
  - intros a s Has. destruct Ha as [(_ & -> & _)|[N Hk]]; [by rewrite lookup_empty in Has|].
    destruct (hk_al _ _ _ _ _ _ Hk a s Has) as [(? & ? & He) _]. unfold ext in He. cbn [fst snd] in *. split_and!; [lia|lia|].
    exists (length N). intros fuel Hf. destruct (free_ok base lo lim avail Hbase Hlo Hlim Havail fuel h N al a s Hk Has Hf) as (h' & _ & Hfr & _). eauto.
  - intros a s b t Has Hbt Hne. destruct Ha as [(_ & -> & _)|[N Hk]]; [by rewrite lookup_empty in Has|].
    pose proof (hk_pair _ _ _ _ _ _ Hk a s b t Has Hbt Hne) as Hp. unfold bapart, before, ext in Hp. cbn [fst snd] in Hp. lia.
  - destruct (malloc_ok base lo lim avail Hbase Hlo Hlim Havail n h al Ha Hn) as (f0 & Hf). exists f0. intros fuel Hfu.
    destruct (Hf fuel Hfu) as (h' & r & Hm & Hcase). exists h', r. split; [done|].
    destruct Hcase as [(-> & _ & Hc & Hnf)|(p & -> & Hnone & Ha')]; [by left|right].
    destruct (units_bound n Hn) as (_ & _ & Hun).
    destruct Ha' as [(_ & Hk & _)|[N Hk]]; [by apply insert_non_empty in Hk|].
    destruct (hk_al _ _ _ _ _ _ Hk p (units n)) as [(Hp1 & Hp2 & He) _]; [by rewrite lookup_insert_eq|].
    unfold ext in He. cbn [fst snd] in *. split_and!; [lia|lia|]. intros a s Has.
    assert (p <> a) as Hne by congruence.
    pose proof (hk_pair _ _ _ _ _ _ Hk p (units n) a s) as Hp. rewrite lookup_insert_eq, lookup_insert_ne in Hp by done.
    specialize (Hp eq_refl Has Hne). unfold bapart, before, ext in Hp. cbn [fst snd] in Hp. lia.
Qed.
End client.

(** A process of 64K that may grow to a megabyte. *)
Definition mega (b n : Z) : bool := b + n <=? 2 ^ 20.

Lemma malloc_safe_witness :
  exists f0, forall fuel, (f0 <= fuel)%nat -> exists h' r, malloc 64 mega fuel 100 (Heap ∅ 0 65536) = Some (h', r) /\
    4096 + 16 <= r /\ r + 100 <= h_brk h'.
Proof.
  destruct (malloc_safe 64 4096 (2 ^ 20) mega) with (m0 := ∅ : mem) (brk0 := 65536) (h := Heap ∅ 0 65536) (al := ∅ : gmap Z Z) (n := 100)
    as (_ & _ & f0 & Hf); [lia|lia|lia| |lia|apply rtc_refl|unfold max_bytes; lia|].
  - intros b n Hb. unfold mega in Hb. lia.
  - exists f0. intros fuel Hfu. destruct (Hf fuel Hfu) as (h' & r & Hm & Hcase). exists h', r. split; [exact Hm|].
    destruct Hcase as [(_ & Hc & _)|(H1 & H2 & _)]; [vm_compute in Hc; discriminate|split; assumption].
Defined.

(** C36: The arithmetic of [malloc] on a request of nearly 4G: the size in bytes
    that [morecore] passes to [sbrk] does not fit its [int] argument, [sbrk]
    grows the process by 16 bytes, and [malloc] returns a pointer to its new
    break as if 4G were there. *)
Theorem malloc_huge_returns_break base avail m brk :
  0 < base -> base + 16 <= brk -> brk < 2 ^ 36 -> avail brk 16 = true ->
  exists h', malloc base avail 4 (2 ^ 32 - 1) (Heap m 0 brk) = Some (h', h_brk h') /\ h_brk h' = brk + 16.
Proof.
  intros Hb Hbb Hbrk Ha. unfold malloc. cbn [h_freep h_mem h_brk]. rewrite Z.eqb_refl. cbn [h_freep h_mem h_brk].
  set (m1 := set_size (set_ptr m base base) base 0).
  assert (get_ptr m1 base = base) as Hp1 by (unfold m1; rewrite ptr_set_size by (by left); by apply ptr_set_ptr; lia).
  assert (get_size m1 base = 0) as Hs1 by (unfold m1; by apply size_set_size).
  assert (hapart base brk) as Hap by (left; lia). assert (hapart brk base) as Hap' by (right; lia).
  change (units (2 ^ 32 - 1)) with (2 ^ 28 + 1). set (n := 2 ^ 28 + 1).
  set (m2 := set_size m1 brk n). set (m3 := set_ptr (set_ptr m2 brk base) base brk).
  assert (get_size m2 brk = n) as Hs2 by (unfold m2; apply size_set_size; unfold n; lia).
  assert (get_size m2 base = 0) as Hs2' by (unfold m2; by rewrite size_set_size_ne).
  assert (get_ptr m2 base = base) as Hp2 by (unfold m2; by rewrite ptr_set_size by by right).
  assert (free 4 (hdr_add brk 1) (Heap m2 base (brk + 16)) = Some (Heap m3 base (brk + 16))) as Hfree.
  { unfold free. rewrite hdr_add_small by lia. replace (brk + 16 * 1 - HEADER) with brk by (unfold HEADER; lia).
    cbn [h_mem h_freep h_brk free_find]. rewrite Hp2, (proj2 (Z.ltb_lt base brk)), (proj2 (Z.ltb_ge brk base)), Z.leb_refl by lia.
    cbn [andb orb mbind option_bind]. unfold join_next. rewrite Hs2, Hp2, hdr_add_small by (unfold n; lia).
    rewrite (proj2 (Z.eqb_neq (brk + 16 * n) base)) by (unfold n; lia). unfold join_prev.
    rewrite (size_set_ptr m2 brk base) by by right. rewrite Hs2', hdr_add_small by lia.
    by rewrite (proj2 (Z.eqb_neq (base + 16 * 0) brk)) by lia. }
  assert (morecore avail 4 n (Heap m1 base brk) = Some (Heap m3 base (brk + 16), base)) as Hmore.
  { unfold morecore. rewrite (proj2 (Z.ltb_ge n 4096)) by (unfold n; lia). change (s32 (n * HEADER)) with 16.
    unfold sbrk. cbn [h_mem h_freep h_brk Z.ltb Z.compare]. rewrite Ha, (proj2 (Z.eqb_neq brk (-1))) by lia.
    cbn [h_mem h_freep h_brk]. fold m2. by rewrite Hfree. }
  assert (get_ptr m3 base = brk /\ get_size m3 brk = n) as [Hp3 Hs3].
  { unfold m3. split; [apply ptr_set_ptr; lia|]. rewrite size_set_ptr by by right. by rewrite size_set_ptr by by left. }
  rewrite Hp1. cbn [malloc_loop h_mem h_freep h_brk]. rewrite Hs1, (proj2 (Z.leb_gt n 0)), Z.eqb_refl by (unfold n; lia).
  rewrite Hmore. cbn [mbind option_bind h_mem h_freep h_brk]. rewrite (proj2 (Z.eqb_neq base 0)) by lia.
  rewrite Hp3, Hs3, Z.leb_refl. unfold carve. rewrite Hs3, Z.eqb_refl. rewrite hdr_add_small by lia.
  exists (Heap (set_ptr m3 base (get_ptr m3 brk)) base (brk + 16)). done.
Qed.

Lemma malloc_huge_returns_break_witness :
  exists h', malloc 64 mega 4 (2 ^ 32 - 1) (Heap ∅ 0 65536) = Some (h', h_brk h') /\ h_brk h' = 65536 + 16.
Proof. apply malloc_huge_returns_break; [lia|lia|lia|reflexivity]. Defined.
