(* ===== verification/ShParse.v ===== *)
(** * The parser of user/sh.c is total, and its strings are the words of the line *)

From S2P Require Import Prelude Mem Printf Sysfile User Sh.

Definition white (c : Z) : bool := has whitespace c.
Definition wordchar (c : Z) : bool := negb (has whitespace c) && negb (has symbols c).

Lemma has_In toks c : 0 ∉ toks -> has toks c = bool_decide (c ∈ toks).
Proof. apply strchr_In. Qed.

(** A line: the characters of a buffer up to its NUL. *)
Section line.
Context {b : list Z} {es : nat}.
Context (Hb : 0 ∉ take es b) (Hes : char_at b es = 0) (Hlen : (es <= length b)%nat).

Lemma char_nonzero s : (s < es)%nat -> char_at b s <> 0.
Proof.
  intros Hs H0. apply Hb. apply list_elem_of_lookup. exists s.
  rewrite lookup_take_lt by done. unfold char_at in H0.
  destruct (lookup_lt_is_Some_2 b s ltac:(lia)) as [c Hc]. by rewrite (nth_lookup_Some _ _ 0 _ Hc) in H0; subst.
Qed.

Lemma char_zero s : (s <= es)%nat -> char_at b s = 0 <-> s = es.
Proof.
  intros Hs. split; [|by intros ->]. intros H0. destruct (decide (s = es)); [done|].
  by destruct (char_nonzero s ltac:(lia)).
Qed.

Lemma skip_while_spec p s k :
  (s <= skip_while b p s k <= s + k)%nat /\
  (forall i, (s <= i < skip_while b p s k)%nat -> p (char_at b i) = true) /\
  ((skip_while b p s k < s + k)%nat -> p (char_at b (skip_while b p s k)) = false).
Proof.
  clear Hb Hes Hlen. revert s. induction k as [|k IH]; intros s; cbn; [split_and!; intros; lia|].
  destruct (p (char_at b s)) eqn:Hp; [|split_and!; [lia|lia|intros; lia|done]].
  destruct (IH (S s)) as (Hr & Hi & He). split_and!; [lia|lia| |intros; apply He; lia].
  intros i Hi'. destruct (decide (i = s)) as [->|]; [done|]. apply Hi. lia.
Qed.

Lemma skip_white_bounds s : (s <= es)%nat -> (s <= skip_white b es s <= es)%nat.
Proof. clear Hb Hes Hlen. intros Hs. unfold skip_white. pose proof (skip_while_spec (has whitespace) s (es - s)). lia. Qed.

Lemma peek_bounds s toks : (s <= es)%nat -> (s <= (peek b es s toks).2 <= es)%nat.
Proof. apply skip_white_bounds. Qed.

(** A word of the line: it ends at the end of the line or before a character
    that is not of a word. *)
Definition is_word (a : nat * nat) : Prop :=
  (a.1 < a.2 <= es)%nat /\ (forall i, (a.1 <= i < a.2)%nat -> wordchar (char_at b i) = true) /\
  ((a.2 < es)%nat -> wordchar (char_at b a.2) = false).

Lemma white_not_word c : has whitespace c = false -> c <> 0 -> has (bytes "|();&<") c = false -> c <> 62 -> wordchar c = true.
Proof.
  intros Hw H0 Hs Hg. unfold wordchar. rewrite Hw. cbn [negb andb].
  rewrite has_In in Hs |- * by set_solver. apply bool_decide_eq_false in Hs. apply negb_true_iff, bool_decide_eq_false.
  change (bytes "|();&<") with [124; 40; 41; 59; 38; 60] in Hs.
  change symbols with [60; 124; 62; 38; 59; 40; 41]. set_solver.
Qed.

(** A token that is not the end of the line takes a character of it. *)
Lemma gettoken_spec s :
  (s <= es)%nat ->
  let '(tok, q, eq, s') := gettoken b es s in
  (s <= s' <= es)%nat /\ (tok <> 0 -> (s < s')%nat) /\ (tok = 97 -> is_word (q, eq)).
Proof.
  intros Hs. unfold gettoken. pose proof (skip_white_bounds s Hs) as Hq.
  set (q := skip_white b es s) in *. set (c := char_at b q).
  destruct (Z.eqb_spec c 0) as [Hc|Hc].
  { pose proof (skip_white_bounds q (proj2 Hq)). split_and!; [lia|lia|done|done]. }
  assert (q < es)%nat as Hqe by (destruct (decide (q = es)) as [He|]; [destruct Hc; unfold c; by rewrite He|lia]).
  destruct (has (bytes "|();&<") c) eqn:Hsym.
  { pose proof (skip_white_bounds (S q) ltac:(lia)). split_and!; [lia|lia|lia|].
    intros Ha. rewrite Ha in Hsym. discriminate. }
  destruct (Z.eqb_spec c 62) as [|Hgt].
  { destruct (Z.eqb_spec (char_at b (S q)) 62) as [Hgg|].
    - assert (S q < es)%nat by (destruct (decide (S q = es)) as [He|]; [rewrite He, Hes in Hgg; lia|lia]).
      pose proof (skip_white_bounds (S (S q)) ltac:(lia)). split_and!; [lia|lia|lia|done].
    - pose proof (skip_white_bounds (S q) ltac:(lia)). split_and!; [lia|lia|lia|done]. }
  assert (has whitespace c = false) as Hw.
  { apply (proj2 (proj2 (skip_while_spec (has whitespace) s (es - s)))). change (q < s + (es - s))%nat. lia. }
  destruct (skip_while_spec wordchar q (es - q)) as (Hr & Hin & Hend).
  change (skip_while b wordchar q (es - q)) with (skip_word b es q) in *.
  assert (q < skip_word b es q)%nat as Hlt.
  { unfold skip_word. replace (es - q)%nat with (S (es - S q)) by lia. cbn [skip_while].
    fold c. fold (wordchar c). rewrite white_not_word by done.
    pose proof (skip_while_spec wordchar (S q) (es - S q)). unfold wordchar in *. lia. }
  pose proof (skip_white_bounds (skip_word b es q) ltac:(lia)).
  split_and!; [lia|lia|lia|]. intros _. split_and!; cbn; [lia|lia|done|]. intros. apply Hend. lia.
Qed.

(** All the strings of a command are words of the line. *)
Fixpoint words_of (c : cmd) : list (nat * nat) :=
  match c with
  | EXEC argv => argv
  | REDIR c file efile _ _ => words_of c ++ [(file, efile)]
  | PIPE l r => words_of l ++ words_of r
  | LIST l r => words_of l ++ words_of r
  | BACK c => words_of c
  end.

Definition parsed (s : nat) (r : pres (cmd * nat)) : Prop :=
  match r with
  | POk (c, s') => (s <= s' <= es)%nat /\ Forall is_word (words_of c)
  | PPanic _ => True
  | PFuel => False
  end.

Lemma parsed_mono s s' r : (s <= s')%nat -> parsed s' r -> parsed s r.
Proof. intros Hs. destruct r as [[c s'']| |]; cbn; [intros [? ?]; split; [lia|done]|done|done]. Qed.

Lemma parsed_bind s r f :
  parsed s r ->
  (forall c s', (s <= s' <= es)%nat -> Forall is_word (words_of c) -> parsed s (f (c, s'))) ->
  parsed s (r ≫= f).
Proof. destruct r as [[c s']| |]; cbn; [|done|done]. intros [Hs Hw] Hf. by apply Hf. Qed.

Lemma skip_white_idem s : (s <= es)%nat -> skip_white b es (skip_white b es s) = skip_white b es s.
Proof.
  intros Hs. destruct (skip_while_spec (has whitespace) s (es - s)) as (Hr & _ & He).
  unfold skip_white in *. set (q := skip_while b (has whitespace) s (es - s)) in *.
  destruct (es - q)%nat eqn:Hk; [done|]. cbn [skip_while]. by rewrite He by lia.
Qed.

(** After [peek] has said yes there is a token to take. *)
Lemma peek_gettoken s toks :
  (s <= es)%nat -> (peek b es s toks).1 = true ->
  ((peek b es s toks).2 < (gettoken b es (peek b es s toks).2).2)%nat /\
  ((gettoken b es (peek b es s toks).2).2 <= es)%nat.
Proof.
  intros Hs Hp. pose proof (peek_bounds s toks Hs) as Hq. unfold peek in *. cbn [fst snd] in *.
  apply andb_true_iff in Hp as [Hc _]. apply negb_true_iff, Z.eqb_neq in Hc.
  pose proof (gettoken_spec (skip_white b es s) (proj2 Hq)) as Hg.
  unfold gettoken in *. rewrite skip_white_idem in * by done.
  set (q := skip_white b es s) in *. rewrite (proj2 (Z.eqb_neq _ _) Hc) in *.
  destruct (has (bytes "|();&<") _); [|destruct (Z.eqb_spec (char_at b q) 62); [destruct (Z.eqb_spec (char_at b (S q)) 62)|]];
    cbn [snd]; destruct Hg as (? & Ht & _); split; try lia; apply Ht; lia.
Qed.

Lemma redir_switch_words c tok q eq :
  Forall is_word (words_of c) -> is_word (q, eq) -> Forall is_word (words_of (redir_switch c tok q eq)).
Proof.
  intros Hc Hq. unfold redir_switch.
  destruct (tok =? 60), (tok =? 62), (tok =? 43); cbn; try done; apply Forall_app; by split; [|constructor].
Qed.

Lemma add_arg_words c q eq :
  Forall is_word (words_of c) -> is_word (q, eq) -> Forall is_word (words_of (add_arg c q eq)).
Proof.
  intros Hc Hq. induction c; cbn in *; try done.
  - apply Forall_app. by split; [|constructor].
  - apply Forall_app in Hc as [Hc Hf]. apply Forall_app. split; [by apply IHc|done].
Qed.

Lemma parseredirs_parsed c s :
  (s <= es)%nat -> Forall is_word (words_of c) -> parsed s (parseredirs b es c s).
Proof.
  intros Hs Hc. unfold parseredirs. assert (es - s < S (es - s))%nat as Hk by lia. revert Hk.
  generalize (S (es - s)) as k. intros k. revert c s Hs Hc.
  induction k as [|k IH]; intros c s Hs Hc Hk; [lia|]. cbn [parseredirs_loop].
  pose proof (peek_bounds s (bytes "<>") Hs) as Hp. destruct (peek b es s (bytes "<>")) as [more s1]. cbn in Hp.
  destruct more; [|by split].
  pose proof (gettoken_spec s1 (proj2 Hp)) as H1. destruct (gettoken b es s1) as [[[tok q1] eq1] s2].
  pose proof (gettoken_spec s2 ltac:(lia)) as H2. destruct (gettoken b es s2) as [[[t q] eq] s3].
  destruct (Z.eqb_spec t 97) as [Ht|]; [|done]. cbn [negb].
  destruct H1 as (? & _), H2 as (? & Hlt & Hw). specialize (Hlt ltac:(lia)).
  apply (parsed_mono s s3); [lia|]. apply IH; [lia|by apply redir_switch_words; [|apply Hw]|lia].
Qed.

Lemma parseexec_loop_parsed c argc s k :
  (s <= es)%nat -> Forall is_word (words_of c) -> (es - s < k)%nat -> parsed s (parseexec_loop b es c argc s k).
Proof.
  revert c argc s. induction k as [|k IH]; intros c argc s Hs Hc Hk; [lia|]. cbn [parseexec_loop].
  pose proof (peek_bounds s (bytes "|)&;") Hs) as Hp. destruct (peek b es s (bytes "|)&;")) as [stop s1]. cbn in Hp.
  destruct stop; [by split|].
  pose proof (gettoken_spec s1 (proj2 Hp)) as H1. destruct (gettoken b es s1) as [[[tok q] eq] s2].
  destruct H1 as (? & Hlt & Hw). destruct (Z.eqb_spec tok 0) as [|H0]; [split; [lia|done]|].
  destruct (Z.eqb_spec tok 97) as [Ht|]; [|done]. cbn [negb]. specialize (Hlt H0).
  destruct (MAXARGS <=? S argc)%nat; [done|].
  apply (parsed_mono s s2); [lia|]. apply parsed_bind.
  - apply parseredirs_parsed; [lia|]. by apply add_arg_words; [|apply Hw].
  - intros c' s' Hs' Hc'. cbn [fst snd]. apply (parsed_mono s2 s'); [lia|]. apply IH; [lia|done|lia].
Qed.

Lemma backs_loop_parsed c s k :
  (s <= es)%nat -> Forall is_word (words_of c) -> (es - s < k)%nat -> parsed s (backs_loop b es c s k).
Proof.
  revert c s. induction k as [|k IH]; intros c s Hs Hc Hk; [lia|]. cbn [backs_loop].
  pose proof (peek_bounds s (bytes "&") Hs) as Hp. pose proof (peek_gettoken s (bytes "&") Hs) as Hg.
  destruct (peek b es s (bytes "&")) as [more s1]. cbn [fst snd] in *. destruct more; [|by split].
  specialize (Hg eq_refl). destruct (gettoken b es s1) as [[[tok q] eq] s2]. cbn [snd] in Hg.
  apply (parsed_mono s s2); [lia|]. apply IH; [lia|done|lia].
Qed.

(** One step of the recursive descent: look, take the token if it is there. *)
Lemma descend s toks (yes : nat -> pres (cmd * nat)) (no : nat -> pres (cmd * nat)) :
  (s <= es)%nat ->
  (forall s', (s < s' <= es)%nat -> parsed s (yes s')) -> (forall s', (s <= s' <= es)%nat -> parsed s (no s')) ->
  parsed s (let (more, s1) := peek b es s toks in
            if more then let '(_, _, _, s2) := gettoken b es s1 in yes s2 else no s1).
Proof.
  intros Hs Hy Hn. pose proof (peek_bounds s toks Hs) as Hp. pose proof (peek_gettoken s toks Hs) as Hg.
  destruct (peek b es s toks) as [more s1]. cbn [fst snd] in *. destruct more; [|by apply Hn].
  specialize (Hg eq_refl). destruct (gettoken b es s1) as [[[tok q] eq] s2]. cbn [snd] in Hg. apply Hy. lia.
Qed.

Lemma descend_not s toks (yes : nat -> pres (cmd * nat)) (no : nat -> pres (cmd * nat)) :
  (s <= es)%nat ->
  (forall s', (s < s' <= es)%nat -> parsed s (yes s')) -> (forall s', (s <= s' <= es)%nat -> parsed s (no s')) ->
  parsed s (let (more, s1) := peek b es s toks in
            if negb more then no s1 else let '(_, _, _, s2) := gettoken b es s1 in yes s2).
Proof.
  intros Hs Hy Hn. pose proof (descend s toks yes no Hs Hy Hn) as Hd.
  by destruct (peek b es s toks) as [[] s1].
Qed.

Lemma parser_parsed n :
  (forall s, (s <= es)%nat -> (4 * (es - s) + 4 <= n)%nat -> parsed s (parseline b es n s)) /\
  (forall s, (s <= es)%nat -> (4 * (es - s) + 3 <= n)%nat -> parsed s (parsepipe b es n s)) /\
  (forall s, (s <= es)%nat -> (4 * (es - s) + 2 <= n)%nat -> parsed s (parseexec b es n s)) /\
  (forall s, (s <= es)%nat -> (4 * (es - s) + 1 <= n)%nat -> parsed s (parseblock b es n s)).
Proof.
  induction n as [|n (IHl & IHp & IHe & IHb)]; [split_and!; lia|].
  split_and!; intros s Hs Hn; cbn [parseline parsepipe parseexec parseblock].
  - apply parsed_bind; [apply IHp; lia|]. intros c s1 Hs1 Hc. cbn [fst snd].
    apply parsed_bind; [apply (parsed_mono s s1); [lia|]; apply backs_loop_parsed; [lia|done|lia]|].
    intros c2 s2 Hs2 Hc2. cbn [fst snd]. apply (parsed_mono s s2); [lia|].
    apply (descend s2); [lia| |intros; split; [lia|done]].
    intros s3 Hs3. apply parsed_bind; [apply (parsed_mono s2 s3); [lia|]; apply IHl; lia|].
    intros c4 s4 Hs4 Hc4. split; [cbn; lia|]. cbn. by apply Forall_app.
  - apply parsed_bind; [apply IHe; lia|]. intros c s2 Hs2 Hc. cbn [fst snd]. apply (parsed_mono s s2); [lia|].
    apply (descend s2); [lia| |intros; split; [lia|done]].
    intros s3 Hs3. apply parsed_bind; [apply (parsed_mono s2 s3); [lia|]; apply IHp; lia|].
    intros c4 s4 Hs4 Hc4. split; [cbn; lia|]. cbn. by apply Forall_app.
  - pose proof (peek_bounds s (bytes "(") Hs) as Hp. destruct (peek b es s (bytes "(")) as [block s1]. cbn in Hp.
    apply (parsed_mono s s1); [lia|]. destruct block; [apply IHb; lia|].
    apply parsed_bind; [apply parseredirs_parsed; [lia|by constructor]|].
    intros c s2 Hs2 Hc. cbn [fst snd]. apply (parsed_mono s1 s2); [lia|]. apply parseexec_loop_parsed; [lia|done|lia].
  - apply (descend_not s (bytes "(")); [done| |done].
    intros s2 Hs2. apply parsed_bind; [apply (parsed_mono s s2); [lia|]; apply IHl; lia|].
    intros c s3 Hs3 Hc. cbn [fst snd]. apply (parsed_mono s s3); [lia|].
    apply (descend_not s3 (bytes ")")); [lia| |done].
    intros s4 Hs4. apply (parsed_mono s3 s4); [lia|]. apply parseredirs_parsed; [lia|done].
Qed.
End line.

(** ** The strings that [nulterminate] makes *)

(** The characters of a word in the line. *)
Definition slice (b : list Z) (a : nat * nat) : list Z := map (char_at b) (seq a.1 (a.2 - a.1)).

Lemma nth_put_nul p b i : char_at (put_nul p b) i = if decide (i = p) then 0 else char_at b i.
Proof.
  unfold char_at, put_nul. rewrite !nth_lookup. case_decide as Hi.
  - subst i. destruct (decide (p < length b)%nat).
    + by rewrite list_lookup_insert_eq.
    + rewrite lookup_ge_None_2; [done|]. rewrite length_insert. lia.
  - by rewrite list_lookup_insert_ne.
Qed.

Lemma nulterminate_argv_at argv b i :
  char_at (nulterminate_argv argv b) i = if decide (i ∈ argv.*2) then 0 else char_at b i.
Proof.
  revert b. induction argv as [|[q eq] argv IH]; intros b; cbn [nulterminate_argv].
  - by rewrite decide_False by set_solver.
  - rewrite IH, nth_put_nul. repeat case_decide; set_solver.
Qed.

(** It writes a NUL behind every string and changes nothing else. *)
Lemma nulterminate_at c b i :
  char_at (nulterminate c b) i = if decide (i ∈ (words_of c).*2) then 0 else char_at b i.
Proof.
  revert b. induction c; intros b; cbn [nulterminate words_of].
  - apply nulterminate_argv_at.
  - rewrite nth_put_nul, IHc, fmap_app. repeat case_decide; set_solver.
  - rewrite IHc2, IHc1, fmap_app. repeat case_decide; set_solver.
  - rewrite IHc2, IHc1, fmap_app. repeat case_decide; set_solver.
  - apply IHc.
Qed.

Lemma char_at_drop b q : char_at b q = nth 0 (drop q b) 0.
Proof. unfold char_at. by rewrite !nth_lookup, lookup_drop, Nat.add_0_r. Qed.

Lemma drop_tail {A} (q : nat) (b : list A) : drop (S q) b = tail (drop q b).
Proof. revert b. induction q as [|q IH]; intros [|x b]; try done. apply IH. Qed.

Lemma cstr_slice b n q :
  (forall i, (q <= i < q + n)%nat -> char_at b i <> 0) -> char_at b (q + n) = 0 ->
  cstring (drop q b) = map (char_at b) (seq q n).
Proof.
  revert q. induction n as [|n IH]; intros q Hnz Hz; cbn [seq map].
  - rewrite Nat.add_0_r, char_at_drop in Hz. destruct (drop q b); cbn in *; [done|by rewrite Hz].
  - assert (char_at b q <> 0) as Hq by (apply Hnz; lia). rewrite <- IH.
    + rewrite drop_tail. rewrite char_at_drop in *. destruct (drop q b) as [|c l]; cbn in *; [done|].
      by rewrite (proj2 (Z.eqb_neq c 0)).
    + intros. apply Hnz. lia.
    + by rewrite Nat.add_succ_l, <- Nat.add_succ_r.
Qed.

(** The ends of the words are no characters of words: no string is cut. *)
Lemma nulterminate_str b es c a :
  0 ∉ take es b -> char_at b es = 0 -> (es <= length b)%nat ->
  Forall (is_word (b := b) (es := es)) (words_of c) -> a ∈ words_of c -> str_at (nulterminate c b) a.1 = slice b a.
Proof.
  intros Hb Hes Hlen Hw Ha. rewrite Forall_forall in Hw. destruct (Hw a Ha) as (Hae & Hin & _).
  assert (forall i, (a.1 <= i < a.2)%nat -> char_at (nulterminate c b) i = char_at b i) as Heq.
  { intros i Hi. rewrite nulterminate_at, decide_False; [done|]. intros ([q e] & He & Hq)%list_elem_of_fmap.
    destruct (Hw _ Hq) as (? & _ & Hend). cbn in *. subst i. rewrite Hin in Hend by done. destruct (decide (e < es)%nat); [|lia].
    by specialize (Hend ltac:(lia)). }
  unfold str_at, slice. rewrite (cstr_slice _ (a.2 - a.1)).
  - apply map_ext_in. intros i Hi%in_seq. apply Heq. lia.
  - intros i Hi. rewrite Heq by lia. eapply char_nonzero; [done..|lia].
  - rewrite nulterminate_at, decide_True; [done|]. replace (a.1 + (a.2 - a.1))%nat with a.2 by lia.
    by apply list_elem_of_fmap_2.
Qed.

Lemma strlen_line b :
  let es := Z.to_nat (ulib.strlen b) in 0 ∉ take es b /\ char_at b es = 0 /\ (es <= length b)%nat.
Proof.
  induction b as [|c b (IH1 & IH2 & IH3)]; cbn; [split_and!; [set_solver|done|lia]|].
  assert (0 <= ulib.strlen b) by (clear; induction b as [|d b IH]; cbn; [lia|destruct (d =? 0); lia]).
  destruct (Z.eqb_spec c 0) as [->|]; [split_and!; [set_solver|done|cbn; lia]|].
  rewrite Z2Nat.inj_add by lia. cbn. split_and!; [set_solver|done|lia].
Qed.

(** C35: The shell's parser, on any buffer: with [4 * strlen + 4] levels of
    calls and a round of each loop per character it ends, with a command or in
    a call of [panic]; and after [nulterminate] each string of the command, as
    [exec] and [open] will read it up to its NUL, is a word of the line, not
    empty and without separators or symbols: no string is cut by the NUL of
    another. *)
Theorem parsecmd_words b :
  let es := Z.to_nat (ulib.strlen b) in
  match parseline b es (4 * es + 4) 0 with
  | POk (c, s) =>
      (s <= es)%nat /\
      Forall (fun a => let w := str_at (nulterminate c b) a.1 in
                       w = slice b a /\ w <> [] /\ Forall (fun ch => wordchar ch = true) w) (words_of c)
  | PPanic _ => True
  | PFuel => False
  end.
Proof.
  destruct (strlen_line b) as (Hb & Hes & Hlen). cbn zeta in *. set (es := Z.to_nat (ulib.strlen b)) in *.
  pose proof (proj1 (parser_parsed Hb Hes Hlen (4 * es + 4)) 0%nat ltac:(lia) ltac:(lia)) as Hp.
  destruct (parseline b es (4 * es + 4) 0) as [[c s]| |]; [|done|done]. destruct Hp as [Hs Hw].
  split; [lia|]. apply Forall_forall. intros a Ha. rewrite (nulterminate_str b es) by done.
  rewrite Forall_forall in Hw. destruct (Hw a Ha) as (Hlt & Hin & _). unfold slice. split_and!; [done| |].
  - destruct (a.2 - a.1)%nat eqn:?; [lia|done].
  - apply Forall_forall. intros ch (i & -> & Hi%list_elem_of_In%in_seq)%list_elem_of_fmap. apply Hin. lia.
Qed.
