(* ===== verification/ShPrint.v ===== *)
(** * Parsing what a printer of shell commands prints

    Commands as trees with their strings, a printer that puts parentheses only
    where the grammar needs them, and the round trip through the parser of
    user/sh.c. *)

From S2P Require Import Prelude Mem Printf Sysfile User Grep Sh ShParse.

Inductive tree :=
  | TExec (ws : list (list Z))
  | TRedir (t : tree) (file : list Z) (mode fd : Z)
  | TPipe (l r : tree)
  | TList (l r : tree)
  | TBack (t : tree).

(** The tree of a command whose strings are read by [str]. *)
Fixpoint cmd_tree (str : nat * nat -> list Z) (c : cmd) : tree :=
  match c with
  | EXEC argv => TExec (str <$> argv)
  | REDIR c q eq mode fd => TRedir (cmd_tree str c) (str (q, eq)) mode fd
  | PIPE l r => TPipe (cmd_tree str l) (cmd_tree str r)
  | LIST l r => TList (cmd_tree str l) (cmd_tree str r)
  | BACK c => TBack (cmd_tree str c)
  end.

Definition O_REWRITE : Z := Z.lor (Z.lor O_WRONLY O_CREATE) O_TRUNC.
Definition O_APPEND : Z := Z.lor O_WRONLY O_CREATE.

Definition spaced (ws : list (list Z)) : list Z := concat (cons 32 <$> ws).

(** Words with a space between them. *)
Definition join (ws : list (list Z)) : list Z :=
  match ws with [] => [] | w :: ws => w ++ spaced ws end.

Definition rop (mode : Z) : list Z :=
  if mode =? O_RDONLY then [60] else if mode =? O_REWRITE then [62] else [62; 62].

Definition level (t : tree) : nat :=
  match t with TExec _ | TRedir _ _ _ _ => 0 | TPipe _ _ => 1 | TBack _ => 2 | TList _ _ => 3 end.

Fixpoint print (lv : nat) (t : tree) : list Z :=
  let text :=
    match t with
    | TExec ws => join ws
    | TRedir t file mode _ => print 0 t ++ rop mode ++ file
    | TPipe l r => print 0 l ++ 124 :: print 1 r
    | TList l r => print 2 l ++ 59 :: print 3 r
    | TBack t => print 2 t ++ [38]
    end in
  if (level t <=? lv)%nat then text else 40 :: text ++ [41].

Definition word (w : list Z) : Prop := w <> [] /\ Forall (fun c => wordchar c = true /\ c <> 0) w.

Definition redir_mode (mode fd : Z) : Prop :=
  mode = O_RDONLY /\ fd = 0 \/ mode = O_REWRITE /\ fd = 1 \/ mode = O_APPEND /\ fd = 1.

Fixpoint ok (t : tree) : Prop :=
  match t with
  | TExec ws => (length ws < MAXARGS)%nat /\ Forall word ws
  | TRedir t file mode fd => ok t /\ word file /\ redir_mode mode fd
  | TPipe l r => ok l /\ ok r
  | TList l r => ok l /\ ok r
  | TBack t => ok t
  end.

(** Membership in a concrete list. *)
Ltac elem := apply (bool_decide_unpack _); vm_compute; exact I.

(** ** Texts up to white space *)

Fixpoint drop_while (p : Z -> bool) (l : list Z) : list Z :=
  match l with [] => [] | c :: l' => if p c then drop_while p l' else l end.

Definition strip : list Z -> list Z := drop_while (has whitespace).

Lemma strip_strip l : strip (strip l) = strip l.
Proof. unfold strip. induction l as [|c l IH]; cbn; [done|]. destruct (has whitespace c) eqn:Hc; [done|]. cbn. by rewrite Hc. Qed.

Lemma strip_cons c l : has whitespace c = false -> strip (c :: l) = c :: l.
Proof. intros Hc. unfold strip. cbn. by rewrite Hc. Qed.

Lemma drop_while_all p w r :
  Forall (fun c => p c = true) w -> match r with [] => True | c :: _ => p c = false end -> drop_while p (w ++ r) = r.
Proof.
  induction 1 as [|c w Hc Hw IH]; intros Hr; cbn; [|by rewrite Hc, IH].
  destruct r as [|c r]; [done|]. cbn. by rewrite Hr.
Qed.

(** What may follow, after white space. *)
Definition follows (toks post : list Z) : Prop :=
  match strip post with [] => True | c :: _ => c ∈ toks end.

Definition ends_word (post : list Z) : Prop := match post with [] => True | c :: _ => wordchar c = false end.

Lemma word_head c w : word (c :: w) -> has whitespace c = false /\ has symbols c = false /\ c <> 0.
Proof.
  intros [_ Hf]. apply Forall_cons in Hf as [[Hc H0] _]. apply andb_true_iff in Hc as [Hw Hs].
  by apply negb_true_iff in Hw, Hs.
Qed.

Lemma word_wordchars w : word w -> Forall (fun c => wordchar c = true) w.
Proof. intros [_ Hf]. eapply Forall_impl; [exact Hf|]. by intros c []. Qed.

Lemma has_symbols c : c ∈ symbols -> has symbols c = true /\ has whitespace c = false /\ c <> 0.
Proof.
  intros Hc. change symbols with [60; 124; 62; 38; 59; 40; 41] in Hc.
  repeat (apply elem_of_cons in Hc as [->|Hc]; [done|]). by apply not_elem_of_nil in Hc.
Qed.

Lemma follows_ends_word toks post : (forall c, c ∈ toks -> c ∈ symbols) -> follows toks post -> ends_word post.
Proof.
  intros Hsub. unfold follows, ends_word, strip. destruct post as [|c post]; [done|]. cbn [drop_while].
  unfold wordchar. destruct (has whitespace c); [done|]. intros Hc%Hsub.
  apply has_symbols in Hc as (-> & _). done.
Qed.

(** ** Tokens *)

Section tokens.
Context {b : list Z} {es : nat}.
Context (Hb : 0 ∉ take es b) (Hes : char_at b es = 0) (Hlen : (es <= length b)%nat).

(** The text of the line from [s] on. *)
Definition rest (s : nat) : list Z := drop s (take es b).

Lemma rest_cons s : (s < es)%nat -> rest s = char_at b s :: rest (S s).
Proof.
  intros Hs. unfold rest, char_at. rewrite nth_lookup. rewrite <- (drop_S (take es b) (default 0 (b !! s)) s); [done|].
  rewrite lookup_take_lt by done. destruct (lookup_lt_is_Some_2 b s ltac:(lia)) as [c ->]. done.
Qed.

Lemma rest_nil s : (es <= s)%nat -> rest s = [].
Proof. intros Hs. apply drop_ge. rewrite length_take. lia. Qed.

Lemma rest_length s : length (rest s) = (es - s)%nat.
Proof. unfold rest. rewrite length_drop, length_take. lia. Qed.

Lemma rest_skip_while p s k :
  (es - s)%nat = k -> rest (skip_while b p s k) = drop_while p (rest s) /\ (s <= skip_while b p s k)%nat.
Proof.
  revert s. induction k as [|k IH]; intros s Hk; cbn [skip_while].
  - by rewrite rest_nil by lia.
  - rewrite (rest_cons s) by lia. cbn [drop_while]. destruct (p (char_at b s)).
    + destruct (IH (S s) ltac:(lia)). split; [done|lia].
    + by rewrite rest_cons by lia.
Qed.

Lemma rest_skip_white s : rest (skip_white b es s) = strip (rest s).
Proof. by apply rest_skip_while. Qed.

(** [s] is before the text [txt], up to white space. *)
Definition at_text (s : nat) (txt : list Z) : Prop := (s <= es)%nat /\ strip (rest s) = strip txt.

Lemma at_text_rest s txt : (s <= es)%nat -> rest s = txt -> at_text s txt.
Proof. intros Hs <-. done. Qed.

Lemma at_text_eq s txt txt' : strip txt = strip txt' -> at_text s txt -> at_text s txt'.
Proof. intros He [Hs Ht]. split; [done|congruence]. Qed.

Lemma rest_head s c r : (s <= es)%nat -> rest s = c :: r -> (s < es)%nat /\ char_at b s = c /\ rest (S s) = r.
Proof.
  intros Hs Hr. assert (s < es)%nat as Hlt.
  { destruct (decide (s = es)) as [->|]; [by rewrite rest_nil in Hr|lia]. }
  rewrite rest_cons in Hr by done. by simplify_eq.
Qed.

Lemma peek_at s toks txt :
  0 ∉ toks -> at_text s txt ->
  exists s', peek b es s toks = (match strip txt with [] => false | c :: _ => bool_decide (c ∈ toks) end, s') /\
    (s <= s')%nat /\ at_text s' txt.
Proof.
  intros H0 [Hs Ht]. pose proof (skip_white_bounds (b := b) s Hs) as Hq. pose proof (rest_skip_white s) as Hr.
  rewrite Ht in Hr. exists (skip_white b es s). split_and!; [|lia|split; [lia|by rewrite Hr, strip_strip]].
  unfold peek. f_equal. destruct (strip txt) as [|c r].
  - assert (skip_white b es s = es) as ->; [|by rewrite Hes].
    pose proof (rest_length (skip_white b es s)) as Hl. rewrite Hr in Hl. cbn in Hl. lia.
  - destruct (rest_head _ _ _ (proj2 Hq) Hr) as (Hlt & Hc & _).
    rewrite has_In by done. rewrite Hc. rewrite (proj2 (Z.eqb_neq c 0)); [done|].
    rewrite <- Hc. eapply char_nonzero; [done..|lia].
Qed.

(** The token at the head of a text. *)
Lemma gettoken_at s c r :
  at_text s (c :: r) -> has whitespace c = false ->
  exists q, (s <= q < es)%nat /\ char_at b q = c /\ rest (S q) = r /\ skip_white b es s = q /\ c <> 0.
Proof.
  intros [Hs Ht] Hc. rewrite strip_cons in Ht by done. pose proof (rest_skip_white s) as Hr. rewrite Ht in Hr.
  pose proof (skip_white_bounds (b := b) s Hs) as Hq. destruct (rest_head _ _ _ (proj2 Hq) Hr) as (Hlt & Hcq & Hr').
  exists (skip_white b es s). split_and!; try done; [lia|]. rewrite <- Hcq. eapply char_nonzero; [done..|lia].
Qed.

Lemma at_after s : (s <= es)%nat -> at_text (skip_white b es s) (rest s) /\ (s <= skip_white b es s)%nat.
Proof.
  intros Hs. pose proof (skip_white_bounds (b := b) s Hs). split; [|lia].
  split; [lia|]. by rewrite rest_skip_white, strip_strip.
Qed.

Lemma gettoken_sym s c r :
  at_text s (c :: r) -> c ∈ bytes "|();&<" ->
  exists q eq s', gettoken b es s = (c, q, eq, s') /\ (s < s')%nat /\ at_text s' r.
Proof.
  intros Ha Hc. assert (has whitespace c = false) as Hw.
  { change (bytes "|();&<") with [124; 40; 41; 59; 38; 60] in Hc.
    apply has_symbols. change symbols with [60; 124; 62; 38; 59; 40; 41]. set_solver. }
  destruct (gettoken_at s c r Ha Hw) as (q & Hq & Hcq & Hr & Hsk & H0).
  destruct (at_after (S q) ltac:(lia)) as [Ht Hlt]. rewrite Hr in Ht.
  eexists q, (S q), _. unfold gettoken. rewrite Hsk, Hcq, (proj2 (Z.eqb_neq c 0)) by done.
  rewrite has_In, bool_decide_true by (done || set_solver). split_and!; [done|lia|done].
Qed.

Lemma gettoken_gt s r :
  at_text s (62 :: r) -> head r <> Some 62 ->
  exists q eq s', gettoken b es s = (62, q, eq, s') /\ (s < s')%nat /\ at_text s' r.
Proof.
  intros Ha Hh. destruct (gettoken_at s 62 r Ha eq_refl) as (q & Hq & Hcq & Hr & Hsk & H0).
  destruct (at_after (S q) ltac:(lia)) as [Ht Hlt]. rewrite Hr in Ht.
  eexists q, (S q), _. unfold gettoken. rewrite Hsk, Hcq.
  assert (char_at b (S q) <> 62) as Hn.
  { intros He. apply Hh. destruct (decide (S q = es)) as [Hq'|]; [by rewrite Hq', Hes in He|].
    rewrite rest_cons, He in Hr by lia. by subst r. }
  cbn. rewrite (proj2 (Z.eqb_neq _ _) Hn). split_and!; [done|lia|done].
Qed.

Lemma gettoken_gtgt s r :
  at_text s (62 :: 62 :: r) ->
  exists q eq s', gettoken b es s = (43, q, eq, s') /\ (s < s')%nat /\ at_text s' r.
Proof.
  intros Ha. destruct (gettoken_at s 62 (62 :: r) Ha eq_refl) as (q & Hq & Hcq & Hr & Hsk & H0).
  destruct (rest_head (S q) 62 r ltac:(lia) Hr) as (Hlt & Hc2 & Hr2).
  destruct (at_after (S (S q)) ltac:(lia)) as [Ht Hlt2]. rewrite Hr2 in Ht.
  eexists q, (S (S q)), _. unfold gettoken. rewrite Hsk, Hcq, Hc2. cbn. split_and!; [done|lia|done].
Qed.

Lemma gettoken_eof s txt :
  at_text s txt -> strip txt = [] -> exists q eq s', gettoken b es s = (0, q, eq, s') /\ (s <= s')%nat /\ at_text s' txt.
Proof.
  intros [Hs Ht] Hn. rewrite Hn in Ht. pose proof (rest_skip_white s) as Hr. rewrite Ht in Hr.
  pose proof (skip_white_bounds (b := b) s Hs). pose proof (rest_length (skip_white b es s)) as Hl. rewrite Hr in Hl.
  cbn in Hl. assert (skip_white b es s = es) as Hsk by lia. eexists _, _, _. unfold gettoken. rewrite Hsk, Hes. cbn.
  pose proof (skip_white_bounds (b := b) es (le_n es)).
  split_and!; [done|lia|]. split; [lia|]. by rewrite rest_skip_white, (rest_nil es), Hn by lia.
Qed.

Lemma slice_rest q n : (q + n <= es)%nat -> slice b (q, q + n)%nat = take n (rest q).
Proof.
  unfold slice. cbn [fst snd]. replace (q + n - q)%nat with n by lia. revert q.
  induction n as [|n IH]; intros q Hq; [done|]. cbn [seq map]. rewrite rest_cons by lia. cbn [take].
  f_equal. apply IH. lia.
Qed.

Lemma gettoken_word s w r :
  at_text s (w ++ r) -> word w -> ends_word r ->
  exists q eq s', gettoken b es s = (97, q, eq, s') /\ slice b (q, eq) = w /\ (s < s')%nat /\ at_text s' r.
Proof.
  intros Ha Hw Hr. destruct w as [|c w]; [by destruct Hw|]. destruct (word_head c w Hw) as (Hwh & Hsy & H0).
  destruct (gettoken_at s c (w ++ r) Ha Hwh) as (q & Hq & Hcq & Hrq & Hsk & _).
  destruct (rest_skip_while wordchar q (es - q) eq_refl) as [Hre Hle].
  change (skip_while b wordchar q (es - q)) with (skip_word b es q) in *.
  assert (rest q = (c :: w) ++ r) as Hrest by (rewrite rest_cons, Hcq, Hrq by lia; done).
  rewrite Hrest, drop_while_all in Hre by (done || by apply word_wordchars).
  pose proof (rest_length (skip_word b es q)) as Hl1. pose proof (rest_length q) as Hl2.
  rewrite Hre in Hl1. rewrite Hrest, length_app in Hl2. cbn [length] in Hl2.
  assert (skip_word b es q <= es)%nat.
  { pose proof (skip_while_spec (b := b) wordchar q (es - q)). unfold skip_word, wordchar in *. lia. }
  assert (skip_word b es q = q + length (c :: w))%nat as He by (cbn [length]; lia).
  destruct (at_after (skip_word b es q) ltac:(done)) as [Ht Hlt]. rewrite Hre in Ht.
  eexists q, (skip_word b es q), _. unfold gettoken. rewrite Hsk, Hcq, (proj2 (Z.eqb_neq c 0)) by done.
  assert (c ∉ symbols) as Hns.
  { intros Hin. apply has_symbols in Hin as [Hin _]. congruence. }
  change symbols with [60; 124; 62; 38; 59; 40; 41] in Hns.
  rewrite has_In, bool_decide_false, (proj2 (Z.eqb_neq c 62)) by (change (bytes "|();&<") with [124; 40; 41; 59; 38; 60]; set_solver).
  split_and!; [done| |cbn [length] in *; lia|done].
  rewrite He, slice_rest, Hrest, take_app_length by (cbn [length] in *; lia). done.
Qed.
End tokens.

(** ** Redirections *)

Definition redirs (rs : list (list Z * Z * Z)) : list Z := concat ((fun r => rop r.1.2 ++ r.1.1) <$> rs).

Definition tredirs (t : tree) (rs : list (list Z * Z * Z)) : tree :=
  foldl (fun t r => TRedir t r.1.1 r.1.2 r.2) t rs.

Definition ok_redir (r : list Z * Z * Z) : Prop := word r.1.1 /\ redir_mode r.1.2 r.2.

(** A text that does not begin with one of [toks]. *)
Definition starts_not (toks post : list Z) : Prop := match strip post with [] => True | c :: _ => c ∉ toks end.

Definition stops : list Z := bytes "|)&;".

Lemma not_elem_of_stops : 0 ∉ stops.
Proof. by apply (bool_decide_unpack _). Qed.

Lemma stops_symbols c : c ∈ stops -> c ∈ symbols.
Proof. change stops with [124; 41; 38; 59]. change symbols with [60; 124; 62; 38; 59; 40; 41]. set_solver. Qed.

Lemma stops_not c : c ∈ stops -> c ∉ [60; 62].
Proof. change stops with [124; 41; 38; 59]. set_solver. Qed.

Lemma gt_symbols c : c ∈ [60; 62] -> c ∈ symbols.
Proof. change symbols with [60; 124; 62; 38; 59; 40; 41]. set_solver. Qed.

Section parse.
Context {b : list Z} {es : nat}.
Context (Hb : 0 ∉ take es b) (Hes : char_at b es = 0) (Hlen : (es <= length b)%nat).
Local Notation at_text := (at_text (b := b) (es := es)).

(** A parse that succeeds before [post], with the tree [t]. *)
Definition parses (s : nat) (r : pres (cmd * nat)) (t : tree) (post : list Z) : Prop :=
  exists c s', r = POk (c, s') /\ (s <= s')%nat /\ at_text s' post /\ cmd_tree (slice b) c = t.

(** The token of a redirection and its file. *)
Lemma redir_token s f mode fd post :
  at_text s (rop mode ++ f ++ post) -> word f -> redir_mode mode fd ->
  exists tok q eq s', gettoken b es s = (tok, q, eq, s') /\ (s < s')%nat /\ at_text s' (f ++ post) /\
    forall c q eq, redir_switch c tok q eq = REDIR c q eq mode fd.
Proof.
  intros Ha Hf [[-> ->]|[[-> ->]|[-> ->]]].
  - destruct (gettoken_sym Hb Hes Hlen s 60 (f ++ post) Ha) as (q & eq & s' & Hg & Hs & Ht); [elem|].
    eexists 60, q, eq, s'. done.
  - destruct (gettoken_gt Hb Hes Hlen s (f ++ post) Ha) as (q & eq & s' & Hg & Hs & Ht).
    { destruct f as [|c f]; [by destruct Hf|]. cbn. intros [= ->].
      by destruct (word_head 62 f Hf) as (_ & ? & _). }
    eexists 62, q, eq, s'. done.
  - destruct (gettoken_gtgt Hb Hlen s (f ++ post) Ha) as (q & eq & s' & Hg & Hs & Ht).
    eexists 43, q, eq, s'. done.
Qed.

Lemma peek_yes s toks c r :
  0 ∉ toks -> at_text s (c :: r) -> has whitespace c = false -> c ∈ toks ->
  exists s', peek b es s toks = (true, s') /\ (s <= s')%nat /\ at_text s' (c :: r).
Proof.
  intros H0 Ha Hw Hc. destruct (peek_at Hb Hes Hlen s toks (c :: r) H0 Ha) as (s' & Hp & Hs & Ht).
  rewrite strip_cons, bool_decide_true in Hp by done. eauto.
Qed.

Lemma peek_no s toks txt :
  0 ∉ toks -> at_text s txt -> starts_not toks txt ->
  exists s', peek b es s toks = (false, s') /\ (s <= s')%nat /\ at_text s' txt.
Proof.
  intros H0 Ha Hn. destruct (peek_at Hb Hes Hlen s toks txt H0 Ha) as (s' & Hp & Hs & Ht).
  unfold starts_not in Hn. exists s'. split_and!; [|done|done]. rewrite Hp. f_equal.
  destruct (strip txt); [done|]. by apply bool_decide_false.
Qed.

Lemma rop_head mode txt : exists c r, rop mode ++ txt = c :: r /\ c ∈ [60; 62] /\ has whitespace c = false /\ wordchar c = false.
Proof.
  unfold rop. destruct (mode =? O_RDONLY); [|destruct (mode =? O_REWRITE)]; (eexists _, _; split; [reflexivity|]); (split; [elem|done]).
Qed.

Lemma redirs_cons r rs post : redirs (r :: rs) ++ post = rop r.1.2 ++ r.1.1 ++ redirs rs ++ post.
Proof. unfold redirs. cbn. by rewrite <- !app_assoc. Qed.

Lemma redirs_ends_word rs post : (rs = [] -> ends_word post) -> ends_word (redirs rs ++ post).
Proof.
  intros Hp. destruct rs as [|r rs]; [by apply Hp|]. rewrite redirs_cons.
  by destruct (rop_head r.1.2 (r.1.1 ++ redirs rs ++ post)) as (c & l & -> & _ & _ & Hc).
Qed.

Lemma parseredirs_at rs c s post :
  at_text s (redirs rs ++ post) -> Forall ok_redir rs -> (rs <> [] -> ends_word post) -> starts_not [60; 62] post ->
  exists c' s', parseredirs b es c s = POk (c', s') /\ (s <= s')%nat /\ at_text s' post /\
    cmd_tree (slice b) c' = tredirs (cmd_tree (slice b) c) rs /\ (rs = [] -> c' = c).
Proof.
  unfold parseredirs. assert (es - s < S (es - s))%nat as Hk by lia. revert Hk. generalize (S (es - s)) as k.
  revert c s. induction rs as [|r rs IH]; intros c s [|k] Hk Ha Hok Hew Hn; try lia; cbn [parseredirs_loop].
  - destruct (peek_no s (bytes "<>") post) as (s' & -> & Hs & Ht); [set_solver|done|done|]. eauto 10.
  - rewrite redirs_cons in Ha. apply Forall_cons in Hok as [[Hf Hm] Hok].
    destruct (rop_head r.1.2 (r.1.1 ++ redirs rs ++ post)) as (ch & l & Hl & Hin & Hw & _).
    destruct (peek_yes s (bytes "<>") ch l) as (s1 & -> & Hs1 & Ht1); [set_solver|by rewrite <- Hl|done|done|].
    rewrite <- Hl in Ht1. destruct (redir_token s1 _ _ _ _ Ht1 Hf Hm) as (tok & q1 & e1 & s2 & -> & Hs2 & Ht2 & Hrc).
    destruct (gettoken_word Hb Hes Hlen s2 _ _ Ht2 Hf) as (q & e & s3 & -> & Hsl & Hs3 & Ht3).
    { apply redirs_ends_word. intros _. by apply Hew. }
    cbn [negb Z.eqb]. rewrite Hrc. destruct Ht3 as [Hle Ht3].
    destruct (IH (REDIR c q e r.1.2 r.2) s3 k) as (c' & s' & Hp & Hs' & Ht' & Htr & _); [lia|by split|done| |done|].
    { intros _. by apply Hew. }
    exists c', s'. split_and!; [done|lia|done| |done]. rewrite Htr. cbn [cmd_tree]. by rewrite Hsl.
Qed.

(** ** Simple commands *)

Lemma follows_not toks toks' post : follows toks post -> (forall c, c ∈ toks -> c ∉ toks') -> starts_not toks' post.
Proof. unfold follows, starts_not. destruct (strip post); [done|]. intros Hc Hn. by apply Hn. Qed.

Lemma word_app_not toks w txt : word w -> (forall c, c ∈ toks -> c ∈ symbols) -> starts_not toks (w ++ txt).
Proof.
  intros Hw Hs. destruct w as [|c w]; [by destruct Hw|]. destruct (word_head c w Hw) as (Hwh & Hsy & _).
  unfold starts_not. cbn [app]. rewrite strip_cons by done. intros Hc%Hs%has_symbols. destruct Hc. congruence.
Qed.

Lemma spaced_cons w ws txt : spaced (w :: ws) ++ txt = 32 :: w ++ spaced ws ++ txt.
Proof. unfold spaced. cbn. by rewrite <- app_assoc. Qed.

Lemma strip_space txt : strip (32 :: txt) = strip txt.
Proof. reflexivity. Qed.

Lemma exec_stop c argc s k post :
  at_text s post -> follows stops post ->
  exists s', parseexec_loop b es c argc s (S k) = POk (c, s') /\ (s <= s')%nat /\ at_text s' post.
Proof.
  intros Ha Hf. cbn [parseexec_loop]. destruct (strip post) as [|ch r] eqn:Hp.
  - destruct (peek_no s stops post) as (s1 & Hpk & Hs1 & Ht1); [by apply not_elem_of_stops|done|by unfold starts_not; rewrite Hp|].
    unfold stops in Hpk. rewrite Hpk. destruct (gettoken_eof Hes Hlen s1 post Ht1 Hp) as (q & e & s2 & -> & Hs2 & Ht2).
    exists s2. split_and!; [done|lia|done].
  - unfold follows in Hf. rewrite Hp in Hf.
    destruct (peek_yes s stops ch r) as (s1 & Hpk & Hs1 & Ht1); [by apply not_elem_of_stops| | |done|].
    + eapply at_text_eq; [|exact Ha]. by rewrite <- Hp, strip_strip.
    + by apply has_symbols, stops_symbols.
    + unfold stops in Hpk. rewrite Hpk. exists s1. split_and!; [done|done|].
      eapply at_text_eq; [|exact Ht1]. by rewrite <- Hp, strip_strip.
Qed.

Lemma exec_words ws argv s k rs post :
  ws <> [] -> at_text s (spaced ws ++ redirs rs ++ post) -> Forall word ws -> Forall ok_redir rs ->
  (length argv + length ws < MAXARGS)%nat -> follows stops post -> (es - s < k)%nat ->
  parses s (parseexec_loop b es (EXEC argv) (length argv) s k) (tredirs (TExec ((slice b <$> argv) ++ ws)) rs) post.
Proof.
  revert argv s k. induction ws as [|w ws IH]; intros argv s [|k] Hne Ha Hws Hrs Hl Hf Hk; try done; try lia.
  apply Forall_cons in Hws as [Hw Hws]. rewrite spaced_cons in Ha.
  assert (at_text s (w ++ spaced ws ++ redirs rs ++ post)) as Ha' by (eapply at_text_eq; [|exact Ha]; apply strip_space).
  cbn [parseexec_loop].
  destruct (peek_no s stops (w ++ spaced ws ++ redirs rs ++ post)) as (s1 & Hpk & Hs1 & Ht1);
    [by apply not_elem_of_stops|done|by apply word_app_not; [|apply stops_symbols]|].
  unfold stops in Hpk. rewrite Hpk.
  destruct (gettoken_word Hb Hes Hlen s1 _ _ Ht1 Hw) as (q & e & s2 & -> & Hsl & Hs2 & Ht2).
  { destruct ws as [|w2 ws]; [|by rewrite spaced_cons]. apply redirs_ends_word. intros _.
    eapply follows_ends_word; [|exact Hf]. apply stops_symbols. }
  cbn [negb Z.eqb add_arg]. cbn [length] in Hl. rewrite (proj2 (Nat.leb_gt _ _)) by lia.
  assert (length argv + 1 = length (argv ++ [(q, e)]))%nat as Hla by (rewrite length_app; done).
  destruct ws as [|w2 ws].
  - destruct (parseredirs_at rs (EXEC (argv ++ [(q, e)])) s2 post Ht2 Hrs) as (c' & s3 & Hp & Hs3 & Ht3 & Htr & _).
    { intros _. eapply follows_ends_word; [|exact Hf]. apply stops_symbols. }
    { eapply follows_not; [exact Hf|]. intros c Hc Hc'. by apply (stops_not c). }
    rewrite Hp. unfold mbind, pres_bind. cbn [fst snd]. destruct Ht3 as [Hs3e Ht3].
    destruct k as [|k]; [lia|]. destruct (exec_stop c' (S (length argv)) s3 k post) as (s4 & -> & Hs4 & Ht4); [by split|done|].
    exists c', s4. split_and!; [done|lia|done|]. rewrite Htr. cbn [cmd_tree]. by rewrite fmap_app, <- Hsl.
  - apply Forall_cons in Hws as [Hw2 Hws'].
    destruct (parseredirs_at [] (EXEC (argv ++ [(q, e)])) s2 (spaced (w2 :: ws) ++ redirs rs ++ post)) as (c' & s3 & Hp & Hs3 & Ht3 & _ & Hc'); try done.
    { rewrite spaced_cons. unfold starts_not. rewrite strip_space. apply (word_app_not [60; 62]); [done|]. intros c Hc. by apply gt_symbols. }
    rewrite Hp, (Hc' eq_refl). unfold mbind, pres_bind. cbn [fst snd]. destruct Ht3 as [Hs3e Ht3].
    replace (S (length argv)) with (length (argv ++ [(q, e)])) by lia.
    destruct (IH (argv ++ [(q, e)]) s3 k) as (c4 & s4 & -> & Hs4 & Ht4 & Htr); try done; try lia.
    { by constructor. }
    exists c4, s4. split_and!; [done|lia|done|]. rewrite Htr, fmap_app, <- app_assoc. cbn [fmap list_fmap]. by rewrite Hsl.
Qed.

(** ** The levels of the grammar *)

Lemma pres_assoc {A B C} (m : pres A) (f : A -> pres B) (g : B -> pres C) : (m ≫= f) ≫= g = m ≫= fun x => f x ≫= g.
Proof. by destruct m. Qed.

Lemma parseline_S n ps :
  parseline b es (S n) ps =
    r ← (r ← parsepipe b es n ps; backs_loop b es r.1 r.2 (S (es - r.2)));
    let (more, ps) := peek b es r.2 (bytes ";") in
    if more then
      let '(_, _, _, ps) := gettoken b es ps in
      r' ← parseline b es n ps;
      POk (LIST r.1 r'.1, r'.2)
    else POk (r.1, ps).
Proof. rewrite pres_assoc. reflexivity. Qed.

Lemma parsepipe_S n ps :
  parsepipe b es (S n) ps =
    r ← parseexec b es n ps;
    let (more, ps) := peek b es r.2 (bytes "|") in
    if more then
      let '(_, _, _, ps) := gettoken b es ps in
      r' ← parsepipe b es n ps;
      POk (PIPE r.1 r'.1, r'.2)
    else POk (r.1, ps).
Proof. reflexivity. Qed.

Lemma parseexec_S n ps :
  parseexec b es (S n) ps =
    let (block, ps) := peek b es ps (bytes "(") in
    if block then parseblock b es n ps
    else r ← parseredirs b es (EXEC []) ps; parseexec_loop b es r.1 0 r.2 (S (es - r.2)).
Proof. reflexivity. Qed.

Lemma parseblock_S n ps :
  parseblock b es (S n) ps =
    let (block, ps) := peek b es ps (bytes "(") in
    if negb block then PPanic (bytes "parseblock")
    else
      let '(_, _, _, ps) := gettoken b es ps in
      r ← parseline b es n ps;
      let (close, ps) := peek b es r.2 (bytes ")") in
      if negb close then PPanic (bytes "syntax - missing )")
      else let '(_, _, _, ps) := gettoken b es ps in parseredirs b es r.1 ps.
Proof. reflexivity. Qed.

Definition Pexec (t : tree) : Prop := forall n s rs post,
  at_text s (print 0 t ++ redirs rs ++ post) -> Forall ok_redir rs -> follows stops post ->
  (4 * (es - s) + 2 <= n)%nat -> parses s (parseexec b es n s) (tredirs t rs) post.

Definition Ppipe (t : tree) : Prop := forall n s post,
  at_text s (print 1 t ++ post) -> follows [41; 38; 59] post ->
  (4 * (es - s) + 3 <= n)%nat -> parses s (parsepipe b es n s) t post.

Definition Pback (t : tree) : Prop := forall n s k post,
  at_text s (print 2 t ++ replicate k 38 ++ post) -> follows [41; 59] post -> (4 * (es - s) + 3 <= n)%nat ->
  parses s (r ← parsepipe b es n s; backs_loop b es r.1 r.2 (S (es - r.2))) (Nat.iter k TBack t) post.

Definition Pline (t : tree) : Prop := forall n s post,
  at_text s (print 3 t ++ post) -> follows [41] post ->
  (4 * (es - s) + 4 <= n)%nat -> parses s (parseline b es n s) t post.

Lemma follows_sub toks toks' post : follows toks post -> (forall c, c ∈ toks -> c ∈ toks') -> follows toks' post.
Proof. unfold follows. destruct (strip post); [done|]. auto. Qed.

Lemma follows_cons toks c post : c ∈ toks -> c ∈ symbols -> follows toks (c :: post).
Proof. intros Hc Hs%has_symbols. unfold follows. rewrite strip_cons; [done|apply Hs]. Qed.

Lemma exec_TExec ws : ok (TExec ws) -> Pexec (TExec ws).
Proof.
  intros [Hl Hws] n s rs post Ha Hrs Hf Hn. cbn [print level Nat.leb] in Ha. destruct n as [|n]; [lia|]. rewrite parseexec_S.
  assert (at_text s (spaced ws ++ redirs rs ++ post)) as Ha'.
  { eapply at_text_eq; [|exact Ha]. destruct ws as [|w ws]; [done|]. cbn [join]. rewrite spaced_cons, strip_space. by rewrite <- app_assoc. }
  assert (starts_not (bytes "(") (spaced ws ++ redirs rs ++ post)) as Hns.
  { destruct ws as [|w ws].
    - cbn. destruct rs as [|r rs]; [cbn; eapply follows_not; [exact Hf|]; change stops with [124; 41; 38; 59]; set_solver|].
      rewrite redirs_cons. destruct (rop_head r.1.2 (r.1.1 ++ redirs rs ++ post)) as (c & l & -> & Hc & Hw & _).
      unfold starts_not. rewrite strip_cons by done. set_solver.
    - rewrite spaced_cons. apply Forall_cons in Hws as [Hw _]. unfold starts_not. rewrite strip_space.
      apply (word_app_not (bytes "(")); [done|]. change symbols with [60; 124; 62; 38; 59; 40; 41]. set_solver. }
  destruct (peek_no s (bytes "(") _ ltac:(set_solver) Ha' Hns) as (s1 & -> & Hs1 & Ht1).
  destruct ws as [|w ws].
  - destruct (parseredirs_at rs (EXEC []) s1 post Ht1 Hrs) as (c & s2 & -> & Hs2 & Ht2 & Htr & _).
    { intros _. eapply follows_ends_word; [|exact Hf]. apply stops_symbols. }
    { eapply follows_not; [exact Hf|]. apply stops_not. }
    unfold mbind, pres_bind. cbn [fst snd].
    destruct (exec_stop c 0 s2 (es - s2) post Ht2 Hf) as (s3 & -> & Hs3 & Ht3). exists c, s3. split_and!; [done|lia|done|done].
  - destruct (parseredirs_at [] (EXEC []) s1 _ Ht1) as (c & s2 & -> & Hs2 & Ht2 & _ & Hc); try done.
    { rewrite spaced_cons. unfold starts_not. rewrite strip_space. apply Forall_cons in Hws as [Hw _].
      apply (word_app_not [60; 62]); [done|]. apply gt_symbols. }
    rewrite (Hc eq_refl). unfold mbind, pres_bind. cbn [fst snd].
    destruct (exec_words (w :: ws) [] s2 (S (es - s2)) rs post) as (c4 & s4 & Hp & Hs4 & Ht4 & Htr); try done; [lia|].
    exists c4, s4. split_and!; [done|lia|done|done].
Qed.

Lemma exec_TRedir t f mode fd : ok (TRedir t f mode fd) -> Pexec t -> Pexec (TRedir t f mode fd).
Proof.
  intros (Ht & Hf & Hm) IH n s rs post Ha Hrs Hfo Hn. apply (IH n s ((f, mode, fd) :: rs)); [|by constructor|done|done].
  rewrite redirs_cons. cbn [print level Nat.leb fst snd] in *. by rewrite <- !app_assoc in Ha.
Qed.

Lemma exec_paren t : (0 < level t)%nat -> Pline t -> Pexec t.
Proof.
  intros Hlv Hline n s rs post Ha Hrs Hf Hn.
  assert (print 0 t = 40 :: print 3 t ++ [41]) as Hpr by (destruct t; cbn in *; (done || lia)).
  rewrite Hpr in Ha. cbn [app] in Ha. rewrite <- app_assoc in Ha. cbn [app] in Ha.
  destruct n as [|n]; [lia|]. rewrite parseexec_S.
  destruct (peek_yes s (bytes "(") 40 _ ltac:(set_solver) Ha eq_refl ltac:(elem)) as (s1 & -> & Hs1 & Ht1).
  destruct n as [|n]; [lia|]. rewrite parseblock_S.
  destruct (peek_yes s1 (bytes "(") 40 _ ltac:(set_solver) Ht1 eq_refl ltac:(elem)) as (s2 & -> & Hs2 & Ht2). cbn [negb].
  destruct (gettoken_sym Hb Hes Hlen s2 40 _ Ht2 ltac:(elem)) as (q & e & s3 & -> & Hs3 & Ht3).
  destruct (Hline n s3 (41 :: redirs rs ++ post)) as (c & s4 & -> & Hs4 & Ht4 & Htr); [done|apply follows_cons; elem|destruct Ht3; lia|].
  unfold mbind, pres_bind. cbn [fst snd].
  destruct (peek_yes s4 (bytes ")") 41 _ ltac:(set_solver) Ht4 eq_refl ltac:(elem)) as (s5 & -> & Hs5 & Ht5). cbn [negb].
  destruct (gettoken_sym Hb Hes Hlen s5 41 _ Ht5 ltac:(elem)) as (q2 & e2 & s6 & -> & Hs6 & Ht6).
  destruct (parseredirs_at rs c s6 post Ht6 Hrs) as (c7 & s7 & -> & Hs7 & Ht7 & Htr7 & _).
  { intros _. eapply follows_ends_word; [|exact Hf]. apply stops_symbols. }
  { eapply follows_not; [exact Hf|]. apply stops_not. }
  exists c7, s7. split_and!; [done|lia|done|by rewrite Htr7, Htr].
Qed.

(** A level that the tree does not use. *)
Lemma pipe_of_exec t : level t <> 1%nat -> Pexec t -> Ppipe t.
Proof.
  intros Hlv He n s post Ha Hf Hn. destruct n as [|n]; [lia|]. rewrite parsepipe_S.
  assert (print 1 t = print 0 t) as Hpr by (destruct t; cbn in *; (done || lia)). rewrite Hpr in Ha.
  destruct (He n s [] post) as (c & s1 & -> & Hs1 & Ht1 & Htr); [done|done| |lia|].
  { eapply follows_sub; [exact Hf|]. change stops with [124; 41; 38; 59]. set_solver. }
  unfold mbind, pres_bind. cbn [fst snd].
  destruct (peek_no s1 (bytes "|") post) as (s2 & -> & Hs2 & Ht2); [set_solver|done|eapply follows_not; [exact Hf|set_solver]|].
  exists c, s2. split_and!; [done|lia|done|done].
Qed.

Lemma pipe_TPipe l r : Pexec l -> Ppipe r -> Ppipe (TPipe l r).
Proof.
  intros Hl Hr n s post Ha Hf Hn. destruct n as [|n]; [lia|]. rewrite parsepipe_S.
  cbn [print level Nat.leb] in Ha. rewrite <- app_assoc in Ha.
  destruct (Hl n s [] (124 :: print 1 r ++ post)) as (c & s1 & -> & Hs1 & Ht1 & Htr); [done|done|apply follows_cons; elem|lia|].
  unfold mbind, pres_bind. cbn [fst snd].
  destruct (peek_yes s1 (bytes "|") 124 _ ltac:(set_solver) Ht1 eq_refl ltac:(elem)) as (s2 & -> & Hs2 & Ht2).
  destruct (gettoken_sym Hb Hes Hlen s2 124 _ Ht2 ltac:(elem)) as (q & e & s3 & -> & Hs3 & Ht3).
  destruct (Hr n s3 post) as (c4 & s4 & -> & Hs4 & Ht4 & Htr4); [done|done|destruct Ht3; lia|].
  exists (pipecmd c c4), s4. split_and!; [done|lia|done|]. unfold pipecmd, listcmd. cbn [cmd_tree]. by rewrite Htr, Htr4.
Qed.

Lemma backs_at k c s f post :
  at_text s (replicate k 38 ++ post) -> follows [41; 59] post -> (es - s < f)%nat ->
  parses s (backs_loop b es c s f) (Nat.iter k TBack (cmd_tree (slice b) c)) post.
Proof.
  revert c s f. induction k as [|k IH]; intros c s [|f] Ha Hf Hk; try lia; cbn [backs_loop].
  - destruct (peek_no s (bytes "&") post) as (s2 & -> & Hs2 & Ht2); [set_solver|done|eapply follows_not; [exact Hf|set_solver]|].
    exists c, s2. done.
  - destruct (peek_yes s (bytes "&") 38 _ ltac:(set_solver) Ha eq_refl ltac:(elem)) as (s2 & -> & Hs2 & Ht2).
    destruct (gettoken_sym Hb Hes Hlen s2 38 _ Ht2 ltac:(elem)) as (q & e & s3 & -> & Hs3 & Ht3).
    destruct (IH (backcmd c) s3 f) as (c4 & s4 & -> & Hs4 & Ht4 & Htr); [done|done|destruct Ht3; lia|].
    exists c4, s4. split_and!; [done|lia|done|]. rewrite Htr. unfold backcmd. cbn [cmd_tree]. by rewrite <- Nat.iter_succ_r.
Qed.

Lemma back_of_pipe t : level t <> 2%nat -> Ppipe t -> Pback t.
Proof.
  intros Hlv Hp n s k post Ha Hf Hn.
  assert (print 2 t = print 1 t) as Hpr by (destruct t; cbn in *; (done || lia)). rewrite Hpr in Ha.
  destruct (Hp n s (replicate k 38 ++ post)) as (c & s1 & -> & Hs1 & Ht1 & Htr); [done| |lia|].
  { destruct k; [|apply follows_cons; elem]. eapply follows_sub; [exact Hf|set_solver]. }
  unfold mbind, pres_bind. cbn [fst snd].
  destruct (backs_at k c s1 (S (es - s1)) post Ht1 Hf) as (c2 & s2 & -> & Hs2 & Ht2 & Htr2); [lia|].
  exists c2, s2. split_and!; [done|lia|done|by rewrite Htr2, Htr].
Qed.

Lemma back_TBack t : Pback t -> Pback (TBack t).
Proof.
  intros IH n s k post Ha Hf Hn. rewrite <- Nat.iter_succ_r. apply (IH n s (S k) post); [|done|done].
  cbn [print level Nat.leb] in Ha. by rewrite <- app_assoc in Ha.
Qed.

Lemma line_of_back t : level t <> 3%nat -> Pback t -> Pline t.
Proof.
  intros Hlv Hp n s post Ha Hf Hn. destruct n as [|n]; [lia|]. rewrite parseline_S.
  assert (print 3 t = print 2 t) as Hpr by (destruct t; cbn in *; (done || lia)). rewrite Hpr in Ha.
  destruct (Hp n s 0%nat post) as (c & s1 & -> & Hs1 & Ht1 & Htr); [done|eapply follows_sub; [exact Hf|set_solver]|lia|].
  unfold mbind, pres_bind. cbn [fst snd].
  destruct (peek_no s1 (bytes ";") post) as (s2 & -> & Hs2 & Ht2); [set_solver|done|eapply follows_not; [exact Hf|set_solver]|].
  exists c, s2. split_and!; [done|lia|done|done].
Qed.

Lemma line_TList l r : Pback l -> Pline r -> Pline (TList l r).
Proof.
  intros Hl Hr n s post Ha Hf Hn. destruct n as [|n]; [lia|]. rewrite parseline_S.
  cbn [print level Nat.leb] in Ha. rewrite <- app_assoc in Ha.
  destruct (Hl n s 0%nat (59 :: print 3 r ++ post)) as (c & s1 & -> & Hs1 & Ht1 & Htr); [done|apply follows_cons; elem|lia|].
  unfold mbind, pres_bind. cbn [fst snd].
  destruct (peek_yes s1 (bytes ";") 59 _ ltac:(set_solver) Ht1 eq_refl ltac:(elem)) as (s2 & -> & Hs2 & Ht2).
  destruct (gettoken_sym Hb Hes Hlen s2 59 _ Ht2 ltac:(elem)) as (q & e & s3 & -> & Hs3 & Ht3).
  destruct (Hr n s3 post) as (c4 & s4 & -> & Hs4 & Ht4 & Htr4); [done|done|destruct Ht3; lia|].
  exists (listcmd c c4), s4. split_and!; [done|lia|done|]. unfold pipecmd, listcmd. cbn [cmd_tree]. by rewrite Htr, Htr4.
Qed.

(** Every tree parses at every level. *)
Lemma tree_parses t : ok t -> Pexec t /\ Ppipe t /\ Pback t /\ Pline t.
Proof.
  induction t as [ws|t IH f mode fd|l IHl r IHr|l IHl r IHr|t IH]; intros Hok; cbn [ok] in Hok.
  - assert (Pexec (TExec ws)) as He by by apply exec_TExec.
    assert (Ppipe (TExec ws)) as Hp by by apply pipe_of_exec.
    assert (Pback (TExec ws)) by by apply back_of_pipe. split_and!; try done. by apply line_of_back.
  - assert (Pexec (TRedir t f mode fd)) as He by (apply exec_TRedir; [done|apply IH, Hok]).
    assert (Ppipe (TRedir t f mode fd)) as Hp by by apply pipe_of_exec.
    assert (Pback (TRedir t f mode fd)) by by apply back_of_pipe. split_and!; try done. by apply line_of_back.
  - destruct Hok as [Hl Hr]. destruct (IHl Hl) as (Hle & _), (IHr Hr) as (_ & Hrp & _).
    assert (Ppipe (TPipe l r)) as Hp by by apply pipe_TPipe.
    assert (Pback (TPipe l r)) by by apply back_of_pipe. assert (Pline (TPipe l r)) by by apply line_of_back.
    split_and!; try done. apply exec_paren; [cbn; lia|done].
  - destruct Hok as [Hl Hr]. destruct (IHl Hl) as (_ & _ & Hlb & _), (IHr Hr) as (_ & _ & _ & Hrl).
    assert (Pline (TList l r)) by by apply line_TList.
    assert (Pexec (TList l r)) by (apply exec_paren; [cbn; lia|done]).
    assert (Ppipe (TList l r)) by by apply pipe_of_exec. split_and!; try done. by apply back_of_pipe.
  - destruct (IH Hok) as (_ & _ & Hb' & _). assert (Pback (TBack t)) by by apply back_TBack.
    assert (Pline (TBack t)) by by apply line_of_back.
    assert (Pexec (TBack t)) by (apply exec_paren; [cbn; lia|done]).
    split_and!; try done. by apply pipe_of_exec.
Qed.
End parse.

(** ** The round trip *)

Lemma word_nonzero w : word w -> 0 ∉ w.
Proof. intros [_ Hf] H0. rewrite Forall_forall in Hf. by destruct (Hf 0 H0). Qed.

Lemma join_nonzero ws : Forall word ws -> 0 ∉ join ws.
Proof.
  intros Hws. assert (0 ∉ spaced ws) as Hs.
  { induction Hws as [|w ws Hw Hws IH]; [set_solver|]. rewrite <- (app_nil_r (spaced _)), spaced_cons, app_nil_r.
    apply word_nonzero in Hw. set_solver. }
  destruct ws as [|w ws]; cbn [join]; [set_solver|]. rewrite <- (app_nil_r (spaced _)), spaced_cons, app_nil_r in Hs. set_solver.
Qed.

Lemma print_nonzero t lv : ok t -> 0 ∉ print lv t.
Proof.
  revert lv. induction t as [ws|t IH f mode fd|l IHl r IHr|l IHl r IHr|t IH]; intros lv Hok; cbn [ok print] in *.
  - destruct Hok as [_ Hws%join_nonzero]. destruct (_ <=? _)%nat; set_solver.
  - destruct Hok as (Ht & Hf%word_nonzero & _). specialize (IH 0%nat Ht).
    assert (0 ∉ rop mode) by (unfold rop; repeat case_match; set_solver). destruct (_ <=? _)%nat; set_solver.
  - destruct Hok as [Hl Hr]. specialize (IHl 0%nat Hl). specialize (IHr 1%nat Hr). destruct (_ <=? _)%nat; set_solver.
  - destruct Hok as [Hl Hr]. specialize (IHl 2%nat Hl). specialize (IHr 3%nat Hr). destruct (_ <=? _)%nat; set_solver.
  - specialize (IH 2%nat Hok). destruct (_ <=? _)%nat; set_solver.
Qed.

Lemma strlen_nonzero b : 0 ∉ b -> Z.to_nat (ulib.strlen b) = length b.
Proof.
  intros H0. assert (ulib.strlen b = Z.of_nat (length b)) as ->; [|lia].
  induction b as [|c b IH]; cbn; [done|]. apply not_elem_of_cons in H0 as [Hc H0].
  rewrite (proj2 (Z.eqb_neq c 0)) by congruence. rewrite IH by done. lia.
Qed.

Lemma cmd_tree_ext f g c : (forall a, a ∈ words_of c -> f a = g a) -> cmd_tree f c = cmd_tree g c.
Proof.
  induction c; cbn; intros Hfg.
  - f_equal. apply list_fmap_ext. intros i a Ha. apply Hfg. by eapply list_elem_of_lookup_2.
  - f_equal; [apply IHc|apply Hfg]; set_solver.
  - f_equal; [apply IHc1|apply IHc2]; set_solver.
  - f_equal; [apply IHc1|apply IHc2]; set_solver.
  - f_equal. by apply IHc.
Qed.

Lemma strip_white ws : Forall (fun c => has whitespace c = true) ws -> strip ws = [].
Proof. unfold strip. induction 1 as [|c ws Hc Hws IH]; cbn; [done|]. by rewrite Hc. Qed.

Lemma white_nonzero ws : Forall (fun c => has whitespace c = true) ws -> 0 ∉ ws.
Proof. intros Hw H0. rewrite Forall_forall in Hw. by specialize (Hw 0 H0). Qed.

(** C28: The shell parses what its grammar prints: a command line printed from a
    tree, with parentheses only where precedence needs them and followed by any
    white space, is parsed by [parsecmd] into exactly that tree, lists, pipes,
    background marks, nested blocks and chains of redirections alike, and the
    strings of the command, as [runcmd] reads them from the buffer after
    [nulterminate], are those of the tree. *)
Theorem parse_print {S} (sys : os S) t ws s :
  ok t -> Forall (fun c => has whitespace c = true) ws ->
  exists c b', parsecmd sys (print 3 t ++ ws) s = URet s (c, b') /\ cmd_tree (fun a => str_at b' a.1) c = t.
Proof.
  intros Hok Hws. set (b := print 3 t ++ ws).
  assert (0 ∉ b) as H0 by (apply not_elem_of_app; split; [by apply print_nonzero|by apply white_nonzero]).
  pose proof (strlen_nonzero b H0) as Hes. pose proof (strlen_line b) as (Hb & Hz & Hlen). cbn zeta in *.
  rewrite Hes in *. set (es := length b) in *. unfold parsecmd. rewrite Hes. fold es.
  destruct (tree_parses Hb Hz Hlen t Hok) as (_ & _ & _ & Hline).
  destruct (Hline (4 * es + 4)%nat 0%nat ws) as (c & s1 & Hp & Hs1 & Ht1 & Htr).
  { apply at_text_rest; [lia|]. unfold rest. by rewrite drop_0, firstn_all2. }
  { unfold follows. by rewrite strip_white. }
  { lia. }
  pose proof (proj1 (parser_parsed Hb Hz Hlen (4 * es + 4)) 0%nat ltac:(lia) ltac:(lia)) as Hw.
  rewrite Hp in *. destruct Hw as [_ Hw]. destruct Ht1 as [Hs1e Ht1]. rewrite (strip_white ws) in Ht1 by done.
  assert (skip_white b es s1 = es) as Hsk.
  { pose proof (rest_length (b := b) (es := es) Hlen (skip_white b es s1)) as Hl. rewrite rest_skip_white, Ht1 in Hl by done.
    pose proof (skip_white_bounds (b := b) s1 Hs1e). cbn in Hl. lia. }
  unfold peek. rewrite Hsk, Nat.eqb_refl. exists c, (nulterminate c b). split; [done|].
  rewrite <- Htr. apply cmd_tree_ext. intros a Ha. by apply (nulterminate_str b es).
Qed.

(** [(a <in; b) | wc >>out &] and a newline. *)
Lemma parse_print_witness :
  let t := TBack (TPipe (TList (TRedir (TExec [bytes "a"]) (bytes "in") O_RDONLY 0) (TExec [bytes "b"]))
                        (TRedir (TExec [bytes "wc"; bytes "-l"]) (bytes "out") O_APPEND 1)) in
  exists c b',
    parsecmd three_os (bytes "(a<in;b)|wc -l>>out&" ++ [10]) ([], []) = URet ([], []) (c, b') /\ cmd_tree (fun a => str_at b' a.1) c = t.
Proof.
  intros t. apply (parse_print three_os t [10] ([], [])); [|by constructor].
  unfold t. cbn [ok]. unfold word, redir_mode.
  repeat match goal with
  | |- _ /\ _ => split
  | |- Forall _ _ => constructor
  end; first [done|unfold MAXARGS; cbn; lia|auto].
Defined.
