(* ===== verification/Sched.v ===== *)
(** * kernel/proc.c: the scheduler, sleep and wakeup on several harts

    The other files see [sleep] and [wakeup] as one hart sees them.  Here the
    functions of proc.c that change [p->state] run on all harts at once: each is
    cut where it acquires or releases a lock or switches context, and a step of
    the machine lets one hart run to its next cut.  Between the cuts the code
    only touches what its locks protect. *)

From stdpp Require Import functions.
From S2P Require Import Prelude Machine Layout Proc.

(** Whose kernel stack the hart runs on while it executes kernel code: a
    process, possibly in the middle of a [fork] that is making entry [o] of the
    table, or the scheduler, interrupted in front of entry [p]. *)
Inductive base := BProc (o : option Z) | BSched (p : Z).

(** Where a hart is.  The names say which function of proc.c it is in; the
    numbers order the cuts of that function. *)
Inductive pc :=
  | SOn                              (* scheduler: before intr_on() *)
  | SLoop (p : Z)                    (*   before acquire(&p->lock) *)
  | STest (p : Z)                    (*   before the test of p->state *)
  | SSwtch (p : Z)                   (*   before swtch(&c->context, &p->context) *)
  | SBack (p : Z)                    (*   after it *)
  | SRel (p : Z)                     (*   before release(&p->lock) *)
  | KRun (b : base)                  (* other code *)
  | Sl1 (o : option Z) (c : chan)    (* sleep: before acquire(&p->lock) *)
  | Sl2 (o : option Z) (c : chan)    (*   before release(lk) *)
  | Sl3 (o : option Z) (c : chan)    (*   before p->chan = chan *)
  | Sl4 (o : option Z) (c : chan)    (*   before sched() *)
  | Sl5 (o : option Z) (c : chan)    (*   after it *)
  | Sl6 (o : option Z) (c : chan)    (*   before release(&p->lock) *)
  | Sl7 (o : option Z) (c : chan)    (*   before acquire(lk) *)
  | Y1 (o : option Z)                (* yield: before acquire(&p->lock) *)
  | Y2 (o : option Z)                (*   before p->state = RUNNABLE *)
  | Y3 (o : option Z)                (*   before sched() *)
  | Y4 (o : option Z)                (*   before release(&p->lock) *)
  | X1                               (* exit: before p->state = ZOMBIE *)
  | X2                               (*   before release(&wait_lock) *)
  | X3                               (*   before sched() *)
  | XPanic                           (*   before panic(zombie exit) *)
  | W1 (b : base) (c : chan) (i : Z) (* wakeup: before the test i < NPROC *)
  | W2 (b : base) (c : chan) (i : Z) (*   before the test of proc[i].state *)
  | W3 (b : base) (c : chan) (i : Z) (*   before release(&proc[i].lock) *)
  | Ki1 (b : base) (q : Z)           (* kill: before the test of proc[q].state *)
  | Ki2 (b : base) (q : Z)           (*   before release(&proc[q].lock) *)
  | F1 (q : Z)                       (* allocproc: before the test of proc[q].state *)
  | F2 (q : Z)                       (* fork: before release(&np->lock) *)
  | F3 (q : Z)                       (*   before np->state = RUNNABLE *)
  | F4 (q : Z)                       (*   before the last release(&np->lock) *)
  | R1 (q : Z)                       (* wait: before the test of proc[q].state *)
  | R2 (q : Z)                       (*   before release(&proc[q].lock) *)
  | Fret.                            (* forkret: before release(&p->lock) *)

(** The machine.  For each process: [st] and [ch] are [p->state] and [p->chan],
    [saved] is where its kernel thread resumes when [p->context] is restored,
    [kept] is the local variable [intena] of its [sched].
    For each hart: [pcs] is where it is, [on] the process whose stack it uses,
    [cur] is [c->proc], [ctx] what [c->context] holds, [noff] and [intena] are
    [c->noff] and [c->intena], [intr] is whether interrupts are enabled.  [lock]
    gives the hart that holds a spin lock.  [ready c] stands for the condition that
    the sleepers on channel [c] wait for. *)
Record mach := Mach {
  st : Z -> procstate; ch : Z -> option chan; saved : Z -> option pc;
  pcs : Z -> pc; on : Z -> option Z; cur : Z -> option Z; ctx : Z -> option pc;
  noff : Z -> Z; lock : lockid -> option Z; ready : chan -> bool;
  intr : Z -> bool; intena : Z -> bool; kept : Z -> bool }.

Definition goto (h : Z) (k : pc) (s : mach) : mach :=
  Mach (st s) (ch s) (saved s) (<[h:=k]> (pcs s)) (on s) (cur s) (ctx s) (noff s) (lock s) (ready s) (intr s) (intena s) (kept s).
Definition set_st (p : Z) (x : procstate) (s : mach) : mach :=
  Mach (<[p:=x]> (st s)) (ch s) (saved s) (pcs s) (on s) (cur s) (ctx s) (noff s) (lock s) (ready s) (intr s) (intena s) (kept s).
Definition set_ch (p : Z) (c : option chan) (s : mach) : mach :=
  Mach (st s) (<[p:=c]> (ch s)) (saved s) (pcs s) (on s) (cur s) (ctx s) (noff s) (lock s) (ready s) (intr s) (intena s) (kept s).
Definition set_saved (p : Z) (k : option pc) (s : mach) : mach :=
  Mach (st s) (ch s) (<[p:=k]> (saved s)) (pcs s) (on s) (cur s) (ctx s) (noff s) (lock s) (ready s) (intr s) (intena s) (kept s).
Definition set_on (h : Z) (p : option Z) (s : mach) : mach :=
  Mach (st s) (ch s) (saved s) (pcs s) (<[h:=p]> (on s)) (cur s) (ctx s) (noff s) (lock s) (ready s) (intr s) (intena s) (kept s).
Definition set_cur (h : Z) (p : option Z) (s : mach) : mach :=
  Mach (st s) (ch s) (saved s) (pcs s) (on s) (<[h:=p]> (cur s)) (ctx s) (noff s) (lock s) (ready s) (intr s) (intena s) (kept s).
Definition set_ctx (h : Z) (k : option pc) (s : mach) : mach :=
  Mach (st s) (ch s) (saved s) (pcs s) (on s) (cur s) (<[h:=k]> (ctx s)) (noff s) (lock s) (ready s) (intr s) (intena s) (kept s).
Definition set_noff (h : Z) (n : Z) (s : mach) : mach :=
  Mach (st s) (ch s) (saved s) (pcs s) (on s) (cur s) (ctx s) (<[h:=n]> (noff s)) (lock s) (ready s) (intr s) (intena s) (kept s).
Definition set_lock (l : lockid) (o : option Z) (s : mach) : mach :=
  Mach (st s) (ch s) (saved s) (pcs s) (on s) (cur s) (ctx s) (noff s) (<[l:=o]> (lock s)) (ready s) (intr s) (intena s) (kept s).
Definition set_ready (c : chan) (b : bool) (s : mach) : mach :=
  Mach (st s) (ch s) (saved s) (pcs s) (on s) (cur s) (ctx s) (noff s) (lock s) (<[c:=b]> (ready s)) (intr s) (intena s) (kept s).
Definition set_intr (h : Z) (b : bool) (s : mach) : mach :=
  Mach (st s) (ch s) (saved s) (pcs s) (on s) (cur s) (ctx s) (noff s) (lock s) (ready s) (<[h:=b]> (intr s)) (intena s) (kept s).
Definition set_intena (h : Z) (b : bool) (s : mach) : mach :=
  Mach (st s) (ch s) (saved s) (pcs s) (on s) (cur s) (ctx s) (noff s) (lock s) (ready s) (intr s) (<[h:=b]> (intena s)) (kept s).
Definition set_kept (p : Z) (b : bool) (s : mach) : mach :=
  Mach (st s) (ch s) (saved s) (pcs s) (on s) (cur s) (ctx s) (noff s) (lock s) (ready s) (intr s) (intena s) (<[p:=b]> (kept s)).

(** kernel/spinlock.c.  A step that is not possible, or that panics, is [None]. *)
Definition push_off (h : Z) (s : mach) : mach :=
  let old := intr s h in
  let s := set_intr h false s in
  let s := if noff s h =? 0 then set_intena h old s else s in
  set_noff h (noff s h + 1) s.

Definition pop_off (h : Z) (s : mach) : option mach :=
  if intr s h then None
  else if noff s h <? 1 then None
  else
    let s := set_noff h (noff s h - 1) s in
    Some (if (noff s h =? 0) && intena s h then set_intr h true s else s).

(** [acquire] proceeds when the lock is free; [release] of a lock the hart does
    not hold panics. *)
Definition acq (h : Z) (l : lockid) (s : mach) : option mach :=
  match lock s l with
  | Some _ => None
  | None => Some (set_lock l (Some h) (push_off h s))
  end.

Definition rel (h : Z) (l : lockid) (s : mach) : option mach :=
  if decide (lock s l = Some h) then s ← pop_off h s; Some (set_lock l None s) else None.

(** The locks that the calls of [sleep] in the kernel pass with each channel. *)
Definition chan_lock (c : chan) : lockid :=
  match c with
  | ChProc _ => LkWait | ChPipeR pa | ChPipeW pa => LkPipe pa | ChLog => LkLog | ChSleep i => LkSleep i
  | ChTicks => LkTicks | ChConsR => LkCons | ChUart => LkUart | ChDiskFree | ChBuf _ => LkDisk
  end.

Section sched.
(** The lock that protects the condition awaited on a channel: the [lk] of the
    calls of [sleep] on it, also held around [wakeup]. *)
Variable clk : chan -> lockid.

(** swtch of swtch.S: to the process, and back to the scheduler. *)
Definition swtch_in (h p : Z) (s : mach) : option mach :=
  k ← saved s p;
  Some (goto h k (set_saved p None (set_on h (Some p) (set_ctx h (Some (SBack p)) s)))).

Definition swtch_out (h p : Z) (k : pc) (s : mach) : option mach :=
  k' ← ctx s h;
  Some (goto h k' (set_on h None (set_saved p (Some k) s))).

Definition scheduler (h : Z) (s : mach) : option mach :=
  match pcs s h with
  | SOn => Some (goto h (SLoop 0) (set_intr h true s))
  | SLoop p => s ← acq h (LkProc p) s; Some (goto h (STest p) s)
  | STest p =>
      if decide (st s p = RUNNABLE) then Some (goto h (SSwtch p) (set_cur h (Some p) (set_st p RUNNING s)))
      else Some (goto h (SRel p) s)
  | SSwtch p => swtch_in h p s
  | SBack p => Some (goto h (SRel p) (set_cur h None s))
  | SRel p =>
      s ← rel h (LkProc p) s;
      Some (goto h (if p + 1 <? NPROC then SLoop (p + 1) else SOn) s)
  | _ => None
  end.

(** [sched], called with the place [k] to come back to; [mycpu()->intena = intena] is
    done there. *)
Definition sched (h : Z) (k : pc) (s : mach) : option mach :=
  p ← cur s h;
  if negb (bool_decide (lock s (LkProc p) = Some h)) then None
  else if negb (noff s h =? 1) then None
  else if decide (st s p = RUNNING) then None
  else if intr s h then None
  else swtch_out h p k (set_kept p (intena s h) s).

Definition yield (h : Z) (s : mach) : option mach :=
  p ← cur s h;
  match pcs s h with
  | Y1 o => s ← acq h (LkProc p) s; Some (goto h (Y2 o) s)
  | Y2 o => Some (goto h (Y3 o) (set_st p RUNNABLE s))
  | Y3 o => sched h (Y4 o) s
  | Y4 o => s ← rel h (LkProc p) (set_intena h (kept s p) s); Some (goto h (KRun (BProc o)) s)
  | _ => None
  end.

Definition forkret (h : Z) (s : mach) : option mach :=
  p ← cur s h;
  match pcs s h with
  | Fret => s ← rel h (LkProc p) s; Some (goto h (KRun (BProc None)) s)
  | _ => None
  end.

Definition sleep (h : Z) (s : mach) : option mach :=
  p ← cur s h;
  match pcs s h with
  | Sl1 o c => s ← acq h (LkProc p) s; Some (goto h (Sl2 o c) s)
  | Sl2 o c => s ← rel h (clk c) s; Some (goto h (Sl3 o c) s)
  | Sl3 o c => Some (goto h (Sl4 o c) (set_st p SLEEPING (set_ch p (Some c) s)))
  | Sl4 o c => sched h (Sl5 o c) s
  | Sl5 o c => Some (goto h (Sl6 o c) (set_ch p None (set_intena h (kept s p) s)))
  | Sl6 o c => s ← rel h (LkProc p) s; Some (goto h (Sl7 o c) s)
  | Sl7 o c => s ← acq h (clk c) s; Some (goto h (KRun (BProc o)) s)
  | _ => None
  end.

Definition wakeup (h : Z) (s : mach) : option mach :=
  match pcs s h with
  | W1 b c i =>
      if i <? NPROC then
        if decide (cur s h = Some i) then Some (goto h (W1 b c (i + 1)) s)
        else s ← acq h (LkProc i) s; Some (goto h (W2 b c i) s)
      else Some (goto h (KRun b) s)
  | W2 b c i =>
      if bool_decide (st s i = SLEEPING) && bool_decide (ch s i = Some c)
      then Some (goto h (W3 b c i) (set_st i RUNNABLE s))
      else Some (goto h (W3 b c i) s)
  | W3 b c i => s ← rel h (LkProc i) s; Some (goto h (W1 b c (i + 1)) s)
  | _ => None
  end.

(** [kill] at the entry it has found. *)
Definition kill (h : Z) (s : mach) : option mach :=
  match pcs s h with
  | Ki1 b q =>
      if decide (st s q = SLEEPING) then Some (goto h (Ki2 b q) (set_st q RUNNABLE s))
      else Some (goto h (Ki2 b q) s)
  | Ki2 b q => s ← rel h (LkProc q) s; Some (goto h (KRun b) s)
  | _ => None
  end.

(** [exit] from [p->state = ZOMBIE] on, which it reaches with [wait_lock] held. *)
Definition exit (h : Z) (s : mach) : option mach :=
  p ← cur s h;
  match pcs s h with
  | X1 => Some (goto h X2 (set_st p ZOMBIE s))
  | X2 => s ← rel h LkWait s; Some (goto h X3 s)
  | X3 => sched h XPanic s
  | _ => None
  end.

(** [allocproc] at entry [q], and what [fork] does with the new process.  If
    memory is short, [freeproc] gives the entry back. *)
Definition fork (h : Z) (enomem : bool) (s : mach) : option mach :=
  match pcs s h with
  | F1 q =>
      if decide (st s q = UNUSED) then Some (goto h (F2 q) (set_saved q (Some Fret) (set_st q USED s)))
      else Some (goto h (F4 q) s)
  | F2 q =>
      if enomem then Some (goto h (F4 q) (set_ch q None (set_st q UNUSED s)))
      else s ← rel h (LkProc q) s; Some (goto h (KRun (BProc (Some q))) s)
  | F3 q => Some (goto h (F4 q) (set_st q RUNNABLE s))
  | F4 q => s ← rel h (LkProc q) s; Some (goto h (KRun (BProc None)) s)
  | _ => None
  end.

(** [wait] at a child, with [freeproc]. *)
Definition wait (h : Z) (s : mach) : option mach :=
  match pcs s h with
  | R1 q =>
      if decide (st s q = ZOMBIE) then Some (goto h (R2 q) (set_ch q None (set_st q UNUSED s)))
      else Some (goto h (R2 q) s)
  | R2 q => s ← rel h (LkProc q) s; Some (goto h (KRun (BProc None)) s)
  | _ => None
  end.

(** What kernel code does next. *)
Inductive call :=
  | CAcquire (l : lockid) | CRelease (l : lockid)  (* a lock that is not a p->lock *)
  | CSignal (c : chan)                             (* make the condition true; wakeup(c) *)
  | CClear (c : chan)                              (* make the condition false *)
  | CSleep (c : chan) | CYield | CExit
  | CKill (q : Z) | CFork (q : Z) | CForkEnd | CWait (q : Z)
  | CIntr (b : bool)                               (* intr_on(), intr_off(), or a trap and its return *)
  | CReturn.                                       (* return from an interrupt of the scheduler *)

Definition is_plock (l : lockid) : bool := match l with LkProc _ => true | _ => false end.

Definition in_table (q : Z) : bool := (0 <=? q) && (q <? NPROC).

(** Kernel code calls: what a sleeper waits for is tested and changed with the
    lock of the channel held, and whoever makes it true calls [wakeup] before
    giving up the lock.  The call and the change are one step here: [exit] calls
    [wakeup] first, but nobody else looks before it releases [wait_lock].  Code
    of a process turns interrupts on or off itself ([usertrap], [usertrapret]) or
    by an interrupt and its return, with no lock held. *)
Definition kernel (h : Z) (x : call) (b : base) (s : mach) : option mach :=
  match x, b with
  | CAcquire l, _ => if is_plock l then None else s ← acq h l s; Some (goto h (KRun b) s)
  | CRelease l, _ => if is_plock l then None else s ← rel h l s; Some (goto h (KRun b) s)
  | CSignal c, _ =>
      if decide (lock s (clk c) = Some h) then Some (goto h (W1 b c 0) (set_ready c true s)) else None
  | CClear c, _ => if decide (lock s (clk c) = Some h) then Some (goto h (KRun b) (set_ready c false s)) else None
  | CSleep c, BProc o =>
      if bool_decide (lock s (clk c) = Some h) && negb (ready s c) then Some (goto h (Sl1 o c) s) else None
  | CYield, BProc o => Some (goto h (Y1 o) s)
  | CExit, BProc None =>
      p ← cur s h;
      if decide (lock s LkWait = Some h) then s ← acq h (LkProc p) s; Some (goto h X1 s) else None
  | CKill q, _ => if in_table q then s ← acq h (LkProc q) s; Some (goto h (Ki1 b q) s) else None
  | CFork q, BProc None => if in_table q then s ← acq h (LkProc q) s; Some (goto h (F1 q) s) else None
  | CForkEnd, BProc (Some q) => s ← acq h (LkProc q) s; Some (goto h (F3 q) s)
  | CWait q, BProc None => if in_table q then s ← acq h (LkProc q) s; Some (goto h (R1 q) s) else None
  | CIntr v, BProc _ => if noff s h =? 0 then Some (goto h (KRun b) (set_intr h v s)) else None
  | CReturn, BSched p => if noff s h =? 0 then Some (goto h (SLoop p) (set_intr h true s)) else None
  | _, _ => None
  end.

(** A step of hart [h]: it goes on with the function it is in; in front of an
    entry the scheduler can be interrupted, if interrupts are on; kernel code makes its next call. *)
Inductive act := Go (enomem : bool) | Intr | Kernel (x : call).

Definition step (h : Z) (a : act) (s : mach) : option mach :=
  match a, pcs s h with
  | Intr, SLoop p => if intr s h then Some (goto h (KRun (BSched p)) (set_intr h false s)) else None
  | Kernel x, KRun b => kernel h x b s
  | Go _, (SOn | SLoop _ | STest _ | SSwtch _ | SBack _ | SRel _) => scheduler h s
  | Go _, (Sl1 _ _ | Sl2 _ _ | Sl3 _ _ | Sl4 _ _ | Sl5 _ _ | Sl6 _ _ | Sl7 _ _) => sleep h s
  | Go _, (Y1 _ | Y2 _ | Y3 _ | Y4 _) => yield h s
  | Go _, (X1 | X2 | X3) => exit h s
  | Go _, (W1 _ _ _ | W2 _ _ _ | W3 _ _ _) => wakeup h s
  | Go _, (Ki1 _ _ | Ki2 _ _) => kill h s
  | Go e, (F1 _ | F2 _ | F3 _ | F4 _) => fork h e s
  | Go _, (R1 _ | R2 _) => wait h s
  | Go _, Fret => forkret h s
  | _, _ => None
  end.

(** After boot: [userinit] has made the first process runnable, and each hart
    enters [scheduler] with interrupts off. *)
Definition boot : mach :=
  Mach (fun p => if p =? 0 then RUNNABLE else UNUSED) (fun _ => None)
    (fun p => if p =? 0 then Some Fret else None)
    (fun _ => SOn) (fun _ => None) (fun _ => None) (fun _ => None) (fun _ => 0)
    (fun _ => None) (fun _ => false) (fun _ => false) (fun _ => false) (fun _ => false).

Inductive reachable : mach -> Prop :=
  | reach_boot : reachable boot
  | reach_step h a s s' : reachable s -> step h a s = Some s' -> reachable s'.

(** A run, for concrete machines. *)
Fixpoint run (l : list (Z * act)) (s : mach) : option mach :=
  match l with
  | [] => Some s
  | (h, a) :: l => s' ← step h a s; run l s'
  end.
End sched.
