(* ===== verification/SchedInv.v ===== *)
(** * What always holds of the harts, the processes and their locks

    The invariant of the machine of file Sched, by induction on its runs. *)

From stdpp Require Import functions.
From S2P Require Import Prelude Machine Layout Proc Sched.

(** ** What a place in the code means *)

(** Whose stack the code there runs on: a process's, the scheduler's with no
    process chosen, or the scheduler's with a process chosen. *)
Inductive kind := OnProc | OnSched (p : Z) | Chosen (p : Z).

Definition kind_base (b : base) : kind := match b with BProc _ => OnProc | BSched p => OnSched p end.

Definition kind_of (k : pc) : kind :=
  match k with
  | SOn => OnSched 0
  | SLoop p | STest p | SRel p => OnSched p
  | SSwtch p | SBack p => Chosen p
  | KRun b | W1 b _ _ | W2 b _ _ | W3 b _ _ | Ki1 b _ | Ki2 b _ => kind_base b
  | _ => OnProc
  end.

(** The [p->lock] that is held there, if the process is [me]. *)
Definition owns (k : pc) (me : Z) : option Z :=
  match k with
  | STest p | SSwtch p | SBack p | SRel p => Some p
  | Sl2 _ _ | Sl3 _ _ | Sl4 _ _ | Sl5 _ _ | Sl6 _ _ | Y2 _ | Y3 _ | Y4 _ | X1 | X2 | X3 | XPanic | Fret => Some me
  | W2 _ _ i | W3 _ _ i => Some i
  | Ki1 _ q | Ki2 _ q | F1 q | F2 q | F3 q | F4 q | R1 q | R2 q => Some q
  | _ => None
  end.

(** The state the process that is there has. *)
Definition state_at (k : pc) : procstate :=
  match k with
  | Sl4 _ _ => SLEEPING
  | Y3 _ => RUNNABLE
  | X2 | X3 => ZOMBIE
  | _ => RUNNING
  end.

(** The process that the process there is making. *)
Definition makes_base (b : base) : option Z := match b with BProc o => o | BSched _ => None end.

Definition makes (k : pc) : option Z :=
  match k with
  | KRun b | W1 b _ _ | W2 b _ _ | W3 b _ _ | Ki1 b _ | Ki2 b _ => makes_base b
  | Sl1 o _ | Sl2 o _ | Sl3 o _ | Sl4 o _ | Sl5 o _ | Sl6 o _ | Sl7 o _ | Y1 o | Y2 o | Y3 o | Y4 o => o
  | F2 q | F3 q => Some q
  | _ => None
  end.

(** The code there is in [wakeup(c)] and has not passed entry [p]. *)
Definition wakes (k : pc) (c : chan) (p : Z) : Prop :=
  match k with
  | W1 _ c' i | W2 _ c' i => c' = c /\ i <= p
  | W3 _ c' i => c' = c /\ i < p
  | _ => False
  end.

Definition resumable (k : pc) : Prop :=
  match k with Sl5 _ _ | Y4 _ | Fret => True | _ => False end.

Definition range (p : Z) : Prop := 0 <= p < NPROC.

(** ** The invariant *)

Section inv.
Context (clk : chan -> lockid).

Definition hart_ok (s : mach) (h : Z) : Prop :=
  match kind_of (pcs s h) with
  | OnProc => exists p, on s h = Some p /\ cur s h = Some p /\ ctx s h = Some (SBack p) /\ range p
  | OnSched p => on s h = None /\ cur s h = None /\ range p
  | Chosen p => on s h = None /\ cur s h = Some p /\ range p
  end.

(** The kernel thread of [p] is at [k], on a hart or suspended. *)
Definition thread (s : mach) (p : Z) (k : pc) : Prop :=
  (exists h, on s h = Some p /\ pcs s h = k) \/ saved s p = Some k.

(** What a suspended thread waits for, by the state of its process. *)
Definition suspended (s : mach) (p : Z) (k : pc) : Prop :=
  match st s p with
  | RUNNING => resumable k /\ exists h, pcs s h = SSwtch p
  | RUNNABLE => resumable k
  | SLEEPING => exists o c, k = Sl5 o c /\ ch s p = Some c
  | USED => k = Fret
  | ZOMBIE => k = XPanic
  | UNUSED => True
  end.

(** [p] sleeps on [c], or is about to and has given up the lock of [c]. *)
Definition sleeper (s : mach) (p : Z) (c : chan) : Prop :=
  (st s p = SLEEPING /\ ch s p = Some c) \/ exists h o, on s h = Some p /\ pcs s h = Sl3 o c.

(** The condition on the locks of [sleep] and [wakeup]; [exit] is not resumed. *)
Definition locks_at (s : mach) (h : Z) (k : pc) : Prop :=
  match k with
  | Sl1 _ c | Sl2 _ c => lock s (clk c) = Some h /\ ready s c = false
  | W1 _ c i | W2 _ c i | W3 _ c i => lock s (clk c) = Some h /\ 0 <= i
  | F1 q => range q
  | XPanic => False
  | _ => True
  end.

Record inv (s : mach) : Prop := {
  i_hart h : hart_ok s h;
  i_own h p : owns (pcs s h) (default 0 (on s h)) = Some p -> lock s (LkProc p) = Some h;
  i_st h p : on s h = Some p -> st s p = state_at (pcs s h);
  i_ch h p o c : on s h = Some p -> pcs s h = Sl4 o c -> ch s p = Some c;
  i_uniq h h' p : on s h = Some p -> on s h' = Some p -> h = h';
  i_chosen h p : pcs s h = SSwtch p -> st s p = RUNNING /\ is_Some (saved s p);
  i_back h p : pcs s h = SBack p -> is_Some (saved s p);
  i_away p k : saved s p = Some k -> (forall h, on s h <> Some p) /\ suspended s p k;
  i_none p : saved s p = None -> st s p = UNUSED \/ exists h, on s h = Some p;
  i_range p : st s p <> UNUSED -> range p;
  i_used p k q : thread s p k -> makes k = Some q -> st s q = USED;
  i_maker p k p' k' q : thread s p k -> thread s p' k' -> makes k = Some q -> makes k' = Some q -> p = p';
  i_locks h : locks_at s h (pcs s h);
  i_wake p c : sleeper s p c -> ready s c = true -> exists h, wakes (pcs s h) c p }.
(** ** Steps that only move a hart and its locks *)

Lemma thread_goto s s' h k' p k1 :
  on s' = on s -> saved s' = saved s -> pcs s' = <[h:=k']> (pcs s) ->
  makes k' = makes (pcs s h) \/ makes k' = None -> thread s' p k1 -> forall q, makes k1 = Some q ->
  exists k0, thread s p k0 /\ makes k0 = Some q.
Proof.
  intros Ho Hs Hp Hm [(h' & H1 & H2)|H] q Hq; rewrite ?Ho, ?Hs, ?Hp in *.
  - unfold insert, fn_insert in H2. case_decide; subst.
    + exists (pcs s h'). split; [left; by eexists|]. destruct Hm; congruence.
    + eexists. split; [left; by eexists|]. done.
  - exists k1. split; [by right|done].
Qed.

Lemma inv_quiet s s' h k' :
  inv s ->
  st s' = st s -> ch s' = ch s -> saved s' = saved s -> on s' = on s ->
  (forall h', h' <> h -> cur s' h' = cur s h' /\ ctx s' h' = ctx s h') ->
  pcs s' = <[h:=k']> (pcs s) ->
  (forall l h', h' <> h -> lock s l = Some h' -> lock s' l = Some h') ->
  (forall c, ready s' c = ready s c \/ lock s (clk c) = Some h) ->
  hart_ok s' h ->
  (forall p, owns k' (default 0 (on s h)) = Some p -> lock s' (LkProc p) = Some h) ->
  (forall p, on s h = Some p -> state_at k' = state_at (pcs s h)) ->
  makes k' = makes (pcs s h) \/ makes k' = None ->
  (forall p, pcs s h <> SSwtch p /\ k' <> SSwtch p /\ k' <> SBack p) ->
  (forall o c, k' <> Sl4 o c) ->
  locks_at s' h k' ->
  (forall c o, k' = Sl3 o c -> ready s' c = false) ->
  (forall c p, sleeper s p c -> ready s' c = true ->
    wakes k' c p \/ (ready s c = true /\ (wakes (pcs s h) c p -> wakes k' c p))) ->
  inv s'.
Proof.
  intros I Hst Hch Hsv Hon Hcur Hpc Hlk Hrd Hh Hown Hs Hm Hsw H4 Hl H3 Hw. split.
  - intros h'. destruct (decide (h' = h)) as [->|Hne]; [done|]. pose proof (i_hart _ I h') as H.
    unfold hart_ok in *. destruct (Hcur h' Hne) as [-> ->].
    by rewrite Hon, Hpc, fn_lookup_insert_ne.
  - intros h' p. rewrite Hon, Hpc. destruct (decide (h = h')) as [->|Hne].
    + rewrite fn_lookup_insert. auto.
    + rewrite fn_lookup_insert_ne by done. intros H. apply Hlk; [done|]. by apply (i_own _ I).
  - intros h' p. rewrite Hon, Hpc, Hst. intros H. rewrite (i_st _ I h' p H). destruct (decide (h = h')) as [->|Hne].
    + rewrite fn_lookup_insert. symmetry. eauto.
    + by rewrite fn_lookup_insert_ne.
  - intros h' p o c. rewrite Hon, Hpc, Hch. intros H. destruct (decide (h = h')) as [->|Hne].
    + rewrite fn_lookup_insert. intros ->.
      by destruct (H4 o c).
    + rewrite fn_lookup_insert_ne by done. by apply (i_ch _ I).
  - intros h1 h2 p. rewrite Hon. apply (i_uniq _ I).
  - intros h' p. rewrite Hpc, Hst, Hsv. destruct (decide (h = h')) as [->|Hne].
    + rewrite fn_lookup_insert. intros ->. by destruct (Hsw p) as (_ & ? & _).
    + rewrite fn_lookup_insert_ne by done. apply (i_chosen _ I).
  - intros h' p. rewrite Hpc, Hsv. destruct (decide (h = h')) as [->|Hne].
    + rewrite fn_lookup_insert. intros ->. by destruct (Hsw p) as (_ & _ & ?).
    + rewrite fn_lookup_insert_ne by done. apply (i_back _ I).
  - intros p k. rewrite Hsv, Hon. intros H. destruct (i_away _ I p k H) as [H1 H2]. split; [done|].
    unfold suspended in *. rewrite Hst, Hch, Hpc. destruct (st s p); try done.
    destruct H2 as [H2 [h' H5]]. split; [done|]. exists h'. rewrite fn_lookup_insert_ne; [done|].
    intros <-. by destruct (Hsw p).
  - intros p. rewrite Hsv, Hon, Hst. apply (i_none _ I).
  - intros p. rewrite Hst. apply (i_range _ I).
  - intros p k q Ht Hq. rewrite Hst. destruct (thread_goto s s' h k' p k Hon Hsv Hpc Hm Ht q Hq) as (k0 & Ht0 & Hq0).
    by apply (i_used _ I p k0).
  - intros p k p' k2 q Ht Ht' Hq Hq'.
    destruct (thread_goto s s' h k' p k Hon Hsv Hpc Hm Ht q Hq) as (k0 & Ht0 & Hq0).
    destruct (thread_goto s s' h k' p' k2 Hon Hsv Hpc Hm Ht' q Hq') as (k1 & Ht1 & Hq1).
    by apply (i_maker _ I p k0 p' k1 q).
  - intros h'. rewrite Hpc. destruct (decide (h = h')) as [<-|Hne]; [by rewrite fn_lookup_insert|].
    rewrite fn_lookup_insert_ne by done. pose proof (i_locks _ I h') as H.
    unfold locks_at in *. destruct (pcs s h'); try done; destruct H as [HL HR]; split; auto;
      destruct (Hrd c) as [->|]; congruence.
  - intros p c Hsl Hr. destruct Hsl as [Hsl|(h' & o & H1 & H2)].
    + rewrite Hst, Hch in Hsl. destruct (Hw c p (or_introl Hsl) Hr) as [Hk|[Hr' Hk]].
      { exists h. by rewrite Hpc, fn_lookup_insert. }
      destruct (i_wake _ I p c (or_introl Hsl) Hr') as [h' Hw']. exists h'. rewrite Hpc.
      destruct (decide (h = h')) as [->|]; [rewrite fn_lookup_insert; auto|by rewrite fn_lookup_insert_ne].
    + rewrite Hon, Hpc in *. destruct (decide (h = h')) as [->|Hne].
      { rewrite fn_lookup_insert in H2. rewrite (H3 _ _ H2) in Hr. done. }
      rewrite fn_lookup_insert_ne in H2 by done.
      assert (Hsl : sleeper s p c) by (right; by eexists _, _).
      destruct (Hw c p Hsl Hr) as [Hk|[Hr' Hk]].
      { exists h. by rewrite fn_lookup_insert. }
      destruct (i_wake _ I p c Hsl Hr') as [h2 Hw']. exists h2.
      destruct (decide (h = h2)) as [->|]; [rewrite fn_lookup_insert; auto|by rewrite fn_lookup_insert_ne].
Qed.
(** ** Steps that change the state of a process *)

Lemma fn_ne {B} a b (f : Z -> B) x : a <> b -> <[a:=x]> f b = f b.
Proof. intros. by rewrite fn_lookup_insert_ne. Qed.

Ltac fn a b :=
  let n := fresh "Hne" in
  destruct (decide (a = b)) as [<-|n];
  [rewrite ?fn_lookup_insert in *|rewrite ?(fn_ne a b _ _ n) in *].

Lemma no_hart s p : inv s -> is_Some (saved s p) -> forall h, on s h <> Some p.
Proof. intros I [k H]. apply (i_away _ I p k H). Qed.

(** Two places that own the same lock are on the same hart. *)
Lemma own_uniq s h h' p :
  inv s -> owns (pcs s h) (default 0 (on s h)) = Some p -> owns (pcs s h') (default 0 (on s h')) = Some p -> h = h'.
Proof. intros I H1%(i_own _ I) H2%(i_own _ I). congruence. Qed.

(** A process that does not run, under its lock. *)
Lemma inv_set_st s q x :
  inv s -> (forall h, on s h <> Some q) -> (forall h, pcs s h <> SSwtch q) ->
  (forall k, saved s q = Some k -> match x with RUNNABLE => resumable k | UNUSED => True | _ => False end) ->
  (saved s q = None -> x = UNUSED) -> (x <> UNUSED -> range q) ->
  (forall p k, thread s p k -> makes k <> Some q) -> x <> SLEEPING -> inv (set_st q x s).
Proof.
  intros I Hon Hsw Hsv Hn Hr Hm Hx. split; simpl; try apply I.
  - intros h p H. fn q p; [by destruct (Hon h)|]. by apply (i_st _ I).
  - intros h p H. fn q p; [by destruct (Hsw h)|]. by apply (i_chosen _ I h).
  - intros p k H. destruct (i_away _ I p k H) as [H1 H2]. split; [done|]. unfold suspended in *. simpl. fn q p; [|done].
    specialize (Hsv k H). by destruct x.
  - intros p H. fn q p; [left; auto|]. by apply (i_none _ I).
  - intros p H. fn q p; [auto|]. by apply (i_range _ I).
  - intros p k q' Ht Hq. fn q q'; [by destruct (Hm p k Ht)|]. by apply (i_used _ I p k).
  - intros p c [[H1 H2]|H] Hc; simpl in *; [fn q p; [done|]|]; apply (i_wake _ I p c); try done; [by left|by right].
Qed.

Lemma inv_set_ch s q x : inv s -> st s q <> SLEEPING -> inv (set_ch q x s).
Proof.
  intros I Hst. split; simpl; try apply I.
  - intros h p o c H Hk. fn q p; [|by apply (i_ch _ I h p o)]. pose proof (i_st _ I h q H) as E. by rewrite Hk in E.
  - intros p k H. destruct (i_away _ I p k H) as [H1 H2]. split; [done|]. unfold suspended in *. simpl.
    destruct (st s p) eqn:E; try done. fn q p; [congruence|done].
  - intros p c [[H1 H2]|H] Hc; simpl in *; [fn q p; [done|]|]; apply (i_wake _ I p c); try done; [by left|by right].
Qed.

(** A process on a hart changes its own state. *)
Lemma inv_own s h p k' :
  inv s -> on s h = Some p -> kind_of (pcs s h) = OnProc -> kind_of k' = OnProc ->
  owns (pcs s h) p = Some p -> owns k' p = Some p -> makes k' = makes (pcs s h) ->
  st s p = RUNNING -> state_at k' <> UNUSED -> locks_at s h k' ->
  (forall c q, ~ wakes (pcs s h) c q) -> (forall o c, k' <> Sl3 o c) ->
  (forall c, state_at k' = SLEEPING -> ch s p = Some c -> exists o, pcs s h = Sl3 o c) ->
  (forall o c, k' = Sl4 o c -> ch s p = Some c) ->
  inv (goto h k' (set_st p (state_at k') s)).
Proof.
  intros I Hon Hk Hk' Ho Ho' Hm Hr Hu Hl Hw H3 Hs Hch.
  assert (Hrp : range p) by (apply (i_range _ I); by rewrite Hr).
  assert (Hsw : forall h' q, pcs s h' = SSwtch q -> h' <> h /\ q <> p).
  { intros h' q H. split; intros ->; [by rewrite H in Hk|].
    destruct (i_chosen _ I h' p H) as [_ Hsome]. by apply (no_hart _ _ I Hsome h). }
  assert (Ht : forall q k1 q', thread (goto h k' (set_st p (state_at k') s)) q k1 -> makes k1 = Some q' ->
    exists k0, thread s q k0 /\ makes k0 = Some q').
  { intros q k1 q' Ht Hq. apply (thread_goto s (goto h k' (set_st p (state_at k') s)) h k' q k1); auto. }
  split; simpl.
  - intros h'. pose proof (i_hart _ I h') as H. unfold hart_ok in *. simpl. fn h h'; [|done]. rewrite Hk in H. by rewrite Hk'.
  - intros h' q. fn h h'; [|by apply (i_own _ I)]. rewrite Hon. simpl. rewrite Ho'. intros [= <-].
    apply (i_own _ I). by rewrite Hon.
  - intros h' q H. fn h h'.
    + rewrite Hon in H. injection H as <-. by rewrite fn_lookup_insert.
    + rewrite fn_lookup_insert_ne; [by apply (i_st _ I)|]. intros <-. by destruct (i_uniq _ I h h' p).
  - intros h' q o c H. fn h h'; [|by apply (i_ch _ I)]. rewrite Hon in H. injection H as <-. apply Hch.
  - apply (i_uniq _ I).
  - intros h' q. fn h h'; [intros ->; by destruct (Hsw h p)|]. intros H. destruct (Hsw h' q H).
    rewrite fn_lookup_insert_ne by done. by apply (i_chosen _ I h').
  - intros h' q. fn h h'; [intros ->; done|]. apply (i_back _ I).
  - intros q k H. destruct (i_away _ I q k H) as [H1 H2]. split; [done|]. unfold suspended in *. simpl.
    fn p q; [by destruct (H1 h)|]. destruct (st s q); try done. destruct H2 as [? [h' H2]]. split; [done|].
    exists h'. destruct (Hsw h' q H2). by rewrite fn_lookup_insert_ne.
  - intros q H. fn p q; [right; by exists h|]. by apply (i_none _ I).
  - intros q H. fn p q; [done|]. by apply (i_range _ I).
  - intros q k1 q' Hth Hq. destruct (Ht q k1 q' Hth Hq) as (k0 & Hth0 & Hq0). pose proof (i_used _ I q k0 q' Hth0 Hq0).
    rewrite fn_lookup_insert_ne; [done|]. intros <-. congruence.
  - intros q k1 q2 k2 q' H1 H2 Hq1 Hq2. destruct (Ht _ _ _ H1 Hq1) as (k3 & H3' & Hq3).
    destruct (Ht _ _ _ H2 Hq2) as (k4 & H4 & Hq4). by apply (i_maker _ I q k3 q2 k4 q').
  - intros h'. pose proof (i_locks _ I h') as H. unfold locks_at in *. simpl. by fn h h'.
  - intros q c Hsl Hc. assert (Hsl0 : sleeper s q c).
    { destruct Hsl as [[H1 H2]|(h' & o & H1 & H2)]; simpl in *.
      - fn p q; [|by left]. right. destruct (Hs c H1 H2) as [o Ho1]. by exists h, o.
      - fn h h'; [by destruct (H3 o c)|]. right. by exists h', o. }
    destruct (i_wake _ I q c Hsl0 Hc) as [h' Hw']. exists h'. fn h h'; [by destruct (Hw c q)|done].
Qed.
(** The scheduler chooses a process: nobody runs it. *)
Lemma runnable_away s h p :
  inv s -> pcs s h = STest p -> st s p = RUNNABLE -> is_Some (saved s p).
Proof.
  intros I Hk Hr. destruct (saved s p) eqn:E; [by eexists|].
  destruct (i_none _ I p E) as [?|[h' Hon]]; [congruence|].
  pose proof (i_st _ I h' p Hon) as Hs. rewrite Hr in Hs.
  assert (h' = h) as ->.
  { apply (own_uniq s h' h p I); [|by rewrite Hk]. destruct (pcs s h'); try done. by rewrite Hon. }
  by rewrite Hk in Hs.
Qed.

Lemma inv_choose s h p :
  inv s -> pcs s h = STest p -> st s p = RUNNABLE -> inv (goto h (SSwtch p) (set_cur h (Some p) (set_st p RUNNING s))).
Proof.
  intros I Hk Hr. pose proof (runnable_away s h p I Hk Hr) as [k Hsv].
  destruct (i_away _ I p k Hsv) as [Haway Hsus]. unfold suspended in Hsus. rewrite Hr in Hsus.
  pose proof (i_hart _ I h) as Hh. unfold hart_ok in Hh. rewrite Hk in Hh. simpl in Hh. destruct Hh as (Hon & _ & Hrp).
  assert (Ht : forall q k1, thread (goto h (SSwtch p) (set_cur h (Some p) (set_st p RUNNING s))) q k1 -> thread s q k1).
  { intros q k1 [(h' & H1 & H2)|H]; [left|by right]. simpl in *. fn h h'; [congruence|]. by exists h'. }
  split; simpl.
  - intros h'. pose proof (i_hart _ I h') as H. unfold hart_ok in *. simpl. fn h h'; [|done]. done.
  - intros h' q. fn h h'; [|by apply (i_own _ I)]. intros [= <-]. apply (i_own _ I). by rewrite Hk.
  - intros h' q H. fn h h'; [congruence|]. fn p q; [by destruct (Haway h')|]. by apply (i_st _ I).
  - intros h' q o c H. fn h h'; [congruence|]. by apply (i_ch _ I).
  - apply (i_uniq _ I).
  - intros h' q. fn h h'.
    + intros [= <-]. rewrite fn_lookup_insert. split; [done|]. by eexists.
    + intros H. destruct (i_chosen _ I h' q H) as [H1 H2]. split; [|done]. fn p q; done.
  - intros h' q. fn h h'; [done|]. apply (i_back _ I).
  - intros q k1 H. destruct (i_away _ I q k1 H) as [H1 H2]. split; [done|]. unfold suspended in *. simpl.
    fn p q; [split; [congruence|]; exists h; by rewrite fn_lookup_insert|].
    destruct (st s q); try done. destruct H2 as [? [h' H2]]. split; [done|]. exists h'. fn h h'; [congruence|done].
  - intros q H. fn p q; [congruence|]. by apply (i_none _ I).
  - intros q H. fn p q; [done|]. by apply (i_range _ I).
  - intros q k1 q' Hth Hq. pose proof (i_used _ I q k1 q' (Ht _ _ Hth) Hq). fn p q'; [congruence|done].
  - intros q k1 q2 k2 q' H1 H2. apply (i_maker _ I); auto.
  - intros h'. pose proof (i_locks _ I h') as H. unfold locks_at in *. simpl. by fn h h'.
  - intros q c Hsl Hc. assert (Hsl0 : sleeper s q c).
    { destruct Hsl as [[H1 H2]|(h' & o & H1 & H2)]; simpl in *; [fn p q; [done|by left]|].
      fn h h'; [done|]. right. by exists h', o. }
    destruct (i_wake _ I q c Hsl0 Hc) as [h' Hw']. exists h'. fn h h'; [by rewrite Hk in Hw'|done].
Qed.

(** ** Context switches *)

Lemma inv_swtch_in s h p s' : inv s -> pcs s h = SSwtch p -> swtch_in h p s = Some s' -> inv s'.
Proof.
  intros I Hk. unfold swtch_in. destruct (saved s p) as [k|] eqn:Hsv; simpl; [|done]. intros [= <-].
  destruct (i_away _ I p k Hsv) as [Haway Hsus]. destruct (i_chosen _ I h p Hk) as [Hr _].
  unfold suspended in Hsus. rewrite Hr in Hsus. destruct Hsus as [Hres _].
  pose proof (i_hart _ I h) as Hh. unfold hart_ok in Hh. rewrite Hk in Hh. simpl in Hh. destruct Hh as (Hon & Hcur & Hrp).
  assert (Hown : lock s (LkProc p) = Some h) by (apply (i_own _ I); by rewrite Hk).
  set (s' := goto _ _ _).
  assert (Ht : forall q k1, thread s' q k1 -> thread s q k1).
  { intros q k1 [(h' & H1 & H2)|H]; simpl in *.
    - fn h h'; [|left; by exists h']. injection H1 as <-. subst. by right.
    - fn p q; [done|by right]. }
  split; simpl.
  - intros h'. pose proof (i_hart _ I h') as H. unfold hart_ok in *. simpl. fn h h'; [|done].
    replace (kind_of k) with OnProc by (by destruct k). by exists p.
  - intros h' q. fn h h'; [|by apply (i_own _ I)]. simpl. intros H. enough (q = p) by congruence.
    destruct k; simpl in *; try done; congruence.
  - intros h' q H. fn h h'; [injection H as <-; by destruct k|]. by apply (i_st _ I).
  - intros h' q o c H. fn h h'; [intros ->; done|]. by apply (i_ch _ I).
  - intros h1 h2 q H1 H2. fn h h1; fn h h2; try done; simplify_eq; [by destruct (Haway h2)|by destruct (Haway h1)|by apply (i_uniq _ I h1 h2 q)].
  - intros h' q H. fn h h'; [by subst|]. destruct (i_chosen _ I h' q H) as [H1 H2]. split; [done|]. fn p q; [|done].
    destruct Hne. apply (own_uniq s h h' p I); [by rewrite Hk|by rewrite H].
  - intros h' q H. fn h h'; [by subst|]. fn p q; [|by apply (i_back _ I h')].
    destruct Hne. apply (own_uniq s h h' p I); [by rewrite Hk|by rewrite H].
  - intros q k1 H. fn p q; [done|]. destruct (i_away _ I q k1 H) as [H1 H2]. split.
    + intros h'. fn h h'; [congruence|done].
    + unfold suspended in *. simpl. destruct (st s q); try done. destruct H2 as [? [h' H2]]. split; [done|].
      exists h'. fn h h'; [congruence|done].
  - intros q H. fn p q; [right; exists h; by rewrite fn_lookup_insert|].
    destruct (i_none _ I q H) as [?|[h' H']]; [by left|right]. exists h'. fn h h'; [congruence|done].
  - apply (i_range _ I).
  - intros q k1 q' Hth Hq. exact (i_used _ I q k1 q' (Ht _ _ Hth) Hq).
  - intros q k1 q2 k2 q' H1 H2. apply (i_maker _ I); auto.
  - intros h'. pose proof (i_locks _ I h') as H. unfold locks_at in *. simpl. fn h h'; [by destruct k|done].
  - intros q c Hsl Hc. assert (Hsl0 : sleeper s q c).
    { destruct Hsl as [?|(h' & o & H1 & H2)]; simpl in *; [by left|]. fn h h'; [by subst|]. right. by exists h', o. }
    destruct (i_wake _ I q c Hsl0 Hc) as [h' Hw']. exists h'. fn h h'; [by rewrite Hk in Hw'|done].
Qed.

Lemma inv_swtch_out s h p k s' :
  inv s -> on s h = Some p -> kind_of (pcs s h) = OnProc -> owns (pcs s h) p = Some p ->
  makes k = makes (pcs s h) \/ makes k = None -> (forall c q, ~ wakes (pcs s h) c q) -> state_at (pcs s h) <> RUNNING ->
  match pcs s h with Sl4 o c => k = Sl5 o c | Y3 o => k = Y4 o | X3 => k = XPanic | _ => False end ->
  swtch_out h p k s = Some s' -> inv s'.
Proof.
  intros I Hon Hkind Ho Hm Hw Hnr Hk. unfold swtch_out.
  pose proof (i_hart _ I h) as Hh. unfold hart_ok in Hh. rewrite Hkind, Hon in Hh.
  destruct Hh as (? & [= <-] & Hcur & Hctx & Hrp). rewrite Hctx. simpl. intros [= <-].
  assert (Hown : lock s (LkProc p) = Some h) by (apply (i_own _ I); by rewrite Hon).
  pose proof (i_st _ I h p Hon) as Hst.
  assert (Hsus : suspended s p k).
  { unfold suspended. rewrite Hst. pose proof (i_ch _ I h p) as Hch. destruct (pcs s h); subst; try done.
    eexists _, _. split; [done|]. eauto. }
  assert (Hothers : forall h', h' <> h -> on s h' <> Some p) by (intros h' Hne H; by destruct (i_uniq _ I h' h p)).
  set (s' := goto _ _ _).
  assert (Ht : forall q k1 q', thread s' q k1 -> makes k1 = Some q' -> exists k0, thread s q k0 /\ makes k0 = Some q').
  { intros q k1 q' [(h' & H1 & H2)|H] Hq; simpl in *.
    - fn h h'; [done|]. exists k1. split; [left; by exists h'|done].
    - fn p q; [|exists k1; split; [by right|done]]. injection H as <-. exists (pcs s h).
      split; [left; by exists h|]. destruct Hm; congruence. }
  split; simpl.
  - intros h'. pose proof (i_hart _ I h') as H. unfold hart_ok in *. simpl. by fn h h'.
  - intros h' q. fn h h'; [|by apply (i_own _ I)]. by intros [= <-].
  - intros h' q H. fn h h'; [done|]. by apply (i_st _ I).
  - intros h' q o c H. fn h h'; [done|]. by apply (i_ch _ I).
  - intros h1 h2 q H1 H2. fn h h1; fn h h2; try done. by apply (i_uniq _ I h1 h2 q).
  - intros h' q H. fn h h'; [done|]. destruct (i_chosen _ I h' q H) as [H1 H2]. split; [done|]. fn p q; [by eexists|done].
  - intros h' q H. fn p q; [by eexists|]. fn h h'; [congruence|]. by apply (i_back _ I h').
  - intros q k1 H. fn p q.
    + injection H as <-. split; [intros h'; fn h h'; [done|]; auto|]. unfold suspended in *. rewrite Hst in *.
      simpl. rewrite Hst. by destruct (pcs s h).
    + destruct (i_away _ I q k1 H) as [H1 H2]. split; [intros h'; by fn h h'|].
      unfold suspended in *. simpl. destruct (st s q); try done. destruct H2 as [? [h' H2]]. split; [done|].
      exists h'. fn h h'; [by rewrite H2 in Hk|done].
  - intros q H. fn p q; [done|]. destruct (i_none _ I q H) as [?|[h' H']]; [by left|right].
    exists h'. fn h h'; [congruence|done].
  - apply (i_range _ I).
  - intros q k1 q' Hth Hq. destruct (Ht _ _ _ Hth Hq) as (k0 & H0 & Hq0). exact (i_used _ I q k0 q' H0 Hq0).
  - intros q k1 q2 k2 q' H1 H2 Hq1 Hq2. destruct (Ht _ _ _ H1 Hq1) as (k3 & H3 & Hq3).
    destruct (Ht _ _ _ H2 Hq2) as (k4 & H4 & Hq4). by apply (i_maker _ I q k3 q2 k4 q').
  - intros h'. pose proof (i_locks _ I h') as H. unfold locks_at in *. simpl. by fn h h'.
  - intros q c Hsl Hc. assert (Hsl0 : sleeper s q c).
    { destruct Hsl as [?|(h' & o & H1 & H2)]; simpl in *; [by left|]. fn h h'; [done|]. right. by exists h', o. }
    destruct (i_wake _ I q c Hsl0 Hc) as [h' Hw']. exists h'. fn h h'; [by destruct (Hw c q)|done].
Qed.
(** A new entry of the table. *)
Lemma inv_alloc s h q :
  inv s -> pcs s h = F1 q -> st s q = UNUSED -> inv (goto h (F2 q) (set_saved q (Some Fret) (set_st q USED s))).
Proof.
  intros I Hk Hu. pose proof (i_hart _ I h) as Hh. unfold hart_ok in Hh. rewrite Hk in Hh. simpl in Hh.
  destruct Hh as (p & Hon & Hcur & Hctx & Hrp).
  assert (Haway : forall h, on s h <> Some q).
  { intros h' H. pose proof (i_st _ I h' q H) as E. rewrite Hu in E. by destruct (pcs s h'). }
  assert (Hsw : forall h, pcs s h <> SSwtch q) by (intros h' H; destruct (i_chosen _ I h' q H); congruence).
  assert (Hpq : p <> q) by (intros ->; by destruct (Haway h)).
  assert (Hmk : forall p k, thread s p k -> makes k <> Some q).
  { intros p' k Ht Hq. pose proof (i_used _ I p' k q Ht Hq). congruence. }
  set (s' := goto _ _ _).
  assert (Ht : forall r k1 q', thread s' r k1 -> makes k1 = Some q' -> (r = p /\ q' = q) \/ (thread s r k1 /\ q' <> q)).
  { intros r k1 q' [(h' & H1 & H2)|H] Hq; simpl in *.
    - fn h h'; [subst; simpl in Hq; left; split; congruence|]. right. assert (thread s r k1) by (left; by exists h').
      split; [done|]. intros ->. by apply (Hmk r k1).
    - fn q r; [by simplify_eq|]. right. split; [by right|]. intros ->. by apply (Hmk r k1); [right|]. }
  split; simpl.
  - intros h'. pose proof (i_hart _ I h') as H. unfold hart_ok in *. simpl. fn h h'; [by exists p|done].
  - intros h' r. fn h h'; [|by apply (i_own _ I)]. intros [= <-]. apply (i_own _ I). by rewrite Hk.
  - intros h' r H. fn q r; [by destruct (Haway h')|]. rewrite (i_st _ I h' r H). fn h h'; [by rewrite Hk|done].
  - intros h' r o c H. fn h h'; [done|]. by apply (i_ch _ I).
  - apply (i_uniq _ I).
  - intros h' r. fn h h'; [done|]. intros H. fn q r; [by destruct (Hsw h')|]. by apply (i_chosen _ I h').
  - intros h' r. fn h h'; [done|]. intros H. fn q r; [by eexists|]. by apply (i_back _ I h').
  - intros r k H. unfold suspended. simpl. fn q r; [by simplify_eq|]. destruct (i_away _ I r k H) as [H1 H2].
    split; [done|]. unfold suspended in H2. destruct (st s r); try done. destruct H2 as [? [h' H2]]. split; [done|].
    exists h'. fn h h'; [congruence|done].
  - intros r H. fn q r; [done|]. by apply (i_none _ I).
  - intros r H. fn q r; [|by apply (i_range _ I)]. pose proof (i_locks _ I h) as E. by rewrite Hk in E.
  - intros r k1 q' Hth Hq. destruct (Ht _ _ _ Hth Hq) as [[-> ->]|[H1 H2]]; [by rewrite fn_lookup_insert|].
    rewrite fn_ne by done. by apply (i_used _ I r k1).
  - intros r k1 r2 k2 q' H1 H2 Hq1 Hq2. destruct (Ht _ _ _ H1 Hq1) as [[-> ->]|[H3 H4]], (Ht _ _ _ H2 Hq2) as [[-> ?]|[H5 H6]]; try done.
    by apply (i_maker _ I r k1 r2 k2 q').
  - intros h'. pose proof (i_locks _ I h') as H. unfold locks_at in *. simpl. by fn h h'.
  - intros r c Hsl Hc. assert (Hsl0 : sleeper s r c).
    { destruct Hsl as [[H1 H2]|(h' & o & H1 & H2)]; simpl in *; [fn q r; [done|by left]|]. fn h h'; [done|]. right. by exists h', o. }
    destruct (i_wake _ I r c Hsl0 Hc) as [h' Hw']. exists h'. fn h h'; [by rewrite Hk in Hw'|done].
Qed.

(** ** Every step *)

(** Only the locks of hart [h] and the interrupt flags differ. *)
Record locks_only (h : Z) (s s1 : mach) : Prop := {
  lo_eq : s1 = Mach (st s) (ch s) (saved s) (pcs s) (on s) (cur s) (ctx s) (noff s1) (lock s1) (ready s)
    (intr s1) (intena s1) (kept s1);
  lo_lock l h' : h' <> h -> lock s l = Some h' -> lock s1 l = Some h' }.

Lemma locks_only_refl h s : locks_only h s s.
Proof. split; [by destruct s|done]. Qed.

Lemma locks_only_intr h v s : locks_only h s (set_intr h v s).
Proof. split; [by destruct s|done]. Qed.

(** The interrupt flags are not part of the invariant. *)
Lemma inv_intena s h v : inv s -> inv (set_intena h v s).
Proof. intros []. by split. Qed.

Lemma inv_kept s p v : inv s -> inv (set_kept p v s).
Proof. intros []. by split. Qed.

Lemma push_off_only h s : locks_only h s (push_off h s) /\ lock (push_off h s) = lock s.
Proof. unfold push_off. simpl. destruct (noff s h =? 0); (split; [split; [by destruct s|done]|done]). Qed.

Lemma pop_off_only h s s1 : pop_off h s = Some s1 -> locks_only h s s1 /\ lock s1 = lock s.
Proof.
  unfold pop_off. destruct (intr s h), (noff s h <? 1); try done. intros [= <-]. simpl.
  destruct (_ && _); (split; [split; [by destruct s|done]|done]).
Qed.

Lemma locks_only_set h l o s s1 : locks_only h s s1 -> (forall h', h' <> h -> lock s l <> Some h') ->
  locks_only h s (set_lock l o s1).
Proof.
  intros [H1 H2] Hl. split; [simpl; by rewrite H1|]. intros l' h' Hne H. simpl. unfold insert, fn_insert.
  case_decide; [subst; by destruct (Hl h')|auto].
Qed.

Lemma acq_inv h l s s1 : acq h l s = Some s1 ->
  locks_only h s s1 /\ lock s l = None /\ forall l', lock s1 l' = if decide (l = l') then Some h else lock s l'.
Proof.
  unfold acq. destruct (lock s l) eqn:E; [done|]. intros [= <-]. destruct (push_off_only h s) as [Ho Hl]. split_and!.
  - apply locks_only_set; [done|]. congruence.
  - done.
  - intros l'. unfold set_lock. cbn [lock]. by rewrite Hl.
Qed.

Lemma rel_inv h l s s1 : rel h l s = Some s1 ->
  locks_only h s s1 /\ lock s l = Some h /\ forall l', lock s1 l' = if decide (l = l') then None else lock s l'.
Proof.
  unfold rel. case_decide as E; [|done]. intros (s2 & [Ho Hl]%pop_off_only & [= <-])%bind_Some. split_and!.
  - apply locks_only_set; [done|]. congruence.
  - done.
  - intros l'. simpl. by rewrite Hl.
Qed.

Lemma inv_move s s1 h k' :
  inv s -> locks_only h s s1 ->
  kind_of k' = kind_of (pcs s h) \/ (exists p p', kind_of (pcs s h) = OnSched p /\ kind_of k' = OnSched p' /\ (range p -> range p')) ->
  (forall p, owns k' (default 0 (on s h)) = Some p -> lock s1 (LkProc p) = Some h) ->
  state_at k' = state_at (pcs s h) ->
  makes k' = makes (pcs s h) \/ makes k' = None ->
  (forall p, pcs s h <> SSwtch p /\ k' <> SSwtch p /\ k' <> SBack p) ->
  (forall o c, k' <> Sl4 o c) ->
  locks_at s1 h k' ->
  (forall c o, k' = Sl3 o c -> ready s c = false) ->
  (forall c p, sleeper s p c -> wakes (pcs s h) c p -> wakes k' c p) ->
  inv (goto h k' s1).
Proof.
  intros I [Heq Hlk] Hkind Hown Hst Hm Hsw H4 Hl H3 Hw. rewrite Heq.
  apply (inv_quiet s _ h k'); simpl; auto.
  - unfold hart_ok. simpl. rewrite fn_lookup_insert. pose proof (i_hart _ I h) as H. unfold hart_ok in H.
    destruct Hkind as [->|(p & p' & E1 & -> & Hr)]; [done|]. rewrite E1 in H. naive_solver.
  - unfold locks_at in *. rewrite Heq in Hl. simpl in Hl. by destruct k'.
Qed.
Hypothesis clk_ok : forall c p, clk c <> LkProc p.

(** The lock that the place owns, before the step. *)
Lemma owned s h p : inv s -> owns (pcs s h) (default 0 (on s h)) = Some p -> lock s (LkProc p) = Some h.
Proof. intros I. apply (i_own _ I). Qed.

Lemma proc_pc s h : inv s -> kind_of (pcs s h) = OnProc ->
  exists p, on s h = Some p /\ cur s h = Some p /\ ctx s h = Some (SBack p) /\ range p.
Proof. intros I Hk. pose proof (i_hart _ I h) as H. unfold hart_ok in H. by rewrite Hk in H. Qed.

(** Solves the side conditions of [inv_move]; [Hk] is the place of the hart. *)
Ltac lockof :=
  match goal with Hl : forall l', lock _ l' = _ |- _ => rewrite Hl end;
  first [rewrite decide_True by congruence; done | rewrite decide_False by first [done|congruence|apply clk_ok|intros ?; by eapply clk_ok]].

Ltac side I Hk :=
  rewrite ?Hk; simpl; try done;
  first
    [ by left
    | by right
    | intros ? [= <-]; first [lockof; (apply (owned _ _ _ I); by rewrite ?Hk) | lockof | (apply (owned _ _ _ I); by rewrite ?Hk)]
    | intros; split_and!; congruence
    | idtac ].

Ltac mv I Hk :=
  match goal with
  | H : acq _ _ _ = Some _ |- _ => apply acq_inv in H as (Hlo & Hfree & Hl)
  | H : rel _ _ _ = Some _ |- _ => apply rel_inv in H as (Hlo & Hheld & Hl)
  | |- _ => idtac
  end;
  match goal with
  | Hlo : locks_only _ ?s ?s1 |- inv (goto ?h ?k ?s1) => apply (inv_move s s1 h k I Hlo)
  | |- inv (goto ?h ?k ?s) => apply (inv_move s s h k I (locks_only_refl h s))
  end; side I Hk.

Lemma inv_scheduler s h s' : inv s -> scheduler h s = Some s' -> inv s'.
Proof.
  intros I. unfold scheduler. destruct (pcs s h) eqn:Hk; try done.
  - intros [= <-]. pose proof (locks_only_intr h true s). mv I Hk.
  - intros (s1 & H & [= <-])%bind_Some. mv I Hk.
  - case_decide as Hr; intros [= <-].
    + by apply inv_choose.
    + mv I Hk.
  - by apply inv_swtch_in.
  - intros [= <-]. pose proof (i_hart _ I h) as Hh. unfold hart_ok in Hh. rewrite Hk in Hh. destruct Hh as (Hon & _ & Hr).
    apply (inv_quiet s _ h (SRel p)); rewrite ?Hk; simpl; auto.
    + intros h' Hne. by rewrite fn_ne by congruence.
    + unfold hart_ok. simpl. rewrite !fn_lookup_insert. done.
    + intros ? [= <-]. apply (i_own _ I). by rewrite Hk.
    + done.
  - intros (s1 & H & [= <-])%bind_Some. destruct (p + 1 <? NPROC) eqn:E; mv I Hk.
    + right. exists p, (p + 1). split_and!; [done..|]. unfold range in *. lia.
    + right. exists p, 0. by split_and!.
Qed.
Lemma inv_sched s h k s' :
  inv s -> kind_of (pcs s h) = OnProc ->
  match pcs s h with Sl4 o c => k = Sl5 o c | Y3 o => k = Y4 o | X3 => k = XPanic | _ => False end ->
  sched h k s = Some s' -> inv s'.
Proof.
  intros I Hkind Hk. unfold sched. destruct (proc_pc s h I Hkind) as (p & Hon & Hcur & Hctx & Hr). rewrite Hcur. simpl.
  case_bool_decide; [|done]. simpl. destruct (noff s h =? 1); [|done]. simpl. destruct (decide (st s p = RUNNING)); [done|].
  destruct (intr s h); [done|].
  intros H2. apply (inv_swtch_out (set_kept p (intena s h) s) h p k); simpl; auto; [by apply inv_kept|..]; destruct (pcs s h); subst; try done; auto.
Qed.

Lemma inv_yield s h s' : inv s -> kind_of (pcs s h) = OnProc -> yield h s = Some s' -> inv s'.
Proof.
  intros I Hkind. unfold yield. destruct (proc_pc s h I Hkind) as (p & Hon & Hcur & Hctx & Hr). rewrite Hcur. simpl.
  destruct (pcs s h) eqn:Hk; try done.
  - intros (s1 & H & [= <-])%bind_Some. mv I Hk. rewrite Hon. intros ? [= <-]. lockof.
  - intros [= <-]. apply (inv_own s h p (Y3 o) I Hon); rewrite ?Hk; simpl; try (by intros ? ? []); try done.
    rewrite (i_st _ I h p Hon). by rewrite Hk.
  - intros H. eapply inv_sched; [done| |  |exact H]; by rewrite Hk.
  - intros (s1 & H & [= <-])%bind_Some. pose proof (inv_intena s h (kept s p) I) as I'.
    assert (Hk' : pcs (set_intena h (kept s p) s) h = Y4 o) by done. mv I' Hk'.
Qed.

Lemma inv_forkret s h s' : inv s -> kind_of (pcs s h) = OnProc -> forkret h s = Some s' -> inv s'.
Proof.
  intros I Hkind. unfold forkret. destruct (proc_pc s h I Hkind) as (p & Hon & Hcur & Hctx & Hr). rewrite Hcur. simpl.
  destruct (pcs s h) eqn:Hk; try done. intros (s1 & H & [= <-])%bind_Some. mv I Hk.
Qed.

Lemma inv_sleep s h s' : inv s -> kind_of (pcs s h) = OnProc -> sleep clk h s = Some s' -> inv s'.
Proof.
  intros I Hkind. unfold sleep. destruct (proc_pc s h I Hkind) as (p & Hon & Hcur & Hctx & Hr). rewrite Hcur. simpl.
  pose proof (i_locks _ I h) as HL. pose proof (i_st _ I h p Hon) as Hst.
  destruct (pcs s h) eqn:Hk; try done; simpl in HL, Hst.
  - intros (s1 & H & [= <-])%bind_Some. mv I Hk.
    + rewrite Hon. intros ? [= <-]. lockof.
    + destruct HL as [HL HR]. rewrite Hl, decide_False by (intros E; symmetry in E; by apply clk_ok in E).
      rewrite (lo_eq _ _ _ Hlo). done.
  - intros (s1 & H & [= <-])%bind_Some. mv I Hk.
    intros c' o' [= <- <-]. apply HL.
  - intros [= <-]. change (set_st p SLEEPING (set_ch p (Some c) s)) with (set_st p (state_at (Sl4 o c)) (set_ch p (Some c) s)).
    apply (inv_own (set_ch p (Some c) s) h p (Sl4 o c)); simpl; rewrite ?Hk; simpl; try (by intros ? ? []); try done.
    + apply inv_set_ch; [done|]. by rewrite Hst.
    + rewrite fn_lookup_insert. intros c' _ [= <-]. by exists o.
    + rewrite fn_lookup_insert. intros o' c' [= <- <-]. done.
  - intros H. eapply inv_sched; [done| |  |exact H]; by rewrite Hk.
  - intros [= <-]. set (s1 := set_ch p None _).
    assert (I' : inv s1) by (apply inv_set_ch; [by apply inv_intena|simpl; by rewrite Hst]).
    assert (Hk' : pcs s1 h = Sl5 o c) by done. mv I' Hk'.
  - intros (s1 & H & [= <-])%bind_Some. mv I Hk.
  - intros (s1 & H & [= <-])%bind_Some. mv I Hk.
Qed.
Lemma inv_rouse s h q :
  inv s -> owns (pcs s h) (default 0 (on s h)) = Some q -> (forall o c, pcs s h <> Sl4 o c) -> st s q = SLEEPING ->
  inv (set_st q RUNNABLE s).
Proof.
  intros I Ho Hk Hs.
  assert (Haway : forall h', on s h' <> Some q).
  { intros h' H. pose proof (i_st _ I h' q H) as E. rewrite Hs in E.
    assert (h' = h) as -> by (apply (own_uniq s h' h q I); [destruct (pcs s h'); try done; by rewrite H|done]).
    destruct (pcs s h); try done. by destruct (Hk o c). }
  apply inv_set_st; try done.
  - intros h' H. destruct (i_chosen _ I h' q H). congruence.
  - intros k H. destruct (i_away _ I q k H) as [_ Hsus]. unfold suspended in Hsus. rewrite Hs in Hsus.
    by destruct Hsus as (o & c & -> & _).
  - intros H. destruct (i_none _ I q H) as [?|[h' ?]]; [congruence|by destruct (Haway h')].
  - intros _. apply (i_range _ I). congruence.
  - intros p k Ht Hq. pose proof (i_used _ I p k q Ht Hq). congruence.
Qed.

Lemma sleeper_range s p c : inv s -> sleeper s p c -> range p.
Proof.
  intros I [[H _]|(h & o & H & Hk)]; apply (i_range _ I); [congruence|]. rewrite (i_st _ I h p H), Hk. done.
Qed.

(** A process that holds no lock of its own is not a sleeper. *)
Lemma sleeper_on s h p c :
  inv s -> on s h = Some p -> sleeper s p c -> state_at (pcs s h) = SLEEPING \/ exists o, pcs s h = Sl3 o c.
Proof.
  intros I Hon [[H _]|(h' & o & H & Hk)].
  - left. by rewrite <-(i_st _ I h p Hon).
  - right. exists o. by rewrite (i_uniq _ I h h' p).
Qed.

(** A process whose lock another hart holds is not on its way to sleep. *)
Lemma sleeper_owned s h p c :
  inv s -> owns (pcs s h) (default 0 (on s h)) = Some p -> (forall o, pcs s h <> Sl3 o c) -> sleeper s p c ->
  st s p = SLEEPING /\ ch s p = Some c.
Proof.
  intros I Ho Hk [?|(h' & o & H & Hk')]; [done|].
  assert (h = h') as -> by (apply (own_uniq s h h' p I); [done|by rewrite Hk', H]). by destruct (Hk o).
Qed.

Lemma inv_wakeup s h s' : inv s -> wakeup h s = Some s' -> inv s'.
Proof.
  intros I. unfold wakeup. pose proof (i_locks _ I h) as HL. destruct (pcs s h) eqn:Hk; try done; simpl in HL.
  - destruct (i <? NPROC) eqn:Hi.
    + case_decide as Hc.
      * intros [= <-]. mv I Hk; [split; [apply HL|lia]|]. intros c' p Hsl [<- Hle]. split; [done|]. enough (p <> i) by lia. intros ->.
        pose proof (i_hart _ I h) as Hh. unfold hart_ok in Hh. rewrite Hk, Hc in Hh. simpl in Hh.
        destruct b; simpl in Hh; [|naive_solver]. destruct Hh as (? & Hon & [= ->] & _).
        destruct (sleeper_on s h _ _ I Hon Hsl) as [E|[? E]]; by rewrite Hk in E.
      * intros (s1 & H & [= <-])%bind_Some. mv I Hk. split; [|lia]. rewrite Hl, decide_False; [apply HL|].
        intros E. symmetry in E. by apply clk_ok in E.
    + intros [= <-]. mv I Hk. intros c' p Hsl [<- Hle]. pose proof (sleeper_range s p _ I Hsl) as [? ?]. lia.
  - destruct (bool_decide (st s i = SLEEPING) && bool_decide (ch s i = Some c)) eqn:E; intros [= <-].
    + apply andb_true_iff in E as [E1%bool_decide_eq_true _].
      assert (I' : inv (set_st i RUNNABLE s)) by (apply (inv_rouse s h); rewrite ?Hk; done).
      assert (Hk' : pcs (set_st i RUNNABLE s) h = W2 b c i) by done. mv I' Hk'.
      intros c' p Hsl [<- Hle]. split; [done|]. enough (p <> i) by lia. intros ->.
      apply (sleeper_owned _ h i) in Hsl as [Hsl _]; [|done|by rewrite Hk'|by rewrite Hk'].
      simpl in Hsl. by rewrite fn_lookup_insert in Hsl.
    + mv I Hk. intros c' p Hsl [<- Hle]. split; [done|]. enough (p <> i) by lia. intros ->.
      apply (sleeper_owned _ h i) in Hsl as [H1 H2]; [|done|by rewrite Hk|by rewrite Hk].
      by rewrite !bool_decide_true in E.
  - intros (s1 & H & [= <-])%bind_Some. mv I Hk.
    + split; [|lia]. rewrite Hl, decide_False; [apply HL|]. intros E. symmetry in E. by apply clk_ok in E.
    + intros c' p Hsl [<- Hle]. split; [done|lia].
Qed.

Lemma inv_kill s h s' : inv s -> kill h s = Some s' -> inv s'.
Proof.
  intros I. unfold kill. destruct (pcs s h) eqn:Hk; try done.
  - case_decide as E; intros [= <-]; [|mv I Hk].
    assert (I' : inv (set_st q RUNNABLE s)) by (apply (inv_rouse s h); rewrite ?Hk; done).
    assert (Hk' : pcs (set_st q RUNNABLE s) h = Ki1 b q) by done. mv I' Hk'.
  - intros (s1 & H & [= <-])%bind_Some. mv I Hk.
Qed.

Lemma inv_exit s h s' : inv s -> kind_of (pcs s h) = OnProc -> exit h s = Some s' -> inv s'.
Proof.
  intros I Hkind. unfold exit. destruct (proc_pc s h I Hkind) as (p & Hon & Hcur & Hctx & Hr). rewrite Hcur. simpl.
  destruct (pcs s h) eqn:Hk; try done.
  - intros [= <-]. apply (inv_own s h p X2 I Hon); rewrite ?Hk; simpl; try (by intros ? ? []); try done.
    rewrite (i_st _ I h p Hon). by rewrite Hk.
  - intros (s1 & H & [= <-])%bind_Some. mv I Hk.
  - intros H. eapply inv_sched; [done| |  |exact H]; by rewrite Hk.
Qed.
(** After the maker of [q] has moved on, nobody makes [q]. *)
Lemma made_once s h k' p q :
  inv s -> on s h = Some p -> makes (pcs s h) = Some q -> makes k' = None ->
  forall r k, thread (goto h k' s) r k -> makes k <> Some q.
Proof.
  intros I Hon Hm Hk' r k Ht Hq.
  destruct (thread_goto s (goto h k' s) h k' r k eq_refl eq_refl eq_refl (or_intror Hk') Ht q Hq) as (k0 & H0 & Hq0).
  assert (r = p) as ->.
  { eapply (i_maker _ I r k0 p (pcs s h) q); eauto. left. by exists h. }
  destruct Ht as [(h' & H1 & H2)|H]; simpl in *.
  - assert (h' = h) as -> by (by apply (i_uniq _ I h' h p)). rewrite fn_lookup_insert in H2. congruence.
  - by destruct (i_away _ I p k H) as [H1 _], (H1 h).
Qed.

Lemma used_away s q h : inv s -> st s q = USED -> on s h <> Some q /\ pcs s h <> SSwtch q.
Proof.
  intros I Hu. split; intros H.
  - pose proof (i_st _ I h q H) as E. rewrite Hu in E. by destruct (pcs s h).
  - destruct (i_chosen _ I h q H). congruence.
Qed.

Lemma inv_fork s h e s' : inv s -> kind_of (pcs s h) = OnProc -> fork h e s = Some s' -> inv s'.
Proof.
  intros I Hkind. unfold fork. destruct (proc_pc s h I Hkind) as (p & Hon & Hcur & Hctx & Hr).
  assert (Hmk : forall q, makes (pcs s h) = Some q -> st s q = USED).
  { intros q Hq. apply (i_used _ I p (pcs s h)); [|done]. left. by exists h. }
  destruct (pcs s h) eqn:Hk; try done.
  - case_decide as E; intros [= <-]; [by apply inv_alloc|]. mv I Hk.
  - destruct e.
    + intros [= <-]. assert (I1 : inv (goto h (F4 q) s)) by mv I Hk. specialize (Hmk q eq_refl).
      change (inv (set_ch q None (set_st q UNUSED (goto h (F4 q) s)))).
      apply inv_set_ch; [|simpl; by rewrite fn_lookup_insert].
      apply inv_set_st; try done; try (intros h'; by apply (used_away _ q h' I1)).
      apply (made_once s h (F4 q) p q I Hon); by rewrite ?Hk.
    + intros (s1 & H & [= <-])%bind_Some. mv I Hk.
  - intros [= <-]. assert (I1 : inv (goto h (F4 q) s)) by mv I Hk. specialize (Hmk q eq_refl).
    change (inv (set_st q RUNNABLE (goto h (F4 q) s))).
    apply inv_set_st; try done; try (intros h'; by apply (used_away _ q h' I1)).
    + intros k H. destruct (i_away _ I q k H) as [_ Hsus]. unfold suspended in Hsus. rewrite Hmk in Hsus. by subst.
    + intros H. destruct (i_none _ I q H) as [?|[h' ?]]; [congruence|]. by destruct (used_away s q h' I Hmk).
    + intros _. apply (i_range _ I). congruence.
    + apply (made_once s h (F4 q) p q I Hon); by rewrite ?Hk.
  - intros (s1 & H & [= <-])%bind_Some. mv I Hk.
Qed.

Lemma inv_wait s h s' : inv s -> wait h s = Some s' -> inv s'.
Proof.
  intros I. unfold wait. destruct (pcs s h) eqn:Hk; try done.
  - case_decide as E; intros [= <-]; [|mv I Hk].
    assert (I' : inv (set_ch q None (set_st q UNUSED s))).
    { apply inv_set_ch; [|simpl; by rewrite fn_lookup_insert]. apply inv_set_st; try done.
      - intros h' H. pose proof (i_st _ I h' q H) as E'. rewrite E in E'.
        assert (h' = h) as -> by (apply (own_uniq s h' h q I); [destruct (pcs s h'); try done; by rewrite H|by rewrite Hk]).
        by rewrite Hk in E'.
      - intros h' H. destruct (i_chosen _ I h' q H). congruence.
      - intros p k Ht Hq. pose proof (i_used _ I p k q Ht Hq). congruence. }
    assert (Hk' : pcs (set_ch q None (set_st q UNUSED s)) h = R1 q) by done. mv I' Hk'.
  - intros (s1 & H & [= <-])%bind_Some. mv I Hk.
Qed.

Lemma in_table_range q : in_table q = true -> range q.
Proof. unfold in_table, range. intros H. apply andb_true_iff in H. lia. Qed.

(** The condition of a channel changes under its lock. *)
Lemma inv_ready s h c (v : bool) b k' :
  inv s -> pcs s h = KRun b -> lock s (clk c) = Some h ->
  k' = (if v then W1 b c 0 else KRun b) -> inv (goto h k' (set_ready c v s)).
Proof.
  intros I Hk Hl ->. assert (Hkind : forall v : bool, kind_of (if v then W1 b c 0 else KRun b) = kind_base b) by by intros [].
  apply (inv_quiet s _ h (if v then W1 b c 0 else KRun b)); simpl; rewrite ?Hk; try done.
  - intros c'. unfold insert, fn_insert. case_decide; [subst; by right|by left].
  - unfold hart_ok. simpl. rewrite fn_lookup_insert, Hkind. pose proof (i_hart _ I h) as H. unfold hart_ok in H.
    by rewrite Hk in H.
  - by destruct v.
  - by destruct v.
  - left. by destruct v.
  - intros p. by destruct v.
  - by destruct v.
  - destruct v; simpl; [|done]. done.
  - by destruct v.
  - intros c' p Hsl. unfold insert, fn_insert. case_decide; subst.
    + intros ->. left. simpl. split; [done|]. apply (sleeper_range s p c' I Hsl).
    + intros ?. by right.
Qed.

Lemma inv_kernel s h x b s' : inv s -> pcs s h = KRun b -> kernel clk h x b s = Some s' -> inv s'.
Proof.
  intros I Hk. pose proof (i_hart _ I h) as Hh. unfold hart_ok in Hh. rewrite Hk in Hh. simpl in Hh.
  destruct x, b as [o|p]; simpl; try done.
  - destruct (is_plock l); [done|]. intros (s1 & H & [= <-])%bind_Some. mv I Hk.
  - destruct (is_plock l); [done|]. intros (s1 & H & [= <-])%bind_Some. mv I Hk.
  - destruct (is_plock l); [done|]. intros (s1 & H & [= <-])%bind_Some. mv I Hk.
  - destruct (is_plock l); [done|]. intros (s1 & H & [= <-])%bind_Some. mv I Hk.
  - case_decide; [|done]. intros [= <-]. by eapply inv_ready.
  - case_decide; [|done]. intros [= <-]. by eapply inv_ready.
  - case_decide; [|done]. intros [= <-]. by eapply inv_ready.
  - case_decide; [|done]. intros [= <-]. by eapply inv_ready.
  - case_bool_decide; [|done]. destruct (ready s c) eqn:Hr; [done|]. intros [= <-]. mv I Hk.
  - intros [= <-]. mv I Hk.
  - destruct o; [done|]. destruct Hh as (p & Hon & -> & _). simpl. case_decide; [|done].
    intros (s1 & H' & [= <-])%bind_Some. mv I Hk. rewrite Hon. intros ? [= <-]. lockof.
  - destruct (in_table q); [|done]. intros (s1 & H & [= <-])%bind_Some. mv I Hk.
  - destruct (in_table q); [|done]. intros (s1 & H & [= <-])%bind_Some. mv I Hk.
  - destruct o; [done|]. destruct (in_table q) eqn:Hq; [|done]. intros (s1 & H & [= <-])%bind_Some. mv I Hk.
    by apply in_table_range.
  - destruct o; [|done]. intros (s1 & H & [= <-])%bind_Some. mv I Hk.
  - destruct o; [done|]. destruct (in_table q); [|done]. intros (s1 & H & [= <-])%bind_Some. mv I Hk.
  - destruct (noff s h =? 0); [|done]. intros [= <-]. pose proof (locks_only_intr h b0 s). mv I Hk.
  - destruct (noff s h =? 0); [|done]. intros [= <-]. pose proof (locks_only_intr h true s). mv I Hk.
Qed.

Lemma inv_step s h a s' : inv s -> step clk h a s = Some s' -> inv s'.
Proof.
  intros I. unfold step. destruct a as [e| |x].
  - destruct (pcs s h) eqn:Hk; try done.
    all: first [by apply inv_scheduler | apply inv_sleep | apply inv_yield | apply inv_exit | by apply inv_wakeup
               | by apply inv_kill | apply inv_fork | by apply inv_wait | apply inv_forkret]; rewrite ?Hk; done.
  - destruct (pcs s h) eqn:Hk; try done. destruct (intr s h); [|done]. intros [= <-].
    pose proof (locks_only_intr h false s). mv I Hk.
  - destruct (pcs s h) eqn:Hk; try done. by apply inv_kernel.
Qed.

Lemma inv_boot : inv boot.
Proof.
  split; simpl; try done.
  - intros p k. destruct (p =? 0) eqn:E; [|done]. intros [= <-]. split; [done|]. unfold suspended. simpl. by rewrite E.
  - intros p. destruct (p =? 0); [done|]. by left.
  - intros p. destruct (p =? 0) eqn:E; [|done]. intros _. zbool. subst. done.
  - intros p k q [(h & ? & _)|H]; [done|]. simpl in H. destruct (p =? 0); [|done]. by injection H as <-.
  - intros p k p' k' q [(h & ? & _)|H]; [done|]. simpl in H. destruct (p =? 0); [|done]. by injection H as <-.
Qed.

Lemma mach_inv s : reachable clk s -> inv s.
Proof. induction 1; [apply inv_boot|by eapply inv_step]. Qed.

(** ** Interrupts *)

(** The depth of [push_off] in the scheduler. *)
Definition depth_ok (k : pc) (n : Z) : Prop :=
  match k with
  | SOn | SLoop _ => n = 0
  | STest _ | SSwtch _ | SBack _ | SRel _ => n = 1
  | _ => True
  end.

Record irq_ok (s : mach) : Prop := {
  q_off h : 0 < noff s h -> intr s h = false;
  q_depth h : depth_ok (pcs s h) (noff s h) }.

(** A step of hart [h] before it moves on. *)
Record calm (h : Z) (s s1 : mach) : Prop := {
  c_pcs : pcs s1 = pcs s;
  c_others h' : h' <> h -> noff s1 h' = noff s h' /\ intr s1 h' = intr s h';
  c_off : 0 < noff s1 h -> intr s1 h = false }.

Lemma calm_same h s s1 : irq_ok s -> pcs s1 = pcs s -> noff s1 = noff s -> intr s1 = intr s -> calm h s s1.
Proof. intros Q Hp Hn Hi. split; rewrite ?Hn, ?Hi; [done|done|apply Q]. Qed.

Lemma irq_intena h v s : irq_ok s -> irq_ok (set_intena h v s).
Proof. intros []. by split. Qed.

Lemma calm_intr h v s : irq_ok s -> noff s h = 0 -> calm h s (set_intr h v s).
Proof. intros Q H0. split; simpl; [done| |lia]. intros h' Hne. by rewrite fn_ne by congruence. Qed.

Lemma calm_acq h l s s1 : irq_ok s -> acq h l s = Some s1 -> calm h s s1 /\ noff s1 h = noff s h + 1.
Proof.
  intros Q. unfold acq, push_off. destruct (lock s l); [done|]. intros [= <-]. simpl.
  destruct (noff s h =? 0); simpl; rewrite fn_lookup_insert; (split; [split; simpl|done]); try done;
    try (intros h' Hne; by rewrite !fn_ne by congruence); by rewrite !fn_lookup_insert.
Qed.

Lemma calm_rel h l s s1 : rel h l s = Some s1 -> calm h s s1 /\ noff s1 h = noff s h - 1.
Proof.
  unfold rel, pop_off. case_decide; [|done]. destruct (intr s h) eqn:E; [done|]. destruct (noff s h <? 1); [done|].
  simpl. rewrite fn_lookup_insert. intros [= <-]. destruct (noff s h - 1 =? 0) eqn:E0; simpl; [destruct (intena s h)|]; simpl;
    rewrite fn_lookup_insert; (split; [split; simpl|done]); try done;
    try (intros h' Hne; by rewrite !fn_ne by congruence); rewrite !fn_lookup_insert; zbool; try lia; done.
Qed.

Lemma irq_goto h k s s1 : irq_ok s -> calm h s s1 -> depth_ok k (noff s1 h) -> irq_ok (goto h k s1).
Proof.
  intros Q [Hp Ho Hi] Hk. split; intros h'; simpl.
  - destruct (decide (h' = h)) as [->|Hne]; [done|]. destruct (Ho h' Hne) as [-> ->]. apply (q_off _ Q).
  - rewrite Hp. fn h h'; [done|]. destruct (Ho h') as [-> _]; [done|]. apply (q_depth _ Q).
Qed.

(** A hart that goes on; [Q] is the condition before the step. *)
Ltac irq Q :=
  match goal with
  | |- None = Some _ -> _ => done
  | |- Some _ = Some _ -> _ => intros [= <-]
  | |- (_ ≫= _) = Some _ -> _ => let H := fresh "Hs" in intros (? & H & [= <-])%bind_Some
  end;
  match goal with
  | H : acq _ _ _ = Some _ |- irq_ok (goto ?h ?k _) => apply calm_acq in H as [Hc Hd]; [|exact Q]; apply (irq_goto h k _ _ Q Hc)
  | H : rel _ _ _ = Some _ |- irq_ok (goto ?h ?k _) => apply calm_rel in H as [Hc Hd]; apply (irq_goto h k _ _ Q Hc)
  | |- irq_ok (goto ?h ?k ?s1) => apply (irq_goto h k _ s1 Q); [by apply calm_same|]
  end; try done.

Lemma irq_scheduler s h s' : inv s -> irq_ok s -> scheduler h s = Some s' -> irq_ok s'.
Proof.
  intros I Q. pose proof (q_depth _ Q h) as Hn. unfold scheduler. destruct (pcs s h) eqn:Hk; try done; simpl in Hn.
  - intros [= <-]. by apply (irq_goto h _ s _ Q (calm_intr h true s Q Hn)).
  - irq Q. simpl. lia.
  - case_decide; irq Q.
  - unfold swtch_in. destruct (saved s p) as [k|] eqn:Hsv; [|done]. simpl. irq Q.
    destruct (i_away _ I p k Hsv) as [_ Hsus]. destruct (i_chosen _ I h p Hk) as [Hr _].
    unfold suspended in Hsus. rewrite Hr in Hsus. by destruct k, Hsus.
  - irq Q.
  - irq Q. destruct (p + 1 <? NPROC); simpl; lia.
Qed.

Lemma irq_sched s h k s' : inv s -> irq_ok s -> kind_of (pcs s h) = OnProc -> sched h k s = Some s' -> irq_ok s'.
Proof.
  intros I Q Hkind. unfold sched. destruct (proc_pc s h I Hkind) as (p & _ & Hcur & Hctx & _). rewrite Hcur. simpl.
  case_bool_decide; [|done]. simpl. destruct (noff s h =? 1) eqn:E; [|done]. simpl. case_decide; [done|].
  destruct (intr s h); [done|]. unfold swtch_out. simpl. rewrite Hctx. simpl. irq Q. zbool. done.
Qed.

Lemma irq_own s h e s' : inv s -> irq_ok s -> kind_of (pcs s h) = OnProc ->
  sleep clk h s = Some s' \/ yield h s = Some s' \/ exit h s = Some s' \/ forkret h s = Some s' \/ fork h e s = Some s' \/
  wait h s = Some s' -> irq_ok s'.
Proof.
  intros I Q Hkind. pose proof (irq_sched s h) as Hsched. pose proof (proc_pc s h I Hkind) as (p & _ & Hcur & _).
  unfold sleep, yield, exit, forkret, fork, wait. rewrite Hcur. simpl.
  pose proof (irq_intena h (kept s p) s Q) as Q'.
  destruct (pcs s h) eqn:Hk; intros Hs; repeat destruct Hs as [Hs|Hs]; try done; revert Hs;
    first [irq Q'|irq Q|case_match; irq Q|idtac].
  all: intros Hs; by eapply Hsched; rewrite ?Hk.
Qed.

Lemma irq_wakeup s h s' : irq_ok s -> wakeup h s = Some s' \/ kill h s = Some s' -> irq_ok s'.
Proof.
  intros Q. unfold wakeup, kill. destruct (pcs s h); intros [Hs|Hs]; try done; revert Hs; repeat case_match; irq Q.
Qed.

Lemma irq_kernel s h x b s' : irq_ok s -> kernel clk h x b s = Some s' -> irq_ok s'.
Proof.
  intros Q. destruct x, b as [o|p]; simpl; try done; repeat case_match; try done; try irq Q; zbool.
  - destruct (cur s h); [|done]. simpl. irq Q.
  - intros [= <-]. by apply (irq_goto h _ s _ Q (calm_intr h _ s Q ltac:(done))).
  - intros [= <-]. by apply (irq_goto h _ s _ Q (calm_intr h _ s Q ltac:(done))).
Qed.

Lemma irq_step s h a s' : inv s -> irq_ok s -> step clk h a s = Some s' -> irq_ok s'.
Proof.
  intros I Q. unfold step. destruct a as [e| |x].
  - pose proof (irq_own s h e s' I Q) as Hown. pose proof (irq_wakeup s h s' Q) as Hw.
    pose proof (irq_scheduler s h s' I Q) as Hsch.
    destruct (pcs s h); try done; intros Hs; first [exact (Hsch Hs)|apply Hw; tauto|apply Hown; [done|tauto]].
  - pose proof (q_depth _ Q h) as Hn. destruct (pcs s h) eqn:Hk; try done. simpl in Hn. case_match; [|done].
    intros [= <-]. by apply (irq_goto h _ s _ Q (calm_intr h _ s Q Hn)).
  - destruct (pcs s h); try done. by apply irq_kernel.
Qed.

(** Code that holds a spin lock is not interrupted. *)
Lemma mach_irq s : reachable clk s -> irq_ok s.
Proof.
  induction 1 as [|h a s s' Hr IH Hs]; [by split|]. apply (irq_step s h a); [by apply mach_inv|done|done].
Qed.
End inv.
