(* ===== verification/SchedTheorems.v ===== *)
(** * The scheduler and sleep/wakeup are safe on any number of harts

    Consequences of the invariant of file SchedInv, for the locks and channels of
    the kernel. *)

From stdpp Require Import functions.
From S2P Require Import Prelude Machine Layout Proc Sched SchedInv.

Notation reached := (reachable chan_lock).

Lemma chan_lock_ok c p : chan_lock c <> LkProc p.
Proof. by destruct c. Qed.

Lemma reached_inv s : reached s -> inv chan_lock s.
Proof. apply mach_inv, chan_lock_ok. Qed.

Lemma run_reached l s s' : reached s -> run chan_lock l s = Some s' -> reached s'.
Proof.
  revert s. induction l as [|[h a] l IH]; intros s Hr; simpl; [by intros [= <-]|].
  intros (s1 & H1 & H2)%bind_Some. apply (IH s1); [by eapply reach_step|done].
Qed.

(** A hart whose [c->proc] is [p] owns the lock of [p] or runs [p]. *)
Lemma cur_cases s h p : inv chan_lock s -> cur s h = Some p ->
  on s h = Some p \/ (is_Some (saved s p) /\ owns (pcs s h) (default 0 (on s h)) = Some p).
Proof.
  intros I Hc. pose proof (i_hart _ _ I h) as Hh. unfold hart_ok in Hh. rewrite Hc in Hh.
  destruct (kind_of (pcs s h)) as [|q|q] eqn:E.
  - destruct Hh as (q & -> & [= <-] & _). by left.
  - naive_solver.
  - destruct Hh as (_ & [= <-] & _). right. pose proof (i_chosen _ _ I h p) as H1. pose proof (i_back _ _ I h p) as H2.
    destruct (pcs s h); simpl in *; simplify_eq; try (by destruct b); naive_solver.
Qed.

(** C11: No process is on two harts.  On every interleaving of any number of
    harts through [scheduler], [sched], [yield], [sleep], [wakeup], [kill],
    [exit], [fork] and [wait], at most one hart's [c->proc] is [p]; a process is
    RUNNING only if a hart has it as [c->proc]; and code that runs on the stack
    of [p] finds [p] in [c->proc], so that [myproc()] is right. *)
Theorem one_hart_per_process s h p :
  reached s ->
  (cur s h = Some p -> forall h', cur s h' = Some p -> h' = h) /\
  (st s p = RUNNING -> exists h', cur s h' = Some p) /\
  (on s h = Some p -> cur s h = Some p).
Proof.
  intros I%reached_inv. split_and!.
  - intros H h' H'. destruct (cur_cases s h p I H) as [Ha|[Ha Ho]], (cur_cases s h' p I H') as [Hb|[Hb Ho']].
    + by apply (i_uniq _ _ I h' h p).
    + by destruct (no_hart _ _ _ I Hb h).
    + by destruct (no_hart _ _ _ I Ha h').
    + by apply (own_uniq _ s h' h p I).
  - intros Hr. destruct (saved s p) as [k|] eqn:Hs.
    + destruct (i_away _ _ I p k Hs) as [_ Hsus]. unfold suspended in Hsus. rewrite Hr in Hsus. destruct Hsus as [_ [h' Hk]].
      exists h'. pose proof (i_hart _ _ I h') as Hh. unfold hart_ok in Hh. rewrite Hk in Hh. apply Hh.
    + destruct (i_none _ _ I p Hs) as [?|[h' Hon]]; [congruence|]. exists h'.
      pose proof (i_hart _ _ I h') as Hh. unfold hart_ok in Hh. rewrite Hon in Hh. destruct (kind_of (pcs s h')); naive_solver.
  - intros Hon. pose proof (i_hart _ _ I h) as Hh. unfold hart_ok in Hh. rewrite Hon in Hh.
    destruct (kind_of (pcs s h)); naive_solver.
Qed.

(** C6: No wakeup is lost.  When the condition of a channel holds and the lock
    that protects it is free, no process is asleep on the channel, whatever
    the interleaving of [sleep] giving up the lock with other harts in
    [wakeup]; a process on its way into [sleep] is not missed either. *)
Theorem no_lost_wakeup s p c :
  reached s -> ready s c = true -> lock s (chan_lock c) = None -> ~ sleeper s p c.
Proof.
  intros I%reached_inv Hr Hl Hs. destruct (i_wake _ _ I p c Hs Hr) as [h Hw].
  pose proof (i_locks _ _ I h) as H. destruct (pcs s h); try done; simpl in *; destruct Hw as [-> _]; naive_solver.
Qed.

(** The four checks of [sched] and its context switch. *)
Lemma sched_checks s h : inv chan_lock s -> irq_ok s ->
  match pcs s h with Sl4 _ _ | Y3 _ | X3 => True | _ => False end ->
  is_Some (cur s h) /\ forall k, is_Some (sched h k s) <-> noff s h = 1.
Proof.
  intros I Q Hk. assert (Hkind : kind_of (pcs s h) = OnProc) by (by destruct (pcs s h)).
  destruct (proc_pc _ s h I Hkind) as (p & Hon & Hcur & Hctx & _).
  assert (Ho : lock s (LkProc p) = Some h) by (apply (i_own _ _ I); rewrite Hon; by destruct (pcs s h)).
  assert (Hst : st s p <> RUNNING) by (rewrite (i_st _ _ I h p Hon); by destruct (pcs s h)).
  split; [by eexists|]. intros k. unfold sched. rewrite Hcur. simpl. rewrite bool_decide_true by done. simpl.
  destruct (noff s h =? 1) eqn:Hn; simpl; zbool; [|by split; [intros []|]]. split; [done|]. intros _.
  rewrite decide_False by done. rewrite (q_off _ Q) by lia. unfold swtch_out. simpl. rewrite Hctx. by eexists.
Qed.

(** C23: The context switches never fail.  [scheduler] switches only to a process
    whose context has been saved.  In [sleep], [yield] and [exit] three of the
    four checks of [sched] always pass ([p->lock] is held, the process has left
    the RUNNING state, interrupts are off): [sched] reaches the scheduler exactly
    when no other lock is held ([noff] is 1).  Interrupts are off on every hart
    whose [noff] is positive, and a process that has exited is not resumed. *)
Theorem switches_never_fail s h e :
  reached s ->
  (forall p, pcs s h = SSwtch p -> is_Some (step chan_lock h (Go e) s)) /\
  (match pcs s h with Sl4 _ _ | Y3 _ | X3 => True | _ => False end ->
   is_Some (step chan_lock h (Go e) s) <-> noff s h = 1) /\
  (0 < noff s h -> intr s h = false) /\
  pcs s h <> XPanic.
Proof.
  intros Hr. pose proof (mach_irq _ chan_lock_ok s Hr) as Q. apply reached_inv in Hr as I. split_and!.
  - intros p Hk. unfold step, scheduler. rewrite Hk. unfold swtch_in. destruct (i_chosen _ _ I h p Hk) as [_ [k ->]].
    simpl. by eexists.
  - intros Hk. destruct (sched_checks s h I Q Hk) as [[p Hcur] Hs].
    unfold step. destruct (pcs s h) eqn:E; try done; unfold sleep, yield, exit; rewrite Hcur, E; apply Hs.
  - apply (q_off _ Q).
  - intros Hk. pose proof (i_locks _ _ I h) as H. by rewrite Hk in H.
Qed.

(** ** A run *)

Definition steps (h : Z) (n : nat) : list (Z * act) := replicate n (h, Go false).

(** Hart 0 starts the first process, which goes to sleep on [ticks]. *)
Definition run_to_sleep : list (Z * act) :=
  steps 0 5 ++ [(0, Kernel (CAcquire LkTicks)); (0, Kernel (CSleep ChTicks))].

(** While it does, hart 1 takes a clock interrupt. *)
Definition clock_tick (n : nat) : list (Z * act) :=
  [(1, Go false); (1, Intr); (1, Kernel (CAcquire LkTicks)); (1, Kernel (CSignal ChTicks))] ++ steps 1 n ++ [(1, Kernel (CRelease LkTicks))].

Definition asleep : mach := default boot (run chan_lock (run_to_sleep ++ steps 0 6) boot).

Definition woken : mach := default boot (run chan_lock (run_to_sleep ++ steps 0 6 ++ clock_tick 193) boot).

Lemma asleep_reached : reached asleep.
Proof.
  apply (run_reached (run_to_sleep ++ steps 0 6) boot); [constructor|]. unfold asleep.
  destruct (run chan_lock _ boot) eqn:E; [done|]. vm_compute in E. done.
Qed.

Lemma woken_reached : reached woken.
Proof.
  apply (run_reached (run_to_sleep ++ steps 0 6 ++ clock_tick 193) boot); [constructor|]. unfold woken.
  destruct (run chan_lock _ boot) eqn:E; [done|]. vm_compute in E. done.
Qed.

(** The process in front of [sched] in [sleep]. *)
Definition leaving : mach := default boot (run chan_lock (run_to_sleep ++ steps 0 3) boot).

Lemma leaving_reached : reached leaving.
Proof.
  apply (run_reached (run_to_sleep ++ steps 0 3) boot); [constructor|]. unfold leaving.
  destruct (run chan_lock _ boot) eqn:E; [done|]. vm_compute in E. done.
Qed.

Lemma one_hart_per_process_witness :
  on leaving 0 = Some 0 /\ cur leaving 0 = Some 0 /\ forall h', cur leaving h' = Some 0 -> h' = 0.
Proof.
  destruct (one_hart_per_process leaving 0 0 leaving_reached) as (H1 & _ & H3).
  assert (Hon : on leaving 0 = Some 0) by (vm_compute; reflexivity).
  split; [exact Hon|]. split; [exact (H3 Hon)|]. exact (H1 (H3 Hon)).
Defined.

Lemma no_lost_wakeup_witness :
  st asleep 0 = SLEEPING /\ ready woken ChTicks = true /\ lock woken LkTicks = None /\ ~ sleeper woken 0 ChTicks.
Proof.
  split; [vm_compute; reflexivity|]. assert (Hr : ready woken ChTicks = true) by (vm_compute; reflexivity).
  assert (Hl : lock woken LkTicks = None) by (vm_compute; reflexivity).
  split; [exact Hr|]. split; [exact Hl|]. exact (no_lost_wakeup woken 0 ChTicks woken_reached Hr Hl).
Defined.

Lemma switches_never_fail_witness :
  pcs leaving 0 = Sl4 None ChTicks /\ noff leaving 0 = 1 /\ is_Some (step chan_lock 0 (Go false) leaving) /\
  intr leaving 0 = false.
Proof.
  destruct (switches_never_fail leaving 0 false leaving_reached) as (_ & H & Hi & _).
  assert (Hk : pcs leaving 0 = Sl4 None ChTicks) by (vm_compute; reflexivity).
  assert (Hn : noff leaving 0 = 1) by (vm_compute; reflexivity).
  split; [exact Hk|]. split; [exact Hn|]. split.
  - rewrite Hk in H. exact (proj2 (H Logic.I) Hn).
  - apply Hi. rewrite Hn. lia.
Defined.
